(* ===== verification/_CoqProject ===== *)
-Q . S2P
Prelude.v
Float64.v
FloatOrder.v
Sha256.v
Currency.v
MoneyNanos.v
LedgerWrite.v
MicroMoney.v
ObservedOutput.v
Purse.v
Envelopes.v
LoraSettlement.v
RealtimeClearing.v
LivenessIndex.v
StripeSimulator.v
Inflight.v
ServiceLeasePricing.v
ServiceLeases.v
Funding.v
StripeCash.v
CashEvidence.v
AdminAudit.v
PrepaidCards.v
Payouts.v
ArrivalBatch.v
TaskStore.v
Verification.v
PrintedMoney.v
TaskGrowth.v
TaskLifecycle.v
TaskIdle.v
TaskBudget.v
TaskPrepaid.v
Disputes.v
TaskExamples.v
