(* ===== verification/Prelude.v ===== *)
(** * A verified model of the Merc control plane

    Merc is a compute marketplace.  Its control plane ([src/control], one Go program
    over a PostgreSQL schema) prices work, admits it against a buyer's funds, places
    it on suppliers' machines, meters it, and books the money.  This library
    translates the parts of that program whose correctness is a matter of
    arithmetic, tables and state machines, and proves what they promise.

    ** How the program is represented

    - A Go [int64] or [int] is a [Z] with every wrapping operation written out
      ([+w], [-w], [*w]); [/] and [%] truncate ([/t], [%t]).  A [float64] is an IEEE
      double ([Float64]).  A string is a byte string; a [uuid.UUID] is its number.
    - A function that returns [(T, error)] is a computation in [res]; an error is a
      sentinel or the format string it was built from, without the arguments.
    - A database transaction is a function from the tables it reads to the tables it
      leaves; an error leaves them unchanged.  A statement is an atomic step, with
      the row checks and unique indexes that [schema.sql] declares.  The value of
      the clock is an argument.
    - Package state (the settlement currency) and shared maps are explicit.

    ** Files

    - [Prelude]: integers, errors, the [res] monad, strings, identities, tactics.
    - [Float64], [Sha256]: IEEE doubles and SHA-256/HMAC, executable.  [FloatOrder]:
      rounding gives canonical numbers, which compare as their values do.
    - [Currency] ([currency.go]): currencies, minor units, the exact decimal parser,
      the settlement currency.  Printing then parsing an amount is the identity;
      conversion to ledger micros is exact; the process settles in one currency.
    - [MoneyNanos] ([money_nanos.go]): exact amounts.  [mulDiv] is the rounded exact
      quotient on both of its paths; floors, token charges, reuse charges and
      supplier shares round toward the party the comments name; the remainder carry
      loses nothing for any sequence of accruals.
    - [LedgerWrite] ([ledger_write.go]): the one place money rows are written, over
      the ledger table with its indexes and checks.  Rows keep the currency bound to
      their source; a dispute reverses a job exactly and its retry writes nothing.
    - [MicroMoney]: the [float64] dollars the ledger API still passes around carry
      every amount a ledger row can hold without loss, and in order.
    - [ObservedOutput] ([observed_output_settlement.go], with the fee functions of
      [economic_plan.go] and the units of [compute_plan.go]): what an accepted task is
      billed.  Never more than its frozen price, never less to the supplier than its
      share, and never below the contribution the schedule asks for.
    - [Purse] ([store_prepaid.go]): prepaid balances.  Every debit, restore and credit
      is keyed by a reference and happens once; a refund of a contract returns the
      balances of before.
    - [Envelopes] ([execution_envelope.go]): pre-authorised spending.  The counters of
      an envelope are the sums of its spends through any history; a hold can always
      be settled; the sweeps converge.
    - [LoraSettlement] ([lora_settlement.go]): outcome-priced training runs.  A
      settlement passes exactly when its gates hold and conserves the quote.
    - [RealtimeClearing] ([realtime_clearing.go]): ranking of realtime offers.
    - [LivenessIndex] ([liveness_index.go]): device presence on a timing wheel.  For
      every history of operations the enumeration is exactly the live devices.
    - [StripeSimulator] ([stripe_simulator.go]): the deterministic payment provider
      of the release gate, with its invariant over every sequence of calls.
    - [Inflight] ([inflight_coalescing.go]): leader election for identical requests.
      One leader per lease, fencing of deposed leaders, tenant provenance of every
      delivered result, at most three elections.
    - [ServiceLeasePricing] ([service_lease_pricing.go]): exact prices of reserved
      capacity; admitted terms cover every meter of the term.
    - [ServiceLeases] ([service_leases.go]): metering, failover, cancellation, expiry
      and terminal settlement of leases.  Through any history the books of a lease
      are exact; accrual runs ahead of the clock by at most a microsecond a meter.

    - [Funding] ([buyer_open_exposure.go], the checks of [store_prepaid.go],
      [accounts.go] and [realtime_store.go], envelope creation): admission against a
      buyer's money.  The abstract account is a pair of cash and holds; admission and
      settlement are its steps, and the holds stay covered by cash.
    - [StripeCash] ([stripe_cash_events.go], the collections of [collect.go] and the
      reservations of [store_payouts.go]): cash evidence of the card provider.
      Collected cash is never promised twice; impairment of payouts is exact.
    - [CashEvidence]: two runs of these tables that accepted the same events and
      collected the same charges agree on the evidence, whatever the order.
    - [AdminAudit] ([admin_mutation_audit.go], [admin_authority.go]): privileged
      requests are answered once per incident reference.
    - [PrepaidCards] (the card operations of [store_prepaid.go]): top-ups and refunds
      over the tables of [Purse], [Funding], [StripeCash] and [AdminAudit] together.
      The balance reconciles to the cash through any history; refunds are traced to
      payment intents, replayed and put back exactly once.
    - [Payouts] ([supplier_accrual.go], the payout transactions of [store_payouts.go]
      and [store.go], the sweep of [workers.go]): from a supplier's credit to cash.
      The rail is an interface whose laws are the provider's idempotency while a key
      lives.  For every interleaving of sweeps, crashes, cash events and other
      writers a credit is sent at most once; a sweep is a run of those steps; an
      answer can always be recorded.
    - [ArrivalBatch] ([arrival_batch.go], [batch_policy.go], [traffic_class.go]):
      requests that wait to leave together.  Through any history a request is held
      within its window and its deadline, with the delay of an [Admit] as the only
      slack; no channel is closed twice; the timers release everyone; a batch is as
      large as its token budget allows.
    - [TaskStore] ([store_tasks.go], [failure.go], the claim of [scheduler.go], the job
      transitions of [store_jobs.go], the reserve of [store.go], the stale sweep of
      [workers.go], the lifecycle table of [schema.sql]): jobs, tasks and attempts,
      claims, starts, heartbeats, commits, failures, hedges and third opinions.
    - [Verification] ([verification_work.go], [verification_work_plan.go],
      [verification_apply.go], [reputation.go]): leases on committed results, plans, and
      the transaction that applies a plan with all its effects.
    - [PrintedMoney]: the amounts of a plan survive being printed and read back.
    - [TaskGrowth], [TaskIdle]: two preorders on the tables that every one of these
      operations respects, what is never taken back and what leaves a job alone.
    - [TaskLifecycle]: the operations as steps of one system.  Through any history a
      superseded attempt is inert, an attempt is decided once, a task and its hedges are
      charged once.  [TaskIdle] adds that a complete job is final, [TaskBudget] that its
      charges stay within its cap, [TaskPrepaid] that each charge of a prepaid job has
      its debit.  The steps include the watchdog's requeue of a task that has finished.
      [TaskBudget] alone asks that applied plans are read from their table.
    - [Disputes] ([store_disputes.go], the sweep [resolveDisputes] of [workers.go]):
      filing freezes a job's credits; what the sweep can do about it afterwards.
    - [TaskExamples]: one job from claim to settlement, evaluated, at which the theorems
      of the task files are applied.

    Each file keeps a component's data and operations first, under the names of the
    source, and its lemmas and theorems after them.  Interfaces between components
    are classes: [ExactDivision] (what clients of [mulDiv] rely on),
    [TimestampColumn] (what a stored time reads back as), [PayoutRail] and
    [HonestRail] (the payout provider and what it documents).

    ** Where the program falls short of its own statements

    Some theorems record inputs on which the code does not do what its comments say:
    the sweep of a coalescing leader with a live lease, the sub-microsecond drift and
    the unaccrued lease that stop a lease from being finalized, the rank of an
    always-failing realtime supplier, rounding of negative quotients, the LoRA
    ceiling in micros, two bounds of the payment simulator, the envelope race whose
    recovery cannot run, the retried task debit that is refused as insufficient,
    the free credit of a job that a realtime request can spend, the refused payout of
    a service lease that cannot be deferred, the payout that a crash and a refund
    leave behind with every other payout paused, the isolated request whose context
    is not watched, the charged task that the no-peer watchdog puts back for attempts
    nobody can accept, the tasks a second device family can claim but not start, and
    the re-verification of a dispute that no terminal job admits.

    ** Bounds

    Loops over rows, snapshots and bytes recurse on the list.  The definitions with
    an explicit bound take it from the data or from the source: [trim_left] and the
    SHA-256 block loop the length of their input, [print_decimal] the 19 digits of
    an [int64], [cube_root] the bits of its interval, [minLoRAQuote_from] the
    1,000,000 rounds of the search it translates, after which the code panics, and
    [search] 64 rounds, which end any search between two [int64]s below 2^62.

    ** Not modelled

    HTTP handlers, streaming, object storage, provider calls, JSON encoding (a
    digest of a JSON document is an argument where the code compares one), metrics
    and logs; the interleaving of goroutines inside one process beyond what the
    explicit steps express.  Of payouts, subsidies, the manual release action and the
    listings are left out; disputes and clawbacks enter there only as what they may do
    to the payout tables ([others]).  Of tasks, the ranking that chooses what a worker
    is offered and its conditions on capabilities, memory and residency are arguments,
    as are the comparison of artifacts and the frozen documents that price observed
    output: they are in object storage or in encodings the model does not have.  The
    plan that prices a task is its row; how it is built is not translated.  Submission,
    the release of dispute holds, the quote and placement documents, contribution
    settlement, projects and topology planning are not translated. *)
From Stdlib Require Import Ascii.
From stdpp Require Import base numbers list gmap strings pretty sorting.

Declare Scope go_scope.
Delimit Scope go_scope with go.
Local Open Scope Z_scope.

(** ** Machine integers

    A Go [int64] (and [int], 64 bits wide on every platform the control plane
    is built for) is a [Z] in [[min_int64, max_int64]]; every operation that can
    leave that range is followed by [wrap64].  Go's [/] and [%] truncate toward
    zero, which is [Z.quot] and [Z.rem]. *)

Definition max_int64 : Z := 9223372036854775807.
Definition min_int64 : Z := -9223372036854775808.

Definition int64 (z : Z) : Prop := min_int64 ≤ z ≤ max_int64.

Definition is_int64 (z : Z) : bool := (min_int64 <=? z) && (z <=? max_int64).

Definition wrap64 (z : Z) : Z :=
  (z + 9223372036854775808) mod 18446744073709551616 - 9223372036854775808.

Definition wrapu64 (z : Z) : Z := z mod 18446744073709551616.

Definition wrapu32 (z : Z) : Z := z mod 4294967296.

#[global] Arguments wrap64 : simpl never.
#[global] Arguments wrapu64 : simpl never.
#[global] Arguments wrapu32 : simpl never.
#[global] Arguments max_int64 : simpl never.
#[global] Arguments min_int64 : simpl never.
#[global] Arguments is_int64 : simpl never.

Notation "a +w b" := (wrap64 (a + b)) (at level 50, left associativity) : go_scope.
Notation "a -w b" := (wrap64 (a - b)) (at level 50, left associativity) : go_scope.
Notation "a *w b" := (wrap64 (a * b)) (at level 40, left associativity) : go_scope.
Notation "a /t b" := (Z.quot a b) (at level 40, left associativity) : go_scope.
Notation "a %t b" := (Z.rem a b) (at level 40, left associativity) : go_scope.

(** The one arithmetic tactic of the development: unfold the widths, turn the
    divisions by constants into equations and call [lia]. *)
Ltac width := unfold int64, wrap64, wrapu64, wrapu32, max_int64, min_int64 in *.
Ltac go_lia := width; Z.to_euclidean_division_equations; lia.

Lemma wrap64_id z : int64 z → wrap64 z = z.
Proof. intros H. go_lia. Qed.

Lemma wrap64_int64 z : int64 (wrap64 z).
Proof. go_lia. Qed.

Lemma wrap64_add_check a b :
  int64 a → int64 b →
  (0 < b ∧ wrap64 (a + b) < a) ∨ (b < 0 ∧ a < wrap64 (a + b)) ↔ ¬ int64 (a + b).
Proof. intros. go_lia. Qed.

Lemma wrap64_sub_check a b :
  int64 a → int64 b →
  (b < 0 ∧ wrap64 (a - b) < a) ∨ (0 < b ∧ a < wrap64 (a - b)) ↔ ¬ int64 (a - b).
Proof. intros. go_lia. Qed.

Lemma is_int64_spec z : is_int64 z = true ↔ int64 z.
Proof. unfold is_int64, int64. rewrite andb_true_iff, !Z.leb_le. done. Qed.

Lemma is_int64_false z : is_int64 z = false ↔ ¬ int64 z.
Proof. rewrite <-is_int64_spec. by destruct (is_int64 z). Qed.

#[export] Instance int64_dec z : Decision (int64 z).
Proof. unfold int64. apply _. Defined.

(** ** Errors

    A Go [error] value is a package-level sentinel (identified by the variable
    that holds it), a fresh [errors.New]/[fmt.Errorf] value (identified by its
    format string: the interpolated arguments are not modelled), or an
    [fmt.Errorf] with a [%w] verb around another error. *)

Inductive error : Type :=
  | Sentinel (var : string)
  | Errorf (format : string)
  | Wrapf (cause : error) (format : string).

#[export] Instance error_eq_dec : EqDecision error.
Proof. solve_decision. Defined.

(** Errors the database driver returns, by condition name. *)
Definition errNoRows : error := Sentinel "pgx.ErrNoRows".
Definition errUniqueViolation : error := Sentinel "unique_violation".
Definition errCheckViolation : error := Sentinel "check_violation".
Definition errOutOfRange : error := Sentinel "numeric_value_out_of_range".
Definition errForeignKey : error := Sentinel "foreign_key_violation".
Definition errRaised : error := Sentinel "raise_exception".

(** What every statement returns once one has failed in the same transaction. *)
Definition errInFailedTransaction : error := Sentinel "in_failed_sql_transaction".

(** [errNotFound] of the store, and a run-time panic. *)
Definition errNotFound : error := Sentinel "errNotFound".
Definition errPanic : error := Sentinel "panic".

(** [errors.Is]: the error or one of the errors it wraps is the target. *)
Fixpoint errors_Is (e target : error) : bool :=
  bool_decide (e = target) ||
  match e with Wrapf cause _ => errors_Is cause target | _ => false end.

(** ** Fallible computations: Go's [(T, error)] with the zero value dropped. *)

Inductive res (A : Type) : Type :=
  | Ok (a : A)
  | Err (e : error).
Arguments Ok {A} _.
Arguments Err {A} _.

#[export] Instance res_eq_dec `{EqDecision A} : EqDecision (res A).
Proof. solve_decision. Defined.

#[export] Instance res_ret : MRet res := @Ok.
#[export] Instance res_bind : MBind res := λ A B f m,
  match m with Ok a => f a | Err e => Err e end.
#[export] Instance res_fmap : FMap res := λ A B f m,
  match m with Ok a => Ok (f a) | Err e => Err e end.

(** [if cond { return err }] followed by the rest of the body. *)
Notation "'refuse' e 'if' c ; k" := (if c then Err e else k)
  (at level 100, e at level 0, c at level 99, k at level 200, right associativity,
   format "'[v' 'refuse'  e  'if'  c ; '/' k ']'") : go_scope.

(** The value of a successful run, or a default. *)
Definition ok_or {A} (d : A) (m : res A) : A := match m with Ok x => x | Err _ => d end.

Definition is_ok {A} (m : res A) : bool := match m with Ok _ => true | Err _ => false end.

Lemma bind_Ok {A B} (f : A → res B) m b :
  (m ≫= f) = Ok b ↔ ∃ a, m = Ok a ∧ f a = Ok b.
Proof. destruct m; simpl; naive_solver. Qed.

Lemma run_bind {A B} (m : res A) x (f : A → res B) : m = Ok x → (y ← m; f y) = f x.
Proof. by intros ->. Qed.

Lemma refuse_Ok {A} e (c : bool) (k : res A) a :
  (if c then Err e else k) = Ok a ↔ c = false ∧ k = Ok a.
Proof. destruct c; naive_solver. Qed.

Create HintDb go.
#[export] Hint Resolve wrap64_int64 : go.

(** Reads the tests of a successful run off an equation [_ = Ok _]: splits binds
    and guards, turns the boolean tests into propositions and substitutes. *)
Ltac reflect_bools :=
  repeat match goal with
  | H : _ && _ = true |- _ => apply andb_true_iff in H as [? ?]
  | H : _ || _ = false |- _ => apply orb_false_iff in H as [? ?]
  | H : negb _ = true |- _ => apply negb_true_iff in H
  | H : negb _ = false |- _ => apply negb_false_iff in H
  | H : (_ <=? _) = true |- _ => apply Z.leb_le in H
  | H : (_ <=? _) = false |- _ => apply Z.leb_gt in H
  | H : (_ <? _) = true |- _ => apply Z.ltb_lt in H
  | H : (_ <? _) = false |- _ => apply Z.ltb_ge in H
  | H : (_ =? _) = true |- _ => apply Z.eqb_eq in H
  | H : (_ =? _) = false |- _ => apply Z.eqb_neq in H
  | H : bool_decide _ = true |- _ => apply bool_decide_eq_true in H
  | H : bool_decide _ = false |- _ => apply bool_decide_eq_false in H
  | H : is_int64 _ = true |- _ => apply is_int64_spec in H
  | H : is_int64 _ = false |- _ => apply is_int64_false in H
  end.
Ltac inv_ok :=
  repeat first
  [ progress simplify_eq/=
  | match goal with
    | H : (_ ≫= _) = Ok _ |- _ => apply bind_Ok in H as (? & ? & ?)
    | H : (if _ then Err _ else _) = Ok _ |- _ => apply refuse_Ok in H as [? ?]
    end ];
  reflect_bools.

(** ** Strings

    A Go string is a byte string, here [string].  The functions below are the
    ones of package [strings] that the modelled code calls. *)

Fixpoint strip_prefix (p s : string) : option string :=
  match p, s with
  | EmptyString, _ => Some s
  | String a p', String b s' => if bool_decide (a = b) then strip_prefix p' s' else None
  | _, EmptyString => None
  end.

(** [strings.HasPrefix] and [strings.TrimPrefix]. *)
Definition has_prefix (s p : string) : bool :=
  match strip_prefix p s with Some _ => true | None => false end.

Definition bytes (l : list nat) : string :=
  foldr (λ n s, String (Ascii.ascii_of_nat n) s) EmptyString l.

Fixpoint string_reverse_onto (s acc : string) : string :=
  match s with
  | EmptyString => acc
  | String a s' => string_reverse_onto s' (String a acc)
  end.

Definition string_reverse (s : string) : string := string_reverse_onto s EmptyString.

(** The UTF-8 encodings of the code points for which [unicode.IsSpace] holds. *)
Definition space_encodings : list string :=
  map bytes
    ([[9]; [10]; [11]; [12]; [13]; [32]; [194; 133]; [194; 160];
      [225; 154; 128]] ++
     map (λ n, [226; 128; 128 + n]%nat) (seq 0 11) ++
     [[226; 128; 168]; [226; 128; 169]; [226; 128; 175]; [226; 129; 159];
      [227; 128; 128]])%nat.

Fixpoint strip_any (ps : list string) (s : string) : option string :=
  match ps with
  | [] => None
  | p :: ps' => match strip_prefix p s with Some r => Some r | None => strip_any ps' s end
  end.

(** Each round removes at least one byte, so the string's length is enough fuel. *)
Fixpoint trim_left (ps : list string) (fuel : nat) (s : string) : string :=
  match fuel with
  | O => s
  | S fuel' => match strip_any ps s with Some r => trim_left ps fuel' r | None => s end
  end.

(** [strings.TrimSpace]. *)
Definition trim_space (s : string) : string :=
  let l := trim_left space_encodings (String.length s) s in
  string_reverse
    (trim_left (map string_reverse space_encodings) (String.length l) (string_reverse l)).

Definition lower_byte (a : Ascii.ascii) : Ascii.ascii :=
  let n := Ascii.nat_of_ascii a in
  if (65 <=? n)%nat && (n <=? 90)%nat then Ascii.ascii_of_nat (n + 32) else a.

(** [strings.ToLower].  Besides the ASCII letters, two code points have an ASCII
    lower case: U+0130 ([c4 b0], lower case [i]) and U+212A ([e2 84 aa], lower
    case [k]).  Other non-ASCII letters are left alone: the modelled code only
    compares the result with ASCII constants. *)
Fixpoint to_lower (s : string) : string :=
  match s with
  | EmptyString => EmptyString
  | String "196"%char (String "176"%char r) => String "i"%char (to_lower r)
  | String "226"%char (String "132"%char (String "170"%char r)) => String "k"%char (to_lower r)
  | String a r => String (lower_byte a) (to_lower r)
  end.

(** [strings.Cut] at a one-byte separator. *)
Fixpoint cut (sep : Ascii.ascii) (s : string) : string * string * bool :=
  match s with
  | EmptyString => (EmptyString, EmptyString, false)
  | String a s' =>
      if bool_decide (a = sep) then (EmptyString, s', true)
      else let '(b, t, found) := cut sep s' in (String a b, t, found)
  end.

(** [strings.Contains] of a one-byte string. *)
Definition contains_byte (c : Ascii.ascii) (s : string) : bool := (cut c s).2.

Example trim_space_ex : trim_space (bytes [32; 194; 160; 85; 83; 9]%nat) = "US".
Proof. reflexivity. Qed.

Example to_lower_ex : to_lower (bytes [226; 132; 170; 65; 196; 176]%nat) = "kai".
Proof. reflexivity. Qed.

(** *** String lemmas *)

Lemma string_app_cons a (s t : string) : String a s +:+ t = String a (s +:+ t).
Proof. done. Qed.

Lemma string_app_assoc (s t u : string) : s +:+ (t +:+ u) = (s +:+ t) +:+ u.
Proof. induction s as [|a s IH]; [done|]. by rewrite !string_app_cons, IH. Qed.

Lemma string_app_nil_r (s : string) : s +:+ "" = s.
Proof. induction s as [|a s IH]; [done|]. by rewrite string_app_cons, IH. Qed.

Lemma string_reverse_onto_app s acc :
  string_reverse_onto s acc = string_reverse s +:+ acc.
Proof.
  unfold string_reverse. revert acc. induction s as [|a s IH]; intros acc; simpl; [done|].
  rewrite IH, (IH (String a "")), <-string_app_assoc. done.
Qed.

Lemma string_reverse_app s t : string_reverse (s +:+ t) = string_reverse t +:+ string_reverse s.
Proof.
  induction s as [|a s IH]; [by rewrite string_app_nil_r|].
  rewrite string_app_cons. change (string_reverse (String a (s +:+ t)))
    with (string_reverse_onto (s +:+ t) (String a "")).
  change (string_reverse (String a s)) with (string_reverse_onto s (String a "")).
  by rewrite !string_reverse_onto_app, IH, string_app_assoc.
Qed.

Lemma string_reverse_involutive s : string_reverse (string_reverse s) = s.
Proof.
  induction s as [|a s IH]; [done|].
  change (String a s) with (String a "" +:+ s). by rewrite !string_reverse_app, IH.
Qed.

(** A byte that starts no white-space encoding and ends none either. *)
Definition solid_byte (a : ascii) : bool :=
  let n := nat_of_ascii a in (33 <=? n)%nat && (n <=? 126)%nat.

Lemma strip_any_solid ps a s :
  Forall (λ p, match p with String b _ => solid_byte b = false | EmptyString => False end) ps →
  solid_byte a = true → strip_any ps (String a s) = None.
Proof.
  intros H Ha. induction H as [|p ps Hp _ IH]; [done|].
  destruct p as [|b p]; [done|]. simpl. case_bool_decide; [congruence|done].
Qed.

Lemma space_encodings_solid :
  Forall (λ p, match p with String b _ => solid_byte b = false | EmptyString => False end)
    space_encodings ∧
  Forall (λ p, match p with String b _ => solid_byte b = false | EmptyString => False end)
    (map string_reverse space_encodings).
Proof. split; repeat (constructor; [reflexivity|]); constructor. Qed.

Lemma trim_left_solid ps n a s :
  Forall (λ p, match p with String b _ => solid_byte b = false | EmptyString => False end) ps →
  solid_byte a = true → trim_left ps n (String a s) = String a s.
Proof. intros. destruct n; simpl; [done|]. by rewrite strip_any_solid. Qed.

(** A string that starts and ends with printable ASCII is not trimmed. *)
Lemma trim_space_solid s a s1 b s2 :
  s = String a s1 → s = s2 +:+ String b "" → solid_byte a = true → solid_byte b = true →
  trim_space s = s.
Proof.
  intros E1 E2 Ha Hb. destruct space_encodings_solid as [F1 F2]. unfold trim_space.
  assert (L : trim_left space_encodings (String.length s) s = s).
  { rewrite E1. by apply trim_left_solid. }
  rewrite L.
  assert (R : string_reverse s = String b (string_reverse s2)).
  { rewrite E2, string_reverse_app. done. }
  rewrite R, trim_left_solid, <-R by done. apply string_reverse_involutive.
Qed.

(** Trimming twice is trimming once. *)
Lemma strip_prefix_app p s r : strip_prefix p s = Some r ↔ s = p +:+ r.
Proof.
  revert s. induction p as [|a p IH]; intros s.
  { change (("" : string) +:+ r) with r. simpl. split; congruence. }
  rewrite string_app_cons. destruct s as [|b s]; simpl; [done|].
  case_bool_decide; subst; [rewrite IH|]; split; congruence.
Qed.

Lemma strip_any_Some ps s r : strip_any ps s = Some r → ∃ p, p ∈ ps ∧ s = p +:+ r.
Proof.
  induction ps as [|p ps IH]; simpl; [done|].
  destruct (strip_prefix p s) eqn:E; intros; simplify_eq.
  - exists p. split; [left|by apply strip_prefix_app].
  - destruct IH as (q & ? & ?); [done|]. exists q. split; [by right|done].
Qed.

Lemma strip_any_None ps s : strip_any ps s = None ↔ ∀ p r, p ∈ ps → s ≠ p +:+ r.
Proof.
  induction ps as [|p ps IH]; simpl; [set_solver|].
  destruct (strip_prefix p s) as [r|] eqn:E.
  - split; [done|]. intros H. by destruct (H p r); [left|apply strip_prefix_app].
  - rewrite IH. split.
    + intros H q r [->|Hq]%elem_of_cons; [|by apply H].
      intros ?%strip_prefix_app. congruence.
    + intros H q r Hq. apply H. by right.
Qed.

Lemma string_app_length (s t : string) :
  String.length (s +:+ t) = (String.length s + String.length t)%nat.
Proof. induction s as [|a s IH]; [done|]. rewrite string_app_cons. simpl. by rewrite IH. Qed.

Lemma trim_left_id ps n s : strip_any ps s = None → trim_left ps n s = s.
Proof. intros H. destruct n; simpl; [done|]. by rewrite H. Qed.

Lemma trim_left_spec ps n s :
  "" ∉ ps → (String.length s ≤ n)%nat →
  strip_any ps (trim_left ps n s) = None ∧ ∃ q, s = q +:+ trim_left ps n s.
Proof.
  intros Hps. revert s. induction n as [|n IH]; intros s Hn; simpl.
  - destruct s; [|simpl in Hn; lia]. split; [|by exists ""].
    apply strip_any_None. intros [|a p] r Hp; [done|]. by rewrite string_app_cons.
  - destruct (strip_any ps s) as [r|] eqn:E; [|split; [done|by exists ""]].
    apply strip_any_Some in E as (p & Hp & ->).
    rewrite string_app_length in Hn. destruct p as [|a p]; [done|]. simpl in Hn.
    destruct (IH r) as [? [q Hq]]; [lia|]. split; [done|].
    exists (String a p +:+ q). by rewrite <-string_app_assoc, <-Hq.
Qed.

Lemma space_encodings_nonempty :
  ("" ∉ space_encodings) ∧ ("" ∉ map string_reverse space_encodings).
Proof. split; apply (bool_decide_unpack _); vm_compute; exact I. Qed.

Lemma trim_space_idem s : trim_space (trim_space s) = trim_space s.
Proof.
  destruct space_encodings_nonempty as [N1 N2]. unfold trim_space.
  set (l := trim_left space_encodings (String.length s) s).
  destruct (trim_left_spec space_encodings (String.length s) s) as [L _]; [done..|]. fold l in L.
  assert (String.length (string_reverse l) ≤ String.length l)%nat as Len.
  { clear. induction l as [|a l IH]; [done|]. change (String a l) with (String a "" +:+ l).
    rewrite string_reverse_app, !string_app_length. simpl. lia. }
  set (r := trim_left (map string_reverse space_encodings) (String.length l) (string_reverse l)).
  destruct (trim_left_spec (map string_reverse space_encodings) (String.length l) (string_reverse l))
    as [R [q Q]]; [done..|]. fold r in R, Q.
  assert (l = string_reverse r +:+ string_reverse q) as E.
  { by rewrite <-string_reverse_app, <-Q, string_reverse_involutive. }
  rewrite (trim_left_id space_encodings).
  - by rewrite string_reverse_involutive, trim_left_id.
  - rewrite strip_any_None in L |- *. intros p t Hp Ht. apply (L p (t +:+ string_reverse q) Hp).
    by rewrite E, Ht, string_app_assoc.
Qed.

(** *** Order of strings: Go compares bytes, lexicographically. *)

Lemma ascii_compare_N a b : Ascii.compare a b = N.compare (N_of_ascii a) (N_of_ascii b).
Proof. done. Qed.

Lemma string_ltb_cons a s b t :
  String.ltb (String a s) (String b t) = true ↔
  (N_of_ascii a < N_of_ascii b)%N ∨ a = b ∧ String.ltb s t = true.
Proof.
  unfold String.ltb. simpl. rewrite ascii_compare_N.
  destruct (N.compare_spec (N_of_ascii a) (N_of_ascii b)) as [E|L|L].
  - assert (a = b) as -> by (rewrite <-(ascii_N_embedding a), <-(ascii_N_embedding b); congruence).
    split; [intros; by right|]. intros [?|[_ ?]]; [lia|done].
  - split; [by left|done].
  - split; [done|]. intros [?|[-> _]]; lia.
Qed.

Lemma string_ltb_irrefl s : String.ltb s s = false.
Proof.
  induction s as [|a s IH]; [done|]. apply not_true_is_false.
  intros [?|[_ ?]]%string_ltb_cons; [lia|congruence].
Qed.

Lemma string_ltb_trans s t u : String.ltb s t = true → String.ltb t u = true → String.ltb s u = true.
Proof.
  revert t u. induction s as [|a s IH]; intros [|b t] [|c u] H1 H2; try done.
  apply string_ltb_cons in H1, H2. apply string_ltb_cons.
  destruct H1 as [?|[-> ?]], H2 as [?|[-> ?]]; [left; lia|by left|by left|right; split; [done|]; by eapply IH].
Qed.

Lemma string_ltb_total s t : String.ltb s t = true ∨ s = t ∨ String.ltb t s = true.
Proof.
  revert t. induction s as [|a s IH]; intros [|b t]; [by right; left|by left|by right; right|].
  rewrite !string_ltb_cons. destruct (N.lt_trichotomy (N_of_ascii a) (N_of_ascii b)) as [?|[E|?]]; [by left; left| |by right; right; left].
  assert (a = b) as -> by (rewrite <-(ascii_N_embedding a), <-(ascii_N_embedding b); congruence).
  destruct (IH t) as [?|[->|?]]; [left; by right|by right; left|right; right; by right].
Qed.

(** ** Identities

    A [uuid.UUID] is an array of sixteen bytes, compared as a whole: here the
    128-bit number of its bytes.  [uuid.Nil] has every byte zero. *)
Definition UUID : Type := N.
Definition uuid_Nil : UUID := 0%N.

(** Its canonical text: lower-case hexadecimal, 8-4-4-4-12. *)
Definition hex_digit (d : N) : ascii := ascii_of_N (if (d <? 10)%N then d + 48 else d + 87).

Fixpoint hex_onto (n : nat) (v : N) (acc : string) : string :=
  match n with
  | O => acc
  | S n => hex_onto n (v / 16) (String (hex_digit (v mod 16)) acc)
  end.

Definition uuid_String (u : UUID) : string :=
  hex_onto 8 (N.shiftr u 96) ("-" +:+ hex_onto 4 (N.shiftr u 80) ("-" +:+
  hex_onto 4 (N.shiftr u 64) ("-" +:+ hex_onto 4 (N.shiftr u 48) ("-" +:+ hex_onto 12 u "")))).

Lemma hex_onto_length n v acc : String.length (hex_onto n v acc) = (n + String.length acc)%nat.
Proof. revert v acc. induction n as [|n IH]; intros; simpl; [done|]. rewrite IH. simpl. lia. Qed.

Lemma uuid_String_length u : String.length (uuid_String u) = 36%nat.
Proof. unfold uuid_String. by repeat (rewrite hex_onto_length || rewrite string_app_length || simpl). Qed.

(** Two strings that start with parts of one length agree on the parts. *)
Lemma string_app_inj_length (s t s' t' : string) :
  String.length s = String.length s' → s +:+ t = s' +:+ t' → s = s' ∧ t = t'.
Proof.
  revert s'. induction s as [|a s IH]; intros [|b s'] L E; try discriminate; [done|].
  rewrite !string_app_cons in E. simplify_eq. simpl in L. destruct (IH s') as [-> ->]; [lia|done..].
Qed.

(** The text determines a 128-bit identity. *)
Lemma hex_digit_inj a b : (a < 16)%N → (b < 16)%N → hex_digit a = hex_digit b → a = b.
Proof.
  intros A B E. unfold hex_digit in E. apply (f_equal N_of_ascii) in E. revert E.
  destruct (N.ltb_spec a 10), (N.ltb_spec b 10); rewrite !N_ascii_embedding by lia; lia.
Qed.

Lemma hex_onto_inj n v w s t : hex_onto n v s = hex_onto n w t → (v mod 16 ^ N.of_nat n = w mod 16 ^ N.of_nat n)%N ∧ s = t.
Proof.
  revert v w s t. induction n as [|n IH]; intros v w s t E; [by rewrite !N.mod_1_r|].
  simpl in E. apply IH in E as [D E]. injection E as E <-. split; [|done].
  apply hex_digit_inj in E; [|by apply N.mod_lt..].
  rewrite Nat2N.inj_succ, N.pow_succ_r', !N.Div0.mod_mul_r, D, E by done. done.
Qed.

Lemma shift_join u v k m :
  N.shiftr u (k + m) = N.shiftr v (k + m) → (N.shiftr u k mod 2 ^ m = N.shiftr v k mod 2 ^ m)%N → N.shiftr u k = N.shiftr v k.
Proof.
  rewrite <-!N.shiftr_shiftr, (N.shiftr_div_pow2 (N.shiftr u k)), (N.shiftr_div_pow2 (N.shiftr v k)). intros D M.
  rewrite (N.div_mod (N.shiftr u k) (2 ^ m)), (N.div_mod (N.shiftr v k) (2 ^ m)), D, M by (by apply N.pow_nonzero). done.
Qed.

Lemma uuid_String_inj u v : (u < 2 ^ 128)%N → (v < 2 ^ 128)%N → uuid_String u = uuid_String v → u = v.
Proof.
  assert (∀ s t, "-" +:+ s = "-" +:+ t → s = t) as T by (intros s t X; by injection X).
  intros U V E. unfold uuid_String in E. apply hex_onto_inj in E as [E1 E%T]. apply hex_onto_inj in E as [E2 E%T].
  apply hex_onto_inj in E as [E3 E%T]. apply hex_onto_inj in E as [E4 E%T]. apply hex_onto_inj in E as [E5 _].
  assert (∀ x, (x < 2 ^ 128)%N → (N.shiftr x 96 < 16 ^ N.of_nat 8)%N) as B.
  { intros x X. rewrite N.shiftr_div_pow2. apply N.Div0.div_lt_upper_bound. exact X. }
  rewrite !N.mod_small in E1 by auto.
  apply (shift_join u v 80 16) in E2; [|done]. apply (shift_join u v 64 16) in E3; [|done].
  apply (shift_join u v 48 16) in E4; [|done]. apply (shift_join u v 0 48); [done|]. by rewrite !N.shiftr_0_r.
Qed.

Example uuid_String_ex :
  uuid_String 0x0123456789abcdef0123456789abcdef%N = "01234567-89ab-cdef-0123-456789abcdef".
Proof. vm_compute. reflexivity. Qed.

(** ** Tables keyed by an identity *)

(** The row a [WHERE] clause finds, for a clause at most one row satisfies. *)
Definition find_row `{CK : Countable K} {A} (p : A → bool) (m : gmap K A) : option (K * A) :=
  snd <$> list_find (λ ix, p ix.2 = true) (map_to_list m).

(** [SUM] over a table. *)
Definition sum_over `{CK : Countable K} {A} (f : K → A → Z) (m : gmap K A) : Z := map_fold (λ i x acc, f i x + acc) 0 m.

(** [SELECT id ... WHERE p ORDER BY key LIMIT n]; equal keys come in identity order. *)
Definition due_before {A} (key : A → Z) (x y : UUID * A) : Prop :=
  key x.2 < key y.2 ∨ (key x.2 = key y.2 ∧ (x.1 ≤ y.1)%N).

#[export] Instance due_before_dec {A} (key : A → Z) : RelDecision (due_before key).
Proof. unfold due_before. intros x y. apply _. Defined.

Definition select_due {A} (p : A → bool) (key : A → Z) (limit : Z) (m : gmap UUID A) : list UUID :=
  take (Z.to_nat limit) (merge_sort (due_before key) (filter (λ x, p x.2 = true) (map_to_list m))).*1.

Lemma select_due_elem {A} (p : A → bool) key limit m i :
  i ∈ select_due p key limit m → ∃ x, m !! i = Some x ∧ p x = true.
Proof.
  unfold select_due. intros (k & H%list_elem_of_lookup_2 & _)%elem_of_take. revert H. rewrite list_elem_of_fmap.
  intros ([j x] & -> & H). rewrite merge_sort_Permutation, list_elem_of_filter, elem_of_map_to_list in H. naive_solver.
Qed.

Lemma select_due_NoDup {A} (p : A → bool) key limit m : NoDup (select_due p key limit m).
Proof.
  unfold select_due. eapply sublist_NoDup; [|apply sublist_take]. rewrite merge_sort_Permutation.
  apply NoDup_fmap_fst; [|apply NoDup_filter, NoDup_map_to_list].
  intros i x y [_ Hx]%list_elem_of_filter [_ Hy]%list_elem_of_filter.
  apply elem_of_map_to_list in Hx, Hy. naive_solver.
Qed.

(** With a limit no smaller than the table every row of the clause is selected. *)
Lemma select_due_all {A} (p : A → bool) key limit m i x :
  Z.of_nat (size m) ≤ limit → m !! i = Some x → p x = true → i ∈ select_due p key limit m.
Proof.
  intros L Hm Hp. unfold select_due. rewrite take_ge.
  - rewrite merge_sort_Permutation, list_elem_of_fmap. exists (i, x). split; [done|].
    by rewrite list_elem_of_filter, elem_of_map_to_list.
  - rewrite merge_sort_Permutation, length_fmap. etrans; [apply length_filter|].
    rewrite length_map_to_list. lia.
Qed.

Lemma find_row_Some `{CK : Countable K} {A} (p : A → bool) (m : gmap K A) i x : find_row p m = Some (i, x) → m !! i = Some x ∧ p x = true.
Proof.
  unfold find_row. intros ([k [j y]] & F & E)%fmap_Some. simplify_eq/=.
  apply list_find_Some in F as (L & P & _). split; [|done].
  by apply elem_of_map_to_list, (list_elem_of_lookup_2 _ k).
Qed.

Lemma find_row_None `{CK : Countable K} {A} (p : A → bool) (m : gmap K A) : find_row p m = None ↔ ∀ i x, m !! i = Some x → p x = false.
Proof.
  unfold find_row. rewrite fmap_None, list_find_None, Forall_forall. split.
  - intros H i x L. apply not_true_iff_false. apply (H (i, x)). by apply elem_of_map_to_list.
  - intros H [i x] L%elem_of_map_to_list. simpl. by rewrite (H i x).
Qed.

Lemma find_row_unique `{CK : Countable K} {A} (p : A → bool) (m : gmap K A) i x :
  m !! i = Some x → p x = true → (∀ j y, m !! j = Some y → p y = true → j = i) → find_row p m = Some (i, x).
Proof.
  intros L P U. destruct (find_row p m) as [[j y]|] eqn:F.
  - apply find_row_Some in F as [Lj Py]. rewrite (U j y Lj Py) in *. naive_solver.
  - by rewrite (proj1 (find_row_None p m) F i x) in P.
Qed.

Lemma sum_over_empty `{CK : Countable K} {A} (f : K → A → Z) : sum_over f ∅ = 0.
Proof. apply map_fold_empty. Qed.

Lemma sum_over_fresh `{CK : Countable K} {A} (f : K → A → Z) m i x : m !! i = None → sum_over f (<[i := x]> m) = f i x + sum_over f m.
Proof. intros N. unfold sum_over. rewrite map_fold_insert_L; [done| |done]. intros. lia. Qed.

Lemma sum_over_delete `{CK : Countable K} {A} (f : K → A → Z) m i x : m !! i = Some x → sum_over f m = f i x + sum_over f (delete i m).
Proof.
  intros L. rewrite <-(insert_delete_id m i x) at 1 by done. apply sum_over_fresh, lookup_delete_eq.
Qed.

(** Writing a row moves the sum by the difference. *)
Lemma sum_over_insert `{CK : Countable K} {A} (f : K → A → Z) m i y :
  sum_over f (<[i := y]> m) = sum_over f m - from_option (f i) 0 (m !! i) + f i y.
Proof.
  destruct (m !! i) as [x|] eqn:L; simpl.
  - rewrite (sum_over_delete f m i x L), <-insert_delete_eq, sum_over_fresh by apply lookup_delete_eq. lia.
  - rewrite sum_over_fresh by done. lia.
Qed.

Lemma sum_over_ext `{CK : Countable K} {A} (f g : K → A → Z) m :
  (∀ i x, m !! i = Some x → f i x = g i x) → sum_over f m = sum_over g m.
Proof.
  induction m as [|i x m N IH] using map_ind; intros H; [done|].
  rewrite !sum_over_fresh by done. rewrite (H i x), IH; [done| |by rewrite lookup_insert_eq].
  intros j y L. apply (H j). rewrite lookup_insert_ne; [done|congruence].
Qed.

Lemma sum_over_mono `{CK : Countable K} {A} (f g : K → A → Z) m :
  (∀ i x, m !! i = Some x → f i x ≤ g i x) → sum_over f m ≤ sum_over g m.
Proof.
  induction m as [|i x m N IH] using map_ind; intros H; [done|].
  rewrite !sum_over_fresh by done. pose proof (H i x ltac:(by rewrite lookup_insert_eq)).
  assert (sum_over f m ≤ sum_over g m); [|lia]. apply IH. intros j y L. apply (H j). rewrite lookup_insert_ne; [done|congruence].
Qed.

(** Two counts that differ on one row only. *)
Lemma sum_over_change `{CK : Countable K} {A} (f g : K → A → Z) m k x :
  m !! k = Some x → (∀ i y, m !! i = Some y → i ≠ k → f i y = g i y) → sum_over f m = sum_over g m + (f k x - g k x).
Proof.
  intros L H. rewrite (sum_over_delete f m k x L), (sum_over_delete g m k x L).
  rewrite (sum_over_ext f g (delete k m)); [lia|]. intros i y [N Li]%lookup_delete_Some. by apply H.
Qed.

Lemma sum_over_zero `{CK : Countable K} {A} (m : gmap K A) : sum_over (λ _ _, 0) m = 0.
Proof. induction m as [|i x m N IH] using map_ind; [done|]. by rewrite sum_over_fresh, IH. Qed.

Lemma sum_over_nonneg `{CK : Countable K} {A} (f : K → A → Z) m : (∀ i x, m !! i = Some x → 0 ≤ f i x) → 0 ≤ sum_over f m.
Proof. intros H. rewrite <-(sum_over_zero m). by apply sum_over_mono. Qed.

(** A row counts for no more than the sum of a table of non-negative counts. *)
Lemma sum_over_elem `{CK : Countable K} {A} (f : K → A → Z) m i x :
  (∀ j y, m !! j = Some y → 0 ≤ f j y) → m !! i = Some x → f i x ≤ sum_over f m.
Proof.
  intros H L. rewrite (sum_over_delete f m i x L). assert (0 ≤ sum_over f (delete i m)); [|lia].
  apply sum_over_nonneg. intros j y [_ Lj]%lookup_delete_Some. by apply (H j).
Qed.

(** A sum is determined by what each key contributes. *)
Lemma sum_over_lookup `{CK : Countable K} {A} (f : K → A → Z) m1 m2 :
  (∀ k, from_option (f k) 0 (m1 !! k) = from_option (f k) 0 (m2 !! k)) → sum_over f m1 = sum_over f m2.
Proof.
  revert m2. induction m1 as [|i x m N IH] using map_ind; intros m2 E.
  - rewrite sum_over_empty. symmetry. rewrite <-(sum_over_zero m2). apply sum_over_ext. intros k x L.
    specialize (E k). rewrite lookup_empty, L in E. simpl in E. done.
  - rewrite sum_over_fresh by done. rewrite (IH (delete i m2)).
    + specialize (E i). rewrite lookup_insert_eq in E. destruct (m2 !! i) as [y|] eqn:L; simpl in E.
      * rewrite (sum_over_delete f m2 i y L). lia.
      * rewrite delete_id by done. lia.
    + intros k. specialize (E k). destruct (decide (i = k)) as [->|D]; [by rewrite lookup_delete_eq, N|].
      by rewrite lookup_insert_ne, lookup_delete_ne in *.
Qed.

Lemma sum_over_single `{CK : Countable K} {A} (f : K → A → Z) m i x :
  m !! i = Some x → (∀ j y, m !! j = Some y → j ≠ i → f j y = 0) → sum_over f m = f i x.
Proof. intros L H. rewrite (sum_over_change f (λ _ _, 0) m i x L H), sum_over_zero. lia. Qed.

Lemma sum_over_sub `{CK : Countable K} {A} (f g : K → A → Z) m :
  sum_over (λ i x, f i x - g i x) m = sum_over f m - sum_over g m.
Proof. induction m as [|i x m N IH] using map_ind; [done|]. rewrite !sum_over_fresh, IH by done. lia. Qed.

(** A double sum in either order. *)
Lemma sum_over_swap `{CK : Countable K} `{CL : Countable L} {A B} (h : K → A → L → B → Z) (m : gmap K A) (n : gmap L B) :
  sum_over (λ i x, sum_over (h i x) n) m = sum_over (λ j y, sum_over (λ i x, h i x j y) m) n.
Proof.
  induction m as [|i x m N IH] using map_ind.
  - rewrite sum_over_empty, <-(sum_over_zero n). apply sum_over_ext. intros. by rewrite sum_over_empty.
  - rewrite sum_over_fresh, IH by done. clear IH.
    rewrite (sum_over_ext (λ j y, sum_over _ (<[i := x]> m)) (λ j y, h i x j y - (0 - sum_over (λ i x, h i x j y) m))).
    + rewrite sum_over_sub, sum_over_sub, sum_over_zero. change (sum_over (λ i0 x0, h i x i0 x0) n) with (sum_over (h i x) n). lia.
    + intros j y _. rewrite sum_over_fresh by done. lia.
Qed.

(** [btrim(s) <> '']: some byte is not a space. *)
Definition not_blank (s : string) : bool :=
  existsb (λ a, negb (bool_decide (a = " "%char))) (String.list_ascii_of_string s).

(** The total of a list, which does not depend on its order. *)
Definition list_total {A} (f : A → Z) (l : list A) : Z := foldr (λ x acc, f x + acc) 0 l.

Lemma list_total_perm {A} (f : A → Z) l l' : l ≡ₚ l' → list_total f l = list_total f l'.
Proof. unfold list_total. induction 1; simpl; lia. Qed.

Lemma list_total_zero {A} (l : list A) : list_total (λ _, 0) l = 0.
Proof. by induction l. Qed.

Lemma list_total_ext {A} (f g : A → Z) l : (∀ x, x ∈ l → f x = g x) → list_total f l = list_total g l.
Proof.
  unfold list_total. induction l as [|x l IH]; intros H; [done|]. simpl. rewrite (H x) by left.
  rewrite IH; [done|]. intros y Hy. apply H. by right.
Qed.

Lemma list_total_fmap {A B} (g : A → B) (f : B → Z) l : list_total f (g <$> l) = list_total (λ x, f (g x)) l.
Proof. unfold list_total. induction l as [|x l IH]; [done|]. rewrite fmap_cons. simpl. by rewrite IH. Qed.

Lemma list_total_omap {A B} (g : A → option B) (f : B → Z) l : list_total f (omap g l) = list_total (λ x, from_option f 0 (g x)) l.
Proof.
  induction l as [|x l IH]; [done|]. change (omap g (x :: l)) with (match g x with Some y => y :: omap g l | None => omap g l end).
  change (list_total ?h (x :: l)) with (h x + list_total h l). rewrite <-IH. by destruct (g x).
Qed.

Lemma list_total_nonneg {A} (f : A → Z) l : (∀ x, x ∈ l → 0 ≤ f x) → 0 ≤ list_total f l.
Proof.
  unfold list_total. induction l as [|x l IH]; intros H; [done|]. simpl. pose proof (H x ltac:(left)).
  assert (0 ≤ foldr (λ x acc, f x + acc) 0 l); [|lia]. apply IH. intros y Hy. apply H. by right.
Qed.

Lemma fst_unique {A} (l : list (UUID * A)) i x y : NoDup l.*1 → (i, x) ∈ l → (i, y) ∈ l → x = y.
Proof. intros N Hx%(elem_of_list_to_map_1 (M:=gmap UUID)) Hy%(elem_of_list_to_map_1 (M:=gmap UUID)); [congruence|done..]. Qed.

Lemma list_total_filter {A} (p : A → bool) (f : A → Z) l :
  list_total f (filter (λ x, p x = true) l) = list_total (λ x, if p x then f x else 0) l.
Proof.
  unfold list_total. induction l as [|x l IH]; [done|]. rewrite filter_cons. simpl.
  destruct (decide (p x = true)) as [E|E]; [rewrite E; simpl; lia|]. apply not_true_is_false in E. rewrite E. lia.
Qed.

Lemma sum_over_total `{CK : Countable K} {A} (f : K → A → Z) m : sum_over f m = list_total (λ x, f x.1 x.2) (map_to_list m).
Proof. unfold sum_over, list_total. rewrite map_fold_foldr. induction (map_to_list m) as [|[k x] l IH]; [done|]. simpl. by rewrite IH. Qed.

#[export] Instance due_before_trans {A} (key : A → Z) : Transitive (due_before key).
Proof. unfold due_before. intros x y z. lia. Qed.

#[export] Instance due_before_total {A} (key : A → Z) : Total (due_before key).
Proof. unfold due_before. intros x y. lia. Qed.

(** Rows in the order of their keys: a smaller key comes first. *)
Lemma sorted_split {A} (key : A → Z) (l : list (UUID * A)) x y :
  StronglySorted (due_before key) l → x ∈ l → y ∈ l → key x.2 < key y.2 → ∃ l1 l2 l3, l = l1 ++ x :: l2 ++ y :: l3.
Proof.
  intros S (l1 & l2 & ->)%list_elem_of_split Hy K. apply elem_of_app in Hy as [Hy|Hy].
  - assert (due_before key y x) as D by (eapply StronglySorted_app_1_elem_of; [exact S|done|left]).
    unfold due_before in D. lia.
  - apply elem_of_cons in Hy as [->|Hy]; [lia|]. apply list_elem_of_split in Hy as (l3 & l4 & ->). eauto.
Qed.

(** [hex.DecodeString] accepts an even number of hexadecimal digits of either case. *)
Definition is_hex (a : ascii) : bool :=
  let n := nat_of_ascii a in
  ((48 <=? n)%nat && (n <=? 57)%nat) || ((97 <=? n)%nat && (n <=? 102)%nat) ||
  ((65 <=? n)%nat && (n <=? 70)%nat).

Definition hex_decodes (s : string) : bool :=
  Nat.even (String.length s) && forallb is_hex (String.list_ascii_of_string s).
