(* ===== verification/Float64.v ===== *)
(** * Float64: Go's [float64], as the IEEE-754 binary64 of [SpecFloat]

    The control plane still receives some legacy amounts, shares and scores as
    [float64].  They are modelled bit-exactly with the Standard Library's
    executable IEEE-754 specification ([spec_float] at precision 53 and maximal
    exponent 1024, rounding to nearest even), so no operation on them is an
    abstraction.  Go leaves the conversion of an out-of-range [float64] to [int64]
    to the implementation; the model takes amd64's, see [f64_to_int64]. *)
From Stdlib Require Import SpecFloat.
From stdpp Require Import base numbers.
From S2P Require Import Prelude.
Local Open Scope Z_scope.

Definition f64 : Type := spec_float.

Definition f64_valid (x : f64) : bool := valid_binary 53 1024 x.

Definition f64_add : f64 → f64 → f64 := SFadd 53 1024.
Definition f64_sub : f64 → f64 → f64 := SFsub 53 1024.
Definition f64_mul : f64 → f64 → f64 := SFmul 53 1024.
Definition f64_div : f64 → f64 → f64 := SFdiv 53 1024.
Definition f64_abs (x : f64) : f64 := SFabs x.

(** Comparisons: all false on a NaN, as in Go. *)
Definition f64_eqb (x y : f64) : bool := SFeqb x y.
Definition f64_ltb (x y : f64) : bool := SFltb x y.
Definition f64_leb (x y : f64) : bool := SFleb x y.

(** [float64(n)] of an integer: exact up to 2^53, nearest even beyond. *)
Definition f64_of_Z (n : Z) : f64 := binary_normalize 53 1024 n 0 false.

(** A decimal literal [n / d] of the source, correctly rounded. *)
Definition f64_lit (n d : Z) : f64 := f64_div (f64_of_Z n) (f64_of_Z d).

Definition is_nan (x : f64) : bool := match x with S754_nan => true | _ => false end.
Definition is_inf (x : f64) : bool := match x with S754_infinity _ => true | _ => false end.

(** [math.Round]: nearest integer, halves away from zero, signs of zeros kept. *)
Definition f64_round (x : f64) : f64 :=
  match x with
  | S754_finite s m e =>
      if 0 <=? e then x
      else
        let q := (Z.pos m + 2 ^ (- e - 1)) / 2 ^ (- e) in
        binary_normalize 53 1024 (cond_Zopp s q) 0 s
  | _ => x
  end.

(** The integer part, toward zero. *)
Definition f64_trunc (x : f64) : option Z :=
  match x with
  | S754_zero _ => Some 0
  | S754_finite s m e =>
      Some (cond_Zopp s (if 0 <=? e then Z.pos m * 2 ^ e else Z.pos m / 2 ^ (- e)))
  | _ => None
  end.

(** [int64(x)].  Out of range the Go specification leaves the value to the
    implementation; on amd64 (CVTTSD2SQ) it is the minimal [int64]. *)
Definition f64_to_int64 (x : f64) : Z :=
  match f64_trunc x with
  | Some z => if is_int64 z then z else min_int64
  | None => min_int64
  end.

Lemma f64_to_int64_range x : int64 (f64_to_int64 x).
Proof.
  unfold f64_to_int64. destruct (f64_trunc x) as [z|]; [|go_lia].
  destruct (is_int64 z) eqn:E; [by apply is_int64_spec | go_lia].
Qed.
#[export] Hint Resolve f64_to_int64_range : go.

(** Spot checks against values computed by hardware binary64. *)
Example f64_third : f64_lit 1 3 = S754_finite false 6004799503160661 (-54).
Proof. reflexivity. Qed.
Example f64_round_half : f64_round (f64_lit (-5) 2) = f64_of_Z (-3).
Proof. reflexivity. Qed.
Example f64_max_int64 : f64_of_Z max_int64 = f64_of_Z (2 ^ 63).
Proof. reflexivity. Qed.

(** ** Accuracy of rounding

    A record [(m, r, s)] of the right shifts stands for the place of a value [x] in the
    interval from [m * d] to [(m + 1) * d]: on its lower end, in its lower half, on the
    middle or in its upper half. *)

Definition placed (d x : Z) (mrs : shr_record) : Prop :=
  let '(Build_shr_record m r s) := mrs in
  0 ≤ m ∧ 0 < d ∧ m * d ≤ x < (m + 1) * d ∧
  match r, s with
  | false, false => x = m * d
  | false, true => m * d < x ∧ 2 * x < (2 * m + 1) * d
  | true, false => 2 * x = (2 * m + 1) * d
  | true, true => (2 * m + 1) * d < 2 * x
  end.

Lemma shr_1_placed d x mrs : placed d x mrs → placed (2 * d) x (shr_1 mrs).
Proof.
  destruct mrs as [m r s]. intros (M & D & B & H).
  destruct m as [|[p|p|]|]; [..|lia]; destruct r, s; simpl in *; split_and!; nia.
Qed.

Lemma iter_shr_placed n : ∀ d x mrs, placed d x mrs → placed (2 ^ Z.pos n * d) x (SpecFloat.iter_pos shr_1 n mrs).
Proof.
  induction n as [n IH|n IH|]; intros d x mrs H; simpl.
  - replace (2 ^ Z.pos n~1 * d) with (2 ^ Z.pos n * (2 ^ Z.pos n * (2 * d))).
    + by apply IH, IH, shr_1_placed.
    + rewrite Pos2Z.inj_xI, Z.pow_add_r, Z.pow_mul_r by lia. change (2 ^ 2) with 4.
      replace (4 ^ Z.pos n) with (2 ^ Z.pos n * 2 ^ Z.pos n); [lia|]. rewrite <-Z.pow_mul_l. done.
  - replace (2 ^ Z.pos n~0 * d) with (2 ^ Z.pos n * (2 ^ Z.pos n * d)).
    + by apply IH, IH.
    + rewrite (Pos2Z.inj_xO n), Z.pow_mul_r by lia. change (2 ^ 2) with 4.
      replace (4 ^ Z.pos n) with (2 ^ Z.pos n * 2 ^ Z.pos n); [lia|]. rewrite <-Z.pow_mul_l. done.
  - by apply shr_1_placed.
Qed.

Lemma round_placed d x mrs :
  placed d x mrs →
  let m := round_nearest_even (shr_m mrs) (loc_of_shr_record mrs) in
  shr_m mrs ≤ m ≤ shr_m mrs + 1 ∧ Z.abs (2 * (m * d - x)) ≤ d.
Proof.
  destruct mrs as [m r s]. intros (M & D & B & H). simpl.
  destruct r, s; simpl; [| |..]; try (split; [lia|nia]). destruct (Z.even m); split; try lia; nia.
Qed.

Lemma digits2_log2 p : Z.pos (digits2_pos p) = Z.log2 (Z.pos p) + 1.
Proof.
  induction p as [p IH|p IH|]; simpl digits2_pos; [..|done]; rewrite Pos2Z.inj_succ, IH.
  - rewrite (Pos2Z.inj_xI p), Z.log2_succ_double by lia. lia.
  - rewrite (Pos2Z.inj_xO p), Z.log2_double by lia. lia.
Qed.

Lemma digits2_range p n : 0 ≤ n → 2 ^ n ≤ Z.pos p < 2 ^ (n + 1) → Z.pos (digits2_pos p) = n + 1.
Proof. intros N H. rewrite digits2_log2. by rewrite (Z.log2_unique _ n). Qed.

(** Rounding a value of normal size: the result has 53 bits and is off by at most half
    of its last place. *)
Lemma round_normal sx mx ex l d x n :
  placed d x (shr_record_of_loc (Z.pos mx) l) → 0 ≤ n → 2 ^ (52 + n) ≤ Z.pos mx < 2 ^ (53 + n) →
  - 1074 ≤ ex → ex + n < 971 →
  ∃ m e, binary_round_aux 53 1024 sx (Z.pos mx) ex l = S754_finite sx m e ∧ 2 ^ 52 ≤ Z.pos m < 2 ^ 53 ∧
    (e = ex + n ∨ e = ex + n + 1) ∧ Z.abs (2 * (Z.pos m * 2 ^ (e - ex) * d - x)) ≤ 2 ^ n * d.
Proof.
  intros P N R E1 E2.
  assert (Z.pos (digits2_pos mx) = 53 + n) as Dg.
  { rewrite (digits2_range mx (52 + n)); [lia|lia|]. by replace (52 + n + 1) with (53 + n) by lia. }
  assert (∃ mrs, shr_fexp 53 1024 (Z.pos mx) ex l = (mrs, ex + n) ∧ placed (2 ^ n * d) x mrs) as (mrs & F & P1).
  { unfold shr_fexp. simpl Zdigits2. rewrite Dg. unfold fexp, emin.
    replace (Z.max (53 + n + ex - 53) (3 - 1024 - 53) - ex) with n by lia. unfold shr.
    destruct n as [|p|]; [|by eexists; split; [done|apply iter_shr_placed]|lia].
    eexists. rewrite Z.add_0_r. split; [done|]. by rewrite Z.mul_1_l. }
  unfold binary_round_aux. rewrite F.
  destruct (round_placed _ _ _ P1) as [M1 A]. set (m1 := round_nearest_even _ _) in *.
  assert (2 ^ 52 ≤ shr_m mrs < 2 ^ 53) as S.
  { destruct mrs as [m r s]. destruct P1 as (_ & _ & B1 & _). simpl.
    destruct (shr_record_of_loc (Z.pos mx) l) as [m0 r0 s0] eqn:Q. destruct P as (_ & D & B0 & _).
    assert (m0 = Z.pos mx) as -> by (destruct l as [|[]]; by simplify_eq/=).
    rewrite Z.pow_add_r in R by lia. replace (53 + n) with (n + 53) in R by lia. rewrite Z.pow_add_r in R by lia.
    assert (0 < 2 ^ n) by lia. split; nia. }
  assert (2 ^ 52 ≤ m1 < 2 ^ 53 ∨ m1 = 2 ^ 53) as [H| ->] by lia.
  - destruct m1 as [|m|] eqn:Em; [lia| |lia]. exists m, (ex + n).
    unfold shr_fexp. simpl Zdigits2. rewrite (digits2_range m 52) by lia. unfold fexp, emin.
    replace (Z.max (52 + 1 + (ex + n) - 53) (3 - 1024 - 53) - (ex + n)) with 0 by lia. simpl.
    rewrite (proj2 (Z.leb_le _ _)) by lia. split_and!; [done|lia|lia|by left|].
    replace (ex + n - ex) with n by lia. rewrite <-Z.mul_assoc. lia.
  - exists 4503599627370496%positive, (ex + n + 1). unfold shr_fexp.
    change (Zdigits2 (2 ^ 53)) with 54. unfold fexp, emin.
    replace (Z.max (54 + (ex + n) - 53) (3 - 1024 - 53) - (ex + n)) with 1 by lia.
    change (shr (shr_record_of_loc (2 ^ 53) loc_Exact) (ex + n) 1) with
      (Build_shr_record 4503599627370496 false false, ex + n + 1). simpl.
    rewrite (proj2 (Z.leb_le _ _)) by lia. split_and!; [done|lia|lia|by right|].
    replace (ex + n + 1 - ex) with (1 + n) by lia. rewrite Z.pow_add_r by lia.
    replace (4503599627370496 * (2 ^ 1 * 2 ^ n) * d) with (2 ^ 53 * (2 ^ n * d)) by lia. done.
Qed.

(** So is a product. *)
Lemma mul_normal s m e m0 e0 :
  2 ^ 52 ≤ Z.pos m < 2 ^ 53 → 2 ^ 52 ≤ Z.pos m0 < 2 ^ 53 → - 1074 ≤ e + e0 ≤ 900 →
  ∃ m' v, SFmul 53 1024 (S754_finite s m e) (S754_finite false m0 e0) = S754_finite s m' (e + e0 + v) ∧
    2 ^ 52 ≤ Z.pos m' < 2 ^ 53 ∧ 52 ≤ v ≤ 54 ∧ Z.abs (Z.pos m' * 2 ^ v - Z.pos m * Z.pos m0) ≤ 2 ^ 52.
Proof.
  intros M M0 E. unfold SFmul. rewrite xorb_false_r.
  assert (∃ n, 52 ≤ n ≤ 53 ∧ 2 ^ (52 + n) ≤ Z.pos (m * m0) < 2 ^ (53 + n)) as (n & N & Rn).
  { rewrite Pos2Z.inj_mul. assert (2 ^ 52 * 2 ^ 52 ≤ Z.pos m * Z.pos m0 ≤ (2 ^ 53 - 1) * (2 ^ 53 - 1)) by (split; apply Z.mul_le_mono_nonneg; lia).
    destruct (Z.lt_ge_cases (Z.pos m * Z.pos m0) (2 ^ 105)); [exists 52|exists 53]; simpl; lia. }
  destruct (round_normal s (m * m0) (e + e0) loc_Exact 1 (Z.pos m * Z.pos m0) n)
    as (m' & e' & -> & Rm & E' & A); [simpl; lia|lia|done|lia|lia|].
  exists m', (e' - (e + e0)). replace (e + e0 + (e' - (e + e0))) with e' by lia. split_and!; [done|lia|lia|lia|lia|].
  assert (2 ^ n ≤ 2 ^ 53) by (apply Z.pow_le_mono_r; lia). lia.
Qed.

Lemma pos_iter_xO m d : Z.pos (Pos.iter xO m d) = Z.pos m * 2 ^ Z.pos d.
Proof.
  induction d as [|d IH] using Pos.peano_ind; [simpl; lia|].
  rewrite Pos.iter_succ, Pos2Z.inj_xO, IH, Pos2Z.inj_succ, Z.pow_succ_r by lia. lia.
Qed.

(** An integer of at most 53 bits is represented exactly. *)
Lemma f64_of_small s s' a :
  0 < a < 2 ^ 53 →
  ∃ m k, binary_normalize 53 1024 (cond_Zopp s a) 0 s' = S754_finite s m (- k) ∧ Z.pos m = a * 2 ^ k ∧
    2 ^ 52 ≤ Z.pos m < 2 ^ 53 ∧ 0 ≤ k ≤ 52.
Proof.
  intros A. destruct a as [|p|]; [lia| |lia].
  assert (binary_normalize 53 1024 (cond_Zopp s (Z.pos p)) 0 s' = binary_round 53 1024 s p 0) as -> by (by destruct s).
  remember (53 - Z.pos (digits2_pos p)) as k eqn:Hk.
  assert (0 ≤ k ≤ 52 ∧ 2 ^ 52 ≤ Z.pos p * 2 ^ k < 2 ^ 53) as [K B].
  { rewrite Hk, digits2_log2. pose proof (Z.log2_spec (Z.pos p) ltac:(lia)) as [L U].
    pose proof (Z.log2_nonneg (Z.pos p)). assert (Z.log2 (Z.pos p) < 53) by (apply Z.log2_lt_pow2; lia).
    replace (53 - (Z.log2 (Z.pos p) + 1)) with (52 - Z.log2 (Z.pos p)) by lia. split; [lia|].
    assert (2 ^ 52 = 2 ^ Z.log2 (Z.pos p) * 2 ^ (52 - Z.log2 (Z.pos p))) as E1 by (rewrite <-Z.pow_add_r by lia; f_equal; lia).
    rewrite Z.pow_succ_r in U by lia. change (2 ^ 53) with (2 * 2 ^ 52). rewrite E1.
    assert (0 < 2 ^ (52 - Z.log2 (Z.pos p))) as T by lia. revert L U T.
    generalize (2 ^ Z.log2 (Z.pos p)), (2 ^ (52 - Z.log2 (Z.pos p))), (Z.pos p). clear. intros u t a. split; nia. }
  assert (∃ m, shl_align p 0 (fexp 53 1024 (Z.pos (digits2_pos p) + 0)) = (m, - k) ∧ Z.pos m = Z.pos p * 2 ^ k) as (m & F & M).
  { unfold fexp, emin, shl_align. replace (Z.max (Z.pos (digits2_pos p) + 0 - 53) (3 - 1024 - 53) - 0) with (- k) by lia.
    destruct k as [|q|]; [|simpl|lia].
    - exists p. split; [done|]. simpl. lia.
    - exists (Pos.iter xO p q). split; [|apply pos_iter_xO]. f_equal. lia. }
  unfold binary_round. rewrite F.
  destruct (round_normal s m (- k) loc_Exact 1 (Z.pos m) 0) as (m' & e & -> & R & E & D); [simpl; lia|lia|simpl; lia|lia|lia|].
  exists m', k. rewrite Z.pow_0_r, !Z.mul_1_r in D.
  destruct E as [->| ->].
  - replace (- k + 0 - - k) with 0 in D by lia. rewrite Z.add_0_r. split_and!; [done|..]; lia.
  - replace (- k + 0 + 1 - - k) with 1 in D by lia. lia.
Qed.
