(* ===== verification/FloatOrder.v ===== *)
(** * FloatOrder: results of [float64] operations are canonical, and in order

    Rounding gives a canonical number, whose exponent is known from the exact result, so
    that overflow, underflow and NaNs can be excluded from the sizes of the operands.
    Canonical numbers compare as their values do. *)
From Stdlib Require Import SpecFloat.
From stdpp Require Import base numbers.
From S2P Require Import Prelude.
From S2P Require Import Float64.
Local Open Scope Z_scope.

(** ** Canonical numbers *)

Lemma bounded_spec m e :
  bounded 53 1024 m e = true ↔
  Z.pos m < 2 ^ 53 ∧ - 1074 ≤ e ≤ 971 ∧ (e = - 1074 ∨ 2 ^ 52 ≤ Z.pos m).
Proof.
  unfold bounded, canonical_mantissa, fexp, emin. rewrite andb_true_iff, Z.leb_le.
  rewrite <-(Zeq_is_eq_bool (Z.max _ _) e), digits2_log2.
  pose proof (Z.log2_spec (Z.pos m) ltac:(lia)) as [L U]. pose proof (Z.log2_nonneg (Z.pos m)).
  split.
  - intros [C E].
    assert (Z.log2 (Z.pos m) ≤ 52) by lia.
    assert (Z.pos m < 2 ^ 53) by (eapply Z.lt_le_trans; [exact U|]; apply Z.pow_le_mono_r; lia).
    split_and!; [done|lia|lia|]. destruct (decide (e = - 1074)); [by left|right].
    assert (Z.log2 (Z.pos m) = 52) as L52 by lia. rewrite L52 in L. lia.
  - intros (M & E & D).
    assert (Z.log2 (Z.pos m) < 53) by (apply Z.log2_lt_pow2; lia). split; [|lia].
    destruct D as [->|D]; [lia|].
    assert (52 ≤ Z.log2 (Z.pos m)) by (apply Z.log2_le_pow2; lia). lia.
Qed.

(** Every location places its value somewhere. *)
Lemma location_placed mx l : 0 ≤ mx → ∃ d x, placed d x (shr_record_of_loc mx l).
Proof.
  intros M. destruct l as [|[]];
    [exists 1, mx|exists 2, (2 * mx + 1)|exists 4, (4 * mx + 1)|exists 4, (4 * mx + 3)]; simpl; lia.
Qed.

(** Shifting right by [n] divides by [2 ^ n]. *)
Lemma shr_divides mx l ex n :
  0 ≤ mx → 0 ≤ n → ∃ mrs, shr (shr_record_of_loc mx l) ex n = (mrs, ex + n) ∧ shr_m mrs = mx / 2 ^ n ∧ ∃ d x, placed d x mrs.
Proof.
  intros M N. destruct (location_placed mx l M) as (d & x & P).
  assert (∃ mrs, shr (shr_record_of_loc mx l) ex n = (mrs, ex + n) ∧ placed (2 ^ n * d) x mrs) as (mrs & S & P1).
  { unfold shr. destruct n as [|p|]; [|by eexists; split; [done|apply iter_shr_placed]|lia].
    eexists. rewrite Z.add_0_r. split; [done|]. by rewrite Z.mul_1_l. }
  exists mrs. split_and!; [done| |eauto].
  assert (mx * d ≤ x < (mx + 1) * d ∧ 0 < d) as [B D].
  { destruct l as [|[]]; destruct P as (_ & ? & ? & _); lia. }
  destruct mrs as [m r s]. destruct P1 as (M1 & D1 & B1 & _). simpl. assert (0 < 2 ^ n) by lia.
  apply (Z.div_unique_pos _ _ _ (mx - 2 ^ n * m)); [|lia]. revert B B1 D. generalize (2 ^ n), x. clear. intros t x. split; nia.
Qed.

(** The exponent rounding aims at. *)
Definition target (mx : positive) (ex : Z) : Z := fexp 53 1024 (Z.pos (digits2_pos mx) + ex).

Lemma target_eq mx ex : target mx ex = Z.max (Z.log2 (Z.pos mx) + ex - 52) (- 1074).
Proof. unfold target, fexp, emin. rewrite digits2_log2. lia. Qed.

(** What rounding to the exponent [f] can give. *)
Definition rounded (s : bool) (f : Z) (r : f64) : Prop :=
  (r = S754_zero s ∧ f = - 1074) ∨ (r = S754_infinity s ∧ 971 ≤ f) ∨
  ∃ m e, r = S754_finite s m e ∧ bounded 53 1024 m e = true ∧ (e = f ∨ e = f + 1).

Lemma round_aux_spec s mx ex l :
  ex ≤ target mx ex → rounded s (target mx ex) (binary_round_aux 53 1024 s (Z.pos mx) ex l).
Proof.
  intros F. unfold binary_round_aux, shr_fexp at 1. simpl Zdigits2. fold (target mx ex).
  destruct (shr_divides (Z.pos mx) l ex (target mx ex - ex)) as (mrs & -> & M0 & d & x & P); [lia..|].
  replace (ex + (target mx ex - ex)) with (target mx ex) by lia.
  destruct (round_placed _ _ _ P) as [M1 _]. set (m1 := round_nearest_even _ _) in *. clearbody m1.
  pose proof (Z.log2_spec (Z.pos mx) ltac:(lia)) as [L U]. pose proof (Z.log2_nonneg (Z.pos mx)) as L0.
  assert (0 ≤ shr_m mrs < 2 ^ 53 ∧ (target mx ex = - 1074 ∨ 2 ^ 52 ≤ shr_m mrs)) as [B0 B1].
  { rewrite M0. pose proof (target_eq mx ex) as Te. set (n := target mx ex - ex) in *.
    assert (Z.log2 (Z.pos mx) - 52 ≤ n) by lia.
    assert (0 < 2 ^ n) by lia. split_and!.
    - apply Z.div_pos; lia.
    - apply Z.div_lt_upper_bound; [done|]. eapply Z.lt_le_trans; [exact U|]. rewrite <-Z.pow_add_r by lia.
      apply Z.pow_le_mono_r; lia.
    - destruct (decide (target mx ex = - 1074)); [by left|right].
      assert (n = Z.log2 (Z.pos mx) - 52) by lia.
      apply Z.div_le_lower_bound; [done|]. rewrite <-Z.pow_add_r by lia. etrans; [|exact L]. apply Z.pow_le_mono_r; lia. }
  assert (- 1074 ≤ target mx ex) as T by (rewrite target_eq; lia). clear M0 P L U L0 F.
  revert B1 T. generalize (target mx ex). intros f B1 T.
  assert (m1 = 0 ∨ 0 < m1 < 2 ^ 53 ∨ m1 = 2 ^ 53) as [->|[H| ->]] by lia.
  - left. split; [|lia]. unfold shr_fexp, fexp, emin. simpl Zdigits2.
    destruct (Z.max (0 + f - 53) (3 - 1024 - 53) - f) eqn:E; [done|lia|done].
  - destruct m1 as [|m|] eqn:Em; [lia| |lia]. right. unfold shr_fexp. simpl Zdigits2. fold (target m f).
    assert (target m f = f) as ->.
    { rewrite target_eq. destruct B1 as [->|B1].
      - assert (Z.log2 (Z.pos m) < 53) by (apply Z.log2_lt_pow2; lia). lia.
      - rewrite (Z.log2_unique (Z.pos m) 52) by lia. lia. }
    rewrite Z.sub_diag. simpl shr. cbv beta iota delta [shr_m shr_record_of_loc]. change (1024 - 53) with 971. destruct (Z.leb_spec f 971); [right|left; split; [done|lia]].
    exists m, f. split_and!; [done| |by left]. apply bounded_spec. lia.
  - right. unfold shr_fexp. change (Zdigits2 (2 ^ 53)) with 54. unfold fexp, emin.
    replace (Z.max (54 + f - 53) (3 - 1024 - 53) - f) with 1 by lia.
    change (shr (shr_record_of_loc (2 ^ 53) loc_Exact) f 1) with (Build_shr_record 4503599627370496 false false, f + 1).
    cbv beta iota delta [shr_m]. change (1024 - 53) with 971.
    destruct (Z.leb_spec (f + 1) 971); [right|left; split; [done|lia]].
    exists 4503599627370496%positive, (f + 1). split_and!; [done| |by right]. apply bounded_spec. lia.
Qed.

Lemma binary_round_spec s mx ex :
  rounded s (target mx ex) (binary_round 53 1024 s mx ex).
Proof.
  unfold binary_round. fold (target mx ex). unfold shl_align.
  destruct (target mx ex - ex) as [|p|p] eqn:E; [apply round_aux_spec; lia..|].
  assert (target (Pos.iter xO mx p) (target mx ex) = target mx ex) as T.
  { rewrite (target_eq (Pos.iter _ _ _)), pos_iter_xO, Z.log2_mul_pow2 by lia.
    pose proof (target_eq mx ex). lia. }
  pose proof (round_aux_spec s (Pos.iter xO mx p) (target mx ex) loc_Exact) as R. rewrite T in R. by apply R.
Qed.

(** ** Operations *)

(** A number or an infinity, and a number. *)
Definition no_nan (x : f64) : Prop := f64_valid x = true ∧ is_nan x = false.
Definition finite (x : f64) : Prop := no_nan x ∧ is_inf x = false.

(** A number with a full mantissa whose exponent is in the given range. *)
Definition normal (lo hi : Z) (s : bool) (x : f64) : Prop :=
  ∃ m e, x = S754_finite s m e ∧ 2 ^ 52 ≤ Z.pos m < 2 ^ 53 ∧ lo ≤ e ≤ hi.

Lemma normal_finite lo hi s x : - 1074 ≤ lo → hi ≤ 971 → normal lo hi s x → finite x.
Proof.
  intros L H (m & e & -> & M & E). split; [|done]. split; [|done]. apply bounded_spec. lia.
Qed.

Lemma rounded_no_nan s f r : rounded s f r → no_nan r.
Proof. by intros [[-> _]|[[-> _]|(m & e & -> & B & _)]]. Qed.

Lemma rounded_finite s f r : f < 971 → rounded s f r → finite r.
Proof. intros F [[-> _]|[[_ G]|(m & e & -> & B & _)]]; [done|lia|done]. Qed.

Lemma rounded_normal s f r : - 1074 < f < 971 → rounded s f r → normal f (f + 1) s r.
Proof.
  intros F [[_ G]|[[_ G]|(m & e & -> & B & E)]]; [lia..|]. apply bounded_spec in B. exists m, e. split_and!; [done|lia..].
Qed.

Lemma of_Z_normal z : 0 < z < 2 ^ 64 → normal (- 52) 12 false (f64_of_Z z).
Proof.
  intros Z0. destruct z as [|p|]; [lia| |lia]. unfold f64_of_Z, binary_normalize.
  pose proof (binary_round_spec false p 0) as R. pose proof (target_eq p 0) as T.
  assert (0 ≤ Z.log2 (Z.pos p) < 64) by (split; [apply Z.log2_nonneg|apply Z.log2_lt_pow2; lia]).
  apply rounded_normal in R as (m & e & -> & M & E); [|lia]. exists m, e. split_and!; [done|lia..].
Qed.

Lemma shl_align_ge m e ez : ez ≤ e → Z.pos (fst (shl_align m e ez)) = Z.pos m * 2 ^ (e - ez).
Proof.
  intros E. unfold shl_align. destruct (ez - e) as [|p|p] eqn:D; [|lia|]; simpl.
  - replace (e - ez) with 0 by lia. lia.
  - rewrite pos_iter_xO. f_equal. f_equal. lia.
Qed.

Lemma normalize_no_nan m e s : no_nan (binary_normalize 53 1024 m e s).
Proof. destruct m; [done|by eapply rounded_no_nan, binary_round_spec..]. Qed.

(** Adding something that is not negative does not make a number smaller. *)
Lemma add_normal x y hi :
  is_nan x = false → f64_ltb x (f64_of_Z 0) = false → normal (- 52) hi false y → hi ≤ 900 →
  f64_add x y = S754_infinity false ∨ normal (- 52) 971 false (f64_add x y).
Proof.
  intros N S (m & e & -> & M & E) H. unfold f64_add.
  destruct x as [s|s| |s mx ex]; [right|left|done|]; simpl.
  - by exists m, e; split_and!; [|lia..].
  - by destruct s.
  - destruct s; [done|]. simpl. set (ez := Z.min ex e).
    set (q := (_ + _)%positive). pose proof (binary_round_spec false q ez) as R.
    assert (e ≤ target q ez) as T.
    { rewrite target_eq. unfold q. rewrite Pos2Z.inj_add, (shl_align_ge m e ez) by lia.
      assert (52 + (e - ez) ≤ Z.log2 (Z.pos (fst (shl_align mx ex ez)) + Z.pos m * 2 ^ (e - ez))); [|lia].
      apply Z.log2_le_pow2; [lia|]. rewrite Z.pow_add_r by lia. assert (0 < 2 ^ (e - ez)) by lia. nia. }
    destruct R as [[_ F]|[[-> _]|(m' & e' & -> & B & E')]]; [lia|by left|right].
    apply bounded_spec in B. exists m', e'. split_and!; [done|lia..].
Qed.

Lemma div_normal s1 s2 x y l1 h1 l2 h2 :
  normal l1 h1 s1 x → normal l2 h2 s2 y → - 900 ≤ l1 - h2 → h1 - l2 ≤ 900 →
  normal (l1 - h2 - 53) (h1 - l2 - 51) (xorb s1 s2) (f64_div x y).
Proof.
  intros (m1 & e1 & -> & M1 & E1) (m2 & e2 & -> & M2 & E2) L H. unfold f64_div, SFdiv, SFdiv_core_binary. simpl Zdigits2.
  rewrite (digits2_range m1 52), (digits2_range m2 52) by lia. unfold fexp, emin.
  replace (Z.min _ _) with (e1 - e2 - 53) by lia. replace (e1 - e2 - (e1 - e2 - 53)) with 53 by lia.
  rewrite Z.shiftl_mul_pow2 by lia. pose proof (Z_div_mod (Z.pos m1 * 2 ^ 53) (Z.pos m2) ltac:(done)) as D.
  destruct (Z.div_eucl _ _) as [q r]. destruct D as [D R].
  assert (2 ^ 52 ≤ q < 2 ^ 54) as Q by nia.
  destruct q as [|q|]; [lia| |lia].
  assert (52 ≤ Z.log2 (Z.pos q) < 54) by (split; [apply Z.log2_le_pow2|apply Z.log2_lt_pow2]; lia).
  pose proof (target_eq q (e1 - e2 - 53)) as T.
  pose proof (round_aux_spec (xorb s1 s2) q (e1 - e2 - 53) (new_location (Z.pos m2) r) ltac:(lia)) as Ro.
  apply rounded_normal in Ro as (m & e & -> & M & E); [|lia]. exists m, e. split_and!; [done|lia..].
Qed.

(** A quotient that may be subnormal. *)
Lemma div_finite s1 s2 x y l1 h1 l2 h2 :
  normal l1 h1 s1 x → normal l2 h2 s2 y → - 1023 ≤ l1 - h2 → h1 - l2 ≤ 900 → finite (f64_div x y).
Proof.
  intros (m1 & e1 & -> & M1 & E1) (m2 & e2 & -> & M2 & E2) L H. unfold f64_div, SFdiv, SFdiv_core_binary. simpl Zdigits2.
  rewrite (digits2_range m1 52), (digits2_range m2 52) by lia. unfold fexp, emin.
  set (e' := Z.min _ _). assert (51 ≤ e1 - e2 - e' ≤ 53 ∧ - 1074 ≤ e' ∧ (e' = - 1074 ∨ e' = e1 - e2 - 53)) as (S & L' & E') by lia.
  set (n := e1 - e2 - e') in *. destruct n as [|n'|] eqn:En; [lia| |lia]. rewrite <-En in *. clear n' En.
  rewrite Z.shiftl_mul_pow2 by lia. pose proof (Z_div_mod (Z.pos m1 * 2 ^ n) (Z.pos m2) ltac:(done)) as D.
  destruct (Z.div_eucl _ _) as [q r]. destruct D as [D R].
  assert (2 ^ 50 ≤ q < 2 ^ 54 ∧ (n = 53 → 2 ^ 52 ≤ q)) as [Q Q'].
  { assert (n = 51 ∨ n = 52 ∨ n = 53) as [->|[->| ->]] by lia; split_and!; try done; nia. }
  destruct q as [|q|]; [lia| |lia].
  assert (50 ≤ Z.log2 (Z.pos q) < 54) by (split; [apply Z.log2_le_pow2|apply Z.log2_lt_pow2]; lia).
  assert (n = 53 → 52 ≤ Z.log2 (Z.pos q)) by (intros N; apply Z.log2_le_pow2; lia).
  pose proof (target_eq q e') as T. eapply rounded_finite; [|apply round_aux_spec]; lia.
Qed.

(** [1 - x] is as tame as [x]. *)
Lemma one_minus_finite s x lo hi : - 900 ≤ lo → hi ≤ 900 → normal lo hi s x → finite (f64_sub (f64_of_Z 1) x).
Proof.
  intros Lo Hi (m & e & -> & M & E). change (f64_of_Z 1) with (S754_finite false 4503599627370496 (-52)).
  unfold f64_sub, SFsub. set (ez := Z.min (- 52) e). simpl cond_Zopp at 1.
  rewrite (shl_align_ge 4503599627370496 (-52) ez) by lia.
  assert (∀ p s', Z.pos p ≤ 2 ^ (954 - ez) → finite (binary_round 53 1024 s' p ez)) as K.
  { intros p s' P. eapply rounded_finite; [|apply binary_round_spec]. rewrite target_eq.
    apply Z.log2_le_mono in P. rewrite Z.log2_pow2 in P by lia. lia. }
  assert (2 ^ 52 * 2 ^ (- 52 - ez) ≤ 2 ^ (953 - ez)) as B1 by (rewrite <-Z.pow_add_r by lia; apply Z.pow_le_mono_r; lia).
  assert (Z.pos (fst (shl_align m e ez)) ≤ 2 ^ (953 - ez)) as B2.
  { rewrite shl_align_ge by lia. replace (953 - ez) with ((953 - e) + (e - ez)) by lia. rewrite Z.pow_add_r by lia.
    apply Z.mul_le_mono_nonneg_r; [lia|]. etrans; [|apply (Z.pow_le_mono_r 2 53); lia]. lia. }
  assert (2 ^ (954 - ez) = 2 * 2 ^ (953 - ez)) as B3 by (rewrite <-Z.pow_succ_r by lia; f_equal; lia).
  match goal with |- finite (binary_normalize _ _ ?z _ _) => destruct z as [|p|p] eqn:D end; simpl; [done|apply K..]; destruct s; simpl in D; lia.
Qed.

Lemma one_minus_no_nan x : no_nan x → no_nan (f64_sub (f64_of_Z 1) x).
Proof.
  intros [V N]. change (f64_of_Z 1) with (S754_finite false 4503599627370496 (-52)).
  destruct x as [s|s| |s m e]; [done..|]. apply normalize_no_nan.
Qed.

Lemma mul_no_nan x y : finite x → finite y → no_nan (f64_mul x y).
Proof.
  intros [[V1 N1] I1] [[V2 N2] I2]. destruct x as [s|s| |s m e], y as [s'|s'| |s' m' e']; try done.
  unfold f64_mul, SFmul. eapply rounded_no_nan, round_aux_spec.
  apply bounded_spec in V1, V2. rewrite target_eq, Pos2Z.inj_mul.
  assert (Z.log2 (Z.pos m) + Z.log2 (Z.pos m') ≤ Z.log2 (Z.pos m * Z.pos m')) by (apply Z.log2_mul_below; lia).
  pose proof (Z.log2_nonneg (Z.pos m)). pose proof (Z.log2_nonneg (Z.pos m')).
  destruct (decide (e = - 1074 ∧ e' = - 1074)) as [?|D]; [lia|].
  assert (2 ^ 52 ≤ Z.pos m ∨ 2 ^ 52 ≤ Z.pos m') as [G|G] by lia; apply Z.log2_le_mono in G; rewrite Z.log2_pow2 in G by lia; lia.
Qed.

Lemma mul_nonzero_no_nan lo hi s x y : - 1074 ≤ lo → hi ≤ 971 → normal lo hi s x → no_nan y → no_nan (f64_mul x y).
Proof.
  intros L H X [V N]. destruct (is_inf y) eqn:I; [|apply mul_no_nan; [by eapply normal_finite|done]].
  destruct X as (m & e & -> & _). by destruct y.
Qed.

Lemma mul_no_nan_nonzero lo hi s x y : - 1074 ≤ lo → hi ≤ 971 → no_nan x → normal lo hi s y → no_nan (f64_mul x y).
Proof.
  intros L H [V N] Y. destruct (is_inf x) eqn:I; [|apply mul_no_nan; [done|by eapply normal_finite]].
  destruct Y as (m & e & -> & _). by destruct x.
Qed.

(** Rounding is symmetric. *)
Lemma round_aux_opp s m e l : binary_round_aux 53 1024 (negb s) m e l = SFopp (binary_round_aux 53 1024 s m e l).
Proof. unfold binary_round_aux. by repeat case_match. Qed.
