(* ===== verification/Sha256.v ===== *)
(** * Sha256: the digests of the Go standard library ([crypto/sha256], [crypto/hmac])

    The control plane binds decisions, receipts and webhook payloads with
    SHA-256.  The function is defined here from FIPS 180-4, over byte strings, and
    evaluates; HMAC is RFC 2104 with the 64-byte block of SHA-256.  Words are
    32-bit numbers in [Z]. *)
From Stdlib Require Import Ascii.
From stdpp Require Import base numbers list strings.
From S2P Require Import Prelude.
Local Open Scope Z_scope.

Definition add32 (a b : Z) : Z := wrapu32 (a + b).

Definition rotr (n x : Z) : Z :=
  Z.lor (Z.shiftr x n) (wrapu32 (Z.shiftl x (32 - n))).

Definition not32 (x : Z) : Z := Z.lxor x 0xffffffff.

Definition ch (x y z : Z) : Z := Z.lxor (Z.land x y) (Z.land (not32 x) z).
Definition maj (x y z : Z) : Z := Z.lxor (Z.lxor (Z.land x y) (Z.land x z)) (Z.land y z).
Definition big_sigma0 (x : Z) : Z := Z.lxor (Z.lxor (rotr 2 x) (rotr 13 x)) (rotr 22 x).
Definition big_sigma1 (x : Z) : Z := Z.lxor (Z.lxor (rotr 6 x) (rotr 11 x)) (rotr 25 x).
Definition small_sigma0 (x : Z) : Z := Z.lxor (Z.lxor (rotr 7 x) (rotr 18 x)) (Z.shiftr x 3).
Definition small_sigma1 (x : Z) : Z := Z.lxor (Z.lxor (rotr 17 x) (rotr 19 x)) (Z.shiftr x 10).

(** The constants are defined as the standard defines them: the first 32 bits of
    the fractional parts of the cube roots of the first 64 primes, and of the
    square roots of the first eight. *)

(** The cube root of [n], rounded down, between [lo] and [hi]: halving. *)
Fixpoint cube_root (fuel : nat) (n lo hi : Z) : Z :=
  match fuel with
  | O => lo
  | S fuel =>
      let mid := (lo + hi) / 2 in
      if hi <=? lo + 1 then lo
      else if mid * mid * mid <=? n then cube_root fuel n mid hi else cube_root fuel n lo mid
  end.

Definition prime (p : Z) : bool := forallb (λ d, negb (p mod d =? 0)) (seqZ 2 (p - 2)).

Definition first_primes (k : nat) : list Z := take k (List.filter prime (seqZ 2 311)).

Definition sha_K : list Z :=
  Eval vm_compute in
    map (λ p, wrapu32 (cube_root 64 (p * 2 ^ 96) 0 (8 * 2 ^ 32))) (first_primes 64).

Definition sha_init : list Z :=
  Eval vm_compute in map (λ p, wrapu32 (Z.sqrt (p * 2 ^ 64))) (first_primes 8).

(** ** Padding and blocks *)

Definition byte_values (s : string) : list Z :=
  map (λ a, Z.of_N (N_of_ascii a)) (String.list_ascii_of_string s).

Fixpoint big_endian (n : nat) (v : Z) (acc : list Z) : list Z :=
  match n with
  | O => acc
  | S n => big_endian n (v / 256) (v mod 256 :: acc)
  end.

(** A one bit, zeros up to 56 modulo 64, and the length in bits. *)
Definition sha_pad (m : list Z) : list Z :=
  let l := Z.of_nat (length m) in
  m ++ [128] ++ repeat 0 (Z.to_nat ((55 - l) mod 64)) ++ big_endian 8 (8 * l) [].

Fixpoint to_words (fuel : nat) (bs : list Z) : list Z :=
  match fuel, bs with
  | S fuel, a :: b :: c :: d :: rest =>
      ((a * 256 + b) * 256 + c) * 256 + d :: to_words fuel rest
  | _, _ => []
  end.

(** The message schedule, kept newest first: [w(t) = s1 w(t-2) + w(t-7) + s0 w(t-15) + w(t-16)]. *)
Fixpoint extend (n : nat) (rev_w : list Z) : list Z :=
  match n with
  | O => rev_w
  | S n =>
      let w k := nth k rev_w 0 in
      extend n (add32 (add32 (add32 (small_sigma1 (w 1%nat)) (w 6%nat)) (small_sigma0 (w 14%nat))) (w 15%nat) :: rev_w)
  end.

Definition schedule (block : list Z) : list Z := rev (extend 48 (rev block)).

Definition sha_round (st : list Z) (kw : Z * Z) : list Z :=
  match st with
  | [a; b; c; d; e; f; g; h] =>
      let t1 := add32 (add32 (add32 (add32 h (big_sigma1 e)) (ch e f g)) kw.1) kw.2 in
      let t2 := add32 (big_sigma0 a) (maj a b c) in
      [add32 t1 t2; a; b; c; add32 d t1; e; f; g]
  | _ => st
  end.

Definition sha_block (st block : list Z) : list Z :=
  zip_with add32 st (foldl sha_round st (zip sha_K (schedule block))).

Fixpoint sha_blocks (fuel : nat) (st words : list Z) : list Z :=
  match fuel, words with
  | _, [] => st
  | O, _ => st
  | S fuel, _ => sha_blocks fuel (sha_block st (take 16 words)) (drop 16 words)
  end.

(** ** Digests *)

Definition sha256_bytes (m : list Z) : list Z :=
  let padded := sha_pad m in
  let words := to_words (length padded) padded in
  sha_blocks (length words) sha_init words ≫= λ w, big_endian 4 w [].

Definition hmac_sha256 (key m : list Z) : list Z :=
  let key := if (64 <? length key)%nat then sha256_bytes key else key in
  let key := key ++ repeat 0 (64 - length key) in
  sha256_bytes (map (Z.lxor 0x5c) key ++ sha256_bytes (map (Z.lxor 0x36) key ++ m)).

(** [hex.EncodeToString]. *)
Definition hex_encode (bs : list Z) : string :=
  foldr (λ b s, hex_onto 2 (Z.to_N b) s) "" bs.

Definition sha256_hex (s : string) : string := hex_encode (sha256_bytes (byte_values s)).

(** Published vectors: FIPS 180-4 and RFC 4231 (case 2). *)
Example sha256_abc :
  sha256_hex "abc" = "ba7816bf8f01cfea414140de5dae2223b00361a396177a9cb410ff61f20015ad".
Proof. vm_compute. reflexivity. Qed.

Example sha256_two_blocks :
  sha256_hex "abcdbcdecdefdefgefghfghighijhijkijkljklmklmnlmnomnopnopq" =
    "248d6a61d20638b8e5c026930c3e6039a33ce45964ff2167f6ecedd419db06c1".
Proof. vm_compute. reflexivity. Qed.

Example hmac_rfc4231_2 :
  hex_encode (hmac_sha256 (byte_values "Jefe") (byte_values "what do ya want for nothing?")) =
    "5bdcc146bf60754e6a042426089575c75a003f089d2739839dec58b964ec3843".
Proof. vm_compute. reflexivity. Qed.
