(* ===== verification/Currency.v ===== *)
(** * Currency: the settlement currency and minor-unit amounts

    Models [src/control/currency.go]: the closed registry of currencies, the
    conversions between ISO minor units and the ledger's micro-units, the exact
    decimal parser of the cash boundary, currency-tagged minor amounts with
    checked arithmetic, and the process-wide settlement currency loaded once at
    boot (a state passed explicitly). *)
From Stdlib Require Import Ascii.
From stdpp Require Import base numbers list gmap strings.
From S2P Require Import Prelude Float64.
Local Open Scope Z_scope.
Local Open Scope go_scope.

(** ** The registry *)

Record Currency := mkCurrency { code : string; exponent : Z }.

#[export] Instance Currency_eq_dec : EqDecision Currency.
Proof. solve_decision. Defined.

(** [Currency{}], the invalid zero value. *)
Definition Currency_zero : Currency := mkCurrency "" 0.

Definition supportedCurrencies : gmap string Currency :=
  <["usd" := mkCurrency "usd" 2]> (
  <["cad" := mkCurrency "cad" 2]> (
  <["jpy" := mkCurrency "jpy" 0]> ∅)).

(** The two nested loops that order the codes in place; [out] is the order in
    which the runtime enumerated the map. *)
Fixpoint order_row (i : nat) (js : list nat) (out : list string) : list string :=
  match js with
  | [] => out
  | j :: js' =>
      let oi := default "" (out !! i) in
      let oj := default "" (out !! j) in
      order_row i js' (if String.ltb oj oi then <[i := oj]> (<[j := oi]> out) else out)
  end.

Fixpoint order_rows (rows : list nat) (n : nat) (out : list string) : list string :=
  match rows with
  | [] => out
  | i :: rows' => order_rows rows' n (order_row i (seq (S i) (n - S i)) out)
  end.

Definition SupportedCurrencyCodes (enumeration : list string) : list string :=
  order_rows (seq 0 (length enumeration)) (length enumeration) enumeration.

Definition ParseCurrency (raw : string) : res Currency :=
  let c := to_lower (trim_space raw) in
  refuse (Errorf "currency is required") if bool_decide (c = "");
  match supportedCurrencies !! c with
  | None => Err (Errorf "unsupported currency %q")
  | Some c => Ok c
  end.

(** [panic] is the [None] of a partial value. *)
Definition MustParseCurrency (raw : string) : option Currency :=
  match ParseCurrency raw with Ok c => Some c | Err _ => None end.

Definition Currency_Valid (c : Currency) : bool :=
  if bool_decide (code c = "") then false
  else match supportedCurrencies !! code c with
       | None => false
       | Some known => exponent known =? exponent c
       end.

Definition Currency_Equal (c other : Currency) : bool :=
  Currency_Valid c && Currency_Valid other &&
  bool_decide (code c = code other) && (exponent c =? exponent other).

Definition Currency_String (c : Currency) : string :=
  if Currency_Valid c then code c else "<invalid-currency>".

(** ** Scales *)

Definition ledgerDecimalPlaces : Z := 6.

(** [for i := 0; i < n; i++ { f *= 10 }], from [f]. *)
Fixpoint times_ten (n : nat) (f : Z) : Z :=
  match n with O => f | S n' => times_ten n' (f *w 10) end.

Definition MinorUnitsPerMajor (c : Currency) : res Z :=
  refuse (Errorf "invalid currency") if negb (Currency_Valid c);
  refuse (Errorf "currency %s has unsupported exponent %d")
    if (exponent c <? 0) || (6 <? exponent c);
  Ok (times_ten (Z.to_nat (exponent c)) 1).

Definition MicrosPerMinorUnit (c : Currency) : res Z :=
  refuse (Errorf "invalid currency") if negb (Currency_Valid c);
  refuse (Errorf "currency %s exponent %d exceeds ledger scale")
    if (exponent c <? 0) || (ledgerDecimalPlaces <? exponent c);
  Ok (times_ten (Z.to_nat (ledgerDecimalPlaces - exponent c)) 1).

Definition MinorToMicros (c : Currency) (minor : Z) : res Z :=
  factor ← MicrosPerMinorUnit c;
  let maxInt64 := max_int64 in
  let minInt64 := (- maxInt64) -w 1 in
  refuse (Errorf "minor amount %d is outside the ledger range for %s")
    if ((0 <? minor) && (maxInt64 /t factor <? minor)) ||
       ((minor <? 0) && (minor <? minInt64 /t factor));
  Ok (minor *w factor).

Definition MajorToMinor (c : Currency) (major : f64) : res Z :=
  factor ← MinorUnitsPerMajor c;
  let scaled := f64_mul major (f64_of_Z factor) in
  if f64_leb (f64_of_Z 0) scaled
  then Ok (f64_to_int64 (f64_add scaled (f64_lit 1 2)))
  else Ok (f64_to_int64 (f64_sub scaled (f64_lit 1 2))).

(** ** The exact decimal parser *)

Definition is_digit (a : ascii) : bool :=
  let n := nat_of_ascii a in (48 <=? n)%nat && (n <=? 57)%nat.

Definition digit_value (a : ascii) : Z := Z.of_nat (nat_of_ascii a) - 48.

Fixpoint all_digits (s : string) : bool :=
  match s with
  | EmptyString => true
  | String a s' => is_digit a && all_digits s'
  end.

Fixpoint decimal_value (acc : Z) (s : string) : Z :=
  match s with
  | EmptyString => acc
  | String a s' => decimal_value (10 * acc + digit_value a) s'
  end.

(** [strconv.ParseInt(s, 10, 64)] on a non-empty string of digits. *)
Definition ParseInt_digits (s : string) : option Z :=
  let v := decimal_value 0 s in
  if v <=? max_int64 then Some v else None.

(** [for len(fractionRaw) < c.exponent { fractionRaw += "0" }]. *)
Fixpoint pad_zeros (n : nat) (s : string) : string :=
  match n with O => s | S n' => pad_zeros n' (s +:+ "0") end.

Definition ParseMajorToMinorExact (c : Currency) (raw : string) : res Z :=
  refuse (Errorf "invalid currency") if negb (Currency_Valid c);
  let raw := trim_space raw in
  refuse (Errorf "amount is required") if bool_decide (raw = "");
  let '(wholeRaw, fractionRaw, hasFraction) := cut "." raw in
  refuse (Errorf "amount %q is not a decimal major-unit amount")
    if bool_decide (wholeRaw = "") || (hasFraction && bool_decide (fractionRaw = "")) ||
       contains_byte "." fractionRaw;
  refuse (Errorf "amount %q is not a decimal major-unit amount")
    if negb (all_digits wholeRaw && all_digits fractionRaw);
  refuse (Errorf "amount %q has more than %d decimal places for %s")
    if exponent c <? Z.of_nat (String.length fractionRaw);
  match ParseInt_digits wholeRaw with
  | None => Err (Errorf "amount %q is outside the supported range")
  | Some whole =>
    factor ← MinorUnitsPerMajor c;
    let fractionRaw :=
      pad_zeros (Z.to_nat (exponent c) - String.length fractionRaw) fractionRaw in
    match (if bool_decide (fractionRaw = "") then Some 0 else ParseInt_digits fractionRaw) with
    | None => Err (Errorf "amount %q is outside the supported range")
    | Some fraction =>
      refuse (Errorf "amount %q is outside the supported range")
        if (max_int64 -w fraction) /t factor <? whole;
      Ok ((whole *w factor) +w fraction)
    end
  end.

(** ** Minor amounts *)

Definition errCurrencyMismatch : error := Sentinel "errCurrencyMismatch".
Definition errInvalidCurrency : error := Sentinel "errInvalidCurrency".
Definition errSettlementCurrency : error := Sentinel "errSettlementCurrency".

Record MinorAmount := mkMinorAmount { amount : Z; currency : Currency }.

Definition NewMinorAmount (a : Z) (c : Currency) : res MinorAmount :=
  refuse errInvalidCurrency if negb (Currency_Valid c);
  Ok (mkMinorAmount a c).

Definition MinorAmount_Valid (m : MinorAmount) : bool := Currency_Valid (currency m).

Definition MinorAmount_Add (m other : MinorAmount) : res MinorAmount :=
  refuse errInvalidCurrency if negb (MinorAmount_Valid m) || negb (MinorAmount_Valid other);
  refuse (Wrapf errCurrencyMismatch "%w: %s vs %s")
    if negb (Currency_Equal (currency m) (currency other));
  let sum := amount m +w amount other in
  refuse (Errorf "minor-amount add overflow")
    if ((0 <? amount other) && (sum <? amount m)) ||
       ((amount other <? 0) && (amount m <? sum));
  Ok (mkMinorAmount sum (currency m)).

Definition MinorAmount_Sub (m other : MinorAmount) : res MinorAmount :=
  neg ← NewMinorAmount (wrap64 (- amount other)) (currency other);
  MinorAmount_Add m neg.

Definition SameCurrency (m other : MinorAmount) : bool :=
  MinorAmount_Valid m && MinorAmount_Valid other &&
  Currency_Equal (currency m) (currency other).

Definition RequireCurrency (m : MinorAmount) (want : Currency) : res unit :=
  refuse errInvalidCurrency if negb (MinorAmount_Valid m);
  refuse errInvalidCurrency if negb (Currency_Valid want);
  refuse (Wrapf errCurrencyMismatch "%w: have %s want %s")
    if negb (Currency_Equal (currency m) want);
  Ok tt.

(** ** The process-wide settlement currency *)

Record settlement := mkSettlement { settlementLoaded : bool; settlementCurrency : Currency }.

(** The package variables before boot. *)
Definition settlement_unset : settlement := mkSettlement false Currency_zero.

Definition setSettlementCurrency (c : Currency) (_ : settlement) : settlement :=
  mkSettlement true c.

Definition LoadSettlementCurrencyFromEnv (env : string) (st : settlement) :
    res Currency * settlement :=
  let raw := trim_space env in
  if bool_decide (raw = "")
  then (Err (Errorf "%s is required; refusing to start without an explicit settlement currency"), st)
  else match ParseCurrency raw with
       | Err e => (Err (Wrapf e "%s=%q is not a supported settlement currency: %w"), st)
       | Ok c => (Ok c, setSettlementCurrency c st)
       end.

Definition SettlementCurrency (st : settlement) : res Currency :=
  refuse errSettlementCurrency if negb (settlementLoaded st);
  refuse errSettlementCurrency if negb (Currency_Valid (settlementCurrency st));
  Ok (settlementCurrency st).

Definition SettlementCurrencyCode (st : settlement) : string :=
  match SettlementCurrency st with Err _ => "" | Ok c => code c end.

Definition RequireSettlementCurrency (st : settlement) (raw : string) : res unit :=
  want ← SettlementCurrency st;
  got ← ParseCurrency raw;
  refuse (Wrapf errCurrencyMismatch "%w: have %s want settlement currency %s")
    if negb (Currency_Equal got want);
  Ok tt.

Definition IsSettlementCurrency (st : settlement) (raw : string) : bool :=
  is_ok (RequireSettlementCurrency st raw).

(** ** Lemmas on the registry *)

Lemma supported_cases k c :
  supportedCurrencies !! k = Some c →
  (k = "usd" ∧ c = mkCurrency "usd" 2) ∨ (k = "cad" ∧ c = mkCurrency "cad" 2) ∨
  (k = "jpy" ∧ c = mkCurrency "jpy" 0).
Proof.
  unfold supportedCurrencies. rewrite !lookup_insert.
  repeat case_decide; intros; simplify_eq; auto.
Qed.

Lemma Currency_Valid_cases c :
  Currency_Valid c = true ↔
  c = mkCurrency "usd" 2 ∨ c = mkCurrency "cad" 2 ∨ c = mkCurrency "jpy" 0.
Proof.
  split; [|by intros [->|[->| ->]]].
  destruct c as [k e]. unfold Currency_Valid; simpl. case_bool_decide; [done|].
  destruct (supportedCurrencies !! k) as [c'|] eqn:E; [|done].
  apply supported_cases in E. intros ?%Z.eqb_eq. naive_solver.
Qed.

Lemma ParseCurrency_Valid raw c : ParseCurrency raw = Ok c → Currency_Valid c = true.
Proof.
  unfold ParseCurrency. intros. inv_ok. destruct (supportedCurrencies !! _) eqn:E; simplify_eq.
  apply supported_cases in E. apply Currency_Valid_cases. naive_solver.
Qed.

Lemma Currency_Equal_spec c d :
  Currency_Equal c d = true ↔ Currency_Valid c = true ∧ c = d.
Proof.
  unfold Currency_Equal. split.
  - intros; reflect_bools. destruct c, d; simpl in *. by subst.
  - intros [H ->]. rewrite H. by rewrite bool_decide_true, Z.eqb_refl.
Qed.

Lemma valid_code_nonempty c : Currency_Valid c = true → code c ≠ "".
Proof. intros [->|[->| ->]]%Currency_Valid_cases; done. Qed.

#[export] Hint Resolve ParseCurrency_Valid valid_code_nonempty : go.

(** The factors are the powers of ten of the exponents. *)
Lemma MicrosPerMinorUnit_spec c f :
  MicrosPerMinorUnit c = Ok f → Currency_Valid c = true ∧ f = 10 ^ (6 - exponent c) ∧ (f = 10000 ∨ f = 1000000).
Proof.
  unfold MicrosPerMinorUnit. destruct (Currency_Valid c) eqn:V; [|done].
  apply Currency_Valid_cases in V. destruct V as [->|[->| ->]]; vm_compute; naive_solver.
Qed.

Lemma MicrosPerMinorUnit_valid c :
  Currency_Valid c = true → MicrosPerMinorUnit c = Ok (10 ^ (6 - exponent c)).
Proof. intros [->|[->| ->]]%Currency_Valid_cases; done. Qed.

Lemma MinorUnitsPerMajor_valid c :
  Currency_Valid c = true → MinorUnitsPerMajor c = Ok (10 ^ exponent c).
Proof. intros [->|[->| ->]]%Currency_Valid_cases; done. Qed.

Lemma MinorUnitsPerMajor_invalid c :
  Currency_Valid c = false → MinorUnitsPerMajor c = Err (Errorf "invalid currency").
Proof. intros H. unfold MinorUnitsPerMajor. by rewrite H. Qed.

(** ** Decimal printing, the inverse the parser is checked against *)

Definition digit_char (d : Z) : ascii := ascii_of_nat (Z.to_nat (48 + d)).

(** Exactly [n] digits of [v], most significant first. *)
Fixpoint print_fixed (n : nat) (v : Z) : string :=
  match n with
  | O => ""
  | S n' => print_fixed n' (v / 10) +:+ String (digit_char (v mod 10)) ""
  end.

(** No leading zeros; 19 digits hold every [int64]. *)
Fixpoint print_decimal (fuel : nat) (v : Z) : string :=
  match fuel with
  | O => ""
  | S fuel' =>
      if v <? 10 then String (digit_char v) ""
      else print_decimal fuel' (v / 10) +:+ String (digit_char (v mod 10)) ""
  end.

Definition print_major (c : Currency) (minor : Z) : string :=
  let f := 10 ^ exponent c in
  print_decimal 19 (minor / f) +:+
  (if exponent c =? 0 then "" else "." +:+ print_fixed (Z.to_nat (exponent c)) (minor mod f)).

Lemma digit_char_spec d :
  0 ≤ d < 10 →
  is_digit (digit_char d) = true ∧ digit_value (digit_char d) = d ∧ solid_byte (digit_char d) = true ∧
  digit_char d ≠ "."%char.
Proof.
  intros. assert (d = 0 ∨ d = 1 ∨ d = 2 ∨ d = 3 ∨ d = 4 ∨ d = 5 ∨ d = 6 ∨ d = 7 ∨ d = 8 ∨ d = 9) as C by lia.
  by destruct C as [->|[->|[->|[->|[->|[->|[->|[->|[->| ->]]]]]]]]].
Qed.

Lemma decimal_value_app s t acc :
  decimal_value acc (s +:+ t) = decimal_value (decimal_value acc s) t.
Proof.
  revert acc. induction s as [|a s IH]; intros acc; [done|].
  rewrite string_app_cons. simpl. apply IH.
Qed.

Lemma all_digits_app s t : all_digits (s +:+ t) = all_digits s && all_digits t.
Proof.
  induction s as [|a s IH]; [done|]. rewrite string_app_cons. simpl. by rewrite IH, andb_assoc.
Qed.

Lemma length_app s t : String.length (s +:+ t) = (String.length s + String.length t)%nat.
Proof. induction s as [|a s IH]; [done|]. rewrite string_app_cons. simpl. by rewrite IH. Qed.

Lemma print_fixed_spec n v acc :
  0 ≤ v < 10 ^ Z.of_nat n →
  all_digits (print_fixed n v) = true ∧
  decimal_value acc (print_fixed n v) = acc * 10 ^ Z.of_nat n + v ∧
  String.length (print_fixed n v) = n.
Proof.
  revert v acc. induction n as [|n IH]; intros v acc Hv; [simpl in *; split_and!; try done; lia|].
  rewrite Nat2Z.inj_succ, Z.pow_succ_r in Hv by lia.
  destruct (IH (v / 10) acc) as (D & V & L); [Z.to_euclidean_division_equations; lia|].
  destruct (digit_char_spec (v mod 10)) as (D1 & V1 & _); [Z.to_euclidean_division_equations; lia|].
  simpl. rewrite all_digits_app, decimal_value_app, length_app, D, V, L; simpl. rewrite D1, V1.
  split_and!; [done| |lia].
  replace (10 ^ Z.of_nat (S n)) with (10 * 10 ^ Z.of_nat n)
    by (rewrite Nat2Z.inj_succ, Z.pow_succ_r; lia).
  Z.to_euclidean_division_equations; nia.
Qed.

Lemma print_decimal_spec n v :
  0 ≤ v < 10 ^ Z.of_nat n → (0 < n)%nat →
  all_digits (print_decimal n v) = true ∧ print_decimal n v ≠ "" ∧
  decimal_value 0 (print_decimal n v) = v.
Proof.
  revert v. induction n as [|n IH]; intros v Hv Hn; [lia|]. simpl.
  destruct (Z.ltb_spec v 10).
  { destruct (digit_char_spec v) as (D1 & V1 & _); [lia|]. simpl. by rewrite D1, V1. }
  rewrite Nat2Z.inj_succ, Z.pow_succ_r in Hv by lia.
  destruct (IH (v / 10)) as (D & E & V).
  { Z.to_euclidean_division_equations; lia. }
  { destruct n; [simpl in Hv; lia|lia]. }
  destruct (digit_char_spec (v mod 10)) as (D1 & V1 & _); [Z.to_euclidean_division_equations; lia|].
  rewrite all_digits_app, decimal_value_app, D, V; simpl. rewrite D1, V1.
  split_and!; [done| |Z.to_euclidean_division_equations; lia].
  by destruct (print_decimal n (v / 10)).
Qed.

Lemma cut_digits s t :
  all_digits s = true → cut "." (s +:+ String "." t) = (s, t, true).
Proof.
  induction s as [|a s IH]; intros H; [done|]. rewrite string_app_cons. simpl in *.
  reflect_bools. case_bool_decide; [by subst|]. by rewrite IH.
Qed.

Lemma cut_digits_none s : all_digits s = true → cut "." s = (s, "", false).
Proof.
  induction s as [|a s IH]; intros H; [done|]. simpl in *. reflect_bools.
  case_bool_decide; [by subst|]. by rewrite IH.
Qed.

Lemma digit_solid a : is_digit a = true → solid_byte a = true.
Proof. unfold is_digit, solid_byte. intros; reflect_bools. apply andb_true_iff. rewrite !Nat.leb_le in *. lia. Qed.

Lemma last_of_digits s :
  s ≠ "" → all_digits s = true → ∃ s2 b, s = s2 +:+ String b "" ∧ solid_byte b = true.
Proof.
  induction s as [|a s IH]; intros Hne H; [done|]. simpl in H. reflect_bools.
  destruct s as [|b s].
  - exists "", a. auto using digit_solid.
  - destruct IH as (s2 & b' & E & S); [done..|]. exists (String a s2), b'.
    by rewrite string_app_cons, <-E.
Qed.

(** Trimming leaves a printed amount alone. *)
Lemma trim_space_number s t :
  all_digits s = true → s ≠ "" → t = "" ∨ (∃ f, t = "." +:+ f ∧ all_digits f = true ∧ f ≠ "") →
  trim_space (s +:+ t) = s +:+ t.
Proof.
  intros D N T. destruct s as [|a s]; [done|].
  assert (∃ s2 b, String a s +:+ t = s2 +:+ String b "" ∧ solid_byte b = true) as (s2 & b & E & B).
  { destruct T as [->|(f & -> & Df & Nf)].
    - rewrite string_app_nil_r. by apply last_of_digits.
    - destruct (last_of_digits f) as (s2 & b & -> & ?); [done..|].
      exists (String a s +:+ ("." +:+ s2)), b. by rewrite !string_app_assoc. }
  simpl in D. reflect_bools.
  eapply trim_space_solid; [rewrite string_app_cons; done|exact E|by apply digit_solid|done].
Qed.

(** ** Theorems *)

Section Theorems.
Context (c : Currency) (Hc : Currency_Valid c = true).

Lemma valid_exponent : exponent c = 0 ∨ exponent c = 2.
Proof. apply Currency_Valid_cases in Hc as [->|[->| ->]]; simpl; auto. Qed.

(** Splits on the two scales of the registry. *)
Ltac scale :=
  destruct valid_exponent as [-> | ->];
  [change (10 ^ 0) with 1 in * | change (10 ^ 2) with 100 in *].

(** The two components of a printed amount, as the parser sees them. *)
Lemma print_major_parts n :
  0 ≤ n ≤ max_int64 →
  let w := print_decimal 19 (n / 10 ^ exponent c) in
  let f := print_fixed (Z.to_nat (exponent c)) (n mod 10 ^ exponent c) in
  all_digits w = true ∧ w ≠ "" ∧ decimal_value 0 w = n / 10 ^ exponent c ∧
  all_digits f = true ∧ decimal_value 0 f = n mod 10 ^ exponent c ∧
  String.length f = Z.to_nat (exponent c).
Proof.
  intros Hn w f. unfold max_int64 in Hn.
  destruct (print_decimal_spec 19 (n / 10 ^ exponent c)) as (? & ? & ?);
    [change (10 ^ Z.of_nat 19) with 10000000000000000000; scale; go_lia|lia|].
  destruct (print_fixed_spec (Z.to_nat (exponent c)) (n mod 10 ^ exponent c) 0) as (? & ? & ?);
    [scale; [change (10 ^ Z.of_nat (Z.to_nat 0)) with 1|change (10 ^ Z.of_nat (Z.to_nat 2)) with 100];
     go_lia|].
  subst w f. split_and!; assumption.
Qed.

(** The parser on the two components it cuts the amount into. *)
Lemma parse_components n w f :
  0 ≤ n ≤ max_int64 → all_digits w = true → w ≠ "" → all_digits f = true →
  String.length f = Z.to_nat (exponent c) →
  decimal_value 0 w = n / 10 ^ exponent c → decimal_value 0 f = n mod 10 ^ exponent c →
  ParseMajorToMinorExact c (w +:+ (if exponent c =? 0 then "" else "." +:+ f)) = Ok n.
Proof.
  intros Hn Dw Nw Df Lf Vw Vf. unfold ParseMajorToMinorExact. rewrite Hc; cbn [negb].
  rewrite trim_space_number; [|done..|].
  2: { destruct valid_exponent as [E|E]; rewrite E in *; [by left|right].
       exists f. split_and!; try done. by intros ->. }
  rewrite bool_decide_false by (destruct w; done).
  rewrite MinorUnitsPerMajor_valid by done.
  destruct valid_exponent as [E|E]; rewrite E in *; cbn [Z.eqb].
  - destruct f; [|done]. rewrite string_app_nil_r, cut_digits_none by done.
    rewrite bool_decide_false by done. simpl. rewrite Dw; simpl. unfold ParseInt_digits. rewrite Vw.
    change (10 ^ 0) with 1 in *. rewrite (proj2 (Z.leb_le _ _)) by go_lia. simpl.
    rewrite (proj2 (Z.ltb_ge _ _)) by go_lia. f_equal. go_lia.
  - destruct f as [|a [|b [|]]]; try done.
    change ("." +:+ String a (String b "")) with (String "." (String a (String b ""))).
    rewrite cut_digits by done.
    assert (contains_byte "." (String a (String b "")) = false) as ->.
    { unfold contains_byte. by rewrite cut_digits_none. }
    rewrite bool_decide_false by done. rewrite bool_decide_false by done. cbn [andb orb].
    rewrite Dw, Df. cbn [negb andb String.length Nat.sub].
    unfold ParseInt_digits. rewrite Vw. change (10 ^ 2) with 100 in *.
    rewrite (proj2 (Z.leb_le _ _)) by go_lia. cbn [mbind res_bind pad_zeros].
    change (2 <? Z.of_nat 2) with false.
    change (pad_zeros (Z.to_nat 2 - 2) (String a (String b ""))) with (String a (String b "")).
    rewrite bool_decide_false by done. rewrite Vf, (proj2 (Z.leb_le _ _)) by go_lia. simpl.
    rewrite (proj2 (Z.ltb_ge _ _)) by go_lia. f_equal. go_lia.
Qed.

(** Every non-negative minor amount an [int64] holds is recovered by the parser from
    its decimal notation in the currency's own scale: no digit is lost at the
    cash boundary, for two-decimal and for zero-decimal currencies. *)
Theorem ParseMajorToMinorExact_print n :
  0 ≤ n ≤ max_int64 → ParseMajorToMinorExact c (print_major c n) = Ok n.
Proof.
  intros Hn. destruct (print_major_parts n Hn) as (? & ? & ? & ? & ? & ?).
  by apply parse_components.
Qed.

(** The conversion of minor units into ledger micro-units is exact multiplication
    by the currency's power of ten, and is refused precisely when the product
    leaves [int64]. *)
Theorem MinorToMicros_exact minor :
  int64 minor →
  MinorToMicros c minor =
    if is_int64 (minor * 10 ^ (6 - exponent c))
    then Ok (minor * 10 ^ (6 - exponent c))
    else Err (Errorf "minor amount %d is outside the ledger range for %s").
Proof.
  intros Hm. unfold MinorToMicros. rewrite MicrosPerMinorUnit_valid by done. simpl.
  destruct valid_exponent as [-> | ->];
    [change (10 ^ (6 - 0)) with 1000000|change (10 ^ (6 - 2)) with 10000];
    match goal with |- context [is_int64 ?z] => destruct (is_int64 z) eqn:B end; reflect_bools;
    match goal with |- (if ?b then _ else _) = _ => destruct b eqn:G end;
    rewrite ?orb_true_iff, ?orb_false_iff, ?andb_true_iff, ?andb_false_iff,
      ?Z.ltb_lt, ?Z.ltb_ge in G; first [reflexivity|exfalso; go_lia|f_equal; go_lia].
Qed.

(** Addition of amounts in one currency is exact or refused. *)
Lemma MinorAmount_Add_exact a b :
  int64 a → int64 b →
  MinorAmount_Add (mkMinorAmount a c) (mkMinorAmount b c) =
    if is_int64 (a + b) then Ok (mkMinorAmount (a + b) c)
    else Err (Errorf "minor-amount add overflow").
Proof.
  intros Ha Hb. unfold MinorAmount_Add, MinorAmount_Valid; simpl. rewrite Hc; simpl.
  rewrite (proj2 (Currency_Equal_spec c c)) by done. simpl.
  pose proof (wrap64_add_check a b Ha Hb) as W.
  destruct (is_int64 (a + b)) eqn:B; reflect_bools.
  - rewrite wrap64_id by done. rewrite (proj2 (orb_false_iff _ _)); [done|].
    rewrite !andb_false_iff, !Z.ltb_ge. go_lia.
  - rewrite (proj2 (orb_true_iff _ _)); [done|].
    rewrite !andb_true_iff, !Z.ltb_lt. tauto.
Qed.
End Theorems.

Lemma ParseMajorToMinorExact_print_witness :
  ParseMajorToMinorExact (mkCurrency "usd" 2) (print_major (mkCurrency "usd" 2) 1234) = Ok 1234
  ∧ print_major (mkCurrency "usd" 2) 1234 = "12.34".
Proof.
  split; [apply (ParseMajorToMinorExact_print (mkCurrency "usd" 2)); [reflexivity|width; lia]|reflexivity].
Defined.

Lemma MinorToMicros_exact_witness :
  MinorToMicros (mkCurrency "jpy" 0) (-5) = Ok (-5000000).
Proof.
  rewrite (MinorToMicros_exact (mkCurrency "jpy" 0)); [reflexivity|reflexivity|width; lia].
Defined.

(** Subtraction negates first, so it is exact or refused for every subtrahend
    whose negation an [int64] holds ... *)
Lemma MinorAmount_Sub_exact c a b :
  Currency_Valid c = true → int64 a → int64 b → b ≠ min_int64 →
  MinorAmount_Sub (mkMinorAmount a c) (mkMinorAmount b c) =
    if is_int64 (a - b) then Ok (mkMinorAmount (a - b) c)
    else Err (Errorf "minor-amount add overflow").
Proof.
  intros Hc Ha Hb Hm. unfold MinorAmount_Sub, NewMinorAmount; simpl. rewrite Hc; simpl.
  rewrite wrap64_id by go_lia. rewrite MinorAmount_Add_exact by (done || go_lia).
  by rewrite Z.add_opp_r.
Qed.

(** Subtracting the minimal [int64] is the one input on which checked subtraction
    is wrong, in both directions: for every non-negative minuend the true
    difference overflows and a negative amount is returned without an error, and
    for every negative minuend the difference is representable and is refused. *)
Theorem MinorAmount_Sub_min c a :
  Currency_Valid c = true → int64 a →
  MinorAmount_Sub (mkMinorAmount a c) (mkMinorAmount min_int64 c) =
    if 0 <=? a then Ok (mkMinorAmount (a + min_int64) c)
    else Err (Errorf "minor-amount add overflow").
Proof.
  intros Hc Ha. unfold MinorAmount_Sub, NewMinorAmount; simpl. rewrite Hc; simpl.
  replace (wrap64 (- min_int64)) with min_int64 by go_lia.
  rewrite MinorAmount_Add_exact by (done || go_lia).
  destruct (is_int64 _) eqn:B, (Z.leb_spec 0 a); reflect_bools; try done; exfalso; go_lia.
Qed.

Lemma MinorAmount_Sub_min_witness :
  MinorAmount_Sub (mkMinorAmount 0 (mkCurrency "usd" 2)) (mkMinorAmount min_int64 (mkCurrency "usd" 2)) =
    Ok (mkMinorAmount min_int64 (mkCurrency "usd" 2)).
Proof.
  rewrite (MinorAmount_Sub_min (mkCurrency "usd" 2) 0); [reflexivity|reflexivity|width; lia].
Defined.

(** Whatever order the runtime enumerates the registry in, the published list
    of codes is the same, sorted one. *)
Lemma SupportedCurrencyCodes_deterministic enumeration :
  enumeration ≡ₚ ["usd"; "cad"; "jpy"] →
  SupportedCurrencyCodes enumeration = ["cad"; "jpy"; "usd"].
Proof.
  intros P. assert (length enumeration = 3%nat) as L by by rewrite P.
  destruct enumeration as [|x [|y [|z [|]]]]; try done.
  assert (NoDup [x; y; z]) as ND by (rewrite P; apply (bool_decide_unpack _); reflexivity).
  assert (∀ s, s ∈ [x; y; z] → s ∈ ["usd"; "cad"; "jpy"]) as I by (intros s; by rewrite P).
  pose proof (I x ltac:(set_solver)) as Ix. pose proof (I y ltac:(set_solver)) as Iy.
  pose proof (I z ltac:(set_solver)) as Iz. clear I P L.
  rewrite !elem_of_cons, elem_of_nil in Ix, Iy, Iz.
  rewrite !NoDup_cons in ND. destruct_or?; subst; try done; set_solver.
Qed.

(** ** Settlement *)

(** The process settles in one currency.  Before boot every use of the
    settlement currency is refused; a load that fails leaves it refused; after a
    load that succeeds a raw code is accepted exactly when it parses to that
    currency, so no amount in another currency enters the ledger. *)
Theorem settlement_boot env st r raw :
  LoadSettlementCurrencyFromEnv env settlement_unset = (r, st) →
  match r with
  | Ok c => ParseCurrency (trim_space env) = Ok c ∧ SettlementCurrency st = Ok c ∧
            (IsSettlementCurrency st raw = true ↔ ParseCurrency raw = Ok c)
  | Err _ => SettlementCurrency st = Err errSettlementCurrency ∧
             IsSettlementCurrency st raw = false
  end.
Proof.
  intros H. unfold LoadSettlementCurrencyFromEnv in H. case_bool_decide; simplify_eq; [done|].
  destruct (ParseCurrency (trim_space env)) as [c|e] eqn:P; simplify_eq; [|done].
  assert (Currency_Valid c = true) as V by eauto with go.
  assert (SettlementCurrency (setSettlementCurrency c settlement_unset) = Ok c) as S.
  { unfold SettlementCurrency; simpl. by rewrite V. }
  split_and!; [done..|]. unfold IsSettlementCurrency, RequireSettlementCurrency. rewrite S; simpl.
  destruct (ParseCurrency raw) as [d|]; simpl; [|done].
  destruct (Currency_Equal d c) eqn:E; simpl.
  - apply Currency_Equal_spec in E as [_ ->]. done.
  - split; [done|]. intros [= ->]. rewrite (proj2 (Currency_Equal_spec c c)) in E; done.
Qed.

Lemma settlement_boot_witness :
  let st := setSettlementCurrency (mkCurrency "cad" 2) settlement_unset in
  LoadSettlementCurrencyFromEnv " CAD " settlement_unset = (Ok (mkCurrency "cad" 2), st)
  ∧ (IsSettlementCurrency st "Cad" = true ↔ ParseCurrency "Cad" = Ok (mkCurrency "cad" 2)).
Proof.
  split; [reflexivity|].
  apply (settlement_boot " CAD " _ (Ok (mkCurrency "cad" 2)) "Cad"); reflexivity.
Defined.
