(* ===== verification/MoneyNanos.v ===== *)
(** * MoneyNanos: exact economic value in integer nano-major-units

    Models [src/control/money_nanos.go], the arithmetic every price, floor,
    entitlement and accrual of the control plane goes through: currency-bound
    amounts with checked addition and subtraction, the one multiply-then-divide
    primitive with its 128-bit fast path and its arbitrary-precision path, the
    rate conversions built on it, the projection to the micro-unit ledger, and
    the accrual carry that keeps what a micro-unit ledger cannot post. *)
From stdpp Require Import base numbers list strings.
From S2P Require Import Prelude Float64 Currency.
Local Open Scope Z_scope.
Local Open Scope go_scope.

(** ** Amounts *)

Definition NanosPerMajorUnit : Z := 1000000000.
Definition NanosPerMicro : Z := 1000.
Definition realtimeReuseRetainedShareNanos : Z := 400000000.
Definition realtimeReuseMinimumChargeNanos : Z := NanosPerMicro.
Definition nanosecondsPerHour : Z := 3600 * 1000000000.
Definition economicRoundingPolicy : string := "economic-nanos-v1".

Record MoneyNanos := mkMoneyNanos { money_currency : Currency; Nanos : Z }.

Definition errMoneyCurrencyMismatch : error := Sentinel "errMoneyCurrencyMismatch".
Definition errMoneyOverflow : error := Sentinel "errMoneyOverflow".

Definition NewMoneyNanos (c : Currency) (nanos : Z) : res MoneyNanos :=
  refuse (Errorf "an exact amount must name its currency") if bool_decide (code c = "");
  Ok (mkMoneyNanos c nanos).

(** [economic_plan.go]'s test on a legacy amount. *)
Definition finiteNonNegative (v : f64) : bool :=
  negb (is_nan v) && negb (is_inf v) && f64_leb (f64_of_Z 0) v.

(** The untyped constants [math.MaxInt64] and [math.MinInt64] take the type of
    the [float64] they are compared with. *)
Definition MoneyNanosFromUSDFloat (c : Currency) (usd : f64) : res MoneyNanos :=
  refuse (Errorf "cannot convert non-finite %v to exact nanos")
    if negb (finiteNonNegative (f64_abs usd));
  let scaled := f64_mul usd (f64_of_Z NanosPerMajorUnit) in
  refuse errMoneyOverflow
    if f64_ltb (f64_of_Z max_int64) scaled || f64_ltb scaled (f64_of_Z min_int64);
  NewMoneyNanos c (f64_to_int64 (f64_round scaled)).

Definition USDFloat (m : MoneyNanos) : f64 :=
  f64_div (f64_of_Z (Nanos m)) (f64_of_Z NanosPerMajorUnit).

Definition IsZero (m : MoneyNanos) : bool := Nanos m =? 0.
Definition IsPositive (m : MoneyNanos) : bool := 0 <? Nanos m.

Definition sameCurrency (m other : MoneyNanos) : res unit :=
  refuse (Wrapf errMoneyCurrencyMismatch "%w: %s and %s")
    if negb (bool_decide (code (money_currency m) = code (money_currency other)));
  Ok tt.

Definition MoneyNanos_Add (m other : MoneyNanos) : res MoneyNanos :=
  _ ← sameCurrency m other;
  let sum := Nanos m +w Nanos other in
  refuse errMoneyOverflow
    if ((0 <? Nanos other) && (sum <? Nanos m)) || ((Nanos other <? 0) && (Nanos m <? sum));
  Ok (mkMoneyNanos (money_currency m) sum).

Definition MoneyNanos_Sub (m other : MoneyNanos) : res MoneyNanos :=
  _ ← sameCurrency m other;
  let diff := Nanos m -w Nanos other in
  refuse errMoneyOverflow
    if ((Nanos other <? 0) && (diff <? Nanos m)) || ((0 <? Nanos other) && (Nanos m <? diff));
  Ok (mkMoneyNanos (money_currency m) diff).

Definition AtLeast (m floor : MoneyNanos) : res bool :=
  _ ← sameCurrency m floor;
  Ok (Nanos floor <=? Nanos m).

Definition AtMost (m ceiling : MoneyNanos) : res bool :=
  _ ← sameCurrency m ceiling;
  Ok (Nanos m <=? Nanos ceiling).

(** ** Multiply, then divide *)

Definition errDividedByZero : error := Errorf "exact money arithmetic divided by zero".

(** [bits.Mul64] and, for [hi < y], [bits.Div64]. *)
Definition Mul64 (x y : Z) : Z * Z :=
  (x * y / 18446744073709551616, x * y mod 18446744073709551616).
Definition Div64 (hi lo y : Z) : Z * Z :=
  ((hi * 18446744073709551616 + lo) / y, (hi * 18446744073709551616 + lo) mod y).

(** The allocation-free path, taken when nothing is negative. *)
Definition mulDiv_fast (a b d : Z) (up : bool) : res Z :=
  let '(hi, lo) := Mul64 (wrapu64 a) (wrapu64 b) in
  let denominator := wrapu64 d in
  refuse errMoneyOverflow if denominator <=? hi;
  let '(quotient, remainder) := Div64 hi lo denominator in
  refuse errMoneyOverflow
    if (wrapu64 max_int64 <? quotient) ||
       (up && negb (remainder =? 0) && (quotient =? wrapu64 max_int64));
  let quotient := if up && negb (remainder =? 0) then wrapu64 (quotient + 1) else quotient in
  Ok (wrap64 quotient).

(** The [big.Int] path: [QuoRem] truncates toward zero. *)
Definition quo_round (product divisor : Z) (up : bool) : res Z :=
  let quotient := product /t divisor in
  let remainder := product %t divisor in
  let quotient :=
    if negb (Z.sgn remainder =? 0) && Bool.eqb up (Z.sgn product =? Z.sgn divisor)
    then quotient + 1 else quotient in
  refuse errMoneyOverflow if negb (is_int64 quotient);
  Ok quotient.

Definition mulDiv (a b d : Z) (up : bool) : res Z :=
  refuse errDividedByZero if d =? 0;
  if (0 <=? a) && (0 <=? b) && (0 <? d) then mulDiv_fast a b d up
  else quo_round (a * b) d up.

Definition mul3Div (a b c d : Z) (up : bool) : res Z :=
  refuse errDividedByZero if d =? 0;
  quo_round (a * b * c) d up.

(** ** Rates *)

Definition RequiredTaskNanosFromHourlyFloor (c : Currency) (floor predicted : Z) : res MoneyNanos :=
  refuse (Errorf "an hourly floor cannot be negative") if floor <? 0;
  refuse (Errorf "a predicted duration cannot be negative") if predicted <? 0;
  nanos ← mulDiv floor predicted nanosecondsPerHour true;
  NewMoneyNanos c nanos.

Definition RequiredTaskNanosFromThroughput (c : Currency) (floor units throughput : Z) : res MoneyNanos :=
  refuse (Errorf "cannot derive a task floor from a non-positive governed throughput")
    if throughput <=? 0;
  refuse (Errorf "work units cannot be negative") if units <? 0;
  durationNanos ← mulDiv units NanosPerMajorUnit throughput true;
  RequiredTaskNanosFromHourlyFloor c floor durationNanos.

Definition NanoWorkUnitsFromFloat (units : f64) : Z :=
  if is_nan units || is_inf units || f64_leb units (f64_of_Z 0) then 0
  else
    let scaled := f64_mul units (f64_of_Z NanosPerMajorUnit) in
    if f64_ltb (f64_of_Z max_int64) scaled then 0 else f64_to_int64 (f64_round scaled).

Definition nanosPer1KFromFloat (pricePer1K : f64) : Z :=
  if is_nan pricePer1K || is_inf pricePer1K || f64_leb pricePer1K (f64_of_Z 0) then 0
  else f64_to_int64 (f64_round (f64_mul pricePer1K (f64_of_Z NanosPerMajorUnit))).

Definition nanoRatePerMillionFromFloat (rate : f64) : res Z :=
  refuse (Errorf "a realtime token rate must be finite and non-negative")
    if is_nan rate || is_inf rate || f64_ltb rate (f64_of_Z 0);
  refuse errMoneyOverflow
    if f64_ltb (f64_of_Z max_int64) (f64_mul rate (f64_of_Z NanosPerMajorUnit));
  Ok (f64_to_int64 (f64_round (f64_mul rate (f64_of_Z NanosPerMajorUnit)))).

Definition realtimeTokenChargeNanos (c : Currency)
    (promptTokens completionTokens inputRate outputRate : Z) (roundSupplierUp : bool) : res MoneyNanos :=
  refuse (Errorf "realtime tokens and rates must be non-negative")
    if (promptTokens <? 0) || (completionTokens <? 0) || (inputRate <? 0) || (outputRate <? 0);
  input ← mulDiv inputRate promptTokens 1000000 roundSupplierUp;
  output ← mulDiv outputRate completionTokens 1000000 roundSupplierUp;
  inputMoney ← NewMoneyNanos c input;
  outputMoney ← NewMoneyNanos c output;
  MoneyNanos_Add inputMoney outputMoney.

Definition BuyerRealtimeTokenChargeNanos (c : Currency)
    (promptTokens completionTokens inputRate outputRate : Z) : res MoneyNanos :=
  realtimeTokenChargeNanos c promptTokens completionTokens inputRate outputRate false.

Definition SupplierRealtimeTokenEntitlementNanos (c : Currency)
    (promptTokens completionTokens inputRate outputRate : Z) : res MoneyNanos :=
  realtimeTokenChargeNanos c promptTokens completionTokens inputRate outputRate true.

Definition reusePriceDenominator : Z := 1000000 * NanosPerMajorUnit.

Definition RealtimeReuseBuyerChargeNanos (c : Currency) (deliveredTokens fullRate : Z) :
    res (MoneyNanos * bool) :=
  refuse (Errorf "realtime reuse requires positive delivered tokens and full rate")
    if (deliveredTokens <=? 0) || (fullRate <=? 0);
  nanos ← mul3Div fullRate deliveredTokens realtimeReuseRetainedShareNanos reusePriceDenominator false;
  let minimumApplied := nanos <? realtimeReuseMinimumChargeNanos in
  let nanos := if minimumApplied then realtimeReuseMinimumChargeNanos else nanos in
  money ← NewMoneyNanos c nanos;
  Ok (money, minimumApplied).

Definition LedgerMicrosFromNanos (amount : MoneyNanos) : res Z :=
  refuse (Errorf "ledger projection requires non-negative currency-bound nanos")
    if bool_decide (code (money_currency amount) = "") || (Nanos amount <? 0);
  let whole := Nanos amount /t NanosPerMicro in
  let remainder := Nanos amount %t NanosPerMicro in
  let whole := if NanosPerMicro <=? remainder *w 2 then whole +w 1 else whole in
  let whole := if (whole =? 0) && (0 <? Nanos amount) then 1 else whole in
  Ok whole.

Definition CatalogueGrossNanos (c : Currency) (price units : Z) : res MoneyNanos :=
  refuse (Errorf "a catalogue price cannot be negative") if price <? 0;
  refuse (Errorf "work units cannot be negative") if units <? 0;
  nanos ← mulDiv price units (1000 * NanosPerMajorUnit) false;
  NewMoneyNanos c nanos.

(** The share as a nano-fraction. *)
Definition share_nanos (share : f64) : Z :=
  f64_to_int64 (f64_round (f64_mul share (f64_of_Z NanosPerMajorUnit))).

Definition SupplierEntitlementNanos (gross : MoneyNanos) (share : f64) : res MoneyNanos :=
  refuse (Errorf "supplier share %v is not inside (0,1]")
    if is_nan share || is_inf share || f64_leb share (f64_of_Z 0) || f64_ltb (f64_of_Z 1) share;
  refuse (Errorf "a buyer gross cannot be negative") if Nanos gross <? 0;
  nanos ← mulDiv (Nanos gross) (share_nanos share) NanosPerMajorUnit true;
  let nanos := if Nanos gross <? nanos then Nanos gross else nanos in
  NewMoneyNanos (money_currency gross) nanos.

(** ** The accrual carry *)

Record RemainderCarry := mkRemainderCarry {
  carry_currency : Currency;
  RemainderNanos : Z;
  PostedMicros : Z;
  rrRoundingPolicy : string
}.

Definition NewRemainderCarry (c : Currency) (openingRemainderNanos : Z) : res RemainderCarry :=
  refuse (Errorf "a remainder carry must name its currency") if bool_decide (code c = "");
  refuse (Errorf "opening remainder %d is not inside [0,%d)")
    if (openingRemainderNanos <? 0) || (NanosPerMicro <=? openingRemainderNanos);
  Ok (mkRemainderCarry c openingRemainderNanos 0 economicRoundingPolicy).

(** The pointer receiver is the state: the result carries the new carry. *)
Definition Accrue (r : RemainderCarry) (amount : MoneyNanos) : res (Z * RemainderCarry) :=
  refuse (Wrapf errMoneyCurrencyMismatch "%w: accruing %s into a %s carry")
    if negb (bool_decide (code (money_currency amount) = code (carry_currency r)));
  refuse (Errorf "a remainder carry accrues entitlement, not reversals") if Nanos amount <? 0;
  let total := RemainderNanos r +w Nanos amount in
  refuse errMoneyOverflow if total <? RemainderNanos r;
  let postMicros := total /t NanosPerMicro in
  Ok (postMicros,
      mkRemainderCarry (carry_currency r) (total %t NanosPerMicro)
        (PostedMicros r +w postMicros) (rrRoundingPolicy r)).

Definition ExactAccrued (r : RemainderCarry) : Z :=
  (PostedMicros r *w NanosPerMicro) +w RemainderNanos r.

Definition RoundingPolicy (r : RemainderCarry) : string :=
  if bool_decide (rrRoundingPolicy r = "") then economicRoundingPolicy else rrRoundingPolicy r.

(** ** The interface of the primitive

    What the pricing components rely on: on non-negative operands and a positive
    divisor the primitive is the exact quotient, rounded in the named direction,
    and it refuses exactly when that quotient does not fit an [int64]. *)

Definition round_div (up : bool) (n d : Z) : Z := if up then (n + d - 1) / d else n / d.

#[global] Arguments round_div : simpl never.

Class ExactDivision (f : Z → Z → Z → bool → res Z) : Prop := exact_division a b d up :
  0 ≤ a → 0 ≤ b → 0 < d → int64 a → int64 b → int64 d →
  f a b d up =
    if round_div up (a * b) d <=? max_int64 then Ok (round_div up (a * b) d)
    else Err errMoneyOverflow.

Lemma round_div_down n d : 0 < d → round_div false n d * d ≤ n < (round_div false n d + 1) * d.
Proof. intros. unfold round_div. pose proof (Z.div_mod n d). pose proof (Z.mod_pos_bound n d). nia. Qed.

Lemma round_div_up n d : 0 < d → (round_div true n d - 1) * d < n ≤ round_div true n d * d.
Proof.
  intros. unfold round_div.
  pose proof (Z.div_mod (n + d - 1) d). pose proof (Z.mod_pos_bound (n + d - 1) d). nia.
Qed.

Lemma round_div_nonneg up n d : 0 ≤ n → 0 < d → 0 ≤ round_div up n d.
Proof. intros. destruct up; apply Z.div_pos; lia. Qed.

Lemma round_div_mono up n n' d : n ≤ n' → 0 < d → round_div up n d ≤ round_div up n' d.
Proof. intros. destruct up; apply Z.div_le_mono; lia. Qed.

(** Rounding up adds one to the quotient when something is left over. *)
Lemma round_div_up_step n d :
  0 < d → round_div true n d = n / d + (if n mod d =? 0 then 0 else 1).
Proof.
  intros. unfold round_div. pose proof (Z.mod_pos_bound n d ltac:(lia)) as M.
  pose proof (Z.div_mod n d ltac:(lia)) as E. symmetry. destruct (Z.eqb_spec (n mod d) 0).
  - apply (Z.div_unique _ _ _ (d - 1)); [left|]; lia.
  - apply (Z.div_unique _ _ _ (n mod d - 1)); [left|]; lia.
Qed.

Section Clients.
Context (f : Z → Z → Z → bool → res Z) `{!ExactDivision f}.
Context (a b d q : Z) (Ha : 0 ≤ a) (Hb : 0 ≤ b) (Hd : 0 < d).
Context (Ia : int64 a) (Ib : int64 b) (Id : int64 d).

Lemma exact_division_Ok up :
  f a b d up = Ok q → q = round_div up (a * b) d ∧ 0 ≤ q ≤ max_int64.
Proof.
  rewrite exact_division by done. pose proof (round_div_nonneg up (a * b) d).
  destruct (Z.leb_spec (round_div up (a * b) d) max_int64); intros; simplify_eq. lia.
Qed.

Lemma exact_division_succeeds up :
  round_div up (a * b) d ≤ max_int64 → f a b d up = Ok (round_div up (a * b) d).
Proof. intros. rewrite exact_division by done. by rewrite (proj2 (Z.leb_le _ _)). Qed.
End Clients.

(** A share [s] of at most one of an amount always divides. *)
Lemma exact_division_share f `{!ExactDivision f} up t s :
  int64 t → 0 ≤ t → 0 ≤ s ≤ NanosPerMajorUnit →
  f t s NanosPerMajorUnit up = Ok (round_div up (t * s) NanosPerMajorUnit) ∧
  0 ≤ round_div up (t * s) NanosPerMajorUnit ≤ t.
Proof.
  intros It Ht Hs. assert (0 ≤ round_div up (t * s) NanosPerMajorUnit ≤ t) as B.
  { split; [apply round_div_nonneg; unfold NanosPerMajorUnit; nia|].
    unfold NanosPerMajorUnit in *.
    destruct up; [pose proof (round_div_up (t * s) 1000000000)|pose proof (round_div_down (t * s) 1000000000)]; nia. }
  split; [|done]. unfold NanosPerMajorUnit in *. apply exact_division_succeeds; try done; go_lia.
Qed.

(** ** The two paths of [mulDiv] *)

Lemma mul_div64 x y d :
  0 < d → Div64 (Mul64 x y).1 (Mul64 x y).2 d = (x * y / d, x * y mod d).
Proof.
  intros. unfold Div64, Mul64; simpl.
  replace (x * y / 18446744073709551616 * 18446744073709551616 + x * y mod 18446744073709551616) with (x * y);
    [done|]. pose proof (Z.div_mod (x * y) 18446744073709551616). lia.
Qed.

Lemma wrapu64_nonneg z : 0 ≤ z → int64 z → wrapu64 z = z.
Proof. intros. unfold wrapu64. apply Z.mod_small. go_lia. Qed.

Lemma mulDiv_fast_spec a b d up :
  0 ≤ a → 0 ≤ b → 0 < d → int64 a → int64 b → int64 d →
  mulDiv_fast a b d up =
    if round_div up (a * b) d <=? max_int64 then Ok (round_div up (a * b) d)
    else Err errMoneyOverflow.
Proof.
  intros. unfold mulDiv_fast. rewrite !wrapu64_nonneg by (done || go_lia).
  destruct (Mul64 a b) as [hi lo] eqn:M. pose proof (mul_div64 a b d ltac:(lia)) as D.
  rewrite M in D; simpl in D. rewrite D.
  assert (hi = a * b / 18446744073709551616) as -> by (unfold Mul64 in M; congruence). clear M D lo.
  assert (0 ≤ a * b) by nia. pose proof (Z.div_pos (a * b) d).
  pose proof (Z.div_mod (a * b) d ltac:(lia)). pose proof (Z.mod_pos_bound (a * b) d ltac:(lia)).
  assert (round_div up (a * b) d = a * b / d + (if up && negb (a * b mod d =? 0) then 1 else 0)) as ->.
  { destruct up; [|unfold round_div; simpl; lia]. rewrite round_div_up_step by done.
    by destruct (_ =? _). }
  destruct (Z.leb_spec d (a * b / 18446744073709551616)) as [L|L].
  { assert (18446744073709551616 ≤ a * b / d).
    { apply Z.div_le_lower_bound; [lia|]. pose proof (Z.mul_div_le (a * b) 18446744073709551616). nia. }
    rewrite (proj2 (Z.leb_gt _ _)); [done|]. unfold max_int64. destruct (_ && _); lia. }
  destruct (up && negb (a * b mod d =? 0)) eqn:U.
  - unfold wrapu64, max_int64 in *.
    destruct (Z.ltb_spec 9223372036854775807 (a * b / d)), (Z.eqb_spec (a * b / d) 9223372036854775807),
      (Z.leb_spec (a * b / d + 1) 9223372036854775807); simpl; try done; try lia.
    f_equal. rewrite Z.mod_small by lia. apply wrap64_id. go_lia.
  - simpl. rewrite Z.add_0_r, orb_false_r. unfold max_int64 in *.
    destruct (Z.ltb_spec 9223372036854775807 (a * b / d)), (Z.leb_spec (a * b / d) 9223372036854775807);
      try done; try lia. f_equal. apply wrap64_id. go_lia.
Qed.

(** Truncated division against floored division, by sign. *)
Lemma quot_rem_floor n d :
  d ≠ 0 →
  (Z.sgn (n %t d) =? 0) = (n mod d =? 0) ∧
  (n /t d) = n / d + (if negb (n mod d =? 0) && negb (Z.sgn n =? Z.sgn d) then 1 else 0).
Proof.
  intros Hd. pose proof (Z.quot_rem n d Hd) as Q. pose proof (Z.div_mod n d Hd) as D.
  assert (0 < d ∧ 0 ≤ n mod d < d ∨ d < 0 ∧ d < n mod d ≤ 0) as M.
  { destruct (Z.lt_trichotomy d 0) as [?|[?|?]]; [right|lia|left];
      [pose proof (Z.mod_neg_bound n d)|pose proof (Z.mod_pos_bound n d)]; lia. }
  pose proof (Z.rem_bound_abs n d Hd) as R. pose proof (Z.rem_sign_mul n d Hd) as S.
  assert (n = 0 ∨ 0 < n ∨ n < 0) as [->|C] by lia.
  { rewrite Z.quot_0_l, Z.rem_0_l, Z.div_0_l, Z.mod_0_l by done. done. }
  assert (n /t d = n / d + (if negb (n mod d =? 0) && negb (Z.sgn n =? Z.sgn d) then 1 else 0)) as E.
  { destruct (Z.eqb_spec (n mod d) 0) as [Z0|N0]; cbn [negb andb].
    - rewrite Z.add_0_r. symmetry. rewrite Z0, Z.add_0_r in D. rewrite D at 2.
      rewrite Z.mul_comm, Z.quot_mul; done.
    - destruct (Z.eqb_spec (Z.sgn n) (Z.sgn d)) as [S1|S1]; cbn [negb]; nia. }
  split; [|done]. rewrite E in Q.
  destruct (Z.eqb_spec (n mod d) 0) as [Z0|N0]; cbn [negb andb] in Q;
    destruct (Z.eqb_spec (Z.sgn (n %t d)) 0) as [Z1|N1]; try done; exfalso.
  - apply N1, Z.sgn_null_iff. nia.
  - apply Z.sgn_null_iff in Z1. apply N0. destruct (Z.sgn n =? Z.sgn d); simpl in Q; nia.
Qed.

(** Every outcome of the arbitrary-precision path: [n / d] is the floor. *)
Lemma quo_round_spec n d (up : bool) :
  d ≠ 0 →
  let q := n / d + (if n mod d =? 0 then 0
                    else if up then 1 else if Z.sgn n =? Z.sgn d then 0 else 2) in
  quo_round n d up = if is_int64 q then Ok q else Err errMoneyOverflow.
Proof.
  intros Hd q. unfold quo_round. destruct (quot_rem_floor n d Hd) as [-> ->].
  assert ((if negb (n mod d =? 0) && Bool.eqb up (Z.sgn n =? Z.sgn d)
    then n / d + (if negb (n mod d =? 0) && negb (Z.sgn n =? Z.sgn d) then 1 else 0) + 1
    else n / d + (if negb (n mod d =? 0) && negb (Z.sgn n =? Z.sgn d) then 1 else 0)) = q) as ->.
  { unfold q. destruct (n mod d =? 0), up, (Z.sgn n =? Z.sgn d); simpl; lia. }
  by destruct (is_int64 q).
Qed.

Lemma quo_round_nonneg n d up :
  0 ≤ n → 0 < d →
  quo_round n d up =
    if round_div up n d <=? max_int64 then Ok (round_div up n d) else Err errMoneyOverflow.
Proof.
  intros Hn Hd. rewrite quo_round_spec by lia.
  assert (n / d + (if n mod d =? 0 then 0 else if up then 1 else if Z.sgn n =? Z.sgn d then 0 else 2)
          = round_div up n d) as ->.
  { destruct up; [rewrite round_div_up_step by done; by destruct (_ =? _)|].
    unfold round_div. destruct (Z.eqb_spec (n mod d) 0); [lia|].
    assert (0 < n) by (destruct (Z.eq_dec n 0) as [->|]; [rewrite Z.mod_0_l in *; lia|lia]).
    rewrite !Z.sgn_pos by done. simpl. lia. }
  pose proof (round_div_nonneg up n d Hn Hd). unfold is_int64.
  rewrite (proj2 (Z.leb_le _ _)) by go_lia. done.
Qed.

Lemma mulDiv_cases a b d up :
  d ≠ 0 →
  mulDiv a b d up =
    if (0 <=? a) && (0 <=? b) && (0 <? d) then mulDiv_fast a b d up else quo_round (a * b) d up.
Proof. intros. unfold mulDiv. by rewrite (proj2 (Z.eqb_neq _ _)). Qed.

Lemma mulDiv_int64 a b d up q : mulDiv a b d up = Ok q → int64 q.
Proof.
  unfold mulDiv, mulDiv_fast, quo_round. intros H. apply refuse_Ok in H as [_ H].
  destruct ((0 <=? a) && (0 <=? b) && (0 <? d)).
  - destruct (Mul64 (wrapu64 a) (wrapu64 b)). apply refuse_Ok in H as [_ H].
    destruct (Div64 _ _ _). apply refuse_Ok in H as [_ H]. simplify_eq. apply wrap64_int64.
  - apply refuse_Ok in H as [H ?]. simplify_eq. by reflect_bools.
Qed.

#[export] Instance mulDiv_exact : ExactDivision mulDiv.
Proof.
  intros a b d up ??????. rewrite mulDiv_cases by lia.
  rewrite !(proj2 (Z.leb_le _ _)), (proj2 (Z.ltb_lt _ _)) by done. by apply mulDiv_fast_spec.
Qed.

(** Reads a successful [mulDiv] on non-negative operands through the interface. *)
Ltac div_side :=
  first [ exact mulDiv_exact | assumption
        | unfold nanosecondsPerHour, NanosPerMajorUnit, NanosPerMicro in *; go_lia ].
Ltac div_ok Q :=
  match goal with H : mulDiv _ _ _ _ = Ok _ |- _ =>
    apply exact_division_Ok in H as [Q ?]; [|solve [div_side]..]
  end.

(** The 128-bit shortcut never changes a result: on every operand it is taken for,
    it agrees with the arbitrary-precision path, refusals included. *)
Theorem mulDiv_fast_equiv a b d up :
  0 ≤ a → 0 ≤ b → 0 < d → int64 a → int64 b → int64 d →
  mulDiv_fast a b d up = quo_round (a * b) d up.
Proof. intros. rewrite mulDiv_fast_spec, quo_round_nonneg by (done || nia). done. Qed.

Lemma mulDiv_fast_equiv_witness :
  mulDiv_fast 9223372036854775807 9223372036854775807 9223372036854775807 true =
    quo_round (9223372036854775807 * 9223372036854775807) 9223372036854775807 true.
Proof. apply mulDiv_fast_equiv; width; lia. Defined.

(** C32: on non-negative operands [mulDiv] is the exact quotient rounded in the named
    direction, and it refuses exactly the quotients an [int64] cannot hold: when it
    refuses, the quotient rounded that way exceeds the largest [int64] (its ceiling when
    rounding up, its floor when rounding down), and when it answers, the answer fits. *)
Theorem mulDiv_exact_nonneg a b d up :
  0 ≤ a → 0 ≤ b → 0 < d → int64 a → int64 b → int64 d →
  match mulDiv a b d up with
  | Ok q => 0 ≤ q ≤ max_int64 ∧
            if up then (q - 1) * d < a * b ≤ q * d else q * d ≤ a * b < (q + 1) * d
  | Err e => e = errMoneyOverflow ∧
             if up then max_int64 * d < a * b else (max_int64 + 1) * d ≤ a * b
  end.
Proof.
  intros. rewrite exact_division by done.
  pose proof (round_div_up (a * b) d ltac:(lia)). pose proof (round_div_down (a * b) d ltac:(lia)).
  destruct (Z.leb_spec (round_div up (a * b) d) max_int64); destruct up; (split; [try split|]); try done; nia.
Qed.

(** A quotient whose floor is the largest [int64] is answered when rounding down and
    refused when rounding up. *)
Lemma mulDiv_exact_nonneg_witness :
  mulDiv 3 6148914691236517205 2 false = Ok max_int64 ∧
  match mulDiv 3 6148914691236517205 2 true with
  | Ok q => 0 ≤ q ≤ max_int64 ∧ (q - 1) * 2 < 3 * 6148914691236517205 ≤ q * 2
  | Err e => e = errMoneyOverflow ∧ max_int64 * 2 < 3 * 6148914691236517205
  end.
Proof.
  split; [vm_compute; reflexivity|]. apply (mulDiv_exact_nonneg 3 6148914691236517205 2 true); width; lia.
Defined.

(** Rounding down goes wrong when the exact quotient is negative and not an integer:
    the code adds one to the truncated quotient instead of subtracting one, and
    returns the floor plus two, which is above the exact value (and above what
    rounding up returns). *)
Theorem mulDiv_down_negative a b d :
  a * b < 0 → 0 < d → (a * b) mod d ≠ 0 → int64 (a * b / d) →
  mulDiv a b d false = Ok (a * b / d + 2) ∧ a * b < (a * b / d + 2) * d ∧
  mulDiv a b d true = Ok (a * b / d + 1).
Proof.
  intros N Hd M F. rewrite !mulDiv_cases by lia.
  assert ((0 <=? a) && (0 <=? b) && (0 <? d) = false) as ->.
  { rewrite !andb_false_iff, !Z.leb_gt. nia. }
  rewrite !quo_round_spec by lia. rewrite (proj2 (Z.eqb_neq _ _)) by done.
  rewrite Z.sgn_neg, Z.sgn_pos by done. cbn -[Z.div Z.mul].
  pose proof (Z.div_mod (a * b) d ltac:(lia)). pose proof (Z.mod_pos_bound (a * b) d ltac:(lia)).
  assert (a * b / d < 0) by nia.
  rewrite !(proj2 (is_int64_spec _)) by (unfold int64, min_int64, max_int64 in *; lia).
  split_and!; [done|nia|done].
Qed.

Lemma mulDiv_down_negative_witness :
  mulDiv (-7) 1 2 false = Ok (-2) ∧ -7 < -2 * 2 ∧ mulDiv (-7) 1 2 true = Ok (-3).
Proof. apply (mulDiv_down_negative (-7) 1 2); [lia|lia|discriminate|split; vm_compute; discriminate]. Defined.

(** ** Amounts: addition and subtraction are exact or refused *)

Lemma NewMoneyNanos_Ok c n m : NewMoneyNanos c n = Ok m ↔ code c ≠ "" ∧ m = mkMoneyNanos c n.
Proof. unfold NewMoneyNanos. case_bool_decide; naive_solver. Qed.

Lemma MoneyNanos_Add_Ok m o r :
  int64 (Nanos m) → int64 (Nanos o) →
  MoneyNanos_Add m o = Ok r ↔
  code (money_currency m) = code (money_currency o) ∧ int64 (Nanos m + Nanos o) ∧
  r = mkMoneyNanos (money_currency m) (Nanos m + Nanos o).
Proof.
  intros Hm Ho. unfold MoneyNanos_Add, sameCurrency. pose proof (wrap64_add_check _ _ Hm Ho) as W.
  case_bool_decide; simpl; [|naive_solver].
  match goal with |- context [if ?b then _ else _] => destruct b eqn:G end.
  - rewrite orb_true_iff, !andb_true_iff, !Z.ltb_lt in G. naive_solver.
  - rewrite orb_false_iff, !andb_false_iff, !Z.ltb_ge in G.
    assert (int64 (Nanos m + Nanos o)) as F by (destruct (decide (int64 (Nanos m + Nanos o))); [done|]; go_lia).
    rewrite wrap64_id by done. naive_solver.
Qed.

(** Checked addition and subtraction of exact amounts never create or lose value: a
    successful result is the mathematical sum (difference), and a refusal means
    different currencies or a sum (difference) outside [int64]. *)
Theorem MoneyNanos_arithmetic_exact m o :
  int64 (Nanos m) → int64 (Nanos o) →
  MoneyNanos_Add m o =
    (if bool_decide (code (money_currency m) = code (money_currency o)) then
       if is_int64 (Nanos m + Nanos o) then Ok (mkMoneyNanos (money_currency m) (Nanos m + Nanos o))
       else Err errMoneyOverflow
     else Err (Wrapf errMoneyCurrencyMismatch "%w: %s and %s")) ∧
  MoneyNanos_Sub m o =
    (if bool_decide (code (money_currency m) = code (money_currency o)) then
       if is_int64 (Nanos m - Nanos o) then Ok (mkMoneyNanos (money_currency m) (Nanos m - Nanos o))
       else Err errMoneyOverflow
     else Err (Wrapf errMoneyCurrencyMismatch "%w: %s and %s")).
Proof.
  intros Hm Ho. unfold MoneyNanos_Add, MoneyNanos_Sub, sameCurrency.
  pose proof (wrap64_add_check _ _ Hm Ho). pose proof (wrap64_sub_check _ _ Hm Ho).
  case_bool_decide; simpl; [|done].
  split; match goal with |- (if ?b then _ else _) = _ => destruct b eqn:G end;
    rewrite ?orb_true_iff, ?orb_false_iff, ?andb_true_iff, ?andb_false_iff, ?Z.ltb_lt, ?Z.ltb_ge in G;
    match goal with |- context [is_int64 ?z] => destruct (is_int64 z) eqn:B end; reflect_bools;
    first [reflexivity|exfalso; tauto|by rewrite wrap64_id|exfalso; go_lia].
Qed.

Lemma MoneyNanos_arithmetic_exact_witness :
  let m := mkMoneyNanos (mkCurrency "usd" 2) max_int64 in
  let o := mkMoneyNanos (mkCurrency "usd" 2) 1 in
  MoneyNanos_Add m o = Err errMoneyOverflow ∧
  MoneyNanos_Sub m o = Ok (mkMoneyNanos (mkCurrency "usd" 2) (max_int64 - 1)).
Proof.
  apply (MoneyNanos_arithmetic_exact (mkMoneyNanos (mkCurrency "usd" 2) max_int64)
           (mkMoneyNanos (mkCurrency "usd" 2) 1)); simpl; width; lia.
Defined.

(** ** Rates *)

Lemma hourly_floor_Ok c floor predicted m :
  int64 floor → int64 predicted →
  RequiredTaskNanosFromHourlyFloor c floor predicted = Ok m →
  code c ≠ "" ∧ 0 ≤ floor ∧ 0 ≤ predicted ∧
  m = mkMoneyNanos c (round_div true (floor * predicted) nanosecondsPerHour) ∧
  0 ≤ Nanos m ≤ max_int64.
Proof.
  unfold RequiredTaskNanosFromHourlyFloor. intros ?? H. inv_ok.
  div_ok Q. subst.
  match goal with H : NewMoneyNanos _ _ = Ok _ |- _ => apply NewMoneyNanos_Ok in H as [? ->] end.
  done.
Qed.

(** A supplier's hourly floor survives its conversion: the per-task amount derived
    from a governed throughput covers the exact entitlement
    [floor * units / throughput], and exceeds it by less than one nano plus one
    nanosecond's worth of the floor. *)
Theorem throughput_floor_covers c floor units throughput m :
  int64 floor → int64 units → int64 throughput →
  RequiredTaskNanosFromThroughput c floor units throughput = Ok m →
  floor * (units * NanosPerMajorUnit) ≤ Nanos m * nanosecondsPerHour * throughput ∧
  (Nanos m - 1) * nanosecondsPerHour * throughput <
    floor * (units * NanosPerMajorUnit) + floor * throughput + 1.
Proof.
  intros If Iu It. unfold RequiredTaskNanosFromThroughput. intros H. inv_ok.
  div_ok Q.
  match goal with H : RequiredTaskNanosFromHourlyFloor _ _ _ = Ok _ |- _ =>
    apply hourly_floor_Ok in H as (? & ? & ? & -> & ?); [|done|go_lia] end. simpl in *.
  pose proof (round_div_up (units * NanosPerMajorUnit) throughput ltac:(lia)) as D.
  pose proof (round_div_up (floor * x) nanosecondsPerHour ltac:(done)) as P.
  rewrite <-Q in D. unfold nanosecondsPerHour, NanosPerMajorUnit in *.
  set (r := round_div true (floor * x) (3600 * 1000000000)) in *. split; [nia|].
  assert ((r - 1) * (3600 * 1000000000) * throughput + throughput ≤ floor * x * throughput) by nia.
  assert (x * throughput ≤ units * 1000000000 + throughput - 1) by nia. nia.
Qed.

Lemma throughput_floor_covers_witness :
  ∃ m, RequiredTaskNanosFromThroughput (mkCurrency "usd" 2) 104733000 58250000000 2000000000000 = Ok m ∧
  104733000 * (58250000000 * NanosPerMajorUnit) ≤ Nanos m * nanosecondsPerHour * 2000000000000.
Proof.
  eexists; split; [reflexivity|].
  eapply (throughput_floor_covers (mkCurrency "usd" 2)); [..|reflexivity]; width; lia.
Defined.

(** ** Realtime tokens *)

Lemma realtime_charge_Ok c p t i o up m :
  int64 p → int64 t → int64 i → int64 o →
  realtimeTokenChargeNanos c p t i o up = Ok m →
  (0 ≤ p ∧ 0 ≤ t ∧ 0 ≤ i ∧ 0 ≤ o) ∧ money_currency m = c ∧
  Nanos m = round_div up (i * p) 1000000 + round_div up (o * t) 1000000.
Proof.
  intros ???? H. unfold realtimeTokenChargeNanos in H. inv_ok.
  div_ok Q1. div_ok Q2.
  repeat match goal with H : NewMoneyNanos _ _ = Ok _ |- _ => apply NewMoneyNanos_Ok in H as [? ->] end.
  match goal with H : MoneyNanos_Add _ _ = Ok _ |- _ =>
    apply MoneyNanos_Add_Ok in H as (_ & _ & ->); [|simpl; go_lia..] end.
  simpl. subst. split_and!; done || lia.
Qed.

(** The buyer is never charged more than the exact token price and the supplier is
    never paid less, from the same tokens and rates; the two roundings are
    together at most two nanos apart. *)
Theorem realtime_buyer_supplier c p t i o buyer supplier :
  int64 p → int64 t → int64 i → int64 o →
  BuyerRealtimeTokenChargeNanos c p t i o = Ok buyer →
  SupplierRealtimeTokenEntitlementNanos c p t i o = Ok supplier →
  Nanos buyer * 1000000 ≤ i * p + o * t ≤ Nanos supplier * 1000000 ∧
  0 ≤ Nanos supplier - Nanos buyer ≤ 2 ∧ money_currency buyer = money_currency supplier.
Proof.
  intros ???? B S.
  apply realtime_charge_Ok in B as (? & -> & ->); [|done..].
  apply realtime_charge_Ok in S as (_ & -> & ->); [|done..].
  pose proof (round_div_down (i * p) 1000000 ltac:(lia)). pose proof (round_div_up (i * p) 1000000 ltac:(lia)).
  pose proof (round_div_down (o * t) 1000000 ltac:(lia)). pose proof (round_div_up (o * t) 1000000 ltac:(lia)).
  split_and!; try done; lia.
Qed.

Lemma realtime_buyer_supplier_witness :
  ∃ b s, BuyerRealtimeTokenChargeNanos (mkCurrency "usd" 2) 37 119 150000001 600000007 = Ok b ∧
  SupplierRealtimeTokenEntitlementNanos (mkCurrency "usd" 2) 37 119 150000001 600000007 = Ok s ∧
  0 ≤ Nanos s - Nanos b ≤ 2.
Proof.
  eexists _, _; split_and!; [reflexivity|reflexivity|..];
  eapply (realtime_buyer_supplier (mkCurrency "usd" 2) 37 119 150000001 600000007);
    first [reflexivity|width; lia].
Defined.

(** A reused completion is charged the retained share (40%) of the full token price, rounded down,
    with the published minimum as the floor; the flag says whether the minimum
    decided the amount. *)
Theorem reuse_charge_discounted c tokens rate m applied :
  int64 tokens → int64 rate →
  RealtimeReuseBuyerChargeNanos c tokens rate = Ok (m, applied) →
  realtimeReuseMinimumChargeNanos ≤ Nanos m ∧
  (applied = false → Nanos m * reusePriceDenominator ≤ rate * tokens * realtimeReuseRetainedShareNanos
                     < (Nanos m + 1) * reusePriceDenominator) ∧
  (applied = true → Nanos m = realtimeReuseMinimumChargeNanos ∧
     rate * tokens * realtimeReuseRetainedShareNanos <
       realtimeReuseMinimumChargeNanos * reusePriceDenominator).
Proof.
  intros ?? H. unfold RealtimeReuseBuyerChargeNanos, mul3Div in H. inv_ok.
  match goal with H : quo_round _ _ _ = Ok _ |- _ =>
    rewrite quo_round_nonneg in H by (done || (unfold realtimeReuseRetainedShareNanos; nia)) end.
  pose proof (round_div_down (rate * tokens * realtimeReuseRetainedShareNanos) reusePriceDenominator eq_refl) as D.
  destruct (round_div false _ _ <=? max_int64); simplify_eq.
  match goal with H : NewMoneyNanos _ _ = Ok _ |- _ => apply NewMoneyNanos_Ok in H as [? ->] end. simpl.
  set (q := round_div _ _ _) in *.
  destruct (Z.ltb_spec q realtimeReuseMinimumChargeNanos); (split_and!; [lia|intros..]); try done.
  split; [done|]. unfold reusePriceDenominator, NanosPerMajorUnit in *. lia.
Qed.

Lemma reuse_charge_discounted_witness :
  ∃ m, RealtimeReuseBuyerChargeNanos (mkCurrency "usd" 2) 119 600000007 = Ok (m, false) ∧
  realtimeReuseMinimumChargeNanos ≤ Nanos m.
Proof.
  eexists; split; [reflexivity|].
  eapply (reuse_charge_discounted (mkCurrency "usd" 2) 119 600000007); [width; lia..|reflexivity].
Defined.

(** ** Projection onto the micro ledger *)

(** The projected amount, in closed form. *)
Definition ledger_micros (n : Z) : Z :=
  if ((n + 500) / 1000 =? 0) && (0 <? n) then 1 else (n + 500) / 1000.

Lemma LedgerMicros_value c n :
  code c ≠ "" → 0 ≤ n → int64 n → LedgerMicrosFromNanos (mkMoneyNanos c n) = Ok (ledger_micros n).
Proof.
  intros Hc Hn Hi. unfold LedgerMicrosFromNanos, NanosPerMicro, ledger_micros. cbn [money_currency Nanos].
  rewrite bool_decide_false by done. rewrite (proj2 (Z.ltb_ge _ _)) by done. cbn [orb].
  rewrite Z.quot_div_nonneg, Z.rem_mod_nonneg by lia.
  pose proof (Z.div_mod n 1000). pose proof (Z.mod_pos_bound n 1000).
  rewrite (wrap64_id (_ * 2)) by go_lia. rewrite (wrap64_id (_ + 1)) by go_lia.
  assert ((if 1000 <=? n mod 1000 * 2 then n / 1000 + 1 else n / 1000) = (n + 500) / 1000) as ->; [|done].
  destruct (Z.leb_spec 1000 (n mod 1000 * 2)).
  - apply (Z.div_unique _ _ _ (n mod 1000 - 500)); lia.
  - apply (Z.div_unique _ _ _ (n mod 1000 + 500)); lia.
Qed.

(** Projecting an exact amount onto the six-decimal ledger is rounding half up,
    except that a positive amount never disappears: below half a micro it books
    one. *)
Theorem LedgerMicrosFromNanos_rounds m :
  code (money_currency m) ≠ "" → 0 ≤ Nanos m → int64 (Nanos m) →
  ∃ r, LedgerMicrosFromNanos m = Ok r ∧
  (Nanos m = 0 → r = 0) ∧
  (0 < Nanos m < 500 → r = 1) ∧
  (500 ≤ Nanos m → r * 1000 - 500 ≤ Nanos m < r * 1000 + 500).
Proof.
  intros Hc Hn Hi. destruct m as [c n]. cbn [money_currency Nanos] in *.
  eexists; split; [by apply LedgerMicros_value|]. unfold ledger_micros.
  pose proof (Z.div_mod (n + 500) 1000). pose proof (Z.mod_pos_bound (n + 500) 1000).
  case_match; reflect_bools; [lia|]. match goal with H : _ && _ = false |- _ => apply andb_false_iff in H end.
  rewrite Z.eqb_neq, Z.ltb_ge in *. split_and!; lia.
Qed.

Lemma LedgerMicrosFromNanos_rounds_witness :
  ∃ r, LedgerMicrosFromNanos (mkMoneyNanos (mkCurrency "usd" 2) 1499) = Ok r ∧
  (1499 = 0 → r = 0) ∧ (0 < 1499 < 500 → r = 1) ∧ (500 ≤ 1499 → r * 1000 - 500 ≤ 1499 < r * 1000 + 500).
Proof.
  apply (LedgerMicrosFromNanos_rounds (mkMoneyNanos (mkCurrency "usd" 2) 1499)); simpl;
    [discriminate|lia|width; lia].
Defined.

(** ** Gross and share *)

(** The supplier entitlement covers the supplier's exact share of the buyer's gross
    and never exceeds the gross, so the platform's remainder is never negative;
    it refuses nothing once the share is inside (0,1]. *)
Theorem SupplierEntitlement_covers gross share :
  code (money_currency gross) ≠ "" → 0 ≤ Nanos gross → int64 (Nanos gross) →
  is_nan share = false → is_inf share = false →
  f64_leb share (f64_of_Z 0) = false → f64_ltb (f64_of_Z 1) share = false →
  0 ≤ share_nanos share ≤ NanosPerMajorUnit →
  ∃ e, SupplierEntitlementNanos gross share = Ok e ∧ money_currency e = money_currency gross ∧
    Nanos gross * share_nanos share ≤ Nanos e * NanosPerMajorUnit <
      Nanos gross * share_nanos share + NanosPerMajorUnit ∧
    0 ≤ Nanos e ≤ Nanos gross.
Proof.
  intros Hc Hn Hi N I P L S. unfold SupplierEntitlementNanos. rewrite N, I, P, L. cbn [orb].
  rewrite (proj2 (Z.ltb_ge _ _)) by done. cbn [mbind].
  destruct (exact_division_share mulDiv true (Nanos gross) (share_nanos share)) as [-> B]; [done..|].
  simpl. pose proof (round_div_up (Nanos gross * share_nanos share) NanosPerMajorUnit eq_refl).
  rewrite (proj2 (Z.ltb_ge _ _)) by lia. unfold NewMoneyNanos. rewrite bool_decide_false by done.
  eexists; split_and!; [done|..]; simpl; lia || done.
Qed.

Lemma SupplierEntitlement_covers_witness :
  let gross := mkMoneyNanos (mkCurrency "usd" 2) 1000001 in
  ∃ e, SupplierEntitlementNanos gross (f64_lit 85 100) = Ok e ∧ money_currency e = money_currency gross ∧
    Nanos gross * share_nanos (f64_lit 85 100) ≤ Nanos e * NanosPerMajorUnit <
      Nanos gross * share_nanos (f64_lit 85 100) + NanosPerMajorUnit ∧
    0 ≤ Nanos e ≤ Nanos gross.
Proof.
  apply (SupplierEntitlement_covers (mkMoneyNanos (mkCurrency "usd" 2) 1000001));
    first [reflexivity | discriminate | by vm_compute | width; simpl; lia | split; vm_compute; discriminate].
Defined.

(** ** The accrual carry

    Abstractly a carry is one counter of nanos; the code keeps it as posted micros
    and a remainder below one micro. *)

Definition carry_total (r : RemainderCarry) : Z := PostedMicros r * NanosPerMicro + RemainderNanos r.

Definition carry_ok (r : RemainderCarry) : Prop :=
  0 ≤ RemainderNanos r < NanosPerMicro ∧ 0 ≤ PostedMicros r.

Fixpoint accrue_all (r : RemainderCarry) (amounts : list MoneyNanos) : res (Z * RemainderCarry) :=
  match amounts with
  | [] => Ok (0, r)
  | a :: rest =>
      '(posted, r') ← Accrue r a;
      '(more, r'') ← accrue_all r' rest;
      Ok (posted + more, r'')
  end.

Definition total_nanos (amounts : list MoneyNanos) : Z := foldr (λ a t, Nanos a + t) 0 amounts.

Lemma Accrue_step r a :
  carry_ok r → code (money_currency a) = code (carry_currency r) → 0 ≤ Nanos a →
  carry_total r + Nanos a ≤ max_int64 →
  ∃ posted r', Accrue r a = Ok (posted, r') ∧ carry_ok r' ∧ carry_currency r' = carry_currency r ∧
    carry_total r' = carry_total r + Nanos a ∧ PostedMicros r' = PostedMicros r + posted.
Proof.
  unfold carry_ok, carry_total, NanosPerMicro. intros [Hr Hp] Hc Hn Hb. unfold Accrue, NanosPerMicro.
  rewrite bool_decide_true by done. rewrite (proj2 (Z.ltb_ge _ _)) by done. simpl.
  rewrite (wrap64_id (RemainderNanos r + Nanos a)) by go_lia.
  rewrite (proj2 (Z.ltb_ge _ _)) by lia.
  rewrite Z.quot_div_nonneg, Z.rem_mod_nonneg by lia.
  pose proof (Z.div_mod (RemainderNanos r + Nanos a) 1000).
  pose proof (Z.mod_pos_bound (RemainderNanos r + Nanos a) 1000).
  eexists _, _; split; [done|]. simpl. rewrite wrap64_id by go_lia. split_and!; done || lia.
Qed.

Lemma accrue_all_conserves amounts : ∀ r,
  carry_ok r →
  Forall (λ a, code (money_currency a) = code (carry_currency r) ∧ 0 ≤ Nanos a) amounts →
  carry_total r + total_nanos amounts ≤ max_int64 →
  ∃ posted r', accrue_all r amounts = Ok (posted, r') ∧ carry_ok r' ∧
    carry_total r' = carry_total r + total_nanos amounts ∧
    PostedMicros r' = PostedMicros r + posted.
Proof.
  induction amounts as [|a amounts IH]; intros r Hr Hall Hb; simpl in *.
  { eexists _, _; split; [done|]. split_and!; done || lia. }
  apply Forall_cons in Hall as [[Hc Hn] Hall].
  assert (0 ≤ total_nanos amounts).
  { clear -Hall. induction Hall as [|? ? [? ?] _ ?]; simpl; lia. }
  destruct (Accrue_step r a) as (p & r1 & E & Hr1 & Hcur & T & P); [done..|lia|]. rewrite E; simpl.
  destruct (IH r1) as (q & r2 & E2 & ? & ? & ?); [done| |lia|].
  { by rewrite Hcur. }
  rewrite E2; simpl. eexists _, _; split; [done|]. split_and!; done || lia.
Qed.

(** Quotient and remainder of the total are determined by it. *)
Lemma carry_determined r :
  carry_ok r → PostedMicros r = carry_total r / NanosPerMicro ∧ RemainderNanos r = carry_total r mod NanosPerMicro.
Proof.
  unfold carry_ok, carry_total, NanosPerMicro. intros [? ?]. split.
  - apply (Z.div_unique _ _ _ (RemainderNanos r)); lia.
  - apply (Z.mod_unique _ _ (PostedMicros r)); lia.
Qed.

(** C22: accruing any sequence of entitlements loses nothing and posts nothing twice: the
    micros posted are the exact total divided by a thousand and the remainder is
    what is left, so how the total is split into accruals does not matter. *)
Theorem carry_conserves r amounts :
  carry_ok r →
  Forall (λ a, code (money_currency a) = code (carry_currency r) ∧ 0 ≤ Nanos a) amounts →
  carry_total r + total_nanos amounts ≤ max_int64 →
  ∃ posted r', accrue_all r amounts = Ok (posted, r') ∧
    posted = (carry_total r + total_nanos amounts) / NanosPerMicro - PostedMicros r ∧
    RemainderNanos r' = (carry_total r + total_nanos amounts) mod NanosPerMicro ∧
    ExactAccrued r' = carry_total r + total_nanos amounts.
Proof.
  intros Hr Hall Hb. destruct (accrue_all_conserves amounts r) as (p & r' & E & Hr' & T & P); [done..|].
  destruct (carry_determined r' Hr') as [Q M]. rewrite <-T. exists p, r'. split_and!; try done; [lia|].
  unfold ExactAccrued, carry_total, carry_ok, NanosPerMicro in *.
  rewrite (wrap64_id (_ * 1000)), wrap64_id by go_lia. lia.
Qed.

Lemma carry_conserves_witness :
  let usd := mkCurrency "usd" 2 in
  ∃ posted r', accrue_all (mkRemainderCarry usd 999 0 economicRoundingPolicy)
      [mkMoneyNanos usd 1; mkMoneyNanos usd 2500; mkMoneyNanos usd 700] = Ok (posted, r') ∧
    posted = (999 + 3201) / 1000 - 0 ∧ RemainderNanos r' = (999 + 3201) mod 1000 ∧
    ExactAccrued r' = 999 + 3201.
Proof.
  apply (carry_conserves (mkRemainderCarry (mkCurrency "usd" 2) 999 0 economicRoundingPolicy)
    [mkMoneyNanos (mkCurrency "usd" 2) 1; mkMoneyNanos (mkCurrency "usd" 2) 2500;
     mkMoneyNanos (mkCurrency "usd" 2) 700]).
  - repeat split; simpl; unfold NanosPerMicro; lia.
  - repeat (apply Forall_cons; split; [split; [reflexivity|simpl; lia]|]). apply Forall_nil; exact I.
  - vm_compute; discriminate.
Defined.

(** The range guard of [MoneyNanosFromUSDFloat] compares with [2^63], the float
    nearest to [math.MaxInt64], so the amount [2^63] nanos passes it and the
    conversion returns the most negative amount. *)
Theorem MoneyNanosFromUSDFloat_edge :
  MoneyNanosFromUSDFloat (mkCurrency "usd" 2) (f64_lit 9223372036854775808 1000000000) =
    Ok (mkMoneyNanos (mkCurrency "usd" 2) min_int64).
Proof. vm_compute. reflexivity. Qed.
