(* ===== verification/LedgerWrite.v ===== *)
(** * LedgerWrite: the sole writer of the ledger ([ledger_write.go])

    Every row of [ledger_entries] enters through the functions of
    [ledger_write.go].  The file models the micro-money helpers, the gate
    [resolveLedgerInsert] every write passes, and the writers themselves.  The
    database is explicit state: the tables the statements read, and the SQL
    statements embedded in the Go code as functions on them, with the unique
    indexes and row checks [schema.sql] declares on [ledger_entries].  Amounts are
    [NUMERIC(12,6)] values, kept as whole micros.  A refused statement is an
    [Err]: the surrounding transaction is rolled back by the caller, so the
    state is only returned on success.  Foreign keys and the deferred triggers
    (which compare currencies again at commit) are not modelled. *)
From Stdlib Require Import Ascii.
From stdpp Require Import base numbers list gmap strings.
From S2P Require Import Prelude.
From S2P Require Import Float64.
From S2P Require Import Currency.
Local Open Scope Z_scope.
Local Open Scope go_scope.

(** ** Money in micros *)

Definition microUSDPerUSD : Z := 1000000.
Definition maxMoneyUSD : f64 := f64_lit 999999999999 1000000.
Definition maxMoneyAbsMicros : Z := 999999999999.

Definition roundUSD (v : f64) : f64 :=
  f64_div (f64_round (f64_mul v (f64_of_Z microUSDPerUSD))) (f64_of_Z microUSDPerUSD).

Definition usdToMicros (v : f64) : Z :=
  f64_to_int64 (f64_round (f64_mul v (f64_of_Z microUSDPerUSD))).

Definition microsToUSD (m : Z) : f64 := f64_div (f64_of_Z m) (f64_of_Z microUSDPerUSD).

Definition moneyUSDInDomain (v : f64) : bool :=
  if is_nan v || is_inf v then false else f64_leb (f64_abs v) maxMoneyUSD.

(** [compute_plan.go]'s shape of a digest. *)
Definition validSHA256 (value : string) : bool :=
  (String.length value =? 64)%nat && hex_decodes value.

(** ** Row kinds *)

Definition KindBuyerCharge : string := "buyer_charge".
Definition KindSupplierCredit : string := "supplier_credit".
Definition KindPlatformTake : string := "platform_take".
Definition KindClawback : string := "clawback".
Definition KindBuyerRefund : string := "buyer_refund".
Definition KindPlatformRefund : string := "platform_refund".
Definition KindPrepaidTopup : string := "prepaid_topup".
Definition KindPrepaidDebit : string := "prepaid_debit".
Definition KindPrepaidRestore : string := "prepaid_restore".
Definition KindPrepaidBalanceReturn : string := "prepaid_balance_return".
Definition KindPrepaidRefund : string := "prepaid_refund".
Definition KindStripeFee : string := "stripe_fee".
Definition KindSLARefund : string := "sla_refund".
Definition KindRiskReserveAccrual : string := "risk_reserve_accrual".
Definition KindRiskReserveRelease : string := "risk_reserve_release".
Definition KindRiskReserveConsume : string := "risk_reserve_consume".

Definition liabilityLifecycleRevision : string := "refund-dispute-payout-lifecycle-v1".

(** Membership of a kind in a [switch] case or an SQL [IN] list. *)
Definition one_of (k : string) (ks : list string) : bool := bool_decide (k ∈ ks).

(** ** The write boundary *)

Record ledgerInsert := mkLedgerInsert {
  Kind : string;
  SupplierID : option UUID;
  BuyerID : option UUID;
  TaskID : option UUID;
  ExecutionContractID : option UUID;
  AmountMicros : Z;
  li_Currency : string;
  CurrencyAuthority : string;
  BoundJobCurrency : string;
  PayoutStatus : string;
  ReleaseAt : option Z;
  PayoutRef : string;
  PricingDecisionSHA256 : string;
  LifecycleRevision : string;
  LaneSettlementID : string
}.

Definition ledgerCurrencyAuthorityNone : string := "".
Definition ledgerCurrencyAuthorityPrepaid : string := "prepaid_source".
Definition ledgerCurrencyAuthorityExecutionContract : string := "execution_contract_source".
Definition ledgerCurrencyAuthorityJob : string := "job_source".

(** The [switch] on the authority: does it bind this row to its source? *)
Definition source_bound (e : ledgerInsert) (got : Currency) : res bool :=
  if bool_decide (CurrencyAuthority e = ledgerCurrencyAuthorityNone) then Ok false
  else if bool_decide (CurrencyAuthority e = ledgerCurrencyAuthorityPrepaid) then
    Ok (one_of (Kind e) [KindPrepaidTopup; KindPrepaidDebit; KindPrepaidRestore;
                         KindPrepaidBalanceReturn; KindPrepaidRefund])
  else if bool_decide (CurrencyAuthority e = ledgerCurrencyAuthorityExecutionContract) then
    Ok (bool_decide (ExecutionContractID e ≠ None))
  else if bool_decide (CurrencyAuthority e = ledgerCurrencyAuthorityJob) then
    refuse (Errorf "ledger insert job currency authority requires bound job currency")
      if bool_decide (trim_space (BoundJobCurrency e) = "");
    bound ← (match ParseCurrency (BoundJobCurrency e) with
             | Err berr => Err (Wrapf berr "ledger insert bound job currency: %w")
             | Ok c => Ok c
             end);
    refuse (Wrapf errCurrencyMismatch "%w: ledger insert currency %s does not match job currency %s")
      if negb (Currency_Equal got bound);
    Ok (one_of (Kind e) [KindRiskReserveAccrual; KindRiskReserveRelease; KindRiskReserveConsume; KindSLARefund])
  else Err (Errorf "ledger insert has unknown currency authority %q").

(** The currency part: what the row settles in, or why it may not. *)
Definition resolve_currency (st : settlement) (e : ledgerInsert) : res Currency :=
  let cur := trim_space (li_Currency e) in
  cur ← (if bool_decide (cur = "") then
           refuse (Errorf "ledger insert requires currency (settlement currency is not configured)")
             if bool_decide (SettlementCurrencyCode st = "");
           Ok (SettlementCurrencyCode st)
         else Ok cur);
  got ← (match ParseCurrency cur with
         | Err err => Err (Wrapf err "ledger insert currency: %w")
         | Ok c => Ok c
         end);
  settle ← SettlementCurrency st;
  sourceBound ← source_bound e got;
  refuse (Errorf "ledger insert currency authority %q does not bind this row")
    if negb (bool_decide (CurrencyAuthority e = ledgerCurrencyAuthorityNone)) && negb sourceBound;
  refuse (Wrapf errCurrencyMismatch "%w: ledger insert currency %s does not match settlement %s")
    if negb (Currency_Equal got settle) &&
       negb (one_of (Kind e) [KindClawback; KindBuyerRefund; KindPlatformRefund]) &&
       negb sourceBound;
  Ok got.

Definition with_resolution (e : ledgerInsert) (currency sha rev lane : string) : ledgerInsert :=
  mkLedgerInsert (Kind e) (SupplierID e) (BuyerID e) (TaskID e) (ExecutionContractID e)
    (AmountMicros e) currency (CurrencyAuthority e) (BoundJobCurrency e) (PayoutStatus e)
    (ReleaseAt e) (PayoutRef e) sha rev lane.

Definition resolveLedgerInsert (st : settlement) (e : ledgerInsert) : res ledgerInsert :=
  refuse (Errorf "ledger insert requires kind") if bool_decide (Kind e = "");
  refuse (Errorf "ledger amount %d micro-units exceeds NUMERIC(12,6) domain")
    if (maxMoneyAbsMicros <? AmountMicros e) || (AmountMicros e <? - maxMoneyAbsMicros);
  got ← resolve_currency st e;
  let sha := trim_space (PricingDecisionSHA256 e) in
  refuse (Errorf "ledger insert pricing_decision_sha256 %q is not a sha256 hex digest")
    if negb (bool_decide (sha = "")) && negb (validSHA256 sha);
  let sha := if bool_decide (sha = "") then PricingDecisionSHA256 e else sha in
  let rev := trim_space (LifecycleRevision e) in
  refuse (Errorf "ledger insert unknown lifecycle revision %q")
    if negb (bool_decide (rev = "")) && negb (bool_decide (rev = liabilityLifecycleRevision));
  let rev := if bool_decide (rev = "") then LifecycleRevision e else rev in
  Ok (with_resolution e (code got) sha rev (trim_space (LaneSettlementID e))).

Definition validateLedgerInsert (st : settlement) (e : ledgerInsert) : res unit :=
  _ ← resolveLedgerInsert st e; Ok tt.

Record LedgerEntry := mkLedgerEntry {
  le_Kind : string;
  le_SupplierID : option UUID;
  le_BuyerID : option UUID;
  le_TaskID : option UUID;
  AmountUSD : f64;
  le_Currency : string;
  le_PayoutStatus : string;
  le_ReleaseAt : option Z;
  le_PricingDecisionSHA256 : string;
  le_LifecycleRevision : string;
  le_LaneSettlementID : string
}.

Definition ledgerInsertFromEntry (st : settlement) (e : LedgerEntry) : ledgerInsert :=
  let cur := if bool_decide (le_Currency e = "") then SettlementCurrencyCode st else le_Currency e in
  mkLedgerInsert (le_Kind e) (le_SupplierID e) (le_BuyerID e) (le_TaskID e) None
    (usdToMicros (AmountUSD e)) cur ledgerCurrencyAuthorityNone "" (le_PayoutStatus e)
    (le_ReleaseAt e) "" (le_PricingDecisionSHA256 e) (le_LifecycleRevision e) (le_LaneSettlementID e).

(** ** The tables *)

Record row := mkRow {
  kind : string;
  supplier_id : option UUID;
  buyer_id : option UUID;
  task_id : option UUID;
  execution_contract_id : option UUID;
  amount_micros : Z;
  row_currency : string;
  payout_status : string;
  release_at : option Z;
  payout_ref : option string;
  pricing_decision_sha256 : option string;
  lifecycle_revision : option string;
  lane_settlement_id : option string
}.

#[export] Instance row_eq_dec : EqDecision row.
Proof. solve_decision. Defined.

Record job := mkJob {
  job_currency : string;
  job_pricing_sha : option string;
  job_buyer : UUID;
  job_status : string;
  prepaid_required : bool;
  estimated_micros : Z
}.

Record plan := mkPlan { plan_currency : string; sla_premium_micros : Z; reserved_buyer_charge_micros : Z }.

Record db := mkDb {
  ledger : list row;
  tasks : gmap UUID UUID;             (* task -> job *)
  jobs : gmap UUID job;
  plans : gmap UUID plan              (* job -> job_economic_plans *)
}.

Definition with_ledger (d : db) (l : list row) : db := mkDb l (tasks d) (jobs d) (plans d).

(** *** Unique indexes of [ledger_entries]

    The keys a row occupies, one constructor per family of index.  [NULL]s are
    distinct in a unique index, so a row without the column has no key. *)
Inductive index_key :=
  | KTaskKind (t : UUID) (k : string)
  | KContractKind (c : UUID) (k : string)
  | KRef (family ref : string).

#[export] Instance index_key_eq_dec : EqDecision index_key.
Proof. solve_decision. Defined.

(** The partial indexes on [payout_ref]. *)
Definition ref_family (r : row) : option string :=
  if one_of (kind r) [KindStripeFee; KindSLARefund; KindPrepaidTopup; KindPrepaidRefund;
                      KindPrepaidRestore; KindPrepaidBalanceReturn] then Some (kind r)
  else if one_of (kind r) [KindRiskReserveAccrual; KindRiskReserveRelease; KindRiskReserveConsume]
  then Some "risk_reserve"
  else if bool_decide (kind r = KindBuyerCharge) && bool_decide (task_id r = None)
  then Some "job_sla_premium" else None.

Definition index_keys (r : row) : list index_key :=
  (match task_id r with Some t => [KTaskKind t (kind r)] | None => [] end) ++
  (match execution_contract_id r with Some c => [KContractKind c (kind r)] | None => [] end) ++
  (match ref_family r, payout_ref r with Some f, Some p => [KRef f p] | _, _ => [] end).

Definition collides (key : index_key) (l : list row) : bool :=
  existsb (λ r, bool_decide (key ∈ index_keys r)) l.

(** *** Checks of [ledger_entries] on one row *)

Definition lower_hex (a : ascii) : bool :=
  let n := nat_of_ascii a in
  ((48 <=? n)%nat && (n <=? 57)%nat) || ((97 <=? n)%nat && (n <=? 102)%nat).

Definition sha_check (sha : option string) : bool :=
  match sha with
  | Some s => (String.length s =? 64)%nat && forallb lower_hex (String.list_ascii_of_string s)
  | None => true
  end.

Definition row_checks (r : row) : bool :=
  ((- maxMoneyAbsMicros <=? amount_micros r) && (amount_micros r <=? maxMoneyAbsMicros)) &&
  (negb (bool_decide (kind r = KindSupplierCredit)) || negb (bool_decide (payout_status r = "released"))
   || bool_decide (payout_ref r ≠ None)) &&
  sha_check (pricing_decision_sha256 r) &&
  (match lifecycle_revision r with
   | Some s => bool_decide (s = liabilityLifecycleRevision)
   | None => true
   end) &&
  one_of (row_currency r) ["usd"; "cad"; "jpy"].

(** One row of an [INSERT]: [target] says which conflicts [ON CONFLICT ... DO
    NOTHING] covers; any other conflict is an error.  Returns the number of rows
    inserted. *)
Definition insert_one (target : index_key → bool) (l : list row) (r : row) : res (Z * list row) :=
  refuse errCheckViolation if negb (row_checks r);
  if existsb (λ key, target key && collides key l) (index_keys r) then Ok (0, l)
  else
    refuse errUniqueViolation if existsb (λ key, collides key l) (index_keys r);
    Ok (1, l ++ [r]).

Definition no_target (_ : index_key) : bool := false.
Definition any_target (_ : index_key) : bool := true.
Definition task_kind_target (key : index_key) : bool :=
  match key with KTaskKind _ _ => true | _ => false end.

(** [INSERT ... SELECT]: the rows of the query, computed on the table before the
    statement, are inserted one after the other. *)
Fixpoint insert_rows (target : index_key → bool) (l : list row) (rs : list row) : res (Z * list row) :=
  match rs with
  | [] => Ok (0, l)
  | r :: rs =>
      '(n, l) ← insert_one target l r;
      '(m, l) ← insert_rows target l rs;
      Ok (n + m, l)
  end.

Definition exec_insert (target : index_key → bool) (d : db) (rs : list row) : res (Z * db) :=
  '(n, l) ← insert_rows target (ledger d) rs;
  Ok (n, with_ledger d l).

(** [NULLIF(s, '')]. *)
Definition nullif (s : string) : option string := if bool_decide (s = "") then None else Some s.

(** ** The writers *)

(** The row of a resolved insert, with or without the contract column. *)
Definition row_of (e : ledgerInsert) (contract : option UUID) : row :=
  mkRow (Kind e) (SupplierID e) (BuyerID e) (TaskID e) contract (AmountMicros e) (li_Currency e)
    (PayoutStatus e) (ReleaseAt e) (nullif (PayoutRef e)) (nullif (PricingDecisionSHA256 e))
    (nullif (LifecycleRevision e)) (nullif (LaneSettlementID e)).

Definition insertLedgerEntryTx (st : settlement) (d : db) (e : ledgerInsert) : res (Z * db) :=
  e ← resolveLedgerInsert st e;
  exec_insert no_target d [row_of e (ExecutionContractID e)].

Definition insertLedgerEntryOnTaskConflictDoNothingTx (st : settlement) (d : db) (e : ledgerInsert) :
    res (Z * db) :=
  e ← resolveLedgerInsert st e;
  exec_insert task_kind_target d [row_of e None].

Definition insertLedgerEntryIfAbsentByRefTx (st : settlement) (d : db) (e : ledgerInsert) : res (Z * db) :=
  e ← resolveLedgerInsert st e;
  refuse (Errorf "ledger insert by ref requires payout_ref") if bool_decide (PayoutRef e = "");
  let present :=
    existsb (λ r, bool_decide (kind r = Kind e) && bool_decide (payout_ref r = Some (PayoutRef e)))
      (ledger d) in
  exec_insert no_target d (if present then [] else [row_of e (ExecutionContractID e)]).

(** *** Statements scoped to a job *)

(** [JOIN tasks t ON t.id = le.task_id WHERE t.job_id = $1]. *)
Definition of_job (d : db) (jobID : UUID) (r : row) : bool :=
  match task_id r with
  | Some t => bool_decide (tasks d !! t = Some jobID)
  | None => false
  end.

Definition currency_of_job (d : db) (jobID : UUID) : res string :=
  match jobs d !! jobID with Some j => Ok (job_currency j) | None => Err errNoRows end.

Definition lockJobCurrencyAuthority (d : db) (jobID : UUID) (wantCurrency : string) :
    res (string * string) :=
  jobCurrency ← currency_of_job d jobID;
  _ ← (match ParseCurrency jobCurrency with
       | Err err => Err (Wrapf err "job %s currency: %w")
       | Ok _ => Ok tt
       end);
  refuse (Wrapf errCurrencyMismatch "%w: ledger currency %s does not match job %s currency %s")
    if negb (bool_decide (wantCurrency = "")) && negb (bool_decide (wantCurrency = jobCurrency));
  Ok (ledgerCurrencyAuthorityJob, jobCurrency).

(** [COALESCE(pricing_decision_sha256, '')]. *)
Definition loadJobPricingDecisionSHA (d : db) (jobID : UUID) : res string :=
  match jobs d !! jobID with
  | Some j => Ok (default "" (job_pricing_sha j))
  | None => Err errNoRows
  end.

Definition clawback_of (sha : string) (r : row) : row :=
  mkRow KindClawback (supplier_id r) None (task_id r) None (- amount_micros r) (row_currency r)
    "clawed_back" None None (nullif sha) (Some liabilityLifecycleRevision) None.

Definition insertJobDisputeClawbacksTx (d : db) (jobID : UUID) : res (Z * db) :=
  pricingSHA ← loadJobPricingDecisionSHA d jobID;
  let credits := filter (λ r, of_job d jobID r && bool_decide (kind r = KindSupplierCredit)
                              && (0 <? amount_micros r) = true) (ledger d) in
  exec_insert task_kind_target d (map (clawback_of pricingSHA) credits).

Record disputeBuyerRefundResult := mkRefundResult {
  BuyerRefundMicros : Z;
  PlatformRefundMicros : Z;
  TasksRefunded : Z;
  SLARefundMicros : Z;
  refund_Currency : string
}.

Definition task_text (r : row) : string :=
  match task_id r with Some t => uuid_String t | None => "" end.

Definition buyer_refund_of (disputeID : UUID) (sha : string) (r : row) : row :=
  mkRow KindBuyerRefund None (buyer_id r) (task_id r) None (- amount_micros r) (row_currency r)
    "released" None (Some ("dispute-refund-" +:+ uuid_String disputeID +:+ "-" +:+ task_text r))
    (nullif sha) (Some liabilityLifecycleRevision) None.

Definition platform_refund_of (disputeID : UUID) (sha : string) (r : row) : row :=
  mkRow KindPlatformRefund None None (task_id r) None (- amount_micros r) (row_currency r)
    "released" None (Some ("dispute-platform-refund-" +:+ uuid_String disputeID +:+ "-" +:+ task_text r))
    (nullif sha) (Some liabilityLifecycleRevision) None.

Definition sla_refund_of (slaRef sha : string) (r : row) : row :=
  mkRow KindBuyerRefund None (buyer_id r) None None (- amount_micros r) (row_currency r)
    "released" None (Some slaRef) (nullif sha) (Some liabilityLifecycleRevision) None.

(** [store_billing.go]. *)
Definition slaPremiumChargeRef (jobID : UUID) : string := "sla-premium-" +:+ uuid_String jobID.

Definition sum_micros (p : row → bool) (l : list row) : Z :=
  foldr (λ r s, (if p r then amount_micros r else 0) + s) 0 l.

(** Per task, charges plus refunds: positive when more came back than was charged. *)
Definition task_net (kinds : list string) (l : list row) (t : UUID) : Z :=
  sum_micros (λ r, bool_decide (task_id r = Some t) && one_of (kind r) kinds) l.

Definition overRefunded (d : db) (jobID : UUID) : bool :=
  existsb (λ r, match task_id r with
    | Some t => of_job d jobID r && one_of (kind r) [KindBuyerCharge; KindBuyerRefund]
                && (0 <? task_net [KindBuyerCharge; KindBuyerRefund] (ledger d) t)
    | None => false
    end) (ledger d).

Definition mixedCurrencies (d : db) (jobID : UUID) : nat :=
  length (remove_dups (map row_currency (filter (λ r, of_job d jobID r &&
    one_of (kind r) [KindBuyerCharge; KindBuyerRefund; KindPlatformTake; KindPlatformRefund;
                     KindSupplierCredit; KindClawback] = true) (ledger d)))).

Definition task_charges (d : db) (jobID : UUID) (jobCurrency : string) : list row :=
  filter (λ r, of_job d jobID r && bool_decide (kind r = KindBuyerCharge) && (amount_micros r <? 0)
               && bool_decide (buyer_id r ≠ None) && bool_decide (row_currency r = jobCurrency) = true)
    (ledger d).

Definition task_takes (d : db) (jobID : UUID) (jobCurrency : string) : list row :=
  filter (λ r, of_job d jobID r && bool_decide (kind r = KindPlatformTake) && (0 <? amount_micros r)
               && bool_decide (row_currency r = jobCurrency) = true)
    (ledger d).

(** The SLA premium charge to return, unless this dispute already returned it. *)
Definition sla_charges (d : db) (jobID : UUID) (slaRef jobCurrency : string) : list row :=
  if existsb (λ r, bool_decide (kind r = KindBuyerRefund) && bool_decide (payout_ref r = Some slaRef)) (ledger d)
  then []
  else filter (λ r, bool_decide (kind r = KindBuyerCharge) && bool_decide (task_id r = None)
                    && bool_decide (payout_ref r = Some (slaPremiumChargeRef jobID))
                    && (amount_micros r <? 0) && bool_decide (buyer_id r ≠ None)
                    && bool_decide (row_currency r = jobCurrency) = true) (ledger d).

Definition insertJobDisputeBuyerRefundsTx (st : settlement) (d : db) (jobID disputeID : UUID) :
    res (disputeBuyerRefundResult * db) :=
  cur ← currency_of_job d jobID;
  refuse (Errorf "job %s refund refused: unsupported currency %q")
    if negb (is_ok (RequireSettlementCurrency st cur)) && negb (is_ok (ParseCurrency cur));
  pricingSHA ← loadJobPricingDecisionSHA d jobID;
  '(tasksRefunded, d) ←
    exec_insert task_kind_target d (map (buyer_refund_of disputeID pricingSHA) (task_charges d jobID cur));
  '(_, d) ←
    exec_insert task_kind_target d (map (platform_refund_of disputeID pricingSHA) (task_takes d jobID cur));
  let slaRef := "dispute-sla-refund-" +:+ uuid_String disputeID in
  '(_, d) ←
    exec_insert no_target d (map (sla_refund_of slaRef pricingSHA) (sla_charges d jobID slaRef cur));
  refuse (Errorf "job %s buyer refund would exceed charged amount on at least one task")
    if overRefunded d jobID;
  refuse (Wrapf errCurrencyMismatch "%w: job %s ledger mixes currencies across charge/refund rows")
    if (1 <? mixedCurrencies d jobID)%nat;
  let byRef r := bool_decide (kind r = KindBuyerRefund) && bool_decide (payout_ref r = Some slaRef) in
  let sla := sum_micros byRef (ledger d) in
  Ok (mkRefundResult
        (sum_micros (λ r, of_job d jobID r && bool_decide (kind r = KindBuyerRefund)) (ledger d) + sla)
        (- sum_micros (λ r, of_job d jobID r && bool_decide (kind r = KindPlatformRefund)) (ledger d))
        tasksRefunded sla cur, d).

Definition insertJobSLAPremiumChargeTx (st : settlement) (d : db) (jobID : UUID) (payoutRef : string) :
    res (Z * db) :=
  match jobs d !! jobID, plans d !! jobID with
  | Some j, Some p =>
      refuse (Wrapf errCurrencyMismatch "%w: job %s currency %s differs from economic plan %s")
        if negb (bool_decide (job_currency j = plan_currency p));
      _ ← (match RequireSettlementCurrency st (job_currency j) with
           | Err err => Err (Wrapf err "job %s cannot settle SLA premium: %w")
           | Ok _ => Ok tt
           end);
      pricingSHA ← loadJobPricingDecisionSHA d jobID;
      exec_insert any_target d
        (if bool_decide (job_status j = "complete") && (0 <? sla_premium_micros p)
         then [mkRow KindBuyerCharge None (Some (job_buyer j)) None None (- sla_premium_micros p)
                 (job_currency j) "released" None (Some payoutRef) (nullif pricingSHA) None None]
         else [])
  | _, _ => Err errNoRows
  end.

(** [verification_apply.go]. *)
Definition sameOptionalUUID (a b : option UUID) : bool :=
  match a, b with
  | Some a, Some b => bool_decide (a = b)
  | None, None => true
  | _, _ => false
  end.

Definition insertNewLedgerEntryTx (st : settlement) (d : db) (entry : LedgerEntry) : res db :=
  '(n, d) ← insertLedgerEntryOnTaskConflictDoNothingTx st d (ledgerInsertFromEntry st entry);
  refuse (Errorf "ledger row %s/%v existed before terminal transition") if negb (n =? 1);
  Ok d.

Definition insertLedgerEntryIfAbsentExactTx (st : settlement) (d : db) (entry : LedgerEntry) : res db :=
  let want := ledgerInsertFromEntry st entry in
  '(n, d) ← insertLedgerEntryOnTaskConflictDoNothingTx st d want;
  if n =? 1 then Ok d else
  match list_find (λ r, bool_decide (task_id r = le_TaskID entry) && bool_decide (le_TaskID entry ≠ None)
                        && bool_decide (kind r = le_Kind entry) = true) (ledger d) with
  | None => Err errNoRows
  | Some (_, r) =>
      refuse (Errorf "conflicting existing ledger row %s/%v")
        if negb (bool_decide (kind r = Kind want)) || negb (amount_micros r =? AmountMicros want)
           || negb (sameOptionalUUID (supplier_id r) (SupplierID want))
           || negb (sameOptionalUUID (task_id r) (TaskID want));
      Ok d
  end.

(** ** The gate *)

Lemma one_of_spec k ks : one_of k ks = true ↔ k ∈ ks.
Proof. unfold one_of. apply bool_decide_eq_true. Qed.

Lemma SettlementCurrency_Valid st c : SettlementCurrency st = Ok c → Currency_Valid c = true.
Proof. unfold SettlementCurrency. intros. inv_ok. done. Qed.

Lemma ParseCurrency_code c : Currency_Valid c = true → ParseCurrency (code c) = Ok c.
Proof. by intros [->|[->| ->]]%Currency_Valid_cases. Qed.

Lemma trim_code c : Currency_Valid c = true → trim_space (code c) = code c.
Proof. by intros [->|[->| ->]]%Currency_Valid_cases. Qed.

Lemma resolve_currency_Valid st e got : resolve_currency st e = Ok got → Currency_Valid got = true.
Proof.
  unfold resolve_currency. intros. inv_ok.
  match goal with H : match ParseCurrency ?x with _ => _ end = Ok _ |- _ =>
    destruct (ParseCurrency x) eqn:?; simplify_eq end. eauto with go.
Qed.

Lemma resolveLedgerInsert_Ok st e r :
  resolveLedgerInsert st e = Ok r →
  ∃ got sha rev, resolve_currency st e = Ok got ∧
    r = with_resolution e (code got) sha rev (trim_space (LaneSettlementID e)) ∧
    (sha = trim_space (PricingDecisionSHA256 e) ∧ validSHA256 sha = true ∨
     sha = PricingDecisionSHA256 e ∧ trim_space sha = "") ∧
    (rev = liabilityLifecycleRevision ∨ rev = LifecycleRevision e ∧ trim_space rev = "") ∧
    Kind e ≠ "" ∧ - maxMoneyAbsMicros ≤ AmountMicros e ≤ maxMoneyAbsMicros.
Proof.
  unfold resolveLedgerInsert. intros. inv_ok.
  eexists _, _, _. split_and!; [done|done|..]; try done.
  - destruct (decide (trim_space (PricingDecisionSHA256 e) = "")) as [E|E].
    + rewrite bool_decide_true by done. by right.
    + rewrite bool_decide_false in * by done. left. split; [done|]. by apply negb_false_iff.
  - destruct (decide (trim_space (LifecycleRevision e) = "")) as [E|E].
    + rewrite bool_decide_true by done. by right.
    + rewrite (bool_decide_false (_ = "")) in * by done. left.
      by match goal with H : _ && _ = false |- _ => apply negb_false_iff, bool_decide_eq_true in H end.
Qed.

(** A row may settle in another currency than the process only as a reversal or
    as the continuation of an obligation bound to its source. *)
Definition bound_to_source (e : ledgerInsert) (c : Currency) : Prop :=
  (CurrencyAuthority e = ledgerCurrencyAuthorityPrepaid ∧
     Kind e ∈ [KindPrepaidTopup; KindPrepaidDebit; KindPrepaidRestore; KindPrepaidBalanceReturn; KindPrepaidRefund]) ∨
  (CurrencyAuthority e = ledgerCurrencyAuthorityExecutionContract ∧ ExecutionContractID e ≠ None) ∨
  (CurrencyAuthority e = ledgerCurrencyAuthorityJob ∧ ParseCurrency (BoundJobCurrency e) = Ok c ∧
     Kind e ∈ [KindRiskReserveAccrual; KindRiskReserveRelease; KindRiskReserveConsume; KindSLARefund]).

Lemma source_bound_true e got : source_bound e got = Ok true → bound_to_source e got.
Proof.
  unfold source_bound, bound_to_source. intros H.
  destruct (bool_decide (_ = ledgerCurrencyAuthorityNone)); [done|].
  destruct (bool_decide (_ = ledgerCurrencyAuthorityPrepaid)) eqn:P.
  { left. reflect_bools. split; [done|]. apply one_of_spec. congruence. }
  destruct (bool_decide (_ = ledgerCurrencyAuthorityExecutionContract)) eqn:C.
  { right; left. inv_ok. done. }
  destruct (bool_decide (_ = ledgerCurrencyAuthorityJob)) eqn:B; [|done].
  right; right. inv_ok. destruct (ParseCurrency _) eqn:E; simplify_eq.
  match goal with H : Currency_Equal _ _ = true |- _ => apply Currency_Equal_spec in H as [_ ->] end.
  split_and!; [done..|]. apply one_of_spec. congruence.
Qed.

(** No write changes what it was asked to pay, and no row leaves the process's currency
    except a reversal or the continuation of a source-bound obligation: a
    resolved insert keeps its amount and parties, its amount fits the column, its
    currency is a supported code, and that code is the settlement currency
    unless the row is a clawback or refund, or its authority binds it (a prepaid
    kind, an execution contract, or a job whose frozen currency it is). *)
Theorem resolveLedgerInsert_currency st e r :
  resolveLedgerInsert st e = Ok r →
  (Kind r = Kind e ∧ AmountMicros r = AmountMicros e ∧ SupplierID r = SupplierID e ∧
   BuyerID r = BuyerID e ∧ TaskID r = TaskID e) ∧
  - maxMoneyAbsMicros ≤ AmountMicros r ≤ maxMoneyAbsMicros ∧
  ∃ c settle, Currency_Valid c = true ∧ li_Currency r = code c ∧ SettlementCurrency st = Ok settle ∧
    (c = settle ∨ Kind e ∈ [KindClawback; KindBuyerRefund; KindPlatformRefund] ∨ bound_to_source e c).
Proof.
  intros H. apply resolveLedgerInsert_Ok in H as (c & sha & rev & R & -> & _ & _ & _ & [? ?]).
  split_and!; [done..|]. exists c. pose proof (resolve_currency_Valid _ _ _ R) as V.
  unfold resolve_currency in R. inv_ok.
  match goal with H : SettlementCurrency st = Ok ?s |- _ => exists s end. split_and!; [done..|].
  destruct (ParseCurrency _); simplify_eq.
  match goal with H : source_bound e c = Ok ?b |- _ => destruct b; [by eauto using source_bound_true|] end.
  match goal with H : _ && negb false = false |- _ => rewrite andb_true_r in H; apply andb_false_iff in H as [H|H] end;
    reflect_bools.
  - left. by match goal with H : Currency_Equal _ _ = true |- _ => apply Currency_Equal_spec in H as [_ ->] end.
  - right; left. by apply one_of_spec.
Qed.

Lemma resolveLedgerInsert_currency_witness :
  let st := mkSettlement true (mkCurrency "cad" 2) in
  let e := mkLedgerInsert KindSLARefund None (Some 7%N) None None 2500000 "USD"
             ledgerCurrencyAuthorityJob " usd" "released" None "sla-7" "" "" "" in
  ∃ r, resolveLedgerInsert st e = Ok r ∧ AmountMicros r = 2500000 ∧
  ∃ c settle, Currency_Valid c = true ∧ li_Currency r = code c ∧ SettlementCurrency st = Ok settle ∧
    (c = settle ∨ Kind e ∈ [KindClawback; KindBuyerRefund; KindPlatformRefund] ∨ bound_to_source e c).
Proof.
  intros st e. eexists. split; [vm_compute; reflexivity|]. split; [reflexivity|].
  eapply (resolveLedgerInsert_currency st e). vm_compute. reflexivity.
Defined.

(** What the gate does to an optional citation is stable. *)
Lemma citation_stable (s : string) (ok : string → bool) :
  s = trim_space s ∧ ok s = true ∨ trim_space s = "" →
  negb (bool_decide (trim_space s = "")) && negb (ok (trim_space s)) = false ∧
  (if bool_decide (trim_space s = "") then s else trim_space s) = s.
Proof.
  intros [[<- H]| ->]; [|done]. rewrite H, andb_false_r. by case_bool_decide.
Qed.

(** The gate is a normal form: resolving an already resolved insert succeeds and
    changes nothing, so the writers may be composed without rewriting a row. *)
Theorem resolveLedgerInsert_idem st e r :
  resolveLedgerInsert st e = Ok r → resolveLedgerInsert st r = Ok r.
Proof.
  intros H. pose proof H as H0.
  apply resolveLedgerInsert_Ok in H as (c & sha & rev & R & -> & Hsha & Hrev & ? & ? & ?).
  pose proof (resolve_currency_Valid _ _ _ R) as V.
  assert (resolve_currency st (with_resolution e (code c) sha rev (trim_space (LaneSettlementID e))) = Ok c) as R'.
  { unfold resolve_currency in R |- *. cbn [li_Currency with_resolution]. rewrite (trim_code c V).
    rewrite (bool_decide_false (code c = "")) by eauto with go. cbn [mbind res_bind].
    rewrite (ParseCurrency_code c V). inv_ok. destruct (ParseCurrency _); simplify_eq.
    match goal with H : SettlementCurrency st = Ok _ |- _ => rewrite H end. cbn [mbind res_bind].
    match goal with H : source_bound e c = Ok _ |- _ =>
      change (source_bound (with_resolution _ _ _ _ _) c) with (source_bound e c); rewrite H end.
    cbn [mbind res_bind Kind CurrencyAuthority with_resolution].
    by repeat match goal with H : ?b = false |- context [?b] => rewrite H end. }
  destruct (citation_stable sha validSHA256) as [S1 S2].
  { destruct Hsha as [[-> ?]|[_ ?]]; [left; by rewrite trim_space_idem|by right]. }
  destruct (citation_stable rev (λ x, bool_decide (x = liabilityLifecycleRevision))) as [V1 V2].
  { destruct Hrev as [->|[_ ?]]; [left; by split|by right]. }
  unfold resolveLedgerInsert. rewrite R'.
  cbn [Kind AmountMicros PricingDecisionSHA256 LifecycleRevision LaneSettlementID with_resolution mbind res_bind].
  rewrite bool_decide_false, !(proj2 (Z.ltb_ge _ _)) by done. cbn [orb].
  by rewrite S1, S2, V1, V2, trim_space_idem.
Qed.

Lemma resolveLedgerInsert_idem_witness :
  let st := mkSettlement true (mkCurrency "usd" 2) in
  let e := mkLedgerInsert KindPrepaidTopup None (Some 7%N) None None 25000000 " USD"
             "" "" "released" None "pi_1" " " (liabilityLifecycleRevision +:+ " ") " lane " in
  ∃ r, resolveLedgerInsert st e = Ok r ∧ resolveLedgerInsert st r = Ok r.
Proof.
  intros st e. eexists. split; [vm_compute; reflexivity|].
  apply (resolveLedgerInsert_idem st e). vm_compute. reflexivity.
Defined.

(** ** What one insert writes

    The row of a resolved request, read field by field; the currency is the one the
    request names. *)
Record wrote (e : ledgerInsert) (r : row) : Prop := {
  wrote_kind : kind r = Kind e;
  wrote_amount : amount_micros r = AmountMicros e;
  wrote_buyer : buyer_id r = BuyerID e;
  wrote_task : task_id r = TaskID e;
  wrote_ref : payout_ref r = nullif (PayoutRef e);
  wrote_currency : ∀ c, ParseCurrency (li_Currency e) = Ok c → row_currency r = code c
}.

Lemma ParseCurrency_trim s : ParseCurrency (trim_space s) = ParseCurrency s.
Proof. unfold ParseCurrency. by rewrite trim_space_idem. Qed.

Lemma resolve_currency_named st e c got :
  ParseCurrency (li_Currency e) = Ok c → resolve_currency st e = Ok got → got = c.
Proof.
  intros P H. unfold resolve_currency in H. inv_ok.
  assert (trim_space (li_Currency e) ≠ "") as N.
  { intros E. unfold ParseCurrency in P. by rewrite E in P. }
  match goal with H : (if bool_decide _ then _ else _) = Ok _ |- _ => rewrite bool_decide_false in H by done end.
  simplify_eq. rewrite ParseCurrency_trim, P in *. by simplify_eq.
Qed.

Lemma resolved_wrote st e e' contract : resolveLedgerInsert st e = Ok e' → wrote e (row_of e' contract).
Proof.
  intros (got & sha & rev & R & -> & _)%resolveLedgerInsert_Ok. split; try done.
  intros c P. simpl. by rewrite (resolve_currency_named st e c got).
Qed.

Lemma collides_spec key l : collides key l = true ↔ key ∈ l ≫= index_keys.
Proof.
  unfold collides. rewrite existsb_exists, list_elem_of_bind. split.
  - intros (r & Hr%list_elem_of_In & Hk%bool_decide_eq_true). eauto.
  - intros (r & Hk & Hr). exists r. rewrite <-list_elem_of_In. by rewrite bool_decide_true.
Qed.

Lemma task_kind_key r t k : KTaskKind t k ∈ index_keys r → task_id r = Some t ∧ kind r = k.
Proof.
  unfold index_keys. destruct (task_id r), (execution_contract_id r), (ref_family r), (payout_ref r); set_solver.
Qed.

Lemma insert_one_row target d r n d' :
  exec_insert target d [r] = Ok (n, d') →
  (n = 0 ∧ d' = d ∧ ∃ key, key ∈ index_keys r ∧ target key = true ∧ collides key (ledger d) = true) ∨
  (n = 1 ∧ d' = with_ledger d (ledger d ++ [r]) ∧ row_checks r = true).
Proof.
  unfold exec_insert. simpl. unfold insert_one.
  destruct (row_checks r) eqn:C; simpl; [|done].
  destruct (existsb (λ key, target key && collides key (ledger d)) (index_keys r)) eqn:X; simpl.
  - intros ?; simplify_eq. left. split_and!; [done|by destruct d|].
    apply existsb_exists in X as (k & Hk%list_elem_of_In & ?). reflect_bools. by exists k.
  - destruct (existsb (λ key, collides key (ledger d)) (index_keys r)); simpl; [done|]. intros; simplify_eq. by right.
Qed.

(** Absent means no row of the kind carries the reference. *)
Lemma insert_by_ref_Ok st d e n d' :
  insertLedgerEntryIfAbsentByRefTx st d e = Ok (n, d') →
  PayoutRef e ≠ "" ∧
  ((n = 0 ∧ d' = d ∧ ∃ r, r ∈ ledger d ∧ kind r = Kind e ∧ payout_ref r = Some (PayoutRef e)) ∨
   (n = 1 ∧ (∀ r, r ∈ ledger d → kind r = Kind e → payout_ref r ≠ Some (PayoutRef e)) ∧
    ∃ r, d' = with_ledger d (ledger d ++ [r]) ∧ wrote e r ∧ row_checks r = true)).
Proof.
  unfold insertLedgerEntryIfAbsentByRefTx. intros H. apply bind_Ok in H as (e' & R & H).
  pose proof (resolved_wrote st e e' (ExecutionContractID e') R) as W.
  apply resolveLedgerInsert_Ok in R as (got & sha & rev & _ & E & _).
  assert (Kind e' = Kind e ∧ PayoutRef e' = PayoutRef e) as [K P] by (by subst).
  apply refuse_Ok in H as [N H]. rewrite K, P in *. reflect_bools. split; [done|].
  destruct (existsb _ _) eqn:X.
  - left. unfold exec_insert in H. simpl in H. simplify_eq. split_and!; [done|by destruct d|].
    apply existsb_exists in X as (r & Hr & X). reflect_bools. exists r. by rewrite <-list_elem_of_In in Hr.
  - right. apply insert_one_row in H as [(_ & _ & k & _ & ? & _)|(-> & -> & C)].
    + done.
    + split_and!; [done| |by eexists].
      intros r Hr Kr Pr. rewrite <-not_true_iff_false in X. apply X. apply existsb_exists. exists r.
      rewrite <-list_elem_of_In. split; [done|]. by rewrite !bool_decide_true.
Qed.

Lemma insert_on_task_Ok st d e n d' :
  insertLedgerEntryOnTaskConflictDoNothingTx st d e = Ok (n, d') →
  (n = 0 ∧ d' = d ∧ ∃ r, r ∈ ledger d ∧ kind r = Kind e ∧ task_id r = TaskID e) ∨
  (n = 1 ∧ ∃ r, d' = with_ledger d (ledger d ++ [r]) ∧ wrote e r ∧ row_checks r = true).
Proof.
  unfold insertLedgerEntryOnTaskConflictDoNothingTx. intros H. apply bind_Ok in H as (e' & R & H).
  apply (resolved_wrote _ _ _ None) in R.
  apply insert_one_row in H as [(-> & -> & [t k|c k|f p] & Hk & Ht & C)|(-> & -> & C)]; [|done|done|].
  - left. split_and!; [done..|]. apply collides_spec, list_elem_of_bind in C as (r & Hr & L). exists r.
    apply task_kind_key in Hr as [T <-], Hk as [T' K']. split; [done|]. rewrite <-(wrote_kind _ _ R), <-(wrote_task _ _ R).
    split; congruence.
  - right. split; [done|]. eexists. split_and!; [done|exact R|done].
Qed.

Lemma row_checks_amount r : row_checks r = true → - maxMoneyAbsMicros ≤ amount_micros r ≤ maxMoneyAbsMicros.
Proof. unfold row_checks. intros. reflect_bools. lia. Qed.

(** ** The table invariant: unique keys and checked rows *)

Definition ledger_ok (l : list row) : Prop :=
  NoDup (l ≫= index_keys) ∧ Forall (λ r, row_checks r = true) l.

Lemma collides_false key l : collides key l = false ↔ key ∉ l ≫= index_keys.
Proof. rewrite <-collides_spec. by destruct (collides key l). Qed.

Lemma insert_one_Ok target l r n l' :
  insert_one target l r = Ok (n, l') →
  (n = 0 ∧ l' = l) ∨
  (n = 1 ∧ l' = l ++ [r] ∧ row_checks r = true ∧ ∀ key, key ∈ index_keys r → key ∉ l ≫= index_keys).
Proof.
  unfold insert_one. intros. inv_ok. case_match; simplify_eq; [by left|]. inv_ok. right. split_and!; [done..|].
  intros key Hk. apply collides_false. apply not_true_is_false. intros Hc.
  assert (existsb (λ key, collides key l) (index_keys r) = true); [|congruence].
  apply existsb_exists. exists key. by rewrite <-list_elem_of_In.
Qed.

(** ** Dispute reversal *)

Lemma sum_micros_cons p r l :
  sum_micros p (r :: l) = (if p r then amount_micros r else 0) + sum_micros p l.
Proof. done. Qed.

Lemma sum_micros_app p l1 l2 : sum_micros p (l1 ++ l2) = sum_micros p l1 + sum_micros p l2.
Proof. induction l1 as [|r l1 IH]; simpl; lia. Qed.

Lemma sum_micros_ext p q l : (∀ r, r ∈ l → p r = q r) → sum_micros p l = sum_micros q l.
Proof.
  induction l as [|r l IH]; intros H; simpl; [done|].
  rewrite (H r) by left. rewrite IH; [done|]. intros s Hs. apply H. by right.
Qed.

Lemma sum_micros_none p l : (∀ r, r ∈ l → p r = false) → sum_micros p l = 0.
Proof.
  intros H. rewrite (sum_micros_ext p (λ _, false)) by done. induction l; simpl in *; [done|].
  apply IHl. intros. apply H. by right.
Qed.

(** Reversing the selected rows of a table cancels their sum. *)
Lemma sum_reversal (p q q' : row → bool) (f : row → row) l :
  (∀ r, r ∈ l → p r = true → amount_micros (f r) = - amount_micros r ∧ q' (f r) = q r) →
  (∀ r, r ∈ l → p r = false → q r = true → amount_micros r = 0) →
  sum_micros q' (map f (filter (λ r, p r = true) l)) = - sum_micros q l.
Proof.
  induction l as [|r l IH]; intros H0 H1; [done|]. rewrite filter_cons.
  assert (sum_micros q' (map f (filter (λ r, p r = true) l)) = - sum_micros q l) as E.
  { apply IH; intros; [apply H0|apply H1]; try done; by right. }
  rewrite sum_micros_cons. destruct (decide (p r = true)) as [P|P%not_true_is_false]; cbn [map].
  - rewrite sum_micros_cons, E. destruct (H0 r) as [-> ->]; [left|done|]. destruct (q r); lia.
  - rewrite E. pose proof (H1 r ltac:(left) P). destruct (q r); lia.
Qed.

Lemma insert_one_fresh target l r :
  row_checks r = true → (∀ key, key ∈ index_keys r → collides key l = false) →
  insert_one target l r = Ok (1, l ++ [r]).
Proof.
  intros C K. unfold insert_one. rewrite C. simpl.
  assert (∀ t : index_key → bool, existsb (λ key, t key && collides key l) (index_keys r) = false) as K1.
  { intros t. apply not_true_is_false. intros (key & Hk%list_elem_of_In & [_ Hc]%andb_true_iff)%existsb_exists.
    rewrite K in Hc; done. }
  rewrite K1. pose proof (K1 any_target) as K2. unfold any_target in K2. simpl in K2. by rewrite K2.
Qed.

Lemma insert_rows_fresh target rs : ∀ l,
  Forall (λ r, row_checks r = true) rs → NoDup ((l ++ rs) ≫= index_keys) →
  insert_rows target l rs = Ok (Z.of_nat (length rs), l ++ rs).
Proof.
  induction rs as [|r rs IH]; intros l F N; simpl; [by rewrite app_nil_r|].
  apply Forall_cons in F as [C F]. rewrite insert_one_fresh; [|done|].
  2: { intros key Hk. apply collides_false. intros Hl. rewrite bind_app in N. apply NoDup_app in N as (_ & N & _).
    apply (N key); [done|]. simpl. set_solver. }
  simpl. rewrite IH; [|done|by rewrite <-app_assoc]. simpl. rewrite <-app_assoc. simpl. do 2 f_equal. lia.
Qed.

(** Keys picked from the rows of a table with unique keys are distinct. *)
Lemma NoDup_selected (p : row → bool) (a b : row → index_key) l :
  NoDup (l ≫= index_keys) →
  (∀ r, r ∈ l → p r = true → b r ∈ index_keys r) →
  (∀ r s, a r = a s → b r = b s) →
  NoDup (map a (filter (λ r, p r = true) l)).
Proof.
  intros N Hb Hab. induction l as [|r l IH]; [constructor|]. simpl in N.
  apply NoDup_app in N as (_ & D & N). rewrite filter_cons.
  assert (NoDup (map a (filter (λ r, p r = true) l))) as R.
  { apply IH; [done|]. intros; apply Hb; [by right|done]. }
  destruct (decide (p r = true)) as [P|P]; [|done]. simpl. constructor; [|done].
  intros (s & E & [Ps Hs]%list_elem_of_filter)%list_elem_of_fmap.
  apply (D (b r)); [apply Hb; [left|done]|]. apply list_elem_of_bind. exists s. split; [|done].
  rewrite (Hab r s) by done. apply Hb; [by right|done].
Qed.

(** What the reversal of a row keeps and changes. *)
Record reverses (k' : string) (f : row → row) (r : row) : Prop := {
  rev_kind : kind (f r) = k';
  rev_task : task_id (f r) = task_id r;
  rev_keys : index_keys (f r) = match task_id r with Some t => [KTaskKind t k'] | None => [] end;
  rev_amount : amount_micros (f r) = - amount_micros r;
  rev_currency : row_currency (f r) = row_currency r;
  rev_checks : row_checks r = true → row_checks (f r) = true
}.

Lemma reverses_row k' f r :
  kind (f r) = k' → task_id (f r) = task_id r → execution_contract_id (f r) = None →
  ref_family (f r) = None → amount_micros (f r) = - amount_micros r →
  row_currency (f r) = row_currency r → k' ≠ KindSupplierCredit →
  sha_check (pricing_decision_sha256 (f r)) = true →
  lifecycle_revision (f r) = Some liabilityLifecycleRevision →
  reverses k' f r.
Proof.
  intros K T C F A U N S L. split; try done.
  - unfold index_keys. rewrite C, F, T, K. by destruct (task_id r).
  - unfold row_checks. rewrite A, U, K, S, L. intros; reflect_bools.
    rewrite bool_decide_false by done. rewrite !(proj2 (Z.leb_le _ _)) by lia. done.
Qed.

Section Reversal.
Context (d : db) (J : UUID) (p : row → bool) (k k' : string) (f : row → row).
Context (Hok : ledger_ok (ledger d)) (Hkk : k ≠ k').
Context (Hp : ∀ r, r ∈ ledger d → p r = true → of_job d J r = true ∧ kind r = k).
Context (Hf : ∀ r, reverses k' f r).
Context (Hfresh : ∀ r, r ∈ ledger d → of_job d J r = true → kind r ≠ k').

Definition reversed_ledger : list row := ledger d ++ map f (filter (λ r, p r = true) (ledger d)).

Lemma of_job_task r : of_job d J r = true → ∃ t, task_id r = Some t ∧ tasks d !! t = Some J.
Proof. unfold of_job. destruct (task_id r) as [t|]; [|done]. intros ?%bool_decide_eq_true. eauto. Qed.

Lemma selected_row r :
  r ∈ filter (λ r, p r = true) (ledger d) →
  r ∈ ledger d ∧ kind r = k ∧ row_checks r = true ∧ ∃ t, task_id r = Some t ∧ tasks d !! t = Some J.
Proof.
  intros [P H]%list_elem_of_filter. destruct (Hp r H P) as [O K].
  destruct Hok as [_ F]. rewrite Forall_forall in F. split_and!; eauto. by apply of_job_task.
Qed.

Lemma reversed_keys_NoDup : NoDup (reversed_ledger ≫= index_keys).
Proof.
  unfold reversed_ledger. rewrite bind_app. destruct Hok as [N _].
  assert (∀ l, (∀ r, r ∈ l → is_Some (task_id r)) →
    (map f l) ≫= index_keys = map (λ r, KTaskKind (default 0%N (task_id r)) k') l) as E.
  { induction l as [|r l IH]; intros H; [done|]. simpl. rewrite (rev_keys _ _ _ (Hf r)).
    destruct (H r) as [t Ht]; [left|]. rewrite Ht. simpl. f_equal. apply IH. intros; apply H; by right. }
  rewrite E by (intros r (_ & _ & _ & t & T & _)%selected_row; eauto).
  apply NoDup_app. split_and!; [done|..].
  - intros key Hk (r & -> & (Hr & _ & _ & t & T & TJ)%selected_row)%list_elem_of_fmap.
    apply list_elem_of_bind in Hk as (s & Hk & Hs).
    rewrite T in Hk. simpl in Hk.
    assert (task_id s = Some t ∧ kind s = k') as [Ts Ks].
    { unfold index_keys in Hk. rewrite !elem_of_app in Hk.
      destruct (task_id s), (execution_contract_id s), (ref_family s), (payout_ref s); set_solver. }
    apply (Hfresh s Hs); [|done]. unfold of_job. rewrite Ts. by apply bool_decide_eq_true.
  - apply (NoDup_selected p _ (λ r, KTaskKind (default 0%N (task_id r)) k)); [done|..].
    + intros r Hr P. destruct (Hp r Hr P) as [(t & T & _)%of_job_task <-].
      unfold index_keys. rewrite T. left.
    + by intros r s [= ->].
Qed.

Lemma reversed_ok : ledger_ok reversed_ledger.
Proof.
  split; [apply reversed_keys_NoDup|]. apply Forall_app. split; [apply Hok|].
  apply Forall_forall. intros s (r & -> & (_ & _ & C & _)%selected_row)%list_elem_of_fmap.
  by apply (rev_checks _ _ _ (Hf r)).
Qed.

Lemma reversal_succeeds target :
  exec_insert target d (map f (filter (λ r, p r = true) (ledger d))) =
    Ok (Z.of_nat (length (map f (filter (λ r, p r = true) (ledger d)))), with_ledger d reversed_ledger).
Proof.
  unfold exec_insert. rewrite insert_rows_fresh; [done|..|apply reversed_keys_NoDup].
  apply Forall_forall. intros s (r & -> & (_ & _ & C & _)%selected_row)%list_elem_of_fmap.
  by apply (rev_checks _ _ _ (Hf r)).
Qed.

Lemma reversal_net t :
  tasks d !! t = Some J →
  (∀ r, r ∈ ledger d → task_id r = Some t → kind r = k → p r = false → amount_micros r = 0) →
  task_net [k; k'] reversed_ledger t = 0.
Proof.
  intros TJ Hz. unfold task_net, reversed_ledger. rewrite sum_micros_app.
  set (q := λ r, bool_decide (task_id r = Some t) && bool_decide (kind r = k)).
  rewrite (sum_micros_ext _ q (ledger d)).
  - rewrite (sum_reversal p q); [lia|..].
    + intros r Hr P. split; [apply (rev_amount _ _ _ (Hf r))|].
      destruct (Hp r Hr P) as [_ K]. unfold q, one_of.
      rewrite (rev_task _ _ _ (Hf r)), (rev_kind _ _ _ (Hf r)), K. f_equal.
      rewrite !bool_decide_true; [done|done|right; left].
    + intros r Hr P Q. unfold q in Q. reflect_bools. by apply Hz.
  - intros r Hr. unfold q, one_of. case_bool_decide as T; simpl; [|done].
    apply bool_decide_ext. assert (kind r ≠ k').
    { apply Hfresh; [done|]. unfold of_job. rewrite T. by apply bool_decide_eq_true. }
    rewrite elem_of_cons, list_elem_of_singleton. tauto.
Qed.

Lemma reversal_total :
  (∀ r, r ∈ ledger d → of_job d J r = true → kind r = k → p r = false → amount_micros r = 0) →
  sum_micros (λ r, of_job d J r && bool_decide (kind r = k')) reversed_ledger =
    - sum_micros (λ r, of_job d J r && bool_decide (kind r = k)) (ledger d).
Proof.
  intros Hz. unfold reversed_ledger. rewrite sum_micros_app, sum_micros_none.
  - apply sum_reversal.
    + intros r Hr P. split; [apply (rev_amount _ _ _ (Hf r))|]. destruct (Hp r Hr P) as [O K].
      unfold of_job in O |- *. rewrite (rev_task _ _ _ (Hf r)), (rev_kind _ _ _ (Hf r)), O, K, !bool_decide_true; done.
    + intros r Hr P Q. reflect_bools. by apply Hz.
  - intros r Hr. destruct (of_job d J r) eqn:O; [|done]. by rewrite bool_decide_false by auto.
Qed.
End Reversal.

(** The rows of a job carry its currency and the signs settlement gives them, and
    none is of a [pending] kind. *)
Definition job_rows (d : db) (J : UUID) (cur : string) (pending : list string) (l : list row) : Prop :=
  ∀ r, r ∈ l → of_job d J r = true →
    row_currency r = cur ∧ (kind r ∉ pending) ∧
    (kind r = KindBuyerCharge → amount_micros r ≤ 0 ∧ buyer_id r ≠ None) ∧
    (kind r = KindSupplierCredit → 0 ≤ amount_micros r) ∧
    (kind r = KindPlatformTake → 0 ≤ amount_micros r).

(** A job whose dispute has not been settled yet. *)
Record disputable (d : db) (J : UUID) (j : job) : Prop := {
  disp_job : jobs d !! J = Some j;
  disp_currency : is_ok (ParseCurrency (job_currency j)) = true;
  disp_sha : sha_check (nullif (default "" (job_pricing_sha j))) = true;
  disp_ok : ledger_ok (ledger d);
  disp_rows : job_rows d J (job_currency j) [KindClawback; KindBuyerRefund; KindPlatformRefund] (ledger d)
}.

Lemma job_rows_step d J cur p k' f pending :
  job_rows d J cur (k' :: pending) (ledger d) →
  (∀ r, reverses k' f r) → k' ∉ pending ++ [KindBuyerCharge; KindSupplierCredit; KindPlatformTake] →
  (∀ r, r ∈ ledger d → p r = true → of_job d J r = true) →
  job_rows d J cur pending (reversed_ledger d p f).
Proof.
  rewrite not_elem_of_app, !not_elem_of_cons.
  intros Hl Hf (Hk & ? & ? & ? & _) Hp r [Hr|(s & -> & [P Hs]%list_elem_of_filter)%list_elem_of_fmap]%elem_of_app O.
  - destruct (Hl r Hr O) as (? & [_ ?]%not_elem_of_cons & ?). done.
  - destruct (Hl s Hs (Hp s Hs P)) as (? & _). rewrite (rev_currency _ _ _ (Hf s)), (rev_kind _ _ _ (Hf s)).
    done.
Qed.

(** Rows of other kinds do not move a task's balance. *)
Lemma task_net_app_other ks l rs t :
  (∀ r, r ∈ rs → kind r ∉ ks ∨ task_id r = None) → task_net ks (l ++ rs) t = task_net ks l t.
Proof.
  intros H. unfold task_net. rewrite sum_micros_app. rewrite (sum_micros_none _ rs); [lia|].
  intros r Hr. unfold one_of. destruct (H r Hr) as [K|T].
  - by rewrite (bool_decide_false (kind r ∈ ks)), andb_false_r.
  - by rewrite T, bool_decide_false.
Qed.

Lemma remove_dups_constant (c : string) l : (∀ x, x ∈ l → x = c) → (length (remove_dups l) ≤ 1)%nat.
Proof.
  intros H. pose proof (NoDup_remove_dups l) as N.
  assert (∀ x, x ∈ remove_dups l → x = c) as H' by (intros; by apply H, elem_of_remove_dups).
  destruct (remove_dups l) as [|x [|y rest]]; simpl; [lia..|]. exfalso.
  apply NoDup_cons in N as [N _]. apply N. rewrite (H' x), (H' y) by set_solver. left.
Qed.

Section DisputeSteps.
Context (st : settlement) (d : db) (J D : UUID) (j : job) (Hd : disputable d J j).

Let sha : string := default "" (job_pricing_sha j).
Let cur : string := job_currency j.

Let p1 (r : row) : bool := of_job d J r && bool_decide (kind r = KindSupplierCredit) && (0 <? amount_micros r).
Let p2 (r : row) : bool := of_job d J r && bool_decide (kind r = KindBuyerCharge) && (amount_micros r <? 0)
  && bool_decide (buyer_id r ≠ None) && bool_decide (row_currency r = cur).
Let p3 (r : row) : bool := of_job d J r && bool_decide (kind r = KindPlatformTake) && (0 <? amount_micros r)
  && bool_decide (row_currency r = cur).

Let l1 : list row := reversed_ledger d p1 (clawback_of sha).
Let d1 : db := with_ledger d l1.
Let l2 : list row := reversed_ledger d1 p2 (buyer_refund_of D sha).
Let d2 : db := with_ledger d l2.
Let l3 : list row := reversed_ledger d2 p3 (platform_refund_of D sha).
Let d3 : db := with_ledger d l3.

Lemma clawback_reverses r : reverses KindClawback (clawback_of sha) r.
Proof. destruct Hd. by apply reverses_row. Qed.

Lemma buyer_refund_reverses r : reverses KindBuyerRefund (buyer_refund_of D sha) r.
Proof. destruct Hd. by apply reverses_row. Qed.

Lemma platform_refund_reverses r : reverses KindPlatformRefund (platform_refund_of D sha) r.
Proof. destruct Hd. by apply reverses_row. Qed.

Let jr1 : job_rows d J cur [KindBuyerRefund; KindPlatformRefund] l1.
Proof.
  apply (job_rows_step d J cur p1 KindClawback); [apply Hd|apply clawback_reverses|by apply (bool_decide_unpack _)|].
  intros r _ P. unfold p1 in P. by reflect_bools.
Qed.

Let jr2 : job_rows d J cur [KindPlatformRefund] l2.
Proof.
  apply (job_rows_step d1 J cur p2 KindBuyerRefund); [apply jr1|apply buyer_refund_reverses|by apply (bool_decide_unpack _)|].
  intros r _ P. unfold p2 in P. by reflect_bools.
Qed.

Let jr3 : job_rows d J cur [] l3.
Proof.
  apply (job_rows_step d2 J cur p3 KindPlatformRefund); [apply jr2|apply platform_refund_reverses|by apply (bool_decide_unpack _)|].
  intros r _ P. unfold p3 in P. by reflect_bools.
Qed.
(** The hypotheses of the three steps. *)
Let sel1 r : r ∈ ledger d → p1 r = true → of_job d J r = true ∧ kind r = KindSupplierCredit.
Proof. intros _ P. unfold p1 in P. by reflect_bools. Qed.

Let sel2 r : r ∈ ledger d1 → p2 r = true → of_job d1 J r = true ∧ kind r = KindBuyerCharge.
Proof. intros _ P. unfold p2 in P. by reflect_bools. Qed.

Let sel3 r : r ∈ ledger d2 → p3 r = true → of_job d2 J r = true ∧ kind r = KindPlatformTake.
Proof. intros _ P. unfold p3 in P. by reflect_bools. Qed.

Lemma job_rows_pending pending l k' r :
  job_rows d J cur (k' :: pending) l → r ∈ l → of_job d J r = true → kind r ≠ k'.
Proof. intros H Hr O. by destruct (H r Hr O) as (_ & [? _]%not_elem_of_cons & _). Qed.

Let ok1 : ledger_ok l1.
Proof.
  apply (reversed_ok d J p1 KindSupplierCredit KindClawback); [apply Hd|done|done|apply clawback_reverses|].
  intros r. exact (job_rows_pending _ _ _ r (disp_rows _ _ _ Hd)).
Qed.

Let ok2 : ledger_ok l2.
Proof.
  apply (reversed_ok d1 J p2 KindBuyerCharge KindBuyerRefund); [done|done|done|apply buyer_refund_reverses|].
  intros r. exact (job_rows_pending _ _ _ r jr1).
Qed.

Let ok3 : ledger_ok l3.
Proof.
  apply (reversed_ok d2 J p3 KindPlatformTake KindPlatformRefund); [done|done|done|apply platform_refund_reverses|].
  intros r. exact (job_rows_pending _ _ _ r jr2).
Qed.

(** What the selections leave out is worth nothing. *)
Let zero1 r : r ∈ ledger d → of_job d J r = true → kind r = KindSupplierCredit → p1 r = false → amount_micros r = 0.
Proof.
  intros Hr O K P. destruct (disp_rows _ _ _ Hd r Hr O) as (_ & _ & _ & S & _). specialize (S K).
  unfold p1 in P. rewrite O, K, bool_decide_true in P by done. simpl in P. reflect_bools. lia.
Qed.

Let zero2 r : r ∈ ledger d1 → of_job d1 J r = true → kind r = KindBuyerCharge → p2 r = false → amount_micros r = 0.
Proof.
  intros Hr O K P. destruct (jr1 r Hr O) as (C & _ & S & _). destruct (S K) as [? B].
  unfold p2 in P. change (of_job d J r = true) in O. rewrite O, K, C, !bool_decide_true, !andb_true_r in P by done.
  simpl in P. reflect_bools. lia.
Qed.

Let zero3 r : r ∈ ledger d2 → of_job d2 J r = true → kind r = KindPlatformTake → p3 r = false → amount_micros r = 0.
Proof.
  intros Hr O K P. destruct (jr2 r Hr O) as (C & _ & _ & _ & S). specialize (S K).
  unfold p3 in P. change (of_job d J r = true) in O. rewrite O, K, C, !bool_decide_true, !andb_true_r in P by done.
  simpl in P. reflect_bools. lia.
Qed.

Let slaRef : string := "dispute-sla-refund-" +:+ uuid_String D.
Let slas : list row := map (sla_refund_of slaRef sha) (sla_charges d3 J slaRef cur).
Let l4 : list row := l3 ++ slas.
Let d4 : db := with_ledger d l4.

Let slas_elem r : r ∈ slas → kind r = KindBuyerRefund ∧ task_id r = None ∧ index_keys r = [] ∧ row_checks r = true.
Proof.
  intros (s & -> & Hs)%list_elem_of_fmap. split_and!; [done..|].
  assert (s ∈ l3) as Hs3.
  { unfold sla_charges in Hs. case_match; [by apply not_elem_of_nil in Hs|].
    by apply list_elem_of_filter in Hs as [_ ?]. }
  destruct ok3 as [_ F]. rewrite Forall_forall in F. specialize (F s Hs3). pose proof (disp_sha _ _ _ Hd) as S.
  unfold row_checks in F |- *. fold sha in S. cbn [kind amount_micros row_currency pricing_decision_sha256 sla_refund_of].
  rewrite S. reflect_bools. rewrite !(proj2 (Z.leb_le _ _)) by lia. done.
Qed.

Lemma insert_slas : exec_insert no_target d3 slas = Ok (Z.of_nat (length slas), d4).
Proof.
  unfold exec_insert. rewrite insert_rows_fresh; [done|..].
  - apply Forall_forall. intros r Hr. by apply slas_elem.
  - rewrite bind_app. assert (slas ≫= index_keys = []) as ->; [|rewrite app_nil_r; apply ok3].
    assert (∀ r, r ∈ slas → index_keys r = []) as H by (intros r Hr; by apply slas_elem).
    clear -H. induction slas as [|r l IH]; [done|]. simpl. rewrite H by left. apply IH. intros; apply H; by right.
Qed.

Lemma dispute_nets t :
  tasks d !! t = Some J →
  task_net [KindSupplierCredit; KindClawback] l4 t = 0 ∧
  task_net [KindBuyerCharge; KindBuyerRefund] l4 t = 0 ∧
  task_net [KindPlatformTake; KindPlatformRefund] l4 t = 0.
Proof.
  intros TJ.
  assert (∀ ks, task_net ks l4 t = task_net ks l3 t) as E4.
  { intros. apply task_net_app_other. intros r Hr. right. by apply slas_elem. }
  assert (∀ ks, KindPlatformRefund ∉ ks → task_net ks l3 t = task_net ks l2 t) as E3.
  { intros. apply task_net_app_other. by intros r (s & -> & _)%list_elem_of_fmap; left. }
  assert (∀ ks, KindBuyerRefund ∉ ks → task_net ks l2 t = task_net ks l1 t) as E2.
  { intros. apply task_net_app_other. by intros r (s & -> & _)%list_elem_of_fmap; left. }
  assert (∀ r, task_id r = Some t → of_job d J r = true) as O.
  { intros r T. unfold of_job. rewrite T. by apply bool_decide_eq_true. }
  split_and!; rewrite E4.
  - rewrite E3, E2 by by apply (bool_decide_unpack _).
    apply (reversal_net d J p1 KindSupplierCredit KindClawback); eauto using clawback_reverses.
    intros r. exact (job_rows_pending _ _ _ r (disp_rows _ _ _ Hd)).
  - rewrite E3 by by apply (bool_decide_unpack _).
    apply (reversal_net d1 J p2 KindBuyerCharge KindBuyerRefund); eauto using buyer_refund_reverses.
    intros r. exact (job_rows_pending _ _ _ r jr1).
  - apply (reversal_net d2 J p3 KindPlatformTake KindPlatformRefund); eauto using platform_refund_reverses.
    intros r. exact (job_rows_pending _ _ _ r jr2).
Qed.
Lemma l4_currency r : r ∈ l4 → of_job d J r = true → row_currency r = cur.
Proof.
  intros [Hr|Hr]%elem_of_app O; [by destruct (jr3 r Hr O)|].
  apply slas_elem in Hr as (_ & T & _). unfold of_job in O. by rewrite T in O.
Qed.

Lemma checks_pass : overRefunded d4 J = false ∧ (1 <? mixedCurrencies d4 J)%nat = false.
Proof.
  split.
  - apply not_true_is_false. unfold overRefunded. intros (r & Hr & O)%existsb_exists.
    destruct (task_id r) as [t|] eqn:T; [|done]. reflect_bools.
    destruct (dispute_nets t) as (_ & N & _).
    { by destruct (of_job_task d J r) as (? & ? & ?); simplify_eq. }
    change (ledger d4) with l4 in *. lia.
  - apply Nat.ltb_ge. apply (remove_dups_constant cur).
    intros c (r & -> & [P Hr]%list_elem_of_filter)%list_elem_of_fmap. reflect_bools. by apply l4_currency.
Qed.

(** Sums over the job of a kind that later steps do not add. *)
Lemma sum_kind_app_other k l rs :
  (∀ r, r ∈ rs → kind r ≠ k ∨ task_id r = None) →
  sum_micros (λ r, of_job d J r && bool_decide (kind r = k)) (l ++ rs) =
  sum_micros (λ r, of_job d J r && bool_decide (kind r = k)) l.
Proof.
  intros H. rewrite sum_micros_app, (sum_micros_none _ rs); [lia|]. intros r Hr.
  destruct (H r Hr) as [K|T]; [by rewrite (bool_decide_false (kind r = k)), andb_false_r|].
  unfold of_job. by rewrite T.
Qed.

Ltac other_kind := rewrite sum_kind_app_other by
  first [intros r (s & -> & _)%list_elem_of_fmap; by left
        |intros r Hr; right; by apply slas_elem].

Lemma refund_totals :
  sum_micros (λ r, of_job d J r && bool_decide (kind r = KindBuyerRefund)) l4 =
    - sum_micros (λ r, of_job d J r && bool_decide (kind r = KindBuyerCharge)) (ledger d) ∧
  - sum_micros (λ r, of_job d J r && bool_decide (kind r = KindPlatformRefund)) l4 =
    sum_micros (λ r, of_job d J r && bool_decide (kind r = KindPlatformTake)) (ledger d).
Proof.
  split.
  - unfold l4. other_kind. unfold l3, reversed_ledger. other_kind. etrans.
    + apply (reversal_total d1 J p2 KindBuyerCharge KindBuyerRefund (buyer_refund_of D sha));
        eauto using buyer_refund_reverses. intros r. exact (job_rows_pending _ _ _ r jr1).
    + f_equal. change (ledger d1) with l1. unfold l1, reversed_ledger. by other_kind.
  - apply Z.opp_inj. rewrite Z.opp_involutive. unfold l4. other_kind. etrans.
    + apply (reversal_total d2 J p3 KindPlatformTake KindPlatformRefund (platform_refund_of D sha));
        eauto using platform_refund_reverses. intros r. exact (job_rows_pending _ _ _ r jr2).
    + f_equal. change (ledger d2) with l2. unfold l2, reversed_ledger. other_kind.
      change (ledger d1) with l1. unfold l1, reversed_ledger. by other_kind.
Qed.

Lemma clawbacks_run : ∃ n, insertJobDisputeClawbacksTx d J = Ok (n, d1).
Proof.
  unfold insertJobDisputeClawbacksTx, loadJobPricingDecisionSHA. rewrite (disp_job _ _ _ Hd). simpl.
  eexists. apply (reversal_succeeds d J p1 KindSupplierCredit KindClawback);
    [apply Hd|done|done|apply clawback_reverses|].
  intros r. exact (job_rows_pending _ _ _ r (disp_rows _ _ _ Hd)).
Qed.

Lemma refunds_run : ∃ res, insertJobDisputeBuyerRefundsTx st d1 J D = Ok (res, d4) ∧
  refund_Currency res = cur ∧
  BuyerRefundMicros res - SLARefundMicros res =
    - sum_micros (λ r, of_job d J r && bool_decide (kind r = KindBuyerCharge)) (ledger d) ∧
  PlatformRefundMicros res =
    sum_micros (λ r, of_job d J r && bool_decide (kind r = KindPlatformTake)) (ledger d).
Proof.
  unfold insertJobDisputeBuyerRefundsTx, currency_of_job, loadJobPricingDecisionSHA.
  change (jobs d1) with (jobs d). rewrite (disp_job _ _ _ Hd). cbn [mbind res_bind].
  rewrite (disp_currency _ _ _ Hd). rewrite andb_false_r.
  change (default "" (job_pricing_sha j)) with sha. change (job_currency j) with cur.
  assert (exec_insert task_kind_target d1 (map (buyer_refund_of D sha) (task_charges d1 J cur)) =
    Ok (Z.of_nat (length (map (buyer_refund_of D sha) (task_charges d1 J cur))), d2)) as ->.
  { apply (reversal_succeeds d1 J p2 KindBuyerCharge KindBuyerRefund); [done|done|done|apply buyer_refund_reverses|].
    intros r. exact (job_rows_pending _ _ _ r jr1). }
  cbn [mbind res_bind].
  assert (exec_insert task_kind_target d2 (map (platform_refund_of D sha) (task_takes d2 J cur)) =
    Ok (Z.of_nat (length (map (platform_refund_of D sha) (task_takes d2 J cur))), d3)) as ->.
  { apply (reversal_succeeds d2 J p3 KindPlatformTake KindPlatformRefund); [done|done|done|apply platform_refund_reverses|].
    intros r. exact (job_rows_pending _ _ _ r jr2). }
  cbn [mbind res_bind]. fold slaRef. pose proof insert_slas as E. unfold slas in E. rewrite E.
  cbn [mbind res_bind]. destruct checks_pass as [-> ->].
  eexists; split; [done|]. cbn [refund_Currency BuyerRefundMicros SLARefundMicros PlatformRefundMicros].
  destruct refund_totals as [T1 T2]. change (ledger d4) with l4. change (of_job d4 J) with (of_job d J).
  split_and!; [done|lia|done].
Qed.
End DisputeSteps.

(** C9: resolving a dispute for the buyer is an exact, complete reversal.  On a job whose
    rows are in its currency with the signs settlement gives them and which is
    not yet reversed, both transactions succeed; afterwards the credits and
    clawbacks, the charges and refunds, and the platform's takes and refunds
    cancel to zero on every task of the job; and the totals reported are the
    charges and takes of the job. *)
Theorem dispute_reverses st d J D j :
  disputable d J j →
  ∃ n d1 res d2, insertJobDisputeClawbacksTx d J = Ok (n, d1) ∧
    insertJobDisputeBuyerRefundsTx st d1 J D = Ok (res, d2) ∧
    (∀ t, tasks d !! t = Some J →
       task_net [KindSupplierCredit; KindClawback] (ledger d2) t = 0 ∧
       task_net [KindBuyerCharge; KindBuyerRefund] (ledger d2) t = 0 ∧
       task_net [KindPlatformTake; KindPlatformRefund] (ledger d2) t = 0) ∧
    BuyerRefundMicros res - SLARefundMicros res =
      - sum_micros (λ r, of_job d J r && bool_decide (kind r = KindBuyerCharge)) (ledger d) ∧
    PlatformRefundMicros res =
      sum_micros (λ r, of_job d J r && bool_decide (kind r = KindPlatformTake)) (ledger d).
Proof.
  intros Hd. destruct (clawbacks_run d J j Hd) as [n E1].
  destruct (refunds_run st d J D j Hd) as (res & E2 & _ & B & P).
  eexists _, _, _, _. split_and!; [exact E1|exact E2| |exact B|exact P].
  intros t T. exact (dispute_nets d J D j Hd t T).
Qed.

(** One task charged 1.00, paid 0.80 to the supplier, 0.20 kept, and an SLA premium of 0.05. *)
Definition dispute_example : db :=
  mkDb [mkRow KindBuyerCharge None (Some 9%N) (Some 1%N) None (-1000000) "usd" "released" None None None None None;
        mkRow KindSupplierCredit (Some 5%N) None (Some 1%N) None 800000 "usd" "held" None None None None None;
        mkRow KindPlatformTake None None (Some 1%N) None 200000 "usd" "released" None None None None None;
        mkRow KindBuyerCharge None (Some 9%N) None None (-50000) "usd" "released" None
          (Some (slaPremiumChargeRef 3%N)) None None None]
    {[ 1%N := 3%N ]} {[ 3%N := mkJob "usd" None 9%N "complete" false 0 ]} ∅.

Lemma dispute_reverses_witness :
  disputable dispute_example 3%N (mkJob "usd" None 9%N "complete" false 0) ∧
  ∃ n d1 res d2, insertJobDisputeClawbacksTx dispute_example 3%N = Ok (n, d1) ∧
    insertJobDisputeBuyerRefundsTx settlement_unset d1 3%N 8%N = Ok (res, d2) ∧
    task_net [KindBuyerCharge; KindBuyerRefund] (ledger d2) 1%N = 0.
Proof.
  assert (disputable dispute_example 3%N (mkJob "usd" None 9%N "complete" false 0)) as H.
  { split; [reflexivity|reflexivity|reflexivity| |].
    - split; [apply (bool_decide_unpack _); vm_compute; exact I|].
      repeat (apply Forall_cons; split; [vm_compute; reflexivity|]). apply Forall_nil; exact I.
    - intros r Hr O. unfold dispute_example in Hr. cbn [ledger] in Hr.
      repeat (apply elem_of_cons in Hr as [->|Hr];
        [split_and!; try (apply (bool_decide_unpack _); vm_compute; exact I);
           vm_compute; intuition discriminate|]).
      by apply not_elem_of_nil in Hr. }
  split; [exact H|].
  destruct (dispute_reverses settlement_unset dispute_example 3%N 8%N _ H) as (n & d1 & res & d2 & E1 & E2 & N & _).
  exists n, d1, res, d2. split; [exact E1|]. split; [exact E2|]. apply N. reflexivity.
Defined.

(** ** Retrying a dispute resolution *)

Lemma insert_rows_elem target rs : ∀ l n l',
  insert_rows target l rs = Ok (n, l') → l `prefix_of` l' ∧ ∀ r, r ∈ l' → r ∈ l ∨ r ∈ rs.
Proof.
  induction rs as [|r rs IH]; simpl; intros l n l' H; inv_ok; [split; [done|by left]|].
  destruct x as [m l1]. inv_ok. destruct x as [k l2]. simplify_eq.
  match goal with H : insert_rows _ _ _ = Ok _ |- _ => apply IH in H as [P2 E2] end.
  match goal with H : insert_one _ _ _ = Ok _ |- _ => apply insert_one_Ok in H as [[_ ->]|(_ & -> & _)] end.
  - split; [done|]. intros s [?|?]%E2; [by left|right; by right].
  - split; [etrans; [|exact P2]; by eexists|].
    intros s [[?| ->%list_elem_of_singleton]%elem_of_app|?]%E2; [by left|right; left|right; by right].
Qed.

Lemma keys_prefix l l' key : l `prefix_of` l' → key ∈ l ≫= index_keys → key ∈ l' ≫= index_keys.
Proof. intros [k ->]. rewrite bind_app, elem_of_app. by left. Qed.

Lemma task_key r t : task_id r = Some t → KTaskKind t (kind r) ∈ index_keys r.
Proof. intros T. unfold index_keys. rewrite T. left. Qed.

Lemma task_key_unique r t key :
  task_id r = Some t → key ∈ index_keys r → task_kind_target key = true → key = KTaskKind t (kind r).
Proof.
  intros T Hk Ht. unfold index_keys in Hk. rewrite T, !elem_of_app, list_elem_of_singleton in Hk.
  destruct Hk as [?|[Hk|Hk]]; [done|..].
  - destruct (execution_contract_id r); [|by apply not_elem_of_nil in Hk].
    apply list_elem_of_singleton in Hk. by subst.
  - destruct (ref_family r), (payout_ref r); try by apply not_elem_of_nil in Hk.
    apply list_elem_of_singleton in Hk. by subst.
Qed.

(** After a statement with the task/kind target, each of its rows is checked and
    its task/kind key is taken. *)
Lemma insert_rows_taken rs : ∀ l n l',
  insert_rows task_kind_target l rs = Ok (n, l') →
  ∀ r t, r ∈ rs → task_id r = Some t → row_checks r = true ∧ collides (KTaskKind t (kind r)) l' = true.
Proof.
  induction rs as [|r rs IH]; simpl; intros l n l' H s t Hs T; [by apply not_elem_of_nil in Hs|].
  inv_ok. destruct x as [m l1]. inv_ok. destruct x as [k l2]. simplify_eq.
  apply elem_of_cons in Hs as [->|Hs]; [|by eapply IH].
  match goal with H : insert_rows _ _ _ = Ok _ |- _ => apply insert_rows_elem in H as [P _] end.
  rewrite collides_spec.
  match goal with H : insert_one _ _ _ = Ok _ |- _ => rename H into E end. unfold insert_one in E. inv_ok.
  split; [done|]. eapply keys_prefix; [exact P|]. case_match eqn:X; inv_ok.
  - apply existsb_exists in X as (key & Hk%list_elem_of_In & [Ht Hc]%andb_true_iff).
    rewrite (task_key_unique r t key) in Hc by done. by apply collides_spec.
  - rewrite bind_app, elem_of_app. right. simpl. rewrite app_nil_r. by apply task_key.
Qed.

Lemma insert_rows_skip l rs :
  (∀ r, r ∈ rs → row_checks r = true ∧ ∃ t, task_id r = Some t ∧ collides (KTaskKind t (kind r)) l = true) →
  insert_rows task_kind_target l rs = Ok (0, l).
Proof.
  induction rs as [|r rs IH]; simpl; intros H; [done|].
  destruct (H r) as (C & t & T & K); [left|]. unfold insert_one. rewrite C. simpl.
  assert (existsb (λ key, task_kind_target key && collides key l) (index_keys r) = true) as ->.
  { apply existsb_exists. exists (KTaskKind t (kind r)). rewrite <-list_elem_of_In. by split; [apply task_key|]. }
  simpl. rewrite IH; [done|]. intros; apply H; by right.
Qed.

Lemma exec_insert_Ok target d rs n d' :
  exec_insert target d rs = Ok (n, d') →
  ∃ l, insert_rows target (ledger d) rs = Ok (n, l) ∧ d' = with_ledger d l.
Proof. unfold exec_insert. intros. inv_ok. destruct x as [m l]. simplify_eq. eauto. Qed.

Lemma exec_again d l rs :
  insert_rows task_kind_target l rs = Ok (0, l) →
  exec_insert task_kind_target (with_ledger d l) rs = Ok (0, with_ledger d l).
Proof. intros E. unfold exec_insert. cbn [ledger with_ledger]. by rewrite E. Qed.

(** A reversal run on a later table finds every key taken. *)
Lemma reversal_again (p : row → bool) f l n l' l'' :
  insert_rows task_kind_target l (map f (filter (λ r, p r = true) l)) = Ok (n, l') → l' `prefix_of` l'' →
  (∀ r, r ∈ l'' → p r = true → r ∈ l ∧ ∃ t, task_id (f r) = Some t) →
  insert_rows task_kind_target l'' (map f (filter (λ r, p r = true) l'')) = Ok (0, l'').
Proof.
  intros E P H. apply insert_rows_skip. intros r (s & -> & [Ps Hs]%list_elem_of_filter)%list_elem_of_fmap.
  destruct (H s Hs Ps) as [Hl [t T]].
  destruct (insert_rows_taken _ _ _ _ E (f s) t) as [C K]; [|done|].
  { apply list_elem_of_fmap. exists s. split; [done|]. by apply list_elem_of_filter. }
  split; [done|]. exists t. split; [done|]. rewrite collides_spec in K |- *. by eapply keys_prefix.
Qed.

Lemma map_kind_elem k (f : row → row) rs r :
  (∀ s, kind (f s) = k) → r ∈ map f rs → kind r = k.
Proof. by intros H (s & -> & _)%list_elem_of_fmap. Qed.

(** Nothing is left to return once a refund with this reference exists. *)
Lemma sla_charges_again d J slaRef sha cur n l :
  insert_rows no_target (ledger d) (map (sla_refund_of slaRef sha) (sla_charges d J slaRef cur)) = Ok (n, l) →
  sla_charges (with_ledger d l) J slaRef cur = [].
Proof.
  intros E. unfold sla_charges. cbn [ledger with_ledger]. case_match eqn:X; [done|].
  assert (∀ r, r ∈ l → kind r = KindBuyerRefund → payout_ref r ≠ Some slaRef) as N.
  { intros r Hr K R. apply not_true_iff_false in X. apply X. apply existsb_exists. exists r.
    rewrite <-list_elem_of_In, K, R, !bool_decide_true; done. }
  assert (sla_charges d J slaRef cur = []) as Z.
  { destruct (sla_charges d J slaRef cur) as [|s rest] eqn:S; [done|]. simpl in E. inv_ok. destruct x as [m l1].
    inv_ok. destruct x as [k l2]. simplify_eq.
    match goal with H : insert_rows _ _ _ = Ok _ |- _ => apply insert_rows_elem in H as [P _] end.
    match goal with H : insert_one _ _ _ = Ok _ |- _ => rename H into E1 end.
    unfold insert_one in E1. inv_ok. exfalso. apply (N (sla_refund_of slaRef sha s)); [|done..].
    destruct P as [k' ->]. apply elem_of_app. left. apply elem_of_app. right. left. }
  rewrite Z in E. simpl in E. simplify_eq. unfold sla_charges in Z.
  rewrite X in Z. exact Z.
Qed.

(** A refund that is retried refunds nothing twice: running the transaction again for
    the same dispute succeeds, writes no row, and reports the same totals with no
    task refunded this time. *)
Theorem refunds_retry st d J D res d2 :
  insertJobDisputeBuyerRefundsTx st d J D = Ok (res, d2) →
  insertJobDisputeBuyerRefundsTx st d2 J D =
    Ok (mkRefundResult (BuyerRefundMicros res) (PlatformRefundMicros res) 0 (SLARefundMicros res)
          (refund_Currency res), d2).
Proof.
  intros H. unfold insertJobDisputeBuyerRefundsTx in H. apply bind_Ok in H as (cur & Hc & H).
  apply refuse_Ok in H as [G H]. apply bind_Ok in H as (sha & Hs & H).
  apply bind_Ok in H as ([n1 d1] & E1 & H). apply bind_Ok in H as ([n2 d2'] & E2 & H).
  apply bind_Ok in H as ([n3 d3] & E3 & H). cbv zeta in H.
  apply refuse_Ok in H as [O H]. apply refuse_Ok in H as [M H]. simplify_eq H. intros <- <-. clear H.
  apply exec_insert_Ok in E1 as (l1 & E1 & ->). apply exec_insert_Ok in E2 as (l2 & E2 & ->).
  apply exec_insert_Ok in E3 as (l3 & E3 & ->). cbn [ledger with_ledger] in E2, E3.
  change (with_ledger (with_ledger (with_ledger d l1) l2) l3) with (with_ledger d l3) in *.
  destruct (insert_rows_elem _ _ _ _ _ E1) as [P1 K1]. destruct (insert_rows_elem _ _ _ _ _ E2) as [P2 K2].
  destruct (insert_rows_elem _ _ _ _ _ E3) as [P3 K3].
  assert (∀ r, r ∈ l3 → kind r ≠ KindBuyerRefund → kind r ≠ KindPlatformRefund → r ∈ ledger d ∧ r ∈ l1) as Old.
  { intros r Hr N1 N2. apply K3 in Hr as [Hr|Hr]; [|by apply (map_kind_elem KindBuyerRefund) in Hr].
    apply K2 in Hr as [Hr|Hr]; [|by apply (map_kind_elem KindPlatformRefund) in Hr]. split; [|done].
    apply K1 in Hr as [Hr|Hr]; [done|by apply (map_kind_elem KindBuyerRefund) in Hr]. }
  unfold insertJobDisputeBuyerRefundsTx.
  change (currency_of_job (with_ledger d l3) J) with (currency_of_job d J).
  change (loadJobPricingDecisionSHA (with_ledger d l3) J) with (loadJobPricingDecisionSHA d J).
  rewrite Hc. cbn [mbind res_bind]. rewrite G, Hs. cbn [mbind res_bind].
  rewrite (exec_again d l3 (map _ (task_charges _ _ _))).
  2: { apply (reversal_again _ _ _ _ _ l3 E1); [by trans l2|]. intros r Hr P. reflect_bools.
       split; [apply Old; [done|by match goal with K : kind r = _ |- _ => rewrite K end..]|].
       destruct (of_job_task d J r) as (t & T & _); eauto. }
  cbn [mbind res_bind]. rewrite (exec_again d l3 (map _ (task_takes _ _ _))).
  2: { apply (reversal_again _ _ _ _ _ l3 E2); [done|]. intros r Hr P. reflect_bools.
       split; [apply Old; [done|by match goal with K : kind r = _ |- _ => rewrite K end..]|].
       destruct (of_job_task d J r) as (t & T & _); eauto. }
  cbn [mbind res_bind].
  apply (sla_charges_again (with_ledger (with_ledger d l1) l2)) in E3.
  change (with_ledger (with_ledger (with_ledger d l1) l2) l3) with (with_ledger d l3) in E3.
  rewrite E3. cbn [map exec_insert insert_rows mbind res_bind]. unfold exec_insert.
  cbn [insert_rows mbind res_bind ledger with_ledger].
  change (with_ledger (with_ledger d l3) l3) with (with_ledger d l3). by rewrite O, M.
Qed.

Lemma refunds_retry_witness :
  ∃ res d2, insertJobDisputeBuyerRefundsTx settlement_unset dispute_example 3%N 8%N = Ok (res, d2) ∧
  insertJobDisputeBuyerRefundsTx settlement_unset d2 3%N 8%N =
    Ok (mkRefundResult (BuyerRefundMicros res) (PlatformRefundMicros res) 0 (SLARefundMicros res)
          (refund_Currency res), d2).
Proof.
  eexists _, _. split; [vm_compute; reflexivity|].
  apply (refunds_retry settlement_unset dispute_example 3%N 8%N). vm_compute. reflexivity.
Defined.
