(* ===== verification/MicroMoney.v ===== *)
(** * MicroMoney: ledger amounts as [float64] dollars

    Large parts of the control plane still carry ledger amounts as [float64] numbers of
    dollars and convert with [microsToUSD], [usdToMicros] and [roundUSD]
    ([ledger_write.go]).  This file shows, from the bit-level rounding of the division
    and the multiplication, that the conversions lose nothing in the range of the
    ledger. *)
From Stdlib Require Import SpecFloat.
From stdpp Require Import base numbers.
From S2P Require Import Prelude.
From S2P Require Import Float64.
From S2P Require Import FloatOrder.
From S2P Require Import LedgerWrite.
Local Open Scope Z_scope.

(** One million as a binary64, and what dividing and multiplying by it loses. *)
Definition million_mantissa : positive := 8589934592000000.
Lemma million_f64 : f64_of_Z microUSDPerUSD = S754_finite false million_mantissa (-33).
Proof. vm_compute. reflexivity. Qed.

(** The quotient is off by at most half of its last place. *)
Lemma div_million s m1 k :
  2 ^ 52 ≤ Z.pos m1 < 2 ^ 53 → - 971 ≤ k ≤ 52 →
  ∃ m u, SFdiv 53 1024 (S754_finite s m1 (- k)) (S754_finite false million_mantissa (-33)) = S754_finite s m (u - 20 - k) ∧
    2 ^ 52 ≤ Z.pos m < 2 ^ 53 ∧ 0 ≤ u ≤ 2 ∧ Z.abs (Z.pos m * 2 ^ u * Z.pos million_mantissa - Z.pos m1 * 2 ^ 53) ≤ Z.pos million_mantissa.
Proof.
  intros M K. unfold SFdiv, SFdiv_core_binary. simpl Zdigits2. rewrite (digits2_range m1 52) by lia.
  change (Z.pos (digits2_pos million_mantissa)) with 53. unfold fexp, emin.
  replace (Z.min _ _) with (- 20 - k) by lia. replace (- k - -33 - (- 20 - k)) with 53 by lia.
  rewrite Z.shiftl_mul_pow2 by lia. pose proof (Z_div_mod (Z.pos m1 * 2 ^ 53) (Z.pos million_mantissa) ltac:(done)) as D.
  destruct (Z.div_eucl _ _) as [q r]. destruct D as [D R]. rewrite xorb_false_r.
  assert (2 ^ 52 < q < 2 ^ 54) as Q by (unfold million_mantissa in *; lia).
  destruct q as [|q|]; [lia| |lia].
  assert (placed (Z.pos million_mantissa) (Z.pos m1 * 2 ^ 53) (shr_record_of_loc (Z.pos q) (new_location (Z.pos million_mantissa) r))) as P.
  { rewrite D. unfold new_location. change (Z.even (Z.pos million_mantissa)) with true. unfold new_location_even.
    destruct (Z.eqb_spec r 0) as [->|Nr]; simpl; [lia|].
    destruct (Z.compare_spec (2 * r) (Z.pos million_mantissa)); simpl; lia. }
  assert (∃ n, 0 ≤ n ≤ 1 ∧ 2 ^ (52 + n) ≤ Z.pos q < 2 ^ (53 + n)) as (n & N & Rn).
  { destruct (Z.lt_ge_cases (Z.pos q) (2 ^ 53)); [exists 0|exists 1]; simpl; lia. }
  destruct (round_normal s q (- 20 - k) _ _ _ n P) as (m & e & -> & Rm & E & A); [lia|done|lia|lia|].
  exists m, (e - (- 20 - k)). replace (e - (- 20 - k) - 20 - k) with e by lia. split_and!; [done|lia|lia|lia|lia|].
  assert (2 ^ n ≤ 2) by (assert (n = 0 ∨ n = 1) as [->| ->] by lia; simpl; lia).
  unfold million_mantissa in *. lia.
Qed.

(** So is the product. *)
Lemma mul_million s m e :
  2 ^ 52 ≤ Z.pos m < 2 ^ 53 → - 100 ≤ e ≤ 0 →
  ∃ m' v, SFmul 53 1024 (S754_finite s m e) (S754_finite false million_mantissa (-33)) = S754_finite s m' (e - 33 + v) ∧
    2 ^ 52 ≤ Z.pos m' < 2 ^ 53 ∧ 52 ≤ v ≤ 54 ∧ Z.abs (Z.pos m' * 2 ^ v - Z.pos m * Z.pos million_mantissa) ≤ 2 ^ 52.
Proof.
  intros M E. replace (e - 33) with (e + -33) by lia. apply mul_normal; [done|by unfold million_mantissa|lia].
Qed.

(** Scaling an amount up again and rounding gives its integer back. *)
Lemma micros_scale_back s a :
  0 < a < 2 ^ 49 →
  f64_round (f64_mul (microsToUSD (cond_Zopp s a)) (f64_of_Z microUSDPerUSD)) = f64_of_Z (cond_Zopp s a).
Proof.
  intros A. unfold microsToUSD, f64_div, f64_mul. rewrite million_f64. unfold f64_of_Z at 1.
  destruct (f64_of_small s false a) as (m1 & k & -> & M1 & R1 & K); [lia|].
  assert (3 ≤ k) as K3.
  { destruct (Z.lt_ge_cases k 3); [|done]. assert (2 ^ k ≤ 2 ^ 2) by (apply Z.pow_le_mono_r; lia).
    assert (a * 2 ^ k ≤ (2 ^ 49 - 1) * 2 ^ 2) by (apply Z.mul_le_mono_nonneg; lia). lia. }
  destruct (div_million s m1 k) as (m2 & u & -> & R2 & U & D2); [done|lia|].
  destruct (mul_million s m2 (u - 20 - k)) as (m3 & v & -> & R3 & V & D3); [done|lia|].
  assert (Z.abs (Z.pos m3 * 2 ^ (u + v) - a * 2 ^ (53 + k)) < 2 ^ (52 + k)) as Er.
  { assert (1 ≤ 2 ^ u ≤ 4) as Ub by (assert (u = 0 ∨ u = 1 ∨ u = 2) as [->|[->| ->]] by lia; simpl; lia).
    assert (2 ^ 55 ≤ 2 ^ (52 + k)) by (apply Z.pow_le_mono_r; lia).
    replace (a * 2 ^ (53 + k)) with (Z.pos m1 * 2 ^ 53) by (rewrite M1, Z.pow_add_r by lia; lia).
    replace (Z.pos m3 * 2 ^ (u + v)) with (Z.pos m3 * 2 ^ v * 2 ^ u) by (rewrite Z.pow_add_r by lia; lia).
    revert D2 D3 Ub. generalize (2 ^ u), (Z.pos m3 * 2 ^ v). intros U3 X3 D2 D3 Ub. unfold million_mantissa in *.
    assert (Z.abs (X3 * U3 - Z.pos m2 * 8589934592000000 * U3) ≤ 2 ^ 54); [|lia].
    rewrite <-Z.mul_sub_distr_r, Z.abs_mul. apply (Z.mul_le_mono_nonneg _ (2 ^ 52) _ (2 ^ 2)); lia. }
  assert (u + v ≤ 54) as W.
  { destruct (Z.le_gt_cases (u + v) 54); [done|]. exfalso.
    assert (2 ^ 55 ≤ 2 ^ (u + v)) by (apply Z.pow_le_mono_r; lia).
    assert (a * 2 ^ (53 + k) = Z.pos m1 * 2 ^ 53) by (rewrite M1, Z.pow_add_r by lia; lia).
    assert (2 ^ (52 + k) ≤ 2 ^ 104) by (apply Z.pow_le_mono_r; lia).
    assert (2 ^ 52 * 2 ^ 55 ≤ Z.pos m3 * 2 ^ (u + v)) by (apply Z.mul_le_mono_nonneg; lia). lia. }
  unfold f64_round. rewrite (proj2 (Z.leb_gt _ _)) by lia.
  set (h := 2 ^ (- (u - 20 - k - 33 + v) - 1)).
  assert (2 ^ (- (u - 20 - k - 33 + v)) = 2 * h) as Hh.
  { unfold h. rewrite <-Z.pow_succ_r by lia. f_equal. lia. }
  assert (h * 2 ^ (u + v) = 2 ^ (52 + k)) as Hw by (unfold h; rewrite <-Z.pow_add_r by lia; f_equal; lia).
  assert ((Z.pos m3 + h) / (2 * h) = a) as Hq.
  { symmetry. apply (Z.div_unique_pos _ _ _ (Z.pos m3 + h - 2 * h * a)); [|lia].
    assert (0 < 2 ^ (u + v)) by lia. assert (a * 2 ^ (53 + k) = a * (2 * h) * 2 ^ (u + v)) as E.
    { rewrite <-Z.mul_assoc, <-(Z.mul_assoc 2), Hw, <-Z.pow_succ_r by lia. do 2 f_equal. lia. }
    rewrite <-Hw, E, <-Z.mul_sub_distr_r, Z.abs_mul, (Z.abs_eq (2 ^ (u + v))) in Er by lia.
    apply Z.mul_lt_mono_pos_r in Er; lia. }
  rewrite Hh. fold h. rewrite Hq.
  unfold f64_of_Z. destruct a, s; done || lia.
Qed.

Lemma f64_of_Z_to_int64 m : Z.abs m < 2 ^ 53 → f64_to_int64 (f64_of_Z m) = m.
Proof.
  intros H. assert (m = 0 ∨ ∃ s a, m = cond_Zopp s a ∧ 0 < a < 2 ^ 53) as [->|(s & a & -> & A)].
  { destruct (Z.lt_trichotomy m 0) as [L|[->|L]]; [right; exists true, (- m)|by left|right; exists false, m]; simpl; lia. }
  { done. }
  unfold f64_of_Z. destruct (f64_of_small s false a) as (m & k & -> & M & R & K); [lia|].
  unfold f64_to_int64, f64_trunc.
  assert ((if 0 <=? - k then Z.pos m * 2 ^ (- k) else Z.pos m / 2 ^ (- - k)) = a) as ->.
  { destruct (Z.leb_spec 0 (- k)).
    - replace k with 0 in * by lia. simpl. lia.
    - rewrite Z.opp_involutive, M, Z.div_mul; [done|]. lia. }
  rewrite (proj2 (is_int64_spec _)); [done|]. destruct s; simpl; width; lia.
Qed.

Lemma micros_scaled m :
  Z.abs m < 2 ^ 49 → m = 0 ∨ f64_round (f64_mul (microsToUSD m) (f64_of_Z microUSDPerUSD)) = f64_of_Z m.
Proof.
  intros H. destruct (Z.lt_trichotomy m 0) as [L|[->|L]]; [right|by left|right].
  - rewrite <-(Z.opp_involutive m). apply (micros_scale_back true). lia.
  - apply (micros_scale_back false). lia.
Qed.

Lemma usdToMicros_microsToUSD m : Z.abs m < 2 ^ 49 → usdToMicros (microsToUSD m) = m.
Proof.
  intros H. destruct (micros_scaled m H) as [->|E]; [vm_compute; reflexivity|].
  unfold usdToMicros. rewrite E. apply f64_of_Z_to_int64. lia.
Qed.

(** ** Order *)

(** The dollars of an amount: their mantissa and exponent, and how far they are off. *)
Lemma micros_value a :
  0 < a < 2 ^ 53 →
  ∃ m e, microsToUSD a = S754_finite false m e ∧ 2 ^ 52 ≤ Z.pos m < 2 ^ 53 ∧ - 72 ≤ e ≤ - 18 ∧
    Z.abs (Z.pos m * 2 ^ (e + 72) * Z.pos million_mantissa - a * 2 ^ 105) ≤ Z.pos million_mantissa * a ∧
    (a < 2 ^ 40 → e ≤ - 31).
Proof.
  intros A. unfold microsToUSD, f64_div. rewrite million_f64.
  destruct (f64_of_small false false a) as (m1 & k & E1 & M1 & R1 & K); [done|].
  change (cond_Zopp false a) with a in E1. unfold f64_of_Z. rewrite E1.
  destruct (div_million false m1 k) as (m & u & -> & R & U & D); [done|lia|].
  exists m, (u - 20 - k). split_and!; [done|lia..| |].
  - assert (2 ^ (52 - k) ≤ a) as B.
    { assert (2 ^ 52 = 2 ^ (52 - k) * 2 ^ k) as E by (rewrite <-Z.pow_add_r by lia; f_equal; lia).
      assert (0 < 2 ^ k) by lia. rewrite M1, E in R1. nia. }
    replace (u - 20 - k + 72) with (u + (52 - k)) by lia. rewrite Z.pow_add_r by lia.
    assert (a * 2 ^ 105 = Z.pos m1 * 2 ^ 53 * 2 ^ (52 - k)) as ->.
    { rewrite M1, <-!Z.mul_assoc, <-!Z.pow_add_r by lia. do 2 f_equal. lia. }
    replace (Z.pos m * (2 ^ u * 2 ^ (52 - k)) * Z.pos million_mantissa) with
      (Z.pos m * 2 ^ u * Z.pos million_mantissa * 2 ^ (52 - k)) by lia.
    rewrite <-Z.mul_sub_distr_r, Z.abs_mul, (Z.abs_eq (2 ^ _)) by lia.
    etrans; [apply Z.mul_le_mono_nonneg_r; [lia|exact D]|]. apply Z.mul_le_mono_nonneg_l; [lia|done].
  - intros A40. destruct (Z.le_gt_cases 13 k); [lia|].
    assert (2 ^ k ≤ 2 ^ 12) by (apply Z.pow_le_mono_r; lia). nia.
Qed.

Lemma canonical_lt m1 e1 m2 e2 :
  2 ^ 52 ≤ Z.pos m1 < 2 ^ 53 → 2 ^ 52 ≤ Z.pos m2 < 2 ^ 53 → - 72 ≤ e1 → - 72 ≤ e2 →
  f64_ltb (S754_finite false m1 e1) (S754_finite false m2 e2) = (Z.pos m1 * 2 ^ (e1 + 72) <? Z.pos m2 * 2 ^ (e2 + 72)).
Proof.
  intros M1 M2 E1 E2. unfold f64_ltb, SFltb. simpl.
  assert (∀ m m' e e', Z.pos m < 2 ^ 53 → 2 ^ 52 ≤ Z.pos m' → - 72 ≤ e < e' →
            Z.pos m * 2 ^ (e + 72) < Z.pos m' * 2 ^ (e' + 72)) as K.
  { intros m m' e e' B B' E. replace (e' + 72) with ((e' - e) + (e + 72)) by lia. rewrite (Z.pow_add_r 2 (e' - e)) by lia.
    assert (2 ^ 1 ≤ 2 ^ (e' - e)) by (apply Z.pow_le_mono_r; lia). rewrite Z.mul_assoc.
    apply Z.mul_lt_mono_pos_r; [lia|]. apply (Z.lt_le_trans _ (2 ^ 52 * 2 ^ 1)); [lia|]. apply Z.mul_le_mono_nonneg; lia. }
  symmetry. destruct (Z.compare_spec e1 e2) as [->|L|L].
  - fold (Pos.compare m1 m2). assert (0 < 2 ^ (e2 + 72)) by lia.
    destruct (Pos.compare_spec m1 m2) as [->|C|C];
      [apply Z.ltb_irrefl|apply Z.ltb_lt, Z.mul_lt_mono_pos_r|apply Z.ltb_ge, Z.mul_le_mono_nonneg_r]; lia.
  - apply Z.ltb_lt, K; lia.
  - apply Z.ltb_ge, Z.lt_le_incl, K; lia.
Qed.

Lemma microsToUSD_lt a b : 0 < a < b → a < 2 ^ 49 → b < 2 ^ 53 → f64_ltb (microsToUSD a) (microsToUSD b) = true.
Proof.
  intros A A49 B. destruct (micros_value a) as (m & e & -> & M & E & D & _); [lia|].
  destruct (micros_value b) as (m' & e' & -> & M' & E' & D' & _); [lia|].
  rewrite canonical_lt by lia. apply Z.ltb_lt. revert D D'.
  generalize (Z.pos m * 2 ^ (e + 72)), (Z.pos m' * 2 ^ (e' + 72)). intros x y D D'. unfold million_mantissa in *.
  destruct (Z.lt_ge_cases b (2 ^ 51)); lia.
Qed.

Lemma microsToUSD_irrefl a : 0 < a < 2 ^ 53 → f64_ltb (microsToUSD a) (microsToUSD a) = false.
Proof.
  intros A. destruct (micros_value a A) as (m & e & -> & M & E & _). rewrite canonical_lt by lia. apply Z.ltb_irrefl.
Qed.

(** Dollars that are rounded to micros: less than one micro, a number of micros, or more
    than any amount of the ledger. *)
Lemma rounded_micros z :
  no_nan z →
  let b := f64_div (f64_round z) (f64_of_Z microUSDPerUSD) in
  f64_ltb b (microsToUSD 1) = true ∨ (∃ q, 0 < q < 2 ^ 53 ∧ b = microsToUSD q) ∨
  ∀ m, 0 < m < 2 ^ 40 → f64_ltb (microsToUSD m) b = true.
Proof.
  intros [V N]. change (microsToUSD 1) with (S754_finite false 4722366482869645 (-72)). cbv zeta.
  assert (∀ s, f64_ltb (S754_zero s) (S754_finite false 4722366482869645 (-72)) = true) as Low by done.
  destruct z as [s|s| |s m e]; [left; by destruct s| |done|].
  - destruct s; [by left|right; right]. intros m M. by destruct (micros_value m) as (? & ? & -> & _); [lia|].
  - apply bounded_spec in V as (V1 & V2 & V3). unfold f64_round. destruct (Z.leb_spec 0 e) as [E|E].
    + rewrite million_f64. unfold f64_div. replace e with (- (- e)) by lia.
      destruct (div_million s m (- e)) as (m' & u & -> & R & U & _); [lia..|].
      destruct s; [by left|right; right]. intros a A. destruct (micros_value a) as (m1 & e1 & -> & M1 & E1 & _ & Sm); [lia|].
      unfold f64_ltb, SFltb. simpl. rewrite (proj2 (Z.compare_lt_iff _ _)) by lia. done.
    + set (q := (Z.pos m + 2 ^ (- e - 1)) / 2 ^ (- e)).
      assert (0 ≤ q < 2 ^ 53) as Q.
      { assert (2 ^ (- e) = 2 * 2 ^ (- e - 1)) as P by (rewrite <-Z.pow_succ_r by lia; f_equal; lia).
        assert (0 < 2 ^ (- e - 1)) by lia. unfold q. rewrite P. split; [apply Z.div_pos; lia|].
        apply Z.div_lt_upper_bound; lia. }
      destruct (decide (q = 0)) as [->|Q0]; [left; by destruct s|].
      destruct s.
      * left. destruct (f64_of_small true true q) as (m1 & k & -> & _ & M1 & K); [lia|].
        rewrite million_f64. unfold f64_div. destruct (div_million true m1 k) as (m2 & u & -> & _); [lia..|done].
      * right; left. exists q. split; [lia|done].
Qed.

(** So a bill that is kept between one micro and an amount is a number of micros between
    them. *)
Lemma clamped_micros z m :
  no_nan z → 0 < m < 2 ^ 40 →
  let b := f64_div (f64_round z) (f64_of_Z microUSDPerUSD) in
  let b1 := if f64_ltb b (microsToUSD 1) then microsToUSD 1 else b in
  ∃ k, 1 ≤ k ≤ m ∧ (if f64_ltb (microsToUSD m) b1 then microsToUSD m else b1) = microsToUSD k.
Proof.
  intros N M b b1. assert (∃ k, 1 ≤ k < 2 ^ 53 ∧ b1 = microsToUSD k ∨ f64_ltb (microsToUSD m) b1 = true) as (k & [[K ->]|L]).
  { unfold b1. destruct (f64_ltb b _) eqn:B; [exists 1; left; split; [lia|done]|].
    destruct (rounded_micros z N) as [L|[(q & Q & E)|H]]; [by fold b in L; rewrite L in B| |].
    - exists q. left. split; [lia|done].
    - exists 0. right. apply H. lia. }
  - destruct (Z.le_gt_cases k m) as [L|L]; [|exists m; rewrite microsToUSD_lt by lia; split; [lia|done]].
    exists k. split; [lia|]. destruct (decide (k = m)) as [->|D]; [by case_match|].
    destruct (f64_ltb (microsToUSD m) (microsToUSD k)) eqn:F; [|done]. exfalso.
    destruct (micros_value k) as (m1 & e1 & E1 & M1 & X1 & D1 & _); [lia|].
    destruct (micros_value m) as (m2 & e2 & E2 & M2 & X2 & D2 & _); [lia|].
    pose proof (microsToUSD_lt k m ltac:(lia) ltac:(lia) ltac:(lia)) as G. rewrite E1, E2, canonical_lt in F, G by lia.
    apply Z.ltb_lt in F, G. lia.
  - exists m. rewrite L. split; [lia|done].
Qed.

(** C40: The [float64] boundary of the ledger is exact.  An amount of micros below
    2^49 in absolute value (more than five hundred times the largest amount a ledger row
    can hold) that is handed around as a [float64] number of dollars converts back to
    the same micros, and rounding it to micros leaves the [float64] as it is. *)
Theorem float_money_exact m :
  Z.abs m < 2 ^ 49 → usdToMicros (microsToUSD m) = m ∧ roundUSD (microsToUSD m) = microsToUSD m.
Proof.
  intros H. split; [by apply usdToMicros_microsToUSD|].
  destruct (micros_scaled m H) as [->|E]; [vm_compute; reflexivity|]. unfold roundUSD. by rewrite E.
Qed.

Lemma float_money_exact_witness :
  usdToMicros (microsToUSD (-999999999999)) = -999999999999 ∧
  roundUSD (microsToUSD (-999999999999)) = microsToUSD (-999999999999).
Proof. apply float_money_exact. vm_compute. reflexivity. Defined.
