(* ===== verification/ObservedOutput.v ===== *)
(** * ObservedOutput: what an accepted task is billed

    A task is priced when its job is accepted; the price columns of its row are frozen.
    When its result is accepted, unused output is rebated: the bill is the frozen charge
    reduced by the share of output tokens the worker did not produce, but never so far
    that what is left of it after the supplier, the processor and the control plane is
    below the contribution the job's fee schedule asks for.  This file models
    [observed_output_settlement.go], with the fee functions of [economic_plan.go], the
    assertion of [economic_plan_authority.go] and the unit formulas of [compute_plan.go].

    The job's frozen documents (workload decision, compute plan, economic plan) are an
    argument, as they are after decoding, validation and the comparison of their digests
    ([frozen_documents]).  Products and sums of [float64]s are rounded separately, as
    compiled for amd64.  The two searches for the lowest bill run on fuel; 64 rounds are
    enough for the amounts of a ledger, see [search_ends]. *)
From Stdlib Require Import SpecFloat.
From stdpp Require Import base numbers list strings.
From S2P Require Import Prelude.
From S2P Require Import Float64.
From S2P Require Import FloatOrder.
From S2P Require Import Currency.
From S2P Require Import MoneyNanos.
From S2P Require Import LedgerWrite.
From S2P Require Import MicroMoney.
Local Open Scope Z_scope.
Local Open Scope go_scope.

(** ** The fee schedule *)

(** [math.Max] and [math.Ceil]. *)
Definition f64_max (x y : f64) : f64 :=
  match x, y with
  | S754_infinity false, _ | _, S754_infinity false => S754_infinity false
  | S754_nan, _ | _, S754_nan => S754_nan
  | S754_zero s, S754_zero _ => if s then y else x
  | _, _ => if f64_ltb y x then x else y
  end.

Definition f64_ceil (x : f64) : f64 :=
  match x with
  | S754_finite s m e =>
      if 0 <=? e then x else binary_normalize 53 1024 (- (cond_Zopp (negb s) (Z.pos m) / 2 ^ (- e))) 0 s
  | _ => x
  end.

(** As far as settlement reads it. *)
Record EconomicSchedule := mkSchedule {
  es_Version : string;
  es_ProcessorPercent : f64;
  es_ProcessorFixedUSD : f64;
  es_MinChargeBatchUSD : f64;
  es_ControlPlanePerTaskUSD : f64;
  es_ControlPlanePerBatchUSD : f64;
  es_ControlPlaneAllocationPolicy : string;
  es_MinimumContributionUSD : f64;
  es_TargetMarginRate : f64
}.

Definition no_schedule : EconomicSchedule :=
  mkSchedule "" (f64_of_Z 0) (f64_of_Z 0) (f64_of_Z 0) (f64_of_Z 0) (f64_of_Z 0) "" (f64_of_Z 0) (f64_of_Z 0).

Definition controlPlaneAllocationChargeBatchV1 : string := "charge_batch_pro_rata_v1".

Definition roundEconomicUSD (v : f64) : f64 := roundUSD v.

Definition ceilEconomicUSD (v : f64) : f64 :=
  f64_div (f64_ceil (f64_mul (f64_sub v (f64_lit 1 1000000000000)) (f64_of_Z 1000000))) (f64_of_Z 1000000).

Definition roundProRataBatchFeeUSD (raw fixedShare : f64) : f64 :=
  if f64_leb raw (f64_of_Z 0) then f64_of_Z 0
  else if f64_ltb fixedShare (f64_of_Z 1) then roundEconomicUSD raw
  else ceilEconomicUSD raw.

(** A charge below the batch floor rides along and pays its share of the fixed fee. *)
Definition fixed_share (s : EconomicSchedule) (netUSD : f64) : f64 :=
  if f64_ltb (f64_of_Z 0) (es_MinChargeBatchUSD s) && f64_ltb netUSD (es_MinChargeBatchUSD s)
  then f64_div netUSD (es_MinChargeBatchUSD s) else f64_of_Z 1.

Definition processorFeeFor (s : EconomicSchedule) (netUSD : f64) : f64 :=
  if f64_leb netUSD (f64_of_Z 0) then f64_of_Z 0
  else
    let fixedShare := fixed_share s netUSD in
    let raw := f64_add (f64_mul netUSD (es_ProcessorPercent s)) (f64_mul (es_ProcessorFixedUSD s) fixedShare) in
    roundProRataBatchFeeUSD raw fixedShare.

Definition controlPlaneCostFor (s : EconomicSchedule) (netUSD : f64) (tasks : Z) : f64 :=
  if f64_leb netUSD (f64_of_Z 0) || (tasks <=? 0) then f64_of_Z 0
  else if negb (bool_decide (es_ControlPlaneAllocationPolicy s = controlPlaneAllocationChargeBatchV1)) then
    roundEconomicUSD (f64_mul (es_ControlPlanePerTaskUSD s) (f64_of_Z tasks))
  else
    let fixedShare := fixed_share s netUSD in
    roundProRataBatchFeeUSD (f64_mul (es_ControlPlanePerBatchUSD s) fixedShare) fixedShare.

Definition projectNanosToUSD (nanos : Z) : f64 :=
  if nanos <=? 0 then f64_of_Z 0
  else
    let whole := nanos /t NanosPerMicro in
    let remainder := nanos %t NanosPerMicro in
    let whole := if NanosPerMicro <=? remainder *w 2 then whole +w 1 else whole in
    microsToUSD (if whole =? 0 then 1 else whole).

(** ** The contribution floor *)

Definition minBillableSettlementUSD : f64 := f64_lit 1 1000000.
Definition minBillableSettlementNanos : Z := NanosPerMicro.

(** What [charge] leaves after [supplier] and the fees is the required contribution. *)
Definition margin_covers (schedule : EconomicSchedule) (initialTaskCount : Z) (charge supplier : f64) : bool :=
  let processor := processorFeeFor schedule charge in
  let control := controlPlaneCostFor schedule charge 1 in
  let required := roundEconomicUSD (f64_max (f64_mul charge (es_TargetMarginRate schedule))
                    (f64_div (es_MinimumContributionUSD schedule) (f64_of_Z initialTaskCount))) in
  let margin := roundEconomicUSD (f64_sub (f64_sub (f64_sub charge supplier) processor) control) in
  f64_leb required (f64_add margin (f64_lit 1 1000000000000)).

Definition covers_usd (schedule : EconomicSchedule) (initialTaskCount : Z) (charge supplier : f64) : bool :=
  if f64_leb charge (f64_of_Z 0) then false else margin_covers schedule initialTaskCount charge supplier.

Definition covers_nanos (schedule : EconomicSchedule) (initialTaskCount : Z) (chargeNanos supplierNanos : Z) : bool :=
  if chargeNanos <=? 0 then false
  else
    let charge := projectNanosToUSD chargeNanos in
    let supplier := projectNanosToUSD supplierNanos in
    let supplier := if f64_ltb charge supplier then charge else supplier in
    margin_covers schedule initialTaskCount charge supplier.

(** The loop of both clamps: the lowest covering amount between [lo] and [hi]. *)
Fixpoint search (fuel : nat) (covers : Z → bool) (lo hi best : Z) : option Z :=
  if hi <? lo then Some best
  else
    match fuel with
    | O => None
    | S fuel =>
        let mid := (lo +w hi) /t 2 in
        if covers mid then search fuel covers lo (mid -w 1) mid
        else search fuel covers (mid +w 1) hi best
    end.

Definition supplier_usd (frozenPayout frozenCharge charge : f64) : f64 :=
  let supplier := roundUSD (f64_div (f64_mul frozenPayout charge) frozenCharge) in
  let supplier := if f64_ltb charge supplier then charge else supplier in
  if f64_ltb frozenPayout supplier then frozenPayout else supplier.

Definition supplier_nanos (frozenPayout frozenCharge charge : Z) : Z :=
  let supplier := if 0 <? frozenCharge then
                    match mulDiv frozenPayout charge frozenCharge true with
                    | Ok supplier => supplier
                    | Err _ => Z.min frozenPayout charge
                    end
                  else 0 in
  let supplier := if charge <? supplier then charge else supplier in
  if frozenPayout <? supplier then frozenPayout else supplier.

Definition clampSettlementToContributionFloorUSD (billed payout frozenCharge frozenPayout : f64)
    (schedule : EconomicSchedule) (initialTaskCount : Z) : f64 * f64 * bool :=
  let initialTaskCount := if initialTaskCount <=? 0 then 1 else initialTaskCount in
  let covers := covers_usd schedule initialTaskCount in
  if covers billed payout then (billed, payout, false)
  else
    let freezePayout := if f64_ltb frozenCharge frozenPayout then frozenCharge else frozenPayout in
    if negb (covers frozenCharge freezePayout) then (frozenCharge, freezePayout, true)
    else
      let hi := usdToMicros frozenCharge in
      let best := default hi (search 64 (λ mid, let charge := microsToUSD mid in
                                                covers charge (supplier_usd frozenPayout frozenCharge charge))
                                (usdToMicros billed) hi hi) in
      let charge := microsToUSD best in
      (charge, supplier_usd frozenPayout frozenCharge charge, true).

Definition clampSettlementToContributionFloorNanos (billed payout frozenCharge frozenPayout : Z)
    (schedule : EconomicSchedule) (initialTaskCount : Z) : Z * Z * bool :=
  let initialTaskCount := if initialTaskCount <=? 0 then 1 else initialTaskCount in
  let covers := covers_nanos schedule initialTaskCount in
  if covers billed payout then (billed, payout, false)
  else
    let freezePayout := if frozenCharge <? frozenPayout then frozenCharge else frozenPayout in
    if negb (covers frozenCharge freezePayout) then (frozenCharge, freezePayout, true)
    else
      let best := default frozenCharge (search 64 (λ mid, covers mid (supplier_nanos frozenPayout frozenCharge mid))
                                          billed frozenCharge frozenCharge) in
      (best, supplier_nanos frozenPayout frozenCharge best, true).

(** ** The reducer *)

Record observedOutputSettlement := mkObserved {
  os_BilledCharge : f64;
  os_SupplierPayout : f64;
  os_BilledChargeNanos : Z;
  os_SupplierPayoutNanos : Z;
  os_HasNanos : bool;
  os_Applied : bool;
  os_FloorClamped : bool;
  os_CeilingTokens : Z;
  os_ObservedTokens : Z;
  os_UnusedShare : f64;
  os_RebateUSD : f64;
  os_UnclampedRebateUSD : f64
}.

(** The frozen pair, with the evidence of the tokens. *)
Definition at_freeze (charge payout : f64) (chargeNanos payoutNanos : Z) (hasNanos : bool) (ceiling observed : Z) :
    observedOutputSettlement :=
  mkObserved charge payout chargeNanos payoutNanos hasNanos false false ceiling observed
    (f64_of_Z 0) (f64_of_Z 0) (f64_of_Z 0).

(** The exact path: integer nanos. *)
Definition rebated_nanos (frozenChargeNanos frozenPayoutNanos : Z) (unusedShare : f64) (ceiling observed : Z)
    (schedule : EconomicSchedule) (initialTaskCount : Z) : res observedOutputSettlement :=
  let raw := f64_mul (f64_of_Z frozenChargeNanos) (f64_sub (f64_of_Z 1) unusedShare) in
  let billed := f64_to_int64 (f64_round raw) in
  let billed := if billed <? minBillableSettlementNanos then minBillableSettlementNanos else billed in
  let billed := if frozenChargeNanos <? billed then frozenChargeNanos else billed in
  payout ← (if 0 <? frozenChargeNanos then mulDiv frozenPayoutNanos billed frozenChargeNanos true else Ok 0);
  let payout := if payout <? 0 then 0 else payout in
  let payout := if frozenPayoutNanos <? payout then frozenPayoutNanos else payout in
  let payout := if billed <? payout then billed else payout in
  let unclampedRebate := projectNanosToUSD (frozenChargeNanos -w billed) in
  let '(billed, payout, clamped) :=
    if bool_decide (es_Version schedule = "") then (billed, payout, false)
    else clampSettlementToContributionFloorNanos billed payout frozenChargeNanos frozenPayoutNanos schedule initialTaskCount in
  let r := frozenChargeNanos -w billed in
  Ok (mkObserved (projectNanosToUSD billed) (projectNanosToUSD payout) billed payout true
        ((billed <? frozenChargeNanos) || (payout <? frozenPayoutNanos) || clamped) clamped ceiling observed unusedShare
        (if 0 <? r then projectNanosToUSD r else f64_of_Z 0) (if clamped then unclampedRebate else f64_of_Z 0)).

(** The path of plans that have no nanos. *)
Definition rebated_usd (frozenCharge frozenPayout unusedShare : f64) (ceiling observed : Z)
    (schedule : EconomicSchedule) (initialTaskCount : Z) : observedOutputSettlement :=
  let billed := roundUSD (f64_mul frozenCharge (f64_sub (f64_of_Z 1) unusedShare)) in
  let billed := if f64_ltb billed minBillableSettlementUSD then minBillableSettlementUSD else billed in
  let billed := if f64_ltb frozenCharge billed then frozenCharge else billed in
  let payout := roundUSD (f64_div (f64_mul frozenPayout billed) frozenCharge) in
  let payout := if f64_ltb payout (f64_of_Z 0) then f64_of_Z 0 else payout in
  let payout := if f64_ltb frozenPayout payout then frozenPayout else payout in
  let payout := if f64_ltb billed payout then billed else payout in
  let unclampedRebate := roundUSD (f64_sub frozenCharge billed) in
  let '(billed, payout, clamped) :=
    if bool_decide (es_Version schedule = "") then (billed, payout, false)
    else clampSettlementToContributionFloorUSD billed payout frozenCharge frozenPayout schedule initialTaskCount in
  let rebate := roundUSD (f64_sub frozenCharge billed) in
  mkObserved billed payout 0 0 false
    (f64_ltb billed frozenCharge || f64_ltb payout frozenPayout || clamped) clamped ceiling observed unusedShare
    (if f64_ltb rebate (f64_of_Z 0) then f64_of_Z 0 else rebate) (if clamped then unclampedRebate else f64_of_Z 0).

(** The share of the frozen price that pays for output nobody produced. *)
Definition unused_share (estimatedOut : Z) (totalUnits : f64) (observed ceiling : Z) : f64 :=
  let outputUnitShare := f64_div (f64_of_Z estimatedOut) totalUnits in
  let unusedShare := f64_mul outputUnitShare
                       (f64_sub (f64_of_Z 1) (f64_div (f64_of_Z observed) (f64_of_Z ceiling))) in
  let unusedShare := if f64_ltb unusedShare (f64_of_Z 0) then f64_of_Z 0 else unusedShare in
  if f64_ltb outputUnitShare unusedShare then outputUnitShare else unusedShare.

Definition settleObservedOutputTokensWithSchedule (frozenCharge frozenPayout : f64)
    (frozenChargeNanos frozenPayoutNanos : Z) (hasNanos : bool) (estimatedIn : f64) (estimatedOut expectedOutputRecords : Z)
    (maxTokens reportedTokens : Z) (hasReported : bool) (schedule : EconomicSchedule) (initialTaskCount : Z) :
    observedOutputSettlement :=
  let out := if hasNanos then at_freeze (projectNanosToUSD frozenChargeNanos) (projectNanosToUSD frozenPayoutNanos)
                                frozenChargeNanos frozenPayoutNanos true
             else at_freeze frozenCharge frozenPayout 0 0 false in
  if (if hasNanos then (frozenChargeNanos <=? 0) || (frozenPayoutNanos <? 0) || (frozenChargeNanos <? frozenPayoutNanos)
      else negb (moneyUSDInDomain frozenCharge) || negb (moneyUSDInDomain frozenPayout) ||
           f64_leb frozenCharge (f64_of_Z 0) || f64_ltb frozenPayout (f64_of_Z 0) || f64_ltb frozenCharge frozenPayout)
  then out 0 0
  else if negb hasReported || (estimatedOut <=? 0) || is_nan estimatedIn || is_inf estimatedIn ||
          f64_ltb estimatedIn (f64_of_Z 0) then out 0 0
  else
    let totalUnits := f64_add estimatedIn (f64_of_Z estimatedOut) in
    if f64_leb totalUnits (f64_of_Z 0) then out 0 0
    else if (expectedOutputRecords <=? 0) || (maxTokens =? 0) then out 0 0
    else if max_int64 /t maxTokens <? expectedOutputRecords then out 0 0
    else
      let ceiling := expectedOutputRecords *w maxTokens in
      if ceiling <=? 0 then out 0 0
      else if reportedTokens <? 0 then out 0 0
      else
        let observed := if ceiling <? reportedTokens then ceiling else reportedTokens in
        let unusedShare := unused_share estimatedOut totalUnits observed ceiling in
        if f64_eqb unusedShare (f64_of_Z 0) then out ceiling observed
        else if hasNanos then
          match rebated_nanos frozenChargeNanos frozenPayoutNanos unusedShare ceiling observed schedule initialTaskCount with
          | Ok settled => settled
          | Err _ => out 0 0
          end
        else rebated_usd frozenCharge frozenPayout unusedShare ceiling observed schedule initialTaskCount.

(** Without a schedule and without nanos. *)
Definition settleObservedOutputTokens (frozenCharge frozenPayout estimatedIn : f64)
    (estimatedOut expectedOutputRecords maxTokens reportedTokens : Z) (hasReported : bool) : observedOutputSettlement :=
  settleObservedOutputTokensWithSchedule frozenCharge frozenPayout 0 0 false estimatedIn estimatedOut expectedOutputRecords
    maxTokens reportedTokens hasReported no_schedule 1.

(** ** The loader *)

(** The frozen documents, as far as settlement reads them. *)
Record EconomicPlan := mkEconomicPlan {
  eco_Schedule : EconomicSchedule;
  eco_InitialTaskCount : Z;
  eco_BuyerChargePerTaskNanos : Z;
  eco_SupplierPayoutPerTaskNanos : Z
}.

Record WorkloadDecision := mkWorkload {
  wd_Type : string;
  wd_MaxTokens : Z                     (* uint32 *)
}.

Record ComputePlan := mkComputePlan {
  pn_Version : Z;
  pn_ExecutionMode : string;
  pn_InputRecords : Z;
  pn_InputBytes : Z;
  pn_SettlementInputUnits : f64;
  pn_EstimatedOutputTokens : Z
}.

(** What reading them gives: the economic plan, where the job has one, after the
    comparison with its columns; the workload decision and the compute plan, where the
    job has one, after decoding, validation and the comparison of their digests; and
    whether the compute and the economic plan agree. *)
Record frozen_documents := mkDocuments {
  fd_economic : option (res EconomicPlan);
  fd_compute : option (res (WorkloadDecision * ComputePlan));
  fd_agree : res unit
}.

Record observedOutputSettlementTaskFacts := mkFacts {
  tf_frozenCharge : f64;
  tf_frozenPayout : f64;
  tf_buyerNanos : option Z;
  tf_supplierNanos : option Z;
  tf_expectedRecords : Z;
  tf_reportedTokens : option Z
}.

Definition defaultQuoteMaxTokens : Z := 256.
Definition computePlanVersionV3 : Z := 3.
Definition computePlanVersion : Z := 4.
Definition computeExecutionDistributed : string := "distributed".
Definition generativeJobType (jobType : string) : bool := bool_decide (jobType = "batch_infer").

Definition effectiveObservedOutputMaxTokens (workload : WorkloadDecision) (plan : ComputePlan) : Z :=
  if (wd_MaxTokens workload =? 0) && generativeJobType (wd_Type workload) && (0 <? pn_EstimatedOutputTokens plan)
  then defaultQuoteMaxTokens else wd_MaxTokens workload.

Definition estimatedInputTokensForComputePlanV1 (records inputBytes : Z) : Z :=
  if (records <=? 0) || (inputBytes <=? 0) then 0
  else
    let byBytes := f64_to_int64 (f64_ceil (f64_div (f64_of_Z inputBytes) (f64_of_Z 4))) in
    if byBytes <? records then records else byBytes.

Definition settlementInputUnitsForComputePlan (plan : ComputePlan) : f64 :=
  if (pn_Version plan =? computePlanVersionV3) || (pn_Version plan =? computePlanVersion) then pn_SettlementInputUnits plan
  else f64_of_Z (estimatedInputTokensForComputePlanV1 (pn_InputRecords plan) (pn_InputBytes plan)).

Definition assertTaskEconomicNanosMatchPlan (taskBuyerNanos taskSupplierNanos : option Z) (plan : EconomicPlan) : res unit :=
  match taskBuyerNanos, taskSupplierNanos with
  | None, None => Ok tt
  | Some b, Some s =>
      refuse (Errorf "task has nanos but plan has no exact per-task freeze")
        if (eco_BuyerChargePerTaskNanos plan <=? 0) || (eco_SupplierPayoutPerTaskNanos plan <=? 0);
      refuse (Errorf "task buyer/supplier nanos differ from the plan's")
        if negb (b =? eco_BuyerChargePerTaskNanos plan) || negb (s =? eco_SupplierPayoutPerTaskNanos plan);
      Ok tt
  | _, _ => Err (Errorf "partial nano pair on task %s")
  end.

Definition settleObservedOutputSettlementTaskFacts (docs : frozen_documents) (facts : observedOutputSettlementTaskFacts) :
    res observedOutputSettlement :=
  let charge := tf_frozenCharge facts in
  let payout := tf_frozenPayout facts in
  refuse (Errorf "task %s has invalid frozen economics")
    if negb (moneyUSDInDomain charge) || negb (moneyUSDInDomain payout) || f64_leb charge (f64_of_Z 0) ||
       f64_ltb payout (f64_of_Z 0) || f64_ltb charge payout;
  let '(chargeNanos, payoutNanos, hasNanos) :=
    match tf_buyerNanos facts, tf_supplierNanos facts with Some b, Some s => (b, s, true) | _, _ => (0, 0, false) end in
  refuse (Errorf "task %s has invalid frozen nano economics")
    if hasNanos && ((chargeNanos <=? 0) || (payoutNanos <? 0) || (chargeNanos <? payoutNanos));
  '(schedule, initialTaskCount) ← (match fd_economic docs with
     | None => Ok (no_schedule, 0)
     | Some economic =>
         economic ← economic;
         _ ← assertTaskEconomicNanosMatchPlan (tf_buyerNanos facts) (tf_supplierNanos facts) economic;
         Ok (eco_Schedule economic, eco_InitialTaskCount economic)
     end);
  match fd_compute docs with
  | None => Ok (at_freeze charge payout chargeNanos payoutNanos hasNanos 0 0)
  | Some compute =>
      '(workload, plan) ← compute;
      _ ← (if bool_decide (pn_ExecutionMode plan = computeExecutionDistributed) then
             refuse (Errorf "task %s has no frozen economic authority") if bool_decide (fd_economic docs = None);
             fd_agree docs
           else Ok tt);
      Ok (settleObservedOutputTokensWithSchedule charge payout chargeNanos payoutNanos hasNanos
            (settlementInputUnitsForComputePlan plan) (pn_EstimatedOutputTokens plan) (tf_expectedRecords facts)
            (effectiveObservedOutputMaxTokens workload plan) (default 0 (tf_reportedTokens facts))
            (bool_decide (is_Some (tf_reportedTokens facts))) schedule initialTaskCount)
  end.

(** ** The searches end *)

(** With [n] rounds of fuel an interval of fewer than [2 ^ n] amounts is searched through,
    and the answer is the given one or a covering amount of the interval. *)
Lemma search_ends n covers : ∀ lo hi best,
  0 ≤ lo → hi < 2 ^ 62 → hi - lo + 1 < 2 ^ Z.of_nat n →
  ∃ b, search n covers lo hi best = Some b ∧ (b = best ∨ lo ≤ b ≤ hi ∧ covers b = true).
Proof.
  induction n as [|n IH]; intros lo hi best L H W; simpl search; (destruct (Z.ltb_spec hi lo); [by eauto|]).
  - simpl in W. lia.
  - rewrite Nat2Z.inj_succ, Z.pow_succ_r in W by lia.
    rewrite (wrap64_id (lo + hi)), Z.quot_div_nonneg by (width; lia).
    pose proof (Z.div_mod (lo + hi) 2 ltac:(done)). pose proof (Z.mod_pos_bound (lo + hi) 2 ltac:(done)).
    set (mid := (lo + hi) / 2) in *. rewrite !wrap64_id by (width; lia). destruct (covers mid) eqn:C.
    + destruct (IH lo (mid - 1) mid) as (b & -> & [->|[B Cb]]); [lia..| |]; eexists; (split; [done|right]); by split; [lia|].
    + destruct (IH (mid + 1) hi best) as (b & -> & [->|[B Cb]]); [lia..|by eauto|]. eexists. split; [done|right]. by split; [lia|].
Qed.

(** ** Amounts *)

Lemma project_micros n : 0 < n → int64 n → projectNanosToUSD n = microsToUSD (ledger_micros n).
Proof.
  intros N I. unfold projectNanosToUSD, ledger_micros, NanosPerMicro. rewrite (proj2 (Z.leb_gt _ _)) by done.
  rewrite Z.quot_div_nonneg, Z.rem_mod_nonneg by lia.
  pose proof (Z.div_mod n 1000 ltac:(done)). pose proof (Z.mod_pos_bound n 1000 ltac:(done)).
  rewrite !wrap64_id by go_lia.
  assert ((if 1000 <=? n mod 1000 * 2 then n / 1000 + 1 else n / 1000) = (n + 500) / 1000) as ->.
  { destruct (Z.leb_spec 1000 (n mod 1000 * 2)).
    - apply (Z.div_unique _ _ _ (n mod 1000 - 500)); lia.
    - apply (Z.div_unique _ _ _ (n mod 1000 + 500)); lia. }
  rewrite (proj2 (Z.ltb_lt 0 n)), andb_true_r by done. done.
Qed.

Lemma ledger_micros_mono a b : 0 < a ≤ b → 1 ≤ ledger_micros a ≤ ledger_micros b.
Proof.
  intros A. unfold ledger_micros. rewrite !(proj2 (Z.ltb_lt 0 _)), !andb_true_r by lia.
  assert (0 ≤ (a + 500) / 1000 ≤ (b + 500) / 1000) by (split; [apply Z.div_pos|apply Z.div_le_mono]; lia).
  destruct (Z.eqb_spec ((a + 500) / 1000) 0), (Z.eqb_spec ((b + 500) / 1000) 0); lia.
Qed.

Lemma ledger_micros_bound n : 0 < n → n ≤ 1000 * ledger_micros n + 500.
Proof.
  intros N. unfold ledger_micros. pose proof (Z.div_mod (n + 500) 1000 ltac:(done)).
  pose proof (Z.mod_pos_bound (n + 500) 1000 ltac:(done)). destruct (_ && _) eqn:E; reflect_bools; lia.
Qed.

(** The supplier's part is its frozen share of the charge, rounded up, and none of the
    limits around it ever binds. *)
Lemma supplier_share f c b :
  0 ≤ f ≤ c → 0 < b ≤ c → int64 c →
  ∃ p, mulDiv f b c true = Ok p ∧ 0 ≤ p ≤ f ∧ p ≤ b ∧ f * b ≤ p * c < f * b + c.
Proof.
  intros F B C. pose proof (round_div_up (f * b) c ltac:(lia)) as R.
  set (p := round_div true (f * b) c) in *.
  assert (0 ≤ p ≤ f ∧ p ≤ b) as [P P'].
  { assert (f * b ≤ f * c) by nia. assert (f * b ≤ c * b) by nia. split; [split|]; nia. }
  exists p. split_and!; [|lia|lia|lia|lia|lia].
  apply (exact_division_succeeds mulDiv); width; lia.
Qed.

Lemma supplier_nanos_share f c b :
  0 ≤ f ≤ c → 0 < b ≤ c → int64 c →
  let p := supplier_nanos f c b in 0 ≤ p ≤ f ∧ p ≤ b ∧ f * b ≤ p * c.
Proof.
  intros F B C. unfold supplier_nanos. rewrite (proj2 (Z.ltb_lt 0 c)) by lia.
  destruct (supplier_share f c b F B C) as (p & -> & P & P' & S).
  rewrite (proj2 (Z.ltb_ge b p)), (proj2 (Z.ltb_ge f p)) by lia. lia.
Qed.

(** ** The exact path *)

Definition task_count_or_one (n : Z) : Z := if n <=? 0 then 1 else n.

Lemma clamp_nanos_spec b p f c sch n b' p' cl :
  0 ≤ f ≤ c → 0 < b ≤ c → c < 2 ^ 62 → 0 ≤ p ≤ f → p ≤ b → f * b ≤ p * c →
  clampSettlementToContributionFloorNanos b p c f sch n = (b', p', cl) →
  b ≤ b' ≤ c ∧ 0 ≤ p' ≤ f ∧ p' ≤ b' ∧ f * b' ≤ p' * c ∧
  (b' = c ∨ covers_nanos sch (task_count_or_one n) b' p' = true).
Proof.
  intros F B C P P' S. unfold clampSettlementToContributionFloorNanos. fold (task_count_or_one n).
  destruct (covers_nanos _ _ b p) eqn:C1; [by intros [= <- <- <-]; split_and!; [lia..|right]|].
  rewrite (proj2 (Z.ltb_ge c f)) by lia.
  destruct (covers_nanos _ _ c f) eqn:C2; simpl negb; [|intros [= <- <- <-]; split_and!; [lia..|by left]].
  destruct (search_ends 64 (λ mid, covers_nanos sch (task_count_or_one n) mid (supplier_nanos f c mid)) b c c)
    as (best & Sx & R); [lia|lia|simpl; lia|]. rewrite Sx. simpl default. intros [= <- <- <-].
  assert (b ≤ best ≤ c) by (destruct R as [->|[? _]]; lia).
  pose proof (supplier_nanos_share f c best F ltac:(lia) ltac:(width; lia)) as Sh. simpl in Sh.
  split_and!; [lia..|]. destruct R as [->|[_ R]]; [by left|by right].
Qed.

Lemma rebated_nanos_spec c f u ce ob sch n :
  0 ≤ f ≤ c → 0 < c < 2 ^ 62 →
  ∃ out, rebated_nanos c f u ce ob sch n = Ok out ∧ os_HasNanos out = true ∧
    let b := os_BilledChargeNanos out in let p := os_SupplierPayoutNanos out in
    os_BilledCharge out = microsToUSD (ledger_micros b) ∧ 0 < b ≤ c ∧ 0 ≤ p ≤ f ∧ p ≤ b ∧ f * b ≤ p * c ∧
    (es_Version sch ≠ "" → b = c ∨ covers_nanos sch (task_count_or_one n) b p = true).
Proof.
  intros F C. unfold rebated_nanos, minBillableSettlementNanos, NanosPerMicro. cbv zeta.
  generalize (f64_to_int64 (f64_round (f64_mul (f64_of_Z c) (f64_sub (f64_of_Z 1) u)))). intros raw.
  set (b0 := if raw <? 1000 then 1000 else raw). set (b := if c <? b0 then c else b0).
  assert (0 < b ≤ c) as B.
  { assert (0 < b0) by (unfold b0; destruct (Z.ltb_spec raw 1000); lia). unfold b. destruct (Z.ltb_spec c b0); lia. }
  clearbody b. rewrite (proj2 (Z.ltb_lt 0 c)) by lia.
  destruct (supplier_share f c b F B ltac:(width; lia)) as (p & -> & P & P' & S). cbn [mbind res_bind].
  rewrite (proj2 (Z.ltb_ge p 0)), (proj2 (Z.ltb_ge f p)), (proj2 (Z.ltb_ge b p)) by lia.
  destruct (bool_decide_reflect (es_Version sch = "")) as [V|V].
  - eexists. split; [done|]. simpl. split_and!; [done| |lia..|done]. rewrite project_micros; [done|lia|width; lia].
  - destruct (clampSettlementToContributionFloorNanos b p c f sch n) as [[b' p'] cl] eqn:Cl.
    apply clamp_nanos_spec in Cl as (B' & P1 & P2 & S1 & K); [|lia..]. eexists. split; [done|]. simpl.
    split_and!; [done| |lia..|done]. rewrite project_micros; [done|lia|width; lia].
Qed.

(** ** The path without nanos *)

Lemma micros_normal m : 0 < m < 2 ^ 53 → normal (- 72) (- 18) false (microsToUSD m).
Proof. intros M. destruct (micros_value m M) as (m' & e & -> & ? & ? & _). by exists m', e. Qed.

Lemma unused_share_no_nan out x obs ce :
  0 < out → int64 out → is_nan x = false → f64_ltb x (f64_of_Z 0) = false → 0 ≤ obs → int64 obs → 0 < ce → int64 ce →
  no_nan (unused_share out (f64_add x (f64_of_Z out)) obs ce).
Proof.
  intros O Io N S Ob Iob Ce Ice. pose proof (of_Z_normal out ltac:(width; lia)) as No.
  pose proof (of_Z_normal ce ltac:(width; lia)) as Nc.
  assert (finite (f64_div (f64_of_Z out) (f64_add x (f64_of_Z out)))) as Sh.
  { destruct (add_normal x (f64_of_Z out) 12 N S No) as [->|T]; [lia| |].
    - by destruct No as (? & ? & -> & _).
    - eapply div_finite; [exact No|exact T|lia..]. }
  assert (finite (f64_sub (f64_of_Z 1) (f64_div (f64_of_Z obs) (f64_of_Z ce)))) as Y.
  { destruct (decide (obs = 0)) as [->|].
    - by destruct Nc as (? & ? & -> & _).
    - pose proof (of_Z_normal obs ltac:(width; lia)) as Nb.
      pose proof (div_normal _ _ _ _ _ _ _ _ Nb Nc ltac:(lia) ltac:(lia)) as D.
      eapply one_minus_finite; [| |exact D]; lia. }
  unfold unused_share. cbv zeta. pose proof (mul_no_nan _ _ Sh Y) as M. destruct Sh as [Sh _].
  repeat (case_match; try done).
Qed.

Lemma clamp_usd_spec k p m q sch n b' p' cl :
  1 ≤ k ≤ m → m < 2 ^ 40 →
  clampSettlementToContributionFloorUSD (microsToUSD k) p (microsToUSD m) q sch n = (b', p', cl) →
  ∃ k', k ≤ k' ≤ m ∧ b' = microsToUSD k' ∧ (k' = m ∨ covers_usd sch (task_count_or_one n) b' p' = true).
Proof.
  intros K M. unfold clampSettlementToContributionFloorUSD. fold (task_count_or_one n).
  destruct (covers_usd _ _ _ p) eqn:C1; [intros [= <- <- <-]; exists k; split_and!; [lia..|done|by right]|].
  destruct (covers_usd _ _ (microsToUSD m) _) eqn:C2; simpl negb; [|intros [= <- <- <-]; exists m; split_and!; [lia..|done|by left]].
  rewrite !usdToMicros_microsToUSD by lia.
  match goal with |- context [search 64 ?g k m m] => destruct (search_ends 64 g k m m) as (best & Sx & R); [lia|lia|simpl; lia|] end.
  rewrite Sx. simpl default. intros [= <- <- <-]. exists best.
  destruct R as [->|[? R]]; split_and!; [lia..|done|by left|lia|lia|done|by right].
Qed.

Lemma rebated_usd_spec m q u ce ob sch n :
  0 < m < 2 ^ 40 → no_nan u →
  let out := rebated_usd (microsToUSD m) q u ce ob sch n in
  os_HasNanos out = false ∧ ∃ k, 1 ≤ k ≤ m ∧ os_BilledCharge out = microsToUSD k ∧
    (es_Version sch ≠ "" → k = m ∨ covers_usd sch (task_count_or_one n) (os_BilledCharge out) (os_SupplierPayout out) = true).
Proof.
  intros M U. unfold rebated_usd. cbv zeta. change minBillableSettlementUSD with (microsToUSD 1).
  pose proof (one_minus_no_nan u U) as W.
  assert (no_nan (f64_mul (f64_mul (microsToUSD m) (f64_sub (f64_of_Z 1) u)) (f64_of_Z microUSDPerUSD))) as Z.
  { eapply (mul_no_nan_nonzero (- 52) 12); [lia..| |apply of_Z_normal; unfold microUSDPerUSD; lia].
    eapply (mul_nonzero_no_nan (- 72) (- 18)); [lia..|apply micros_normal; lia|done]. }
  destruct (clamped_micros _ m Z M) as (k & K & E).
  fold (roundUSD (f64_mul (microsToUSD m) (f64_sub (f64_of_Z 1) u))) in E. rewrite !E. clear E Z.
  generalize (roundUSD (f64_div (f64_mul q (microsToUSD k)) (microsToUSD m))). intros p0.
  match goal with |- context [if f64_ltb (microsToUSD k) ?x then _ else _] => generalize (if f64_ltb (microsToUSD k) x then microsToUSD k else x) end.
  intros p. destruct (bool_decide_reflect (es_Version sch = "")) as [V|V]; [by split; [|exists k]|].
  destruct (clampSettlementToContributionFloorUSD _ p _ q sch n) as [[b' p'] cl] eqn:Cl.
  apply clamp_usd_spec in Cl as (k' & K' & -> & C); [|lia..]. split; [done|]. exists k'. by split_and!; [lia|lia|done|].
Qed.

(** ** The bill *)

(** A row that was priced at [m] micros, with nanos that project to no more; the first
    bound is that of the column, a [NUMERIC(12,6)]. *)
Definition priced (m : Z) (facts : observedOutputSettlementTaskFacts) : Prop :=
  0 ≤ m ≤ maxMoneyAbsMicros ∧ tf_frozenCharge facts = microsToUSD m ∧
  ∀ b, tf_buyerNanos facts = Some b → int64 b ∧ ledger_micros b ≤ m.

(** [EstimatedOutputTokens] is an [int64]. *)
Definition typed_documents (docs : frozen_documents) : Prop :=
  ∀ workload plan, fd_compute docs = Some (Ok (workload, plan)) → int64 (pn_EstimatedOutputTokens plan).

(** The contribution floor of a schedule: the bill is the frozen charge, or leaves the
    required contribution. *)
Definition floor_kept (sch : EconomicSchedule) (n : Z) (facts : observedOutputSettlementTaskFacts)
    (out : observedOutputSettlement) : Prop :=
  if os_HasNanos out then
    tf_buyerNanos facts = Some (os_BilledChargeNanos out) ∨
    covers_nanos sch (task_count_or_one n) (os_BilledChargeNanos out) (os_SupplierPayoutNanos out) = true
  else
    os_BilledCharge out = tf_frozenCharge facts ∨
    covers_usd sch (task_count_or_one n) (os_BilledCharge out) (os_SupplierPayout out) = true.

(** What a bill is, given the frozen micros and nanos. *)
Definition good_bill (m : Z) (facts : observedOutputSettlementTaskFacts) (sch : EconomicSchedule) (n : Z)
    (out : observedOutputSettlement) : Prop :=
  (∃ k, 1 ≤ k ≤ m ∧ os_BilledCharge out = microsToUSD k) ∧
  (∀ c f, tf_buyerNanos facts = Some c → tf_supplierNanos facts = Some f →
     os_HasNanos out = true ∧ 0 < os_BilledChargeNanos out ≤ c ∧
     0 ≤ os_SupplierPayoutNanos out ≤ os_BilledChargeNanos out ∧
     f * os_BilledChargeNanos out ≤ os_SupplierPayoutNanos out * c) ∧
  (es_Version sch ≠ "" → floor_kept sch n facts out).

(** Leaves the paths that settle at the frozen pair. *)
Ltac settle_branch Fr Q :=
  match goal with |- good_bill _ _ _ _ (if ?b then _ else _) => destruct b eqn:Q; [by apply Fr|] end.

Section Settle.
Context (m : Z) (facts : observedOutputSettlementTaskFacts) (Pr : priced m facts) (M0 : 0 < m).
Context (sch : EconomicSchedule) (n : Z) (estimatedIn : f64) (estimatedOut expected maxTokens reported : Z) (has : bool).
Context (Io : int64 estimatedOut).

Lemma settle_nanos c f :
  tf_buyerNanos facts = Some c → tf_supplierNanos facts = Some f → 0 < c → 0 ≤ f ≤ c →
  good_bill m facts sch n (settleObservedOutputTokensWithSchedule (tf_frozenCharge facts) (tf_frozenPayout facts) c f true
                             estimatedIn estimatedOut expected maxTokens reported has sch n).
Proof using Pr M0.
  intros C F C0 F0. destruct Pr as (M & E & N). destruct (N c C) as [Ic Lc].
  assert (c < 2 ^ 62) as Cb by (pose proof (ledger_micros_bound c C0); unfold maxMoneyAbsMicros in M; lia).
  assert (∀ t o, good_bill m facts sch n (at_freeze (projectNanosToUSD c) (projectNanosToUSD f) c f true t o)) as Fr.
  { intros t o. split_and!; [|intros ? ? ? ?; simplify_eq; simpl; split_and!; (done || lia)|by left].
    exists (ledger_micros c). pose proof (ledger_micros_mono c c ltac:(lia)). split; [lia|]. by apply project_micros. }
  unfold settleObservedOutputTokensWithSchedule. cbv zeta. do 8 (let Q := fresh in settle_branch Fr Q).
  match goal with |- context [rebated_nanos c f ?u ?ce ?ob sch n] =>
    destruct (rebated_nanos_spec c f u ce ob sch n F0 ltac:(lia)) as (out & -> & Hn & Bi & B & P & P' & S & K) end.
  split_and!.
  - exists (ledger_micros (os_BilledChargeNanos out)). pose proof (ledger_micros_mono _ _ B). split; [lia|done].
  - intros ? ? ? ?. simplify_eq. split_and!; (done || lia).
  - intros V. unfold floor_kept. rewrite Hn. destruct (K V) as [Kc|Kc]; [left; by rewrite Kc|by right].
Qed.

Lemma settle_usd :
  (tf_buyerNanos facts = None ∨ tf_supplierNanos facts = None) →
  good_bill m facts sch n (settleObservedOutputTokensWithSchedule (tf_frozenCharge facts) (tf_frozenPayout facts) 0 0 false
                             estimatedIn estimatedOut expected maxTokens reported has sch n).
Proof using Pr M0 Io.
  intros Nn. destruct Pr as (M & E & _). unfold maxMoneyAbsMicros in M.
  assert (∀ t o, good_bill m facts sch n (at_freeze (tf_frozenCharge facts) (tf_frozenPayout facts) 0 0 false t o)) as Fr.
  { intros t o. split_and!; [|intros ? ? ? ?; naive_solver|by left]. exists m. split; [lia|done]. }
  unfold settleObservedOutputTokensWithSchedule. cbv zeta. settle_branch Fr Q0. settle_branch Fr Q.
  apply orb_false_iff in Q as [Q S]. apply orb_false_iff in Q as [Q _]. apply orb_false_iff in Q as [Q Nan].
  apply orb_false_iff in Q as [_ O]. apply Z.leb_gt in O.
  do 3 (let X := fresh in settle_branch Fr X). settle_branch Fr Ce. settle_branch Fr Re.
  apply Z.leb_gt in Ce. apply Z.ltb_ge in Re. set (ce := expected *w maxTokens) in *.
  assert (int64 ce) as Ice by apply wrap64_int64. set (ob := if ce <? reported then ce else reported).
  assert (0 ≤ ob ∧ int64 ob) as [Ob Iob].
  { unfold ob. destruct (Z.ltb_spec ce reported); (split; [lia|width; lia]). }
  pose proof (unused_share_no_nan estimatedOut estimatedIn ob ce O Io Nan S Ob Iob Ce Ice) as U.
  settle_branch Fr Nz.
  pose proof (rebated_usd_spec m (tf_frozenPayout facts) _ ce ob sch n ltac:(lia) U) as (Hn & k & K & B & C). rewrite <-E in Hn, B, C.
  split_and!; [by exists k|naive_solver|]. intros V. unfold floor_kept. rewrite Hn.
  destruct (C V) as [->|Cv]; [left; by rewrite B, E|by right].
Qed.
End Settle.

Lemma settled_bill docs facts m out :
  priced m facts → typed_documents docs → settleObservedOutputSettlementTaskFacts docs facts = Ok out →
  match fd_economic docs with
  | Some (Ok plan) => good_bill m facts (eco_Schedule plan) (eco_InitialTaskCount plan) out
  | _ => good_bill m facts no_schedule 0 out
  end.
Proof.
  intros P T H. unfold settleObservedOutputSettlementTaskFacts in H. apply refuse_Ok in H as [D H].
  assert (0 < m) as M0.
  { destruct P as ([M _] & E & _). destruct (decide (m = 0)) as [->|]; [|lia]. rewrite E in D.
    apply orb_false_iff in D as [D _]. apply orb_false_iff in D as [D _]. by apply orb_false_iff in D as [_ D]. }
  destruct (match tf_buyerNanos facts with Some b => _ | None => _ end) as [[c f] hn] eqn:Nn.
  apply refuse_Ok in H as [Dn H]. apply bind_Ok in H as ([sch n] & Sc & H).
  assert (good_bill m facts sch n out) as G.
  { assert (hn = true ∧ tf_buyerNanos facts = Some c ∧ tf_supplierNanos facts = Some f ∧ 0 < c ∧ 0 ≤ f ≤ c ∨
            hn = false ∧ c = 0 ∧ f = 0 ∧ (tf_buyerNanos facts = None ∨ tf_supplierNanos facts = None)) as Cs.
    { destruct (tf_buyerNanos facts), (tf_supplierNanos facts); simplify_eq; [left|right; naive_solver..].
      simpl in Dn. reflect_bools. split_and!; done || lia. }
    destruct (fd_compute docs) as [compute|] eqn:Cm.
    - apply bind_Ok in H as ([workload plan] & -> & H). apply bind_Ok in H as (_ & _ & [= <-]).
      destruct Cs as [(-> & C & F & C0 & F0)|(-> & -> & -> & No)]; [by apply settle_nanos|apply settle_usd; eauto].
    - injection H as <-. destruct P as (M & E & N). split_and!; [by exists m; split; [lia|]| |].
      + intros c' f' C' F'. destruct Cs as [(-> & C & F & ? & ?)|(_ & _ & _ & No)]; [|naive_solver]. simplify_eq. simpl. split_and!; (done || lia).
      + intros _. destruct Cs as [(-> & C & F & ? & ?)|(-> & _ & _ & No)]; by left. }
  destruct (fd_economic docs) as [[plan|]|]; [|done|by injection Sc as <- <-].
  cbn [mbind res_bind] in Sc. by apply bind_Ok in Sc as (_ & _ & [= <- <-]).
Qed.


(** A schedule, and a job of one task whose worker produced a tenth of the output: the
    token-proportional bill leaves too little, and the search raises it.  The same with
    and without nanos. *)
Definition ex_schedule : EconomicSchedule :=
  mkSchedule "v1" (f64_lit 29 1000) (f64_lit 3 10) (f64_lit 5 1) (f64_of_Z 0) (f64_lit 5 100)
    controlPlaneAllocationChargeBatchV1 (f64_lit 18 100) (f64_lit 2 10).
Definition ex_documents : frozen_documents :=
  mkDocuments (Some (Ok (mkEconomicPlan ex_schedule 1 1000000000 600000000)))
    (Some (Ok (mkWorkload "batch_infer" 256, mkComputePlan 4 "distributed" 10 8000 (f64_of_Z 2560) 2560))) (Ok tt).
Definition ex_facts (buyerNanos supplierNanos : option Z) : observedOutputSettlementTaskFacts :=
  mkFacts (microsToUSD 1000000) (microsToUSD 600000) buyerNanos supplierNanos 10 (Some 256).

