(* ===== verification/Purse.v ===== *)
(** * Purse: the prepaid balance and the ledger rows that explain it

    [store_prepaid.go] keeps, for every buyer and currency, a materialised balance
    of cash paid in, next to the ledger rows of the prepaid kinds.  This file models
    the operations that move the two together: the debits of a settled task, an SLA
    premium, a realtime contract or a service lease, and the restores that undo a
    debit after a refund.  Top-ups and card refunds are in [PrepaidCards],
    reservations in [Funding].

    The balance and the ledger are written by separate statements, and a row that is
    already there is not written again.  [purse_ok] is what has to survive that: the
    balance of every buyer and currency is the sum of its prepaid rows and is not
    negative.  Foreign keys to [buyers] are taken as satisfied. *)
From stdpp Require Import base numbers list gmap strings sorting.
From S2P Require Import Prelude.
From S2P Require Import Float64.
From S2P Require Import Currency.
From S2P Require Import LedgerWrite.
Local Open Scope Z_scope.
Local Open Scope go_scope.

Record purse := mkPurse {
  purse_books : db;
  purse_balances : gmap (UUID * string) Z
}.

Record contract := mkContract {
  ct_buyer : UUID;
  ct_currency : string;
  ct_state : string;
  accepted_ceiling_nanos : Z;         (* 0 when the decision has no fixed point *)
  maximum_price_micros : Z
}.

Record buyer := mkBuyer {
  free_credit_micros : Z;
  buyer_active : bool                  (* deleted_at IS NULL *)
}.

Definition errInsufficientPrepaid : error := Sentinel "errInsufficientPrepaid".

Definition PayoutReleased : string := "released".

Definition balance_of (p : purse) (b : UUID) (c : string) : Z := default 0 (purse_balances p !! (b, c)).

Definition set_balance (p : purse) (b : UUID) (c : string) (v : Z) : purse :=
  mkPurse (purse_books p) (<[(b, c) := v]> (purse_balances p)).

Definition with_purse_books (p : purse) (d : db) : purse := mkPurse d (purse_balances p).

(** [SELECT ... FROM ledger_entries WHERE kind=$1 AND payout_ref=$2]. *)
Definition ledger_by_ref (d : db) (k ref : string) : option row :=
  snd <$> list_find (λ r, bool_decide (kind r = k) && bool_decide (payout_ref r = Some ref) = true) (ledger d).

(** [SELECT ... FROM ledger_entries WHERE kind=$1 AND task_id=$2]. *)
Definition ledger_by_task (d : db) (k : string) (t : UUID) : option row :=
  snd <$> list_find (λ r, bool_decide (kind r = k) && bool_decide (task_id r = Some t) = true) (ledger d).

(** ** Balance statements *)

(** The upsert that adds to a balance: a [BIGINT] column with a check. *)
Definition add_balance (p : purse) (b : UUID) (c : string) (micros : Z) : res purse :=
  let v := balance_of p b c + micros in
  refuse errOutOfRange if negb (is_int64 v);
  refuse errCheckViolation if v <? 0;
  Ok (set_balance p b c v).

Definition creditPrepaidBalanceTx (p : purse) (buyerID : UUID) (amountMicros : Z) (currency : string) : res purse :=
  refuse (Errorf "prepaid credit requires positive micro-units, got %d") if amountMicros <=? 0;
  refuse (Errorf "prepaid credit requires buyer_id") if bool_decide (buyerID = uuid_Nil);
  cur ← ParseCurrency currency;
  add_balance p buyerID (code cur) amountMicros.

(** Lock the balance row, compare, subtract: shared by every debit. *)
Definition take_balance (p : purse) (b : UUID) (c : string) (amountMicros : Z) : res purse :=
  refuse errInsufficientPrepaid if balance_of p b c <? amountMicros;
  Ok (set_balance p b c (balance_of p b c - amountMicros)).

(** Take from the balance, write the row, and put the money back when the row was
    already there. *)
Definition debit_once (write : db → res (Z * db)) (p : purse) (b : UUID) (c : string) (amountMicros : Z) : res purse :=
  p ← take_balance p b c amountMicros;
  '(n, d) ← write (purse_books p);
  let p := with_purse_books p d in
  if n =? 0 then add_balance p b c amountMicros else Ok p.

Section Operations.
Context (st : settlement).

Definition prepaid_entry (k : string) (b : UUID) (task : option UUID) (micros : Z) (cur : Currency) (ref : string) :
    ledgerInsert :=
  mkLedgerInsert k None (Some b) task None micros (code cur) ledgerCurrencyAuthorityPrepaid "" PayoutReleased None
    ref "" "" "".

(** ** Debits *)

(** Debits keyed by an immutable reference: contracts and leases. *)
Definition debitPrepaidByRefTx (p : purse) (buyerID : UUID) (amountMicros : Z)
    (currency ref requireMsg conflictMsg : string) : res purse :=
  refuse (Errorf requireMsg) if bool_decide (buyerID = uuid_Nil) || (amountMicros <=? 0) || bool_decide (ref = "");
  match ParseCurrency currency with
  | Err err => Err (Wrapf err requireMsg)
  | Ok cur =>
      match ledger_by_ref (purse_books p) KindPrepaidDebit ref with
      | Some r =>
          refuse (Errorf conflictMsg)
            if negb (amount_micros r =? - amountMicros) || negb (bool_decide (row_currency r = code cur)) ||
               negb (sameOptionalUUID (buyer_id r) (Some buyerID));
          Ok p
      | None =>
          debit_once (λ d, insertLedgerEntryIfAbsentByRefTx st d
                             (prepaid_entry KindPrepaidDebit buyerID None (- amountMicros) cur ref))
            p buyerID (code cur) amountMicros
      end
  end.

Definition prepaidExecutionContractDebitRef (contractID : UUID) : string :=
  "prepaid-execution-contract-" +:+ uuid_String contractID.

Definition debitPrepaidForExecutionContractTx (contracts : gmap UUID contract) (p : purse) (buyerID contractID : UUID)
    (amountMicros : Z) : res purse :=
  refuse (Errorf "prepaid execution debit requires buyer, contract, and positive ledger micros")
    if bool_decide (contractID = uuid_Nil);
  match contracts !! contractID with
  | Some c =>
      refuse errNoRows if negb (bool_decide (ct_buyer c = buyerID));
      debitPrepaidByRefTx p buyerID amountMicros (ct_currency c) (prepaidExecutionContractDebitRef contractID)
        "prepaid execution debit requires buyer, contract, and positive ledger micros"
        "conflicting prepaid execution debit for contract %s"
  | None => Err errNoRows
  end.

(** Net buyer spend in a currency, in micros: charges less refunds. *)
Definition buyer_spent (d : db) (b : UUID) (c : string) : Z :=
  - sum_micros (λ r, bool_decide (buyer_id r = Some b) && bool_decide (row_currency r = c) &&
                     one_of (kind r) [KindBuyerCharge; KindBuyerRefund]) (ledger d).

Definition maybeDebitPrepaidForRealtimeTx (buyers : gmap UUID buyer) (contracts : gmap UUID contract) (p : purse)
    (buyerID contractID : UUID) (chargeMicros : Z) : res purse :=
  refuse (Errorf "realtime prepaid debit requires buyer, contract, and positive micros")
    if bool_decide (buyerID = uuid_Nil) || bool_decide (contractID = uuid_Nil) || (chargeMicros <=? 0);
  match buyers !! buyerID, contracts !! contractID with
  | Some b, Some c =>
      refuse errNoRows if negb (bool_decide (ct_buyer c = buyerID));
      let currency := ct_currency c in
      let freeCredit := microsToUSD (if bool_decide (currency = "usd") then free_credit_micros b else 0) in
      let spent := microsToUSD (buyer_spent (purse_books p) buyerID currency) in
      _ ← ParseCurrency currency;
      let freeRemainingMicros := usdToMicros freeCredit -w (usdToMicros spent -w chargeMicros) in
      let covered := if freeRemainingMicros <? 0 then 0 else freeRemainingMicros in
      let covered := if chargeMicros <? covered then chargeMicros else covered in
      let residualMicros := chargeMicros -w covered in
      if residualMicros =? 0 then Ok p
      else debitPrepaidForExecutionContractTx contracts p buyerID contractID residualMicros
  | _, _ => Err errNoRows
  end.

Definition debitPrepaidForTaskTx (p : purse) (buyerID taskID : UUID) (amountMicros : Z) : res purse :=
  refuse (Errorf "prepaid debit requires positive micro-USD, got %d") if amountMicros <=? 0;
  match tasks (purse_books p) !! taskID ≫= λ jobID, jobs (purse_books p) !! jobID with
  | Some j =>
      refuse errNoRows if negb (bool_decide (job_buyer j = buyerID));
      cur ← ParseCurrency (job_currency j);
      debit_once (λ d, insertLedgerEntryOnTaskConflictDoNothingTx st d
                         (prepaid_entry KindPrepaidDebit buyerID (Some taskID) (- amountMicros) cur ""))
        p buyerID (code cur) amountMicros
  | None => Err errNoRows
  end.

Definition prepaidSLAPremiumDebitRef (jobID : UUID) : string := "prepaid-sla-" +:+ uuid_String jobID.

Definition debitPrepaidForSLAPremiumTx (p : purse) (buyerID jobID : UUID) (amountMicros : Z) : res purse :=
  refuse (Errorf "prepaid SLA debit requires positive micro-USD, got %d") if amountMicros <=? 0;
  match jobs (purse_books p) !! jobID with
  | Some j =>
      refuse errNoRows if negb (bool_decide (job_buyer j = buyerID));
      cur ← ParseCurrency (job_currency j);
      debit_once (λ d, insertLedgerEntryIfAbsentByRefTx st d
                         (prepaid_entry KindPrepaidDebit buyerID None (- amountMicros) cur
                            (prepaidSLAPremiumDebitRef jobID)))
        p buyerID (code cur) amountMicros
  | None => Err errNoRows
  end.

(** ** Restores *)

Definition prepaidExecutionContractRestoreRef (contractID : UUID) : string :=
  "prepaid-execution-contract-restore-" +:+ uuid_String contractID.
Definition prepaidTaskRestoreRef (taskID : UUID) : string := "prepaid-task-restore-" +:+ uuid_String taskID.
Definition prepaidSLAPremiumRestoreRef (jobID : UUID) : string := "prepaid-sla-restore-" +:+ uuid_String jobID.

(** Write the receipt; credit the balance only when the receipt is new. *)
Definition credit_once (write : db → res (Z * db)) (p : purse) (b : UUID) (c : string) (micros : Z) : res purse :=
  '(n, d) ← write (purse_books p);
  let p := with_purse_books p d in
  if n =? 0 then Ok p else creditPrepaidBalanceTx p b micros c.

Definition restorePrepaidByDebitRefTx (p : purse) (buyerID : UUID) (currency debitRef restoreRef : string)
    (restoreMicros : Z) : res purse :=
  refuse (Errorf "prepaid restore requires buyer, debit ref, and restore ref")
    if bool_decide (buyerID = uuid_Nil) || bool_decide (debitRef = "") || bool_decide (restoreRef = "");
  if restoreMicros <=? 0 then Ok p
  else
    cur ← ParseCurrency currency;
    match ledger_by_ref (purse_books p) KindPrepaidDebit debitRef with
    | None => Err (Errorf "prepaid restore: no debit at ref %s")
    | Some r =>
        refuse (Errorf "prepaid restore: debit ref %s has non-negative amount %d") if 0 <=? amount_micros r;
        let debitAbs := - amount_micros r in
        refuse (Errorf "prepaid restore %d exceeds debit %d at ref %s") if debitAbs <? restoreMicros;
        refuse (Errorf "prepaid restore debit identity mismatch at ref %s")
          if negb (bool_decide (row_currency r = code cur)) || negb (sameOptionalUUID (buyer_id r) (Some buyerID));
        credit_once (λ d, insertLedgerEntryIfAbsentByRefTx st d
                            (prepaid_entry KindPrepaidRestore buyerID None restoreMicros cur restoreRef))
          p buyerID (code cur) restoreMicros
    end.

Definition restorePrepaidForExecutionContractRefundTx (p : purse) (buyerID contractID : UUID) (currency : string) :
    res purse :=
  refuse (Errorf "prepaid execution restore requires contract id") if bool_decide (contractID = uuid_Nil);
  let debitRef := prepaidExecutionContractDebitRef contractID in
  match ledger_by_ref (purse_books p) KindPrepaidDebit debitRef with
  | None => Ok p
  | Some r =>
      let debitAbs := - amount_micros r in
      if debitAbs <=? 0 then Ok p
      else restorePrepaidByDebitRefTx p buyerID currency debitRef (prepaidExecutionContractRestoreRef contractID) debitAbs
  end.

Definition restorePrepaidForSLAPremiumRefundTx (p : purse) (buyerID jobID : UUID) (currency : string) (refundMicros : Z) :
    res purse :=
  if bool_decide (jobID = uuid_Nil) || (refundMicros <=? 0) then Ok p
  else
    match ledger_by_ref (purse_books p) KindPrepaidDebit (prepaidSLAPremiumDebitRef jobID) with
    | None => Ok p
    | Some r =>
        let debitAbs := - amount_micros r in
        if debitAbs <=? 0 then Ok p
        else
          cur ← ParseCurrency currency;
          refuse (Errorf "prepaid SLA restore debit identity mismatch at ref %s")
            if negb (bool_decide (row_currency r = code cur)) || negb (sameOptionalUUID (buyer_id r) (Some buyerID));
          let restore := if debitAbs <? refundMicros then debitAbs else refundMicros in
          credit_once (λ d, insertLedgerEntryIfAbsentByRefTx st d
                              (prepaid_entry KindPrepaidBalanceReturn buyerID None restore cur
                                 (prepaidSLAPremiumRestoreRef jobID)))
            p buyerID (code cur) restore
    end.

Definition restorePrepaidForTaskDebitTx (p : purse) (buyerID taskID : UUID) (currency : string) : res purse :=
  refuse (Errorf "prepaid task restore requires buyer and task")
    if bool_decide (buyerID = uuid_Nil) || bool_decide (taskID = uuid_Nil);
  cur ← ParseCurrency currency;
  match ledger_by_task (purse_books p) KindPrepaidDebit taskID with
  | None => Err (Errorf "prepaid task restore: no debit on task %s")
  | Some r =>
      refuse (Errorf "prepaid task restore: debit on task %s has non-negative amount %d") if 0 <=? amount_micros r;
      let restoreMicros := - amount_micros r in
      refuse (Errorf "prepaid task restore debit identity mismatch on task %s")
        if negb (bool_decide (row_currency r = code cur)) || negb (sameOptionalUUID (buyer_id r) (Some buyerID));
      let netSpentMicros :=
        - sum_micros (λ r, bool_decide (task_id r = Some taskID) && one_of (kind r) [KindBuyerCharge; KindBuyerRefund]
                           && bool_decide (row_currency r = code cur)) (ledger (purse_books p)) in
      refuse (Errorf "prepaid task restore refused: task %s still has net spent micros %d")
        if negb (netSpentMicros =? 0);
      credit_once (λ d, insertLedgerEntryOnTaskConflictDoNothingTx st d
                          (prepaid_entry KindPrepaidRestore buyerID (Some taskID) restoreMicros cur
                             (prepaidTaskRestoreRef taskID)))
        p buyerID (code cur) restoreMicros
  end.

(** The tasks of a job whose debit has a buyer refund of the same amount; the join
    lists a task once per matching pair of rows. *)
Definition refunded_debit_tasks (d : db) (jobID : UUID) : list UUID :=
  merge_sort N.le
    (flat_map (λ r, match task_id r with
                    | Some t => if of_job d jobID r && bool_decide (kind r = KindPrepaidDebit)
                                then map (λ _, t)
                                       (filter (λ r', bool_decide (task_id r' = Some t) && bool_decide (kind r' = KindBuyerRefund)
                                                      && (- amount_micros r =? amount_micros r') = true) (ledger d))
                                else []
                    | None => []
                    end) (ledger d)).

Fixpoint restore_tasks (p : purse) (buyerID : UUID) (currency : string) (taskIDs : list UUID) : res purse :=
  match taskIDs with
  | [] => Ok p
  | t :: rest => p ← restorePrepaidForTaskDebitTx p buyerID t currency; restore_tasks p buyerID currency rest
  end.

Definition restorePrepaidForDisputeJobTasksTx (p : purse) (buyerID jobID : UUID) (currency : string) : res purse :=
  refuse (Errorf "prepaid dispute restore requires buyer and job")
    if bool_decide (buyerID = uuid_Nil) || bool_decide (jobID = uuid_Nil);
  restore_tasks p buyerID currency (refunded_debit_tasks (purse_books p) jobID).

End Operations.

(** ** The balance is explained by the ledger *)

Definition prepaid_kinds : list string :=
  [KindPrepaidTopup; KindPrepaidDebit; KindPrepaidRestore; KindPrepaidBalanceReturn; KindPrepaidRefund].

(** The sum of the prepaid rows of a buyer in a currency. *)
Definition prepaid_sum (b : UUID) (c : string) (l : list row) : Z :=
  sum_micros (λ r, one_of (kind r) prepaid_kinds && bool_decide (buyer_id r = Some b) &&
                   bool_decide (row_currency r = c)) l.

Record purse_ok (p : purse) : Prop := {
  explained : ∀ b c, balance_of p b c = prepaid_sum b c (ledger (purse_books p));
  solvent : ∀ b c, 0 ≤ balance_of p b c
}.

Lemma balance_set p b c v b' c' :
  balance_of (set_balance p b c v) b' c' = if decide (b = b' ∧ c = c') then v else balance_of p b' c'.
Proof.
  unfold balance_of, set_balance. simpl. case_decide as D.
  - destruct D as [-> ->]. by rewrite lookup_insert_eq.
  - rewrite lookup_insert_ne; [done|]. intros ?; simplify_eq. by apply D.
Qed.

Lemma balance_books p d b c : balance_of (with_purse_books p d) b c = balance_of p b c.
Proof. done. Qed.

Lemma prepaid_sum_snoc b c l r :
  kind r ∈ prepaid_kinds →
  prepaid_sum b c (l ++ [r]) =
  prepaid_sum b c l + if decide (buyer_id r = Some b ∧ row_currency r = c) then amount_micros r else 0.
Proof.
  intros K. unfold prepaid_sum. rewrite sum_micros_app, sum_micros_cons. change (sum_micros _ []) with 0.
  rewrite (proj2 (one_of_spec _ _) K). simpl. case_decide as D.
  - destruct D as [E1 E2]. rewrite !bool_decide_true by done. simpl. lia.
  - assert (bool_decide (buyer_id r = Some b) && bool_decide (row_currency r = c) = false) as ->; [|simpl; lia].
    apply not_true_iff_false. intros ?. reflect_bools. naive_solver.
Qed.

Lemma add_balance_Ok p b c m p' :
  add_balance p b c m = Ok p' → p' = set_balance p b c (balance_of p b c + m) ∧ 0 ≤ balance_of p b c + m.
Proof. unfold add_balance. intros. inv_ok. done. Qed.

Lemma credit_Ok p b m cur c p' :
  ParseCurrency cur = Ok c → creditPrepaidBalanceTx p b m cur = Ok p' →
  p' = set_balance p b (code c) (balance_of p b (code c) + m) ∧ 0 ≤ balance_of p b (code c) + m.
Proof. intros P H. unfold creditPrepaidBalanceTx in H. inv_ok. rewrite P in *. simplify_eq. by apply add_balance_Ok. Qed.

(** A write of a ledger row: it adds the row of the request, or nothing. *)
Definition writes (e : ledgerInsert) (write : db → res (Z * db)) : Prop := ∀ d n d',
  write d = Ok (n, d') →
  (n = 0 ∧ d' = d) ∨ (n = 1 ∧ ∃ r, d' = with_ledger d (ledger d ++ [r]) ∧ wrote e r).

Lemma writes_by_ref st e : writes e (λ d, insertLedgerEntryIfAbsentByRefTx st d e).
Proof.
  intros d n d' [_ [(-> & -> & _)|(-> & _ & r & -> & W & _)]]%insert_by_ref_Ok; [by left|right]. eauto.
Qed.

Lemma writes_on_task st e : writes e (λ d, insertLedgerEntryOnTaskConflictDoNothingTx st d e).
Proof. intros d n d' [(-> & -> & _)|(-> & r & -> & W & _)]%insert_on_task_Ok; [by left|right]. eauto. Qed.

#[export] Hint Resolve writes_by_ref writes_on_task : go.

(** The rows this file writes: a return is that of an SLA premium. *)
Definition sla_return (k ref : string) : Prop := k = KindPrepaidBalanceReturn → ∃ j, ref = prepaidSLAPremiumRestoreRef j.

Definition spent_row (r : row) : Prop :=
  kind r ∈ [KindPrepaidDebit; KindPrepaidRestore; KindPrepaidBalanceReturn] ∧
  ∀ ref, payout_ref r = Some ref → sla_return (kind r) ref.

(** Such rows appended; the other tables as they were. *)
Definition spent_rows (d d' : db) : Prop :=
  ∃ rs, d' = with_ledger d (ledger d ++ rs) ∧ Forall spent_row rs.

#[export] Instance spent_rows_preorder : PreOrder spent_rows.
Proof.
  split.
  - intros [l t j q]. exists []. by rewrite app_nil_r.
  - intros d1 d2 d3 (r1 & -> & F1) (r2 & -> & F2). exists (r1 ++ r2). simpl. rewrite <-app_assoc.
    split; [done|]. by apply Forall_app.
Qed.

(** One prepaid row written together with its amount keeps the balance explained. *)
Lemma purse_ok_snoc p b cur r v :
  purse_ok p → kind r ∈ prepaid_kinds → buyer_id r = Some b → row_currency r = cur →
  v = balance_of p b cur + amount_micros r → 0 ≤ v →
  purse_ok (with_purse_books (set_balance p b cur v) (with_ledger (purse_books p) (ledger (purse_books p) ++ [r]))).
Proof.
  intros [E S] K B C -> V. split; intros b' c'; rewrite balance_books, balance_set; case_decide as D.
  - destruct D as [<- <-]. simpl. rewrite prepaid_sum_snoc, decide_True, E by done. done.
  - simpl. rewrite prepaid_sum_snoc, decide_False, E by (try done; naive_solver). lia.
  - done.
  - apply S.
Qed.

Lemma purse_ok_same p d : d = purse_books p → purse_ok p → purse_ok (with_purse_books p d).
Proof. intros -> H. by destruct p. Qed.

(** A missing balance row reads as zero: two purses are the same when they read the
    same. *)
#[export] Instance purse_equiv : Equiv purse := λ p q,
  purse_books p = purse_books q ∧ ∀ b c, balance_of p b c = balance_of q b c.

#[export] Instance purse_equivalence : Equivalence (≡@{purse}).
Proof.
  split; [done|..].
  - intros p q [E B]. by split.
  - intros p q r [E1 B1] [E2 B2]. split; [congruence|]. intros. by rewrite B1.
Qed.

#[export] Instance purse_ok_proper : Proper ((≡) ==> iff) purse_ok.
Proof.
  intros p q [E B]. split; intros [X S]; split; intros b c.
  - rewrite <-B, <-E. apply X.
  - rewrite <-B. apply S.
  - rewrite B, E. apply X.
  - rewrite B. apply S.
Qed.

Section Debits.
Context (st : settlement).

(** A debit writes its row and takes the money, or changes nothing. *)
Lemma debit_once_Ok write p b cur task ref m p' :
  Currency_Valid cur = true → writes (prepaid_entry KindPrepaidDebit b task (- m) cur ref) write →
  debit_once write p b (code cur) m = Ok p' →
  m ≤ balance_of p b (code cur) ∧
  (p' ≡ p ∨
   ∃ r, wrote (prepaid_entry KindPrepaidDebit b task (- m) cur ref) r ∧
     p' = with_purse_books (set_balance p b (code cur) (balance_of p b (code cur) - m))
            (with_ledger (purse_books p) (ledger (purse_books p) ++ [r]))).
Proof using.
  intros V W H. unfold debit_once in H. apply bind_Ok in H as (p1 & T & H).
  unfold take_balance in T. apply refuse_Ok in T as [T E]. apply Z.ltb_ge in T. split; [done|].
  apply bind_Ok in H as ([n d] & Hw & H). simplify_eq. apply W in Hw as [[-> ->]|(-> & r & -> & R)]; simpl in *.
  - left. apply add_balance_Ok in H as [-> _]. split; [done|]. intros b' c'.
    rewrite balance_set, !balance_books, !balance_set. repeat case_decide; [|naive_solver..|done]. destruct_and!. subst. lia.
  - right. simplify_eq. eauto.
Qed.

(** A restore writes its receipt and returns the money, or changes nothing. *)
Lemma credit_once_Ok write p b cur e m p' :
  Currency_Valid cur = true → writes e write →
  credit_once write p b (code cur) m = Ok p' →
  p' = p ∨
  ∃ r, wrote e r ∧ 0 ≤ balance_of p b (code cur) + m ∧
    p' = with_purse_books (set_balance p b (code cur) (balance_of p b (code cur) + m))
           (with_ledger (purse_books p) (ledger (purse_books p) ++ [r])).
Proof using.
  intros V W H. unfold credit_once in H. apply bind_Ok in H as ([n d] & Hw & H).
  apply W in Hw as [[-> ->]|(-> & r & -> & R)]; simpl in *.
  - left. simplify_eq. by destruct p.
  - right. exists r. apply (credit_Ok _ _ _ _ cur) in H as [-> N]; [|by apply ParseCurrency_code].
    rewrite balance_books in *. done.
Qed.

(** An operation is honest when it keeps the balance explained and only appends rows
    of its kinds. *)
Definition honest (p p' : purse) : Prop :=
  (purse_ok p → purse_ok p') ∧ spent_rows (purse_books p) (purse_books p').

#[export] Instance honest_preorder : PreOrder honest.
Proof using.
  split; [by split|]. intros p q r [O1 S1] [O2 S2]. split; [auto|]. by etrans.
Qed.

Lemma honest_equiv p p' : p' ≡ p → honest p p'.
Proof using. intros E. split; [by rewrite E|]. destruct E as [-> _]. done. Qed.

Lemma honest_row p b cur k task ref m r v :
  k ∈ [KindPrepaidDebit; KindPrepaidRestore; KindPrepaidBalanceReturn] → sla_return k ref → Currency_Valid cur = true →
  wrote (prepaid_entry k b task m cur ref) r → v = balance_of p b (code cur) + m → 0 ≤ v →
  honest p (with_purse_books (set_balance p b (code cur) v) (with_ledger (purse_books p) (ledger (purse_books p) ++ [r]))).
Proof using.
  intros K S V [Rk Ra Rb _ Rr Rc] -> N. simpl in *. split.
  - intros O. apply purse_ok_snoc; [done| |done|by apply Rc, ParseCurrency_code|by rewrite Ra|done].
    rewrite Rk. set_solver.
  - exists [r]. split; [done|]. apply Forall_singleton. split; [by rewrite Rk|]. rewrite Rk. intros ref' E.
    rewrite Rr in E. unfold nullif in E. case_bool_decide; by simplify_eq.
Qed.

Lemma debit_once_honest write p b cur task ref m p' :
  Currency_Valid cur = true → writes (prepaid_entry KindPrepaidDebit b task (- m) cur ref) write →
  debit_once write p b (code cur) m = Ok p' → honest p p'.
Proof using.
  intros V W H. apply (debit_once_Ok _ _ _ _ task ref) in H as [L [E|(r & R & ->)]]; [by apply honest_equiv| |done..].
  eapply honest_row; [| |done|exact R|lia|lia]; [set_solver|by intros ?].
Qed.

Lemma credit_once_honest write p b cur k task ref m p' :
  k ∈ [KindPrepaidRestore; KindPrepaidBalanceReturn] → sla_return k ref →
  Currency_Valid cur = true → writes (prepaid_entry k b task m cur ref) write →
  credit_once write p b (code cur) m = Ok p' → honest p p'.
Proof using.
  intros K S V W H. eapply credit_once_Ok in H as [->|(r & R & N & ->)]; [done| |done..].
  eapply honest_row; [|exact S|done|exact R|done|done]. set_solver.
Qed.

(** Every operation of the file. *)

Ltac honest_debit H := eapply debit_once_honest; [| |exact H]; [eauto with go|apply writes_by_ref || apply writes_on_task].
Ltac honest_credit H :=
  eapply credit_once_honest; [| | | |exact H]; [| |eauto with go|apply writes_by_ref || apply writes_on_task];
  [set_solver|first [by intros ?|by eexists]].

Lemma debit_by_ref_honest p b m cur ref msg1 msg2 p' :
  debitPrepaidByRefTx st p b m cur ref msg1 msg2 = Ok p' → honest p p'.
Proof using.
  unfold debitPrepaidByRefTx. intros H. apply refuse_Ok in H as [_ H].
  destruct (ParseCurrency cur) eqn:C; [|done]. destruct (ledger_by_ref _ _ _).
  - apply refuse_Ok in H as [_ H]. by simplify_eq.
  - honest_debit H.
Qed.

Lemma debit_contract_honest contracts p b ct m p' :
  debitPrepaidForExecutionContractTx st contracts p b ct m = Ok p' → honest p p'.
Proof using.
  unfold debitPrepaidForExecutionContractTx. intros H. apply refuse_Ok in H as [_ H].
  destruct (contracts !! ct); [|done]. apply refuse_Ok in H as [_ H]. by eapply debit_by_ref_honest.
Qed.

Lemma debit_realtime_honest buyers contracts p b ct m p' :
  maybeDebitPrepaidForRealtimeTx st buyers contracts p b ct m = Ok p' → honest p p'.
Proof using.
  unfold maybeDebitPrepaidForRealtimeTx. intros H. apply refuse_Ok in H as [_ H].
  destruct (buyers !! b); [|done]. destruct (contracts !! ct); [|done]. apply refuse_Ok in H as [_ H].
  apply bind_Ok in H as (? & _ & H). cbv zeta in H. destruct (_ =? 0); [by simplify_eq|]. by eapply debit_contract_honest.
Qed.

Lemma debit_task_honest p b t m p' : debitPrepaidForTaskTx st p b t m = Ok p' → honest p p'.
Proof using.
  unfold debitPrepaidForTaskTx. intros H. apply refuse_Ok in H as [_ H]. case_match; [|done].
  apply refuse_Ok in H as [_ H]. apply bind_Ok in H as (cur & C & H). honest_debit H.
Qed.

Lemma debit_sla_honest p b j m p' : debitPrepaidForSLAPremiumTx st p b j m = Ok p' → honest p p'.
Proof using.
  unfold debitPrepaidForSLAPremiumTx. intros H. apply refuse_Ok in H as [_ H]. case_match; [|done].
  apply refuse_Ok in H as [_ H]. apply bind_Ok in H as (cur & C & H). honest_debit H.
Qed.

Lemma restore_by_ref_honest p b cur ref ref' m p' :
  restorePrepaidByDebitRefTx st p b cur ref ref' m = Ok p' → honest p p'.
Proof using.
  unfold restorePrepaidByDebitRefTx. intros H. apply refuse_Ok in H as [_ H]. case_match; [by simplify_eq|].
  apply bind_Ok in H as (c & C & H). destruct (ledger_by_ref _ _ _); [|done].
  apply refuse_Ok in H as [_ H]. cbv zeta in H. apply refuse_Ok in H as [_ H]. apply refuse_Ok in H as [_ H].
  honest_credit H.
Qed.

Lemma restore_contract_honest p b ct cur p' :
  restorePrepaidForExecutionContractRefundTx st p b ct cur = Ok p' → honest p p'.
Proof using.
  unfold restorePrepaidForExecutionContractRefundTx. intros H. apply refuse_Ok in H as [_ H]. cbv zeta in H.
  destruct (ledger_by_ref _ _ _); [|by simplify_eq]. case_match; [by simplify_eq|]. by eapply restore_by_ref_honest.
Qed.

Lemma restore_sla_honest p b j cur m p' :
  restorePrepaidForSLAPremiumRefundTx st p b j cur m = Ok p' → honest p p'.
Proof using.
  unfold restorePrepaidForSLAPremiumRefundTx. intros H. case_match; [by simplify_eq|].
  destruct (ledger_by_ref _ _ _); [|by simplify_eq]. cbv zeta in H. case_match; [by simplify_eq|].
  apply bind_Ok in H as (c & C & H). apply refuse_Ok in H as [_ H]. honest_credit H.
Qed.

Lemma restore_task_honest p b t cur p' : restorePrepaidForTaskDebitTx st p b t cur = Ok p' → honest p p'.
Proof using.
  unfold restorePrepaidForTaskDebitTx. intros H. apply refuse_Ok in H as [_ H].
  apply bind_Ok in H as (c & C & H). destruct (ledger_by_task _ _ _); [|done].
  apply refuse_Ok in H as [_ H]. cbv zeta in H. apply refuse_Ok in H as [_ H]. apply refuse_Ok in H as [_ H].
  honest_credit H.
Qed.

Lemma restore_dispute_honest p b j cur p' : restorePrepaidForDisputeJobTasksTx st p b j cur = Ok p' → honest p p'.
Proof using.
  unfold restorePrepaidForDisputeJobTasksTx. intros H. apply refuse_Ok in H as [_ H].
  revert H. generalize (refunded_debit_tasks (purse_books p) j). intros ts. revert p.
  induction ts as [|t ts IH]; simpl; intros p H; [by simplify_eq|].
  apply bind_Ok in H as (p1 & H1 & H2). etrans; [by eapply restore_task_honest|by apply IH].
Qed.

(** ** Retries *)

(** Inserting on a task again finds the row of the first time. *)
Lemma insert_on_task_again d e t n d' :
  TaskID e = Some t → insertLedgerEntryOnTaskConflictDoNothingTx st d e = Ok (n, d') →
  insertLedgerEntryOnTaskConflictDoNothingTx st d' e = Ok (0, d').
Proof using.
  intros T. unfold insertLedgerEntryOnTaskConflictDoNothingTx.
  destruct (resolveLedgerInsert st e) as [e'|] eqn:R; simpl; [|done].
  apply (resolved_wrote _ _ _ None) in R as [K _ _ Tr _ _]. rewrite T in Tr.
  set (r := row_of e' None) in *. intros H. pose proof H as H0. apply insert_one_row in H0 as [(-> & -> & _)|(-> & -> & C)]; [done|].
  unfold exec_insert. simpl. unfold insert_one. rewrite C. simpl.
  assert (existsb (λ key, task_kind_target key && collides key (ledger d ++ [r])) (index_keys r) = true) as ->.
  { apply existsb_exists. exists (KTaskKind t (kind r)). split.
    - apply list_elem_of_In. unfold index_keys. rewrite Tr. left.
    - simpl. apply collides_spec. rewrite bind_app. apply elem_of_app. right. simpl. rewrite app_nil_r.
      unfold index_keys. rewrite Tr. left. }
  simpl. by destruct d.
Qed.

(** The row a reference finds is the first of its kind with the reference. *)
Lemma ledger_by_ref_Some d k ref r :
  ledger_by_ref d k ref = Some r → r ∈ ledger d ∧ kind r = k ∧ payout_ref r = Some ref.
Proof using.
  unfold ledger_by_ref. destruct (list_find _ _) as [[i r']|] eqn:E; intros; simplify_eq/=.
  apply list_find_Some in E as (L & P & _). reflect_bools. split_and!; [by eapply list_elem_of_lookup_2|done..].
Qed.

Lemma ledger_by_ref_None d k ref :
  ledger_by_ref d k ref = None ↔ ∀ r, r ∈ ledger d → kind r = k → payout_ref r ≠ Some ref.
Proof using.
  unfold ledger_by_ref. rewrite fmap_None, list_find_None, Forall_forall. split.
  - intros H r Hr K P. apply (H r Hr). by rewrite !bool_decide_true.
  - intros H r Hr P. reflect_bools. by apply (H r).
Qed.

Lemma ledger_by_ref_snoc d k ref r :
  ledger_by_ref d k ref = None → kind r = k → payout_ref r = Some ref →
  ledger_by_ref (with_ledger d (ledger d ++ [r])) k ref = Some r.
Proof using.
  unfold ledger_by_ref. simpl. rewrite fmap_None. intros N K P. rewrite list_find_app_r by done. simpl.
  rewrite decide_True; [done|]. by rewrite !bool_decide_true.
Qed.

Lemma ledger_by_ref_prefix d k ref r rs :
  ledger_by_ref d k ref = Some r → ledger_by_ref (with_ledger d (ledger d ++ rs)) k ref = Some r.
Proof using.
  unfold ledger_by_ref. simpl. intros ([i x] & F & ->)%fmap_Some. by rewrite (list_find_app_l _ _ _ _ _ F).
Qed.

(** A debit by reference finds its own row. *)
Lemma debit_by_ref_found p b m cur ref msg1 msg2 p' :
  debitPrepaidByRefTx st p b m cur ref msg1 msg2 = Ok p' →
  ∃ c r, ParseCurrency cur = Ok c ∧ b ≠ uuid_Nil ∧ 0 < m ∧ ref ≠ "" ∧
    ledger_by_ref (purse_books p') KindPrepaidDebit ref = Some r ∧
    amount_micros r = - m ∧ row_currency r = code c ∧ buyer_id r = Some b ∧
    (ledger_by_ref (purse_books p) KindPrepaidDebit ref = None → m ≤ balance_of p b (code c) ∧ m ≤ maxMoneyAbsMicros ∧
     p' = with_purse_books (set_balance p b (code c) (balance_of p b (code c) - m))
            (with_ledger (purse_books p) (ledger (purse_books p) ++ [r]))).
Proof using.
  unfold debitPrepaidByRefTx. intros H. apply refuse_Ok in H as [G H]. reflect_bools.
  destruct (ParseCurrency cur) as [c|] eqn:C; [|done]. exists c.
  destruct (ledger_by_ref (purse_books p) KindPrepaidDebit ref) as [r|] eqn:L.
  - apply refuse_Ok in H as [X H]. simplify_eq. reflect_bools. exists r. split_and!; try done.
    unfold sameOptionalUUID in *. destruct (buyer_id r); [|done]. reflect_bools. congruence.
  - unfold debit_once in H. apply bind_Ok in H as (p1 & T & H). unfold take_balance in T.
    apply refuse_Ok in T as [T E]. simplify_eq. apply bind_Ok in H as ([n d] & W & H). reflect_bools.
    apply insert_by_ref_Ok in W as [_ [(-> & -> & r & Hr & K & P)|(-> & _ & r & -> & W & X)]].
    { by apply (proj1 (ledger_by_ref_None _ _ _) L r) in Hr. }
    destruct W as [K A B _ P Cur]. simpl in *. simplify_eq. exists r.
    assert (m ≤ maxMoneyAbsMicros) by (apply row_checks_amount in X; rewrite A in X; lia).
    assert (payout_ref r = Some ref) as P' by (rewrite P; unfold nullif; by rewrite bool_decide_false).
    split_and!; try done; [|by apply Cur, ParseCurrency_code; eauto with go].
    by apply ledger_by_ref_snoc.
Qed.

(** A prepaid debit keyed by a reference happens once.  When it succeeds,
    running it again succeeds and changes nothing, whatever the balance is by then; and
    if the reference was new, exactly the amount has left the balance, which is not
    negative. *)
Theorem debit_by_ref_once p b m cur ref msg1 msg2 p' :
  debitPrepaidByRefTx st p b m cur ref msg1 msg2 = Ok p' →
  debitPrepaidByRefTx st p' b m cur ref msg1 msg2 = Ok p' ∧
  (ledger_by_ref (purse_books p) KindPrepaidDebit ref = None →
   ∃ c, ParseCurrency cur = Ok c ∧ balance_of p' b (code c) = balance_of p b (code c) - m ∧
        0 ≤ balance_of p' b (code c)).
Proof using.
  intros H. apply debit_by_ref_found in H as (c & r & C & B & M & R & L & A & Rc & Rb & N). split.
  - unfold debitPrepaidByRefTx. rewrite C, L, A, Rc, Rb, !bool_decide_false, bool_decide_true, Z.eqb_refl by done.
    rewrite (proj2 (Z.leb_gt m 0)) by done. simpl. by rewrite bool_decide_true.
  - intros E. destruct (N E) as (Le & _ & ->). exists c. rewrite balance_books, balance_set, decide_True by done. split_and!; [done|done|lia].
Qed.

(** A task debit is retried safely only while the balance lasts.  After a
    task debit the same call changes nothing if the balance still covers the amount,
    and is refused as insufficient otherwise, although the task is already paid. *)
Theorem task_debit_retry p b t m p' :
  debitPrepaidForTaskTx st p b t m = Ok p' →
  ∃ j c, tasks (purse_books p) !! t ≫= (λ J, jobs (purse_books p) !! J) = Some j ∧ ParseCurrency (job_currency j) = Ok c ∧
  (balance_of p' b (code c) < m → debitPrepaidForTaskTx st p' b t m = Err errInsufficientPrepaid) ∧
  (m ≤ balance_of p' b (code c) → balance_of p' b (code c) ≤ max_int64 →
   ∃ p2, debitPrepaidForTaskTx st p' b t m = Ok p2 ∧ p2 ≡ p').
Proof using.
  intros H. pose proof (debit_task_honest _ _ _ _ _ H) as [_ (rs & D & _)].
  unfold debitPrepaidForTaskTx in *. apply refuse_Ok in H as [M H]. rewrite M, D. simpl.
  destruct (tasks _ !! t ≫= _) as [j|] eqn:J; [|done]. apply refuse_Ok in H as [B H]. rewrite B.
  apply bind_Ok in H as (c & C & H). exists j, c. rewrite C. simpl. split_and!; [done|done|..].
  - intros L. unfold debit_once, take_balance. by rewrite (proj2 (Z.ltb_lt _ _)) by done.
  - intros L I. unfold debit_once in H. apply bind_Ok in H as (p1 & T & H). unfold take_balance in T.
    apply refuse_Ok in T as [_ T]. simplify_eq. apply bind_Ok in H as ([n d] & W & H).
    assert (purse_books p' = d) as E.
    { destruct (n =? 0); [apply add_balance_Ok in H as [-> _]|]; by simplify_eq. }
    unfold debit_once, take_balance. rewrite (proj2 (Z.ltb_ge _ _)) by done. simpl. rewrite E.
    erewrite insert_on_task_again; [|done|exact W]. simpl. unfold add_balance.
    rewrite balance_books, balance_set, decide_True by done. reflect_bools.
    rewrite (proj2 (is_int64_spec _)) by go_lia. rewrite (proj2 (Z.ltb_ge _ _)) by lia. simpl.
    eexists. split; [done|]. split; [done|]. intros b' c'.
    rewrite balance_set, balance_books, balance_set. repeat case_decide; [|naive_solver..|done]. destruct_and!. subst. lia.
Qed.

(** ** Writing a prepaid row succeeds *)

#[local] Arguments prepaid_entry : simpl never.

Lemma prepaid_resolve k b task m cur ref s :
  k ∈ prepaid_kinds → Currency_Valid cur = true → SettlementCurrency st = Ok s →
  - maxMoneyAbsMicros ≤ m ≤ maxMoneyAbsMicros →
  resolveLedgerInsert st (prepaid_entry k b task m cur ref) = Ok (prepaid_entry k b task m cur ref).
Proof using.
  intros K V S M. unfold resolveLedgerInsert.
  assert (resolve_currency st (prepaid_entry k b task m cur ref) = Ok cur) as R.
  { unfold resolve_currency, SettlementCurrencyCode. rewrite S. simpl.
    rewrite trim_code, bool_decide_false by (done || by apply Currency_Valid_cases in V as [->|[->| ->]]). simpl.
    rewrite ParseCurrency_code by done. simpl.
    change [KindPrepaidTopup; _; _; _; _] with prepaid_kinds. rewrite (proj2 (one_of_spec _ _) K). simpl.
    by rewrite andb_false_r. }
  rewrite R. simpl.
  rewrite bool_decide_false by (intros ->; unfold prepaid_kinds in K; set_solver).
  rewrite (proj2 (Z.ltb_ge _ _)), (proj2 (Z.ltb_ge _ _)) by lia. done.
Qed.

Lemma prepaid_row_checks k b task m cur ref :
  k ∈ prepaid_kinds → Currency_Valid cur = true → - maxMoneyAbsMicros ≤ m ≤ maxMoneyAbsMicros →
  row_checks (row_of (prepaid_entry k b task m cur ref) None) = true.
Proof using.
  intros K V M. unfold row_checks. simpl. rewrite !(proj2 (Z.leb_le _ _)) by lia.
  rewrite (bool_decide_false (k = KindSupplierCredit)) by (intros ->; unfold prepaid_kinds in K; set_solver).
  by apply Currency_Valid_cases in V as [->|[->| ->]].
Qed.

Lemma prepaid_key k b m cur ref key :
  k ∈ prepaid_kinds → key ∈ index_keys (row_of (prepaid_entry k b None m cur ref) None) → key = KRef k ref.
Proof using.
  intros K. unfold index_keys, ref_family. simpl. unfold nullif. unfold prepaid_kinds in K.
  repeat (apply elem_of_cons in K as [->|K]); [simpl; destruct (bool_decide (ref = "")); set_solver..|set_solver].
Qed.

Lemma prepaid_key_ref k ref r : k ∈ prepaid_kinds → KRef k ref ∈ index_keys r → kind r = k ∧ payout_ref r = Some ref.
Proof using.
  intros K. unfold index_keys, ref_family.
  assert (k ≠ "risk_reserve" ∧ k ≠ "job_sla_premium") as [N1 N2] by (unfold prepaid_kinds in K; set_solver).
  destruct (task_id r), (execution_contract_id r), (payout_ref r); repeat case_match; set_solver.
Qed.

Lemma insert_prepaid_fresh d k b m cur ref s :
  k ∈ prepaid_kinds → Currency_Valid cur = true → SettlementCurrency st = Ok s →
  - maxMoneyAbsMicros ≤ m ≤ maxMoneyAbsMicros → ref ≠ "" → ledger_by_ref d k ref = None →
  insertLedgerEntryIfAbsentByRefTx st d (prepaid_entry k b None m cur ref) =
    Ok (1, with_ledger d (ledger d ++ [row_of (prepaid_entry k b None m cur ref) None])).
Proof using.
  intros K V S M R N. unfold insertLedgerEntryIfAbsentByRefTx. erewrite prepaid_resolve by done. simpl.
  pose proof (proj1 (ledger_by_ref_None _ _ _) N) as N'.
  rewrite (bool_decide_eq_false_2 (PayoutRef (prepaid_entry k b None m cur ref) = "")) by done.
  rewrite (proj1 (not_true_iff_false (existsb _ (ledger d)))).
  2: { intros (r & Hr%list_elem_of_In & X)%existsb_exists. reflect_bools. by apply (N' r). }
  change (ExecutionContractID _) with (@None UUID).
  unfold exec_insert, insert_rows. rewrite insert_one_fresh; [done|by apply prepaid_row_checks|].
  intros key ->%prepaid_key; [|done]. apply collides_false. intros (r' & Hk & Hr)%list_elem_of_bind.
  apply prepaid_key_ref in Hk as [? ?]; [|done]. by apply (N' r').
Qed.

(** The restore of a contract whose debit is there and whose receipt is not. *)
Lemma restore_contract_fresh p b ct currency cur s r :
  ct ≠ uuid_Nil → b ≠ uuid_Nil → ParseCurrency currency = Ok cur → SettlementCurrency st = Ok s →
  ledger_by_ref (purse_books p) KindPrepaidDebit (prepaidExecutionContractDebitRef ct) = Some r →
  ledger_by_ref (purse_books p) KindPrepaidRestore (prepaidExecutionContractRestoreRef ct) = None →
  buyer_id r = Some b → row_currency r = code cur → - maxMoneyAbsMicros ≤ amount_micros r < 0 →
  0 ≤ balance_of p b (code cur) → int64 (balance_of p b (code cur) - amount_micros r) →
  ∃ r', kind r' = KindPrepaidRestore ∧ payout_ref r' = Some (prepaidExecutionContractRestoreRef ct) ∧
    restorePrepaidForExecutionContractRefundTx st p b ct currency =
      Ok (with_purse_books (set_balance p b (code cur) (balance_of p b (code cur) - amount_micros r))
            (with_ledger (purse_books p) (ledger (purse_books p) ++ [r']))).
Proof using.
  intros Ct B C S L N Rb Rc A P I. unfold restorePrepaidForExecutionContractRefundTx, restorePrepaidByDebitRefTx.
  eexists (row_of (prepaid_entry KindPrepaidRestore b None (- amount_micros r) cur
                    (prepaidExecutionContractRestoreRef ct)) None).
  split_and!; [done|done|]. rewrite L, C. simpl. rewrite Rb, Rc. simpl. rewrite !bool_decide_false by done.
  rewrite (proj2 (Z.leb_gt _ 0)), (proj2 (Z.leb_gt 0 _)), Z.ltb_irrefl by lia. simpl. rewrite !bool_decide_true by done. simpl.
  unfold credit_once. erewrite insert_prepaid_fresh; [|set_solver|by eauto with go|done|lia|done|done]. simpl.
  unfold creditPrepaidBalanceTx. rewrite (proj2 (Z.leb_gt _ 0)), ParseCurrency_code, bool_decide_false by eauto with lia go. simpl.
  unfold add_balance. rewrite balance_books, (proj2 (is_int64_spec _)) by done.
  rewrite (proj2 (Z.ltb_ge _ 0)) by lia. done.
Qed.

(** The restore of a contract whose receipt is there changes nothing. *)
Lemma restore_contract_again p b ct currency cur s r r' :
  ct ≠ uuid_Nil → b ≠ uuid_Nil → ParseCurrency currency = Ok cur → SettlementCurrency st = Ok s →
  ledger_by_ref (purse_books p) KindPrepaidDebit (prepaidExecutionContractDebitRef ct) = Some r →
  r' ∈ ledger (purse_books p) → kind r' = KindPrepaidRestore →
  payout_ref r' = Some (prepaidExecutionContractRestoreRef ct) →
  buyer_id r = Some b → row_currency r = code cur → - maxMoneyAbsMicros ≤ amount_micros r < 0 →
  restorePrepaidForExecutionContractRefundTx st p b ct currency = Ok p.
Proof using.
  intros Ct B C S L R' K' P' Rb Rc A. unfold restorePrepaidForExecutionContractRefundTx, restorePrepaidByDebitRefTx.
  rewrite L, C. simpl. rewrite Rb, Rc. simpl. rewrite !bool_decide_false by done.
  rewrite (proj2 (Z.leb_gt _ 0)), (proj2 (Z.leb_gt 0 _)), Z.ltb_irrefl by lia. simpl. rewrite !bool_decide_true by done. simpl.
  unfold credit_once, insertLedgerEntryIfAbsentByRefTx. erewrite prepaid_resolve; [|set_solver|by eauto with go|done|lia].
  simpl. rewrite (proj2 (existsb_exists _ _)).
  - simpl. by destruct p as [[] ?].
  - exists r'. split; [by apply list_elem_of_In|]. simpl. by rewrite !bool_decide_true.
Qed.

(** Refunding a realtime contract undoes its prepaid debit.  After a
    first debit for the contract, the restore succeeds, every balance is again what it
    was before the debit, and restoring once more changes nothing. *)
Theorem contract_refund_restores contracts c p b ct m p' s :
  contracts !! ct = Some c → SettlementCurrency st = Ok s →
  ledger_by_ref (purse_books p) KindPrepaidDebit (prepaidExecutionContractDebitRef ct) = None →
  ledger_by_ref (purse_books p) KindPrepaidRestore (prepaidExecutionContractRestoreRef ct) = None →
  (∀ b' c', int64 (balance_of p b' c')) →
  debitPrepaidForExecutionContractTx st contracts p b ct m = Ok p' →
  ∃ p2, restorePrepaidForExecutionContractRefundTx st p' b ct (ct_currency c) = Ok p2 ∧
    (∀ b' c', balance_of p2 b' c' = balance_of p b' c') ∧
    restorePrepaidForExecutionContractRefundTx st p2 b ct (ct_currency c) = Ok p2.
Proof using.
  intros Hc S N1 N2 I H. unfold debitPrepaidForExecutionContractTx in H. rewrite Hc in H.
  apply refuse_Ok in H as [Ct H]. apply refuse_Ok in H as [_ H]. reflect_bools.
  apply debit_by_ref_found in H as (cur & r & C & B & M & _ & L & A & Rc & Rb & F).
  destruct (F N1) as (Le & Mx & E). assert (kind r = KindPrepaidDebit) as K by (apply ledger_by_ref_Some in L; naive_solver).
  assert (balance_of p' b (code cur) = balance_of p b (code cur) - m) as Bal.
  { by rewrite E, balance_books, balance_set, decide_True. }
  destruct (restore_contract_fresh p' b ct (ct_currency c) cur s r) as (r' & K' & P' & R);
    [done|done|done|done|done| |done|done|lia|lia| |].
  - rewrite E. simpl. apply ledger_by_ref_None. simpl. intros r0 [Hr| ->%list_elem_of_singleton]%elem_of_app; [|by rewrite K].
    by apply (proj1 (ledger_by_ref_None _ _ _) N2).
  - rewrite Bal, A. replace (_ - _) with (balance_of p b (code cur)) by lia. apply I.
  - rewrite R. eexists. split; [done|]. split.
    + intros b' c'. rewrite balance_books, balance_set, Bal, A, E, balance_books, balance_set.
      repeat case_decide; [destruct_and!; subst; lia|done].
    + eapply (restore_contract_again _ b ct _ cur s r r'); [done|done|done|done| | |done|done|done|done|lia].
      * by apply ledger_by_ref_prefix.
      * simpl. set_solver.
Qed.

End Debits.

(** ** A concrete purse *)

Definition cad_st : settlement := mkSettlement true (mkCurrency "cad" 2).
Definition ex_books : db := mkDb [] {[ 21%N := 31%N ]} {[ 31%N := mkJob "usd" None 7%N "running" true 0 ]} ∅.
Definition ex_purse : purse := mkPurse ex_books {[ (7%N, "usd") := 5000000 ]}.
Definition ex_contracts : gmap UUID contract := {[ 11%N := mkContract 7%N "usd" "settled" 3000000000 3000000 ]}.

Lemma debit_by_ref_once_witness :
  ∃ p', debitPrepaidByRefTx cad_st ex_purse 7%N 3000000 " USD" "lease-1" "require" "conflict" = Ok p' ∧
    debitPrepaidByRefTx cad_st p' 7%N 3000000 " USD" "lease-1" "require" "conflict" = Ok p' ∧
    (ledger_by_ref (purse_books ex_purse) KindPrepaidDebit "lease-1" = None →
     ∃ c, ParseCurrency " USD" = Ok c ∧ balance_of p' 7%N (code c) = balance_of ex_purse 7%N (code c) - 3000000 ∧
          0 ≤ balance_of p' 7%N (code c)).
Proof.
  eexists. split; [vm_compute; reflexivity|]. apply debit_by_ref_once. vm_compute. reflexivity.
Defined.

Lemma task_debit_retry_witness :
  ∃ p', debitPrepaidForTaskTx cad_st ex_purse 7%N 21%N 3000000 = Ok p' ∧
    debitPrepaidForTaskTx cad_st p' 7%N 21%N 3000000 = Err errInsufficientPrepaid.
Proof.
  eexists. split; [vm_compute; reflexivity|].
  destruct (task_debit_retry cad_st ex_purse 7%N 21%N 3000000 _ ltac:(vm_compute; reflexivity)) as (j & c & J & C & H & _).
  apply H. vm_compute in J. injection J as <-. vm_compute in C. injection C as <-. vm_compute. reflexivity.
Defined.

Definition ex_debited : purse :=
  ok_or ex_purse (debitPrepaidForExecutionContractTx cad_st ex_contracts ex_purse 7%N 11%N 2999999).

Lemma contract_refund_restores_witness :
  debitPrepaidForExecutionContractTx cad_st ex_contracts ex_purse 7%N 11%N 2999999 = Ok ex_debited ∧
  balance_of ex_debited 7%N "usd" = 2000001 ∧
  ∃ p2, restorePrepaidForExecutionContractRefundTx cad_st ex_debited 7%N 11%N "usd" = Ok p2 ∧
    (∀ b c, balance_of p2 b c = balance_of ex_purse b c) ∧
    restorePrepaidForExecutionContractRefundTx cad_st p2 7%N 11%N "usd" = Ok p2.
Proof.
  split; [vm_compute; reflexivity|]. split; [vm_compute; reflexivity|].
  apply (contract_refund_restores cad_st ex_contracts (mkContract 7%N "usd" "settled" 3000000000 3000000) ex_purse
           7%N 11%N 2999999 ex_debited (mkCurrency "cad" 2)); [vm_compute; reflexivity..| |vm_compute; reflexivity].
  intros b c. unfold balance_of. simpl. rewrite lookup_singleton. case_decide; vm_compute; split; discriminate.
Defined.
