(* ===== verification/Envelopes.v ===== *)
(** * Envelopes: pre-authorised spend grants ([execution_envelope.go])

    A buyer reserves a cap of funds once and then spends it request by request.
    Every request holds its ceiling against the envelope in one [UPDATE], bound to a
    spend row; settlement captures what was used, failure voids the hold, sweeps
    expire envelopes and void the holds of contracts that died.

    The state is the three tables of the component and the contracts they refer to.
    Each operation is one transaction, or the part of one that a caller's transaction
    runs; an error leaves the tables as they were.  [seen] is what the first [SELECT]
    of [reserveEnvelopeSpendTx] reads: it runs before the row lock of the [UPDATE] is
    taken, so that another transaction may commit in between.  [now] stands for SQL's
    [now()] and Go's clock; a grace period keeps its exact length.  Details of events
    other than their kind are not kept. *)
From stdpp Require Import base numbers list gmap strings sorting.
From S2P Require Import Prelude.
From S2P Require Import Float64.
From S2P Require Import Currency.
From S2P Require Import MoneyNanos.
From S2P Require Import LedgerWrite.
From S2P Require Import Purse.
Local Open Scope Z_scope.
Local Open Scope go_scope.

(** ** Tables *)

Inductive envelope_state := ENV_ACTIVE | ENV_EXPIRED | ENV_CLOSED.

#[export] Instance envelope_state_eq_dec : EqDecision envelope_state.
Proof. solve_decision. Defined.

(** The columns frozen at creation. *)
Record grant := mkGrant {
  env_BuyerID : UUID;
  env_Currency : string;
  CapNanos : Z;
  MaxRequests : Z;
  MaxTokens : Z;                       (* 0: no limit *)
  PerRequestCeilingNanos : Z;
  env_ProfileID : string;
  env_ProfileSHA256 : string;
  env_ModelAlias : string;
  env_ExpiresAt : Z
}.

Record envelope := mkEnvelope {
  env_grant : grant;
  SpentNanos : Z;
  env_ReservedNanos : Z;
  RequestCount : Z;
  TokenCount : Z;
  env_State : envelope_state;
  env_Version : Z;
  ClosedAt : option Z
}.

Inductive spend_state := RESERVED | CAPTURED | RELEASED | VOIDED.

#[export] Instance spend_state_eq_dec : EqDecision spend_state.
Proof. solve_decision. Defined.

Record spend := mkSpend {
  sp_EnvelopeID : UUID;
  sp_BuyerID : UUID;
  IdempotencyKey : string;
  RequestID : string;
  ContractID : option UUID;
  sp_State : spend_state;
  ReservedNanos : Z;
  CapturedNanos : Z;
  ReservedTokens : Z;
  CapturedTokens : Z;
  sp_CreatedAt : Z;
  sp_FinalizedAt : option Z
}.

#[export] Instance spend_eq_dec : EqDecision spend.
Proof. solve_decision. Defined.

Record envstore := mkEnvstore {
  envelopes : gmap UUID envelope;
  spends : gmap UUID spend;
  env_contracts : gmap UUID contract;
  env_events : list (UUID * string)
}.

Definition with_envelopes (s : envstore) (x : gmap UUID envelope) : envstore :=
  mkEnvstore x (spends s) (env_contracts s) (env_events s).
Definition with_spends (s : envstore) (x : gmap UUID spend) : envstore :=
  mkEnvstore (envelopes s) x (env_contracts s) (env_events s).
Definition with_contracts (s : envstore) (x : gmap UUID contract) : envstore :=
  mkEnvstore (envelopes s) (spends s) x (env_events s).
Definition log_envelope (s : envstore) (id : UUID) (kind : string) : envstore :=
  mkEnvstore (envelopes s) (spends s) (env_contracts s) (env_events s ++ [(id, kind)]).

(** The row checks of [execution_envelopes]. *)
Definition envelope_checks (e : envelope) : bool :=
  let g := env_grant e in
  (0 <? CapNanos g) && (0 <=? SpentNanos e) && (0 <=? env_ReservedNanos e) && (0 <? MaxRequests g) &&
  (0 <=? RequestCount e) && (0 <=? MaxTokens g) && (0 <=? TokenCount e) && (0 <? PerRequestCeilingNanos g) &&
  (0 <=? env_Version e) && (SpentNanos e + env_ReservedNanos e <=? CapNanos g) &&
  (RequestCount e <=? MaxRequests g) && (PerRequestCeilingNanos g <=? CapNanos g) &&
  ((MaxTokens g =? 0) || (TokenCount e <=? MaxTokens g)) &&
  Bool.eqb (bool_decide (env_State e = ENV_ACTIVE)) (bool_decide (ClosedAt e = None)).

(** The row checks of [execution_envelope_spends]; that the key is not blank follows
    from how it is made. *)
Definition spend_checks (sp : spend) : bool :=
  (0 <? ReservedNanos sp) && (0 <=? CapturedNanos sp) && (0 <=? ReservedTokens sp) && (0 <=? CapturedTokens sp) &&
  match sp_State sp with
  | RESERVED => bool_decide (sp_FinalizedAt sp = None) && (CapturedNanos sp =? 0)
  | CAPTURED => bool_decide (sp_FinalizedAt sp ≠ None) && (0 <? CapturedNanos sp) && (CapturedNanos sp <=? ReservedNanos sp)
  | RELEASED | VOIDED => bool_decide (sp_FinalizedAt sp ≠ None) && (CapturedNanos sp =? 0)
  end.

Definition envelope_widths (e : envelope) : bool :=
  is_int64 (CapNanos (env_grant e)) && is_int64 (SpentNanos e) && is_int64 (env_ReservedNanos e) && is_int64 (RequestCount e) &&
  is_int64 (TokenCount e) && is_int64 (env_Version e).

Definition write_envelope (s : envstore) (id : UUID) (e : envelope) : res envstore :=
  refuse errOutOfRange if negb (envelope_widths e);
  refuse errCheckViolation if negb (envelope_checks e);
  Ok (with_envelopes s (<[id := e]> (envelopes s))).

Definition update_spend (s : envstore) (id : UUID) (sp : spend) : res envstore :=
  refuse errCheckViolation if negb (spend_checks sp);
  Ok (with_spends s (<[id := sp]> (spends s))).

Definition by_key (envelopeID : UUID) (key : string) (sp : spend) : bool :=
  bool_decide (sp_EnvelopeID sp = envelopeID) && bool_decide (IdempotencyKey sp = key).

Definition by_contract (contractID : UUID) (sp : spend) : bool := bool_decide (ContractID sp = Some contractID).

(** [INSERT INTO execution_envelope_spends], with its unique keys. *)
Definition insert_spend (s : envstore) (id : UUID) (sp : spend) : res envstore :=
  refuse errUniqueViolation
    if bool_decide (spends s !! id ≠ None) || bool_decide (find_row (by_key (sp_EnvelopeID sp) (IdempotencyKey sp)) (spends s) ≠ None);
  update_spend s id sp.

(** ** Errors *)

Definition errEnvelopeNotFound : error := Sentinel "errEnvelopeNotFound".
Definition errEnvelopeExpired : error := Sentinel "errEnvelopeExpired".
Definition errEnvelopeInsufficient : error := Sentinel "errEnvelopeInsufficient".
Definition errEnvelopeCeilingExceeded : error := Sentinel "errEnvelopeCeilingExceeded".
Definition errEnvelopeScopeMismatch : error := Sentinel "errEnvelopeScopeMismatch".
Definition errEnvelopeIdempotencyConflict : error := Sentinel "errEnvelopeIdempotencyConflict".

(** What the operations read of a [VLLMRuntimeProfile]. *)
Record envelope_profile := mkEnvProfile {
  vp_RuntimeProfileID : string;
  vp_ProfileSHA256 : string;
  vp_ModelAlias : string;
  BuyerInputUSDPerMillionTokens : f64;
  BuyerOutputUSDPerMillionTokens : f64
}.

(** ** Reserving *)

(** The [WHERE] clause of the claim, its sums as [BIGINT] additions. *)
Definition claimable (e : envelope) (buyerID : UUID) (needNanos reserveTokens now : Z) (profile : envelope_profile) :
    res bool :=
  let g := env_grant e in
  if negb (bool_decide (env_BuyerID g = buyerID)) || negb (bool_decide (env_State e = ENV_ACTIVE)) ||
     negb (now <? env_ExpiresAt g) || negb (0 <? needNanos) || negb (needNanos <=? PerRequestCeilingNanos g) then Ok false
  else
    refuse errOutOfRange if negb (is_int64 (SpentNanos e + env_ReservedNanos e + needNanos));
    if negb (SpentNanos e + env_ReservedNanos e + needNanos <=? CapNanos g) then Ok false
    else
      refuse errOutOfRange if negb (is_int64 (RequestCount e + 1));
      if negb (RequestCount e + 1 <=? MaxRequests g) then Ok false
      else
        refuse errOutOfRange if negb (MaxTokens g =? 0) && negb (is_int64 (TokenCount e + reserveTokens));
        Ok (((MaxTokens g =? 0) || (TokenCount e + reserveTokens <=? MaxTokens g)) &&
            bool_decide (env_ProfileID g = vp_RuntimeProfileID profile) &&
            bool_decide (env_ProfileSHA256 g = vp_ProfileSHA256 profile)).

Definition claim (e : envelope) (needNanos reserveTokens : Z) : envelope :=
  mkEnvelope (env_grant e) (SpentNanos e) (env_ReservedNanos e + needNanos) (RequestCount e + 1)
    (TokenCount e + reserveTokens) (env_State e) (env_Version e + 1) (ClosedAt e).

(** The probe that names why the claim matched no row. *)
Definition claim_refusal (row : option envelope) (buyerID : UUID) (needNanos now : Z) (profile : envelope_profile) : error :=
  match row with
  | None => errEnvelopeNotFound
  | Some e =>
      let g := env_grant e in
      if negb (bool_decide (env_BuyerID g = buyerID)) then errEnvelopeNotFound
      else if negb (bool_decide (env_State e = ENV_ACTIVE)) || negb (now <? env_ExpiresAt g) then errEnvelopeExpired
      else if negb (bool_decide (env_ProfileID g = vp_RuntimeProfileID profile)) ||
              negb (bool_decide (env_ProfileSHA256 g = vp_ProfileSHA256 profile)) then errEnvelopeScopeMismatch
      else if PerRequestCeilingNanos g <? needNanos then errEnvelopeCeilingExceeded
      else errEnvelopeInsufficient
  end.

(** A spend that is already there answers the request it was made for. *)
Definition replay_spend (found : UUID * spend) (buyerID : UUID) (needNanos : Z) (requestID : string) : res (UUID * spend) :=
  let existing := found.2 in
  refuse errEnvelopeIdempotencyConflict
    if negb (bool_decide (sp_BuyerID existing = buyerID)) || negb (ReservedNanos existing =? needNanos);
  refuse errEnvelopeIdempotencyConflict
    if negb (bool_decide (requestID = "")) && negb (bool_decide (RequestID existing = "")) &&
       negb (bool_decide (RequestID existing = requestID));
  Ok found.

(** The claim and the spend row.  The recovery the code attempts after a unique
    violation runs in the same transaction, which the violation has aborted. *)
Definition claim_spend (s : envstore) (spendID envelopeID buyerID : UUID) (needNanos reserveTokens : Z)
    (idempotencyKey requestID : string) (profile : envelope_profile) (now : Z) : res ((UUID * spend) * envstore) :=
  match envelopes s !! envelopeID with
  | None => Err (claim_refusal None buyerID needNanos now profile)
  | Some e =>
      ok ← claimable e buyerID needNanos reserveTokens now profile;
      refuse (claim_refusal (Some e) buyerID needNanos now profile) if negb ok;
      s ← write_envelope s envelopeID (claim e needNanos reserveTokens);
      let sp := mkSpend envelopeID buyerID idempotencyKey requestID None RESERVED needNanos 0 reserveTokens 0 now None in
      match insert_spend s spendID sp with
      | Err e => Err (if bool_decide (e = errUniqueViolation) then errInFailedTransaction else e)
      | Ok s => Ok ((spendID, sp), log_envelope s envelopeID "SPEND_RESERVED")
      end
  end.

Definition reserveEnvelopeSpendTx (seen s : envstore) (spendID envelopeID buyerID : UUID) (needNanos reserveTokens : Z)
    (idempotencyKey requestID : string) (profile : envelope_profile) (now : Z) : res ((UUID * spend) * envstore) :=
  refuse (Errorf "envelope spend requires envelope, buyer, and positive nanos")
    if bool_decide (envelopeID = uuid_Nil) || bool_decide (buyerID = uuid_Nil) || (needNanos <=? 0);
  let idempotencyKey := trim_space idempotencyKey in
  refuse (Errorf "envelope spend requires an idempotency key") if bool_decide (idempotencyKey = "");
  refuse (Errorf "envelope reserved tokens cannot be negative") if reserveTokens <? 0;
  match find_row (by_key envelopeID idempotencyKey) (spends seen) with
  | Some found => r ← replay_spend found buyerID needNanos requestID; Ok (r, s)
  | None => claim_spend s spendID envelopeID buyerID needNanos reserveTokens idempotencyKey requestID profile now
  end.

Definition bind_contract (sp : spend) (contractID : UUID) : spend :=
  mkSpend (sp_EnvelopeID sp) (sp_BuyerID sp) (IdempotencyKey sp) (RequestID sp) (Some contractID) (sp_State sp)
    (ReservedNanos sp) (CapturedNanos sp) (ReservedTokens sp) (CapturedTokens sp) (sp_CreatedAt sp) (sp_FinalizedAt sp).

Definition bindEnvelopeSpendContractTx (s : envstore) (spendID contractID : UUID) : res envstore :=
  match spends s !! spendID with
  | Some sp =>
      refuse (Errorf "envelope spend could not bind contract")
        if negb (bool_decide (sp_State sp = RESERVED)) || bool_decide (ContractID sp ≠ None);
      refuse errUniqueViolation if bool_decide (find_row (by_contract contractID) (spends s) ≠ None);
      update_spend s spendID (bind_contract sp contractID)
  | None => Err (Errorf "envelope spend could not bind contract")
  end.

(** ** Capturing and releasing *)

Definition finalize (sp : spend) (state : spend_state) (nanos tokens now : Z) : spend :=
  mkSpend (sp_EnvelopeID sp) (sp_BuyerID sp) (IdempotencyKey sp) (RequestID sp) (ContractID sp) state
    (ReservedNanos sp) nanos (ReservedTokens sp) tokens (sp_CreatedAt sp) (Some now).

(** [SET reserved_nanos -= reserved, spent_nanos += captured, token_count -= tokens]. *)
Definition settle_hold (e : envelope) (reserved captured tokens : Z) : envelope :=
  mkEnvelope (env_grant e) (SpentNanos e + captured) (env_ReservedNanos e - reserved) (RequestCount e)
    (TokenCount e - tokens) (env_State e) (env_Version e + 1) (ClosedAt e).

Definition captureEnvelopeSpendTx (s : envstore) (contractID : UUID) (capturedNanos capturedTokens now : Z) : res envstore :=
  refuse (Errorf "envelope capture requires contract and positive captured nanos")
    if bool_decide (contractID = uuid_Nil) || (capturedNanos <=? 0);
  refuse (Errorf "envelope captured tokens cannot be negative") if capturedTokens <? 0;
  match find_row (by_contract contractID) (spends s) with
  | None => Ok s
  | Some (spendID, sp) =>
      if bool_decide (sp_State sp = CAPTURED) then
        refuse (Errorf "envelope spend already captured at %d nanos, not %d") if negb (CapturedNanos sp =? capturedNanos);
        Ok s
      else
        refuse (Errorf "envelope spend in state %s cannot be captured") if negb (bool_decide (sp_State sp = RESERVED));
        refuse (Errorf "captured %d nanos exceeds reserved %d") if ReservedNanos sp <? capturedNanos;
        let capturedTokens := if ReservedTokens sp <? capturedTokens then ReservedTokens sp else capturedTokens in
        let tokenRelease := ReservedTokens sp - capturedTokens in
        match envelopes s !! sp_EnvelopeID sp with
        | None => Err (Errorf "envelope capture failed capacity accounting")
        | Some e =>
            refuse (Errorf "envelope capture failed capacity accounting")
              if negb (ReservedNanos sp <=? env_ReservedNanos e) ||
                 negb (SpentNanos e + capturedNanos <=? CapNanos (env_grant e)) || negb (tokenRelease <=? TokenCount e);
            s ← write_envelope s (sp_EnvelopeID sp) (settle_hold e (ReservedNanos sp) capturedNanos tokenRelease);
            s ← update_spend s spendID (finalize sp CAPTURED capturedNanos capturedTokens now);
            Ok (log_envelope s (sp_EnvelopeID sp) "SPEND_CAPTURED")
        end
  end.

(** Give a hold back to its envelope and void the spend; [msg] is the caller's error. *)
Definition void_spend (s : envstore) (spendID : UUID) (sp : spend) (now : Z) (msg : string) : res envstore :=
  match envelopes s !! sp_EnvelopeID sp with
  | None => Err (Errorf msg)
  | Some e =>
      refuse (Errorf msg) if negb (ReservedNanos sp <=? env_ReservedNanos e) || negb (ReservedTokens sp <=? TokenCount e);
      s ← write_envelope s (sp_EnvelopeID sp) (settle_hold e (ReservedNanos sp) 0 (ReservedTokens sp));
      s ← update_spend s spendID (finalize sp VOIDED (CapturedNanos sp) (CapturedTokens sp) now);
      Ok (log_envelope s (sp_EnvelopeID sp) "SPEND_VOIDED")
  end.

Definition releaseEnvelopeSpendForContractTx (s : envstore) (contractID : UUID) (now : Z) : res envstore :=
  if bool_decide (contractID = uuid_Nil) then Ok s
  else
    match find_row (by_contract contractID) (spends s) with
    | None => Ok s
    | Some (spendID, sp) =>
        match sp_State sp with
        | RELEASED | VOIDED | CAPTURED => Ok s
        | RESERVED => void_spend s spendID sp now "envelope release failed capacity accounting"
        end
    end.

(** ** Sweeps *)

Definition expire_envelope (s : envstore) (id : UUID) (now : Z) : res envstore :=
  match envelopes s !! id with
  | Some e =>
      s ← (if bool_decide (env_State e = ENV_ACTIVE)
           then write_envelope s id (mkEnvelope (env_grant e) (SpentNanos e) (env_ReservedNanos e) (RequestCount e) (TokenCount e)
                                       ENV_EXPIRED (env_Version e + 1) (Some now))
           else Ok s);
      Ok (log_envelope s id "EXPIRED")
  | None => Err errForeignKey
  end.

Fixpoint expire_each (s : envstore) (now : Z) (ids : list UUID) : res envstore :=
  match ids with
  | [] => Ok s
  | id :: rest => s ← expire_envelope s id now; expire_each s now rest
  end.

Definition ReleaseExpiredExecutionEnvelopes (s : envstore) (now limit : Z) : res (Z * envstore) :=
  refuse (Errorf "invalid envelope expiry limit") if (limit <? 1) || (1000 <? limit);
  let ids := select_due (λ e, bool_decide (env_State e = ENV_ACTIVE) && (env_ExpiresAt (env_grant e) <=? now))
               (λ e, env_ExpiresAt (env_grant e)) limit (envelopes s) in
  s ← expire_each s now ids;
  Ok (Z.of_nat (length ids), s).

(** The clause of the orphan sweep: an old hold without a contract, or a hold whose
    contract ended. *)
Definition is_orphan (contracts : gmap UUID contract) (now grace : Z) (sp : spend) : bool :=
  bool_decide (sp_State sp = RESERVED) &&
  match ContractID sp with
  | None => sp_CreatedAt sp <? now - grace
  | Some c => match contracts !! c with
              | Some ct => one_of (ct_state ct) ["FAILED"; "CANCELLED"; "VERIFIED"]
              | None => false
              end
  end.

Fixpoint void_each (s : envstore) (now : Z) (orphans : list (UUID * spend)) (released : Z) : res (Z * envstore) :=
  match orphans with
  | [] => Ok (released, s)
  | (id, sp) :: rest =>
      verified ← (match ContractID sp with
                  | None => Ok false
                  | Some c => match env_contracts s !! c with
                              | None => Err errNoRows
                              | Some ct => Ok (bool_decide (ct_state ct = "VERIFIED"))
                              end
                  end);
      if verified : bool then void_each (log_envelope s (sp_EnvelopeID sp) "SPEND_VOIDED") now rest released
      else
        s ← void_spend s id sp now "orphan envelope release failed capacity accounting";
        void_each s now rest (released + 1)
  end.

Definition RecoverOrphanEnvelopeSpends (s : envstore) (now grace limit : Z) : res (Z * envstore) :=
  refuse (Errorf "invalid envelope orphan recovery bounds") if (grace <? 0) || (limit <? 1) || (1000 <? limit);
  let ids := select_due (is_orphan (env_contracts s) now grace) sp_CreatedAt limit (spends s) in
  void_each s now (omap (λ id, (λ sp, (id, sp)) <$> spends s !! id) ids) 0.

Definition SpendExecutionEnvelope (s : envstore) (spendID envelopeID buyerID : UUID) (needNanos reserveTokens : Z)
    (idempotencyKey requestID : string) (profile : envelope_profile) (now : Z) : res ((UUID * spend) * envstore) :=
  reserveEnvelopeSpendTx s s spendID envelopeID buyerID needNanos reserveTokens idempotencyKey requestID profile now.

(** ** The books of an envelope *)

Definition held_of (sp : spend) : Z := match sp_State sp with RESERVED => ReservedNanos sp | _ => 0 end.
Definition spent_of (sp : spend) : Z := match sp_State sp with CAPTURED => CapturedNanos sp | _ => 0 end.
Definition tokens_of (sp : spend) : Z :=
  match sp_State sp with RESERVED => ReservedTokens sp | CAPTURED => CapturedTokens sp | _ => 0 end.

(** The sum of a measure over the spends of an envelope. *)
Definition booked (f : spend → Z) (s : envstore) (id : UUID) : Z :=
  sum_over (λ _ sp, if decide (sp_EnvelopeID sp = id) then f sp else 0) (spends s).

(** The counters of an envelope are the sums of its spends. *)
Definition counted (s : envstore) (id : UUID) (e : envelope) : Prop :=
  SpentNanos e = booked spent_of s id ∧ env_ReservedNanos e = booked held_of s id ∧
  TokenCount e = booked tokens_of s id ∧ RequestCount e = booked (λ _, 1) s id.

(** A spend belongs to an envelope of its buyer and respects its ceiling. *)
Definition spend_of (s : envstore) (sp : spend) : Prop :=
  ∃ e, envelopes s !! sp_EnvelopeID sp = Some e ∧ env_BuyerID (env_grant e) = sp_BuyerID sp ∧
       ReservedNanos sp ≤ PerRequestCeilingNanos (env_grant e).

Record env_ok (s : envstore) : Prop := {
  ok_counted id e : envelopes s !! id = Some e → counted s id e;
  ok_envelope id e : envelopes s !! id = Some e → envelope_widths e = true ∧ envelope_checks e = true;
  ok_spend i sp : spends s !! i = Some sp → spend_checks sp = true ∧ spend_of s sp;
  ok_keys i j sp sp' : spends s !! i = Some sp → spends s !! j = Some sp' →
    sp_EnvelopeID sp = sp_EnvelopeID sp' → IdempotencyKey sp = IdempotencyKey sp' → i = j;
  ok_contracts i j sp sp' c : spends s !! i = Some sp → spends s !! j = Some sp' →
    ContractID sp = Some c → ContractID sp' = Some c → i = j
}.

Lemma booked_insert f s i sp id :
  booked f (with_spends s (<[i := sp]> (spends s))) id =
  booked f s id - from_option (λ sp, if decide (sp_EnvelopeID sp = id) then f sp else 0) 0 (spends s !! i)
  + (if decide (sp_EnvelopeID sp = id) then f sp else 0).
Proof. apply sum_over_insert. Qed.

(** What a spend counted for before, when it is one of envelope [id]. *)
Definition before (f : spend → Z) (s : envstore) (i : UUID) : Z := from_option f 0 (spends s !! i).

(** Moving one spend of an envelope and its counters together keeps the books. *)
Lemma env_ok_move s id e e' i sp' evs :
  env_ok s → envelopes s !! id = Some e → env_grant e' = env_grant e →
  envelope_widths e' = true → envelope_checks e' = true → spend_checks sp' = true → sp_EnvelopeID sp' = id → sp_BuyerID sp' = env_BuyerID (env_grant e) →
  ReservedNanos sp' ≤ PerRequestCeilingNanos (env_grant e) →
  (∀ sp, spends s !! i = Some sp → sp_EnvelopeID sp = id) →
  SpentNanos e' = SpentNanos e - before spent_of s i + spent_of sp' →
  env_ReservedNanos e' = env_ReservedNanos e - before held_of s i + held_of sp' →
  TokenCount e' = TokenCount e - before tokens_of s i + tokens_of sp' →
  RequestCount e' = RequestCount e - before (λ _, 1) s i + 1 →
  (∀ j sp, j ≠ i → spends s !! j = Some sp → sp_EnvelopeID sp = id → IdempotencyKey sp ≠ IdempotencyKey sp') →
  (∀ j sp c, j ≠ i → spends s !! j = Some sp → ContractID sp' = Some c → ContractID sp ≠ Some c) →
  env_ok (mkEnvstore (<[id := e']> (envelopes s)) (<[i := sp']> (spends s)) (env_contracts s) evs).
Proof.
  intros O E G W C Cs <- B P Own D1 D2 D3 D4 K Ct.
  assert (∀ f, from_option (λ sp, if decide (sp_EnvelopeID sp = sp_EnvelopeID sp') then f sp else 0) 0 (spends s !! i) =
               before f s i) as Bf.
  { intros f. unfold before. destruct (spends s !! i) eqn:L; simpl; [|done]. by rewrite decide_True by eauto. }
  split; simpl.
  - intros id' e0. rewrite lookup_insert. intros L. unfold counted.
    assert (∀ f, booked f (mkEnvstore (<[sp_EnvelopeID sp' := e']> (envelopes s)) (<[i := sp']> (spends s)) (env_contracts s) evs) id' =
                 booked f s id' + (if decide (sp_EnvelopeID sp' = id') then f sp' - before f s i else 0)) as Bk.
    { intros f. transitivity (booked f (with_spends s (<[i := sp']> (spends s))) id'); [done|].
      rewrite booked_insert. case_decide as D; [subst id'; rewrite Bf; lia|].
      destruct (spends s !! i) as [sp|] eqn:L'; simpl; [|lia]. rewrite decide_False; [lia|]. by rewrite (Own sp eq_refl). }
    rewrite !Bk. case_decide as D.
    + subst id'. simplify_eq. destruct (ok_counted s O _ _ E) as (? & ? & ? & ?). lia.
    + destruct (ok_counted s O _ _ L) as (? & ? & ? & ?). lia.
  - intros id' e0. rewrite lookup_insert. case_decide; intros; simplify_eq; [done|by eapply ok_envelope].
  - assert (∀ sp0, spend_of s sp0 →
      spend_of (mkEnvstore (<[sp_EnvelopeID sp' := e']> (envelopes s)) (<[i := sp']> (spends s)) (env_contracts s) evs) sp0) as F.
    { intros sp0 (e0 & L0 & B0 & P0). unfold spend_of. simpl. rewrite lookup_insert. case_decide as D; [|eauto].
      exists e'. rewrite D, L0 in E. simplify_eq. by rewrite G. }
    intros j sp. rewrite lookup_insert. intros L. case_decide as D; [|destruct (ok_spend s O j sp L); auto].
    simplify_eq. split; [done|]. apply F. exists e. by rewrite B.
  - intros j k sp sp2. rewrite !lookup_insert. do 2 case_decide; intros; simplify_eq; [done|..|by eapply (ok_keys s O)].
    + exfalso. eapply (K k); eauto.
    + exfalso. eapply (K j); eauto.
  - intros j k sp sp2 c. rewrite !lookup_insert. do 2 case_decide; intros; simplify_eq; [done|..|by eapply (ok_contracts s O)].
    + exfalso. eapply (Ct k); eauto.
    + exfalso. eapply (Ct j); eauto.
Qed.

(** The books do not depend on the events or on the contracts. *)
Lemma env_ok_frame s s' : envelopes s' = envelopes s → spends s' = spends s → env_ok s → env_ok s'.
Proof. destruct s, s'. simpl. intros -> -> [A B C D E]. by split. Qed.

Lemma write_envelope_Ok s id e s' :
  write_envelope s id e = Ok s' →
  envelope_widths e = true ∧ envelope_checks e = true ∧ s' = with_envelopes s (<[id := e]> (envelopes s)).
Proof. unfold write_envelope. intros. apply refuse_Ok in H as [? H]. apply refuse_Ok in H as [? H]. reflect_bools. by simplify_eq. Qed.

Lemma update_spend_Ok s id sp s' :
  update_spend s id sp = Ok s' → spend_checks sp = true ∧ s' = with_spends s (<[id := sp]> (spends s)).
Proof. unfold update_spend. intros. apply refuse_Ok in H as [? H]. reflect_bools. by simplify_eq. Qed.

Lemma insert_spend_Ok s id sp s' :
  insert_spend s id sp = Ok s' →
  spends s !! id = None ∧ spend_checks sp = true ∧ s' = with_spends s (<[id := sp]> (spends s)) ∧
  ∀ j sp0, spends s !! j = Some sp0 → sp_EnvelopeID sp0 = sp_EnvelopeID sp → IdempotencyKey sp0 ≠ IdempotencyKey sp.
Proof.
  unfold insert_spend. intros [F H]%refuse_Ok. apply orb_false_iff in F as [F1 F2].
  apply bool_decide_eq_false, dec_stable in F1, F2. apply update_spend_Ok in H as [C ->]. split_and!; [done..|].
  intros j sp0 L E K. apply (proj1 (find_row_None _ _) F2) in L. unfold by_key in L. by rewrite !bool_decide_true in L.
Qed.

Lemma claimable_true e b n t now p :
  claimable e b n t now p = Ok true →
  env_BuyerID (env_grant e) = b ∧ env_State e = ENV_ACTIVE ∧ now < env_ExpiresAt (env_grant e) ∧ 0 < n ∧
  n ≤ PerRequestCeilingNanos (env_grant e) ∧ SpentNanos e + env_ReservedNanos e + n ≤ CapNanos (env_grant e) ∧
  RequestCount e + 1 ≤ MaxRequests (env_grant e) ∧
  (MaxTokens (env_grant e) = 0 ∨ TokenCount e + t ≤ MaxTokens (env_grant e)) ∧
  env_ProfileID (env_grant e) = vp_RuntimeProfileID p ∧ env_ProfileSHA256 (env_grant e) = vp_ProfileSHA256 p.
Proof.
  unfold claimable. cbv zeta. destruct (_ || _) eqn:A; [done|]. intros [_ H]%refuse_Ok.
  destruct (negb _) eqn:B in H; [done|]. apply refuse_Ok in H as [_ H].
  destruct (negb _) eqn:C in H; [done|]. apply refuse_Ok in H as [_ H]. injection H as H.
  apply andb_true_iff in H as [H S]. apply andb_true_iff in H as [T P]. apply orb_true_iff in T. reflect_bools.
  split_and!; try done. destruct T as [T|T]; reflect_bools; auto.
Qed.

Lemma claim_spend_ok s i id b n t key rid p now r s' :
  env_ok s → 0 ≤ t → claim_spend s i id b n t key rid p now = Ok (r, s') → env_ok s'.
Proof.
  intros O T. unfold claim_spend. destruct (envelopes s !! id) as [e|] eqn:E; [|done].
  intros (ok & C & H)%bind_Ok. apply refuse_Ok in H as [G H]. apply negb_false_iff in G as ->.
  apply claimable_true in C as (<- & A & _ & N & P & _). apply bind_Ok in H as (s1 & W & H).
  apply write_envelope_Ok in W as (Wd & Ch & ->).
  destruct (insert_spend _ _ _) as [s2|] eqn:I; [|done]. simplify_eq.
  apply insert_spend_Ok in I as (F & Cs & -> & U). simpl in *.
  apply (env_ok_move s id e (claim e n t) i (mkSpend id _ key rid None RESERVED n 0 t 0 now None));
    unfold before, spent_of, held_of, tokens_of; rewrite ?F; simpl; try done; try lia.
  intros j sp _ L K. by apply (U j).
Qed.

(** Capturing or voiding a hold keeps the books. *)
Lemma settle_ok s i sp e state n tk free now evs :
  env_ok s → spends s !! i = Some sp → sp_State sp = RESERVED → envelopes s !! sp_EnvelopeID sp = Some e →
  (state = CAPTURED ∧ free = ReservedTokens sp - tk ∨ state = VOIDED ∧ n = 0 ∧ free = ReservedTokens sp) →
  envelope_widths (settle_hold e (ReservedNanos sp) n free) = true →
  envelope_checks (settle_hold e (ReservedNanos sp) n free) = true →
  spend_checks (finalize sp state n tk now) = true →
  env_ok (mkEnvstore (<[sp_EnvelopeID sp := settle_hold e (ReservedNanos sp) n free]> (envelopes s))
            (<[i := finalize sp state n tk now]> (spends s)) (env_contracts s) evs).
Proof.
  intros O L R E St W C Cs. destruct (ok_spend s O i sp L) as [_ (e0 & E0 & B & P)]. simplify_eq.
  assert (∀ f, before f s i = f sp) as Bf by (intros f; unfold before; by rewrite L).
  apply (env_ok_move s (sp_EnvelopeID sp) e); rewrite ?Bf; unfold spent_of, held_of, tokens_of; rewrite ?R; simpl; try done.
  - naive_solver.
  - destruct St as [[-> ->]|(-> & -> & ->)]; lia.
  - destruct St as [[-> ->]|(-> & -> & ->)]; lia.
  - destruct St as [[-> ->]|(-> & -> & ->)]; lia.
  - lia.
  - intros j sp0 N L0 E1 K. apply N. by eapply (ok_keys s O).
  - intros j sp0 c N L0 K1 K2. apply N. by eapply (ok_contracts s O).
Qed.

Lemma reserved_uncaptured sp : spend_checks sp = true → sp_State sp = RESERVED → CapturedNanos sp = 0.
Proof. unfold spend_checks. intros H R. rewrite R in H. reflect_bools. done. Qed.

Lemma void_spend_ok s i sp now msg s' :
  env_ok s → spends s !! i = Some sp → sp_State sp = RESERVED → void_spend s i sp now msg = Ok s' →
  env_ok s' ∧ env_contracts s' = env_contracts s ∧ spends s' = <[i := finalize sp VOIDED 0 (CapturedTokens sp) now]> (spends s).
Proof.
  intros O L R. unfold void_spend. destruct (envelopes s !! sp_EnvelopeID sp) as [e|] eqn:E; [|done].
  intros [_ H]%refuse_Ok. apply bind_Ok in H as (s1 & W & H). apply bind_Ok in H as (s2 & U & H). simplify_eq.
  apply write_envelope_Ok in W as (Wd & Ch & ->). apply update_spend_Ok in U as (Cs & ->).
  destruct (ok_spend s O i sp L) as [C0 _]. rewrite (reserved_uncaptured sp) in * by done. simpl. split; [|done].
  eapply (settle_ok s i sp e VOIDED 0 (CapturedTokens sp) (ReservedTokens sp) now); auto.
Qed.

Lemma capture_ok s c n t now s' : env_ok s → captureEnvelopeSpendTx s c n t now = Ok s' → env_ok s'.
Proof.
  intros O. unfold captureEnvelopeSpendTx. intros [_ H]%refuse_Ok. apply refuse_Ok in H as [_ H].
  destruct (find_row _ _) as [[i sp]|] eqn:F; [|by simplify_eq]. apply find_row_Some in F as [L _].
  case_bool_decide; [apply refuse_Ok in H as [_ H]; by simplify_eq|]. apply refuse_Ok in H as [R H]. reflect_bools.
  apply refuse_Ok in H as [_ H]. cbv zeta in H. destruct (envelopes s !! _) as [e|] eqn:E; [|done].
  apply refuse_Ok in H as [_ H]. apply bind_Ok in H as (s1 & W & H). apply bind_Ok in H as (s2 & U & H). simplify_eq.
  apply write_envelope_Ok in W as (Wd & Ch & ->). apply update_spend_Ok in U as (Cs & ->).
  eapply (settle_ok s i sp e CAPTURED n); eauto.
Qed.

Lemma release_ok s c now s' : env_ok s → releaseEnvelopeSpendForContractTx s c now = Ok s' → env_ok s'.
Proof.
  intros O. unfold releaseEnvelopeSpendForContractTx. case_bool_decide; [by intros; simplify_eq|].
  destruct (find_row _ _) as [[i sp]|] eqn:F; [|by intros; simplify_eq]. apply find_row_Some in F as [L _].
  destruct (sp_State sp) eqn:R; intros E; try by simplify_eq. by eapply void_spend_ok.
Qed.

Lemma bind_ok s i c s' : env_ok s → bindEnvelopeSpendContractTx s i c = Ok s' → env_ok s'.
Proof.
  intros O. unfold bindEnvelopeSpendContractTx. destruct (spends s !! i) as [sp|] eqn:L; [|done].
  intros [G H]%refuse_Ok. apply refuse_Ok in H as [U H]. apply orb_false_iff in G as [R N]. reflect_bools.
  apply dec_stable in U, N. apply update_spend_Ok in H as [Cs ->].
  destruct (ok_spend s O i sp L) as [_ (e & E & B & P)]. destruct (ok_envelope s O _ _ E) as [W C].
  apply (env_ok_frame (mkEnvstore (<[sp_EnvelopeID sp := e]> (envelopes s)) (<[i := bind_contract sp c]> (spends s)) (env_contracts s) []));
    simpl; [by rewrite insert_id|done|].
  assert (∀ f, before f s i = f sp) as Bf by (intros f; unfold before; by rewrite L).
  apply (env_ok_move s (sp_EnvelopeID sp) e); rewrite ?Bf; simpl; try done; try (unfold spent_of, held_of, tokens_of; simpl; lia).
  - naive_solver.
  - intros j sp0 Nj L0 E1 K. apply Nj. by eapply (ok_keys s O).
  - intros j sp0 c' Nj L0 [= <-] K. apply (proj1 (find_row_None _ _) U) in L0. unfold by_contract in L0.
    by rewrite bool_decide_true in L0.
Qed.

Lemma reserve_ok seen s i id b n t key rid p now r s' :
  env_ok s → reserveEnvelopeSpendTx seen s i id b n t key rid p now = Ok (r, s') → env_ok s'.
Proof.
  intros O. unfold reserveEnvelopeSpendTx. intros [_ H]%refuse_Ok. cbv zeta in H. apply refuse_Ok in H as [_ H].
  apply refuse_Ok in H as [T H]. reflect_bools. destruct (find_row _ _).
  - apply bind_Ok in H as (? & _ & ?). by simplify_eq.
  - by eapply claim_spend_ok.
Qed.

(** Changing the state of an envelope keeps the books. *)
Lemma env_ok_expire s id e now :
  env_ok s → envelopes s !! id = Some e →
  let e' := mkEnvelope (env_grant e) (SpentNanos e) (env_ReservedNanos e) (RequestCount e) (TokenCount e)
              ENV_EXPIRED (env_Version e + 1) (Some now) in
  envelope_widths e' = true → envelope_checks e' = true → env_ok (with_envelopes s (<[id := e']> (envelopes s))).
Proof.
  intros O E e' W C. split; simpl.
  - intros id' e0. rewrite lookup_insert. case_decide as D; intros L.
    + subst id'. injection L as <-. exact (ok_counted s O id e E).
    + exact (ok_counted s O id' e0 L).
  - intros id' e0. rewrite lookup_insert. case_decide; intros; simplify_eq; [done|by eapply ok_envelope].
  - intros i sp L. destruct (ok_spend s O i sp L) as [? (e0 & E0 & B & P)]. split; [done|]. unfold spend_of. simpl.
    rewrite lookup_insert. case_decide as D; [|eauto]. rewrite <-D, E in E0. simplify_eq. by exists e'.
  - apply (ok_keys s O).
  - apply (ok_contracts s O).
Qed.

Lemma expire_each_ok ids : ∀ s now s', env_ok s → expire_each s now ids = Ok s' → env_ok s'.
Proof.
  induction ids as [|id ids IH]; simpl; intros s now s' O H; [by simplify_eq|].
  apply bind_Ok in H as (s1 & X & H). eapply IH, H. unfold expire_envelope in X.
  destruct (envelopes s !! id) as [e|] eqn:E; [|done]. apply bind_Ok in X as (s2 & X & Y). simplify_eq.
  apply (env_ok_frame s2); [done..|]. case_bool_decide; [|by simplify_eq].
  apply write_envelope_Ok in X as (W & C & ->). by apply env_ok_expire.
Qed.

Lemma void_each_ok l : ∀ s now n m s',
  env_ok s → NoDup l.*1 → (∀ i sp, (i, sp) ∈ l → spends s !! i = Some sp ∧ sp_State sp = RESERVED) →
  void_each s now l n = Ok (m, s') → env_ok s'.
Proof.
  induction l as [|[i sp] l IH]; simpl; intros s now n m s' O D In H; [by simplify_eq|].
  apply NoDup_cons in D as [Ni D]. apply bind_Ok in H as (v & _ & H). destruct v.
  - eapply (IH (log_envelope s (sp_EnvelopeID sp) "SPEND_VOIDED")); [by apply (env_ok_frame s)|done| |exact H]. intros j sp' Hj. apply In. by right.
  - destruct (In i sp) as [L R]; [by left|]. apply bind_Ok in H as (s1 & V & H).
    apply void_spend_ok in V as (O1 & _ & E); [|done..]. eapply IH; [exact O1|done| |exact H].
    intros j sp' Hj. rewrite E, lookup_insert_ne; [apply In; by right|].
    intros ->. apply Ni. apply list_elem_of_fmap. by exists (j, sp').
Qed.

(** The rows a sweep reads for the identities it selected. *)
Lemma selected_rows {A} (m : gmap UUID A) (p : A → bool) key limit :
  let l := omap (λ i, (λ x, (i, x)) <$> m !! i) (select_due p key limit m) in
  l.*1 = select_due p key limit m ∧ ∀ i x, (i, x) ∈ l → m !! i = Some x ∧ p x = true.
Proof.
  cbv zeta. split.
  - assert (∀ i, i ∈ select_due p key limit m → is_Some (m !! i)) as S.
    { intros i (x & -> & _)%select_due_elem. eauto. }
    revert S. generalize (select_due p key limit m). intros l. induction l as [|i l IH]; intros S; [done|]. simpl.
    destruct (S i) as [x E]; [left|]. rewrite E. simpl. f_equal. apply IH. intros j Hj. apply S. by right.
  - intros i x (j & Hj & E)%list_elem_of_omap. destruct (m !! j) eqn:L; simplify_eq/=.
    apply select_due_elem in Hj as (y & Ly & P). naive_solver.
Qed.

Lemma recover_ok s now grace limit n s' :
  env_ok s → RecoverOrphanEnvelopeSpends s now grace limit = Ok (n, s') → env_ok s'.
Proof.
  intros O. unfold RecoverOrphanEnvelopeSpends. intros [_ H]%refuse_Ok. cbv zeta in H.
  destruct (selected_rows (spends s) (is_orphan (env_contracts s) now grace) sp_CreatedAt limit) as [E S].
  eapply void_each_ok; [exact O| |  |exact H].
  - rewrite E. apply select_due_NoDup.
  - intros i sp Hi. destruct (S i sp Hi) as [L P]. split; [done|]. unfold is_orphan in P. by reflect_bools.
Qed.

(** ** Histories *)

Definition no_envelopes : envstore := mkEnvstore ∅ ∅ ∅ [].

Definition fresh_envelope (g : grant) : envelope := mkEnvelope g 0 0 0 0 ENV_ACTIVE 0 None.

(** Any interleaving of the operations, with the contracts changing freely; the first
    read of a reservation may be of any state. *)
Inductive env_step (s : envstore) : envstore → Prop :=
  | env_create id g s' : envelopes s !! id = None → write_envelope s id (fresh_envelope g) = Ok s' → env_step s s'
  | env_reserve seen i id b n t key rid p now r s' :
      reserveEnvelopeSpendTx seen s i id b n t key rid p now = Ok (r, s') → env_step s s'
  | env_bind i c s' : bindEnvelopeSpendContractTx s i c = Ok s' → env_step s s'
  | env_capture c n t now s' : captureEnvelopeSpendTx s c n t now = Ok s' → env_step s s'
  | env_release c now s' : releaseEnvelopeSpendForContractTx s c now = Ok s' → env_step s s'
  | env_expire now limit n s' : ReleaseExpiredExecutionEnvelopes s now limit = Ok (n, s') → env_step s s'
  | env_recover now grace limit n s' : RecoverOrphanEnvelopeSpends s now grace limit = Ok (n, s') → env_step s s'
  | env_execute cs : env_step s (with_contracts s cs).

Lemma fresh_envelope_ok s id g s' :
  env_ok s → envelopes s !! id = None → write_envelope s id (fresh_envelope g) = Ok s' → env_ok s'.
Proof.
  intros O N (W & C & ->)%write_envelope_Ok. split; simpl.
  - intros id' e. rewrite lookup_insert. case_decide as D; intros L; [|exact (ok_counted s O id' e L)].
    subst id'. injection L as <-.
    assert (∀ f, booked f (with_envelopes s (<[id := fresh_envelope g]> (envelopes s))) id = 0) as Bz.
    { intros f. rewrite <-(sum_over_zero (spends s)). apply sum_over_ext. intros i sp L.
      destruct (ok_spend s O i sp L) as [_ (e & E & _)]. rewrite decide_False; [done|]. intros <-. congruence. }
    unfold counted. by rewrite !Bz.
  - intros id' e. rewrite lookup_insert. case_decide; intros; simplify_eq; [done|by eapply ok_envelope].
  - intros i sp L. destruct (ok_spend s O i sp L) as [? (e0 & E0 & B & P)]. split; [done|]. exists e0. simpl.
    rewrite lookup_insert_ne; [done|]. congruence.
  - apply (ok_keys s O).
  - apply (ok_contracts s O).
Qed.

Lemma env_step_ok s s' : env_ok s → env_step s s' → env_ok s'.
Proof.
  intros O H. destruct H as [| | | | |now limit n s' H| |].
  - by eapply fresh_envelope_ok.
  - by eapply reserve_ok.
  - by eapply bind_ok.
  - by eapply capture_ok.
  - by eapply release_ok.
  - unfold ReleaseExpiredExecutionEnvelopes in H. apply refuse_Ok in H as [_ H]. apply bind_Ok in H as (? & ? & ?).
    simplify_eq. by eapply expire_each_ok.
  - by eapply recover_ok.
  - by apply (env_ok_frame s).
Qed.

Lemma env_reachable_ok s : rtc env_step no_envelopes s → env_ok s.
Proof.
  intros H. assert (env_ok no_envelopes) as O by (split; simpl; intros; by rewrite lookup_empty in *).
  revert O. induction H as [|x y z Hs _ IH]; intros O; [done|]. apply IH. by eapply env_step_ok.
Qed.

(** C7: through any history the counters of an envelope are exactly its
    spends.  The nanos spent, the nanos held, the tokens and the requests it counts are
    the sums over its spend rows; spent and held together stay within the cap; and
    every spend is by the envelope's buyer and within its ceiling per request. *)
Theorem envelope_books s :
  rtc env_step no_envelopes s →
  (∀ id e, envelopes s !! id = Some e →
    counted s id e ∧ booked spent_of s id + booked held_of s id ≤ CapNanos (env_grant e) ∧
    RequestCount e ≤ MaxRequests (env_grant e)) ∧
  (∀ i sp, spends s !! i = Some sp → spend_of s sp) ∧
  (∀ i j sp sp', spends s !! i = Some sp → spends s !! j = Some sp' → sp_EnvelopeID sp = sp_EnvelopeID sp' →
    IdempotencyKey sp = IdempotencyKey sp' → i = j).
Proof.
  intros O%env_reachable_ok. split_and!.
  - intros id e E. destruct (ok_counted s O id e E) as (A & B & X & Y). split; [done|]. rewrite <-A, <-B.
    destruct (ok_envelope s O id e E) as [_ C]. unfold envelope_checks in C. cbv zeta in C. reflect_bools. lia.
  - intros i sp L. by apply (ok_spend s O i).
  - apply (ok_keys s O).
Qed.

(** ** Progress: the accounting never refuses *)

(** A hold of an envelope is part of its counters. *)
Lemma hold_counted s i sp e :
  env_ok s → spends s !! i = Some sp → sp_State sp = RESERVED → envelopes s !! sp_EnvelopeID sp = Some e →
  ReservedNanos sp ≤ env_ReservedNanos e ∧ ReservedTokens sp ≤ TokenCount e.
Proof.
  intros O L R E. destruct (ok_counted s O _ _ E) as (_ & H & T & _). rewrite H, T.
  assert (∀ f : spend → Z, (∀ x, spend_checks x = true → 0 ≤ f x) → f sp ≤ booked f s (sp_EnvelopeID sp)) as F.
  { intros f P. pose proof (sum_over_elem (λ _ x, if decide (sp_EnvelopeID x = sp_EnvelopeID sp) then f x else 0)
                              (spends s) i sp) as X. simpl in X. rewrite decide_True in X by done. apply X; [|done].
    intros j y Lj. destruct (ok_spend s O j y Lj) as [C _]. case_decide; [by apply P|done]. }
  split; (etrans; [|apply F]).
  - unfold held_of. by rewrite R.
  - intros x C. unfold held_of, spend_checks in *. destruct (sp_State x); reflect_bools; lia.
  - unfold tokens_of. by rewrite R.
  - intros x C. unfold tokens_of, spend_checks in *. destruct (sp_State x); reflect_bools; lia.
Qed.

(** Settling a hold for part of it writes the envelope. *)
Lemma settle_hold_writes s i sp e n free :
  env_ok s → spends s !! i = Some sp → sp_State sp = RESERVED → envelopes s !! sp_EnvelopeID sp = Some e →
  0 ≤ n ≤ ReservedNanos sp → 0 ≤ free ≤ ReservedTokens sp → env_Version e < max_int64 →
  ∀ s0, write_envelope s0 (sp_EnvelopeID sp) (settle_hold e (ReservedNanos sp) n free) =
        Ok (with_envelopes s0 (<[sp_EnvelopeID sp := settle_hold e (ReservedNanos sp) n free]> (envelopes s0))).
Proof.
  intros O L R E N F V s0. destruct (hold_counted s i sp e O L R E) as [H T].
  destruct (ok_envelope s O _ _ E) as [W C]. destruct (ok_spend s O i sp L) as [Cs _].
  unfold envelope_widths, envelope_checks, spend_checks in *. cbv zeta in *. reflect_bools.
  unfold write_envelope.
  assert (envelope_widths (settle_hold e (ReservedNanos sp) n free) = true) as ->.
  { unfold envelope_widths. simpl. rewrite !andb_true_iff, !is_int64_spec. width. lia. }
  assert (envelope_checks (settle_hold e (ReservedNanos sp) n free) = true) as ->; [|done].
  unfold envelope_checks. simpl.
  repeat match goal with H : Bool.eqb _ _ = true |- _ => rewrite H; clear H end.
  match goal with H : _ || _ = true |- _ => apply orb_true_iff in H end.
  rewrite !andb_true_iff, orb_true_iff, !Z.leb_le, !Z.ltb_lt, Z.eqb_eq in *.
  repeat match goal with H : _ ∨ _ |- _ => rewrite ?Z.eqb_eq, ?Z.leb_le in H end. lia.
Qed.

Lemma spend_by_contract s i sp c :
  env_ok s → spends s !! i = Some sp → ContractID sp = Some c → find_row (by_contract c) (spends s) = Some (i, sp).
Proof.
  intros O L C. apply find_row_unique; [done| |].
  - unfold by_contract. by rewrite bool_decide_true.
  - intros j y Lj P. unfold by_contract in P. reflect_bools. by eapply (ok_contracts s O).
Qed.

Lemma spend_by_key s i sp :
  env_ok s → spends s !! i = Some sp →
  find_row (by_key (sp_EnvelopeID sp) (IdempotencyKey sp)) (spends s) = Some (i, sp).
Proof.
  intros O L. apply find_row_unique; [done| |].
  - unfold by_key. by rewrite !bool_decide_true.
  - intros j y Lj P. unfold by_key in P. reflect_bools. by eapply (ok_keys s O).
Qed.

Lemma void_spend_succeeds s i sp e now msg :
  env_ok s → spends s !! i = Some sp → sp_State sp = RESERVED → envelopes s !! sp_EnvelopeID sp = Some e →
  env_Version e < max_int64 →
  void_spend s i sp now msg =
    Ok (mkEnvstore (<[sp_EnvelopeID sp := settle_hold e (ReservedNanos sp) 0 (ReservedTokens sp)]> (envelopes s))
          (<[i := finalize sp VOIDED 0 (CapturedTokens sp) now]> (spends s)) (env_contracts s)
          (env_events s ++ [(sp_EnvelopeID sp, "SPEND_VOIDED")])).
Proof.
  intros O L R E V. destruct (hold_counted s i sp e O L R E) as [H T]. destruct (ok_spend s O i sp L) as [C _].
  pose proof (reserved_uncaptured sp C R) as Z0. unfold void_spend. rewrite E, !(proj2 (Z.leb_le _ _)) by done. simpl.
  rewrite (settle_hold_writes s i sp e) by (done || (unfold spend_checks in C; reflect_bools; lia)). simpl.
  unfold update_spend. rewrite Z0.
  assert (spend_checks (finalize sp VOIDED 0 (CapturedTokens sp) now) = true) as ->; [|done].
  unfold spend_checks in *. reflect_bools. simpl. by rewrite !andb_true_iff, !Z.leb_le, Z.ltb_lt.
Qed.

(** The tokens a capture keeps. *)
Definition kept_tokens (sp : spend) (t : Z) : Z := if ReservedTokens sp <? t then ReservedTokens sp else t.

Lemma capture_succeeds s i sp e c n t now :
  env_ok s → spends s !! i = Some sp → sp_State sp = RESERVED → ContractID sp = Some c →
  envelopes s !! sp_EnvelopeID sp = Some e → env_Version e < max_int64 → c ≠ uuid_Nil → 0 < n ≤ ReservedNanos sp → 0 ≤ t →
  captureEnvelopeSpendTx s c n t now =
    Ok (mkEnvstore (<[sp_EnvelopeID sp := settle_hold e (ReservedNanos sp) n (ReservedTokens sp - kept_tokens sp t)]> (envelopes s))
          (<[i := finalize sp CAPTURED n (kept_tokens sp t) now]> (spends s)) (env_contracts s)
          (env_events s ++ [(sp_EnvelopeID sp, "SPEND_CAPTURED")])).
Proof.
  intros O L R C E V Nil N T. destruct (hold_counted s i sp e O L R E) as [H1 H2]. destruct (ok_spend s O i sp L) as [Cs _].
  destruct (ok_envelope s O _ _ E) as [_ Ce]. unfold envelope_checks in Ce. cbv zeta in Ce. reflect_bools.
  assert (0 ≤ kept_tokens sp t ≤ ReservedTokens sp) as Tk.
  { unfold kept_tokens, spend_checks in *. reflect_bools. destruct (Z.ltb_spec (ReservedTokens sp) t); lia. }
  unfold captureEnvelopeSpendTx. rewrite (spend_by_contract s i sp c O L C), bool_decide_false by done.
  rewrite (proj2 (Z.leb_gt n 0)), (proj2 (Z.ltb_ge t 0)) by lia. simpl. rewrite bool_decide_false by congruence.
  rewrite bool_decide_true, (proj2 (Z.ltb_ge _ n)) by (done || lia). simpl. fold (kept_tokens sp t).
  rewrite E, !(proj2 (Z.leb_le _ _)) by lia. simpl.
  rewrite (settle_hold_writes s i sp e) by (done || lia). simpl. unfold update_spend.
  assert (spend_checks (finalize sp CAPTURED n (kept_tokens sp t) now) = true) as ->; [|done].
  unfold spend_checks in *. reflect_bools. simpl. rewrite !andb_true_iff, !Z.leb_le, !Z.ltb_lt. lia.
Qed.

(** C29: a hold can always be settled.  In every reachable state a hold bound to
    a contract can be captured for any positive part of it, whether or not its envelope
    has expired, and can be released instead: the accounting errors of the two
    operations do not occur.  Capturing frees the rest of the hold, and repeating the
    capture changes nothing. *)
Theorem hold_settles s i sp e c n t now :
  rtc env_step no_envelopes s → spends s !! i = Some sp → sp_State sp = RESERVED → ContractID sp = Some c →
  envelopes s !! sp_EnvelopeID sp = Some e → env_Version e < max_int64 → c ≠ uuid_Nil → 0 < n ≤ ReservedNanos sp → 0 ≤ t →
  (∃ s' e', captureEnvelopeSpendTx s c n t now = Ok s' ∧ envelopes s' !! sp_EnvelopeID sp = Some e' ∧
     SpentNanos e' = SpentNanos e + n ∧ env_ReservedNanos e' = env_ReservedNanos e - ReservedNanos sp ∧
     captureEnvelopeSpendTx s' c n t now = Ok s') ∧
  (∃ s' e', releaseEnvelopeSpendForContractTx s c now = Ok s' ∧ envelopes s' !! sp_EnvelopeID sp = Some e' ∧
     SpentNanos e' = SpentNanos e ∧ env_ReservedNanos e' = env_ReservedNanos e - ReservedNanos sp).
Proof.
  intros O%env_reachable_ok L R C E V Nil N T. split.
  - pose proof (capture_succeeds s i sp e c n t now O L R C E V Nil N T) as X. rewrite X. eexists _, _.
    split_and!; [done|simpl; apply lookup_insert_eq|done|done|].
    pose proof (capture_ok _ _ _ _ _ _ O X) as O'. unfold captureEnvelopeSpendTx.
    rewrite (spend_by_contract _ i (finalize sp CAPTURED n (kept_tokens sp t) now) c O') by (simpl; rewrite ?lookup_insert_eq; done).
    rewrite bool_decide_false, (proj2 (Z.leb_gt n 0)), (proj2 (Z.ltb_ge t 0)) by (done || lia). simpl. by rewrite Z.eqb_refl.
  - unfold releaseEnvelopeSpendForContractTx. rewrite bool_decide_false, (spend_by_contract s i sp c O L C), R by done.
    erewrite void_spend_succeeds by done. eexists _, _. split_and!; [done|simpl; apply lookup_insert_eq|simpl; lia|done].
Qed.

(** *** A spend keeps the request it was made for *)

Definition same_request (sp sp' : spend) : Prop :=
  sp_EnvelopeID sp' = sp_EnvelopeID sp ∧ sp_BuyerID sp' = sp_BuyerID sp ∧ IdempotencyKey sp' = IdempotencyKey sp ∧
  RequestID sp' = RequestID sp ∧ ReservedNanos sp' = ReservedNanos sp.

Definition kept (s s' : envstore) : Prop :=
  ∀ i sp, spends s !! i = Some sp → ∃ sp', spends s' !! i = Some sp' ∧ same_request sp sp'.

#[export] Instance kept_preorder : PreOrder kept.
Proof.
  split; [by intros s i sp L; exists sp|]. intros s1 s2 s3 H1 H2 i sp L.
  destruct (H1 i sp L) as (sp2 & L2 & E2). destruct (H2 i sp2 L2) as (sp3 & L3 & E3). exists sp3.
  unfold same_request in *. split; [done|]. naive_solver congruence.
Qed.

Lemma kept_same s s' : spends s' = spends s → kept s s'.
Proof. intros E i sp L. exists sp. by rewrite E. Qed.

Lemma kept_insert s s' i sp :
  spends s' = <[i := sp]> (spends s) → (∀ sp0, spends s !! i = Some sp0 → same_request sp0 sp) → kept s s'.
Proof.
  intros E H j sp0 L. rewrite E, lookup_insert. case_decide; subst; [eauto|by exists sp0].
Qed.

Lemma void_spend_kept s i sp now msg s' : spends s !! i = Some sp → void_spend s i sp now msg = Ok s' → kept s s'.
Proof.
  intros L. unfold void_spend. destruct (envelopes s !! _); [|done]. intros [_ H]%refuse_Ok.
  apply bind_Ok in H as (s1 & W & H). apply bind_Ok in H as (s2 & U & H). simplify_eq.
  apply write_envelope_Ok in W as (_ & _ & ->). apply update_spend_Ok in U as (_ & ->).
  eapply kept_insert; [done|]. intros sp0 L0. rewrite L in L0. by simplify_eq.
Qed.

Lemma void_each_kept l : ∀ s now n m s',
  NoDup l.*1 → (∀ i sp, (i, sp) ∈ l → spends s !! i = Some sp) → void_each s now l n = Ok (m, s') → kept s s'.
Proof.
  induction l as [|[i sp] l IH]; simpl; intros s now n m s' D In H; [by simplify_eq|].
  apply NoDup_cons in D as [Ni D]. apply bind_Ok in H as (v & _ & H). destruct v.
  - eapply (IH (log_envelope s _ "SPEND_VOIDED")); [done| |exact H]. intros j sp' Hj. apply In. by right.
  - pose proof (In i sp ltac:(by left)) as L. apply bind_Ok in H as (s1 & V & H). pose proof V as V'.
    apply void_spend_kept in V; [|done]. etrans; [exact V|]. eapply IH; [done| |exact H].
    intros j sp' Hj. assert (i ≠ j) as Nij by (intros ->; apply Ni, list_elem_of_fmap; by exists (j, sp')).
    unfold void_spend in V'. destruct (envelopes s !! _); [|done]. apply refuse_Ok in V' as [_ V'].
    apply bind_Ok in V' as (s2 & W & V'). apply bind_Ok in V' as (s3 & U & V'). simplify_eq.
    apply write_envelope_Ok in W as (_ & _ & ->). apply update_spend_Ok in U as (_ & ->). simpl.
    rewrite lookup_insert_ne by done. apply In. by right.
Qed.

Lemma expire_each_kept ids : ∀ s now s', expire_each s now ids = Ok s' → spends s' = spends s.
Proof.
  induction ids as [|id ids IH]; simpl; intros s now s' H; [by simplify_eq|].
  apply bind_Ok in H as (s1 & X & H). rewrite (IH _ _ _ H). unfold expire_envelope in X.
  destruct (envelopes s !! id); [|done]. apply bind_Ok in X as (s2 & X & Y). simplify_eq. simpl.
  case_bool_decide; [|by simplify_eq]. by apply write_envelope_Ok in X as (_ & _ & ->).
Qed.

Lemma env_step_kept s s' : env_step s s' → kept s s'.
Proof.
  destruct 1 as [id g s' _ H|seen i id b n t key rid p now r s' H|i c s' H|c n t now s' H|c now s' H|now limit n s' H
                |now grace limit n s' H|cs].
  - apply write_envelope_Ok in H as (_ & _ & ->). by apply kept_same.
  - unfold reserveEnvelopeSpendTx in H. apply refuse_Ok in H as [_ H]. cbv zeta in H. do 2 apply refuse_Ok in H as [_ H].
    destruct (find_row _ _); [apply bind_Ok in H as (? & _ & ?); by simplify_eq|].
    unfold claim_spend in H. destruct (envelopes s !! id); [|done]. apply bind_Ok in H as (? & _ & H).
    apply refuse_Ok in H as [_ H]. apply bind_Ok in H as (s1 & W & H). apply write_envelope_Ok in W as (_ & _ & ->).
    destruct (insert_spend _ _ _) eqn:I; simplify_eq. apply insert_spend_Ok in I as (F & _ & -> & _).
    eapply kept_insert; [done|]. simpl in *. congruence.
  - unfold bindEnvelopeSpendContractTx in H. destruct (spends s !! i) as [sp|] eqn:L; [|done].
    do 2 apply refuse_Ok in H as [_ H]. apply update_spend_Ok in H as [_ ->]. eapply kept_insert; [done|].
    intros sp0 L0. rewrite L in L0. by injection L0 as <-.
  - unfold captureEnvelopeSpendTx in H. do 2 apply refuse_Ok in H as [_ H].
    destruct (find_row _ _) as [[i sp]|] eqn:F; [|by simplify_eq]. apply find_row_Some in F as [L _].
    case_bool_decide; [apply refuse_Ok in H as [_ H]; by simplify_eq|]. do 2 apply refuse_Ok in H as [_ H]. cbv zeta in H.
    destruct (envelopes s !! _); [|done]. apply refuse_Ok in H as [_ H]. apply bind_Ok in H as (s1 & W & H).
    apply bind_Ok in H as (s2 & U & H). simplify_eq. apply write_envelope_Ok in W as (_ & _ & ->).
    apply update_spend_Ok in U as (_ & ->). eapply kept_insert; [done|].
    intros sp0 L0. rewrite L in L0. by injection L0 as <-.
  - unfold releaseEnvelopeSpendForContractTx in H. case_bool_decide; [by simplify_eq|].
    destruct (find_row _ _) as [[i sp]|] eqn:F; [|by simplify_eq]. apply find_row_Some in F as [L _].
    destruct (sp_State sp); try by simplify_eq. by eapply void_spend_kept.
  - unfold ReleaseExpiredExecutionEnvelopes in H. apply refuse_Ok in H as [_ H]. apply bind_Ok in H as (? & ? & ?).
    simplify_eq. eapply kept_same, expire_each_kept. done.
  - unfold RecoverOrphanEnvelopeSpends in H. apply refuse_Ok in H as [_ H]. cbv zeta in H.
    destruct (selected_rows (spends s) (is_orphan (env_contracts s) now grace) sp_CreatedAt limit) as [E S].
    eapply void_each_kept; [| |exact H]; [rewrite E; apply select_due_NoDup|]. intros i sp Hi. by apply (S i sp).
  - by apply kept_same.
Qed.

(** What a successful reservation returns: a row of the table, for this request. *)
Lemma reserve_returns s i id b n t key rid p now r s' :
  reserveEnvelopeSpendTx s s i id b n t key rid p now = Ok (r, s') →
  spends s' !! r.1 = Some r.2 ∧ sp_EnvelopeID r.2 = id ∧ sp_BuyerID r.2 = b ∧ IdempotencyKey r.2 = trim_space key ∧
  ReservedNanos r.2 = n ∧ (rid = "" ∨ RequestID r.2 = "" ∨ RequestID r.2 = rid).
Proof.
  unfold reserveEnvelopeSpendTx. intros [_ H]%refuse_Ok. cbv zeta in H. do 2 apply refuse_Ok in H as [_ H].
  destruct (find_row _ _) as [[j spj]|] eqn:F.
  - apply find_row_Some in F as [L F]. unfold by_key in F. apply bind_Ok in H as (x & X & H). simplify_eq.
    unfold replay_spend in X. apply refuse_Ok in X as [X1 X]. apply refuse_Ok in X as [X2 X]. simplify_eq. simpl in *.
    apply orb_false_iff in X1 as [X1 X3]. reflect_bools. split_and!; [done..|].
    destruct (decide (rid = "")); [by left|]. destruct (decide (RequestID spj = "")); [by right; left|].
    rewrite !(bool_decide_false (_ = "")) in X2 by done. simpl in X2. reflect_bools. by right; right.
  - unfold claim_spend in H. destruct (envelopes s !! id); [|done]. apply bind_Ok in H as (? & _ & H).
    apply refuse_Ok in H as [_ H]. apply bind_Ok in H as (? & _ & H). destruct (insert_spend _ _ _) eqn:I; simplify_eq.
    apply insert_spend_Ok in I as (_ & _ & -> & _). simpl. rewrite lookup_insert_eq. naive_solver.
Qed.

(** A reservation is made once.  Repeating a reservation that succeeded, after
    any further history, returns the spend of the first time and changes nothing: also
    when it has been captured or voided meanwhile, the envelope has expired, or no
    capacity is left. *)
Theorem reserve_replays s i id b n t key rid p now r s' s2 i2 now2 :
  rtc env_step no_envelopes s → reserveEnvelopeSpendTx s s i id b n t key rid p now = Ok (r, s') → rtc env_step s' s2 →
  ∃ sp, spends s2 !! r.1 = Some sp ∧ same_request r.2 sp ∧
    reserveEnvelopeSpendTx s2 s2 i2 id b n t key rid p now2 = Ok ((r.1, sp), s2).
Proof.
  intros R H S. pose proof (env_reserve s s i id b n t key rid p now r s' H) as St.
  assert (env_ok s2) as O2. { apply env_reachable_ok. etrans; [exact R|]. by eapply rtc_l. }
  destruct (reserve_returns _ _ _ _ _ _ _ _ _ _ _ _ H) as (L & E & B & K & N & Q).
  assert (kept s' s2) as Kp. { clear -S. induction S as [|x y z X _ IH]; [done|]. etrans; [by apply env_step_kept|done]. }
  destruct (Kp _ _ L) as (sp & L2 & I). exists sp. split; [done|]. split; [done|]. destruct I as (E' & B' & K' & Q' & N').
  unfold reserveEnvelopeSpendTx in *. apply refuse_Ok in H as [G H]. cbv zeta in *.
  apply refuse_Ok in H as [G2 H]. apply refuse_Ok in H as [G3 H]. rewrite G, G2, G3.
  replace (by_key id (trim_space key)) with (by_key (sp_EnvelopeID sp) (IdempotencyKey sp)) by congruence.
  rewrite (spend_by_key s2 r.1 sp O2 L2). simpl. unfold replay_spend. simpl.
  rewrite B', B, N', N, Z.eqb_refl, bool_decide_true, Q' by done. simpl.
  assert (negb (bool_decide (rid = "")) && negb (bool_decide (RequestID r.2 = "")) && negb (bool_decide (RequestID r.2 = rid)) = false) as ->; [|done].
  destruct Q as [->|[->| ->]]; repeat case_bool_decide; naive_solver.
Qed.

(** Of two requests that race with one key, the loser is not replayed.  A
    reservation that read the spends before an identical one committed does not
    return its spend: it finds no row, claims capacity, and the unique violation that
    follows aborts the transaction, so the recovery in the code cannot run. *)
Theorem reserve_race s i id b n t key rid p now r s' i2 rid2 now2 :
  find_row (by_key id (trim_space key)) (spends s) = None →
  reserveEnvelopeSpendTx s s i id b n t key rid p now = Ok (r, s') →
  ∃ e, reserveEnvelopeSpendTx s s' i2 id b n t key rid2 p now2 = Err e ∧
    (∀ env, envelopes s' !! id = Some env → claimable env b n t now2 p = Ok true →
      envelope_widths (claim env n t) = true → envelope_checks (claim env n t) = true → e = errInFailedTransaction).
Proof.
  intros F H. unfold reserveEnvelopeSpendTx in *. apply refuse_Ok in H as [G H]. cbv zeta in *.
  apply refuse_Ok in H as [G2 H]. apply refuse_Ok in H as [G3 H]. rewrite G, G2, G3, F in *. clear G G2 G3.
  assert (find_row (by_key id (trim_space key)) (spends s') ≠ None) as N.
  { unfold claim_spend in H. destruct (envelopes s !! id); [|done]. apply bind_Ok in H as (? & _ & H).
    apply refuse_Ok in H as [_ H]. apply bind_Ok in H as (s1 & _ & H). destruct (insert_spend _ _ _) eqn:I; simplify_eq.
    apply insert_spend_Ok in I as (_ & _ & -> & _). simpl. intros X. rewrite find_row_None in X.
    specialize (X i _ (lookup_insert_eq _ _ _)). unfold by_key in X. simpl in X. by rewrite !bool_decide_true in X. }
  unfold claim_spend. destruct (envelopes s' !! id) as [env|] eqn:E; [|eexists; by split].
  destruct (claimable env b n t now2 p) as [ok|e] eqn:C; simpl; [|eexists; split; [done|]; intros ? [= <-]; congruence].
  destruct ok; simpl; [|eexists; split; [done|]; intros ? [= <-]; congruence].
  destruct (write_envelope s' id (claim env n t)) as [s1|e] eqn:W; simpl.
  - apply write_envelope_Ok in W as (_ & _ & ->). unfold insert_spend. simpl. rewrite (bool_decide_true (find_row _ _ ≠ None)) by done.
    rewrite orb_true_r. eexists. by split.
  - eexists. split; [done|]. intros env' [= <-] _ W1 W2. unfold write_envelope in W. by rewrite W1, W2 in W.
Qed.

(** ** The orphan sweep *)

Definition verified_contract (s : envstore) (sp : spend) : Prop :=
  ∃ c ct, ContractID sp = Some c ∧ env_contracts s !! c = Some ct ∧ ct_state ct = "VERIFIED".

(** Versions may still be raised [n] times. *)
Definition versions_below (s : envstore) (n : Z) : Prop :=
  ∀ id e, envelopes s !! id = Some e → env_Version e + n ≤ max_int64.

Lemma void_each_succeeds l : ∀ s now n,
  env_ok s → NoDup l.*1 → (∀ i sp, (i, sp) ∈ l → spends s !! i = Some sp ∧ sp_State sp = RESERVED) →
  (∀ i sp c, (i, sp) ∈ l → ContractID sp = Some c → is_Some (env_contracts s !! c)) → versions_below s (Z.of_nat (length l)) →
  ∃ m s', void_each s now l n = Ok (m, s') ∧ env_contracts s' = env_contracts s ∧
    ∀ i sp, spends s' !! i = Some sp → sp_State sp = RESERVED →
      spends s !! i = Some sp ∧ (i ∈ l.*1 → verified_contract s sp).
Proof.
  induction l as [|[i sp] l IH]; intros s now n O D In Ct V.
  { exists n, s. split_and!; [done..|]. intros i sp L _. split; [done|]. intros H. by apply elem_of_nil in H. }
  simpl in *. apply NoDup_cons in D as [Ni D]. destruct (In i sp) as [L R]; [left|].
  destruct (ok_spend s O i sp L) as [_ (e & E & _)]. pose proof (V _ _ E) as Ve.
  assert (∀ j sp', (j, sp') ∈ l → i ≠ j) as Nij by (intros j sp' Hj ->; apply Ni, list_elem_of_fmap; by exists (j, sp')).
  assert (∃ v : bool, match ContractID sp with
                   | Some c => match env_contracts s !! c with
                               | Some ct => Ok (bool_decide (ct_state ct = "VERIFIED"))
                               | None => Err errNoRows
                               end
                   | None => Ok false
                   end = Ok v ∧ (v = true → verified_contract s sp)) as (v & -> & Hv).
  { destruct (ContractID sp) as [c|] eqn:C; [|by exists false].
    destruct (Ct i sp c) as [ct X]; [left|done|]. rewrite X. eexists. split; [done|]. intros Y. reflect_bools. by exists c, ct. }
  simpl. destruct v.
  - destruct (IH (log_envelope s (sp_EnvelopeID sp) "SPEND_VOIDED") now n) as (m & s' & -> & C & F).
    + by apply (env_ok_frame s).
    + done.
    + intros j sp' Hj. apply In. by right.
    + intros j sp' c Hj. apply (Ct j). by right.
    + intros id e' E'. pose proof (V id e' E'). lia.
    + exists m, s'. split_and!; [done..|]. intros j sp' L' R'. destruct (F j sp' L' R') as [L1 F1]. split; [done|].
      simpl in L1. intros [->|Hj]%elem_of_cons; [|by apply F1]. rewrite L in L1. simplify_eq. by apply Hv.
  - rewrite (void_spend_succeeds s i sp e) by (done || lia). simpl.
    set (s1 := mkEnvstore _ _ _ _). destruct (IH s1 now (n + 1)) as (m & s' & -> & C & F).
    + eapply (void_spend_ok s i sp now "" s1); [done..|]. by apply void_spend_succeeds; try lia.
    + done.
    + intros j sp' Hj. simpl. rewrite lookup_insert_ne by eauto. apply In. by right.
    + intros j sp' c Hj. apply (Ct j). by right.
    + intros id e'. simpl. rewrite lookup_insert. case_decide; intros; simplify_eq; simpl; [lia|].
      match goal with H : envelopes s !! id = Some _ |- _ => pose proof (V _ _ H) end. lia.
    + exists m, s'. split_and!; [done..|]. intros j sp' L' R'. destruct (F j sp' L' R') as [L1 F1].
      simpl in L1. rewrite lookup_insert in L1. case_decide; simplify_eq. split; [done|].
      intros [->|Hj]%elem_of_cons; [done|]. by apply F1.
Qed.

(** C30: the orphan sweep converges.  When the limit covers the table, the sweep
    succeeds in every reachable state and afterwards no hold is left that belongs to a
    failed or cancelled contract, or that has been without a contract for longer than
    the grace period. *)
Theorem orphans_recovered s now grace limit :
  rtc env_step no_envelopes s → 0 ≤ grace → 1 ≤ limit ≤ 1000 → Z.of_nat (size (spends s)) ≤ limit →
  (∀ i sp c, spends s !! i = Some sp → ContractID sp = Some c → is_Some (env_contracts s !! c)) → versions_below s limit →
  ∃ n s', RecoverOrphanEnvelopeSpends s now grace limit = Ok (n, s') ∧ env_contracts s' = env_contracts s ∧
    ∀ i sp, spends s' !! i = Some sp → is_orphan (env_contracts s') now grace sp = true → verified_contract s' sp.
Proof.
  intros O%env_reachable_ok G Lm Sz Ct V. unfold RecoverOrphanEnvelopeSpends.
  rewrite (proj2 (Z.ltb_ge grace 0)), (proj2 (Z.ltb_ge limit 1)), (proj2 (Z.ltb_ge 1000 limit)) by lia. simpl.
  destruct (selected_rows (spends s) (is_orphan (env_contracts s) now grace) sp_CreatedAt limit) as [E S].
  destruct (void_each_succeeds
    (omap (λ id, (λ sp, (id, sp)) <$> spends s !! id) (select_due (is_orphan (env_contracts s) now grace) sp_CreatedAt limit (spends s)))
    s now 0 O) as (m & s' & H & C & F).
  - rewrite E. apply select_due_NoDup.
  - intros i sp Hi. destruct (S i sp Hi) as [L P]. split; [done|]. unfold is_orphan in P. by reflect_bools.
  - intros i sp c Hi. apply S in Hi as [L _]. by eapply Ct.
  - intros id e Le. pose proof (V id e Le) as X. rewrite <-(length_fmap fst), E. unfold select_due. rewrite length_take. lia.
  - exists m, s'. split_and!; [done..|]. intros i sp L P. rewrite C in P. pose proof P as P'. unfold is_orphan in P'. reflect_bools.
    destruct (F i sp L) as [L0 F0]; [done|]. destruct F0 as (c & ct & X1 & X2 & X3); [|exists c, ct; by rewrite C].
    rewrite E. by eapply select_due_all.
Qed.

(** ** A concrete history *)

Definition ex_profile : envelope_profile := mkEnvProfile "profile" "sha" "alias" (f64_of_Z 1) (f64_of_Z 2).
Definition ex_grant : grant := mkGrant 7%N "usd" 10000 5 0 5000 "profile" "sha" "alias" 1000.

Definition ex_created : envstore := ok_or no_envelopes (write_envelope no_envelopes 1%N (fresh_envelope ex_grant)).
Definition ex_reserve (s : envstore) (i : UUID) : res ((UUID * spend) * envstore) :=
  reserveEnvelopeSpendTx s s i 1%N 7%N 3000 50 " k " "req" ex_profile 100.
Definition no_spend : UUID * spend := (0%N, mkSpend 0%N 0%N "" "" None VOIDED 0 0 0 0 0 None).
Definition ex_spend : UUID * spend := (ok_or (no_spend, no_envelopes) (ex_reserve ex_created 20%N)).1.
Definition ex_reserved : envstore := (ok_or (no_spend, no_envelopes) (ex_reserve ex_created 20%N)).2.
Definition ex_bound : envstore := ok_or no_envelopes (bindEnvelopeSpendContractTx ex_reserved 20%N 30%N).
Definition ex_failed : envstore := with_contracts ex_bound {[ 30%N := mkContract 7%N "usd" "FAILED" 3000 3 ]}.

Lemma ex_created_reachable : rtc env_step no_envelopes ex_created.
Proof. apply rtc_once. apply (env_create _ 1%N ex_grant); vm_compute; reflexivity. Qed.

Lemma ex_reserved_step : env_step ex_created ex_reserved.
Proof. apply (env_reserve _ ex_created 20%N 1%N 7%N 3000 50 " k " "req" ex_profile 100 ex_spend). vm_compute. reflexivity. Qed.

Lemma ex_bound_step : env_step ex_reserved ex_bound.
Proof. apply (env_bind _ 20%N 30%N). vm_compute. reflexivity. Qed.

Lemma ex_bound_reachable : rtc env_step no_envelopes ex_bound.
Proof.
  etrans; [apply ex_created_reachable|]. eapply rtc_l; [apply ex_reserved_step|]. apply rtc_once, ex_bound_step.
Qed.

Lemma ex_failed_reachable : rtc env_step no_envelopes ex_failed.
Proof. etrans; [apply ex_bound_reachable|]. apply rtc_once, env_execute. Qed.

Lemma envelope_books_witness :
  rtc env_step no_envelopes ex_bound ∧ booked spent_of ex_bound 1%N + booked held_of ex_bound 1%N ≤ 10000 ∧
  booked held_of ex_bound 1%N = 3000.
Proof.
  split; [apply ex_bound_reachable|]. split; [|vm_compute; reflexivity].
  destruct (envelope_books ex_bound ex_bound_reachable) as [H _].
  destruct (H 1%N (claim (fresh_envelope ex_grant) 3000 50)) as (_ & B & _); [vm_compute; reflexivity|exact B].
Defined.

Lemma hold_settles_witness :
  ∃ s' e', captureEnvelopeSpendTx ex_bound 30%N 2999 80 900 = Ok s' ∧ envelopes s' !! 1%N = Some e' ∧
     SpentNanos e' = 2999 ∧ env_ReservedNanos e' = 0 ∧ captureEnvelopeSpendTx s' 30%N 2999 80 900 = Ok s'.
Proof.
  destruct (hold_settles ex_bound 20%N (bind_contract ex_spend.2 30%N) (claim (fresh_envelope ex_grant) 3000 50) 30%N 2999 80 900
              ex_bound_reachable) as [H _]; [vm_compute; reflexivity..|done|vm_compute; split; congruence|lia|exact H].
Defined.

Lemma reserve_replays_witness :
  ∃ sp, spends ex_bound !! 20%N = Some sp ∧ same_request ex_spend.2 sp ∧ ex_reserve ex_bound 21%N = Ok ((20%N, sp), ex_bound).
Proof.
  apply (reserve_replays ex_created 20%N 1%N 7%N 3000 50 " k " "req" ex_profile 100 ex_spend ex_reserved ex_bound 21%N 100
           ex_created_reachable); [vm_compute; reflexivity|apply rtc_once, ex_bound_step].
Defined.

Lemma reserve_race_witness :
  reserveEnvelopeSpendTx ex_created ex_reserved 21%N 1%N 7%N 3000 50 " k " "req" ex_profile 100 = Err errInFailedTransaction.
Proof.
  destruct (reserve_race ex_created 20%N 1%N 7%N 3000 50 " k " "req" ex_profile 100 ex_spend ex_reserved 21%N "req" 100)
    as (e & -> & H); [vm_compute; reflexivity..|]. f_equal.
  apply (H (claim (fresh_envelope ex_grant) 3000 50)); vm_compute; reflexivity.
Defined.

Lemma orphans_recovered_witness :
  ∃ n s', RecoverOrphanEnvelopeSpends ex_failed 500 30 100 = Ok (n, s') ∧ env_contracts s' = env_contracts ex_failed ∧
    ∀ i sp, spends s' !! i = Some sp → is_orphan (env_contracts s') 500 30 sp = true → verified_contract s' sp.
Proof.
  apply (orphans_recovered ex_failed 500 30 100 ex_failed_reachable); [lia|lia|vm_compute; congruence| |].
  - intros i sp c L C. assert (spends ex_failed = {[ 20%N := bind_contract ex_spend.2 30%N ]}) as E by (vm_compute; reflexivity).
    rewrite E in L. apply lookup_singleton_Some in L as [<- <-]. simpl in C. simplify_eq. by vm_compute; eexists.
  - intros id e L.
    assert (envelopes ex_failed = {[ 1%N := claim (fresh_envelope ex_grant) 3000 50 ]}) as E by (vm_compute; reflexivity).
    rewrite E in L. apply lookup_singleton_Some in L as [<- <-]. vm_compute. congruence.
Defined.
