(* ===== verification/LoraSettlement.v ===== *)
(** * LoraSettlement: outcome-aware settlement of a training run ([lora_settlement.go])

    A training run is quoted at a maximum.  A fixed share of it, the compute
    floor, is owed whatever the evaluation says; the rest is a bonus owed only if
    an independent evaluation reports the agreed improvement.  The file models
    the whole of [lora_settlement.go]: the minimum quote computed at package
    initialisation, the independence and shape gates, the exact split in nanos,
    and its projection onto the micro ledger. *)
From stdpp Require Import base numbers list strings.
From S2P Require Import Prelude.
From S2P Require Import Float64.
From S2P Require Import Currency.
From S2P Require Import MoneyNanos.
From S2P Require Import LedgerWrite.
Local Open Scope Z_scope.
Local Open Scope go_scope.

Definition loraComputeFloorShareNanos : Z := 600000000.
Definition loraPlatformShareOfFloorNanos : Z := 200000000.
Definition loraSupplierShareOfBonusNanos : Z := 850000000.

Definition errLoRANotIndependent : error := Sentinel "errLoRANotIndependent".
Definition errLoRAEvaluationShape : error := Sentinel "errLoRAEvaluationShape".
Definition errLoRANegativeMargin : error := Sentinel "errLoRANegativeMargin".
Definition errLoRAHeldOutContested : error := Sentinel "errLoRAHeldOutContested".
Definition errLoRAQuoteTooSmall : error := Sentinel "errLoRAQuoteTooSmall".

(** The search run at initialisation: [None] is a panic. *)
Fixpoint minLoRAQuote_from (fuel : nat) (total : Z) : option Z :=
  match fuel with
  | O => None
  | S fuel =>
      match mulDiv total loraComputeFloorShareNanos NanosPerMajorUnit false with
      | Err _ => None
      | Ok floor =>
          match mulDiv floor loraPlatformShareOfFloorNanos NanosPerMajorUnit false with
          | Err _ => None
          | Ok platform =>
              if (1 <=? floor - platform) && (1 <=? platform) && (1 <=? total - floor)
              then Some total else minLoRAQuote_from fuel (total + 1)
          end
      end
  end.

Definition minLoRAQuoteMicros_init : option Z := minLoRAQuote_from (Z.to_nat (1000000 - 1)) 1.

Definition minLoRAQuoteMicros : Z := default 0 minLoRAQuoteMicros_init.
#[global] Arguments minLoRAQuoteMicros : simpl never.

Record loraEvaluation := mkLoraEvaluation {
  RunID : UUID;
  TrainerSupplierID : UUID;
  EvaluatorSupplierID : UUID;
  TrainerAccountID : UUID;
  EvaluatorAccountID : UUID;
  HeldOutSetSHA256 : string;
  ReservedSetSHA256 : string;
  TrainerSawHeldOutSet : bool;
  BaselineScore : f64;
  CandidateScore : f64;
  RequiredImprovement : f64
}.

(** The exact split, in nanos. *)
Record loraExactSettlement := mkLoraExact {
  exact_BuyerDebitNanos : Z;
  exact_SupplierPayableNanos : Z;
  exact_PlatformNanos : Z;
  exact_FloorNanos : Z;
  exact_BonusNanos : Z
}.

Definition settleLoRAExact (totalNanos : Z) (succeeded : bool) : res loraExactSettlement :=
  refuse errLoRAQuoteTooSmall if totalNanos <=? 0;
  floor ← mulDiv totalNanos loraComputeFloorShareNanos NanosPerMajorUnit false;
  let bonus := totalNanos -w floor in
  platformFloor ← mulDiv floor loraPlatformShareOfFloorNanos NanosPerMajorUnit false;
  out ←
    (if succeeded then
       supplierBonus ← mulDiv bonus loraSupplierShareOfBonusNanos NanosPerMajorUnit false;
       Ok (mkLoraExact totalNanos ((floor -w platformFloor) +w supplierBonus)
             ((platformFloor +w bonus) -w supplierBonus) floor bonus)
     else Ok (mkLoraExact floor (floor -w platformFloor) platformFloor floor bonus));
  refuse errLoRANegativeMargin
    if negb (exact_BuyerDebitNanos out =? exact_SupplierPayableNanos out +w exact_PlatformNanos out)
       || (exact_SupplierPayableNanos out <=? 0) || (exact_PlatformNanos out <=? 0);
  Ok out.

(** [Reason] is the format string of the message; its two percentages are
    [ImprovementFraction] and the agreed margin. *)
Record loraSettlement := mkLoraSettlement {
  ls_Currency : string;
  Succeeded : bool;
  Reason : string;
  BuyerDebitNanos : Z;
  SupplierPayableNanos : Z;
  PlatformNanos : Z;
  FloorNanos : Z;
  BonusNanos : Z;
  BuyerDebitMicros : Z;
  SupplierPayableMicros : Z;
  PlatformMicros : Z;
  FloorMicros : Z;
  BonusMicros : Z;
  ImprovementFraction : f64
}.

Definition validateLoRAIndependence (eval : loraEvaluation) : res unit :=
  refuse (Wrapf errLoRAEvaluationShape "%w: both a trainer and an evaluator must be named")
    if bool_decide (TrainerSupplierID eval = uuid_Nil) || bool_decide (EvaluatorSupplierID eval = uuid_Nil);
  refuse (Wrapf errLoRANotIndependent "%w: the trainer scored its own adapter")
    if bool_decide (TrainerSupplierID eval = EvaluatorSupplierID eval);
  refuse (Wrapf errLoRANotIndependent "%w: trainer and evaluator are two workers on one account")
    if negb (bool_decide (TrainerAccountID eval = uuid_Nil)) &&
       bool_decide (TrainerAccountID eval = EvaluatorAccountID eval);
  Ok tt.

Definition validateLoRAEvaluation (eval : loraEvaluation) : res unit :=
  _ ← validateLoRAIndependence eval;
  refuse (Wrapf errLoRAEvaluationShape "%w: held-out and reserved sets must be SHA-256 identities")
    if negb (validSHA256 (HeldOutSetSHA256 eval)) || negb (validSHA256 (ReservedSetSHA256 eval));
  refuse (Wrapf errLoRAHeldOutContested "%w: scored on %s, the job reserved %s")
    if negb (bool_decide (HeldOutSetSHA256 eval = ReservedSetSHA256 eval));
  refuse (Wrapf errLoRAEvaluationShape "%w: the held-out set leaked into the training shard, so a score improvement measures memorisation rather than generalisation")
    if TrainerSawHeldOutSet eval;
  refuse (Wrapf errLoRAEvaluationShape "%w: required improvement must be finite and non-negative")
    if negb (moneyUSDInDomain (RequiredImprovement eval)) || f64_ltb (RequiredImprovement eval) (f64_of_Z 0);
  refuse (Wrapf errLoRAEvaluationShape "%w: baseline score must be positive to express an improvement margin against it, got %v")
    if f64_leb (BaselineScore eval) (f64_of_Z 0);
  refuse (Wrapf errLoRAEvaluationShape "%w: scores must be finite")
    if negb (moneyUSDInDomain (BaselineScore eval)) || negb (moneyUSDInDomain (CandidateScore eval));
  Ok tt.

(** [tooSmall] is the refusal shared by the three projections. *)
Definition settleLoRARun (eval : loraEvaluation) (quotedMaximum : MoneyNanos) : res loraSettlement :=
  _ ← validateLoRAEvaluation eval;
  refuse (Wrapf errLoRAEvaluationShape "%w: quoted maximum must be a positive currency-bound amount, got %s")
    if negb (Currency_Valid (money_currency quotedMaximum)) || (Nanos quotedMaximum <=? 0);
  totalMicros ← LedgerMicrosFromNanos quotedMaximum;
  refuse (Wrapf errLoRAQuoteTooSmall "%w: %d ledger micros quoted, the minimum that still pays the supplier and merc at least one ledger micro each is %d")
    if totalMicros <? minLoRAQuoteMicros;
  let improvement := f64_div (f64_sub (CandidateScore eval) (BaselineScore eval)) (BaselineScore eval) in
  let succeeded := f64_leb (RequiredImprovement eval) improvement in
  exact ← settleLoRAExact (Nanos quotedMaximum) succeeded;
  let micros n := LedgerMicrosFromNanos (mkMoneyNanos (money_currency quotedMaximum) n) in
  let tooSmall {A} (m : res Z) (bad : Z → bool) (k : Z → res A) : res A :=
    match m with
    | Err _ => Err errLoRAQuoteTooSmall
    | Ok v => refuse errLoRAQuoteTooSmall if bad v; k v
    end in
  let buyerMicros := totalMicros in
  tooSmall (micros (exact_SupplierPayableNanos exact)) (λ s, (s <=? 0) || (buyerMicros <=? s)) (λ supplierMicros,
  let settle reason buyer floor bonus platform :=
    mkLoraSettlement (code (money_currency quotedMaximum)) succeeded reason
      (exact_BuyerDebitNanos exact) (exact_SupplierPayableNanos exact) (exact_PlatformNanos exact)
      (exact_FloorNanos exact) (exact_BonusNanos exact)
      buyer supplierMicros platform floor bonus improvement in
  settlement ←
    (if negb succeeded then
       tooSmall (micros (exact_BuyerDebitNanos exact)) (λ f, (f <=? 0) || (f <=? supplierMicros)) (λ floorMicros,
       Ok (settle "adapter improved the held-out score by %.2f%%, below the agreed %.2f%%; compute floor settled, outcome bonus not charged"
             floorMicros floorMicros (totalMicros -w floorMicros) (floorMicros -w supplierMicros)))
     else
       tooSmall (micros (exact_FloorNanos exact)) (λ f, (f <=? 0) || (buyerMicros <=? f)) (λ floorMicros,
       Ok (settle "adapter improved the held-out score by %.2f%%, meeting the agreed %.2f%%"
             buyerMicros floorMicros (buyerMicros -w floorMicros) (buyerMicros -w supplierMicros))));
  refuse (Errorf "LoRA settlement does not conserve: buyer %d != supplier %d + platform %d")
    if negb (BuyerDebitMicros settlement =? SupplierPayableMicros settlement +w PlatformMicros settlement);
  refuse (Errorf "LoRA settlement would owe the supplier a negative amount (%d ledger micros)")
    if SupplierPayableMicros settlement <? 0;
  refuse (Wrapf errLoRANegativeMargin "%w: %d ledger micros")
    if PlatformMicros settlement <? 0;
  refuse (Errorf "LoRA settlement would charge %d ledger micros against a quoted maximum of %d")
    if totalMicros <? BuyerDebitMicros settlement;
  Ok settlement).

(** ** The exact split *)

(** The initialisation does not panic; nine micros is the smallest quote. *)
Lemma minLoRAQuoteMicros_value : minLoRAQuoteMicros_init = Some 9.
Proof. vm_compute. reflexivity. Qed.

Lemma minLoRAQuote_nine : minLoRAQuoteMicros = 9.
Proof. unfold minLoRAQuoteMicros. by rewrite minLoRAQuoteMicros_value. Qed.

Definition lora_floor (t : Z) : Z := t * loraComputeFloorShareNanos / NanosPerMajorUnit.
Definition lora_platform_floor (t : Z) : Z := lora_floor t * loraPlatformShareOfFloorNanos / NanosPerMajorUnit.
Definition lora_supplier_bonus (t : Z) : Z :=
  (t - lora_floor t) * loraSupplierShareOfBonusNanos / NanosPerMajorUnit.

Lemma lora_bounds t :
  0 < t →
  0 ≤ lora_floor t ≤ t ∧ 5 * lora_floor t ≤ 3 * t < 5 * lora_floor t + 5 ∧
  0 ≤ lora_platform_floor t ∧ 5 * lora_platform_floor t ≤ lora_floor t < 5 * lora_platform_floor t + 5 ∧
  0 ≤ lora_supplier_bonus t ∧
  20 * lora_supplier_bonus t ≤ 17 * (t - lora_floor t) < 20 * lora_supplier_bonus t + 20.
Proof.
  intros. unfold lora_platform_floor, lora_supplier_bonus.
  assert (0 ≤ lora_floor t ∧ 5 * lora_floor t ≤ 3 * t < 5 * lora_floor t + 5).
  { unfold lora_floor, loraComputeFloorShareNanos, NanosPerMajorUnit. Z.to_euclidean_division_equations. lia. }
  set (f := lora_floor t) in *. unfold loraPlatformShareOfFloorNanos, loraSupplierShareOfBonusNanos, NanosPerMajorUnit.
  split_and!; Z.to_euclidean_division_equations; lia.
Qed.

Lemma settleLoRAExact_spec t (ok : bool) :
  int64 t → 0 < t →
  let out :=
    if ok then mkLoraExact t (lora_floor t - lora_platform_floor t + lora_supplier_bonus t)
                 (lora_platform_floor t + (t - lora_floor t) - lora_supplier_bonus t) (lora_floor t) (t - lora_floor t)
    else mkLoraExact (lora_floor t) (lora_floor t - lora_platform_floor t) (lora_platform_floor t)
           (lora_floor t) (t - lora_floor t) in
  settleLoRAExact t ok =
    if (0 <? exact_SupplierPayableNanos out) && (0 <? exact_PlatformNanos out) then Ok out
    else Err errLoRANegativeMargin.
Proof.
  intros It Ht out. pose proof (lora_bounds t Ht) as B. unfold settleLoRAExact.
  rewrite (proj2 (Z.leb_gt _ _)) by done.
  destruct (exact_division_share mulDiv false t loraComputeFloorShareNanos) as [-> _]; [done|lia|by vm_compute|].
  change (round_div false (t * loraComputeFloorShareNanos) NanosPerMajorUnit) with (lora_floor t).
  cbn [mbind res_bind]. rewrite (wrap64_id (t - lora_floor t)) by go_lia.
  destruct (exact_division_share mulDiv false (lora_floor t) loraPlatformShareOfFloorNanos) as [-> _];
    [go_lia|lia|by vm_compute|].
  change (round_div false (lora_floor t * _) NanosPerMajorUnit) with (lora_platform_floor t).
  destruct (exact_division_share mulDiv false (t - lora_floor t) loraSupplierShareOfBonusNanos) as [-> _];
    [go_lia|lia|by vm_compute|].
  change (round_div false ((t - lora_floor t) * _) NanosPerMajorUnit) with (lora_supplier_bonus t).
  subst out. destruct ok; cbn [mbind res_bind exact_BuyerDebitNanos exact_SupplierPayableNanos exact_PlatformNanos].
  - rewrite (wrap64_id (lora_floor t - _)), (wrap64_id (_ + lora_supplier_bonus t)),
      (wrap64_id (lora_platform_floor t + _)), (wrap64_id (_ - lora_supplier_bonus t)), wrap64_id by go_lia.
    rewrite (proj2 (Z.eqb_eq _ _)) by lia. rewrite !Z.leb_antisym. by destruct (0 <? _), (0 <? _).
  - rewrite (wrap64_id (lora_floor t - _)), wrap64_id by go_lia.
    rewrite (proj2 (Z.eqb_eq _ _)) by lia. rewrite !Z.leb_antisym. by destruct (0 <? _), (0 <? _).
Qed.

(** ** The settlement of a run *)

(** The split of the micros follows the split of the nanos. *)
Lemma ledger_micros_bounds n :
  0 ≤ n → 0 ≤ ledger_micros n ∧ (500 ≤ n → 1000 * ledger_micros n - 500 ≤ n < 1000 * ledger_micros n + 500) ∧
  (n < 500 → ledger_micros n ≤ 1).
Proof.
  intros. unfold ledger_micros. pose proof (Z.div_mod (n + 500) 1000). pose proof (Z.mod_pos_bound (n + 500) 1000).
  destruct (_ && _) eqn:E; [|split_and!; lia]. reflect_bools. split_and!; lia.
Qed.

Definition lora_outcome (eval : loraEvaluation) : f64 * bool :=
  let improvement := f64_div (f64_sub (CandidateScore eval) (BaselineScore eval)) (BaselineScore eval) in
  (improvement, f64_leb (RequiredImprovement eval) improvement).

(** What a run settles to. *)
Definition lora_settled (eval : loraEvaluation) (c : Currency) (t : Z) : loraSettlement :=
  let '(improvement, ok) := lora_outcome eval in
  let floor := lora_floor t in
  let supplier := floor - lora_platform_floor t + (if ok then lora_supplier_bonus t else 0) in
  let buyer := if ok then t else floor in
  mkLoraSettlement (code c) ok
    (if ok then "adapter improved the held-out score by %.2f%%, meeting the agreed %.2f%%"
     else "adapter improved the held-out score by %.2f%%, below the agreed %.2f%%; compute floor settled, outcome bonus not charged")
    buyer supplier (buyer - supplier) floor (t - floor)
    (ledger_micros buyer) (ledger_micros supplier) (ledger_micros buyer - ledger_micros supplier)
    (ledger_micros floor) (ledger_micros t - ledger_micros floor) improvement.

Lemma settleLoRARun_spec eval c t :
  validateLoRAEvaluation eval = Ok tt → Currency_Valid c = true → int64 t → 8500 ≤ t →
  settleLoRARun eval (mkMoneyNanos c t) = Ok (lora_settled eval c t).
Proof.
  intros V C It Ht. unfold settleLoRARun. rewrite V. cbn [mbind res_bind money_currency Nanos].
  rewrite C, (proj2 (Z.leb_gt _ _)) by lia. cbn [negb orb].
  assert (code c ≠ "") as Hc by eauto with go. pose proof (lora_bounds t ltac:(lia)) as B.
  rewrite LedgerMicros_value by (done || lia). cbn [mbind res_bind]. rewrite minLoRAQuote_nine.
  pose proof (ledger_micros_bounds t ltac:(lia)) as Mt.
  rewrite (proj2 (Z.ltb_ge _ _)) by lia.
  rewrite settleLoRAExact_spec by (done || lia). unfold lora_settled, lora_outcome.
  destruct (f64_leb (RequiredImprovement eval) _) eqn:S;
    cbn [exact_SupplierPayableNanos exact_PlatformNanos exact_BuyerDebitNanos exact_FloorNanos exact_BonusNanos negb].
  - set (sup := lora_floor t - lora_platform_floor t + lora_supplier_bonus t) in *.
    rewrite (proj2 (Z.ltb_lt 0 sup)), (proj2 (Z.ltb_lt 0 _)) by lia. cbn [andb mbind res_bind].
    assert (500 ≤ sup ≤ t - 1000) as Hs by lia. pose proof (ledger_micros_bounds sup ltac:(lia)) as Ms.
    pose proof (ledger_micros_bounds (lora_floor t) ltac:(lia)) as Mf.
    cbn [exact_SupplierPayableNanos exact_PlatformNanos exact_BuyerDebitNanos exact_FloorNanos exact_BonusNanos].
    rewrite !LedgerMicros_value by (done || go_lia).
    rewrite (proj2 (Z.leb_gt (ledger_micros sup) 0)), (proj2 (Z.leb_gt (ledger_micros t) (ledger_micros sup))) by lia.
    rewrite (proj2 (Z.leb_gt (ledger_micros (lora_floor t)) 0)),
      (proj2 (Z.leb_gt (ledger_micros t) (ledger_micros (lora_floor t)))) by lia.
    cbn [orb mbind res_bind BuyerDebitMicros SupplierPayableMicros PlatformMicros].
    rewrite !(wrap64_id (ledger_micros t - _)), wrap64_id by go_lia.
    rewrite (proj2 (Z.eqb_eq _ _)) by lia. cbn [negb].
    rewrite !(proj2 (Z.ltb_ge _ _)) by lia. do 2 f_equal. lia.
  - set (sup := lora_floor t - lora_platform_floor t) in *.
    rewrite (proj2 (Z.ltb_lt 0 sup)), (proj2 (Z.ltb_lt 0 _)) by lia. cbn [andb mbind res_bind].
    assert (500 ≤ sup ≤ lora_floor t - 1000) as Hs by lia. pose proof (ledger_micros_bounds sup ltac:(lia)) as Ms.
    pose proof (ledger_micros_bounds (lora_floor t) ltac:(lia)) as Mf.
    cbn [exact_SupplierPayableNanos exact_PlatformNanos exact_BuyerDebitNanos exact_FloorNanos exact_BonusNanos].
    rewrite !LedgerMicros_value by (done || go_lia).
    rewrite (proj2 (Z.leb_gt (ledger_micros sup) 0)), (proj2 (Z.leb_gt (ledger_micros t) (ledger_micros sup))) by lia.
    rewrite (proj2 (Z.leb_gt (ledger_micros (lora_floor t)) 0)),
      (proj2 (Z.leb_gt (ledger_micros (lora_floor t)) (ledger_micros sup))) by lia.
    cbn [orb mbind res_bind BuyerDebitMicros SupplierPayableMicros PlatformMicros].
    rewrite !(wrap64_id (_ - _)), wrap64_id by go_lia.
    rewrite (proj2 (Z.eqb_eq _ _)) by lia. cbn [negb].
    rewrite !(proj2 (Z.ltb_ge _ _)) by lia. rewrite !Z.add_0_r. do 2 f_equal. lia.
Qed.

Lemma settleLoRARun_needs eval q s :
  int64 (Nanos q) → settleLoRARun eval q = Ok s →
  validateLoRAEvaluation eval = Ok tt ∧ Currency_Valid (money_currency q) = true ∧ 8500 ≤ Nanos q.
Proof.
  intros It H. unfold settleLoRARun in H. apply bind_Ok in H as ([] & V & H).
  apply refuse_Ok in H as [G H]. reflect_bools. apply bind_Ok in H as (total & T & H).
  apply refuse_Ok in H as [M _]. reflect_bools. split_and!; [done..|]. destruct q as [c n]. simpl in *.
  rewrite LedgerMicros_value in T by (eauto with go || lia). simplify_eq.
  rewrite minLoRAQuote_nine in M. pose proof (ledger_micros_bounds n ltac:(lia)). lia.
Qed.

(** A run with an admissible, independent evaluation and a quote of at least 8500 nanos
    (the least that rounds to nine micros) always settles, and nothing else does:
    once the quote passes the gate no later refusal is reachable. *)
Theorem lora_settles eval q :
  int64 (Nanos q) →
  is_ok (settleLoRARun eval q) = true ↔
  validateLoRAEvaluation eval = Ok tt ∧ Currency_Valid (money_currency q) = true ∧ 8500 ≤ Nanos q.
Proof.
  intros It. split.
  - intros H. destruct (settleLoRARun eval q) as [s|] eqn:E; [|done]. by eapply settleLoRARun_needs.
  - destruct q as [c t]. intros (V & C & Ht). by rewrite settleLoRARun_spec.
Qed.

(** An evaluation of account 2's supplier 4 by account 3's supplier 5, 0.50 to 0.54 against 5%. *)
Definition lora_example : loraEvaluation :=
  let sha := "00112233445566778899aabbccddeeff00112233445566778899aabbccddeeff" in
  mkLoraEvaluation 1%N 4%N 5%N 2%N 3%N sha sha false (f64_lit 50 100) (f64_lit 54 100) (f64_lit 5 100).

Lemma lora_settles_witness :
  is_ok (settleLoRARun lora_example (mkMoneyNanos (mkCurrency "usd" 2) 2000000000)) = true ↔
  validateLoRAEvaluation lora_example = Ok tt ∧ Currency_Valid (mkCurrency "usd" 2) = true ∧ 8500 ≤ 2000000000.
Proof.
  apply (lora_settles lora_example (mkMoneyNanos (mkCurrency "usd" 2) 2000000000)). simpl; width; lia.
Defined.

(** What a settled run does with the money, whatever the evaluation says: in nanos and
    in micros the buyer pays exactly what the supplier and the platform get, and
    both get something; in nanos the buyer never pays more than the quote, and
    only the floor when the margin was missed; the supplier always gets the floor
    less the platform's share of it; the outcome is the measured improvement
    against the agreed margin; and the buyer's ledger debit is within 500 nanos of
    the exact one. *)
Theorem lora_conserves eval q s :
  int64 (Nanos q) → settleLoRARun eval q = Ok s →
  (BuyerDebitNanos s = SupplierPayableNanos s + PlatformNanos s ∧ BuyerDebitNanos s ≤ Nanos q ∧
   0 < SupplierPayableNanos s ∧ 0 < PlatformNanos s ∧ FloorNanos s + BonusNanos s = Nanos q) ∧
  (BuyerDebitMicros s = SupplierPayableMicros s + PlatformMicros s ∧
   0 < SupplierPayableMicros s ∧ 0 < PlatformMicros s) ∧
  5 * FloorNanos s ≤ 3 * Nanos q < 5 * FloorNanos s + 5 ∧
  4 * FloorNanos s ≤ 5 * SupplierPayableNanos s ∧
  Succeeded s = (lora_outcome eval).2 ∧ BuyerDebitNanos s = (if Succeeded s then Nanos q else FloorNanos s) ∧
  BuyerDebitNanos s - 500 < 1000 * BuyerDebitMicros s ≤ BuyerDebitNanos s + 500.
Proof.
  intros It H. destruct (settleLoRARun_needs _ _ _ It H) as (V & C & Ht). destruct q as [c t].
  cbn [money_currency Nanos] in *. rewrite settleLoRARun_spec in H by done. injection H as <-.
  pose proof (lora_bounds t ltac:(lia)). unfold lora_settled. destruct (lora_outcome eval) as [i ok].
  cbn [BuyerDebitNanos SupplierPayableNanos PlatformNanos FloorNanos BonusNanos BuyerDebitMicros
       SupplierPayableMicros PlatformMicros Succeeded snd].
  pose proof (ledger_micros_bounds (if ok then t else lora_floor t) ltac:(destruct ok; lia)) as Mb.
  pose proof (ledger_micros_bounds (lora_floor t - lora_platform_floor t + (if ok then lora_supplier_bonus t else 0))
    ltac:(destruct ok; lia)) as Ms.
  destruct ok; split_and!; try done; lia.
Qed.

Lemma lora_conserves_witness :
  ∃ s, settleLoRARun lora_example (mkMoneyNanos (mkCurrency "usd" 2) 2000000001) = Ok s ∧
  BuyerDebitNanos s = SupplierPayableNanos s + PlatformNanos s.
Proof.
  eexists. split; [vm_compute; reflexivity|].
  eapply (lora_conserves lora_example (mkMoneyNanos (mkCurrency "usd" 2) 2000000001));
    [simpl; width; lia|vm_compute; reflexivity].
Defined.

(** The ledger debit can exceed the quoted maximum: a quote of 8500 nanos that meets
    its margin debits nine micros, 500 nanos more than the buyer's ceiling. *)
Theorem lora_exceeds_ceiling :
  ∃ s, settleLoRARun lora_example (mkMoneyNanos (mkCurrency "usd" 2) 8500) = Ok s ∧
  1000 * BuyerDebitMicros s = 8500 + 500.
Proof. eexists. split; vm_compute; reflexivity. Qed.
