(* ===== verification/RealtimeClearing.v ===== *)
(** * RealtimeClearing: ranking of live realtime offers ([realtime_clearing.go])

    An offer is ranked by the expected cost of a verified outcome: its base ask,
    scaled up by the measured failure and refund rates when there are enough
    samples; warmth, availability and the worker's identity break ties.  The
    file models the whole of [realtime_clearing.go], the receipt text included.
    All integers are [int64] (Go's [int] on the build platforms) and the products
    wrap, as in the source. *)
From stdpp Require Import base numbers list strings pretty.
From S2P Require Import Prelude.
From S2P Require Import Float64.
Local Open Scope Z_scope.
Local Open Scope go_scope.

Definition realtimeOrderBookPolicy : string := "verified_outcome_cost_v1".
Definition minRealtimeOutcomeSamples : Z := 5.

Record RealtimeClearingRankingInputs := mkRankingInputs {
  RateCurrency : string;
  BaseAskNanos : Z;
  SelectedSupplierInputNanos : Z;
  SelectedSupplierOutputNanos : Z;
  VerifiedOutcomeCostNanos : Z;
  TerminalAttempts : Z;
  TerminalFails : Z;
  ObservedFailureRate : option f64;
  RetryCostApplied : bool;
  VerifiedSettlements : Z;
  RefundCount : Z;
  ObservedRefundRate : option f64;
  RefundRiskApplied : bool;
  Warmth : string;
  WarmthRank : Z;
  OmittedTerms : list string
}.

Definition realtimeClearingOmittedTerms : list string :=
  ["verification_redundancy_honeypot:realtime_v0_not_applicable";
   "locality_benefit:no_governed_region_or_residency_cost_on_realtime_offers"].

Definition warmthRank (warmth : string) : Z :=
  if bool_decide (warmth = "HOT") then 0
  else if bool_decide (warmth = "WARM") then 1
  else if bool_decide (warmth = "CACHED") then 2
  else if bool_decide (warmth = "COLD") then 3
  else 4.

Definition divRoundUp (num den : Z) : Z :=
  if den <=? 0 then max_int64
  else if num <=? 0 then 0
  else
    let q := num /t den in
    if negb (num %t den =? 0) then (if q =? max_int64 then max_int64 else q +w 1) else q.

(** One measured adjustment: [total] observations of which [bad] failed (or were
    refunded).  Returns the cost, the observed rate and whether it was applied. *)
Definition measured_adjustment (cost total bad : Z) : Z * option f64 * bool :=
  if (minRealtimeOutcomeSamples <=? total) && (0 <=? bad) then
    let rate := if total <? bad then f64_of_Z 1 else f64_div (f64_of_Z bad) (f64_of_Z total) in
    if total <=? bad then (max_int64 /t 4, Some rate, true)
    else (divRoundUp (cost *w total) (total -w bad), Some rate, 0 <? bad)
  else (cost, None, false).

(** Cost, failure rate, refund rate, retry applied, refund applied. *)
Definition realtimeVerifiedOutcomeCostNanos
    (inputNanos outputNanos terminalAttempts terminalFails verifiedSettlements refundCount : Z) :
    Z * option f64 * option f64 * bool * bool :=
  if (inputNanos <? 0) || (outputNanos <? 0) then (0, None, None, false, false)
  else
    let cost := inputNanos +w outputNanos in
    if cost <? 0 then (max_int64, None, None, false, false)
    else
      let '(cost, failureRate, retryApplied) := measured_adjustment cost terminalAttempts terminalFails in
      let '(cost, refundRate, refundApplied) := measured_adjustment cost verifiedSettlements refundCount in
      (cost, failureRate, refundRate, retryApplied, refundApplied).

Definition buildRealtimeClearingRankingInputs
    (inputNanos outputNanos terminalAttempts terminalFails verifiedSettlements refundCount : Z)
    (warmth : string) : RealtimeClearingRankingInputs :=
  let '(cost, failRate, refundRate, retryApplied, refundApplied) :=
    realtimeVerifiedOutcomeCostNanos inputNanos outputNanos terminalAttempts terminalFails
      verifiedSettlements refundCount in
  mkRankingInputs "" (inputNanos +w outputNanos) inputNanos outputNanos cost
    terminalAttempts terminalFails failRate retryApplied
    verifiedSettlements refundCount refundRate refundApplied
    warmth (warmthRank warmth) realtimeClearingOmittedTerms.

(** [strconv.AppendFloat(_, x, 'f', 4, 64)] of a non-negative finite value: the
    decimal nearest to the exact binary value, halves to even. *)
Definition round_half_even (n d : Z) : Z :=
  let q := n / d in
  let r := n mod d in
  if (2 * r <? d) || ((2 * r =? d) && Z.even q) then q else q + 1.

Fixpoint digits_onto (n : nat) (v : Z) (acc : string) : string :=
  match n with
  | O => acc
  | S n => digits_onto n (v / 10) (String (Ascii.ascii_of_N (Z.to_N (48 + v mod 10))) acc)
  end.

Definition fixed4 (x : f64) : string :=
  let tenThousandths :=
    match x with
    | SpecFloat.S754_finite _ m e =>
        if 0 <=? e then Z.pos m * 2 ^ e * 10000 else round_half_even (Z.pos m * 10000) (2 ^ (- e))
    | _ => 0
    end in
  pretty (tenThousandths / 10000) +:+ "." +:+ digits_onto 4 (tenThousandths mod 10000) "".

(** A nil rate is a nil-pointer panic; [applied] is only set together with a rate. *)
Definition rate_text (r : option f64) : string :=
  match r with Some r => fixed4 r | None => "" end.

Definition realtimeClearingRankingDiscipline (inputs : RealtimeClearingRankingInputs) : string :=
  (if RetryCostApplied inputs && RefundRiskApplied inputs then
     "base ask adjusted by measured failure rate " +:+ rate_text (ObservedFailureRate inputs) +:+
     " and refund rate " +:+ rate_text (ObservedRefundRate inputs)
   else if RetryCostApplied inputs then
     "base ask adjusted by measured failure rate " +:+ rate_text (ObservedFailureRate inputs)
   else if RefundRiskApplied inputs then
     "base ask adjusted by measured refund rate " +:+ rate_text (ObservedRefundRate inputs)
   else
     "base supplier ask; failure and refund rates unmeasured below " +:+
     pretty minRealtimeOutcomeSamples +:+ " samples") +:+
  "; warmth " +:+ Warmth inputs +:+ " is tiebreak only".

Definition realtimeClearingSelectionReason (inputs : RealtimeClearingRankingInputs)
    (selectedRank candidateCount : Z) : string :=
  let discipline := realtimeClearingRankingDiscipline inputs in
  if 1 <? selectedRank then
    "SKIP LOCKED admitted economic rank " +:+ pretty selectedRank +:+ " of " +:+ pretty candidateCount +:+
    "; better-ranked peers were lock-skipped under concurrent reservation (not lowest unlocked cost). Ranking: " +:+
    discipline
  else "lowest verified-outcome cost (" +:+ discipline +:+ ")".

(** An offer as the order book compares it. *)
Record offer := mkOffer {
  offer_cost : Z;
  offer_warmth : string;
  offer_available : Z;
  offer_worker : string
}.

Definition realtimeOfferBeats (a b : offer) : bool :=
  if negb (offer_cost a =? offer_cost b) then offer_cost a <? offer_cost b
  else if negb (warmthRank (offer_warmth a) =? warmthRank (offer_warmth b))
  then warmthRank (offer_warmth a) <? warmthRank (offer_warmth b)
  else if negb (offer_available a =? offer_available b) then offer_available b <? offer_available a
  else String.ltb (offer_worker a) (offer_worker b).

(** ** The ranking key *)

Lemma divRoundUp_spec num den :
  int64 num → 0 ≤ num → 0 < den →
  (divRoundUp num den - 1) * den < num ≤ divRoundUp num den * den ∧ 0 ≤ divRoundUp num den ≤ num.
Proof.
  intros In Hn Hd. unfold divRoundUp. rewrite (proj2 (Z.leb_gt _ _)) by done.
  destruct (Z.leb_spec num 0); [assert (num = 0) by lia; nia|].
  rewrite Z.quot_div_nonneg, Z.rem_mod_nonneg by lia.
  pose proof (Z.div_mod num den ltac:(lia)). pose proof (Z.mod_pos_bound num den Hd).
  assert (num / den ≤ num) by (apply Z.div_le_upper_bound; nia). pose proof (Z.div_pos num den).
  destruct (Z.eqb_spec (num mod den) 0); cbn [negb]; [split; nia|].
  assert (num / den < num) by nia.
  rewrite (proj2 (Z.eqb_neq _ _)) by go_lia. rewrite wrap64_id by go_lia. split; nia.
Qed.

Definition measured (total bad : Z) : bool := (minRealtimeOutcomeSamples <=? total) && (0 <=? bad).

Lemma measured_adjustment_spec cost total bad :
  int64 cost → 0 ≤ cost → int64 total → int64 bad → cost * total ≤ max_int64 →
  let '(cost', rate, applied) := measured_adjustment cost total bad in
  0 ≤ cost' ≤ max_int64 ∧
  (measured total bad = false → cost' = cost ∧ rate = None ∧ applied = false) ∧
  (measured total bad = true → bad < total →
     cost ≤ cost' ∧ (cost' - 1) * (total - bad) < cost * total ≤ cost' * (total - bad)) ∧
  (measured total bad = true → total ≤ bad → cost' = max_int64 / 4).
Proof.
  intros Ic Hc It Ib Hp. unfold measured_adjustment, measured, minRealtimeOutcomeSamples.
  destruct ((5 <=? total) && (0 <=? bad)) eqn:M; [|split_and!; done || go_lia]. reflect_bools.
  destruct (Z.leb_spec total bad) as [L|L].
  - split_and!; try done; try lia; try go_lia.
  - rewrite (wrap64_id (cost * total)) by go_lia. rewrite (wrap64_id (total - bad)) by go_lia.
    destruct (divRoundUp_spec (cost * total) (total - bad)) as [D R]; [go_lia|nia|lia|].
    split_and!; try done; try lia; nia.
Qed.

(** Ranking never understates an offer.  While the products fit an [int64], the
    ranking key is at least the base ask, and at least the expected cost of a
    verified outcome: the ask scaled by attempts over deliveries and by
    settlements over settlements kept, each rounded up, where measured. *)
Theorem outcome_cost_covers input output attempts fails verified refunds :
  0 ≤ input → 0 ≤ output → int64 attempts → int64 fails → int64 verified → int64 refunds →
  (input + output) * Z.max 1 attempts * Z.max 1 verified ≤ max_int64 →
  (measured attempts fails = true → fails < attempts) →
  (measured verified refunds = true → refunds < verified) →
  let '(cost, _, _, _, _) := realtimeVerifiedOutcomeCostNanos input output attempts fails verified refunds in
  input + output ≤ cost ∧
  (measured attempts fails = true → (input + output) * attempts ≤ cost * (attempts - fails)) ∧
  (measured verified refunds = true → (input + output) * verified ≤ cost * (verified - refunds)) ∧
  (measured attempts fails = true → measured verified refunds = true →
     (input + output) * attempts * verified ≤ cost * (attempts - fails) * (verified - refunds)).
Proof.
  intros Hi Ho Ia If Iv Ir B Hf Hr. unfold realtimeVerifiedOutcomeCostNanos.
  assert (1 ≤ Z.max 1 attempts ∧ attempts ≤ Z.max 1 attempts ∧ 1 ≤ Z.max 1 verified ∧ verified ≤ Z.max 1 verified)
    as (A1 & A2 & V1 & V2) by lia.
  set (A := Z.max 1 attempts) in *. set (V := Z.max 1 verified) in *. clearbody A V.
  assert ((input + output) * A ≤ (input + output) * A * V) by nia.
  assert (0 ≤ input + output ≤ max_int64 ∧ (input + output) * attempts ≤ max_int64) as [B1 B2] by nia.
  rewrite !(proj2 (Z.ltb_ge _ _)) by (rewrite ?wrap64_id; go_lia). cbn [orb].
  rewrite wrap64_id by go_lia. set (base := input + output) in *.
  pose proof (measured_adjustment_spec base attempts fails ltac:(go_lia) ltac:(lia) Ia If B2) as S1.
  destruct (measured_adjustment base attempts fails) as [[c1 r1] a1].
  destruct S1 as (R1 & U1 & M1 & _).
  assert (base ≤ c1 ∧ c1 ≤ base * A ∧
    (measured attempts fails = true → base * attempts ≤ c1 * (attempts - fails))) as (L1 & L2 & L3).
  { destruct (measured attempts fails) eqn:E; [|destruct (U1 eq_refl) as [-> _]; split_and!; [lia|nia|done]].
    destruct (M1 eq_refl (Hf eq_refl)) as [? [? ?]]. specialize (Hf eq_refl). split_and!; [done|nia|done]. }
  assert (c1 * verified ≤ base * A * V) by nia.
  pose proof (measured_adjustment_spec c1 verified refunds ltac:(go_lia) ltac:(lia) Iv Ir ltac:(lia)) as S2.
  destruct (measured_adjustment c1 verified refunds) as [[c2 r2] a2].
  destruct S2 as (R2 & U2 & M2 & _).
  destruct (measured verified refunds) eqn:E.
  - destruct (M2 eq_refl (Hr eq_refl)) as [? [? ?]]. specialize (Hr eq_refl).
    unfold measured, minRealtimeOutcomeSamples in E. reflect_bools.
    split_and!; [lia|intros Ha; specialize (L3 Ha); specialize (Hf Ha); nia|intros _; nia|].
    intros Ha _. specialize (L3 Ha). specialize (Hf Ha). nia.
  - destruct (U2 eq_refl) as [-> _]. split_and!; done.
Qed.

Lemma outcome_cost_covers_witness :
  let '(cost, _, _, _, _) := realtimeVerifiedOutcomeCostNanos 150000000 600000000 7 2 11 1 in
  150000000 + 600000000 ≤ cost ∧
  (measured 7 2 = true → measured 11 1 = true →
     (150000000 + 600000000) * 7 * 11 ≤ cost * (7 - 2) * (11 - 1)).
Proof.
  pose proof (outcome_cost_covers 150000000 600000000 7 2 11 1 ltac:(lia) ltac:(lia)
    ltac:(width; lia) ltac:(width; lia) ltac:(width; lia) ltac:(width; lia)
    ltac:(vm_compute; discriminate) ltac:(intros; lia) ltac:(intros; lia)) as H.
  destruct (realtimeVerifiedOutcomeCostNanos 150000000 600000000 7 2 11 1) as [[[[cost ?] ?] ?] ?].
  destruct H as (? & _ & _ & ?). split; assumption.
Defined.

(** A supplier whose every attempt failed is meant to rank last.  With five to eight
    verified settlements on record, not all refunded, the scaling of its
    sentinel cost overflows and the ranking key is zero: it ranks first. *)
Theorem failing_supplier_first input output attempts fails verified refunds :
  0 ≤ input → 0 ≤ output → input + output ≤ max_int64 →
  5 ≤ attempts → attempts ≤ fails → 5 ≤ verified ≤ 8 → 0 ≤ refunds < verified →
  ∃ failureRate refundRate refundApplied,
  realtimeVerifiedOutcomeCostNanos input output attempts fails verified refunds =
    (0, failureRate, refundRate, true, refundApplied).
Proof.
  intros. unfold realtimeVerifiedOutcomeCostNanos.
  rewrite !(proj2 (Z.ltb_ge _ _)) by (rewrite ?wrap64_id; go_lia). cbn [orb].
  unfold measured_adjustment, minRealtimeOutcomeSamples.
  rewrite !(proj2 (Z.leb_le _ _)) by lia. cbn [andb].
  rewrite (proj2 (Z.leb_gt verified refunds)) by lia. eexists _, _, _. do 4 f_equal.
  unfold divRoundUp. change (max_int64 /t 4) with 2305843009213693951.
  destruct (Z.leb_spec (verified -w refunds) 0); [go_lia|].
  destruct (Z.leb_spec (2305843009213693951 *w verified) 0); [done|go_lia].
Qed.

Lemma failing_supplier_first_witness :
  ∃ f r a, realtimeVerifiedOutcomeCostNanos 150000000 600000000 5 5 5 0 = (0, f, r, true, a).
Proof. apply (failing_supplier_first 150000000 600000000 5 5 5 0); unfold max_int64; lia. Defined.

(** ** The order book *)

Lemma realtimeOfferBeats_spec a b :
  realtimeOfferBeats a b = true ↔
  offer_cost a < offer_cost b ∨ offer_cost a = offer_cost b ∧
  (warmthRank (offer_warmth a) < warmthRank (offer_warmth b) ∨
   warmthRank (offer_warmth a) = warmthRank (offer_warmth b) ∧
   (offer_available b < offer_available a ∨ offer_available a = offer_available b ∧
    String.ltb (offer_worker a) (offer_worker b) = true)).
Proof.
  unfold realtimeOfferBeats.
  destruct (Z.eqb_spec (offer_cost a) (offer_cost b)); cbn [negb]; [|rewrite Z.ltb_lt; lia].
  destruct (Z.eqb_spec (warmthRank (offer_warmth a)) (warmthRank (offer_warmth b))); cbn [negb]; [|rewrite Z.ltb_lt; lia].
  destruct (Z.eqb_spec (offer_available a) (offer_available b)); cbn [negb]; [|rewrite Z.ltb_lt; lia].
  split; [intros; right; do 2 (split; [lia|right]); tauto|].
  intros [?|[_ [?|[_ [?|[_ ?]]]]]]; lia || done.
Qed.

(** Clearing is deterministic: "beats" is a strict total order on offers of distinct
    workers, so of any set of live offers exactly one is best. *)
Theorem realtimeOfferBeats_order a b c :
  realtimeOfferBeats a a = false ∧
  (realtimeOfferBeats a b = true → realtimeOfferBeats b c = true → realtimeOfferBeats a c = true) ∧
  (offer_worker a ≠ offer_worker b → realtimeOfferBeats a b = true ∨ realtimeOfferBeats b a = true).
Proof.
  split_and!.
  - apply not_true_is_false. rewrite realtimeOfferBeats_spec, string_ltb_irrefl. lia.
  - rewrite !realtimeOfferBeats_spec. intros H1 H2.
    assert (String.ltb (offer_worker a) (offer_worker b) = true → String.ltb (offer_worker b) (offer_worker c) = true →
      String.ltb (offer_worker a) (offer_worker c) = true) by apply string_ltb_trans.
    destruct (Z.lt_trichotomy (offer_cost a) (offer_cost c)) as [?|[?|?]]; [lia| |lia]. right. split; [done|].
    destruct (Z.lt_trichotomy (warmthRank (offer_warmth a)) (warmthRank (offer_warmth c))) as [?|[?|?]]; [lia| |lia].
    right. split; [done|]. destruct (Z.lt_trichotomy (offer_available c) (offer_available a)) as [?|[?|?]]; [lia| |lia].
    right. split; [done|]. intuition lia.
  - rewrite !realtimeOfferBeats_spec. intros N.
    destruct (Z.lt_trichotomy (offer_cost a) (offer_cost b)) as [?|[?|?]]; [tauto| |tauto].
    destruct (Z.lt_trichotomy (warmthRank (offer_warmth a)) (warmthRank (offer_warmth b))) as [?|[?|?]]; [tauto| |intuition].
    destruct (Z.lt_trichotomy (offer_available b) (offer_available a)) as [?|[?|?]]; [tauto| |intuition].
    destruct (string_ltb_total (offer_worker a) (offer_worker b)) as [?|[?|?]]; [intuition|done|intuition].
Qed.
