(* ===== verification/LivenessIndex.v ===== *)
(** * LivenessIndex: in-process device presence ([liveness_index.go])

    The index keeps, per device slot, the second it was last seen and a packed
    pointer into a timing wheel of 64 one-second buckets, each split into 16
    shards.  A device is live while its last observation is less than 45 seconds
    old; [LiveSlots] enumerates the live devices by walking the 45 youngest
    buckets instead of all slots.

    The arrays and the wheel are finite maps whose missing entries are the zero
    values Go initialises them with; that every index the code computes is in
    range is part of the invariant below.  Epochs, slots and positions are
    [uint32].  Methods run one at a time: under that schedule the re-checks that
    [moveToBucket] performs after taking its locks always succeed, so its retry
    loop runs once.  The interleaving of concurrent calls and the byte accounting
    ([HotBytes] and its two derivatives) are not modelled. *)
From stdpp Require Import base numbers list gmap strings.
From S2P Require Import Prelude.
Local Open Scope Z_scope.
Local Open Scope go_scope.

Definition realtimeOfferLivenessWindow : Z := 45.        (* seconds *)
Definition liveDeviceWheelBuckets : Z := 64.
Definition liveDeviceWheelShards : Z := 16.
Definition liveDeviceWindowEpochs : Z := realtimeOfferLivenessWindow.
Definition liveMemberPosBits : Z := 24.
Definition liveMemberPosMask : Z := Z.shiftl 1 liveMemberPosBits - 1.
Definition liveMemberBucketShift : Z := 24.

Definition errInvalidDeviceSlot : error := Sentinel "errInvalidDeviceSlot".
Definition errStaleHeartbeatObservation : error := Sentinel "errStaleHeartbeatObservation".

Record LiveDeviceIndex := mkIndex {
  n : Z;
  epochs : gmap Z Z;
  member : gmap Z Z;
  wheel : gmap (Z * Z) (list Z);
  lastTick : Z
}.

Definition epoch_of (idx : LiveDeviceIndex) (slot : Z) : Z := default 0 (epochs idx !! slot).
Definition member_of (m : gmap Z Z) (slot : Z) : Z := default 0 (m !! slot).
Definition shard (w : gmap (Z * Z) (list Z)) (b s : Z) : list Z := default [] (w !! (b, s)).

Definition NewLiveDeviceIndex (slots : Z) : LiveDeviceIndex := mkIndex slots ∅ ∅ ∅ 0.

Definition Slots (idx : LiveDeviceIndex) : Z := n idx.

(** ** Packed membership *)

Definition packLiveMember (bucket pos : Z) : Z :=
  Z.lor (wrapu32 (Z.shiftl (wrapu32 (bucket + 1)) liveMemberBucketShift)) (Z.land pos liveMemberPosMask).

Definition unpackLiveMember (m : Z) : option (Z * Z) :=
  if m =? 0 then None
  else Some (wrapu32 (Z.shiftr m liveMemberBucketShift - 1), Z.land m liveMemberPosMask).

(** ** Presence *)

Definition live_epoch (epoch nowEpoch : Z) : bool :=
  (epoch <=? nowEpoch) && (wrapu32 (nowEpoch - epoch) <? liveDeviceWindowEpochs).

Definition IsLive (idx : LiveDeviceIndex) (slot nowEpoch : Z) : bool :=
  if n idx <=? slot then false else live_epoch (epoch_of idx slot) nowEpoch.

(** ** The wheel *)

(** [removeLocked]: the last occupant of the shard takes the freed position. *)
Definition removeLocked (m : gmap Z Z) (w : gmap (Z * Z) (list Z)) (b s pos slot : Z) :
    gmap Z Z * gmap (Z * Z) (list Z) :=
  let cur := shard w b s in
  let last := Z.of_nat (length cur) - 1 in
  let '(cur, m) :=
    if pos <? last then
      let moved := cur !!! Z.to_nat last in
      (<[Z.to_nat pos := moved]> cur, <[moved := packLiveMember b pos]> m)
    else (cur, m) in
  (<[slot := 0]> m, <[(b, s) := take (Z.to_nat last) cur]> w).

(** The append shared by the two paths of [moveToBucket]: a full shard leaves the
    slot off the wheel. *)
Definition append_slot (m : gmap Z Z) (w : gmap (Z * Z) (list Z)) (b s slot : Z) :
    gmap Z Z * gmap (Z * Z) (list Z) :=
  let pos := Z.of_nat (length (shard w b s)) in
  if liveMemberPosMask <? pos then (m, w)
  else (<[slot := packLiveMember b pos]> m, <[(b, s) := shard w b s ++ [slot]]> w).

Definition moveToBucket (m : gmap Z Z) (w : gmap (Z * Z) (list Z)) (slot newB : Z) :
    gmap Z Z * gmap (Z * Z) (list Z) :=
  let newS := Z.land slot (liveDeviceWheelShards - 1) in
  match unpackLiveMember (member_of m slot) with
  | Some (oldB, oldPos) =>
      if oldB =? newB then (m, w)
      else let '(m, w) := removeLocked m w oldB newS oldPos slot in append_slot m w newB newS slot
  | None => append_slot m w newB newS slot
  end.

Definition Heartbeat (idx : LiveDeviceIndex) (slot observedEpoch nowEpoch : Z) : res LiveDeviceIndex :=
  refuse errInvalidDeviceSlot if n idx <=? slot;
  let observedEpoch := if nowEpoch <? observedEpoch then nowEpoch else observedEpoch in
  refuse errStaleHeartbeatObservation if liveDeviceWindowEpochs <? wrapu32 (nowEpoch - observedEpoch);
  let '(m, w) := moveToBucket (member idx) (wheel idx) slot (observedEpoch mod liveDeviceWheelBuckets) in
  Ok (mkIndex (n idx) (<[slot := observedEpoch]> (epochs idx)) m w (lastTick idx)).

(** The in-place compaction of one shard: [i] is the read position, [kept] what
    has been written so far. *)
Fixpoint compact (live : Z → bool) (b i : Z) (cur kept : list Z) (m : gmap Z Z) : list Z * gmap Z Z :=
  match cur with
  | [] => (kept, m)
  | slot :: rest =>
      if live slot then
        let k := Z.of_nat (length kept) in
        compact live b (i + 1) rest (kept ++ [slot])
          (if negb (k =? i) then <[slot := packLiveMember b k]> m else m)
      else compact live b (i + 1) rest kept (<[slot := 0]> m)
  end.

Definition expire_shard (b nowEpoch : Z) (idx : LiveDeviceIndex) (s : Z) : LiveDeviceIndex :=
  let '(kept, m) :=
    compact (λ slot, IsLive idx slot nowEpoch) b 0 (shard (wheel idx) b s) [] (member idx) in
  mkIndex (n idx) (epochs idx) m (<[(b, s) := kept]> (wheel idx)) (lastTick idx).

Definition expireBucket (b nowEpoch : Z) (idx : LiveDeviceIndex) : LiveDeviceIndex :=
  foldl (expire_shard b nowEpoch) idx (seqZ 0 liveDeviceWheelShards).

(** One round of [Tick]'s loop. *)
Definition tick_second (nowEpoch : Z) (idx : LiveDeviceIndex) (t : Z) : LiveDeviceIndex :=
  let idx :=
    if liveDeviceWindowEpochs <=? t
    then expireBucket ((t - liveDeviceWindowEpochs) mod liveDeviceWheelBuckets) nowEpoch idx
    else idx in
  expireBucket (wrapu32 (t + 1) mod liveDeviceWheelBuckets) nowEpoch idx.

Definition tick_start (prev nowEpoch : Z) : Z :=
  if negb (prev =? 0) && (prev <? nowEpoch) then
    if liveDeviceWheelBuckets <? nowEpoch - prev then nowEpoch - liveDeviceWheelBuckets + 1 else prev + 1
  else nowEpoch.

(** The loop runs over [start .. nowEpoch], at most 64 rounds. *)
Definition Tick (idx : LiveDeviceIndex) (nowEpoch : Z) : LiveDeviceIndex :=
  let prev := lastTick idx in
  if negb (prev =? 0) && (nowEpoch <? prev) then idx
  else
    let start := tick_start prev nowEpoch in
    let idx := foldl (tick_second nowEpoch) idx (seqZ start (nowEpoch - start + 1)) in
    mkIndex (n idx) (epochs idx) (member idx) (wheel idx) nowEpoch.

(** The ages walked, newest first; the walk stops before the epoch would be negative. *)
Definition window_ages (nowEpoch : Z) : list Z :=
  seqZ 0 (Z.min liveDeviceWindowEpochs (nowEpoch + 1)).

Definition LiveSlots (idx : LiveDeviceIndex) (nowEpoch : Z) : list Z :=
  if n idx =? 0 then []
  else
    age ← window_ages nowEpoch;
    s ← seqZ 0 liveDeviceWheelShards;
    filter (λ slot, IsLive idx slot nowEpoch = true)
      (shard (wheel idx) ((nowEpoch - age) mod liveDeviceWheelBuckets) s).

(** ** Packing *)

Definition in_bucket (b : Z) : Prop := 0 ≤ b < liveDeviceWheelBuckets.

Lemma posmask_value : liveMemberPosMask = 2 ^ 24 - 1.
Proof. reflexivity. Qed.

Lemma pack_value b pos :
  in_bucket b → 0 ≤ pos ≤ liveMemberPosMask → packLiveMember b pos = (b + 1) * 2 ^ 24 + pos.
Proof.
  unfold in_bucket, liveDeviceWheelBuckets. rewrite posmask_value. intros Hb Hp.
  unfold packLiveMember, liveMemberBucketShift. rewrite posmask_value.
  change (2 ^ 24 - 1) with (Z.ones 24). rewrite Z.land_ones, (Z.mod_small pos) by lia.
  rewrite Z.shiftl_mul_pow2 by lia. unfold wrapu32.
  rewrite (Z.mod_small (b + 1)), (Z.mod_small (_ * _)) by lia.
  assert (Z.land ((b + 1) * 2 ^ 24) pos = 0) as L.
  { apply Z.bits_inj'. intros i Hi. rewrite Z.land_spec, Z.mul_pow2_bits, Z.bits_0 by lia.
    destruct (Z.ltb_spec i 24); [by rewrite Z.testbit_neg_r by lia|].
    rewrite <-(Z.mod_small pos (2 ^ 24)), Z.mod_pow2_bits_high, andb_false_r by lia. done. }
  pose proof (Z.add_lor_land ((b + 1) * 2 ^ 24) pos). lia.
Qed.

Lemma unpack_pack b pos :
  in_bucket b → 0 ≤ pos ≤ liveMemberPosMask → unpackLiveMember (packLiveMember b pos) = Some (b, pos).
Proof.
  intros Hb Hp. rewrite pack_value by done. unfold in_bucket, liveDeviceWheelBuckets in Hb.
  rewrite posmask_value in Hp. unfold unpackLiveMember, liveMemberBucketShift. rewrite posmask_value.
  rewrite (proj2 (Z.eqb_neq _ _)) by lia.
  change (2 ^ 24 - 1) with (Z.ones 24). rewrite Z.land_ones, Z.shiftr_div_pow2 by lia.
  rewrite Z.div_add_l, Z.div_small by lia. rewrite (Z.add_comm (_ * _) pos), Z.mod_add, (Z.mod_small pos) by lia.
  unfold wrapu32. rewrite Z.mod_small by lia. do 2 f_equal. lia.
Qed.

Lemma unpack_zero : unpackLiveMember 0 = None.
Proof. reflexivity. Qed.

#[global] Opaque packLiveMember unpackLiveMember.

(** ** The wheel invariant

    The packed pointers and the shards are inverse to each other, and a slot sits
    in the bucket of the second it was last seen. *)

Definition position (m : gmap Z Z) (slot : Z) : option (Z * Z) := unpackLiveMember (member_of m slot).

Definition shard_of (slot : Z) : Z := Z.land slot (liveDeviceWheelShards - 1).

Record wheel_ok (n : Z) (ep : Z → Z) (m : gmap Z Z) (w : gmap (Z * Z) (list Z)) : Prop := {
  ok_member slot b pos : position m slot = Some (b, pos) →
    0 ≤ slot < n ∧ in_bucket b ∧ 0 ≤ pos ∧ shard w b (shard_of slot) !! Z.to_nat pos = Some slot ∧
    b = ep slot mod liveDeviceWheelBuckets;
  ok_wheel b s i slot : shard w b s !! i = Some slot →
    s = shard_of slot ∧ position m slot = Some (b, Z.of_nat i)
}.

Lemma member_insert m x v y : member_of (<[x := v]> m) y = if decide (y = x) then v else member_of m y.
Proof. unfold member_of. destruct (decide (y = x)) as [->|]; by rewrite ?lookup_insert_eq, ?lookup_insert_ne. Qed.

Lemma shard_insert w b s l b' s' :
  shard (<[(b, s) := l]> w) b' s' = if decide ((b', s') = (b, s)) then l else shard w b' s'.
Proof.
  unfold shard. destruct (decide ((b', s') = (b, s))) as [E|]; [rewrite E|];
    by rewrite ?lookup_insert_eq, ?lookup_insert_ne.
Qed.

Lemma position_insert m x v y :
  position (<[x := v]> m) y = if decide (y = x) then unpackLiveMember v else position m y.
Proof. unfold position. rewrite member_insert. by case_decide. Qed.

Section Wheel.
Context (n : Z) (ep : Z → Z) (m : gmap Z Z) (w : gmap (Z * Z) (list Z)) (Hok : wheel_ok n ep m w).

Lemma shard_NoDup b s : NoDup (shard w b s).
Proof.
  apply NoDup_alt. intros i j slot Hi Hj.
  apply (ok_wheel _ _ _ _ Hok) in Hi as [_ Hi]. apply (ok_wheel _ _ _ _ Hok) in Hj as [_ Hj].
  rewrite Hi in Hj. injection Hj. lia.
Qed.

Lemma shard_elem b s slot : slot ∈ shard w b s → 0 ≤ slot < n ∧ in_bucket b ∧ s = shard_of slot ∧
  ep slot mod liveDeviceWheelBuckets = b.
Proof.
  intros [i Hi]%list_elem_of_lookup. destruct (ok_wheel _ _ _ _ Hok _ _ _ _ Hi) as [-> P].
  apply (ok_member _ _ _ _ Hok) in P as (? & ? & ? & ? & ?). done.
Qed.

(** Distinct slots below [n] fill at most [n] positions. *)
Lemma shard_length b s : Z.of_nat (length (shard w b s)) ≤ Z.max 0 n.
Proof.
  assert (length (shard w b s) ≤ length (seqZ 0 n))%nat as H; [|rewrite length_seqZ in H; lia].
  apply submseteq_length, NoDup_submseteq; [apply shard_NoDup|].
  intros slot (? & _)%shard_elem. apply elem_of_seqZ. lia.
Qed.

(** A slot off the wheel leaves room for one more. *)
Lemma shard_length_absent b s slot :
  0 ≤ slot < n → position m slot = None → Z.of_nat (length (shard w b s)) < n.
Proof.
  intros Hs Hp. assert (length (slot :: shard w b s) ≤ length (seqZ 0 n))%nat as H.
  { apply submseteq_length, NoDup_submseteq.
    - constructor; [|apply shard_NoDup]. intros [i Hi]%list_elem_of_lookup.
      apply (ok_wheel _ _ _ _ Hok) in Hi as [_ Hi]. congruence.
    - intros x [->|(? & _)%shard_elem]%elem_of_cons; apply elem_of_seqZ; lia. }
  rewrite length_seqZ in H. simpl in H. lia.
Qed.
End Wheel.

(** The capacity for which a position always fits its 24 bits. *)
Definition max_slots : Z := liveMemberPosMask + 1.

Definition present (m : gmap Z Z) (slot : Z) : Prop := is_Some (position m slot).

Section RemoveLocked.
Context (n : Z) (ep ep' : Z → Z) (m : gmap Z Z) (w : gmap (Z * Z) (list Z)).
Context (Hok : wheel_ok n ep m w) (Hn : n ≤ max_slots).
Context (slot b pos : Z) (Hpos : position m slot = Some (b, pos)).
Context (Hep : ∀ x, x ≠ slot → ep' x = ep x).

Let L : list Z := shard w b (shard_of slot).
Let last : Z := Z.of_nat (length L) - 1.

Let slot_at : L !! Z.to_nat pos = Some slot ∧ 0 ≤ pos ≤ last ∧ in_bucket b ∧ last ≤ liveMemberPosMask.
Proof.
  destruct (ok_member _ _ _ _ Hok _ _ _ Hpos) as (Hs & ? & ? & E & _). fold L in E.
  pose proof (lookup_lt_Some _ _ _ E). pose proof (shard_length _ _ _ _ Hok b (shard_of slot)) as Len. fold L in Len.
  unfold last, max_slots in *. split_and!; try done; lia.
Qed.

Let moved : Z := L !!! Z.to_nat last.

Let moved_at : L !! Z.to_nat last = Some moved.
Proof.
  destruct slot_at as (E & ? & _). unfold moved. apply list_lookup_lookup_total_lt. unfold last in *. lia.
Qed.

Let index_unique i j x : L !! i = Some x → L !! j = Some x → i = j.
Proof. intros Hi Hj. eapply NoDup_lookup; [apply (shard_NoDup _ _ _ _ Hok)|done..]. Qed.

Let m' : gmap Z Z := (removeLocked m w b (shard_of slot) pos slot).1.
Let w' : gmap (Z * Z) (list Z) := (removeLocked m w b (shard_of slot) pos slot).2.

(** The pointers after the removal. *)
Let position' x :
  position m' x = if decide (x = slot) then None
                  else if decide (x = moved ∧ pos < last) then Some (b, pos) else position m x.
Proof.
  destruct slot_at as (E & ? & ? & ?).
  unfold m', removeLocked. fold L last moved.
  destruct (Z.ltb_spec pos last); cbn [fst]; rewrite position_insert; (case_decide; [by rewrite unpack_zero|]).
  - rewrite position_insert. case_decide; subst.
    + rewrite decide_True by done. rewrite unpack_pack by (done || lia). done.
    + rewrite decide_False; [done|tauto].
  - rewrite decide_False; [done|intros [_ ?]; lia].
Qed.

(** The shard after the removal. *)
Let shard' i : (shard w' b (shard_of slot)) !! i =
  if decide (Z.of_nat i < last) then (if decide (Z.of_nat i = pos) then Some moved else L !! i) else None.
Proof.
  destruct slot_at as (E & ? & ? & ?).
  unfold w', removeLocked. fold L last moved.
  assert (∀ l : list Z, take (Z.to_nat last) l !! i = if decide (Z.of_nat i < last) then l !! i else None) as T.
  { intros l. destruct (decide (Z.of_nat i < last)); [rewrite lookup_take_lt by lia|rewrite lookup_take_ge by lia]; done. }
  destruct (Z.ltb_spec pos last); cbn [snd]; rewrite shard_insert, decide_True, T by done; (destruct (decide (Z.of_nat i < last)); [|done]).
  - destruct (decide (Z.of_nat i = pos)) as [<-|].
    + rewrite Nat2Z.id, list_lookup_insert_eq; [done|]. unfold last in *. lia.
    + by rewrite list_lookup_insert_ne by lia.
  - by rewrite decide_False by lia.
Qed.

Let shard_other b' s' : (b', s') ≠ (b, shard_of slot) → shard w' b' s' = shard w b' s'.
Proof.
  intros N. unfold w', removeLocked. fold L last moved.
  destruct (pos <? last); cbn [snd]; by rewrite shard_insert, decide_False.
Qed.

Lemma removeLocked_ok :
  wheel_ok n ep' m' w' ∧ position m' slot = None ∧ (∀ x, x ≠ slot → present m' x ↔ present m x).
Proof.
  destruct slot_at as (E & Hp & Hb & Hm). split_and!.
  - split.
    + intros x b' p'. rewrite position'. destruct (decide (x = slot)); [done|]. rewrite Hep by done.
      destruct (decide (x = moved ∧ pos < last)) as [D|D].
      * destruct D as [-> D]. intros [= <- <-].
        destruct (ok_wheel _ _ _ _ Hok _ _ _ _ moved_at) as [S P].
        destruct (ok_member _ _ _ _ Hok _ _ _ P) as (? & ? & ? & ? & ?). split_and!; try done; try lia.
        rewrite <-S, shard', decide_True, decide_True by lia. done.
      * intros P. destruct (ok_member _ _ _ _ Hok _ _ _ P) as (? & ? & ? & X & ?). split_and!; try done; try lia.
        destruct (decide ((b', shard_of x) = (b, shard_of slot))) as [[= -> S]|N]; [|by rewrite shard_other].
        rewrite S in X |- *. fold L in X. rewrite shard'.
        pose proof (lookup_lt_Some _ _ _ X). assert (Z.to_nat p' ≠ Z.to_nat pos) by (intros Q; rewrite Q in X; congruence).
        assert (Z.to_nat p' ≠ Z.to_nat last).
        { intros Q. rewrite Q, moved_at in X. apply D. split; [congruence|]. unfold last in *. lia. }
        unfold last in *. rewrite decide_True, decide_False by lia. done.
    + intros b' s' i x X.
      destruct (decide ((b', s') = (b, shard_of slot))) as [[= -> ->]|N].
      * rewrite shard' in X. destruct (decide (Z.of_nat i < last)); [|done]. destruct (decide (Z.of_nat i = pos)) as [<-|N]; simplify_eq.
        -- destruct (ok_wheel _ _ _ _ Hok _ _ _ _ moved_at) as [S P]. split; [done|].
           rewrite position', decide_False, decide_True; [done|split; [done|lia]|].
           intros Q. assert (Z.to_nat last = Z.to_nat (Z.of_nat i)); [|lia].
           eapply index_unique; [exact moved_at|]. by rewrite Q.
        -- destruct (ok_wheel _ _ _ _ Hok _ _ _ _ X) as [S P]. split; [done|].
           rewrite position', !decide_False; [done|..].
           ++ intros [-> ?]. assert (i = Z.to_nat last) by (eapply index_unique; [exact X|exact moved_at]). lia.
           ++ intros ->. assert (i = Z.to_nat pos) by (eapply index_unique; [exact X|exact E]). lia.
      * rewrite shard_other in X by done. destruct (ok_wheel _ _ _ _ Hok _ _ _ _ X) as [-> P]. split; [done|].
        rewrite position', !decide_False; [done|..].
        -- intros [-> ?]. destruct (ok_wheel _ _ _ _ Hok _ _ _ _ moved_at) as [S P2]. congruence.
        -- intros ->. congruence.
  - by rewrite position', decide_True.
  - intros x Hx. unfold present. rewrite position', decide_False by done. destruct (decide (x = moved ∧ pos < last)) as [D|D]; [|done].
    destruct D as [-> _]. destruct (ok_wheel _ _ _ _ Hok _ _ _ _ moved_at) as [_ ->]. by split; eauto.
Qed.
End RemoveLocked.

Lemma append_slot_ok n ep m w slot b :
  wheel_ok n ep m w → n ≤ max_slots → 0 ≤ slot < n → position m slot = None →
  in_bucket b → b = ep slot mod liveDeviceWheelBuckets →
  let '(m', w') := append_slot m w b (shard_of slot) slot in
  wheel_ok n ep m' w' ∧ present m' slot ∧ (∀ x, x ≠ slot → present m' x ↔ present m x).
Proof.
  intros Hok Hn Hs Hp Hb He. unfold append_slot.
  pose proof (shard_length_absent _ _ _ _ Hok b (shard_of slot) slot Hs Hp) as Len. unfold max_slots in Hn.
  rewrite (proj2 (Z.ltb_ge _ _)) by lia.
  assert (position (<[slot := packLiveMember b (Z.of_nat (length (shard w b (shard_of slot))))]> m) slot =
          Some (b, Z.of_nat (length (shard w b (shard_of slot))))) as Ps.
  { rewrite position_insert, decide_True by done. apply unpack_pack; [done|lia]. }
  split_and!; [split|..].
  - intros x b' p'. destruct (decide (x = slot)) as [->|N].
    + rewrite Ps. intros [= <- <-]. split_and!; try done; try lia.
      rewrite shard_insert, decide_True by done. rewrite Nat2Z.id. by apply list_lookup_middle.
    + rewrite position_insert, decide_False by done. intros P.
      destruct (ok_member _ _ _ _ Hok _ _ _ P) as (? & ? & ? & X & ?). split_and!; try done; try lia.
      rewrite shard_insert. case_decide as D; [|done]. injection D as -> S. rewrite S in X.
      by apply lookup_app_l_Some.
  - intros b' s' i x. rewrite shard_insert. case_decide as D.
    + injection D as -> ->. intros [X|[X1 X2]]%lookup_app_Some.
      * destruct (ok_wheel _ _ _ _ Hok _ _ _ _ X) as [? P]. split; [done|].
        rewrite position_insert, decide_False; [done|congruence].
      * apply list_lookup_singleton_Some in X2 as [? ->]. split; [done|]. rewrite Ps. do 2 f_equal. lia.
    + intros X. destruct (ok_wheel _ _ _ _ Hok _ _ _ _ X) as [? P]. split; [done|].
      rewrite position_insert, decide_False; [done|congruence].
  - unfold present. rewrite Ps. eauto.
  - intros x N. unfold present. by rewrite position_insert, decide_False.
Qed.

Lemma bucket_in_range z : in_bucket (z mod liveDeviceWheelBuckets).
Proof. unfold in_bucket, liveDeviceWheelBuckets. apply Z.mod_pos_bound. lia. Qed.

Lemma moveToBucket_ok n ep ep' m w slot newB :
  wheel_ok n ep m w → n ≤ max_slots → 0 ≤ slot < n →
  (∀ x, x ≠ slot → ep' x = ep x) → newB = ep' slot mod liveDeviceWheelBuckets →
  let '(m', w') := moveToBucket m w slot newB in
  wheel_ok n ep' m' w' ∧ present m' slot ∧ (∀ x, x ≠ slot → present m' x ↔ present m x).
Proof.
  intros Hok Hn Hs Hep ->. unfold moveToBucket. fold (shard_of slot). fold (position m slot).
  destruct (position m slot) as [[oldB oldPos]|] eqn:P.
  - destruct (Z.eqb_spec oldB (ep' slot mod liveDeviceWheelBuckets)) as [->|N].
    + split_and!; [|unfold present; eauto|done]. split; [|apply Hok].
      intros x b pos Px. destruct (ok_member _ _ _ _ Hok _ _ _ Px) as (? & ? & ? & ? & E). split_and!; try done; try lia.
      destruct (decide (x = slot)) as [->|]; [congruence|]. by rewrite Hep.
    + destruct (removeLocked_ok n ep ep' m w Hok Hn slot oldB oldPos P Hep) as (Hok1 & P1 & Hpres).
      destruct (removeLocked m w oldB (shard_of slot) oldPos slot) as [m1 w1]. cbn [fst snd] in *.
      pose proof (append_slot_ok n ep' m1 w1 slot _ Hok1 Hn Hs P1 (bucket_in_range _) eq_refl) as A.
      destruct (append_slot m1 w1 _ (shard_of slot) slot) as [m2 w2]. destruct A as (? & ? & A). split_and!; [done..|].
      intros x Hx. by rewrite A, Hpres.
  - apply append_slot_ok; try done; [|apply bucket_in_range]. split; [|apply Hok].
    intros x b pos Px. destruct (ok_member _ _ _ _ Hok _ _ _ Px) as (? & ? & ? & ? & E). split_and!; try done; try lia.
    destruct (decide (x = slot)) as [->|]; [congruence|]. by rewrite Hep.
Qed.

(** ** Expiry *)

(** The compaction keeps the live occupants in order, repoints those that moved
    and clears the others. *)
Lemma compact_spec live b cur : ∀ i kept m kept' m',
  in_bucket b → i + Z.of_nat (length cur) ≤ liveMemberPosMask + 1 → Z.of_nat (length kept) ≤ i →
  NoDup (kept ++ cur) →
  (∀ j slot, cur !! j = Some slot → position m slot = Some (b, i + Z.of_nat j)) →
  (∀ j slot, kept !! j = Some slot → position m slot = Some (b, Z.of_nat j)) →
  compact live b i cur kept m = (kept', m') →
  kept' = kept ++ filter (λ slot, live slot = true) cur ∧
  (∀ j slot, kept' !! j = Some slot → position m' slot = Some (b, Z.of_nat j)) ∧
  (∀ slot, slot ∈ cur → live slot = false → position m' slot = None) ∧
  (∀ slot, slot ∉ cur → position m' slot = position m slot).
Proof.
  induction cur as [|slot cur IH]; intros i kept m kept' m' Hb Hi Hk N Hcur Hkept E; cbn [compact] in E.
  { simplify_eq. rewrite filter_nil, app_nil_r. split_and!; [done..| |done]. by intros ? ?%not_elem_of_nil. }
  assert ((slot ∉ kept) ∧ (slot ∉ cur)) as [N1 N2].
  { apply NoDup_app in N as (_ & D & [? _]%NoDup_cons). split; [|done]. intros X. by apply (D slot X); left. }
  rewrite filter_cons. simpl in Hi. destruct (live slot) eqn:Lv.
  - rewrite decide_True by done.
    assert (∀ x, position (if negb (Z.of_nat (length kept) =? i) then <[slot := packLiveMember b (Z.of_nat (length kept))]> m else m) x =
      if decide (x = slot) then Some (b, Z.of_nat (length kept)) else position m x) as Pm.
    { intros x. destruct (Z.eqb_spec (Z.of_nat (length kept)) i) as [Q|Q]; cbn [negb].
      - case_decide; subst; [|done]. rewrite (Hcur 0%nat slot eq_refl). do 2 f_equal. lia.
      - rewrite position_insert. case_decide; [|done]. apply unpack_pack; [done|lia]. }
    eapply IH in E as (-> & K & D & O); [..|done|lia| | | |].
    + split_and!; [by rewrite <-app_assoc|exact K| |].
      * intros x [->|X]%elem_of_cons L; [congruence|by apply D].
      * intros x [X1 X2]%not_elem_of_cons. rewrite O by done. by rewrite Pm, decide_False.
    + rewrite length_app. simpl. lia.
    + by rewrite <-app_assoc.
    + intros j x X. rewrite Pm, decide_False.
      * rewrite (Hcur (S j) x X). do 2 f_equal. lia.
      * intros ->. apply N2. by eapply list_elem_of_lookup_2.
    + intros j x [X|[X1 X2]]%lookup_app_Some; rewrite Pm.
      * rewrite decide_False; [by apply Hkept|]. intros ->. apply N1. by eapply list_elem_of_lookup_2.
      * apply list_lookup_singleton_Some in X2 as [? ->]. rewrite decide_True by done. do 2 f_equal. lia.
  - rewrite decide_False by congruence.
    assert (∀ x, x ≠ slot → position (<[slot := 0]> m) x = position m x) as Pm.
    { intros x X. by rewrite position_insert, decide_False. }
    eapply IH in E as (-> & K & D & O); [..|done|lia|lia| | |].
    + split_and!; [done|exact K| |].
      * intros x [->|X]%elem_of_cons L; [|by apply D]. rewrite O by done.
        rewrite position_insert, decide_True by done. apply unpack_zero.
      * intros x [X1 X2]%not_elem_of_cons. rewrite O by done. by apply Pm.
    + apply NoDup_app in N as (? & D & [? ?]%NoDup_cons). apply NoDup_app. split_and!; [done| |done].
      intros x X1 X2. apply (D x X1). by right.
    + intros j x X. rewrite Pm; [rewrite (Hcur (S j) x X); do 2 f_equal; lia|].
      intros ->. apply N2. by eapply list_elem_of_lookup_2.
    + intros j x X. rewrite Pm; [by apply Hkept|]. intros ->. apply N1. by eapply list_elem_of_lookup_2.
Qed.

(** ** What an expiry keeps *)

Definition wf (idx : LiveDeviceIndex) : Prop :=
  wheel_ok (n idx) (epoch_of idx) (member idx) (wheel idx) ∧ 0 ≤ n idx ≤ max_slots.

(** Nothing but dead slots leaves the wheel, and nothing enters it. *)
Record expires (now : Z) (idx idx' : LiveDeviceIndex) : Prop := {
  exp_n : n idx' = n idx;
  exp_epochs : epochs idx' = epochs idx;
  exp_wf : wf idx → wf idx';
  exp_keeps x : wf idx → present (member idx) x → IsLive idx x now = true → present (member idx') x;
  exp_only x : wf idx → present (member idx') x → present (member idx) x
}.

#[export] Instance expires_refl now : Reflexive (expires now).
Proof. by split. Qed.

#[export] Instance expires_trans now : Transitive (expires now).
Proof.
  intros i1 i2 i3 [N1 E1 W1 K1 O1] [N2 E2 W2 K2 O2].
  assert (∀ x, IsLive i2 x now = IsLive i1 x now) as L.
  { intros x. unfold IsLive, epoch_of. by rewrite N1, E1. }
  split; try congruence; auto. intros x W P Lv. apply K2; auto. by rewrite L.
Qed.

Lemma expire_shard_expires b now s idx : in_bucket b → expires now idx (expire_shard b now idx s).
Proof.
  intros Hb. unfold expire_shard.
  destruct (compact (λ slot, IsLive idx slot now) b 0 (shard (wheel idx) b s) [] (member idx)) as [kept m] eqn:E.
  assert (wf idx →
    kept = filter (λ slot, IsLive idx slot now = true) (shard (wheel idx) b s) ∧
    (∀ j slot, kept !! j = Some slot → position m slot = Some (b, Z.of_nat j)) ∧
    (∀ slot, slot ∈ shard (wheel idx) b s → IsLive idx slot now = false → position m slot = None) ∧
    (∀ slot, slot ∉ shard (wheel idx) b s → position m slot = position (member idx) slot)) as S.
  { intros [Hok Hn]. eapply compact_spec in E as (-> & K & D & O); [done|done| |done| | |done].
    - pose proof (shard_length _ _ _ _ Hok b s). unfold max_slots in Hn. lia.
    - apply (shard_NoDup _ _ _ _ Hok).
    - intros j slot Hj. by apply (ok_wheel _ _ _ _ Hok) in Hj as [_ ?]. }
  split; cbn [LivenessIndex.n epochs member wheel]; [done|done|..].
  - intros W. destruct (S W) as (Kept & K & D & O). destruct W as [Hok Hn]. split; [|done].
    cbn [LivenessIndex.n epochs member wheel]. split.
    + intros x b' p P. change (epoch_of _ x) with (epoch_of idx x).
      destruct (decide (x ∈ shard (wheel idx) b s)) as [X|X].
      * destruct (IsLive idx x now) eqn:Lv; [|rewrite D in P; done].
        assert (x ∈ kept) as [j Hj]%list_elem_of_lookup by (rewrite Kept; by apply list_elem_of_filter).
        rewrite (K j x Hj) in P. injection P as <- <-.
        destruct (shard_elem _ _ _ _ Hok _ _ _ X) as (? & ? & -> & ?). split_and!; try done; try lia.
        rewrite shard_insert, decide_True by done. by rewrite Nat2Z.id.
      * rewrite O in P by done. destruct (ok_member _ _ _ _ Hok _ _ _ P) as (? & ? & ? & Y & ?).
        split_and!; try done; try lia. rewrite shard_insert. case_decide as Q; [|done]. exfalso. apply X.
        injection Q as -> <-. by eapply list_elem_of_lookup_2.
    + intros b' s' i x. rewrite shard_insert. case_decide as Q.
      * injection Q as -> ->. intros Hj. split; [|by apply K].
        assert (x ∈ shard (wheel idx) b s) as X.
        { apply list_elem_of_lookup_2 in Hj. rewrite Kept in Hj. by apply list_elem_of_filter in Hj as [_ ?]. }
        by destruct (shard_elem _ _ _ _ Hok _ _ _ X) as (_ & _ & ? & _).
      * intros X. destruct (ok_wheel _ _ _ _ Hok _ _ _ _ X) as [-> P]. split; [done|].
        rewrite O; [done|]. intros [j Y]%list_elem_of_lookup. destruct (ok_wheel _ _ _ _ Hok _ _ _ _ Y) as [-> P2].
        congruence.
  - intros x W P Lv. destruct (S W) as (Kept & K & D & O). unfold present.
    destruct (decide (x ∈ shard (wheel idx) b s)) as [X|X]; [|by rewrite O].
    assert (x ∈ kept) as [j Hj]%list_elem_of_lookup by (rewrite Kept; by apply list_elem_of_filter).
    rewrite (K j x Hj). eauto.
  - intros x W P. destruct (S W) as (Kept & K & D & O). unfold present in *.
    destruct (decide (x ∈ shard (wheel idx) b s)) as [X|X]; [|by rewrite <-O].
    apply list_elem_of_lookup in X as [j X]. destruct W as [Hok _].
    destruct (ok_wheel _ _ _ _ Hok _ _ _ _ X) as [_ ->]. eauto.
Qed.

Lemma foldl_expires {A} now (f : LiveDeviceIndex → A → LiveDeviceIndex) l idx :
  (∀ idx a, expires now idx (f idx a)) → expires now idx (foldl f idx l).
Proof. intros H. revert idx. induction l as [|a l IH]; intros idx; simpl; [done|]. etrans; [apply H|apply IH]. Qed.

Lemma expireBucket_expires b now idx : in_bucket b → expires now idx (expireBucket b now idx).
Proof. intros. apply foldl_expires. intros. by apply expire_shard_expires. Qed.

Lemma tick_second_expires now idx t : expires now idx (tick_second now idx t).
Proof.
  unfold tick_second. etrans; [|apply expireBucket_expires, bucket_in_range].
  destruct (_ <=? t); [apply expireBucket_expires, bucket_in_range|done].
Qed.

Lemma Tick_expires idx now : expires now idx (Tick idx now).
Proof.
  unfold Tick. destruct (_ && _); [done|].
  pose proof (foldl_expires now (tick_second now) (seqZ (tick_start (lastTick idx) now) (now - tick_start (lastTick idx) now + 1))
    idx (tick_second_expires now)) as [N E W K O]. by split.
Qed.

(** ** Histories

    The abstract state is the last accepted observation of each slot.  A history
    is a sequence of heartbeats and ticks under a clock that does not go back. *)

Inductive reach (slots : Z) : Z → LiveDeviceIndex → gmap Z Z → Prop :=
  | reach_new c : 0 ≤ c → reach slots c (NewLiveDeviceIndex slots) ∅
  | reach_heartbeat c idx seen slot observed now idx' :
      reach slots c idx seen → c ≤ now < 2 ^ 32 → 0 ≤ slot → 0 ≤ observed →
      Heartbeat idx slot observed now = Ok idx' →
      reach slots now idx' (<[slot := Z.min observed now]> seen)
  | reach_tick c idx seen now :
      reach slots c idx seen → c ≤ now < 2 ^ 32 → reach slots now (Tick idx now) seen.

Record index_inv (c : Z) (idx : LiveDeviceIndex) (seen : gmap Z Z) : Prop := {
  inv_wf : wf idx;
  inv_seen : epochs idx = seen;
  inv_range slot e : seen !! slot = Some e → 0 ≤ slot < n idx ∧ 0 ≤ e ≤ c;
  inv_absent slot e : seen !! slot = Some e → ¬ present (member idx) slot → e + liveDeviceWindowEpochs ≤ c
}.

Lemma live_epoch_spec e now :
  0 ≤ e ≤ now → now < 2 ^ 32 → live_epoch e now = true ↔ now - e < liveDeviceWindowEpochs.
Proof.
  intros. unfold live_epoch, wrapu32. rewrite Z.mod_small by lia. rewrite (proj2 (Z.leb_le _ _)) by lia. apply Z.ltb_lt.
Qed.

Lemma inv_new slots c : 0 ≤ slots ≤ max_slots → index_inv c (NewLiveDeviceIndex slots) ∅.
Proof.
  intros H. split; [|done|done|done]. split; [|done]. split; simpl; [|done].
  intros slot b pos. unfold position, member_of. rewrite lookup_empty. simpl. by rewrite unpack_zero.
Qed.

Lemma Heartbeat_Ok idx slot observed now idx' :
  0 ≤ observed → 0 ≤ now < 2 ^ 32 → Heartbeat idx slot observed now = Ok idx' →
  slot < n idx ∧ now - Z.min observed now ≤ liveDeviceWindowEpochs ∧
  let '(m, w) := moveToBucket (member idx) (wheel idx) slot (Z.min observed now mod liveDeviceWheelBuckets) in
  idx' = mkIndex (n idx) (<[slot := Z.min observed now]> (epochs idx)) m w (lastTick idx).
Proof.
  intros Ho Hn H. unfold Heartbeat in H. apply refuse_Ok in H as [Hs H]. reflect_bools.
  assert ((if now <? observed then now else observed) = Z.min observed now) as M.
  { destruct (Z.ltb_spec now observed); lia. }
  rewrite M in H. apply refuse_Ok in H as [G H]. reflect_bools. unfold wrapu32 in G. rewrite Z.mod_small in G by lia.
  split_and!; [done|done|]. destruct (moveToBucket _ _ _ _) as [m w]. by simplify_eq.
Qed.

Lemma inv_heartbeat c idx seen slot observed now idx' :
  index_inv c idx seen → c ≤ now < 2 ^ 32 → 0 ≤ c → 0 ≤ slot → 0 ≤ observed →
  Heartbeat idx slot observed now = Ok idx' → index_inv now idx' (<[slot := Z.min observed now]> seen).
Proof.
  intros [[Hok Hn] <- R A] Hc H0 Hs Ho H. apply Heartbeat_Ok in H as (Hlt & _ & H); [|lia..].
  set (obs := Z.min observed now) in *.
  set (ep' := λ x, default 0 (<[slot := obs]> (epochs idx) !! x)).
  pose proof (moveToBucket_ok (n idx) (epoch_of idx) ep' (member idx) (wheel idx) slot (obs mod liveDeviceWheelBuckets)) as M.
  destruct (moveToBucket _ _ _ _) as [m w]. subst idx'.
  destruct M as (Hok' & P & O); [done|lia|lia| | |].
  { intros x X. unfold ep', epoch_of. by rewrite lookup_insert_ne. }
  { unfold ep'. by rewrite lookup_insert_eq. }
  split; [by split|done|..]; cbn [LivenessIndex.n member].
  - intros x e. destruct (decide (x = slot)) as [->|X].
    + rewrite lookup_insert_eq. intros [= <-]. lia.
    + rewrite lookup_insert_ne by done. intros E. apply R in E. lia.
  - intros x e. destruct (decide (x = slot)) as [->|X]; [done|].
    rewrite lookup_insert_ne, O by done. intros E N. apply A in E; [|done]. lia.
Qed.

Lemma inv_tick c idx seen now :
  index_inv c idx seen → c ≤ now < 2 ^ 32 → index_inv now (Tick idx now) seen.
Proof.
  intros [W <- R A] Hc. destruct (Tick_expires idx now) as [N E W' K O].
  split; [auto|done|..].
  - intros slot e X. rewrite N. apply R in X. lia.
  - intros slot e X P. destruct (R _ _ X) as [? ?].
    destruct (decide (present (member idx) slot)) as [Q|Q]; [|apply A in X; [|done]; lia].
    destruct (IsLive idx slot now) eqn:L; [destruct P; by apply K|].
    unfold IsLive, epoch_of in L. rewrite X, (proj2 (Z.leb_gt _ _)) in L by lia. simpl in L.
    apply not_true_iff_false in L. rewrite live_epoch_spec in L by lia. lia.
Qed.

Lemma reach_inv slots c idx seen :
  0 ≤ slots ≤ max_slots → reach slots c idx seen → 0 ≤ c ∧ n idx = slots ∧ index_inv c idx seen.
Proof.
  intros Hs. induction 1 as [c|c idx seen slot observed now idx' _ (? & <- & IH) ? ? ? H|c idx seen now _ (? & <- & IH) ?].
  - split_and!; [done..|by apply inv_new].
  - split_and!; [lia| |by eapply inv_heartbeat].
    apply Heartbeat_Ok in H as (_ & _ & H); [|lia..]. destruct (moveToBucket _ _ _ _). by subst.
  - split_and!; [lia|apply (exp_n _ _ _ (Tick_expires idx now))|by eapply inv_tick].
Qed.

Lemma elem_of_LiveSlots idx now slot :
  slot ∈ LiveSlots idx now ↔ n idx ≠ 0 ∧ IsLive idx slot now = true ∧
  ∃ age s, 0 ≤ age < Z.min liveDeviceWindowEpochs (now + 1) ∧ 0 ≤ s < liveDeviceWheelShards ∧
    slot ∈ shard (wheel idx) ((now - age) mod liveDeviceWheelBuckets) s.
Proof.
  unfold LiveSlots, window_ages. destruct (Z.eqb_spec (n idx) 0) as [E|E].
  { split; [by intros ?%not_elem_of_nil|tauto]. }
  rewrite list_elem_of_bind. split.
  - intros (age & (s & [L S]%list_elem_of_filter & Hs%elem_of_seqZ)%list_elem_of_bind & Ha%elem_of_seqZ).
    split_and!; [done..|]. exists age, s. split_and!; lia || done.
  - intros (_ & L & age & s & ? & ? & S). exists age. split; [|apply elem_of_seqZ; lia].
    apply list_elem_of_bind. exists s. split; [|apply elem_of_seqZ; lia]. by apply list_elem_of_filter.
Qed.

Lemma shard_of_range slot : 0 ≤ slot → 0 ≤ shard_of slot < liveDeviceWheelShards.
Proof.
  intros. unfold shard_of, liveDeviceWheelShards. change (16 - 1) with (Z.ones 4).
  rewrite Z.land_ones by lia. apply Z.mod_pos_bound. lia.
Qed.

(** Two in-window seconds never share a bucket. *)
Lemma window_bucket_inj now a1 a2 :
  0 ≤ a1 < liveDeviceWindowEpochs → 0 ≤ a2 < liveDeviceWindowEpochs →
  (now - a1) mod liveDeviceWheelBuckets = (now - a2) mod liveDeviceWheelBuckets → a1 = a2.
Proof.
  unfold liveDeviceWindowEpochs, realtimeOfferLivenessWindow, liveDeviceWheelBuckets. intros H1 H2 E.
  Z.to_euclidean_division_equations. lia.
Qed.

(** C14: the index is exact: after any history of heartbeats and ticks under a clock that
    does not go back, walking the wheel finds each device that was last observed
    less than 45 seconds ago, once, and no other.  Expiry by [Tick], late or
    skipped, never changes the answer. *)
Theorem LiveSlots_exact slots c idx seen now :
  0 ≤ slots ≤ max_slots → reach slots c idx seen → c ≤ now < 2 ^ 32 → liveDeviceWindowEpochs ≤ now →
  NoDup (LiveSlots idx now) ∧
  ∀ slot, slot ∈ LiveSlots idx now ↔ ∃ e, seen !! slot = Some e ∧ now - e < liveDeviceWindowEpochs.
Proof.
  intros Hs Hr Hc Hw. apply reach_inv in Hr as (H0 & Hn & [[Hok Hcap] <- R A]); [|done].
  assert (∀ slot, slot ∈ LiveSlots idx now → ∃ e, epochs idx !! slot = Some e ∧ 0 ≤ e ≤ c ∧ now - e < liveDeviceWindowEpochs) as Fwd.
  { intros slot (_ & L & _)%elem_of_LiveSlots. unfold IsLive in L.
    destruct (n idx <=? slot) eqn:E; [done|]. unfold epoch_of in L.
    destruct (epochs idx !! slot) as [e|] eqn:X; simpl in L.
    - apply R in X as B. apply live_epoch_spec in L; [|lia..]. exists e. split_and!; done || lia.
    - apply live_epoch_spec in L; lia. }
  split.
  - unfold LiveSlots. destruct (n idx =? 0); [constructor|]. unfold window_ages.
    assert (∀ age s slot, slot ∈ filter (λ slot, IsLive idx slot now = true)
        (shard (wheel idx) ((now - age) mod liveDeviceWheelBuckets) s) →
      s = shard_of slot ∧ epoch_of idx slot mod liveDeviceWheelBuckets = (now - age) mod liveDeviceWheelBuckets) as U.
    { intros age s slot [_ (_ & _ & ? & ?)%(shard_elem _ _ _ _ Hok)]%list_elem_of_filter. done. }
    apply NoDup_bind; [|intros age _; apply NoDup_bind|apply NoDup_seqZ].
    + intros a1 a2 slot Ha1%elem_of_seqZ Ha2%elem_of_seqZ (s1 & H1 & _)%list_elem_of_bind (s2 & H2 & _)%list_elem_of_bind.
      apply U in H1 as [_ H1], H2 as [_ H2]. apply (window_bucket_inj now); [lia..|congruence].
    + intros s1 s2 slot _ _ [-> _]%U [-> _]%U. done.
    + intros s _. apply NoDup_filter, (shard_NoDup _ _ _ _ Hok).
    + apply NoDup_seqZ.
  - intros slot. split; [intros (e & ? & _ & ?)%Fwd; eauto|]. intros (e & X & L).
    destruct (R _ _ X) as [B1 B2].
    destruct (decide (present (member idx) slot)) as [[[b pos] P]|N]; [|apply A in X; [lia|done]].
    destruct (ok_member _ _ _ _ Hok _ _ _ P) as (_ & _ & _ & Y & Eb).
    unfold epoch_of in Eb. rewrite X in Eb. simpl in Eb.
    apply elem_of_LiveSlots. split_and!; [lia| |].
    + unfold IsLive, epoch_of. rewrite X, (proj2 (Z.leb_gt _ _)) by lia. simpl. apply live_epoch_spec; lia.
    + exists (now - e), (shard_of slot). split_and!; [lia..|apply shard_of_range; lia|apply shard_of_range; lia|].
      replace (now - (now - e)) with e by lia. rewrite <-Eb. by eapply list_elem_of_lookup_2.
Qed.

Lemma LiveSlots_exact_witness :
  ∃ idx, Heartbeat (NewLiveDeviceIndex 8) 3 1000 1002 = Ok idx ∧
  ∀ slot, slot ∈ LiveSlots (Tick idx 1040) 1044 ↔
    ∃ e, (<[3 := 1000]> ∅ : gmap Z Z) !! slot = Some e ∧ 1044 - e < liveDeviceWindowEpochs.
Proof.
  destruct (Heartbeat (NewLiveDeviceIndex 8) 3 1000 1002) as [idx|] eqn:E; [|vm_compute in E; discriminate].
  exists idx. split; [reflexivity|].
  eapply (LiveSlots_exact 8 1040 (Tick idx 1040)); [vm_compute; intuition discriminate| |lia|vm_compute; discriminate].
  eapply (reach_tick 8 1002); [|lia]. change 1000 with (Z.min 1000 1002).
  eapply (reach_heartbeat 8 0); [apply reach_new; lia|lia|lia|lia|exact E].
Defined.
