(* ===== verification/StripeSimulator.v ===== *)
(** * StripeSimulator: the deterministic payment provider ([stripe_simulator.go])

    The release gate runs the control plane's payment rules against an in-memory
    provider: payment intents that are authorized, captured, refunded, disputed,
    transferred and paid out, with idempotency keys, once-only effects, signed
    webhooks and reconciliation.  The file models every method of the simulator
    and the scripted run of [runDeterministicStripeSimulation].  The mutex makes
    each method atomic; pointers into the intent map are updates of the map.  A
    refused call leaves the state as it was, so methods return the new state only
    on success.  The command dispatch around the simulator is not modelled. *)
From Stdlib Require Import Ascii.
From stdpp Require Import base numbers list gmap strings pretty sorting.
From S2P Require Import Prelude.
From S2P Require Import Sha256.
Local Open Scope Z_scope.
Local Open Scope go_scope.

Definition errSimConflict : error := Sentinel "errSimConflict".
Definition errSimInvalidState : error := Sentinel "errSimInvalidState".
Definition errSimRefundExceeded : error := Sentinel "errSimRefundExceeded".
Definition errSimSignature : error := Sentinel "errSimSignature".
Definition contextDeadlineError : error := Sentinel "contextDeadlineError".

Record simulatedPaymentIntent := mkIntent {
  ID : string;
  AmountCents : Z;
  State : string;
  RefundedCents : Z;
  DisputeOpen : bool;
  TransferCents : Z;
  PayoutState : string;
  WebhookState : string;
  Transition : Z;
  AttemptBinding : string
}.

Record simulatorBinding := mkBinding { Fingerprint : string; IntentID : string }.

Record simulator := mkSim {
  seed : Z;
  nextID : Z;
  intents : gmap string simulatedPaymentIntent;
  idempotency : gmap string simulatorBinding;
  effects : gset string;
  webhooks : gmap string string;
  ledger : list Z;
  discrepancies : list string
}.

Definition newDeterministicStripeSimulator (seed : Z) : simulator := mkSim seed 0 ∅ ∅ ∅ ∅ [] [].

(** [pair] and [once]: an effect books its pair of entries the first time only. *)
Definition pair_entries (amount : Z) : list Z := [wrap64 (- amount); amount].

Definition book (s : simulator) (effect : string) (amount : Z) (id : string) (i : simulatedPaymentIntent) : simulator :=
  mkSim (seed s) (nextID s) (<[id := i]> (intents s)) (idempotency s) ({[effect]} ∪ effects s) (webhooks s)
    (ledger s ++ pair_entries amount) (discrepancies s).

Definition effect_done (s : simulator) (effect : string) : bool := bool_decide (effect ∈ effects s).

(** [transition] on one intent: a repeated effect is inert. *)
Definition with_state (i : simulatedPaymentIntent) (to : string) : simulatedPaymentIntent :=
  mkIntent (ID i) (AmountCents i) to (RefundedCents i) (DisputeOpen i) (TransferCents i) (PayoutState i)
    (WebhookState i) (Transition i +w 1) (AttemptBinding i).

Definition with_refund (i : simulatedPaymentIntent) (amount : Z) : simulatedPaymentIntent :=
  mkIntent (ID i) (AmountCents i) (State i) (RefundedCents i +w amount) (DisputeOpen i) (TransferCents i)
    (PayoutState i) (WebhookState i) (Transition i +w 1) (AttemptBinding i).

Definition with_dispute (i : simulatedPaymentIntent) (open : bool) : simulatedPaymentIntent :=
  mkIntent (ID i) (AmountCents i) (State i) (RefundedCents i) open (TransferCents i) (PayoutState i)
    (WebhookState i) (Transition i +w 1) (AttemptBinding i).

Definition with_transfer (i : simulatedPaymentIntent) (amount : Z) : simulatedPaymentIntent :=
  mkIntent (ID i) (AmountCents i) (State i) (RefundedCents i) (DisputeOpen i) (TransferCents i +w amount) "held"
    (WebhookState i) (Transition i +w 1) (AttemptBinding i).

Definition with_payout (i : simulatedPaymentIntent) (to : string) : simulatedPaymentIntent :=
  mkIntent (ID i) (AmountCents i) (State i) (RefundedCents i) (DisputeOpen i) (TransferCents i) to
    (WebhookState i) (Transition i +w 1) (AttemptBinding i).

Definition with_webhook (i : simulatedPaymentIntent) (state : string) : simulatedPaymentIntent :=
  mkIntent (ID i) (AmountCents i) (State i) (RefundedCents i) (DisputeOpen i) (TransferCents i) (PayoutState i)
    state (Transition i) (AttemptBinding i).

(** ["pi_sim_%016x"]. *)
Definition intent_id (s : simulator) (next : Z) : string :=
  "pi_sim_" +:+ hex_onto 16 (Z.to_N (Z.lxor (wrapu64 (seed s)) next)) "".

Definition fingerprint (amount : Z) (attempt : string) : string := pretty amount +:+ ":" +:+ attempt.

(** A binding always names an intent (see the invariant); a nil pointer would be a panic. *)
Definition createPaymentIntent (s : simulator) (key : string) (amount : Z) (attempt : string) (persist : bool) :
    res (simulatedPaymentIntent * simulator) :=
  refuse (Errorf "simulator requires positive amount, idempotency key, and attempt binding")
    if (amount <=? 0) || bool_decide (trim_space key = "") || bool_decide (trim_space attempt = "");
  match idempotency s !! key with
  | Some bound =>
      refuse errSimConflict if negb (bool_decide (Fingerprint bound = fingerprint amount attempt));
      match intents s !! IntentID bound with
      | Some i => Ok (i, s)
      | None => Err (Sentinel "nil pointer dereference")
      end
  | None =>
      refuse contextDeadlineError if negb persist;
      let next := wrapu64 (nextID s + 1) in
      let id := intent_id s next in
      let i := mkIntent id amount "created" 0 false 0 "" "created" 1 attempt in
      Ok (i, mkSim (seed s) next (<[id := i]> (intents s))
               (<[key := mkBinding (fingerprint amount attempt) id]> (idempotency s))
               (effects s) (webhooks s) (ledger s) (discrepancies s))
  end.

Definition transition (s : simulator) (id effect from to : string) (amount : Z) : res simulator :=
  match intents s !! id with
  | None => Err (Errorf "simulator intent not found")
  | Some i =>
      if bool_decide (State i = to) then (if effect_done s effect then Ok s else Err errSimInvalidState)
      else
        refuse errSimInvalidState if negb (bool_decide (State i = from));
        if effect_done s effect then Ok s else Ok (book s effect amount id (with_state i to))
  end.

Definition amount_of (s : simulator) (id : string) : Z :=
  match intents s !! id with None => 0 | Some i => AmountCents i end.

Definition authorize (s : simulator) (id : string) : res simulator :=
  transition s id ("authorize:" +:+ id) "created" "authorized" (amount_of s id).
Definition capture (s : simulator) (id : string) : res simulator :=
  transition s id ("capture:" +:+ id) "authorized" "captured" (amount_of s id).
Definition decline (s : simulator) (id : string) : res simulator :=
  transition s id ("decline:" +:+ id) "created" "declined" 0.

Definition refund (s : simulator) (id effect : string) (amount : Z) : res simulator :=
  match intents s !! id with
  | None => Err errSimInvalidState
  | Some i =>
      refuse errSimInvalidState if negb (bool_decide (State i = "captured")) || (amount <=? 0);
      if effect_done s effect then Ok s
      else
        refuse errSimRefundExceeded if AmountCents i <? RefundedCents i +w amount;
        Ok (book s effect amount id (with_refund i amount))
  end.

Definition dispute (s : simulator) (id effect : string) (open : bool) : res simulator :=
  match intents s !! id with
  | None => Err errSimInvalidState
  | Some i =>
      refuse errSimInvalidState if negb (bool_decide (State i = "captured"));
      refuse errSimInvalidState if open && bool_decide (PayoutState i = "released");
      if effect_done s effect then Ok s
      else
        refuse errSimInvalidState if Bool.eqb (DisputeOpen i) open;
        Ok (book s effect (AmountCents i -w RefundedCents i) id (with_dispute i open))
  end.

Definition transfer (s : simulator) (id effect attempt : string) (amount : Z) : res simulator :=
  match intents s !! id with
  | None => Err errSimInvalidState
  | Some i =>
      refuse errSimInvalidState
        if negb (bool_decide (State i = "captured")) || DisputeOpen i ||
           negb (bool_decide (AttemptBinding i = attempt)) || (amount <=? 0);
      if effect_done s effect then Ok s
      else
        refuse errSimInvalidState if AmountCents i -w RefundedCents i <? TransferCents i +w amount;
        Ok (book s effect amount id (with_transfer i amount))
  end.

Definition payout (s : simulator) (id effect to : string) : res simulator :=
  match intents s !! id with
  | None => Err errSimInvalidState
  | Some i =>
      refuse errSimInvalidState if (TransferCents i <=? 0) || DisputeOpen i;
      if bool_decide (PayoutState i = to) then (if effect_done s effect then Ok s else Err errSimInvalidState)
      else
        let valid :=
          (bool_decide (PayoutState i = "held") && (bool_decide (to = "released") || bool_decide (to = "failed")))
          || (bool_decide (PayoutState i = "released") && bool_decide (to = "reversed")) in
        refuse errSimInvalidState if negb valid;
        if effect_done s effect then Ok s else Ok (book s effect (TransferCents i) id (with_payout i to))
  end.

Definition webhook_rank (state : string) : option Z :=
  if bool_decide (state = "created") then Some 0
  else if bool_decide (state = "authorized") then Some 1
  else if bool_decide (state = "captured") then Some 2
  else if bool_decide (state = "refunded") then Some 3
  else None.

Definition with_intents (s : simulator) (m : gmap string simulatedPaymentIntent) : simulator :=
  mkSim (seed s) (nextID s) m (idempotency s) (effects s) (webhooks s) (ledger s) (discrepancies s).

Definition applyWebhookState (s : simulator) (id state : string) : res simulator :=
  match webhook_rank state, intents s !! id with
  | Some want, Some i =>
      match webhook_rank (WebhookState i) with
      | Some current =>
          if want <=? current then Ok s else Ok (with_intents s (<[id := with_webhook i state]> (intents s)))
      | None => Err errSimInvalidState
      end
  | _, _ => Err errSimInvalidState
  end.

Definition snapshot (s : simulator) (id : string) : res (simulatedPaymentIntent * Z) :=
  match intents s !! id with
  | None => Err errSimInvalidState
  | Some i => Ok (i, Z.of_nat (length (ledger s)))
  end.

(** ** Webhooks *)

Definition simulatedWebhookSignature (secret : string) (timestamp : Z) (payload : string) : string :=
  let mac := hmac_sha256 (byte_values secret) (byte_values (pretty timestamp +:+ "." +:+ payload)) in
  "t=" +:+ pretty timestamp +:+ ",v1=" +:+ hex_encode mac.

(** [strings.Split] at a one-byte separator. *)
Fixpoint split_on (sep : ascii) (s : string) : list string :=
  match s with
  | EmptyString => [EmptyString]
  | String a s' =>
      if bool_decide (a = sep) then EmptyString :: split_on sep s'
      else match split_on sep s' with
           | [] => [String a EmptyString]
           | p :: ps => String a p :: ps
           end
  end.

(** [fmt.Sscanf(_, "t=%d", _)]: an optional sign and the longest run of digits;
    what follows is ignored.  White space before the number, which [Sscanf] would
    skip, is refused here at once: such a text is never equal to the signature
    it is compared with next, so the answer is the same. *)
Fixpoint digit_run (s : string) : list Z :=
  match s with
  | String a s' =>
      let d := Z.of_N (N_of_ascii a) - 48 in
      if (0 <=? d) && (d <=? 9) then d :: digit_run s' else []
  | EmptyString => []
  end.

Definition digits_value (ds : list Z) : Z := foldl (λ v d, 10 * v + d) 0 ds.

Definition scan_int (s : string) : option Z :=
  let '(negative, s) :=
    match s with
    | String "-" r => (true, r)
    | String "+" r => (false, r)
    | _ => (false, s)
    end in
  match digit_run s with
  | [] => None
  | ds => let v := if negative : bool then - digits_value ds else digits_value ds in
          if is_int64 v then Some v else None
  end.

Definition scan_timestamp (part : string) : option Z :=
  match strip_prefix "t=" part with Some r => scan_int r | None => None end.

Definition with_webhooks (s : simulator) (w : gmap string string) : simulator :=
  mkSim (seed s) (nextID s) (intents s) (idempotency s) (effects s) w (ledger s) (discrepancies s).

(** The result says whether the event was a duplicate. *)
Definition acceptWebhook (s : simulator) (eventID signature secret payload : string) (now : Z) :
    res (bool * simulator) :=
  match split_on "," signature with
  | [p0; p1] =>
      refuse errSimSignature if negb (has_prefix p0 "t=") || negb (has_prefix p1 "v1=");
      match scan_timestamp p0 with
      | None => Err errSimSignature
      | Some timestamp =>
          refuse errSimSignature if (300 <? now -w timestamp) || (300 <? timestamp -w now);
          refuse errSimSignature
            if negb (bool_decide (simulatedWebhookSignature secret timestamp payload = signature));
          let binding := sha256_hex payload in
          match webhooks s !! eventID with
          | Some existing =>
              refuse errSimConflict if negb (bool_decide (existing = binding));
              Ok (true, s)
          | None => Ok (false, with_webhooks s (<[eventID := binding]> (webhooks s)))
          end
      end
  | _ => Err errSimSignature
  end.

(** ** Reconciliation *)

Definition string_le (s t : string) : Prop := String.leb s t = true.
#[export] Instance string_le_dec s t : Decision (string_le s t).
Proof. unfold string_le. apply _. Defined.

(** A missing provider entry reads as the empty string.  The map's order does not
    matter: the result is sorted. *)
Definition mismatched (s : simulator) (provider : gmap string string) : list string :=
  omap (λ '(id, i), if bool_decide (default "" (provider !! id) = State i) then None else Some id)
    (map_to_list (intents s)).

Definition reconcile (s : simulator) (provider : gmap string string) : list string * simulator :=
  let found := merge_sort string_le (mismatched s provider) in
  (found, mkSim (seed s) (nextID s) (intents s) (idempotency s) (effects s) (webhooks s) (ledger s) found).

Definition intent_bounded (i : simulatedPaymentIntent) : bool :=
  (0 <=? RefundedCents i) && (RefundedCents i <=? AmountCents i) && (1 <=? Transition i).

Definition intent_held (i : simulatedPaymentIntent) : bool :=
  negb (DisputeOpen i && bool_decide (PayoutState i = "released")).

(** Which of the two intent errors is reported depends on the map's order when
    both kinds are present; the model reports the bound first. *)
Definition invariant (s : simulator) : res unit :=
  refuse (Errorf "simulator ledger sum=%d") if negb (foldl (λ sum e, sum +w e) 0 (ledger s) =? 0);
  refuse (Errorf "simulator intent invariant failed")
    if negb (forallb (λ '(_, i), intent_bounded i) (map_to_list (intents s)));
  refuse (Errorf "simulator released a held payout during dispute")
    if negb (forallb (λ '(_, i), intent_held i) (map_to_list (intents s)));
  Ok tt.

(** ** The scripted run *)

Record simulatorReceipt := mkReceipt {
  SchemaVersion : Z;
  receipt_Kind : string;
  Status : string;
  Label : string;
  receipt_Seed : Z;
  Scenarios : list string;
  Properties : list string;
  External : gmap string string
}.

(** [errors.Is] on a refused call. *)
Definition refused_with {A} (target : error) (m : res A) : bool :=
  match m with Err e => errors_Is e target | Ok _ => false end.

Definition run_create (seed : Z) : res (simulatedPaymentIntent * simulatedPaymentIntent * simulator) :=
  let s := newDeterministicStripeSimulator seed in
  '(first, s) ← createPaymentIntent s "create-1" 1000 "task-attempt-1" true;
  refuse (Errorf "timeout-before-persistence was accepted")
    if is_ok (createPaymentIntent s "create-timeout" 500 "task-attempt-2" false);
  '(lost, s) ← createPaymentIntent s "lost-response" 850 "task-attempt-lost" true;
  '(recovered, s) ← (match createPaymentIntent s "lost-response" 850 "task-attempt-lost" true with
     | Ok (r, s) => refuse (Errorf "persisted success was not recovered after a lost response")
                      if negb (bool_decide (ID r = ID lost)); Ok (r, s)
     | Err _ => Err (Errorf "persisted success was not recovered after a lost response")
     end);
  '(retry, s) ← (match createPaymentIntent s "create-1" 1000 "task-attempt-1" true with
     | Ok (r, s) => refuse (Errorf "idempotent retry failed") if negb (bool_decide (ID r = ID first)); Ok (r, s)
     | Err _ => Err (Errorf "idempotent retry failed")
     end);
  refuse (Errorf "conflicting idempotency reuse was accepted")
    if negb (refused_with errSimConflict (createPaymentIntent s "create-1" 1001 "task-attempt-1" true));
  Ok (first, lost, s).

(** A step that must succeed again without a second effect. *)
Definition run_twice (step : simulator → res simulator) (id : string) (retryFailed secondEffect : error)
    (s : simulator) : res simulator :=
  s ← step s;
  '(before, entries) ← snapshot s id;
  s ← (match step s with Ok s => Ok s | Err _ => Err retryFailed end);
  '(after, entries') ← snapshot s id;
  refuse secondEffect if negb (Transition after =? Transition before) || negb (entries' =? entries);
  Ok s.

Definition run_settle (id : string) (s : simulator) : res simulator :=
  s ← run_twice (λ s, authorize s id) id (Errorf "idempotent authorization retry failed")
        (Errorf "duplicate authorization produced a second effect") s;
  s ← run_twice (λ s, capture s id) id (Errorf "idempotent capture retry failed")
        (Errorf "duplicate capture produced a second settlement") s;
  s ← refund s id "refund-1" 250;
  refuse (Errorf "excessive refund was accepted")
    if negb (refused_with errSimRefundExceeded (refund s id "refund-too-large" 751));
  s ← dispute s id "dispute-open" true;
  refuse (Errorf "stale attempt settled") if is_ok (transfer s id "stale-transfer" "wrong-attempt" 400);
  s ← dispute s id "dispute-close" false;
  s ← transfer s id "transfer-1" "task-attempt-1" 400;
  refuse (Errorf "transfers exceeded the unsettled amount")
    if negb (refused_with errSimInvalidState (transfer s id "transfer-overflow" "task-attempt-1" 351));
  s ← run_twice (λ s, payout s id "payout-release" "released") id (Errorf "idempotent payout retry failed")
        (Errorf "duplicate payout produced a second effect") s;
  payout s id "payout-reverse" "reversed".

(** A double quote, which the payloads contain. *)
Definition quote : string := String "034"%char EmptyString.
Definition quoted (s : string) : string := quote +:+ s +:+ quote.
Definition event_payload (id type : string) : string :=
  "{" +:+ quoted "id" +:+ ":" +:+ quoted id +:+ "," +:+ quoted "type" +:+ ":" +:+ quoted type +:+ "}".

Definition sim_now : Z := 1800000000.
Definition sim_secret : string := "simulator-secret".
Definition sim_payload : string := event_payload "evt_sim" "payment_intent.succeeded".
Definition terminalPayload : string := event_payload "evt_terminal" "payment_intent.succeeded".
Definition earlierPayload : string := event_payload "evt_earlier" "payment_intent.amount_capturable_updated".

(** The event [id] with its payload, signed with [signer]'s secret and received at [now]. *)
Definition deliver (s : simulator) (id payload signer : string) (now : Z) : res (bool * simulator) :=
  acceptWebhook s id (simulatedWebhookSignature signer sim_now payload) sim_secret payload now.

(** A delivery that must be accepted, as a duplicate or not. *)
Definition delivered (duplicate : bool) (failed : error) (m : res (bool * simulator)) : res simulator :=
  match m with
  | Ok (d, s) => refuse failed if negb (Bool.eqb d duplicate); Ok s
  | Err _ => Err failed
  end.

Definition run_webhooks (id : string) (s : simulator) : res simulator :=
  s ← delivered false (Errorf "first signed webhook failed") (deliver s "evt_sim" sim_payload sim_secret sim_now);
  s ← delivered true (Errorf "duplicate webhook was not inert") (deliver s "evt_sim" sim_payload sim_secret sim_now);
  refuse (Errorf "invalid webhook signature was accepted")
    if negb (refused_with errSimSignature (deliver s "evt_invalid" sim_payload "wrong-secret" sim_now));
  refuse (Errorf "expired signature was accepted")
    if negb (refused_with errSimSignature (deliver s "evt_expired" sim_payload sim_secret (sim_now + 301)));
  '(_, s) ← deliver s "evt_terminal" terminalPayload sim_secret sim_now;
  s ← applyWebhookState s id "captured";
  '(_, s) ← deliver s "evt_earlier" earlierPayload sim_secret sim_now;
  s ← applyWebhookState s id "authorized";
  '(ordered, _) ← snapshot s id;
  refuse (Errorf "out-of-order webhook regressed payment state")
    if negb (bool_decide (WebhookState ordered = "captured"));
  Ok s.

Definition run_refund_and_failure (s : simulator) :
    res (simulatedPaymentIntent * simulatedPaymentIntent * simulator) :=
  '(fullyRefunded, s) ← createPaymentIntent s "full-refund" 300 "task-attempt-refund" true;
  s ← authorize s (ID fullyRefunded);
  s ← capture s (ID fullyRefunded);
  s ← refund s (ID fullyRefunded) "refund-partial" 100;
  s ← refund s (ID fullyRefunded) "refund-balance" 200;
  '(refundedSnapshot, _) ← snapshot s (ID fullyRefunded);
  refuse (Errorf "full refund did not reach the captured bound")
    if negb (RefundedCents refundedSnapshot =? AmountCents refundedSnapshot);
  '(failed, s) ← createPaymentIntent s "payout-failure" 600 "task-attempt-4" true;
  s ← authorize s (ID failed);
  s ← capture s (ID failed);
  s ← transfer s (ID failed) "transfer-failure" "task-attempt-4" 300;
  s ← payout s (ID failed) "payout-failure" "failed";
  Ok (fullyRefunded, failed, s).

Definition runDeterministicStripeSimulation (seed : Z) : res simulatorReceipt :=
  '(first, lost, s) ← run_create seed;
  s ← run_settle (ID first) s;
  '(declined, s) ← createPaymentIntent s "decline" 700 "task-attempt-3" true;
  s ← decline s (ID declined);
  s ← run_webhooks (ID first) s;
  '(fullyRefunded, failed, s) ← run_refund_and_failure s;
  let provider declinedState : gmap string string :=
    list_to_map [(ID first, "captured"); (ID lost, "created"); (ID fullyRefunded, "captured");
                 (ID declined, declinedState); (ID failed, "captured")] in
  let '(got, s) := reconcile s (provider "created") in
  refuse (Errorf "reconciliation mismatch was not visible") if negb (length got =? 1)%nat;
  let '(got, s) := reconcile s (provider "declined") in
  refuse (Errorf "clean reconciliation failed") if negb (length got =? 0)%nat;
  _ ← invariant s;
  Ok (mkReceipt 1 "stripe_provider_simulation" "SIMULATED PASS" "SIMULATED" seed
    ["payment_intent"; "authorization"; "capture"; "decline"; "timeout_before_persistence";
     "persistence_dropped_response"; "idempotent_retry"; "conflicting_idempotency"; "duplicate_webhook";
     "out_of_order_webhook"; "refund"; "partial_refund"; "excessive_refund_rejection"; "dispute";
     "dispute_resolution"; "transfer"; "payout_hold"; "payout_release"; "payout_failure"; "payout_reversal";
     "signature_validation"; "timestamp_expiry"; "reconciliation_mismatch"; "clean_reconciliation"]
    ["ledger_zero_sum"; "effects_once"; "no_duplicate_authorization"; "no_duplicate_settlement";
     "no_duplicate_payout"; "refund_bounded"; "dispute_bounded"; "state_monotonic"; "state_non_regression";
     "hold_enforced"; "stale_attempt_cannot_settle"; "uncertain_response_recoverable";
     "reconciliation_identifies_faults"; "discrepancy_visible"]
    (list_to_map [("stripe_sandbox_api", "EXTERNAL CREDENTIAL REQUIRED");
                  ("sandbox_webhook", "EXTERNAL CREDENTIAL REQUIRED");
                  ("connect_test_accounts", "EXTERNAL CREDENTIAL REQUIRED");
                  ("provider_reconciliation", "NOT EXECUTED")])).

(** The run of the release gate's default seed passes. *)
Example run_default_seed : is_ok (runDeterministicStripeSimulation 20260719) = true.
Proof. vm_compute. reflexivity. Qed.

(** ** The simulator as a machine *)

Inductive call :=
  | Authorize (id : string)
  | Capture (id : string)
  | Decline (id : string)
  | Refund (id effect : string) (amount : Z)
  | Dispute (id effect : string) (open : bool)
  | Transfer (id effect attempt : string) (amount : Z)
  | Payout (id effect to : string)
  | Webhook (id state : string).

Definition exec (s : simulator) (c : call) : res simulator :=
  match c with
  | Authorize id => authorize s id
  | Capture id => capture s id
  | Decline id => decline s id
  | Refund id effect amount => refund s id effect amount
  | Dispute id effect open => dispute s id effect open
  | Transfer id effect attempt amount => transfer s id effect attempt amount
  | Payout id effect to => payout s id effect to
  | Webhook id state => applyWebhookState s id state
  end.

(** A call is [Ok] either because it had nothing left to do or because it booked
    its effect on one intent. *)
Lemma exec_cases s c s' :
  exec s c = Ok s' →
  s' = s ∨
  (∃ id effect amount i i', intents s !! id = Some i ∧ effect_done s effect = false ∧
     s' = book s effect amount id i' ∧
     ((∃ to, i' = with_state i to) ∨
      (∃ a, c = Refund id effect a ∧ i' = with_refund i a ∧ 0 < a ∧ RefundedCents i +w a ≤ AmountCents i) ∨
      (∃ o, i' = with_dispute i o ∧ (o = true → PayoutState i ≠ "released")) ∨
      (∃ att a, c = Transfer id effect att a ∧ i' = with_transfer i a ∧ 0 < a ∧ DisputeOpen i = false ∧
         TransferCents i +w a ≤ AmountCents i -w RefundedCents i) ∨
      (∃ to, i' = with_payout i to ∧ DisputeOpen i = false))) ∨
  (∃ id i state, intents s !! id = Some i ∧ s' = with_intents s (<[id := with_webhook i state]> (intents s))).
Proof.
  assert (∀ id effect from to amount, transition s id effect from to amount = Ok s' →
    s' = s ∨ ∃ i, intents s !! id = Some i ∧ effect_done s effect = false ∧ s' = book s effect amount id (with_state i to)) as T.
  { unfold transition. intros id effect from to amount H. destruct (intents s !! id) as [i|]; [|done].
    destruct (bool_decide (State i = to)).
    - destruct (effect_done s effect); [|done]. left. congruence.
    - inv_ok. destruct (effect_done s effect) eqn:D; simplify_eq; [by left|]. right. eauto. }
  assert (∀ id effect from to amount, transition s id effect from to amount = Ok s' →
    s' = s ∨ ∃ id effect amount i i', intents s !! id = Some i ∧ effect_done s effect = false ∧
     s' = book s effect amount id i' ∧ (∃ to, i' = with_state i to)) as T'.
  { intros ????? [->|(i & ? & ? & ->)]%T; [by left|]. right. eexists _, _, _, i, _. split_and!; eauto. }
  destruct c as [id|id|id|id effect a|id effect o|id effect att a|id effect to|id state]; cbn [exec]; intros H.
  1-3: apply T' in H as [->|(? & ? & ? & i & i' & ? & ? & ? & ?)]; [by left|];
    right; left; eexists _, _, _, i, i'; split_and!; eauto.
  - unfold refund in H. destruct (intents s !! id) as [i|] eqn:I; [|done]. inv_ok.
    destruct (effect_done s effect) eqn:D; simplify_eq; [by left|]. inv_ok. right; left.
    eexists _, _, _, i, _. split_and!; eauto 10.
  - unfold dispute in H. destruct (intents s !! id) as [i|] eqn:I; [|done]. inv_ok.
    destruct (effect_done s effect) eqn:D; simplify_eq; [by left|]. inv_ok. right; left.
    eexists _, _, _, i, _. split_and!; eauto. right; right; left. eexists; split; [done|]. intros ->.
    by rewrite andb_true_l in *; reflect_bools.
  - unfold transfer in H. destruct (intents s !! id) as [i|] eqn:I; [|done]. inv_ok.
    destruct (effect_done s effect) eqn:D; simplify_eq; [by left|]. inv_ok. right; left.
    eexists _, _, _, i, _. split_and!; eauto. do 3 right; left. eexists _, _. split_and!; done.
  - unfold payout in H. destruct (intents s !! id) as [i|] eqn:I; [|done]. inv_ok.
    destruct (bool_decide (PayoutState i = to)).
    + destruct (effect_done s effect); [|done]. left. congruence.
    + inv_ok. destruct (effect_done s effect) eqn:D; simplify_eq; [by left|]. right; left.
      eexists _, _, _, i, _. split_and!; eauto. do 4 right. eexists; split; done.
  - unfold applyWebhookState in H. destruct (webhook_rank state), (intents s !! id) as [i|] eqn:I; try done.
    destruct (webhook_rank (WebhookState i)); [|done]. case_match; simplify_eq; [by left|]. right; right. eauto.
Qed.

(** ** Retries are inert *)

Lemma book_intent s effect amount id i : intents (book s effect amount id i) !! id = Some i.
Proof. simpl. apply lookup_insert_eq. Qed.

Lemma book_done s effect amount id i : effect_done (book s effect amount id i) effect = true.
Proof. unfold effect_done. simpl. apply bool_decide_eq_true. set_solver. Qed.

Lemma transition_retry s s' id effect from to amount amount' :
  transition s id effect from to amount = Ok s' → transition s' id effect from to amount' = Ok s'.
Proof.
  intros H. pose proof H as H0. unfold transition in H. destruct (intents s !! id) as [i|] eqn:I; [|done].
  destruct (bool_decide (State i = to)) eqn:T.
  - destruct (effect_done s effect) eqn:D; simplify_eq. unfold transition. by rewrite I, T, D.
  - inv_ok. destruct (effect_done s effect) eqn:D; simplify_eq.
    + unfold transition. rewrite I, (bool_decide_false (State i = to)), bool_decide_true, D by done. done.
    + unfold transition. rewrite book_intent, book_done. cbn [State with_state]. by rewrite bool_decide_true.
Qed.

(** Every effect happens once: a call that succeeded succeeds again with the same
    arguments and changes nothing, whichever of the eight calls it is. *)
Theorem exec_retry s c s' : exec s c = Ok s' → exec s' c = Ok s'.
Proof.
  destruct c as [id|id|id|id effect a|id effect o|id effect att a|id effect to|id state]; cbn [exec]; intros H.
  1-3: by eapply transition_retry.
  - unfold refund in H. destruct (intents s !! id) as [i|] eqn:I; [|done]. apply refuse_Ok in H as [G H].
    destruct (effect_done s effect) eqn:D; [simplify_eq; unfold refund; by rewrite I, G, D|].
    inv_ok. unfold refund. rewrite book_intent, book_done. cbn [State with_refund].
    by rewrite bool_decide_true, (proj2 (Z.leb_gt _ _)).
  - unfold dispute in H. destruct (intents s !! id) as [i|] eqn:I; [|done]. apply refuse_Ok in H as [G H].
    apply refuse_Ok in H as [P H].
    destruct (effect_done s effect) eqn:D; [simplify_eq; unfold dispute; by rewrite I, G, P, D|].
    apply refuse_Ok in H as [_ H]. simplify_eq. unfold dispute. rewrite book_intent, book_done.
    cbn [State PayoutState with_dispute]. by rewrite G, P.
  - unfold transfer in H. destruct (intents s !! id) as [i|] eqn:I; [|done]. apply refuse_Ok in H as [G H].
    destruct (effect_done s effect) eqn:D; [simplify_eq; unfold transfer; by rewrite I, G, D|].
    apply refuse_Ok in H as [_ H]. simplify_eq. unfold transfer. rewrite book_intent, book_done.
    cbn [State DisputeOpen AttemptBinding with_transfer]. by rewrite G.
  - unfold payout in H. destruct (intents s !! id) as [i|] eqn:I; [|done]. apply refuse_Ok in H as [G H].
    destruct (bool_decide (PayoutState i = to)) eqn:P.
    + destruct (effect_done s effect) eqn:D; [|done]. simplify_eq. unfold payout. by rewrite I, G, P, D.
    + apply refuse_Ok in H as [V H]. destruct (effect_done s effect) eqn:D; simplify_eq.
      * unfold payout. rewrite I, G, P. cbv zeta. by rewrite V, D.
      * unfold payout. rewrite book_intent, book_done. cbn [TransferCents DisputeOpen PayoutState with_payout].
        by rewrite G, bool_decide_true.
  - unfold applyWebhookState in H. destruct (webhook_rank state) as [want|] eqn:W; [|done].
    destruct (intents s !! id) as [i|] eqn:I; [|done]. destruct (webhook_rank (WebhookState i)) as [cur|] eqn:C; [|done].
    destruct (want <=? cur) eqn:L; simplify_eq.
    + unfold applyWebhookState. by rewrite W, I, C, L.
    + unfold applyWebhookState. cbn [intents with_intents]. rewrite W, lookup_insert_eq.
      cbn [WebhookState with_webhook]. by rewrite W, Z.leb_refl.
Qed.

(** One captured intent of 1000. *)
Definition sim_example : simulator :=
  mkSim 7 1 {[ "pi" := mkIntent "pi" 1000 "captured" 0 false 0 "" "created" 3 "task" ]}
    {[ "k" := mkBinding (fingerprint 1000 "task") "pi" ]} {[ "authorize:pi"; "capture:pi" ]} ∅
    [-1000; 1000; -1000; 1000] [].

Lemma exec_retry_witness :
  ∃ s', exec sim_example (Refund "pi" "r1" 400) = Ok s' ∧ exec s' (Refund "pi" "r1" 400) = Ok s'.
Proof.
  destruct (exec sim_example (Refund "pi" "r1" 400)) as [s'|] eqn:E; [|vm_compute in E; discriminate].
  exists s'. split; [reflexivity|]. apply (exec_retry sim_example (Refund "pi" "r1" 400)). exact E.
Defined.

(** ** The machine's invariant *)

(** Amounts below [2^62] cents, and fewer than [2^62] ledger entries: beyond them
    the bound checks wrap (see the last theorem of this file). *)
Definition cents_limit : Z := 4611686018427387903.

Definition call_bounded (c : call) : Prop :=
  match c with
  | Refund _ _ a | Transfer _ _ _ a => a ≤ cents_limit
  | _ => True
  end.

Inductive sim_step (s : simulator) : simulator → Prop :=
  | step_exec c s' : call_bounded c → exec s c = Ok s' → sim_step s s'
  | step_create key amount attempt persist i s' :
      amount ≤ cents_limit → createPaymentIntent s key amount attempt persist = Ok (i, s') → sim_step s s'
  | step_event eventID signature secret payload now duplicate s' :
      acceptWebhook s eventID signature secret payload now = Ok (duplicate, s') → sim_step s s'
  | step_reconcile provider : sim_step s (reconcile s provider).2.

Definition bounded_step (s s' : simulator) : Prop :=
  Z.of_nat (length (ledger s)) < cents_limit ∧ sim_step s s'.

Record intent_ok (entries : Z) (i : simulatedPaymentIntent) : Prop := {
  ok_amount : 0 < AmountCents i ≤ cents_limit;
  ok_refunded : 0 ≤ RefundedCents i ≤ AmountCents i;
  ok_transfer : 0 ≤ TransferCents i ≤ AmountCents i;
  ok_transition : 1 ≤ Transition i ≤ entries + 1;
  ok_held : DisputeOpen i = true → PayoutState i ≠ "released"
}.

Record sim_ok (s : simulator) : Prop := {
  sim_sum : foldl (λ sum e, sum +w e) 0 (ledger s) = 0;
  sim_intents id i : intents s !! id = Some i → intent_ok (Z.of_nat (length (ledger s))) i;
  sim_bindings key b : idempotency s !! key = Some b → is_Some (intents s !! IntentID b)
}.

Lemma intent_ok_mono m m' i : m ≤ m' → intent_ok m i → intent_ok m' i.
Proof. intros ? [? ? ? ? ?]. split; done || lia. Qed.

Lemma pair_sum s amount :
  foldl (λ sum e, sum +w e) 0 (ledger s) = 0 →
  foldl (λ sum e, sum +w e) 0 (ledger s ++ pair_entries amount) = 0.
Proof. intros E. rewrite foldl_app, E. simpl. go_lia. Qed.

(** Booking an admissible successor of an intent keeps everything. *)
Lemma book_ok s effect amount id i i' :
  sim_ok s → intents s !! id = Some i →
  (intent_ok (Z.of_nat (length (ledger s))) i → intent_ok (Z.of_nat (length (ledger s)) + 2) i') →
  sim_ok (book s effect amount id i').
Proof.
  intros [S I B] Hi H. assert (Z.of_nat (length (ledger (book s effect amount id i'))) =
    Z.of_nat (length (ledger s)) + 2) as L by (simpl; rewrite length_app; simpl; lia).
  split.
  - by apply pair_sum.
  - intros id' j. rewrite L. simpl. destruct (decide (id' = id)) as [->|N].
    + rewrite lookup_insert_eq. intros [= <-]. by apply H, (I id).
    + rewrite lookup_insert_ne by done. intros J. eapply intent_ok_mono; [|by eapply I]. lia.
  - intros key b Hb. simpl. destruct (decide (IntentID b = id)) as [->|N];
      [rewrite lookup_insert_eq; eauto|rewrite lookup_insert_ne by done; by eapply B].
Qed.

Lemma exec_ok s c s' :
  sim_ok s → Z.of_nat (length (ledger s)) < cents_limit → call_bounded c → exec s c = Ok s' → sim_ok s'.
Proof.
  intros Hs Hl Hc H. apply exec_cases in H as [->|[(id & effect & amount & i & i' & Hi & _ & -> & C)|(id & i & state & Hi & ->)]].
  - done.
  - apply (book_ok s effect amount id i); [done..|]. intros [A R T N D].
    assert (Transition i +w 1 = Transition i + 1) as W by (apply wrap64_id; unfold cents_limit in *; go_lia).
    destruct C as [(to & ->)|[(a & -> & -> & Ha & Hb)|[(o & -> & Ho)|[(att & a & -> & -> & Ha & Hd & Hb)|(to & -> & Ho)]]]].
    + split; simpl; try done; lia.
    + simpl in Hc. unfold cents_limit in *. rewrite wrap64_id in Hb by go_lia.
      split; simpl; rewrite ?(wrap64_id (RefundedCents i + a)) by go_lia; try done; unfold cents_limit; lia.
    + split; simpl; try done; lia.
    + simpl in Hc. unfold cents_limit in *. rewrite !wrap64_id in Hb by go_lia.
      split; simpl; rewrite ?(wrap64_id (TransferCents i + a)) by go_lia; try done; unfold cents_limit; lia.
    + split; simpl; try done; try lia. rewrite Ho. done.
  - destruct Hs as [S I B]. split; cbn [ledger intents idempotency with_intents].
    + done.
    + intros id' j. destruct (decide (id' = id)) as [->|N].
      * rewrite lookup_insert_eq. intros [= <-]. destruct (I id i Hi) as [? ? ? ? ?]. by split.
      * rewrite lookup_insert_ne by done. apply I.
    + intros key b Hb. destruct (decide (IntentID b = id)) as [->|N];
        [rewrite lookup_insert_eq; eauto|rewrite lookup_insert_ne by done; by eapply B].
Qed.

Lemma create_ok s key amount attempt persist i s' :
  sim_ok s → amount ≤ cents_limit → createPaymentIntent s key amount attempt persist = Ok (i, s') → sim_ok s'.
Proof.
  intros Hs Ha H. unfold createPaymentIntent in H. inv_ok.
  destruct (idempotency s !! key) as [b|] eqn:K.
  - inv_ok. case_match; by simplify_eq.
  - inv_ok. destruct Hs as [S I B]. split; cbn [ledger intents idempotency].
    + done.
    + intros id' j. destruct (decide (id' = intent_id s (wrapu64 (nextID s + 1)))) as [->|N].
      * rewrite lookup_insert_eq. intros [= <-]. split; simpl; done || lia.
      * rewrite lookup_insert_ne by done. apply I.
    + intros key' b'. destruct (decide (key' = key)) as [->|N].
      * rewrite lookup_insert_eq. intros [= <-]. simpl. rewrite lookup_insert_eq. eauto.
      * rewrite lookup_insert_ne by done. intros Hb.
        destruct (decide (IntentID b' = intent_id s (wrapu64 (nextID s + 1)))) as [->|M];
          [rewrite lookup_insert_eq; eauto|rewrite lookup_insert_ne by done; by eapply B].
Qed.

Lemma sim_step_ok s s' : bounded_step s s' → sim_ok s → sim_ok s'.
Proof.
  intros [L [c s1 Hc H|key amount attempt persist i s1 Ha H|eventID signature secret payload now dup s1 H|provider]] Hs.
  - by eapply exec_ok.
  - by eapply create_ok.
  - unfold acceptWebhook in H. repeat case_match; inv_ok; try done; by destruct Hs.
  - by destruct Hs.
Qed.

Lemma sim_ok_invariant s : sim_ok s → invariant s = Ok tt.
Proof.
  intros [S I B]. unfold invariant. rewrite S. cbn [Z.eqb negb].
  assert (∀ p : simulatedPaymentIntent → bool,
    (∀ i, intent_ok (Z.of_nat (length (ledger s))) i → p i = true) →
    forallb (λ '(_, i), p i) (map_to_list (intents s)) = true) as F.
  { intros p Hp. apply forallb_forall. intros [id i] Hi%list_elem_of_In. apply elem_of_map_to_list in Hi. by eapply Hp, I. }
  rewrite (F intent_bounded), (F intent_held); [done|..]; intros i [A R T N D].
  - unfold intent_held. destruct (DisputeOpen i); [|done]. simpl. by rewrite bool_decide_false by auto.
  - unfold intent_bounded. by rewrite !(proj2 (Z.leb_le _ _)) by lia.
Qed.

Lemma bounded_history s0 s : rtc bounded_step s0 s → sim_ok s0 → sim_ok s.
Proof. induction 1; eauto using sim_step_ok. Qed.

(** C31: under any sequence of calls, events and reconciliations with amounts below [2^62],
    from an empty simulator: the ledger sums to zero, refunds and transfers stay
    within the captured amount, no payout is released while a dispute is open (so
    the simulator's own [invariant] check always passes), and every idempotency
    binding names an intent, so a retried creation never dereferences nil. *)
Theorem simulator_invariant seed s :
  rtc bounded_step (newDeterministicStripeSimulator seed) s →
  invariant s = Ok tt ∧
  (∀ id i, intents s !! id = Some i →
     0 ≤ RefundedCents i ≤ AmountCents i ∧ 0 ≤ TransferCents i ≤ AmountCents i ∧
     (DisputeOpen i = true → PayoutState i ≠ "released")) ∧
  (∀ key b, idempotency s !! key = Some b → is_Some (intents s !! IntentID b)).
Proof.
  intros H. assert (sim_ok s) as Hs by (eapply bounded_history; [exact H|by split]).
  split; [by apply sim_ok_invariant|]. destruct Hs as [S I B]. split; [|exact B].
  intros id i Hi. destruct (I id i Hi). done.
Qed.

Lemma simulator_invariant_witness :
  ∃ i s, createPaymentIntent (newDeterministicStripeSimulator 7) "k" 1000 "task" true = Ok (i, s) ∧
  invariant s = Ok tt.
Proof.
  destruct (createPaymentIntent (newDeterministicStripeSimulator 7) "k" 1000 "task" true) as [[i s]|] eqn:E;
    [|vm_compute in E; discriminate].
  exists i, s. split; [reflexivity|]. apply (simulator_invariant 7 s).
  apply rtc_once. split; [vm_compute; reflexivity|].
  eapply step_create; [|exact E]. vm_compute. discriminate.
Defined.

(** The refund bound wraps: after a refund of one cent, a refund of [math.MaxInt64]
    cents is accepted, and the intent's refunded amount becomes negative. *)
Theorem refund_overflow :
  (s1 ← refund sim_example "pi" "r1" 1;
   s2 ← refund s1 "pi" "r2" max_int64;
   Ok (RefundedCents <$> (intents s2 !! "pi"), is_ok (invariant s2))) = Ok (Some min_int64, false).
Proof. vm_compute. reflexivity. Qed.

(** A payout can pay twice: a second transfer after a released payout puts the intent
    back on hold, and the next release books the cumulative transfer again: with
    400 and then 100 transferred, 900 is paid out. *)
Theorem payout_pays_twice :
  (s ← transfer sim_example "pi" "t1" "task" 400;
   s ← payout s "pi" "p1" "released";
   s ← transfer s "pi" "t2" "task" 100;
   s ← payout s "pi" "p2" "released";
   Ok (ledger s)) = Ok (ledger sim_example ++ [-400; 400; -400; 400; -100; 100; -500; 500]).
Proof. vm_compute. reflexivity. Qed.
