(* ===== verification/Inflight.v ===== *)
(** * Inflight: one execution for identical concurrent requests ([inflight_coalescing.go])

    Callers that ask for the same deterministic request are collapsed onto one
    execution.  The first caller to insert a row for the request identity leads;
    it holds a lease it renews, and it publishes its result or its failure on the
    row.  The others poll the row.  A leader whose lease ran out is replaced, at
    most three times.

    The state is the table [inflight_executions], a finite map from the request
    identity (its primary key) to the row.  Each SQL statement is one atomic step,
    with the value of [now()] as an argument, in microseconds.  The row checks of
    [schema.sql] are part of the statements.  [ClaimInflightExecution] issues two
    statements, so whatever other sessions run between them is an argument;
    [AwaitInflightResult] issues one query per turn of its loop, so its argument
    is the sequence of snapshots the queries see.  Connection faults, which every
    function passes on unchanged, are not modelled. *)
From Stdlib Require Import Ascii.
From stdpp Require Import base numbers list gmap strings.
From S2P Require Import Prelude.
Local Open Scope Z_scope.
Local Open Scope go_scope.

(** ** Constants, in microseconds where they are durations *)

Definition inflightLeaseTTL : Z := 30000000.
Definition inflightResultTTL : Z := 60000000.
Definition inflightMaxElections : Z := 3.

(** ** Rows *)

Inductive inflight_state := RUNNING | COMPLETE | FAILED.

#[export] Instance inflight_state_eq_dec : EqDecision inflight_state.
Proof. solve_decision. Defined.

Record inflight_row := mkRow {
  tenant_scope : UUID;
  leader_ref : string;
  leader_contract_id : option UUID;
  state : inflight_state;
  lease_expires_at : Z;
  elections : Z;
  followers : Z;
  result_ref : option string;
  result_sha256 : option string;
  result_tokens : option Z;
  failure : option string;
  started_at : Z;
  resolved_at : option Z;
  expires_at : Z
}.

Notation table := (gmap string inflight_row).

(** ** Row checks *)

Definition is_lower_hex (a : ascii) : bool :=
  let n := nat_of_ascii a in
  ((48 <=? n)%nat && (n <=? 57)%nat) || ((97 <=? n)%nat && (n <=? 102)%nat).

(** [^[0-9a-f]{64}$] *)
Definition hex64 (s : string) : bool :=
  (String.length s =? 64)%nat && forallb is_lower_hex (String.list_ascii_of_string s).

(** [^req_[0-9a-f]{64}$], the pattern of [ValidRequestIdentity] and of the key's check. *)
Definition ValidRequestIdentity (id : string) : bool :=
  match strip_prefix "req_" id with Some h => hex64 h | None => false end.


(** The checks that depend on the row alone: [inflight_state_shape] and the
    column checks. *)
Definition inflight_row_checks (r : inflight_row) : bool :=
  not_blank (leader_ref r) && (1 <=? elections r) && (0 <=? followers r) &&
  (match result_sha256 r with Some h => hex64 h | None => true end) &&
  (match result_tokens r with Some t => 0 <=? t | None => true end) &&
  match state r with
  | RUNNING => bool_decide (result_ref r = None) && bool_decide (failure r = None) &&
               bool_decide (resolved_at r = None)
  | COMPLETE => bool_decide (is_Some (result_ref r)) && bool_decide (is_Some (result_sha256 r)) &&
                bool_decide (is_Some (result_tokens r)) && bool_decide (failure r = None) &&
                bool_decide (is_Some (resolved_at r))
  | FAILED => bool_decide (result_ref r = None) && not_blank (default "" (failure r)) &&
              bool_decide (is_Some (resolved_at r))
  end.

(** ** Claiming *)

Record InflightRole := mkRole { Leader : bool; Elections : Z; Ineligible : bool }.

Definition execute_alone : InflightRole := mkRole true 0 true.

(** The row [VALUES] proposes. *)
Definition proposed (now : Z) (tenant : UUID) (leaderRef : string) : inflight_row :=
  mkRow tenant leaderRef None RUNNING (now + inflightLeaseTTL) 1 0 None None None None now None
    (now + inflightResultTTL).

(** The [WHERE] of the [ON CONFLICT] arm. *)
Definition may_take (r : inflight_row) (now : Z) (tenant : UUID) : bool :=
  bool_decide (state r = RUNNING) && (lease_expires_at r <=? now) &&
  (elections r <? inflightMaxElections) && bool_decide (tenant_scope r = tenant).

(** The [SET] of the [ON CONFLICT] arm. *)
Definition taken_over (r : inflight_row) (now : Z) (leaderRef : string) : inflight_row :=
  mkRow (tenant_scope r) leaderRef None RUNNING (now + inflightLeaseTTL) (elections r + 1) (followers r)
    None None None None now None (now + inflightResultTTL).

(** First statement: insert, or take an abandoned row over.  [None] is
    [pgx.ErrNoRows]. *)
Definition claim_take (T : table) (now : Z) (id : string) (tenant : UUID) (leaderRef : string) :
    res (table * option Z) :=
  refuse errCheckViolation if negb (ValidRequestIdentity id && inflight_row_checks (proposed now tenant leaderRef));
  match T !! id with
  | None => Ok (<[id := proposed now tenant leaderRef]> T, Some 1)
  | Some r =>
      if may_take r now tenant then Ok (<[id := taken_over r now leaderRef]> T, Some (elections r + 1))
      else Ok (T, None)
  end.

Definition with_followers (r : inflight_row) (k : Z) : inflight_row :=
  mkRow (tenant_scope r) (leader_ref r) (leader_contract_id r) (state r) (lease_expires_at r) (elections r) k
    (result_ref r) (result_sha256 r) (result_tokens r) (failure r) (started_at r) (resolved_at r) (expires_at r).

(** Second statement: count the follower. *)
Definition claim_follow (T : table) (id : string) (tenant : UUID) : res (table * option (inflight_state * bool)) :=
  match T !! id with
  | Some r =>
      if bool_decide (tenant_scope r = tenant) then
        refuse errOutOfRange if negb (is_int64 (followers r + 1));
        Ok (<[id := with_followers r (followers r + 1)]> T, Some (state r, inflightMaxElections <=? elections r))
      else Ok (T, None)
  | None => Ok (T, None)
  end.

(** The guard before the first statement. *)
Definition uncoalescable (id : string) (tenant : UUID) (leaderRef : string) : bool :=
  negb (ValidRequestIdentity id) || bool_decide (tenant = uuid_Nil) || bool_decide (leaderRef = "").

(** ** Renewing, resolving, sweeping *)

(** [WHERE request_identity = $1 AND leader_ref = $2 AND state = 'RUNNING']. *)
Definition held (T : table) (id leaderRef : string) : option inflight_row :=
  match T !! id with
  | Some r => if bool_decide (leader_ref r = leaderRef) && bool_decide (state r = RUNNING) then Some r else None
  | None => None
  end.

Definition renewed (r : inflight_row) (now : Z) : inflight_row :=
  mkRow (tenant_scope r) (leader_ref r) (leader_contract_id r) (state r) (now + inflightLeaseTTL) (elections r)
    (followers r) (result_ref r) (result_sha256 r) (result_tokens r) (failure r) (started_at r) (resolved_at r)
    (expires_at r).

Definition RenewInflightLease (T : table) (now : Z) (id leaderRef : string) : table * res unit :=
  match held T id leaderRef with
  | Some r => (<[id := renewed r now]> T, Ok ())
  | None => (T, Err (Errorf "inflight lease for %s is no longer held by %s"))
  end.

Definition completed (r : inflight_row) (now : Z) (resultRef resultSHA256 : string) (tokens : Z)
    (leaderContractID : UUID) : inflight_row :=
  mkRow (tenant_scope r) (leader_ref r) (Some leaderContractID) COMPLETE (lease_expires_at r) (elections r)
    (followers r) (Some resultRef) (Some resultSHA256) (Some tokens) (failure r) (started_at r) (Some now)
    (now + inflightResultTTL).

Definition ResolveInflightSuccess (T : table) (now : Z) (id leaderRef resultRef resultSHA256 : string)
    (tokens : Z) (leaderContractID : UUID) : table * res unit :=
  if bool_decide (leaderContractID = uuid_Nil) then
    (T, Err (Errorf "inflight success requires the finalized physical leader contract"))
  else
    match held T id leaderRef with
    | Some r =>
        let r' := completed r now resultRef resultSHA256 tokens leaderContractID in
        if inflight_row_checks r' then (<[id := r']> T, Ok ()) else (T, Err errCheckViolation)
    | None => (T, Err (Errorf "inflight %s is not held by %s; result not published"))
    end.

Definition failed (r : inflight_row) (now : Z) (msg : string) : inflight_row :=
  mkRow (tenant_scope r) (leader_ref r) (leader_contract_id r) FAILED (lease_expires_at r) (elections r)
    (followers r) (result_ref r) (result_sha256 r) (result_tokens r) (Some msg) (started_at r) (Some now)
    (now + inflightResultTTL).

Definition ResolveInflightFailure (T : table) (now : Z) (id leaderRef msg : string) : table * res unit :=
  let msg := if bool_decide (msg = "") then "leader failed without a reported reason" else msg in
  match held T id leaderRef with
  | Some r =>
      let r' := failed r now msg in
      if inflight_row_checks r' then (<[id := r']> T, Ok ()) else (T, Err errCheckViolation)
  | None => (T, Ok ())
  end.

Definition sweepExpiredInflight (T : table) (now : Z) : table * Z :=
  let T' := filter (λ p, now < expires_at p.2) T in (T', Z.of_nat (size T) - Z.of_nat (size T')).

Definition sweepInflightExecutions (T : table) (now : Z) : table := (sweepExpiredInflight T now).1.

Definition InflightFollowers (T : table) (id : string) : Z :=
  match T !! id with Some r => followers r | None => 0 end.

(** ** The steps other sessions can run *)

Inductive event :=
  | Take (now : Z) (id : string) (tenant : UUID) (leaderRef : string)
  | Follow (now : Z) (id : string) (tenant : UUID)
  | Renew (now : Z) (id leaderRef : string)
  | Succeed_with (now : Z) (id leaderRef resultRef resultSHA256 : string) (tokens : Z) (contract : UUID)
  | Fail_with (now : Z) (id leaderRef msg : string)
  | Sweep (now : Z).

Definition event_time (e : event) : Z :=
  match e with
  | Take now _ _ _ | Follow now _ _ | Renew now _ _ | Succeed_with now _ _ _ _ _ _ | Fail_with now _ _ _ | Sweep now => now
  end.

(** A refused statement leaves the table as it was. *)
Definition table_after {A} (T : table) (m : res (table * A)) : table :=
  match m with Ok (T', _) => T' | Err _ => T end.

Definition exec (T : table) (e : event) : table :=
  match e with
  | Take now id tenant ref =>
      if uncoalescable id tenant ref then T else table_after T (claim_take T now id tenant ref)
  | Follow _ id tenant => table_after T (claim_follow T id tenant)
  | Renew now id ref => (RenewInflightLease T now id ref).1
  | Succeed_with now id ref rr sha tokens c => (ResolveInflightSuccess T now id ref rr sha tokens c).1
  | Fail_with now id ref msg => (ResolveInflightFailure T now id ref msg).1
  | Sweep now => sweepInflightExecutions T now
  end.

Definition run : table → list event → table := foldl exec.

(** [ClaimInflightExecution], with the steps of other sessions between its two
    statements. *)
Definition ClaimInflightExecution (T : table) (now : Z) (between : list event)
    (id : string) (tenant : UUID) (leaderRef : string) : table * res InflightRole :=
  if uncoalescable id tenant leaderRef then (T, Ok execute_alone)
  else
    match claim_take T now id tenant leaderRef with
    | Err e => (T, Err e)
    | Ok (T1, Some n) => (T1, Ok (mkRole true n false))
    | Ok (T1, None) =>
        let T2 := run T1 between in
        match claim_follow T2 id tenant with
        | Err e => (T2, Err e)
        | Ok (T3, None) => (T3, Ok execute_alone)
        | Ok (T3, Some (st, exhausted)) =>
            if exhausted && negb (bool_decide (st = COMPLETE)) then (T3, Ok execute_alone)
            else (T3, Ok (mkRole false 0 false))
        end
    end.

(** ** Waiting *)

Record InflightResult := mkResult {
  State : string;
  ResultRef : string;
  ResultSHA256 : string;
  LeaderContractID : UUID;
  Tokens : Z;
  Failure : string
}.

Definition InflightResult_zero : InflightResult := mkResult "" "" "" uuid_Nil 0 "".

Definition state_text (s : inflight_state) : string :=
  match s with RUNNING => "RUNNING" | COMPLETE => "COMPLETE" | FAILED => "FAILED" end.

Definition errContextDone : error := Sentinel "ctx.Err()".

(** One turn of the loop: [None] sleeps and polls again. *)
Definition await_poll (T : table) (now : Z) (id : string) (tenant : UUID) :
    option (res (InflightResult * bool)) :=
  match T !! id with
  | Some r =>
      if bool_decide (tenant_scope r = tenant) then
        let out := mkResult (state_text (state r)) (default "" (result_ref r)) (default "" (result_sha256 r))
                     uuid_Nil (default 0 (result_tokens r)) (default "" (failure r)) in
        match state r with
        | COMPLETE =>
            let c := default uuid_Nil (leader_contract_id r) in
            if bool_decide (c = uuid_Nil) then
              Some (Err (Errorf "completed inflight result lacks a physical leader contract"))
            else Some (Ok (mkResult (State out) (ResultRef out) (ResultSHA256 out) c (Tokens out) (Failure out), true))
        | FAILED => Some (Ok (out, false))
        | RUNNING => if lease_expires_at r <=? now then Some (Ok (InflightResult_zero, false)) else None
        end
      else Some (Ok (InflightResult_zero, false))
  | None => Some (Ok (InflightResult_zero, false))
  end.

(** The loop over the snapshots it sees until the caller's context ends. *)
Fixpoint AwaitInflightResult (snapshots : list (table * Z)) (id : string) (tenant : UUID) :
    res (InflightResult * bool) :=
  match snapshots with
  | [] => Err errContextDone
  | (T, now) :: rest =>
      match await_poll T now id tenant with
      | Some out => out
      | None => AwaitInflightResult rest id tenant
      end
  end.

(** ** What one step does to one row *)

Inductive row_step (id : string) : event → option inflight_row → inflight_row → Prop :=
  | step_keep e r : row_step id e (Some r) r
  | step_insert now tenant ref :
      uncoalescable id tenant ref = false → inflight_row_checks (proposed now tenant ref) = true →
      row_step id (Take now id tenant ref) None (proposed now tenant ref)
  | step_take_over now tenant ref r :
      uncoalescable id tenant ref = false → inflight_row_checks (proposed now tenant ref) = true →
      may_take r now tenant = true →
      row_step id (Take now id tenant ref) (Some r) (taken_over r now ref)
  | step_follow now tenant r :
      tenant_scope r = tenant → is_int64 (followers r + 1) = true →
      row_step id (Follow now id tenant) (Some r) (with_followers r (followers r + 1))
  | step_renew now r :
      state r = RUNNING → row_step id (Renew now id (leader_ref r)) (Some r) (renewed r now)
  | step_complete now r rr sha tokens c :
      state r = RUNNING → c ≠ uuid_Nil → inflight_row_checks (completed r now rr sha tokens c) = true →
      row_step id (Succeed_with now id (leader_ref r) rr sha tokens c) (Some r) (completed r now rr sha tokens c)
  | step_fail now r msg msg' :
      state r = RUNNING → inflight_row_checks (failed r now msg') = true →
      row_step id (Fail_with now id (leader_ref r) msg) (Some r) (failed r now msg').

Lemma held_Some T id ref r :
  held T id ref = Some r → T !! id = Some r ∧ leader_ref r = ref ∧ state r = RUNNING.
Proof. unfold held. destruct (T !! id); [|done]. case_match eqn:E; [|done]. reflect_bools. naive_solver. Qed.

Lemma held_here T id r : T !! id = Some r → state r = RUNNING → held T id (leader_ref r) = Some r.
Proof. intros H S. unfold held. by rewrite H, S, !bool_decide_true. Qed.

(** Every row of the table after a step comes from the row before by one of the
    transitions above. *)
Lemma exec_row T e id r : exec T e !! id = Some r → row_step id e (T !! id) r.
Proof.
  assert (K : ∀ o, o = Some r → row_step id e o r) by (intros ? ->; constructor).
  assert (U : ∀ id' r', <[id' := r']> T !! id = Some r →
    (id' = id ∧ r' = r) ∨ T !! id = Some r).
  { intros id' r' H. apply lookup_insert_Some in H. naive_solver. }
  destruct e as [now id' tn ref|now id' tn|now id' ref|now id' ref rr sha tk c|now id' ref msg|now]; simpl; intros H.
  - destruct (uncoalescable id' tn ref) eqn:G; [by apply K|]. unfold claim_take in H.
    destruct (ValidRequestIdentity id' && inflight_row_checks (proposed now tn ref)) eqn:C; [|by apply K].
    simpl in H. reflect_bools. destruct (T !! id') as [r0|] eqn:E; simpl in H.
    + destruct (may_take r0 now tn) eqn:M; [|by apply K]. simpl in H.
      destruct (U _ _ H) as [[-> <-]|]; [|by apply K]. rewrite E. by constructor.
    + destruct (U _ _ H) as [[-> <-]|]; [|by apply K]. rewrite E. by constructor.
  - unfold claim_follow in H. destruct (T !! id') as [r0|] eqn:E; [|by apply K].
    destruct (bool_decide (tenant_scope r0 = tn)) eqn:D; [|by apply K].
    destruct (is_int64 (followers r0 + 1)) eqn:I; [|by apply K]. simpl in H.
    destruct (U _ _ H) as [[-> <-]|]; [|by apply K]. rewrite E. apply bool_decide_eq_true in D. by constructor.
  - unfold RenewInflightLease in H. destruct (held T id' ref) as [r0|] eqn:E; [|by apply K].
    apply held_Some in E as (E & <- & S). destruct (U _ _ H) as [[-> <-]|]; [|by apply K]. rewrite E. by constructor.
  - unfold ResolveInflightSuccess in H. destruct (decide (c = uuid_Nil)) as [->|N]; [by apply K|].
    rewrite bool_decide_false in H by done. destruct (held T id' ref) as [r0|] eqn:E; [|by apply K].
    apply held_Some in E as (E & <- & S). destruct (inflight_row_checks _) eqn:C in H; [|by apply K].
    destruct (U _ _ H) as [[-> <-]|]; [|by apply K]. rewrite E. by constructor.
  - unfold ResolveInflightFailure in H. destruct (held T id' ref) as [r0|] eqn:E; [|by apply K].
    apply held_Some in E as (E & <- & S). destruct (inflight_row_checks _) eqn:C in H; [|by apply K].
    destruct (U _ _ H) as [[-> <-]|]; [|by apply K]. rewrite E. by constructor.
  - unfold sweepInflightExecutions in H. simpl in H. apply map_lookup_filter_Some in H as [H _]. by apply K.
Qed.

(** Only the sweep removes a row, and only one past its expiry. *)
Lemma exec_keeps_row T e id r :
  T !! id = Some r → (∃ r', exec T e !! id = Some r') ∨ ∃ now, e = Sweep now ∧ expires_at r ≤ now.
Proof.
  intros H. assert (U : ∀ id' r', is_Some (<[id' := r']> T !! id)).
  { intros id' r'. apply lookup_insert_is_Some'. right. eauto. }
  assert (S0 : is_Some (T !! id)) by eauto.
  destruct e as [now id' tn ref|now id' tn|now id' ref|now id' ref rr sha tk c|now id' ref msg|now]; simpl;
    [left..|].
  - unfold claim_take. repeat case_match; simplify_eq/=; solve [apply U | apply S0 | eauto].
  - unfold claim_follow. repeat case_match; simplify_eq/=; solve [apply U | apply S0 | eauto].
  - unfold RenewInflightLease. repeat case_match; simplify_eq/=; solve [apply U | apply S0 | eauto].
  - unfold ResolveInflightSuccess. repeat case_match; simplify_eq/=; solve [apply U | apply S0 | eauto].
  - unfold ResolveInflightFailure. repeat case_match; simplify_eq/=; solve [apply U | apply S0 | eauto].
  - destruct (decide (expires_at r ≤ now)) as [L|L]; [right; eauto|left].
    exists r. unfold sweepInflightExecutions. simpl. apply map_lookup_filter_Some. simpl. split; [done|lia].
Qed.

(** ** Histories *)

(** What holds of a row of [id] after the steps [es]: it satisfies the table's
    checks, its elections are bounded, its leader was elected under its tenant, and
    a result on it is the one its leader published. *)
Record row_ok (es : list event) (id : string) (r : inflight_row) : Prop := {
  ok_checks : inflight_row_checks r = true;
  ok_elections : 1 ≤ elections r ≤ inflightMaxElections;
  ok_tenant : tenant_scope r ≠ uuid_Nil;
  ok_elected : ∃ now, Take now id (tenant_scope r) (leader_ref r) ∈ es;
  ok_published : state r = COMPLETE → ∃ now rr sha tokens c,
    Succeed_with now id (leader_ref r) rr sha tokens c ∈ es ∧ c ≠ uuid_Nil ∧
    result_ref r = Some rr ∧ result_sha256 r = Some sha ∧ result_tokens r = Some tokens ∧
    leader_contract_id r = Some c ∧ failure r = None
}.

Lemma row_ok_mono es es' id r : es ⊆ es' → row_ok es id r → row_ok es' id r.
Proof.
  intros S [C E N [t T] P]. split; [done..|by exists t; apply S|].
  intros Q. destruct (P Q) as (?&?&?&?&?&I&?). apply S in I. naive_solver.
Qed.

Lemma uncoalescable_false id tenant ref :
  uncoalescable id tenant ref = false ↔ ValidRequestIdentity id = true ∧ tenant ≠ uuid_Nil ∧ ref ≠ "".
Proof.
  unfold uncoalescable. rewrite !orb_false_iff, negb_false_iff, !bool_decide_eq_false. naive_solver.
Qed.

(** The checks of a RUNNING row that the transitions carry over. *)
Lemma inflight_checks_common r :
  inflight_row_checks r = true → not_blank (leader_ref r) = true ∧ 1 ≤ elections r ∧ 0 ≤ followers r.
Proof. unfold inflight_row_checks. intros H. reflect_bools. done. Qed.

Lemma taken_over_checks r now ref :
  inflight_row_checks r = true → not_blank ref = true → inflight_row_checks (taken_over r now ref) = true.
Proof.
  intros H N. apply inflight_checks_common in H as (_ & E & F). unfold inflight_row_checks. simpl.
  rewrite N, (proj2 (Z.leb_le 1 (elections r + 1))), (proj2 (Z.leb_le 0 (followers r))) by lia. done.
Qed.

Lemma with_followers_checks r k :
  inflight_row_checks r = true → 0 ≤ k → inflight_row_checks (with_followers r k) = true.
Proof.
  unfold inflight_row_checks. simpl. intros H K. rewrite (proj2 (Z.leb_le 0 k)) by done.
  destruct (0 <=? followers r); [done|]. rewrite andb_false_r in H. done.
Qed.

Lemma row_step_ok es id e o r :
  (∀ r0, o = Some r0 → row_ok es id r0) → row_step id e o r → row_ok (es ++ [e]) id r.
Proof.
  intros IH S.
  assert (M : ∀ r0, o = Some r0 → row_ok (es ++ [e]) id r0).
  { intros r0 E. apply (row_ok_mono es); [set_solver|by apply IH]. }
  assert (L : e ∈ es ++ [e]) by (apply elem_of_app; right; by constructor).
  destruct S as [e r|now tn ref G C|now tn ref r G C Q|now tn r <- I|now r R|now r rr sha tk c R N C|now r msg msg' R C];
    try (destruct (M r eq_refl) as [MC ME MN MT MP]).
  - by apply M.
  - apply uncoalescable_false in G as (_ & N & _). split; [done|unfold inflightMaxElections; simpl; lia|done|by eexists|done].
  - unfold may_take in Q. reflect_bools. subst. apply inflight_checks_common in C as (C & _).
    split; [by apply taken_over_checks|simpl; lia|done|by eexists|done].
  - pose proof (inflight_checks_common _ MC) as (_ & _ & F). split; [apply with_followers_checks; [done|lia]|done..].
  - split; [exact MC|done..|]. simpl. congruence.
  - split; [done|done|done|done|]. intros _. exists now, rr, sha, tk, c. simpl. split_and!; try done.
    unfold inflight_row_checks in C. simpl in C. reflect_bools. done.
  - by split.
Qed.

Lemma run_ok es id r : run ∅ es !! id = Some r → row_ok es id r.
Proof.
  revert id r. induction es as [|e es IH] using rev_ind; intros id r.
  - simpl. by rewrite lookup_empty.
  - unfold run. rewrite foldl_app. simpl. intros H. apply exec_row in H.
    eapply row_step_ok; [|exact H]. intros r0 E. apply IH, E.
Qed.

(** A follower only ever receives its own tenant's work.  Whatever steps
    the sessions ran, and at whatever points of that history the loop of
    [AwaitInflightResult] polled, a result it delivers was published, with exactly
    these values and with a physical contract, by a leader that was elected for
    this identity under the follower's own tenant; and the loop never meets a
    completed row without a contract. *)
Theorem await_provenance es snapshots id tenant :
  Forall (λ p, ∃ pre, pre `prefix_of` es ∧ p.1 = run ∅ pre) snapshots →
  AwaitInflightResult snapshots id tenant ≠ Err (Errorf "completed inflight result lacks a physical leader contract") ∧
  ∀ out, AwaitInflightResult snapshots id tenant = Ok (out, true) →
    ∃ now t0 ref rr sha tokens c,
      Take t0 id tenant ref ∈ es ∧ Succeed_with now id ref rr sha tokens c ∈ es ∧
      c ≠ uuid_Nil ∧ out = mkResult "COMPLETE" rr sha c tokens "".
Proof.
  induction snapshots as [|[T now] rest IH]; [done|].
  rewrite Forall_cons. intros [(pre & [post ->] & E) F]. simpl in E. subst T. simpl.
  unfold await_poll. destruct (run ∅ pre !! id) as [r|] eqn:R; [|naive_solver].
  apply run_ok, (row_ok_mono _ (pre ++ post)) in R; [|set_solver]. destruct R as [_ _ _ [t0 HT] HP].
  destruct (decide (tenant_scope r = tenant)) as [<-|N]; [|rewrite bool_decide_false by done; naive_solver].
  rewrite bool_decide_true by done. destruct (state r) eqn:S.
  - destruct (lease_expires_at r <=? now); [naive_solver|by apply IH].
  - destruct HP as (n & rr & sha & tk & c & HS & N & -> & -> & -> & -> & ->); [done|]. simpl.
    rewrite bool_decide_false by done. split; [done|]. intros out [= <-]. by exists n, t0, (leader_ref r), rr, sha, tk, c.
  - naive_solver.
Qed.

(** ** Leadership *)

(** The row of [id] is led by [ref] for [tenant], and neither its lease nor its
    expiry comes before [t]. *)
Definition leads (T : table) (id : string) (tenant : UUID) (ref : string) (t : Z) : Prop :=
  ∃ r, T !! id = Some r ∧ state r = RUNNING ∧ leader_ref r = ref ∧ tenant_scope r = tenant ∧
       inflight_row_checks r = true ∧ t ≤ lease_expires_at r ∧ t ≤ expires_at r.

(** The leader's own resolution of the row. *)
Definition resolves (id ref : string) (e : event) : bool :=
  match e with
  | Succeed_with _ id' ref' _ _ _ _ | Fail_with _ id' ref' _ => bool_decide (id' = id) && bool_decide (ref' = ref)
  | _ => false
  end.

Lemma leads_step T e id tenant ref t :
  resolves id ref e = false → t - inflightLeaseTTL ≤ event_time e < t →
  leads T id tenant ref t → leads (exec T e) id tenant ref t.
Proof.
  intros R [L0 L1] (r & H & S & <- & <- & C & A & B).
  destruct (exec_keeps_row T e id r H) as [[r' H']|(now & -> & X)]; [|simpl in L1; lia].
  pose proof (exec_row _ _ _ _ H') as Q. rewrite H in Q. exists r'. split; [done|].
  inversion Q as [|?????|? ? ? ? G K M|? ? ? E I|? ? E|? ? ? ? ? ? E N K|? ? ? ? E K]; subst; simpl in *.
  - done.
  - unfold may_take in M. reflect_bools. lia.
  - pose proof (inflight_checks_common _ C) as (_ & _ & F). split_and!; try done. apply with_followers_checks; [done|lia].
  - split_and!; try done. lia.
  - by rewrite !bool_decide_true in R.
  - by rewrite !bool_decide_true in R.
Qed.

Lemma leads_run T es id tenant ref t :
  Forall (λ e, resolves id ref e = false ∧ t - inflightLeaseTTL ≤ event_time e < t) es →
  leads T id tenant ref t → leads (run T es) id tenant ref t.
Proof.
  revert T. induction es as [|e es IH]; intros T; [done|].
  rewrite Forall_cons. intros [[R L] F] H. apply (IH _ F). by apply leads_step.
Qed.

(** An elected leader's claim. *)
Lemma claim_elected T now between id tenant ref T1 n :
  ClaimInflightExecution T now between id tenant ref = (T1, Ok (mkRole true n false)) →
  uncoalescable id tenant ref = false ∧ claim_take T now id tenant ref = Ok (T1, Some n).
Proof.
  unfold ClaimInflightExecution, execute_alone. intros H.
  destruct (uncoalescable id tenant ref); [done|]. split; [done|].
  destruct (claim_take T now id tenant ref) as [[T' [k|]]|e]; simplify_eq; [done|exfalso].
  destruct (claim_follow (run T' between) id tenant) as [[T3 [[st ex]|]]|e']; simplify_eq.
  by destruct (ex && negb (bool_decide (st = COMPLETE))).
Qed.

(** It leads until its lease ends. *)
Lemma take_leads T now id tenant ref T1 n :
  (∀ r, T !! id = Some r → inflight_row_checks r = true) →
  claim_take T now id tenant ref = Ok (T1, Some n) → leads T1 id tenant ref (now + inflightLeaseTTL).
Proof.
  intros C. unfold claim_take. intros H. inv_ok. destruct (T !! id) as [r|] eqn:E.
  - destruct (may_take r now tenant) eqn:M; simplify_eq. unfold may_take in M. reflect_bools.
    pose proof (inflight_checks_common (proposed now tenant ref)) as [N _]; [done|].
    eexists. rewrite lookup_insert_eq. split; [done|]. simpl. unfold inflightLeaseTTL, inflightResultTTL.
    split_and!; try done || lia. apply taken_over_checks; [by apply C|done].
  - simplify_eq. eexists. rewrite lookup_insert_eq. split; [done|].
    simpl. unfold inflightLeaseTTL, inflightResultTTL. split_and!; try done || lia.
Qed.

Lemma leads_not_taken T id tenant ref t now tenant' ref' T1 n :
  leads T id tenant ref t → now < t → claim_take T now id tenant' ref' ≠ Ok (T1, Some n).
Proof.
  intros (r & H & _ & _ & _ & _ & L & _) N. unfold claim_take. rewrite H.
  destruct (negb _); [done|]. destruct (may_take r now tenant') eqn:M; [|done].
  unfold may_take in M. reflect_bools. lia.
Qed.

Lemma leads_publish T id tenant ref t now rr sha tokens c :
  leads T id tenant ref t → hex64 sha = true → 0 ≤ tokens → c ≠ uuid_Nil →
  ∃ T', ResolveInflightSuccess T now id ref rr sha tokens c = (T', Ok ()) ∧
        ∀ now', AwaitInflightResult [(T', now')] id tenant = Ok (mkResult "COMPLETE" rr sha c tokens "", true).
Proof.
  intros (r & H & S & <- & <- & C & _) Hs Ht Hc. unfold ResolveInflightSuccess.
  rewrite bool_decide_false, (held_here T id r H S) by done.
  assert (F : failure r = None). { unfold inflight_row_checks in C. rewrite S in C. reflect_bools. done. }
  assert (K : inflight_row_checks (completed r now rr sha tokens c) = true).
  { apply inflight_checks_common in C as (N & E & G). unfold inflight_row_checks. simpl.
    rewrite N, Hs, F, (proj2 (Z.leb_le 1 (elections r))), (proj2 (Z.leb_le 0 (followers r))),
      (proj2 (Z.leb_le 0 tokens)) by done. by rewrite !bool_decide_true. }
  rewrite K. eexists. split; [done|]. intros now'. simpl. unfold await_poll. rewrite lookup_insert_eq. simpl.
  rewrite bool_decide_true, F, bool_decide_false by done. done.
Qed.

(** C19: an elected leader is the only one and its result reaches the followers.
    Take any reachable table in which a caller is elected leader at [now].  Then
    through any steps of any sessions within its lease, short of its own
    resolution of the row, no other claim elects a leader; and when the leader
    publishes, at any later time, the publication is accepted and a follower of
    its tenant that polls next receives exactly that result. *)
Theorem leader_publishes past now between id tenant ref T1 n es :
  ClaimInflightExecution (run ∅ past) now between id tenant ref = (T1, Ok (mkRole true n false)) →
  Forall (λ e, resolves id ref e = false ∧ now ≤ event_time e < now + inflightLeaseTTL) es →
  (∀ t between' tenant' ref' T2 k, t < now + inflightLeaseTTL →
     ClaimInflightExecution (run T1 es) t between' id tenant' ref' ≠ (T2, Ok (mkRole true k false))) ∧
  (∀ t rr sha tokens c, hex64 sha = true → 0 ≤ tokens → c ≠ uuid_Nil →
     ∃ T2, ResolveInflightSuccess (run T1 es) t id ref rr sha tokens c = (T2, Ok ()) ∧
           ∀ t', AwaitInflightResult [(T2, t')] id tenant = Ok (mkResult "COMPLETE" rr sha c tokens "", true)).
Proof.
  intros H F. apply claim_elected in H as [_ H].
  apply take_leads in H; [|intros r R; by apply run_ok in R as []].
  apply (leads_run _ es) in H.
  - split.
    + intros t btw tn' ref' T2 k L Q. apply claim_elected in Q as [_ Q]. by eapply leads_not_taken.
    + intros. by eapply leads_publish.
  - eapply Forall_impl; [exact F|]. intros e [R L]. split; [done|lia].
Qed.

(** *** A deposed leader *)

Definition not_led_by (T : table) (id ref : string) : Prop := ∀ r, T !! id = Some r → leader_ref r ≠ ref.

Lemma not_led_run T es id ref :
  Forall (λ e, ∀ now tenant, e ≠ Take now id tenant ref) es → not_led_by T id ref → not_led_by (run T es) id ref.
Proof.
  revert T. induction es as [|e es IH]; intros T; [done|].
  rewrite Forall_cons. intros [N F] H. apply (IH _ F). intros r R. apply exec_row in R.
  destruct (T !! id) as [r0|] eqn:E.
  - specialize (H r0 E). inversion R; subst; simpl; try done; naive_solver.
  - inversion R; subst; simpl. naive_solver.
Qed.

Lemma not_held T id ref : not_led_by T id ref → held T id ref = None.
Proof. intros H. destruct (held T id ref) as [r|] eqn:E; [|done]. apply held_Some in E as (E & Q & _). by destruct (H r). Qed.

(** A leader that lost its row cannot touch it.  Once another caller has been
    elected for the identity, and until the old leader is itself elected again,
    the old leader's renewal and publication are refused and none of its three
    calls changes the table, whatever else the sessions do meanwhile. *)
Theorem deposed_leader_fenced T now between id tenant new old T1 n es t rr sha tokens c msg :
  ClaimInflightExecution T now between id tenant new = (T1, Ok (mkRole true n false)) → new ≠ old →
  Forall (λ e, ∀ t' tenant', e ≠ Take t' id tenant' old) es →
  let T2 := run T1 es in
  (∃ e, RenewInflightLease T2 t id old = (T2, Err e)) ∧
  (∃ e, ResolveInflightSuccess T2 t id old rr sha tokens c = (T2, Err e)) ∧
  ResolveInflightFailure T2 t id old msg = (T2, Ok ()).
Proof.
  intros H N F. apply claim_elected in H as [_ H].
  assert (L : not_led_by T1 id old).
  { intros r. unfold claim_take in H. inv_ok.
    destruct (T !! id); [destruct (may_take _ _ _)|]; simplify_eq; rewrite lookup_insert_eq; by intros [= <-]. }
  apply (not_led_run _ es) in L; [|done]. apply not_held in L. simpl.
  unfold RenewInflightLease, ResolveInflightSuccess, ResolveInflightFailure. rewrite L.
  split; [eauto|]. split; [|done]. destruct (bool_decide (c = uuid_Nil)); eauto.
Qed.

(** *** Bounded re-election *)

(** Whether a step elects a leader for [id]. *)
Definition elects (T : table) (id : string) (e : event) : Z :=
  match e with
  | Take now id' tenant ref =>
      if bool_decide (id' = id) && negb (uncoalescable id' tenant ref) then
        match claim_take T now id' tenant ref with Ok (_, Some _) => 1 | _ => 0 end
      else 0
  | _ => 0
  end.

Fixpoint elected (T : table) (id : string) (es : list event) : Z :=
  match es with [] => 0 | e :: es => elects T id e + elected (exec T e) id es end.

Definition elections_of (T : table) (id : string) : Z :=
  match T !! id with Some r => elections r | None => 0 end.

Lemma elections_exec T e id :
  (∀ now, e ≠ Sweep now) → elections_of (exec T e) id = elections_of T id + elects T id e.
Proof.
  intros N. unfold elections_of.
  assert (U : ∀ id' r0 r', T !! id' = Some r0 → elections r' = elections r0 →
    match <[id' := r']> T !! id with Some r => elections r | None => 0 end =
    match T !! id with Some r => elections r | None => 0 end + 0).
  { intros id' r0 r' H E. destruct (decide (id' = id)) as [->|D].
    - rewrite lookup_insert_eq, H, E. lia.
    - rewrite lookup_insert_ne by done. lia. }
  destruct e as [now id' tn ref|now id' tn|now id' ref|now id' ref rr sha tk c|now id' ref msg|now]; simpl; [..|by destruct (N now)].
  - destruct (uncoalescable id' tn ref); simpl; [rewrite andb_false_r; lia|]. rewrite andb_true_r.
    unfold claim_take. destruct (negb _); simpl; [destruct (bool_decide _); lia|].
    destruct (decide (id' = id)) as [->|D]; [rewrite bool_decide_true by done|rewrite bool_decide_false by done].
    + destruct (T !! id) as [r|] eqn:E; [|simpl; by rewrite lookup_insert_eq].
      destruct (may_take r now tn); simpl; [by rewrite lookup_insert_eq|rewrite E; lia].
    + destruct (T !! id') as [r|]; [destruct (may_take r now tn)|]; simpl; rewrite ?lookup_insert_ne by done; lia.
  - unfold claim_follow. destruct (T !! id') as [r|] eqn:E; simpl; [|lia].
    destruct (bool_decide _); simpl; [|lia]. destruct (negb _); simpl; [lia|by eapply U].
  - unfold RenewInflightLease. destruct (held T id' ref) as [r|] eqn:E; simpl; [|lia]. apply held_Some in E as [E _]. by eapply U.
  - unfold ResolveInflightSuccess. destruct (bool_decide _); simpl; [lia|].
    destruct (held T id' ref) as [r|] eqn:E; simpl; [|lia]. apply held_Some in E as [E _].
    destruct (inflight_row_checks _); simpl; [by eapply U|lia].
  - unfold ResolveInflightFailure. destruct (held T id' ref) as [r|] eqn:E; simpl; [|lia]. apply held_Some in E as [E _].
    destruct (inflight_row_checks _); simpl; [by eapply U|lia].
Qed.

Lemma elections_run T es id :
  Forall (λ e, ∀ now, e ≠ Sweep now) es → elections_of (run T es) id = elections_of T id + elected T id es.
Proof.
  revert T. induction es as [|e es IH]; intros T; [simpl; lia|].
  rewrite Forall_cons. intros [N F]. simpl. rewrite (IH _ F), elections_exec by done. lia.
Qed.

(** One identity is executed at most three times.  Between two sweeps, in
    any history of any length, at most [inflightMaxElections] claims on the same
    identity are elected leader, however often its leaders die. *)
Theorem elections_bounded es id :
  Forall (λ e, ∀ now, e ≠ Sweep now) es → elected ∅ id es ≤ inflightMaxElections.
Proof.
  intros F. pose proof (elections_run ∅ es id F) as E. unfold elections_of in E at 2. rewrite lookup_empty in E.
  assert (L : elections_of (run ∅ es) id ≤ inflightMaxElections); [|lia].
  unfold elections_of. destruct (run ∅ es !! id) as [r|] eqn:R; [|done]. apply run_ok in R as []. lia.
Qed.

(** *** A leader that outlives the row *)

Definition demo_hex : string := "0123456789abcdef0123456789abcdef0123456789abcdef0123456789abcdef".
Definition demo_id : string := "req_" +:+ demo_hex.
Definition seconds (n : Z) : Z := n * 1000000.

(** Two callers, a takeover after a missed lease and a publication by the second leader. *)
Definition demo_history : list event :=
  [Take (seconds 0) demo_id 7%N "a"; Follow (seconds 1) demo_id 7%N; Take (seconds 31) demo_id 7%N "b"; Renew (seconds 40) demo_id "b"].

Lemma await_provenance_witness :
  ∃ now t0 ref rr sha tokens c,
      Take t0 demo_id 7%N ref ∈ demo_history ++ [Succeed_with (seconds 50) demo_id "b" "artifact" demo_hex 12 9%N] ∧
      Succeed_with now demo_id ref rr sha tokens c ∈ demo_history ++ [Succeed_with (seconds 50) demo_id "b" "artifact" demo_hex 12 9%N] ∧
      c ≠ uuid_Nil ∧ mkResult "COMPLETE" "artifact" demo_hex 9%N 12 "" = mkResult "COMPLETE" rr sha c tokens "".
Proof.
  set (es := demo_history ++ [Succeed_with (seconds 50) demo_id "b" "artifact" demo_hex 12 9%N]).
  apply (await_provenance es [(run ∅ demo_history, seconds 45); (run ∅ es, seconds 51)] demo_id 7%N).
  - repeat constructor; [exists demo_history|exists es]; (split; [|done]); [by eexists|done].
  - vm_compute. reflexivity.
Defined.

Definition demo_led : table := run ∅ [Take (seconds 0) demo_id 7%N "a"].
Definition demo_taken : table := run demo_led [Take (seconds 31) demo_id 7%N "b"].

Lemma leader_publishes_witness :
  ∃ T2, ResolveInflightSuccess (run demo_led [Renew (seconds 10) demo_id "a"; Take (seconds 29) demo_id 7%N "b"])
          (seconds 29) demo_id "a" "artifact" demo_hex 12 9%N = (T2, Ok ()) ∧
        ∀ t', AwaitInflightResult [(T2, t')] demo_id 7%N = Ok (mkResult "COMPLETE" "artifact" demo_hex 9%N 12 "", true).
Proof.
  refine (proj2 (leader_publishes [] (seconds 0) [] demo_id 7%N "a" demo_led 1
    [Renew (seconds 10) demo_id "a"; Take (seconds 29) demo_id 7%N "b"] _ _) (seconds 29) "artifact" demo_hex 12 9%N _ _ _).
  - vm_cast_no_check (@eq_refl (table * res InflightRole) (demo_led, Ok (mkRole true 1 false))).
  - repeat constructor; vm_compute; done.
  - vm_compute. reflexivity.
  - lia.
  - done.
Defined.

Lemma deposed_leader_fenced_witness :
  ∃ e, ResolveInflightSuccess (run demo_taken [Renew (seconds 40) demo_id "b"]) (seconds 41) demo_id "a" "artifact" demo_hex 12 9%N
       = (run demo_taken [Renew (seconds 40) demo_id "b"], Err e).
Proof.
  refine (proj1 (proj2 (deposed_leader_fenced demo_led (seconds 31) [] demo_id 7%N "b" "a" demo_taken 2
    [Renew (seconds 40) demo_id "b"] (seconds 41) "artifact" demo_hex 12 9%N "" _ _ _))).
  - vm_cast_no_check (@eq_refl (table * res InflightRole) (demo_taken, Ok (mkRole true 2 false))).
  - done.
  - by repeat constructor.
Defined.

Lemma elections_bounded_witness :
  elected ∅ demo_id [Take (seconds 0) demo_id 7%N "a"; Take (seconds 31) demo_id 7%N "b"; Take (seconds 62) demo_id 7%N "c"; Take (seconds 93) demo_id 7%N "d"] ≤ 3.
Proof. apply elections_bounded. repeat constructor; done. Defined.

(** Renewing does not keep the row alive.  [RenewInflightLease] extends the
    lease but not [expires_at], which stays sixty seconds after the election.  A
    leader that renews on time loses its row to the sweep: the next claim on the
    identity is elected and executes the request a second time, and the first
    leader, whose lease would have run for another ten seconds, can no longer
    publish. *)
Theorem renewed_leader_swept :
  let T := run ∅ [Take (seconds 0) demo_id 7%N "a"; Renew (seconds 20) demo_id "a"; Renew (seconds 40) demo_id "a"; Renew (seconds 50) demo_id "a"] in
  let T' := exec T (Sweep (seconds 60)) in
  lease_expires_at <$> T !! demo_id = Some (seconds 80) ∧
  (ClaimInflightExecution T' (seconds 61) [] demo_id 7%N "b").2 = Ok (mkRole true 1 false) ∧
  (ResolveInflightSuccess (ClaimInflightExecution T' (seconds 61) [] demo_id 7%N "b").1 (seconds 70)
     demo_id "a" "artifact" demo_hex 12 9%N).2 = Err (Errorf "inflight %s is not held by %s; result not published").
Proof. split; [|split]; vm_compute; reflexivity. Qed.
