(* ===== verification/ServiceLeasePricing.v ===== *)
(** * ServiceLeasePricing: exact prices of reserved warm capacity ([service_lease_pricing.go])

    A buyer reserves replicas of a runtime profile for a term.  The terms are
    frozen in a pricing authority of nano rates per replica-hour; the same
    function prices the maximum at admission and every meter afterwards, from the
    aggregate replica time since the lease started.  Version 2 authorities pay
    residency to the supplier; version 1 authorities are read only from history
    and treat residency and a risk charge as platform costs.

    The float projections and prose of the stored [PricingDecision] are not
    modelled: [service_lease_terms] is the part of [newServiceLeasePricingDecision]
    that decides admission and the fixed-point numbers.  The embedded profile
    registry is an argument. *)
From stdpp Require Import base numbers list strings.
From S2P Require Import Prelude.
From S2P Require Import Float64.
From S2P Require Import Currency.
From S2P Require Import MoneyNanos.
From S2P Require Import LedgerWrite.
Local Open Scope Z_scope.
Local Open Scope go_scope.

Definition serviceLeasePricingAuthorityLegacyVersion : Z := 1.
Definition serviceLeasePricingAuthorityVersion : Z := 2.
Definition currentServiceLeasePricingCurrency : string := "usd".
Definition serviceLeasePricingRoundingPolicy : string := "service-lease-replica-nanos-v1".
Definition serviceLeaseMaximumTermSeconds : Z := 7 * 24 * 60 * 60.

Definition serviceLeaseEconomicFinalityBlockers : list string :=
  ["PROCESSOR_FEE_ALLOCATION_FROM_PREPAID_FUNDING_RECEIPT_UNKNOWN";
   "EGRESS_PROVIDER_BILLING_AUTHORITY_UNKNOWN";
   "RESIDENCY_LIABILITY_BENEFICIARY_AND_PAYOUT_FINALITY";
   "LEASE_RESERVE_AND_SLO_REFUND_FINALITY_UNDEFINED"].

Definition validateCurrentServiceLeaseCurrency (st : settlement) (raw : string) : res Currency :=
  match ParseCurrency raw with
  | Err _ => Err (Errorf "service lease currency must be a supported canonical ISO code")
  | Ok currency =>
      refuse (Errorf "service lease currency must be a supported canonical ISO code")
        if negb (bool_decide (code currency = raw));
      refuse (Errorf "service lease pricing supports new %s authority only; %s requires a frozen FX-bearing pricing version")
        if negb (bool_decide (code currency = currentServiceLeasePricingCurrency));
      match RequireSettlementCurrency st (code currency) with
      | Err err => Err (Wrapf err "service lease currency is not this deployment's settlement currency: %w")
      | Ok _ => Ok currency
      end
  end.

Record ServiceLeasePricingAuthority := mkAuthority {
  Version : Z;
  auth_Currency : string;
  RuntimeProfileID : string;
  RuntimeProfileSHA256 : string;
  Region : string;
  MinimumReplicas : Z;
  MaximumReplicas : Z;
  TermSeconds : Z;
  MaximumP95LatencyMilliseconds : Z;
  MaximumP99LatencyMilliseconds : Z;
  SupplierNanosPerReplicaHour : Z;
  ResidencyNanosPerReplicaHour : Z;
  ControlPlaneNanosPerReplicaHour : Z;
  RiskReserveNanosPerReplicaHour : Z;
  ContributionNanosPerReplicaHour : Z;
  auth_RoundingPolicy : string
}.

Record ServiceLeaseMoney := mkLeaseMoney {
  BuyerCharge : MoneyNanos;
  SupplierPayable : MoneyNanos;
  ResidencyCost : MoneyNanos;
  ControlPlaneCost : MoneyNanos;
  RiskReserve : MoneyNanos;
  MercContribution : MoneyNanos
}.

Definition is_legacy (a : ServiceLeasePricingAuthority) : bool :=
  Version a =? serviceLeasePricingAuthorityLegacyVersion.

(** The rates the validation loops over; the one named first in the error is
    whichever the map iteration meets first. *)
Definition required_rates (a : ServiceLeasePricingAuthority) : list Z :=
  [SupplierNanosPerReplicaHour a; ResidencyNanosPerReplicaHour a;
   ControlPlaneNanosPerReplicaHour a; ContributionNanosPerReplicaHour a].

Definition validateServiceLeasePricingAuthority (a : ServiceLeasePricingAuthority) (currency : string) : res unit :=
  refuse (Errorf "service lease pricing authority has unsupported version, currency, or rounding policy")
    if (negb (Version a =? serviceLeasePricingAuthorityLegacyVersion) &&
        negb (Version a =? serviceLeasePricingAuthorityVersion)) ||
       negb (bool_decide (auth_Currency a = currency)) ||
       negb (bool_decide (auth_RoundingPolicy a = serviceLeasePricingRoundingPolicy));
  refuse (Errorf "service lease pricing authority has invalid workload or capacity bounds")
    if bool_decide (RuntimeProfileID a = "") || negb (validSHA256 (RuntimeProfileSHA256 a)) ||
       bool_decide (Region a = "") || (MinimumReplicas a <? 1) ||
       (MaximumReplicas a <? MinimumReplicas a) || (TermSeconds a <? 60) ||
       (serviceLeaseMaximumTermSeconds <? TermSeconds a) ||
       (MaximumP95LatencyMilliseconds a <? 1) || (MaximumP99LatencyMilliseconds a <? 0);
  refuse (Errorf "service lease %s must be a positive exact hourly rate")
    if existsb (λ rate, rate <=? 0) (required_rates a);
  if is_legacy a then
    refuse (Errorf "historical service lease risk reserve must retain its positive accepted rate")
      if RiskReserveNanosPerReplicaHour a <=? 0;
    Ok tt
  else
    refuse (Errorf "current service lease pricing may not charge an unimplemented risk reserve")
      if negb (RiskReserveNanosPerReplicaHour a =? 0);
    Ok tt.

Definition serviceLeaseComponent (c : Currency) (rate replicaDurationNanos : Z) : res MoneyNanos :=
  refuse (Errorf "service lease rate and aggregate replica duration must be positive")
    if (rate <=? 0) || (replicaDurationNanos <=? 0);
  nanos ← mulDiv rate replicaDurationNanos nanosecondsPerHour true;
  NewMoneyNanos c nanos.

(** The additions of [ServiceLeaseMoneyForReplicaDuration], in its order. *)
Definition lease_totals (legacy : bool) (supplier residency control risk contribution : MoneyNanos) :
    res (MoneyNanos * MoneyNanos) :=
  supplierPayable ← (if legacy then Ok supplier else MoneyNanos_Add supplier residency);
  buyer ← (if legacy then MoneyNanos_Add supplierPayable residency else Ok supplierPayable);
  buyer ← MoneyNanos_Add buyer control;
  buyer ← (if legacy then MoneyNanos_Add buyer risk else Ok buyer);
  buyer ← MoneyNanos_Add buyer contribution;
  Ok (supplierPayable, buyer).

Definition ServiceLeaseMoneyForReplicaDuration (c : Currency) (authority : ServiceLeasePricingAuthority)
    (replicaDurationNanos : Z) : res ServiceLeaseMoney :=
  _ ← validateServiceLeasePricingAuthority authority (code c);
  supplier ← serviceLeaseComponent c (SupplierNanosPerReplicaHour authority) replicaDurationNanos;
  residency ← serviceLeaseComponent c (ResidencyNanosPerReplicaHour authority) replicaDurationNanos;
  control ← serviceLeaseComponent c (ControlPlaneNanosPerReplicaHour authority) replicaDurationNanos;
  risk ← NewMoneyNanos c 0;
  risk ← (if is_legacy authority
          then serviceLeaseComponent c (RiskReserveNanosPerReplicaHour authority) replicaDurationNanos
          else Ok risk);
  contribution ← serviceLeaseComponent c (ContributionNanosPerReplicaHour authority) replicaDurationNanos;
  match lease_totals (is_legacy authority) supplier residency control risk contribution with
  | Err _ => Err (Errorf "service lease buyer charge lacks positive conserved Merc contribution")
  | Ok (supplierPayable, buyer) =>
      refuse (Errorf "service lease buyer charge lacks positive conserved Merc contribution")
        if Nanos buyer <=? Nanos supplierPayable;
      Ok (mkLeaseMoney buyer supplierPayable residency control risk contribution)
  end.

Definition serviceLeaseMaximumReplicaDuration (a : ServiceLeasePricingAuthority) : res Z :=
  mulDiv (MaximumReplicas a) (TermSeconds a) 1 false.

(** [service_leases.go]: the platform's known variable cost of a meter. *)
Definition serviceLeaseKnownVariableNanos (authority : ServiceLeasePricingAuthority) (money : ServiceLeaseMoney) : res Z :=
  if Version authority =? serviceLeasePricingAuthorityVersion then Ok (Nanos (ControlPlaneCost money))
  else
    let variable := Nanos (ResidencyCost money) +w Nanos (ControlPlaneCost money) +w Nanos (RiskReserve money) in
    refuse (Errorf "historical service lease variable cost overflow")
      if (variable <? Nanos (ResidencyCost money)) || (variable <? Nanos (ControlPlaneCost money));
    Ok variable.

Definition MinimumReplicasIsOneOrMore (a : ServiceLeasePricingAuthority) : bool := 1 <=? MinimumReplicas a.

(** ** Admission *)

Record GenerationPolicy := mkGenerationPolicy {
  gp_Version : string; Temperature : f64; TopP : f64; MaximumOutputTokens : Z
}.

Record VLLMRuntimeProfile := mkProfile {
  SchemaVersion : Z;
  profile_ID : string;
  Engine : string;
  EngineVersion : string;
  ContainerImage : string;
  ContainerPlatform : string;
  ContainerDigest : string;
  ModelAlias : string;
  ModelRepository : string;
  ModelRevision : string;
  TokenizerRevision : string;
  Architecture : string;
  DType : string;
  ModelWeightsGB : f64;
  PerRankOverheadGB : f64;
  AttentionHeads : Z;
  TensorParallelSize : Z;
  PipelineParallelSize : Z;
  MaxModelLength : Z;
  GPUMemoryUtilization : f64;
  MaxActiveSequences : Z;
  PrefixCaching : bool;
  ChunkedPrefill : bool;
  GenPolicy : GenerationPolicy;
  BuyerInputUSDPerMillionTokens : f64;
  BuyerOutputUSDPerMillionTokens : f64;
  BenchmarkStatus : string;
  ProfileSHA256 : string
}.

(** [reflect.DeepEqual] on profiles: field by field, floats by [==]. *)
Definition profile_DeepEqual (p q : VLLMRuntimeProfile) : bool :=
  let ints x := [SchemaVersion x; AttentionHeads x; TensorParallelSize x; PipelineParallelSize x; MaxModelLength x;
                 MaxActiveSequences x; MaximumOutputTokens (GenPolicy x)] in
  let texts x := [profile_ID x; Engine x; EngineVersion x; ContainerImage x; ContainerPlatform x; ContainerDigest x;
                  ModelAlias x; ModelRepository x; ModelRevision x; TokenizerRevision x; Architecture x; DType x;
                  gp_Version (GenPolicy x); BenchmarkStatus x; ProfileSHA256 x] in
  let floats x := [ModelWeightsGB x; PerRankOverheadGB x; GPUMemoryUtilization x; Temperature (GenPolicy x);
                   TopP (GenPolicy x); BuyerInputUSDPerMillionTokens x; BuyerOutputUSDPerMillionTokens x] in
  bool_decide (ints p = ints q) && bool_decide (texts p = texts q) &&
  forallb (λ xy, f64_eqb xy.1 xy.2) (zip (floats p) (floats q)) &&
  Bool.eqb (PrefixCaching p) (PrefixCaching q) && Bool.eqb (ChunkedPrefill p) (ChunkedPrefill q).

Record ServiceLeasePricingInputs := mkInputs {
  Profile : VLLMRuntimeProfile;
  in_Currency : Currency;
  in_Region : string;
  in_MinimumReplicas : Z;
  in_MaximumReplicas : Z;
  in_TermSeconds : Z;
  in_MaximumP95LatencyMilliseconds : Z;
  in_MaximumP99LatencyMilliseconds : Z;
  in_SupplierNanosPerReplicaHour : Z;
  in_ResidencyNanosPerReplicaHour : Z;
  in_ControlPlaneNanosPerReplicaHour : Z;
  in_RiskReserveNanosPerReplicaHour : Z;
  in_ContributionNanosPerReplicaHour : Z;
  BuyerDeclaredCeilingNanos : Z
}.

Record FixedPointPricingDecision := mkFixedPoint {
  fp_Currency : string;
  BuyerChargeNanos : Z;
  AcceptedCeilingNanos : Z;
  SupplierEntitlementsNanos : Z;
  KnownVariableCostsNanos : Z;
  MercGrossSpreadNanos : Z;
  KnownCostContributionNanos : Z;
  UnknownCostCategories : list string
}.

Definition authority_of (in_ : ServiceLeasePricingInputs) : ServiceLeasePricingAuthority :=
  mkAuthority serviceLeasePricingAuthorityVersion (code (in_Currency in_)) (profile_ID (Profile in_))
    (ProfileSHA256 (Profile in_)) (in_Region in_) (in_MinimumReplicas in_) (in_MaximumReplicas in_)
    (in_TermSeconds in_) (in_MaximumP95LatencyMilliseconds in_) (in_MaximumP99LatencyMilliseconds in_)
    (in_SupplierNanosPerReplicaHour in_) (in_ResidencyNanosPerReplicaHour in_)
    (in_ControlPlaneNanosPerReplicaHour in_) (in_RiskReserveNanosPerReplicaHour in_)
    (in_ContributionNanosPerReplicaHour in_) serviceLeasePricingRoundingPolicy.

(** [newServiceLeasePricingDecision] up to the fixed-point block it returns. *)
Definition service_lease_terms (st : settlement) (vllmProfileByID : string → option VLLMRuntimeProfile)
    (in_ : ServiceLeasePricingInputs) : res (ServiceLeasePricingAuthority * FixedPointPricingDecision) :=
  _ ← validateCurrentServiceLeaseCurrency st (code (in_Currency in_));
  refuse (Errorf "service lease profile does not match embedded authority")
    if match vllmProfileByID (profile_ID (Profile in_)) with
       | None => true
       | Some governed => negb (profile_DeepEqual governed (Profile in_))
       end;
  let authority := authority_of in_ in
  _ ← validateServiceLeasePricingAuthority authority (code (in_Currency in_));
  replicaSeconds ← serviceLeaseMaximumReplicaDuration authority;
  refuse (Errorf "service lease maximum replica duration overflows nanoseconds")
    if max_int64 /t 1000000000 <? replicaSeconds;
  maximum ← ServiceLeaseMoneyForReplicaDuration (in_Currency in_) authority (replicaSeconds *w 1000000000);
  refuse (Errorf "service lease maximum charge exceeds buyer ceiling")
    if (BuyerDeclaredCeilingNanos in_ <=? 0) || (BuyerDeclaredCeilingNanos in_ <? Nanos (BuyerCharge maximum));
  Ok (authority,
      mkFixedPoint (code (in_Currency in_)) (Nanos (BuyerCharge maximum)) (BuyerDeclaredCeilingNanos in_)
        (Nanos (SupplierPayable maximum)) (Nanos (ControlPlaneCost maximum))
        (Nanos (BuyerCharge maximum) -w Nanos (SupplierPayable maximum))
        (Nanos (MercContribution maximum)) serviceLeaseEconomicFinalityBlockers).

(** ** The price of a duration *)

(** Rate times duration, in hours, rounded up to a nano. *)
Definition hourly (rate d : Z) : Z := round_div true (rate * d) nanosecondsPerHour.

Lemma hourly_pos rate d : 0 < rate → 0 < d → 0 < hourly rate d.
Proof.
  intros. unfold hourly. pose proof (round_div_up (rate * d) nanosecondsPerHour ltac:(done)).
  unfold nanosecondsPerHour in *. nia.
Qed.

Lemma hourly_mono rate d d' : 0 < rate → d ≤ d' → hourly rate d ≤ hourly rate d'.
Proof. intros. apply round_div_mono; [nia|done]. Qed.

(** The rates of an authority are 64-bit values. *)
Record authority_width (a : ServiceLeasePricingAuthority) : Prop := {
  w_supplier : int64 (SupplierNanosPerReplicaHour a);
  w_residency : int64 (ResidencyNanosPerReplicaHour a);
  w_control : int64 (ControlPlaneNanosPerReplicaHour a);
  w_risk : int64 (RiskReserveNanosPerReplicaHour a);
  w_contribution : int64 (ContributionNanosPerReplicaHour a)
}.

(** What validation establishes about the rates. *)
Lemma validate_rates a cur :
  validateServiceLeasePricingAuthority a cur = Ok tt →
  0 < SupplierNanosPerReplicaHour a ∧ 0 < ResidencyNanosPerReplicaHour a ∧
  0 < ControlPlaneNanosPerReplicaHour a ∧ 0 < ContributionNanosPerReplicaHour a ∧
  (if is_legacy a then 0 < RiskReserveNanosPerReplicaHour a
   else RiskReserveNanosPerReplicaHour a = 0 ∧ Version a = serviceLeasePricingAuthorityVersion).
Proof.
  unfold validateServiceLeasePricingAuthority. intros H. apply refuse_Ok in H as [V H].
  apply refuse_Ok in H as [_ H]. apply refuse_Ok in H as [R H]. simpl in R. reflect_bools.
  split_and!; [lia..|]. unfold is_legacy in *. destruct (Version a =? serviceLeasePricingAuthorityLegacyVersion) eqn:L.
  - inv_ok. lia.
  - apply refuse_Ok in H as [Z _]. reflect_bools. split; [done|].
    match goal with E : _ && _ = false |- _ => apply andb_false_iff in E as [?|?] end; reflect_bools; done.
Qed.

Lemma serviceLeaseComponent_Ok c rate d :
  code c ≠ "" → 0 < rate → 0 < d → int64 rate → int64 d →
  serviceLeaseComponent c rate d =
    if hourly rate d <=? max_int64 then Ok (mkMoneyNanos c (hourly rate d)) else Err errMoneyOverflow.
Proof.
  intros Hc Hr Hd Ir Id. unfold serviceLeaseComponent.
  rewrite (proj2 (Z.leb_gt rate 0)), (proj2 (Z.leb_gt d 0)) by lia. simpl.
  rewrite (exact_division (f := mulDiv)) by (try done; unfold nanosecondsPerHour; go_lia). fold (hourly rate d).
  destruct (hourly rate d <=? max_int64); simpl; [|done]. by apply NewMoneyNanos_Ok.
Qed.

Lemma serviceLeaseComponent_fits c rate d :
  code c ≠ "" → 0 < rate → 0 < d → int64 rate → int64 d → hourly rate d ≤ max_int64 →
  serviceLeaseComponent c rate d = Ok (mkMoneyNanos c (hourly rate d)).
Proof. intros. rewrite serviceLeaseComponent_Ok by done. by rewrite (proj2 (Z.leb_le _ _)). Qed.

Lemma serviceLeaseComponent_inv c rate d m :
  code c ≠ "" → 0 < rate → 0 < d → int64 rate → int64 d →
  serviceLeaseComponent c rate d = Ok m → m = mkMoneyNanos c (hourly rate d) ∧ hourly rate d ≤ max_int64.
Proof.
  intros. rewrite serviceLeaseComponent_Ok in * by done.
  destruct (Z.leb_spec (hourly rate d) max_int64); by simplify_eq.
Qed.

(** The exact total the buyer owes for a duration, and the part of it the supplier is owed. *)
Definition lease_supplier (a : ServiceLeasePricingAuthority) (d : Z) : Z :=
  hourly (SupplierNanosPerReplicaHour a) d +
  (if is_legacy a then 0 else hourly (ResidencyNanosPerReplicaHour a) d).

Definition lease_variable (a : ServiceLeasePricingAuthority) (d : Z) : Z :=
  hourly (ControlPlaneNanosPerReplicaHour a) d +
  (if is_legacy a then hourly (ResidencyNanosPerReplicaHour a) d + hourly (RiskReserveNanosPerReplicaHour a) d else 0).

Definition lease_contribution (a : ServiceLeasePricingAuthority) (d : Z) : Z :=
  hourly (ContributionNanosPerReplicaHour a) d.

Definition lease_buyer (a : ServiceLeasePricingAuthority) (d : Z) : Z :=
  lease_supplier a d + lease_variable a d + lease_contribution a d.

(** The money of a duration, as a value. *)
Definition lease_money (c : Currency) (a : ServiceLeasePricingAuthority) (d : Z) : ServiceLeaseMoney :=
  mkLeaseMoney (mkMoneyNanos c (lease_buyer a d)) (mkMoneyNanos c (lease_supplier a d))
    (mkMoneyNanos c (hourly (ResidencyNanosPerReplicaHour a) d))
    (mkMoneyNanos c (hourly (ControlPlaneNanosPerReplicaHour a) d))
    (mkMoneyNanos c (if is_legacy a then hourly (RiskReserveNanosPerReplicaHour a) d else 0))
    (mkMoneyNanos c (lease_contribution a d)).

Lemma lease_parts_pos a cur d :
  validateServiceLeasePricingAuthority a cur = Ok tt → 0 < d →
  0 < lease_supplier a d ∧ 0 < lease_variable a d ∧ 0 < lease_contribution a d.
Proof.
  intros V D. destruct (validate_rates a cur V) as (H1 & H2 & H3 & H4 & H5).
  unfold lease_supplier, lease_variable, lease_contribution.
  pose proof (hourly_pos _ d H1 D). pose proof (hourly_pos _ d H2 D).
  pose proof (hourly_pos _ d H3 D). pose proof (hourly_pos _ d H4 D).
  destruct (is_legacy a); [pose proof (hourly_pos _ d H5 D)|]; lia.
Qed.

Lemma lease_parts_mono a cur d d' :
  validateServiceLeasePricingAuthority a cur = Ok tt → d ≤ d' →
  lease_supplier a d ≤ lease_supplier a d' ∧ lease_variable a d ≤ lease_variable a d' ∧
  lease_contribution a d ≤ lease_contribution a d'.
Proof.
  intros V D. destruct (validate_rates a cur V) as (H1 & H2 & H3 & H4 & H5).
  unfold lease_supplier, lease_variable, lease_contribution.
  pose proof (hourly_mono _ d d' H1 D). pose proof (hourly_mono _ d d' H2 D).
  pose proof (hourly_mono _ d d' H3 D). pose proof (hourly_mono _ d d' H4 D).
  destruct (is_legacy a); [pose proof (hourly_mono _ d d' H5 D)|]; lia.
Qed.

Lemma Add_fits c x y :
  0 ≤ x → 0 ≤ y → x + y ≤ max_int64 →
  MoneyNanos_Add (mkMoneyNanos c x) (mkMoneyNanos c y) = Ok (mkMoneyNanos c (x + y)).
Proof. intros. apply MoneyNanos_Add_Ok; simpl; [go_lia..|]. split_and!; [done|go_lia|done]. Qed.

Lemma Add_overflows c x y m :
  int64 x → int64 y → MoneyNanos_Add (mkMoneyNanos c x) (mkMoneyNanos c y) = Ok m →
  m = mkMoneyNanos c (x + y) ∧ int64 (x + y).
Proof. intros Hx Hy H. apply MoneyNanos_Add_Ok in H as (_ & ? & ->); done. Qed.

Section Money.
Context (c : Currency) (a : ServiceLeasePricingAuthority) (d : Z).
Context (Hc : code c ≠ "") (W : authority_width a) (Id : int64 d) (Hd : 0 < d).
Context (V : validateServiceLeasePricingAuthority a (code c) = Ok tt).

(** The function computes the exact money of the duration whenever the buyer's
    total is representable. *)
Lemma lease_money_Ok :
  lease_buyer a d ≤ max_int64 → ServiceLeaseMoneyForReplicaDuration c a d = Ok (lease_money c a d).
Proof.
  intros B. unfold ServiceLeaseMoneyForReplicaDuration. rewrite V. simpl.
  destruct (validate_rates a _ V) as (H1 & H2 & H3 & H4 & H5). destruct W as [W1 W2 W3 W4 W5].
  pose proof (hourly_pos _ d H1 Hd). pose proof (hourly_pos _ d H2 Hd).
  pose proof (hourly_pos _ d H3 Hd). pose proof (hourly_pos _ d H4 Hd).
  unfold lease_money, lease_buyer, lease_supplier, lease_variable, lease_contribution, lease_totals in *.
  assert (N : NewMoneyNanos c 0 = Ok (mkMoneyNanos c 0)) by (by apply NewMoneyNanos_Ok).
  destruct (is_legacy a) eqn:L.
  - pose proof (hourly_pos _ d H5 Hd). rewrite !serviceLeaseComponent_fits by (done || lia). simpl. rewrite N. simpl.
    rewrite Add_fits by lia. simpl. rewrite Add_fits by lia. simpl. rewrite Add_fits by lia. simpl.
    rewrite Add_fits by lia. simpl. rewrite (proj2 (Z.leb_gt _ _)) by lia. do 3 f_equal; lia.
  - rewrite !serviceLeaseComponent_fits by (done || lia). simpl. rewrite N. simpl.
    rewrite Add_fits by lia. simpl. rewrite Add_fits by lia. simpl. rewrite Add_fits by lia. simpl.
    rewrite (proj2 (Z.leb_gt _ _)) by lia. do 3 f_equal; lia.
Qed.

(** And it succeeds only then. *)
Lemma lease_totals_bounded x1 x2 x3 x4 x5 p b :
  0 ≤ x1 ≤ max_int64 → 0 ≤ x2 ≤ max_int64 → 0 ≤ x3 ≤ max_int64 → 0 ≤ x4 ≤ max_int64 → 0 ≤ x5 ≤ max_int64 →
  lease_totals (is_legacy a) (mkMoneyNanos c x1) (mkMoneyNanos c x2) (mkMoneyNanos c x3)
    (mkMoneyNanos c x4) (mkMoneyNanos c x5) = Ok (p, b) →
  x1 + x2 + x3 + (if is_legacy a then x4 else 0) + x5 ≤ max_int64.
Proof.
  intros ????? H. unfold lease_totals in H. destruct (is_legacy a); inv_ok;
    repeat match goal with
    | E : MoneyNanos_Add (mkMoneyNanos _ _) (mkMoneyNanos _ _) = Ok _ |- _ =>
        apply Add_overflows in E as [-> ?]; [|go_lia..]
    end; go_lia.
Qed.

Lemma lease_money_inv m :
  ServiceLeaseMoneyForReplicaDuration c a d = Ok m → m = lease_money c a d ∧ lease_buyer a d ≤ max_int64.
Proof.
  intros H. assert (B : lease_buyer a d ≤ max_int64); [|rewrite lease_money_Ok in H by done; by simplify_eq].
  unfold ServiceLeaseMoneyForReplicaDuration in H. rewrite V in H. simpl in H.
  destruct (validate_rates a _ V) as (H1 & H2 & H3 & H4 & H5). destruct W as [W1 W2 W3 W4 W5].
  pose proof (hourly_pos _ d H1 Hd). pose proof (hourly_pos _ d H2 Hd).
  pose proof (hourly_pos _ d H3 Hd). pose proof (hourly_pos _ d H4 Hd).
  apply bind_Ok in H as (x1 & E1 & H). apply bind_Ok in H as (x2 & E2 & H). apply bind_Ok in H as (x3 & E3 & H).
  apply bind_Ok in H as (x0 & E0 & H). apply bind_Ok in H as (x4 & E4 & H). apply bind_Ok in H as (x5 & E5 & H).
  apply NewMoneyNanos_Ok in E0 as [_ ->].
  apply serviceLeaseComponent_inv in E1 as [-> ?], E2 as [-> ?], E3 as [-> ?], E5 as [-> ?]; [|done..].
  assert (R : ∃ y, x4 = mkMoneyNanos c y ∧ 0 ≤ y ≤ max_int64 ∧
    (is_legacy a = true → y = hourly (RiskReserveNanosPerReplicaHour a) d)).
  { destruct (is_legacy a); [|simplify_eq; exists 0; unfold max_int64; split_and!; (done || lia)].
    pose proof (hourly_pos _ d H5 Hd). apply serviceLeaseComponent_inv in E4 as [-> ?]; [|done..].
    eexists; split_and!; [done|lia..|done]. }
  destruct R as (y & -> & B4 & E).
  destruct (lease_totals _ _ _ _ _ _) as [[p b]|] eqn:T; [|done].
  apply lease_totals_bounded in T; [|lia..].
  unfold lease_buyer, lease_supplier, lease_variable, lease_contribution.
  destruct (is_legacy a); [rewrite <-E by done|]; lia.
Qed.
End Money.

(** The known variable cost completes the split of the buyer's charge. *)
Lemma lease_variable_Ok c a d :
  validateServiceLeasePricingAuthority a (code c) = Ok tt → 0 < d → lease_buyer a d ≤ max_int64 →
  serviceLeaseKnownVariableNanos a (lease_money c a d) = Ok (lease_variable a d).
Proof.
  intros V Hd B. destruct (validate_rates a _ V) as (H1 & H2 & H3 & H4 & H5).
  pose proof (hourly_pos _ d H1 Hd). pose proof (hourly_pos _ d H2 Hd).
  pose proof (hourly_pos _ d H3 Hd). pose proof (hourly_pos _ d H4 Hd).
  unfold serviceLeaseKnownVariableNanos, lease_buyer, lease_supplier, lease_variable, lease_contribution in *. simpl.
  destruct (is_legacy a) eqn:L.
  - unfold is_legacy in L. apply Z.eqb_eq in L. rewrite L. simpl. pose proof (hourly_pos _ d H5 Hd).
    rewrite (wrap64_id (_ + hourly (ControlPlaneNanosPerReplicaHour a) d)) by go_lia. rewrite wrap64_id by go_lia.
    rewrite !(proj2 (Z.ltb_ge _ _)) by lia. simpl. f_equal. lia.
  - destruct H5 as [_ ->]. simpl. f_equal. lia.
Qed.

(** The money of a metered duration is exact, conserved and monotone.  When
    [ServiceLeaseMoneyForReplicaDuration] succeeds, the buyer's charge is exactly
    the supplier's payable plus the platform's known variable cost plus its
    contribution, each of the three positive; and for every shorter duration it
    succeeds too, with none of the three parts larger, so a charge never shrinks
    as metering continues. *)
Theorem lease_money_conserved c a d m d' :
  authority_width a → int64 d → 0 < d' ≤ d → code c ≠ "" →
  ServiceLeaseMoneyForReplicaDuration c a d = Ok m →
  (∃ v, serviceLeaseKnownVariableNanos a m = Ok v ∧ 0 < v ∧
        0 < Nanos (SupplierPayable m) ∧ 0 < Nanos (MercContribution m) ∧
        Nanos (BuyerCharge m) = Nanos (SupplierPayable m) + v + Nanos (MercContribution m)) ∧
  ∃ m', ServiceLeaseMoneyForReplicaDuration c a d' = Ok m' ∧
        Nanos (BuyerCharge m') ≤ Nanos (BuyerCharge m) ∧ Nanos (SupplierPayable m') ≤ Nanos (SupplierPayable m) ∧
        Nanos (MercContribution m') ≤ Nanos (MercContribution m).
Proof.
  intros W Id D Hc H.
  assert (V : validateServiceLeasePricingAuthority a (code c) = Ok tt).
  { unfold ServiceLeaseMoneyForReplicaDuration in H. apply bind_Ok in H as ([] & V & _). done. }
  apply lease_money_inv in H as [-> B]; [|done || lia..]. split.
  - exists (lease_variable a d). rewrite (lease_variable_Ok c) by (done || lia).
    pose proof (lease_parts_pos a _ d V ltac:(lia)). simpl. unfold lease_buyer. split_and!; (done || lia).
  - exists (lease_money c a d'). pose proof (lease_parts_mono a _ d' d V ltac:(lia)).
    rewrite lease_money_Ok; [simpl|done|done|go_lia|lia|done|]; unfold lease_buyer in *; [|lia].
    split_and!; (done || lia).
Qed.

Definition demo_authority : ServiceLeasePricingAuthority :=
  mkAuthority 2 "usd" "profile" "0123456789abcdef0123456789abcdef0123456789abcdef0123456789abcdef" "eu-west"
    2 2 3600 500 0 1000000000 100000000 100000000 0 300000000 serviceLeasePricingRoundingPolicy.

Lemma demo_authority_width : authority_width demo_authority.
Proof. split; simpl; width; lia. Qed.

Lemma lease_money_conserved_witness :
  ∃ m', ServiceLeaseMoneyForReplicaDuration (mkCurrency "usd" 2) demo_authority 7 = Ok m' ∧
        Nanos (BuyerCharge m') ≤ Nanos (BuyerCharge (lease_money (mkCurrency "usd" 2) demo_authority 3600000000001)) ∧
        Nanos (SupplierPayable m') ≤ Nanos (SupplierPayable (lease_money (mkCurrency "usd" 2) demo_authority 3600000000001)) ∧
        Nanos (MercContribution m') ≤ Nanos (MercContribution (lease_money (mkCurrency "usd" 2) demo_authority 3600000000001)).
Proof.
  refine (proj2 (lease_money_conserved (mkCurrency "usd" 2) demo_authority 3600000000001
    (lease_money (mkCurrency "usd" 2) demo_authority 3600000000001) 7 demo_authority_width _ _ _ _)).
  - width. lia.
  - lia.
  - discriminate.
  - vm_compute. reflexivity.
Defined.

(** *** Admission covers the whole term *)

Lemma validate_capacity a cur :
  validateServiceLeasePricingAuthority a cur = Ok tt →
  1 ≤ MinimumReplicas a ≤ MaximumReplicas a ∧ 60 ≤ TermSeconds a ≤ serviceLeaseMaximumTermSeconds.
Proof.
  unfold validateServiceLeasePricingAuthority. intros H. apply refuse_Ok in H as [_ H].
  apply refuse_Ok in H as [C _]. reflect_bools. lia.
Qed.

Lemma current_currency_usd st raw c :
  validateCurrentServiceLeaseCurrency st raw = Ok c → raw = currentServiceLeasePricingCurrency.
Proof.
  unfold validateCurrentServiceLeaseCurrency. destruct (ParseCurrency raw) as [cur|]; [|done].
  intros H. apply refuse_Ok in H as [E H]. apply refuse_Ok in H as [U _]. reflect_bools. congruence.
Qed.

Lemma max_duration_inv a cur rs :
  validateServiceLeasePricingAuthority a cur = Ok tt → int64 (MaximumReplicas a) →
  serviceLeaseMaximumReplicaDuration a = Ok rs → rs = MaximumReplicas a * TermSeconds a.
Proof.
  intros V I R. apply validate_capacity in V as [C T]. unfold serviceLeaseMaximumTermSeconds in T.
  apply (exact_division_Ok mulDiv) in R as [-> R]; [|try done; go_lia..].
  unfold round_div. by rewrite Z.div_1_r.
Qed.

(** The arguments of an admission are 64-bit values. *)
Definition inputs_width (in_ : ServiceLeasePricingInputs) : Prop :=
  authority_width (authority_of in_) ∧ int64 (in_MaximumReplicas in_).

(** C35: admission covers the whole term.  When a lease's terms are accepted, no
    meter inside them can fail or break the ceiling: every positive aggregate
    duration up to the maximum replicas for the full term has a price, and the
    buyer's charge for it is at most the accepted ceiling.  The fixed-point block
    conserves the maximum charge and its gross spread is variable cost plus
    contribution. *)
Theorem admitted_terms_cover st lookup in_ a fp :
  inputs_width in_ → service_lease_terms st lookup in_ = Ok (a, fp) →
  (∀ d, 0 < d ≤ MaximumReplicas a * TermSeconds a * 1000000000 →
     ∃ m, ServiceLeaseMoneyForReplicaDuration (in_Currency in_) a d = Ok m ∧
          Nanos (BuyerCharge m) ≤ AcceptedCeilingNanos fp) ∧
  BuyerChargeNanos fp = SupplierEntitlementsNanos fp + KnownVariableCostsNanos fp + KnownCostContributionNanos fp ∧
  MercGrossSpreadNanos fp = KnownVariableCostsNanos fp + KnownCostContributionNanos fp ∧
  0 < KnownCostContributionNanos fp ∧ BuyerChargeNanos fp ≤ AcceptedCeilingNanos fp.
Proof.
  intros [W I] H. unfold service_lease_terms in H.
  apply bind_Ok in H as (cur & U & H). apply current_currency_usd in U.
  assert (Hc : code (in_Currency in_) ≠ "") by (by rewrite U).
  apply refuse_Ok in H as [_ H]. apply bind_Ok in H as ([] & V & H). apply bind_Ok in H as (rs & R & H).
  apply refuse_Ok in H as [O H]. apply bind_Ok in H as (m & M & H). apply refuse_Ok in H as [Q H]. simplify_eq.
  pose proof (validate_capacity _ _ V) as [C T]. reflect_bools.
  assert (B : 0 < rs ≤ max_int64 / 1000000000 ∧ rs = MaximumReplicas (authority_of in_) * TermSeconds (authority_of in_)).
  { pose proof (max_duration_inv _ _ _ V I R) as ->. split; [|done].
    rewrite Z.quot_div_nonneg in O by done. split; [nia|done]. }
  destruct B as [B ->].
  rewrite wrap64_id in M by (width; Z.to_euclidean_division_equations; lia).
  assert (D : 0 < MaximumReplicas (authority_of in_) * TermSeconds (authority_of in_) * 1000000000 ∧
              int64 (MaximumReplicas (authority_of in_) * TermSeconds (authority_of in_) * 1000000000))
    by (width; Z.to_euclidean_division_equations; lia).
  destruct D as [D ID].
  apply lease_money_inv in M as [-> F]; [|done..].
  pose proof (lease_parts_pos _ _ _ V D) as P. pose proof (validate_rates _ _ V) as (_ & _ & _ & _ & L).
  split_and!.
  - intros d Hd. exists (lease_money (in_Currency in_) (authority_of in_) d).
    pose proof (lease_parts_mono _ _ d _ V ltac:(exact (proj2 Hd))) as N.
    simpl in *. unfold lease_buyer in *. rewrite lease_money_Ok; [split; [done|]|done|done|go_lia|lia|done|]; simpl; unfold lease_buyer; lia.
  - simpl. unfold lease_buyer, lease_variable. simpl. lia.
  - simpl. rewrite wrap64_id by (unfold lease_buyer in F; simpl in P, F |- *; unfold lease_buyer; go_lia).
    unfold lease_buyer, lease_variable. simpl. lia.
  - simpl in P |- *. lia.
  - simpl in *. lia.
Qed.

Definition demo_profile : VLLMRuntimeProfile :=
  mkProfile 1 "profile" "vllm" "0.9" "" "" "" "model" "" "" "" "" "bf16" (f64_of_Z 16) (f64_of_Z 2) 32 1 1 8192
    (f64_lit 9 10) 64 true true (mkGenerationPolicy "v1" (f64_of_Z 0) (f64_of_Z 1) 1024) (f64_lit 1 10) (f64_lit 4 10)
    "MEASURED" "0123456789abcdef0123456789abcdef0123456789abcdef0123456789abcdef".

Definition demo_inputs : ServiceLeasePricingInputs :=
  mkInputs demo_profile
    (mkCurrency "usd" 2) "eu-west" 2 2 3600 500 0 1000000000 100000000 100000000 0 300000000 3000000000.

Lemma admitted_terms_cover_witness :
  ∃ m, ServiceLeaseMoneyForReplicaDuration (mkCurrency "usd" 2) demo_authority 7200000000000 = Ok m ∧
       Nanos (BuyerCharge m) ≤ 3000000000.
Proof.
  refine (proj1 (admitted_terms_cover (mkSettlement true (mkCurrency "usd" 2)) (λ _, Some (Profile demo_inputs)) demo_inputs
    demo_authority (mkFixedPoint "usd" 3000000000 3000000000 2200000000 200000000 800000000 600000000
      serviceLeaseEconomicFinalityBlockers) _ _) 7200000000000 _).
  - split; [split|]; simpl; width; lia.
  - vm_compute. reflexivity.
  - simpl. lia.
Defined.
