(* ===== verification/ServiceLeases.v ===== *)
(** * ServiceLeases: the life of a reserved service ([service_leases.go])

    A lease reserves warm replicas on a worker for a term against a prepaid
    ceiling.  Worker heartbeats meter it; a silent worker is declared lost; a lost
    lease fails over to another worker or is terminated; a buyer cancels it; the
    recovery loop finalizes it at the end of its term.  Terminal operations settle
    the metered money on the ledger and debit the buyer's prepaid balance.

    The state is the set of tables the operations touch.  Each operation is one
    transaction: it returns the new tables or an error, which leaves them as they
    were; the recovery loops run one transaction per lease.  Clock readings inside
    one operation are taken to be equal, in nanoseconds; SQL's [now()] is the same
    reading.  Writing a timestamp column and reading it back is the function
    [stored] of the class below.  The canonical JSON digest of a pricing decision
    and the shape check of its float projections are arguments; the details of
    events, other than their kind, are not kept.  Admission of new leases and offer
    refreshes are not part of this file. *)
From stdpp Require Import base numbers list gmap strings sorting.
From S2P Require Import Prelude.
From S2P Require Import Currency.
From S2P Require Import MoneyNanos.
From S2P Require Import LedgerWrite.
From S2P Require Import Purse.
From S2P Require Import ServiceLeasePricing.
Local Open Scope Z_scope.
Local Open Scope go_scope.

(** A [timestamptz] column keeps microseconds: a written time reads back within
    one microsecond of itself, and a time read from a column is stored exactly. *)
Class TimestampColumn (stored : Z → Z) : Prop := {
  stored_near t : t - 1000 < stored t < t + 1000;
  stored_idem t : stored (stored t) = stored t;
  stored_mono t u : t ≤ u → stored t ≤ stored u
}.

(** The driver's encoding: whole microseconds since the epoch. *)
Definition whole_micros (t : Z) : Z := t / 1000 * 1000.

#[export] Instance whole_micros_column : TimestampColumn whole_micros.
Proof.
  split; unfold whole_micros; intros.
  - Z.to_euclidean_division_equations. lia.
  - by rewrite Z.div_mul.
  - pose proof (Z.div_le_mono t u 1000). lia.
Qed.

(** ** Leases *)

Definition serviceLeaseHeartbeatTimeout : Z := 45000000000.

Inductive lease_state := ACTIVE | UPGRADING | FAILOVER_REQUIRED | COMPLETED | CANCELLED.

#[export] Instance lease_state_eq_dec : EqDecision lease_state.
Proof. solve_decision. Defined.

(** What the lease operations read of the accepted [PricingDecision]; the digest and
    the shape check, which see all of it, are arguments below. *)
Record lease_pricing := mkPricing {
  pd_ExecutionMode : string;
  pd_Currency : string;
  pd_ServiceLease : option ServiceLeasePricingAuthority;
  pd_FixedPoint : option FixedPointPricingDecision
}.

Definition pricingExecutionServiceLease : string := "service_lease".

(** The columns frozen at admission. *)
Record lease_terms := mkTerms {
  sl_ID : UUID;
  sl_BuyerID : UUID;
  sl_ProfileID : string;
  sl_ProfileSHA256 : string;
  sl_Region : string;
  sl_MinimumReplicas : Z;
  sl_MaximumReplicas : Z;
  sl_MaximumP95 : Z;
  sl_MaximumP99 : Z;
  sl_TermSeconds : Z;
  ReservedBuyerMicros : Z;
  PricingAcceptanceID : option UUID;
  Pricing : lease_pricing;
  sl_PricingSHA256 : string;
  StartedAt : Z;
  ExpiresAt : Z
}.

(** The columns every meter rewrites. *)
Record lease_meter := mkMeter {
  LastMeteredAt : Z;
  CumulativeReplicaNanos : Z;
  sl_BuyerChargeNanos : Z;
  SupplierPayableNanos : Z;
  KnownVariableCostNanos : Z;
  KnownContributionNanos : Z
}.

Record ServiceLease := mkLease {
  terms : lease_terms;
  WorkerID : UUID;
  sl_SupplierID : UUID;
  sl_State : lease_state;
  ActiveReplicas : Z;
  UpgradeGeneration : string;
  LastWorkerHeartbeatAt : Z;
  meter : lease_meter;
  FinalizedAt : option Z
}.

Definition with_meter (l : ServiceLease) (m : lease_meter) : ServiceLease :=
  mkLease (terms l) (WorkerID l) (sl_SupplierID l) (sl_State l) (ActiveReplicas l) (UpgradeGeneration l)
    (LastWorkerHeartbeatAt l) m (FinalizedAt l).

Definition with_state (l : ServiceLease) (state : lease_state) (replicas : Z) (finalized : option Z) : ServiceLease :=
  mkLease (terms l) (WorkerID l) (sl_SupplierID l) state replicas (UpgradeGeneration l)
    (LastWorkerHeartbeatAt l) (meter l) finalized.

Definition is_terminal (state : lease_state) : bool :=
  match state with COMPLETED | CANCELLED => true | _ => false end.

(** The row checks of [service_leases] on the columns the operations change. *)
Definition lease_checks (l : ServiceLease) : bool :=
  (0 <=? ActiveReplicas l) && (ActiveReplicas l <=? sl_MaximumReplicas (terms l)) &&
  ((sl_MinimumReplicas (terms l) <=? ActiveReplicas l) ||
   bool_decide (sl_State l = FAILOVER_REQUIRED) || is_terminal (sl_State l)) &&
  Bool.eqb (is_terminal (sl_State l)) (bool_decide (FinalizedAt l ≠ None)) &&
  (0 <=? CumulativeReplicaNanos (meter l)) && (0 <=? sl_BuyerChargeNanos (meter l)) &&
  (0 <=? SupplierPayableNanos (meter l)) && (0 <=? KnownVariableCostNanos (meter l)) &&
  (0 <=? KnownContributionNanos (meter l)).

(** ** Tables *)

Record metering := mkMetering {
  mt_lease : UUID; mt_sequence : Z; metered_at : Z; mt_cumulative : Z;
  mt_buyer : Z; mt_supplier : Z; mt_variable : Z; mt_contribution : Z
}.

Record supplier_metering := mkSupplierMetering {
  sm_lease : UUID; sm_sequence : Z; sm_supplier : UUID; supplier_payable_delta_nanos : Z
}.

(** The columns of an offer that selection and release read. *)
Record worker_offer := mkOffer {
  of_supplier : UUID;
  of_profile_sha256 : string;
  maximum_warm_replicas : Z;
  available_warm_replicas : Z;
  of_supplier_rate : Z;
  of_residency_rate : Z;
  of_currency : string;
  of_p95 : Z;
  of_p99 : Z;
  latency_measurement_count : Z;
  latency_window_seconds : Z;
  latency_measurement_kind : string;
  of_status : string;
  last_seen_at : Z
}.

(** Worker, runtime profile, region. *)
Definition offer_key : Type := UUID * string * string.

Record store := mkStore {
  leases : gmap UUID ServiceLease;
  meterings : list metering;
  supplier_meterings : list supplier_metering;
  lease_events : list (UUID * string);
  worker_offers : gmap offer_key worker_offer;
  offer_samples : list (offer_key * Z);
  books : db;
  balances : gmap (UUID * string) Z
}.

Definition with_leases (s : store) (x : gmap UUID ServiceLease) : store :=
  mkStore x (meterings s) (supplier_meterings s) (lease_events s) (worker_offers s) (offer_samples s) (books s) (balances s).

Definition with_meterings (s : store) (x : list metering) (y : list supplier_metering) : store :=
  mkStore (leases s) x y (lease_events s) (worker_offers s) (offer_samples s) (books s) (balances s).

Definition add_event (s : store) (id : UUID) (kind : string) : store :=
  mkStore (leases s) (meterings s) (supplier_meterings s) (lease_events s ++ [(id, kind)]) (worker_offers s)
    (offer_samples s) (books s) (balances s).

Definition with_offers (s : store) (x : gmap offer_key worker_offer) (y : list (offer_key * Z)) : store :=
  mkStore (leases s) (meterings s) (supplier_meterings s) (lease_events s) x y (books s) (balances s).

Definition with_books (s : store) (x : db) (y : gmap (UUID * string) Z) : store :=
  mkStore (leases s) (meterings s) (supplier_meterings s) (lease_events s) (worker_offers s) (offer_samples s) x y.

(** [time.Time.Sub] saturates. *)
Definition time_Sub (t u : Z) : Z := Z.max min_int64 (Z.min max_int64 (t - u)).

Section Operations.
Context (stored : Z → Z).
Context (pricingDecisionDigest : lease_pricing → res string).
Context (validatePricingCostShape : lease_pricing → res unit).
Context (st : settlement).

(** ** Reading and writing a lease *)

Definition decodeServiceLeasePricing (pricing : lease_pricing) (digest : string) : res lease_pricing :=
  match pricingDecisionDigest pricing with
  | Err _ => Err (Errorf "service lease pricing authority digest is invalid")
  | Ok actual =>
      refuse (Errorf "service lease pricing authority digest is invalid")
        if negb (bool_decide (actual = digest)) ||
           negb (bool_decide (pd_ExecutionMode pricing = pricingExecutionServiceLease)) ||
           bool_decide (pd_ServiceLease pricing = None);
      _ ← validatePricingCostShape pricing;
      Ok pricing
  end.

Definition validateServiceLeaseAcceptedPricingBinding (t : lease_terms) : res unit :=
  match pd_ServiceLease (Pricing t), pd_FixedPoint (Pricing t) with
  | Some a, Some f =>
      refuse (Errorf "service lease row differs from its accepted pricing authority")
        if negb (bool_decide (RuntimeProfileID a = sl_ProfileID t)) ||
           negb (bool_decide (RuntimeProfileSHA256 a = sl_ProfileSHA256 t)) ||
           negb (bool_decide (Region a = sl_Region t)) ||
           negb (MinimumReplicas a =? sl_MinimumReplicas t) || negb (MaximumReplicas a =? sl_MaximumReplicas t) ||
           negb (TermSeconds a =? sl_TermSeconds t) ||
           negb (MaximumP95LatencyMilliseconds a =? sl_MaximumP95 t) ||
           negb (MaximumP99LatencyMilliseconds a =? sl_MaximumP99 t);
      refuse (Errorf "service lease pricing acceptance reference differs from lease identity")
        if match PricingAcceptanceID t with Some p => negb (bool_decide (p = sl_ID t)) | None => false end;
      refuse (Errorf "accepted service lease must retain a positive prepaid reservation")
        if bool_decide (PricingAcceptanceID t ≠ None) && (ReservedBuyerMicros t <=? 0);
      if 0 <? ReservedBuyerMicros t then
        currency ← ParseCurrency (pd_Currency (Pricing t));
        match LedgerMicrosFromNanos (mkMoneyNanos currency (AcceptedCeilingNanos f)) with
        | Err _ => Err (Errorf "service lease prepaid reservation differs from accepted pricing ceiling")
        | Ok reserved =>
            refuse (Errorf "service lease prepaid reservation differs from accepted pricing ceiling")
              if negb (reserved =? ReservedBuyerMicros t);
            Ok tt
        end
      else Ok tt
  | _, _ => Err (Errorf "service lease lacks accepted pricing authority")
  end.

(** [SELECT ... FOR UPDATE] of one lease, decoded. *)
Definition scanServiceLease (s : store) (id : UUID) : res ServiceLease :=
  match leases s !! id with
  | None => Err errNotFound
  | Some l =>
      _ ← decodeServiceLeasePricing (Pricing (terms l)) (sl_PricingSHA256 (terms l));
      _ ← validateServiceLeaseAcceptedPricingBinding (terms l);
      Ok l
  end.

(** What the row holds after an [UPDATE]: the timestamps pass through their columns. *)
Definition persisted (l : ServiceLease) : ServiceLease :=
  let m := meter l in
  mkLease (terms l) (WorkerID l) (sl_SupplierID l) (sl_State l) (ActiveReplicas l) (UpgradeGeneration l)
    (stored (LastWorkerHeartbeatAt l))
    (mkMeter (stored (LastMeteredAt m)) (CumulativeReplicaNanos m) (sl_BuyerChargeNanos m)
       (SupplierPayableNanos m) (KnownVariableCostNanos m) (KnownContributionNanos m))
    (stored <$> FinalizedAt l).

Definition update_lease (s : store) (l : ServiceLease) : res store :=
  refuse errCheckViolation if negb (lease_checks l);
  Ok (with_leases s (<[sl_ID (terms l) := persisted l]> (leases s))).

(** ** Metering *)

(** [COALESCE(max(sequence),0)+1]. *)
Definition next_sequence (s : store) (id : UUID) : Z :=
  foldr (λ m acc, if bool_decide (mt_lease m = id) then Z.max (mt_sequence m) acc else acc) 0 (meterings s) + 1.

Definition metering_checks (m : metering) : bool :=
  (0 <? mt_sequence m) && (0 <=? mt_cumulative m) && (0 <=? mt_buyer m) && (0 <=? mt_supplier m) &&
  (0 <=? mt_variable m) && (0 <=? mt_contribution m).

Definition record_meter (s : store) (l : ServiceLease) (at_ cumulative : Z) (money : ServiceLeaseMoney) (variable : Z) :
    res (store * ServiceLease) :=
  let id := sl_ID (terms l) in
  let sequence := next_sequence s id in
  let row := mkMetering id sequence (stored at_) cumulative (Nanos (BuyerCharge money))
               (Nanos (SupplierPayable money)) variable (Nanos (MercContribution money)) in
  refuse errCheckViolation if negb (metering_checks row);
  let supplierDelta := Nanos (SupplierPayable money) -w SupplierPayableNanos (meter l) in
  refuse (Errorf "service lease supplier payable moved backward") if supplierDelta <? 0;
  let s := with_meterings s (meterings s ++ [row])
             (supplier_meterings s ++ [mkSupplierMetering id sequence (sl_SupplierID l) supplierDelta]) in
  Ok (add_event s id "METERED",
      with_meter l (mkMeter at_ cumulative (Nanos (BuyerCharge money)) (Nanos (SupplierPayable money)) variable
                      (Nanos (MercContribution money)))).

Definition meterServiceLeaseTx (s : store) (l : ServiceLease) (at_ : Z) : res (store * ServiceLease) :=
  let m := meter l in
  refuse (Errorf "service lease meter time moved backward") if at_ <? LastMeteredAt m;
  let at_ := if ExpiresAt (terms l) <? at_ then ExpiresAt (terms l) else at_ in
  if at_ <=? LastMeteredAt m then Ok (s, l)
  else
    match mulDiv (ActiveReplicas l) (time_Sub at_ (LastMeteredAt m)) 1 false with
    | Err _ => Err (Errorf "service lease replica-time overflow")
    | Ok add =>
        refuse (Errorf "service lease replica-time overflow")
          if (add <? 0) || (max_int64 -w add <? CumulativeReplicaNanos m);
        let cumulative := CumulativeReplicaNanos m +w add in
        if cumulative <=? 0 then
          Ok (s, with_meter l (mkMeter at_ cumulative (sl_BuyerChargeNanos m) (SupplierPayableNanos m)
                                 (KnownVariableCostNanos m) (KnownContributionNanos m)))
        else
          match MustParseCurrency (pd_Currency (Pricing (terms l))), pd_ServiceLease (Pricing (terms l)),
                pd_FixedPoint (Pricing (terms l)) with
          | Some c, Some authority, Some fixed =>
              money ← ServiceLeaseMoneyForReplicaDuration c authority cumulative;
              match serviceLeaseKnownVariableNanos authority money with
              | Err _ => Err (Errorf "service lease meter violates reserved ceiling or exact cost bounds")
              | Ok variable =>
                  refuse (Errorf "service lease meter violates reserved ceiling or exact cost bounds")
                    if AcceptedCeilingNanos fixed <? Nanos (BuyerCharge money);
                  record_meter s l at_ cumulative money variable
              end
          | _, _, _ => Err errPanic
          end
    end.

(** ** Terminal settlement *)

Record liabilityAuthority := mkLiability {
  la_PricingDecisionSHA256 : string;
  la_LaneSettlementID : string;
  la_LifecycleRevision : string
}.

Definition liabilityAuthority_validate (a : liabilityAuthority) : res unit :=
  let sha := trim_space (la_PricingDecisionSHA256 a) in
  let rev := trim_space (la_LifecycleRevision a) in
  refuse (Errorf "liability authority requires pricing_decision_sha256 or lane_settlement_id")
    if bool_decide (sha = "") && bool_decide (trim_space (la_LaneSettlementID a) = "");
  refuse (Errorf "liability pricing_decision_sha256 %q is not a sha256 hex digest")
    if negb (bool_decide (sha = "")) && negb (validSHA256 sha);
  refuse (Errorf "unknown liability lifecycle revision %q")
    if negb (bool_decide (rev = "")) && negb (bool_decide (rev = liabilityLifecycleRevision));
  Ok tt.

Definition applyLiabilityAuthority (e : ledgerInsert) (a : liabilityAuthority) : res ledgerInsert :=
  _ ← liabilityAuthority_validate a;
  Ok (mkLedgerInsert (Kind e) (SupplierID e) (BuyerID e) (TaskID e) (ExecutionContractID e) (AmountMicros e)
        (li_Currency e) (CurrencyAuthority e) (BoundJobCurrency e) (PayoutStatus e) (ReleaseAt e) (PayoutRef e)
        (trim_space (la_PricingDecisionSHA256 a)) (trim_space (la_LifecycleRevision a))
        (trim_space (la_LaneSettlementID a))).

Definition with_ref (e : ledgerInsert) (reference : string) : ledgerInsert :=
  mkLedgerInsert (Kind e) (SupplierID e) (BuyerID e) (TaskID e) (ExecutionContractID e) (AmountMicros e)
    (li_Currency e) (CurrencyAuthority e) (BoundJobCurrency e) (PayoutStatus e) (ReleaseAt e) reference
    (PricingDecisionSHA256 e) (LifecycleRevision e) (LaneSettlementID e).

Definition PayoutHeld : string := "held".
Definition minimumPayoutHold : Z := 86400000000000.

(** [payoutReleaseAt(now, 0)]: the minimum hold applies. *)
Definition payoutReleaseAt (now requestedSecs : Z) : Z :=
  let hold := requestedSecs *w 1000000000 in
  now + (if hold <? minimumPayoutHold then minimumPayoutHold else hold).

Definition serviceLeaseLedgerRef (leaseID : UUID) (kind : string) : string :=
  "service-lease-ledger-" +:+ uuid_String leaseID +:+ ":" +:+ kind.

Definition serviceLeaseSupplierCreditLedgerRef (leaseID supplierID : UUID) : string :=
  serviceLeaseLedgerRef leaseID KindSupplierCredit +:+ ":" +:+ uuid_String supplierID.

Definition prepaidServiceLeaseDebitRef (leaseID : UUID) : string :=
  "prepaid-service-lease-" +:+ uuid_String leaseID.

Definition insertServiceLeaseLedgerEntryTx (d : db) (leaseID : UUID) (reference : string) (entry : ledgerInsert) : res db :=
  refuse (Errorf "service ledger entry requires a lease") if bool_decide (leaseID = uuid_Nil);
  refuse (Errorf "service ledger entry requires an immutable reference") if bool_decide (reference = "");
  let entry := with_ref entry reference in
  '(n, d) ← insertLedgerEntryIfAbsentByRefTx st d entry;
  if n =? 1 then Ok d
  else
    resolved ← resolveLedgerInsert st entry;
    match ledger_by_ref d (Kind resolved) (PayoutRef resolved) with
    | None => Err errNoRows
    | Some r =>
        refuse (Errorf "conflicting terminal service ledger entry %s for lease %s")
          if negb (amount_micros r =? AmountMicros resolved) ||
             negb (sameOptionalUUID (buyer_id r) (BuyerID resolved)) ||
             negb (sameOptionalUUID (supplier_id r) (SupplierID resolved)) ||
             negb (bool_decide (row_currency r = li_Currency resolved));
        Ok d
    end.

(** [GROUP BY supplier_id ORDER BY supplier_id] over the meter deltas of a lease. *)
Definition supplier_deltas (s : store) (leaseID : UUID) : list supplier_metering :=
  filter (λ r, sm_lease r = leaseID) (supplier_meterings s).

Definition delta_sum (rows : list supplier_metering) : Z :=
  foldr (λ r acc, supplier_payable_delta_nanos r + acc) 0 rows.

Definition supplier_total (s : store) (leaseID supplier : UUID) : Z :=
  delta_sum (filter (λ r, sm_supplier r = supplier) (supplier_deltas s leaseID)).

Definition lease_suppliers (s : store) (leaseID : UUID) : list UUID :=
  merge_sort N.le (remove_dups (sm_supplier <$> supplier_deltas s leaseID)).

Definition serviceLeaseSupplierPayables (s : store) (leaseID : UUID) : res (list (UUID * Z)) :=
  let payables := (λ u, (u, supplier_total s leaseID u)) <$> lease_suppliers s leaseID in
  refuse errOutOfRange if existsb (λ p, negb (is_int64 p.2)) payables;
  refuse (Errorf "service supplier meter contains invalid payable attribution")
    if existsb (λ p, bool_decide (p.1 = uuid_Nil) || (p.2 <? 0)) payables;
  Ok payables.

(** The credit of one supplier. *)
Definition supplier_credit_entry (currency : Currency) (supplier : UUID) (creditMicros now : Z) : ledgerInsert :=
  mkLedgerInsert KindSupplierCredit (Some supplier) None None None creditMicros (code currency) "" ""
    PayoutHeld (Some (payoutReleaseAt now 0)) "" "" "" "".

(** The loop over the payables: the attributed nanos, the credited micros, the books. *)
Fixpoint credit_suppliers (d : db) (leaseID : UUID) (currency : Currency) (auth : liabilityAuthority) (now : Z)
    (payables : list (UUID * Z)) (payableNanos supplierMicros : Z) : res (Z * Z * db) :=
  match payables with
  | [] => Ok (payableNanos, supplierMicros, d)
  | (supplier, nanos) :: rest =>
      refuse (Errorf "service supplier payable attribution overflow") if max_int64 -w payableNanos <? nanos;
      let payableNanos := payableNanos +w nanos in
      if nanos =? 0 then credit_suppliers d leaseID currency auth now rest payableNanos supplierMicros
      else
        creditMicros ← LedgerMicrosFromNanos (mkMoneyNanos currency nanos);
        refuse (Errorf "service supplier ledger projection is invalid")
          if (creditMicros <=? 0) || (max_int64 -w supplierMicros <? creditMicros);
        let supplierMicros := supplierMicros +w creditMicros in
        credit ← applyLiabilityAuthority (supplier_credit_entry currency supplier creditMicros now) auth;
        d ← insertServiceLeaseLedgerEntryTx d leaseID (serviceLeaseSupplierCreditLedgerRef leaseID supplier) credit;
        credit_suppliers d leaseID currency auth now rest payableNanos supplierMicros
  end.

Definition debitPrepaidForServiceLeaseTx (s : store) (buyerID leaseID : UUID) (amountMicros : Z) : res store :=
  refuse (Errorf "prepaid service debit requires buyer, lease, and positive ledger micros")
    if bool_decide (leaseID = uuid_Nil);
  match leases s !! leaseID with
  | Some l =>
      refuse errNoRows if negb (bool_decide (sl_BuyerID (terms l) = buyerID));
      p ← debitPrepaidByRefTx st (mkPurse (books s) (balances s)) buyerID amountMicros (pd_Currency (Pricing (terms l)))
            (prepaidServiceLeaseDebitRef leaseID)
            "prepaid service debit requires buyer, lease, and positive ledger micros"
            "conflicting prepaid service debit for lease %s";
      Ok (with_books s (purse_books p) (purse_balances p))
  | None => Err errNoRows
  end.

Definition buyer_charge_entry (currency : Currency) (buyer : UUID) (buyerMicros : Z) : ledgerInsert :=
  mkLedgerInsert KindBuyerCharge None (Some buyer) None None (- buyerMicros) (code currency) "" ""
    PayoutReleased None "" "" "" "".

Definition platform_take_entry (currency : Currency) (platformMicros : Z) : ledgerInsert :=
  mkLedgerInsert KindPlatformTake None None None None platformMicros (code currency) "" ""
    PayoutReleased None "" "" "" "".

(** The writes after the checks: charge, prepaid debit, platform take. *)
Definition settle_writes (s : store) (t : lease_terms) (currency : Currency) (auth : liabilityAuthority)
    (buyerMicros supplierMicros : Z) : res store :=
  let platformMicros := buyerMicros -w supplierMicros in
  refuse (Errorf "service terminal ledger projection has negative platform gross") if platformMicros <? 0;
  buyerCharge ← applyLiabilityAuthority (buyer_charge_entry currency (sl_BuyerID t) buyerMicros) auth;
  d ← insertServiceLeaseLedgerEntryTx (books s) (sl_ID t) (serviceLeaseLedgerRef (sl_ID t) KindBuyerCharge) buyerCharge;
  s ← debitPrepaidForServiceLeaseTx (with_books s d (balances s)) (sl_BuyerID t) (sl_ID t) buyerMicros;
  platformTake ← applyLiabilityAuthority (platform_take_entry currency platformMicros) auth;
  d ← insertServiceLeaseLedgerEntryTx (books s) (sl_ID t) (serviceLeaseLedgerRef (sl_ID t) KindPlatformTake) platformTake;
  Ok (with_books s d (balances s)).

Definition settleFinalServiceLeaseTx (s : store) (l : ServiceLease) (now : Z) : res store :=
  let t := terms l in
  refuse (Errorf "service terminal settlement requires an accepted lease") if bool_decide (sl_ID t = uuid_Nil);
  if ReservedBuyerMicros t <=? 0 then
    refuse (Errorf "accepted service lease has no positive frozen prepaid reservation")
      if bool_decide (PricingAcceptanceID t ≠ None);
    Ok s
  else
    _ ← validateServiceLeaseAcceptedPricingBinding t;
    gotSHA ← (match pricingDecisionDigest (Pricing t) with
              | Err err => Err (Wrapf err "service lease terminal pricing digest: %w")
              | Ok sha => Ok sha
              end);
    refuse (Errorf "service lease terminal pricing digest mismatch for lease %s")
      if bool_decide (sl_PricingSHA256 t = "") || negb (bool_decide (gotSHA = sl_PricingSHA256 t));
    let auth := mkLiability (sl_PricingSHA256 t) (uuid_String (sl_ID t)) "" in
    _ ← liabilityAuthority_validate auth;
    currency ← (match ParseCurrency (pd_Currency (Pricing t)) with
                | Err err => Err (Wrapf err "service settlement currency: %w")
                | Ok c => Ok c
                end);
    buyerMicros ← LedgerMicrosFromNanos (mkMoneyNanos currency (sl_BuyerChargeNanos (meter l)));
    payables ← serviceLeaseSupplierPayables s (sl_ID t);
    '(payableNanos, supplierMicros, d) ← credit_suppliers (books s) (sl_ID t) currency auth now payables 0 0;
    refuse (Errorf "service terminal ledger projection violates frozen prepaid or supplier bounds: buyer=%d supplier=%d reserved=%d attributed_nanos=%d aggregate_nanos=%d")
      if negb (payableNanos =? SupplierPayableNanos (meter l)) || (buyerMicros <=? 0) || (supplierMicros <=? 0) ||
         (buyerMicros <? supplierMicros) || (ReservedBuyerMicros t <? buyerMicros);
    settle_writes (with_books s d (balances s)) t currency auth buyerMicros supplierMicros.

(** ** Capacity *)

Definition offer_key_of (l : ServiceLease) (worker : UUID) : offer_key :=
  (worker, sl_ProfileID (terms l), sl_Region (terms l)).

Definition with_available (o : worker_offer) (n : Z) : worker_offer :=
  mkOffer (of_supplier o) (of_profile_sha256 o) (maximum_warm_replicas o) n (of_supplier_rate o)
    (of_residency_rate o) (of_currency o) (of_p95 o) (of_p99 o) (latency_measurement_count o)
    (latency_window_seconds o) (latency_measurement_kind o) (of_status o) (last_seen_at o).

(** [UPDATE service_lease_worker_offers SET available_warm_replicas = ... WHERE key]. *)
Definition set_available (s : store) (key : offer_key) (f : worker_offer → Z) : store :=
  match worker_offers s !! key with
  | Some o => with_offers s (<[key := with_available o (f o)]> (worker_offers s)) (offer_samples s)
  | None => s
  end.

Definition recordServiceLeaseOfferSampleTx (s : store) (key : offer_key) : res store :=
  match worker_offers s !! key with
  | Some o => Ok (with_offers s (worker_offers s) (offer_samples s ++ [(key, available_warm_replicas o)]))
  | None => Err errNoRows
  end.

(** The release shared by cancellation, termination and expiry. *)
Definition release_capacity (s : store) (l : ServiceLease) : res store :=
  let key := offer_key_of l (WorkerID l) in
  recordServiceLeaseOfferSampleTx
    (set_available s key (λ o, Z.min (maximum_warm_replicas o) (available_warm_replicas o + sl_MaximumReplicas (terms l))))
    key.

(** ** Heartbeats *)

Record ServiceLeaseHeartbeat := mkHeartbeat {
  WarmReplicas : Z;
  P95LatencyMillis : Z;
  P99LatencyMillis : Z;
  LatencyMeasurementCount : Z;
  LatencyWindowSeconds : Z;
  LatencyMeasurementKind : string;
  DataPlaneProbeReceiptSHA256 : string;
  hb_Status : string;
  hb_UpgradeGeneration : string
}.

Definition heartbeat_slo (t : lease_terms) (h : ServiceLeaseHeartbeat) : res unit :=
  let ready := bool_decide (hb_Status h = "READY") in
  refuse (Errorf "service lease heartbeat violates reserved replica or latency SLO")
    if ready && ((WarmReplicas h <? sl_MinimumReplicas t) || (sl_MaximumReplicas t <? WarmReplicas h) ||
                 (sl_MaximumP95 t <? P95LatencyMillis h));
  refuse (Errorf "service lease heartbeat violates reserved p99 latency SLO")
    if ready && (0 <? sl_MaximumP99 t) && ((P99LatencyMillis h <=? 0) || (sl_MaximumP99 t <? P99LatencyMillis h));
  refuse (Errorf "ready service lease heartbeat requires a recent five-sample data-plane latency measurement")
    if ready && (negb (bool_decide (LatencyMeasurementKind h = "DATA_PLANE_COMPLETIONS_V1")) ||
                 (LatencyMeasurementCount h <? 5) || (LatencyWindowSeconds h <? 1) || (300 <? LatencyWindowSeconds h));
  refuse (Errorf "ready service lease heartbeat requires the bounded data-plane probe receipt digest")
    if ready && negb (validSHA256 (DataPlaneProbeReceiptSHA256 h));
  refuse (Errorf "only a ready service lease heartbeat may carry a data-plane probe receipt digest")
    if negb ready && negb (bool_decide (DataPlaneProbeReceiptSHA256 h = ""));
  Ok tt.

(** The [switch] on the status: the next state and replicas, with its events. *)
Definition heartbeat_transition (s : store) (l : ServiceLease) (h : ServiceLeaseHeartbeat) :
    res (store * lease_state * Z) :=
  let id := sl_ID (terms l) in
  if bool_decide (hb_Status h = "READY") then
    let s := add_event s id "SLO_MEASURED" in
    if bool_decide (sl_State l = UPGRADING) then
      refuse (Errorf "rolling upgrade completion requires a new generation")
        if bool_decide (hb_UpgradeGeneration h = "") || bool_decide (hb_UpgradeGeneration h = UpgradeGeneration l);
      Ok (add_event s id "ROLLING_UPDATE_COMPLETED", ACTIVE, WarmReplicas h)
    else Ok (s, sl_State l, WarmReplicas h)
  else if bool_decide (hb_Status h = "DRAINING") then
    match pd_ServiceLease (Pricing (terms l)) with
    | None => Err errPanic
    | Some a =>
        refuse (Errorf "rolling update requires a non-empty generation")
          if negb (MinimumReplicasIsOneOrMore a) || bool_decide (hb_UpgradeGeneration h = "");
        Ok (add_event s id "ROLLING_UPDATE_STARTED", UPGRADING, sl_MinimumReplicas (terms l))
    end
  else if bool_decide (hb_Status h = "FAILED") then
    Ok (add_event s id "WORKER_LOSS", FAILOVER_REQUIRED, 0)
  else Ok (s, sl_State l, WarmReplicas h).

Definition HeartbeatServiceLease (s : store) (now : Z) (worker supplier leaseID : UUID) (h : ServiceLeaseHeartbeat) :
    res store :=
  refuse (Errorf "invalid service lease heartbeat")
    if bool_decide (leaseID = uuid_Nil) || (WarmReplicas h <? 0) || (P95LatencyMillis h <? 0) ||
       (P99LatencyMillis h <? 0) || (LatencyMeasurementCount h <? 0) || (LatencyWindowSeconds h <? 0);
  refuse (Errorf "invalid service lease heartbeat status")
    if negb (one_of (hb_Status h) ["READY"; "DRAINING"; "FAILED"]);
  l ← scanServiceLease s leaseID;
  refuse (Errorf "worker is not authorized to meter this active service lease")
    if negb (bool_decide (WorkerID l = worker)) || negb (bool_decide (sl_SupplierID l = supplier)) ||
       is_terminal (sl_State l);
  '(s, l) ← meterServiceLeaseTx s l now;
  _ ← heartbeat_slo (terms l) h;
  '(s, nextState, nextReplicas) ← heartbeat_transition s l h;
  update_lease s (mkLease (terms l) (WorkerID l) (sl_SupplierID l) nextState nextReplicas (hb_UpgradeGeneration h)
                    now (meter l) (FinalizedAt l)).

(** ** Ending a lease *)

(** The check of cancellation and termination on the micros the charge uses. *)
Definition used_micros (l : ServiceLease) : res Z :=
  if 0 <? sl_BuyerChargeNanos (meter l) then
    currency ← ParseCurrency (pd_Currency (Pricing (terms l)));
    LedgerMicrosFromNanos (mkMoneyNanos currency (sl_BuyerChargeNanos (meter l)))
  else Ok 0.

(** The steps cancellation and termination share after metering. *)
Definition close_cancelled (s : store) (l : ServiceLease) (now : Z) (kind violation : string) : res (store * ServiceLease) :=
  s ← (if 0 <? sl_BuyerChargeNanos (meter l) then settleFinalServiceLeaseTx s l now else Ok s);
  usedMicros ← used_micros l;
  refuse (Errorf violation) if (usedMicros <? 0) || (ReservedBuyerMicros (terms l) <? usedMicros);
  let closed := with_state l CANCELLED 0 (Some now) in
  s ← update_lease s closed;
  s ← release_capacity s l;
  Ok (add_event s (sl_ID (terms l)) kind, closed).

Definition cancel_cutoff (l : ServiceLease) (now : Z) : Z :=
  if ExpiresAt (terms l) <=? now then ExpiresAt (terms l)
  else if bool_decide (sl_State l = ACTIVE) || bool_decide (sl_State l = UPGRADING) then
    let cutoff := Z.min (LastWorkerHeartbeatAt l) now in
    Z.max cutoff (LastMeteredAt (meter l))
  else LastMeteredAt (meter l).

Definition CancelServiceLease (s : store) (now : Z) (buyerID leaseID : UUID) : res (store * ServiceLease * bool) :=
  refuse (Errorf "service lease cancellation requires buyer and lease identity")
    if bool_decide (buyerID = uuid_Nil) || bool_decide (leaseID = uuid_Nil);
  l ← (match leases s !! leaseID with
       | Some l => if bool_decide (sl_BuyerID (terms l) = buyerID) then scanServiceLease s leaseID else Err errNotFound
       | None => Err errNotFound
       end);
  if is_terminal (sl_State l) then Ok (s, l, false)
  else
    '(s, l) ← meterServiceLeaseTx s l (cancel_cutoff l now);
    '(s, l) ← close_cancelled s l now "CANCELLED" "service lease cancellation violates frozen prepaid reservation";
    Ok (s, l, true).

Definition TerminateServiceLeaseNoReplacement (s : store) (now : Z) (leaseID : UUID) : res (store * bool) :=
  refuse (Errorf "service lease termination requires lease identity") if bool_decide (leaseID = uuid_Nil);
  l ← scanServiceLease s leaseID;
  if negb (bool_decide (sl_State l = FAILOVER_REQUIRED)) || (ExpiresAt (terms l) <=? now) then Ok (s, false)
  else
    '(s, l) ← meterServiceLeaseTx s l (LastMeteredAt (meter l));
    '(s, l) ← close_cancelled s l now "FAILOVER_TERMINATED" "service lease failover termination violates frozen prepaid reservation";
    Ok (s, true).

Definition finalizeExpiredServiceLease (s : store) (now : Z) (leaseID : UUID) : res (store * bool) :=
  l ← scanServiceLease s leaseID;
  if is_terminal (sl_State l) || (now <? ExpiresAt (terms l)) then Ok (s, false)
  else
    '(s, l) ← meterServiceLeaseTx s l (ExpiresAt (terms l));
    s ← settleFinalServiceLeaseTx s l now;
    s ← update_lease s (with_state l COMPLETED (ActiveReplicas l) (Some now));
    s ← release_capacity s l;
    Ok (add_event s leaseID "EXPIRED", true).

(** ** Recovery *)

Definition markServiceLeaseWorkerLost (s : store) (leaseID : UUID) : res (store * bool) :=
  l ← scanServiceLease s leaseID;
  if negb (bool_decide (sl_State l = ACTIVE)) && negb (bool_decide (sl_State l = UPGRADING)) then Ok (s, false)
  else
    '(s, l) ← meterServiceLeaseTx s l (LastWorkerHeartbeatAt l);
    s ← update_lease s (with_state l FAILOVER_REQUIRED 0 (FinalizedAt l));
    Ok (add_event s leaseID "WORKER_LOSS", true).

(** Does an offer fit the frozen terms of a lost lease? *)
Definition replacement_fits (l : ServiceLease) (a : ServiceLeasePricingAuthority) (now : Z) (key : offer_key) (o : worker_offer) : bool :=
  let '(worker, profile, region) := key in
  let t := terms l in
  bool_decide (profile = sl_ProfileID t) && bool_decide (of_profile_sha256 o = sl_ProfileSHA256 t) &&
  bool_decide (region = sl_Region t) && bool_decide (of_status o = "READY") &&
  (0 <? of_p95 o) && (5 <=? latency_measurement_count o) &&
  (1 <=? latency_window_seconds o) && (latency_window_seconds o <=? 300) &&
  bool_decide (latency_measurement_kind o = "DATA_PLANE_COMPLETIONS_V1") &&
  (of_p95 o <=? sl_MaximumP95 t) &&
  ((sl_MaximumP99 t =? 0) || ((0 <? of_p99 o) && (of_p99 o <=? sl_MaximumP99 t))) &&
  negb (bool_decide (worker = WorkerID l)) && (now - 45000000000 <? last_seen_at o) &&
  (sl_MaximumReplicas t <=? available_warm_replicas o) &&
  (of_supplier_rate o <=? SupplierNanosPerReplicaHour a) && (of_residency_rate o <=? ResidencyNanosPerReplicaHour a) &&
  bool_decide (of_currency o = pd_Currency (Pricing t)).

(** [ORDER BY (supplier + residency), worker_id]. *)
Definition ask_before (x y : offer_key * worker_offer) : Prop :=
  of_supplier_rate x.2 + of_residency_rate x.2 < of_supplier_rate y.2 + of_residency_rate y.2 ∨
  (of_supplier_rate x.2 + of_residency_rate x.2 = of_supplier_rate y.2 + of_residency_rate y.2 ∧
   (x.1.1.1 ≤ y.1.1.1)%N).

#[local] Instance ask_before_dec : RelDecision ask_before.
Proof using. unfold ask_before. intros x y. apply _. Defined.

(** [FOR UPDATE SKIP LOCKED LIMIT 1]: [locked] are the rows other sessions hold. *)
Definition replacement (s : store) (l : ServiceLease) (a : ServiceLeasePricingAuthority) (now : Z) (locked : offer_key → bool) :
    option (offer_key * worker_offer) :=
  head (merge_sort ask_before
          (filter (λ p, replacement_fits l a now p.1 p.2 && negb (locked p.1) = true) (map_to_list (worker_offers s)))).

Definition FailoverServiceLease (s : store) (now : Z) (locked : offer_key → bool) (leaseID : UUID) : res (store * bool) :=
  l ← scanServiceLease s leaseID;
  if negb (bool_decide (sl_State l = FAILOVER_REQUIRED)) || (ExpiresAt (terms l) <=? now) then Ok (s, false)
  else
    match pd_ServiceLease (Pricing (terms l)) with
    | None => Err errPanic
    | Some a =>
        match replacement s l a now locked with
        | None => Ok (s, false)
        | Some (key, o) =>
            '(s, l) ← meterServiceLeaseTx s l now;
            let s := if sl_MaximumReplicas (terms l) <=? available_warm_replicas o
                     then set_available s key (λ o, available_warm_replicas o - sl_MaximumReplicas (terms l)) else s in
            s ← recordServiceLeaseOfferSampleTx s key;
            s ← update_lease s (mkLease (terms l) key.1.1 (of_supplier o) ACTIVE (sl_MinimumReplicas (terms l))
                                  (UpgradeGeneration l) (LastMeteredAt (meter l)) (meter l) (FinalizedAt l));
            Ok (add_event s leaseID "FAILOVER_COMPLETED", true)
        end
    end.

(** The loops: one transaction per lease, the first error stops the pass and the
    transactions before it stay. *)
Fixpoint for_leases (f : store → UUID → res (store * bool)) (s : store) (ids : list UUID) (count : Z) : store * res Z :=
  match ids with
  | [] => (s, Ok count)
  | id :: rest =>
      match f s id with
      | Err e => (s, Err e)
      | Ok (s', changed) => for_leases f s' rest (if changed then count + 1 else count)
      end
  end.

Definition select_leases (s : store) (p : ServiceLease → bool) (key : ServiceLease → Z) (limit : Z) : list UUID :=
  select_due p key limit (leases s).

Definition RecoverServiceLeases (s : store) (now limit : Z) : store * res Z :=
  if limit <? 1 then (s, Ok 0)
  else for_leases markServiceLeaseWorkerLost s
         (select_leases s (λ l, (bool_decide (sl_State l = ACTIVE) || bool_decide (sl_State l = UPGRADING)) &&
                                (LastWorkerHeartbeatAt l <? now - serviceLeaseHeartbeatTimeout))
            LastWorkerHeartbeatAt limit) 0.

(** [FailoverPendingServiceLeases]: fail over or terminate. *)
Fixpoint failover_each (s : store) (now : Z) (locked : offer_key → bool) (ids : list UUID) (failedOver terminated : Z) :
    store * res (Z * Z) :=
  match ids with
  | [] => (s, Ok (failedOver, terminated))
  | id :: rest =>
      match FailoverServiceLease s now locked id with
      | Err e => (s, Err e)
      | Ok (s, true) => failover_each s now locked rest (failedOver + 1) terminated
      | Ok (s, false) =>
          match TerminateServiceLeaseNoReplacement s now id with
          | Err e => (s, Err e)
          | Ok (s, ok) => failover_each s now locked rest failedOver (if ok then terminated + 1 else terminated)
          end
      end
  end.

Definition FailoverPendingServiceLeases (s : store) (now limit : Z) (locked : offer_key → bool) : store * res (Z * Z) :=
  if limit <? 1 then (s, Ok (0, 0))
  else failover_each s now locked
         (select_leases s (λ l, bool_decide (sl_State l = FAILOVER_REQUIRED) && (now <? ExpiresAt (terms l)))
            LastWorkerHeartbeatAt limit) 0 0.

Definition FinalizeExpiredServiceLeases (s : store) (now limit : Z) : store * res Z :=
  if limit <? 1 then (s, Ok 0)
  else for_leases (λ s id, finalizeExpiredServiceLease s now id) s
         (select_leases s (λ l, negb (is_terminal (sl_State l)) && (ExpiresAt (terms l) <=? now))
            (λ l, ExpiresAt (terms l)) limit) 0.
End Operations.

(** The ticker: declare losses, move or end the lost leases, finalize the expired ones. *)
Definition sweepBatch : Z := 100.

Definition recoverServiceLeases stored digest shape st (s : store) (now : Z) (locked : offer_key → bool) : store * res unit :=
  match RecoverServiceLeases stored digest shape s now sweepBatch with
  | (s, Err e) => (s, Err e)
  | (s, Ok _) =>
      match FailoverPendingServiceLeases stored digest shape st s now sweepBatch locked with
      | (s, Err e) => (s, Err e)
      | (s, Ok _) =>
          match FinalizeExpiredServiceLeases stored digest shape st s now sweepBatch with
          | (s, Err e) => (s, Err e)
          | (s, Ok _) => (s, Ok tt)
          end
      end
  end.

(** ** What the parts of an operation leave alone *)

(** Reads the successful run of a nested operation: one equation per call, in order. *)
Ltac peel H :=
  repeat (cbv beta zeta in H;
    match type of H with
    | (if _ then Err _ else _) = Ok _ => apply refuse_Ok in H as [? H]
    | mbind _ _ = Ok _ => apply bind_Ok in H as (? & ? & H)
    | match ?p with (_, _) => _ end = Ok _ => destruct p
    end).

Section Frames.
Context (stored : Z → Z).
Context (pricingDecisionDigest : lease_pricing → res string).
Context (validatePricingCostShape : lease_pricing → res unit).
Context (st : settlement).

(** The leases and their meters are the same. *)
Definition same_meters (s s' : store) : Prop :=
  leases s' = leases s ∧ meterings s' = meterings s ∧ supplier_meterings s' = supplier_meterings s.

Lemma same_meters_trans s1 s2 s3 : same_meters s1 s2 → same_meters s2 s3 → same_meters s1 s3.
Proof using. unfold same_meters. intros (-> & -> & ->) (-> & -> & ->). done. Qed.

Lemma scan_Ok s id l :
  scanServiceLease pricingDecisionDigest validatePricingCostShape s id = Ok l → leases s !! id = Some l.
Proof using. unfold scanServiceLease. destruct (leases s !! id); [|done]. intros H. peel H. by simplify_eq. Qed.

Lemma debit_lease_frame s buyer id amount s' :
  debitPrepaidForServiceLeaseTx st s buyer id amount = Ok s' → same_meters s s'.
Proof using.
  unfold debitPrepaidForServiceLeaseTx. intros H. peel H. destruct (leases s !! id); [|done]. peel H. by simplify_eq.
Qed.

Lemma settle_frame s l now s' :
  settleFinalServiceLeaseTx pricingDecisionDigest st s l now = Ok s' → same_meters s s'.
Proof using.
  unfold settleFinalServiceLeaseTx, settle_writes. intros H. peel H.
  destruct (ReservedBuyerMicros (terms l) <=? 0); peel H; [by simplify_eq|].
  match goal with E : debitPrepaidForServiceLeaseTx _ _ _ _ _ = Ok _ |- _ => apply debit_lease_frame in E end.
  simplify_eq. done.
Qed.

Lemma release_frame s l s' : release_capacity s l = Ok s' → same_meters s s'.
Proof using.
  unfold release_capacity, recordServiceLeaseOfferSampleTx, set_available. intros H.
  destruct (worker_offers s !! _) eqn:E; simpl in H; [|by rewrite E in H].
  destruct (_ !! _) in H; by simplify_eq.
Qed.
End Frames.

(** ** The money of a lease *)

(** The pricing of a lease: its authority's rates are 64-bit values. *)
Definition pricing_width (p : lease_pricing) : Prop :=
  match pd_ServiceLease p with Some a => authority_width a | None => True end.

(** The meter columns of a lease are the money of its aggregate replica time, the
    charge is within the accepted ceiling, and the supplier's payable is the sum of
    the deltas recorded for the lease. *)
Record meter_ok (rows : list supplier_metering) (l : ServiceLease) : Prop := {
  mk_width : pricing_width (Pricing (terms l));
  mk_cumulative : 0 ≤ CumulativeReplicaNanos (meter l) ≤ max_int64;
  mk_deltas : delta_sum (filter (λ r, sm_lease r = sl_ID (terms l)) rows) = SupplierPayableNanos (meter l);
  mk_signs : Forall (λ r, 0 ≤ supplier_payable_delta_nanos r) (filter (λ r, sm_lease r = sl_ID (terms l)) rows);
  mk_zero : CumulativeReplicaNanos (meter l) = 0 →
    sl_BuyerChargeNanos (meter l) = 0 ∧ SupplierPayableNanos (meter l) = 0 ∧
    KnownVariableCostNanos (meter l) = 0 ∧ KnownContributionNanos (meter l) = 0;
  mk_money : 0 < CumulativeReplicaNanos (meter l) →
    ∃ c a f money, MustParseCurrency (pd_Currency (Pricing (terms l))) = Some c ∧
      pd_ServiceLease (Pricing (terms l)) = Some a ∧ pd_FixedPoint (Pricing (terms l)) = Some f ∧
      ServiceLeaseMoneyForReplicaDuration c a (CumulativeReplicaNanos (meter l)) = Ok money ∧
      serviceLeaseKnownVariableNanos a money = Ok (KnownVariableCostNanos (meter l)) ∧
      sl_BuyerChargeNanos (meter l) = Nanos (BuyerCharge money) ∧
      SupplierPayableNanos (meter l) = Nanos (SupplierPayable money) ∧
      KnownContributionNanos (meter l) = Nanos (MercContribution money) ∧
      sl_BuyerChargeNanos (meter l) ≤ AcceptedCeilingNanos f
}.

Lemma MustParse_code raw c : MustParseCurrency raw = Some c → code c ≠ "".
Proof.
  unfold MustParseCurrency. destruct (ParseCurrency raw) as [c'|] eqn:E; intros; simplify_eq.
  assert (V : Currency_Valid c = true) by eauto with go. unfold Currency_Valid in V. by destruct (bool_decide _) eqn:B in V; reflect_bools.
Qed.

(** The numbers a successful pricing returns. *)
Lemma money_numbers c a d money :
  code c ≠ "" → authority_width a → 0 < d ≤ max_int64 →
  ServiceLeaseMoneyForReplicaDuration c a d = Ok money →
  ∃ v, serviceLeaseKnownVariableNanos a money = Ok v ∧ 0 < v ∧ 0 < Nanos (SupplierPayable money) ∧
       0 < Nanos (MercContribution money) ∧ Nanos (BuyerCharge money) ≤ max_int64 ∧
       Nanos (BuyerCharge money) = Nanos (SupplierPayable money) + v + Nanos (MercContribution money).
Proof.
  intros Hc W D H.
  assert (V : validateServiceLeasePricingAuthority a (code c) = Ok tt).
  { unfold ServiceLeaseMoneyForReplicaDuration in H. apply bind_Ok in H as ([] & V & _). done. }
  apply lease_money_inv in H as [-> B]; [|done || go_lia..].
  exists (lease_variable a d). rewrite (lease_variable_Ok c) by (done || lia).
  pose proof (lease_parts_pos a _ d V ltac:(lia)). simpl. unfold lease_buyer in *. split_and!; (done || lia).
Qed.

(** The split of a lease's charge. *)
Lemma meter_ok_split rows l :
  meter_ok rows l →
  sl_BuyerChargeNanos (meter l) = SupplierPayableNanos (meter l) + KnownVariableCostNanos (meter l) + KnownContributionNanos (meter l) ∧
  0 ≤ SupplierPayableNanos (meter l) ≤ sl_BuyerChargeNanos (meter l) ∧ sl_BuyerChargeNanos (meter l) ≤ max_int64.
Proof.
  intros [W C D S Z0 M]. destruct (decide (CumulativeReplicaNanos (meter l) = 0)) as [E|E].
  - destruct (Z0 E) as (-> & -> & -> & ->). unfold max_int64. lia.
  - destruct M as (c & a & f & money & P & A & F & Q & V & -> & -> & -> & _); [lia|].
    unfold pricing_width in W. rewrite A in W.
    destruct (money_numbers c a (CumulativeReplicaNanos (meter l)) money) as (v & V' & ? & ? & ? & ? & ?);
      [by eapply MustParse_code|done|lia|done|].
    rewrite V in V'. simplify_eq. lia.
Qed.

Lemma delta_sum_app x y : delta_sum (x ++ y) = delta_sum x + delta_sum y.
Proof. unfold delta_sum. induction x; simpl; lia. Qed.

(** Recording a meter keeps the books of the lease exact and leaves every other
    lease's rows alone. *)
Lemma record_meter_ok stored s l at_ cumulative money variable c a f s' l' :
  meter_ok (supplier_meterings s) l → 0 < cumulative ≤ max_int64 →
  MustParseCurrency (pd_Currency (Pricing (terms l))) = Some c → pd_ServiceLease (Pricing (terms l)) = Some a →
  pd_FixedPoint (Pricing (terms l)) = Some f → ServiceLeaseMoneyForReplicaDuration c a cumulative = Ok money →
  serviceLeaseKnownVariableNanos a money = Ok variable → Nanos (BuyerCharge money) ≤ AcceptedCeilingNanos f →
  record_meter stored s l at_ cumulative money variable = Ok (s', l') →
  meter_ok (supplier_meterings s') l' ∧ leases s' = leases s ∧ terms l' = terms l ∧
  ∃ r, sm_lease r = sl_ID (terms l) ∧ supplier_meterings s' = supplier_meterings s ++ [r].
Proof.
  intros K C P A F Q V B H. pose proof (meter_ok_split _ _ K) as (_ & SP & BM). destruct K as [W Cu D S Z0 M].
  unfold record_meter in H. peel H. simplify_eq. simpl in *. reflect_bools.
  assert (W' : authority_width a) by (unfold pricing_width in W; by rewrite A in W).
  destruct (money_numbers c a cumulative money) as (v & V' & ? & ? & ? & ? & ?); [by eapply MustParse_code|done|lia|done|].
  assert (E : wrap64 (Nanos (SupplierPayable money) - SupplierPayableNanos (meter l)) =
              Nanos (SupplierPayable money) - SupplierPayableNanos (meter l)) by (apply wrap64_id; go_lia).
  split_and!; [|done|done|by eexists (mkSupplierMetering _ _ _ _)].
  split; simpl; [done|lia| | |lia|].
  - rewrite filter_app, delta_sum_app, D, filter_cons_True by done. simpl. rewrite E. unfold delta_sum. simpl. lia.
  - rewrite filter_app. apply Forall_app. split; [done|]. rewrite filter_cons_True by done. constructor; [simpl; lia|constructor].
  - intros _. exists c, a, f, money. split_and!; done.
Qed.

(** Only the lease's own deltas grow. *)
Definition appended (id : UUID) (s s' : store) : Prop :=
  ∃ rs, supplier_meterings s' = supplier_meterings s ++ rs ∧ Forall (λ r, sm_lease r = id) rs.

Lemma meter_preserves stored s l at_ s' l' :
  meter_ok (supplier_meterings s) l → meterServiceLeaseTx stored s l at_ = Ok (s', l') →
  meter_ok (supplier_meterings s') l' ∧ leases s' = leases s ∧ appended (sl_ID (terms l)) s s' ∧
  terms l' = terms l ∧ l' = with_meter l (meter l').
Proof.
  intros K H. assert (A0 : appended (sl_ID (terms l)) s s) by (exists []; rewrite app_nil_r; by split).
  unfold meterServiceLeaseTx in H. peel H.
  destruct (_ <=? LastMeteredAt (meter l)); [simplify_eq; by destruct l'|].
  destruct (mulDiv _ _ 1 false) as [add|] eqn:Q; [|done]. peel H. apply mulDiv_int64 in Q. reflect_bools.
  pose proof (mk_cumulative _ _ K) as C. rewrite (wrap64_id (max_int64 - add)) in * by go_lia.
  rewrite (wrap64_id (CumulativeReplicaNanos (meter l) + add)) in * by go_lia.
  destruct (Z.leb_spec (CumulativeReplicaNanos (meter l) + add) 0).
  - simplify_eq. destruct K as [W Cu D S Z0 M]. split_and!; try done. split; simpl; try done; lia || tauto.
  - destruct (MustParseCurrency _) as [c|] eqn:P; [|done]. destruct (pd_ServiceLease _) as [a|] eqn:A; [|done].
    destruct (pd_FixedPoint _) as [f|] eqn:F; [|done]. peel H.
    destruct (serviceLeaseKnownVariableNanos a _) as [v|] eqn:V; [|done]. peel H. reflect_bools.
    pose proof H as H'. unfold record_meter in H'. peel H'. simplify_eq.
    eapply record_meter_ok in H as (K' & L & T & r & R1 & R2); [|done|lia|done..].
    split_and!; try done. by exists [r]; split; [|repeat constructor].
Qed.

(** ** Every operation meters, then writes one lease *)

Section Lifecycle.
Context (stored : Z → Z).
Context (pricingDecisionDigest : lease_pricing → res string).
Context (validatePricingCostShape : lease_pricing → res unit).
Context (st : settlement).

Inductive lease_tx (id : UUID) (s : store) : store → Prop :=
  | tx_nothing : lease_tx id s s
  | tx_meter l at_ s1 l1 s2 l2 s3 s4 :
      leases s !! id = Some l → is_terminal (sl_State l) = false →
      meterServiceLeaseTx stored s l at_ = Ok (s1, l1) → same_meters s1 s2 →
      terms l2 = terms l1 → meter l2 = meter l1 →
      update_lease stored s2 l2 = Ok s3 → same_meters s3 s4 →
      lease_tx id s s4.

Lemma transition_frame s l h s' state n :
  heartbeat_transition s l h = Ok (s', state, n) → same_meters s s'.
Proof using.
  unfold heartbeat_transition. intros H. repeat case_match; peel H; simplify_eq; done.
Qed.

Lemma heartbeat_tx s now worker supplier id h s' :
  HeartbeatServiceLease stored pricingDecisionDigest validatePricingCostShape s now worker supplier id h = Ok s' →
  lease_tx id s s'.
Proof using.
  unfold HeartbeatServiceLease. intros H. apply refuse_Ok in H as [_ H]. apply refuse_Ok in H as [_ H].
  apply bind_Ok in H as (l & E & H). apply scan_Ok in E. apply refuse_Ok in H as [G H].
  apply bind_Ok in H as ([s1 l1] & M & H). apply bind_Ok in H as (_ & _ & H).
  apply bind_Ok in H as ([[s2 state] n] & T & H). apply transition_frame in T. reflect_bools.
  eapply tx_meter; [done|done|exact M|exact T| | |exact H|done]; done.
Qed.

Lemma close_tx s l now kind violation s' l' :
  close_cancelled stored pricingDecisionDigest st s l now kind violation = Ok (s', l') →
  ∃ s2 s3, same_meters s s2 ∧ update_lease stored s2 (with_state l CANCELLED 0 (Some now)) = Ok s3 ∧ same_meters s3 s'.
Proof using.
  unfold close_cancelled. intros H. apply bind_Ok in H as (s2 & S & H). apply bind_Ok in H as (u & _ & H).
  apply refuse_Ok in H as [_ H]. apply bind_Ok in H as (s3 & U & H). apply bind_Ok in H as (s4 & R & H).
  apply release_frame in R. simplify_eq. exists s2, s3. split_and!; [|done|done].
  destruct (0 <? _); [by eapply settle_frame|by simplify_eq].
Qed.

Lemma cancel_tx s now buyer id s' l b :
  CancelServiceLease stored pricingDecisionDigest validatePricingCostShape st s now buyer id = Ok (s', l, b) →
  lease_tx id s s'.
Proof using.
  unfold CancelServiceLease. intros H. apply refuse_Ok in H as [_ H]. apply bind_Ok in H as (l0 & E & H).
  destruct (leases s !! id) as [l00|] eqn:L; [|done]. destruct (bool_decide _); [|done]. apply scan_Ok in E.
  destruct (is_terminal (sl_State l0)) eqn:T; [simplify_eq; constructor|].
  apply bind_Ok in H as ([s1 l1] & M & H). apply bind_Ok in H as ([s2 l2] & C & H). simplify_eq.
  apply close_tx in C as (s2 & s3 & S & U & R). eapply tx_meter; [done|done|exact M|exact S| | |exact U|exact R]; done.
Qed.

Lemma terminate_tx s now id s' b :
  TerminateServiceLeaseNoReplacement stored pricingDecisionDigest validatePricingCostShape st s now id = Ok (s', b) →
  lease_tx id s s'.
Proof using.
  unfold TerminateServiceLeaseNoReplacement. intros H. apply refuse_Ok in H as [_ H]. apply bind_Ok in H as (l & E & H).
  apply scan_Ok in E. destruct (negb _ || _) eqn:G; [simplify_eq; constructor|]. reflect_bools.
  apply bind_Ok in H as ([s1 l1] & M & H). apply bind_Ok in H as ([s2 l2] & C & H). simplify_eq.
  apply close_tx in C as (s2' & s3 & S & U & R). eapply tx_meter; [done| |exact M|exact S| | |exact U|exact R]; try done.
  match goal with E : sl_State l = _ |- _ => by rewrite E end.
Qed.

Lemma finalize_tx s now id s' b :
  finalizeExpiredServiceLease stored pricingDecisionDigest validatePricingCostShape st s now id = Ok (s', b) →
  lease_tx id s s'.
Proof using.
  unfold finalizeExpiredServiceLease. intros H. apply bind_Ok in H as (l & E & H). apply scan_Ok in E.
  destruct (is_terminal (sl_State l) || _) eqn:G; [simplify_eq; constructor|]. reflect_bools.
  apply bind_Ok in H as ([s1 l1] & M & H). apply bind_Ok in H as (s2 & S & H). apply bind_Ok in H as (s3 & U & H).
  apply bind_Ok in H as (s4 & R & H). simplify_eq. apply settle_frame in S. apply release_frame in R.
  eapply tx_meter; [done|done|exact M|exact S| | |exact U|exact R]; done.
Qed.

Lemma lost_tx s id s' b :
  markServiceLeaseWorkerLost stored pricingDecisionDigest validatePricingCostShape s id = Ok (s', b) → lease_tx id s s'.
Proof using.
  unfold markServiceLeaseWorkerLost. intros H. apply bind_Ok in H as (l & E & H). apply scan_Ok in E.
  destruct (negb _ && _) eqn:G; [simplify_eq; constructor|].
  apply bind_Ok in H as ([s1 l1] & M & H). apply bind_Ok in H as (s3 & U & H). simplify_eq.
  eapply tx_meter; [done| |exact M|done| | |exact U|done]; try done.
  apply andb_false_iff in G as [G|G]; reflect_bools; by rewrite G.
Qed.

Lemma failover_tx s now locked id s' b :
  FailoverServiceLease stored pricingDecisionDigest validatePricingCostShape s now locked id = Ok (s', b) → lease_tx id s s'.
Proof using.
  unfold FailoverServiceLease. intros H. apply bind_Ok in H as (l & E & H). apply scan_Ok in E.
  destruct (negb _ || _) eqn:G; [simplify_eq; constructor|]. reflect_bools.
  destruct (pd_ServiceLease _) as [a|]; [|done].
  destruct (replacement s l a now locked) as [[key o]|]; [|simplify_eq; constructor].
  apply bind_Ok in H as ([s1 l1] & M & H). cbv zeta in H. apply bind_Ok in H as (s2 & R & H).
  apply bind_Ok in H as (s3 & U & H). simplify_eq.
  assert (F : same_meters s1 s2).
  { unfold recordServiceLeaseOfferSampleTx, set_available in R.
    repeat case_match; simplify_eq; done. }
  eapply tx_meter; [done| |exact M|exact F| | |exact U|done]; try done.
  match goal with E : sl_State l = _ |- _ => by rewrite E end.
Qed.

(** ** The invariant of the tables *)

Definition store_ok (s : store) : Prop :=
  ∀ id l, leases s !! id = Some l →
    sl_ID (terms l) = id ∧ lease_checks l = true ∧ meter_ok (supplier_meterings s) l.

(** What a transaction does to the leases: only [id] changes, its terms and its
    accrual are kept, and a terminal lease is not touched. *)
Definition advances (s s' : store) : Prop :=
  ∀ id l', leases s' !! id = Some l' →
    ∃ l, leases s !! id = Some l ∧ terms l' = terms l ∧
         CumulativeReplicaNanos (meter l) ≤ CumulativeReplicaNanos (meter l') ∧
         (is_terminal (sl_State l) = true → l' = l).

Lemma advances_refl s : advances s s.
Proof using. intros id l H. by exists l. Qed.

Lemma advances_trans s1 s2 s3 : advances s1 s2 → advances s2 s3 → advances s1 s3.
Proof using.
  intros A B id l3 H. destruct (B id l3 H) as (l2 & H2 & T2 & C2 & F2).
  destruct (A id l2 H2) as (l1 & H1 & T1 & C1 & F1). exists l1. split_and!; [done|congruence|lia|].
  intros F. specialize (F1 F). subst. auto.
Qed.

(** The rows of the other leases are not concerned. *)
Lemma deltas_appended id s s' id' : appended id s s' → id' ≠ id → supplier_deltas s' id' = supplier_deltas s id'.
Proof using.
  intros (rs & E & F) N. unfold supplier_deltas. rewrite E, filter_app.
  replace (filter _ rs) with (@nil supplier_metering); [apply app_nil_r|].
  symmetry. clear E. induction F as [|r rs R F IH]; [done|]. rewrite filter_cons_False; [done|congruence].
Qed.

Lemma meter_ok_appended id s s' l :
  appended id s s' → sl_ID (terms l) ≠ id → meter_ok (supplier_meterings s) l → meter_ok (supplier_meterings s') l.
Proof using.
  intros A N [W C D S Z0 M]. pose proof (deltas_appended _ _ _ _ A N) as E. unfold supplier_deltas in E.
  split; rewrite ?E; done.
Qed.

(** The stored row has the same money as the lease in memory. *)
Lemma meter_ok_same rows l l' :
  terms l' = terms l → CumulativeReplicaNanos (meter l') = CumulativeReplicaNanos (meter l) →
  sl_BuyerChargeNanos (meter l') = sl_BuyerChargeNanos (meter l) →
  SupplierPayableNanos (meter l') = SupplierPayableNanos (meter l) →
  KnownVariableCostNanos (meter l') = KnownVariableCostNanos (meter l) →
  KnownContributionNanos (meter l') = KnownContributionNanos (meter l) →
  meter_ok rows l → meter_ok rows l'.
Proof using. intros T C B S V N [W Cu D Sg Z0 M]. split; rewrite ?T, ?C, ?B, ?S, ?V, ?N; done. Qed.

Lemma persisted_checks l : lease_checks (persisted stored l) = lease_checks l.
Proof using.
  unfold lease_checks, persisted. simpl. destruct (FinalizedAt l); done.
Qed.

Lemma meter_grows s l at_ s' l' :
  meter_ok (supplier_meterings s) l → meterServiceLeaseTx stored s l at_ = Ok (s', l') →
  CumulativeReplicaNanos (meter l) ≤ CumulativeReplicaNanos (meter l').
Proof using.
  intros K H. unfold meterServiceLeaseTx in H. peel H. destruct (_ <=? LastMeteredAt (meter l)); [by simplify_eq|].
  destruct (mulDiv _ _ 1 false) as [add|] eqn:Q; [|done]. peel H. apply mulDiv_int64 in Q. reflect_bools.
  pose proof (mk_cumulative _ _ K) as C. rewrite (wrap64_id (max_int64 - add)) in * by go_lia.
  rewrite (wrap64_id (CumulativeReplicaNanos (meter l) + add)) in * by go_lia.
  destruct (Z.leb_spec (CumulativeReplicaNanos (meter l) + add) 0); [simplify_eq; simpl; lia|].
  destruct (MustParseCurrency _) as [c|]; [|done]. destruct (pd_ServiceLease _) as [a|]; [|done].
  destruct (pd_FixedPoint _) as [f|]; [|done]. peel H.
  destruct (serviceLeaseKnownVariableNanos a _) as [v|]; [|done]. peel H.
  unfold record_meter in H. peel H. simplify_eq. simpl. lia.
Qed.

Lemma lease_tx_ok id s s' : store_ok s → lease_tx id s s' → store_ok s' ∧ advances s s'.
Proof using.
  intros K [|l at_ s1 l1 s2 l2 s3 s4 L T M (F1 & _ & F2) TE ME U (G1 & _ & G2)]; [split; [done|apply advances_refl]|].
  destruct (K id l L) as (I & C & O). pose proof (meter_grows _ _ _ _ _ O M) as Gr.
  destruct (meter_preserves _ _ _ _ _ _ O M) as (O1 & Ls & A & T1 & _).
  unfold update_lease in U. apply refuse_Ok in U as [Ch U]. simplify_eq. simpl in *. reflect_bools.
  assert (I2 : sl_ID (terms l2) = sl_ID (terms l)) by congruence.
  split.
  - intros id' l' H. rewrite G1, F1, Ls in H. rewrite G2, F2. apply lookup_insert_Some in H as [[<- <-]|[N H]].
    + split_and!; [done|by rewrite persisted_checks|].
      eapply meter_ok_same, O1; unfold persisted; simpl; congruence.
    + destruct (K id' l' H) as (I' & C' & O'). split_and!; [done..|].
      eapply meter_ok_appended; [done|congruence|done].
  - intros id' l' H. rewrite G1, F1, Ls in H. apply lookup_insert_Some in H as [[<- <-]|[N H]].
    + exists l. rewrite I2, L. simpl. split_and!; [done|congruence|rewrite ME; lia|congruence].
    + by exists l'.
Qed.

(** ** Histories *)

(** One externally visible step: a worker's heartbeat, a buyer's cancellation, or a
    pass of the recovery loop, whether or not it stops at an error. *)
Inductive lease_step (s : store) : store → Prop :=
  | step_heartbeat now worker supplier id h s' :
      HeartbeatServiceLease stored pricingDecisionDigest validatePricingCostShape s now worker supplier id h = Ok s' →
      lease_step s s'
  | step_cancel now buyer id s' l b :
      CancelServiceLease stored pricingDecisionDigest validatePricingCostShape st s now buyer id = Ok (s', l, b) →
      lease_step s s'
  | step_recover now locked :
      lease_step s (recoverServiceLeases stored pricingDecisionDigest validatePricingCostShape st s now locked).1.

(** A property of pairs of tables that holds of every transaction and composes
    holds of every history. *)
Section Invariants.
Context (R : store → store → Prop) `{!PreOrder R} (Rtx : ∀ id s s', lease_tx id s s' → R s s').

Lemma for_leases_R f s ids n :
  (∀ s id s' b, f s id = Ok (s', b) → lease_tx id s s') → R s (for_leases f s ids n).1.
Proof using All.
  intros F. revert s n. induction ids as [|id ids IH]; intros s n; [reflexivity|]. simpl.
  destruct (f s id) as [[s' b]|] eqn:E; [|reflexivity]. etrans; [eapply Rtx, F, E|apply IH].
Qed.

Lemma failover_each_R s now locked ids n m :
  R s (failover_each stored pricingDecisionDigest validatePricingCostShape st s now locked ids n m).1.
Proof using All.
  revert s n m. induction ids as [|id ids IH]; intros s n m; [reflexivity|]. simpl.
  destruct (FailoverServiceLease _ _ _ s now locked id) as [[s1 [|]]|] eqn:E; [| |reflexivity].
  - etrans; [eapply Rtx, failover_tx, E|apply IH].
  - apply failover_tx in E. destruct (TerminateServiceLeaseNoReplacement _ _ _ _ s1 now id) as [[s2 b]|] eqn:F.
    + etrans; [eapply Rtx, E|]. etrans; [eapply Rtx, terminate_tx, F|apply IH].
    + eapply Rtx, E.
Qed.

Lemma recover_R s now locked :
  R s (recoverServiceLeases stored pricingDecisionDigest validatePricingCostShape st s now locked).1.
Proof using All.
  unfold recoverServiceLeases, RecoverServiceLeases, FailoverPendingServiceLeases, FinalizeExpiredServiceLeases.
  change (sweepBatch <? 1) with false. cbv iota.
  match goal with |- context [for_leases ?f s ?ids 0] => pose proof (for_leases_R f s ids 0 lost_tx) as K1 end.
  destruct (for_leases _ s _ 0) as [s1 [n|]]; [|done]. simpl in K1. etrans; [exact K1|].
  match goal with |- context [failover_each _ _ _ _ s1 now locked ?ids 0 0] =>
    pose proof (failover_each_R s1 now locked ids 0 0) as K2 end.
  destruct (failover_each _ _ _ _ s1 now locked _ 0 0) as [s2 [n2|]]; [|done]. simpl in K2. etrans; [exact K2|].
  match goal with |- context [for_leases ?f s2 ?ids 0] =>
    pose proof (for_leases_R f s2 ids 0 (λ s id s' b, finalize_tx s now id s' b)) as K3 end.
  by destruct (for_leases _ s2 _ 0) as [s3 [n3|]].
Qed.

Lemma steps_R s s' : rtc lease_step s s' → R s s'.
Proof using All.
  induction 1 as [|s1 s2 s3 H _ IH]; [reflexivity|]. etrans; [|exact IH].
  destruct H as [now worker supplier id h s'' H|now buyer id s'' l b H|now locked].
  - eapply Rtx, heartbeat_tx, H.
  - eapply Rtx, cancel_tx, H.
  - apply recover_R.
Qed.
End Invariants.

Definition keeps_books (s s' : store) : Prop := store_ok s → store_ok s' ∧ advances s s'.

#[local] Instance keeps_books_preorder : PreOrder keeps_books.
Proof using.
  split.
  - intros s K. split; [done|apply advances_refl].
  - intros s1 s2 s3 A B K. destruct (A K) as [K2 A2]. destruct (B K2) as [K3 A3]. split; [done|by eapply advances_trans].
Qed.

Lemma steps_keep s s' : rtc lease_step s s' → keeps_books s s'.
Proof using. apply steps_R; [apply _|]. intros id s0 s0' H K. by eapply lease_tx_ok. Qed.
End Lifecycle.

(** C6: the books of a lease stay exact through its whole life.  Start from tables
    whose leases are in order and run any heartbeats, cancellations and recovery
    passes, with failovers between suppliers, in any order and at any times.  For
    every lease the charge is exactly supplier payable plus variable cost plus
    contribution, it is the price of the accrued replica time under the frozen
    authority and within the accepted ceiling, and the supplier payable is the sum
    of the per-supplier deltas.  The terms never change, accrual never shrinks, and
    a completed or cancelled lease is never touched again. *)
Theorem lease_history_exact stored digest shape st s s' id l' :
  store_ok s → rtc (lease_step stored digest shape st) s s' → leases s' !! id = Some l' →
  (∃ l, leases s !! id = Some l ∧ terms l' = terms l ∧
        CumulativeReplicaNanos (meter l) ≤ CumulativeReplicaNanos (meter l') ∧
        (is_terminal (sl_State l) = true → l' = l)) ∧
  sl_BuyerChargeNanos (meter l') =
    SupplierPayableNanos (meter l') + KnownVariableCostNanos (meter l') + KnownContributionNanos (meter l') ∧
  delta_sum (supplier_deltas s' id) = SupplierPayableNanos (meter l') ∧
  (0 < CumulativeReplicaNanos (meter l') → ∃ c a f money,
     MustParseCurrency (pd_Currency (Pricing (terms l'))) = Some c ∧ pd_ServiceLease (Pricing (terms l')) = Some a ∧
     pd_FixedPoint (Pricing (terms l')) = Some f ∧
     ServiceLeaseMoneyForReplicaDuration c a (CumulativeReplicaNanos (meter l')) = Ok money ∧
     sl_BuyerChargeNanos (meter l') = Nanos (BuyerCharge money) ∧
     SupplierPayableNanos (meter l') = Nanos (SupplierPayable money) ∧
     Nanos (BuyerCharge money) ≤ AcceptedCeilingNanos f).
Proof.
  intros K R H. destruct (steps_keep _ _ _ _ _ _ R K) as [K' A]. destruct (K' id l' H) as (I & _ & O).
  split; [by apply A|]. pose proof (meter_ok_split _ _ O) as (E & _). destruct O as [_ _ D _ _ M].
  split; [done|]. split; [unfold supplier_deltas; by rewrite <-I|].
  intros P. destruct (M P) as (c & a & f & money & ? & ? & ? & ? & ? & B & ? & ? & ?).
  exists c, a, f, money. rewrite <-B. split_and!; done.
Qed.

(** ** Examples *)

Definition demo_sha : string := "0123456789abcdef0123456789abcdef0123456789abcdef0123456789abcdef".

Definition demo_pricing : lease_pricing :=
  mkPricing pricingExecutionServiceLease "usd" (Some demo_authority)
    (Some (mkFixedPoint "usd" 3000000000 3000000000 2200000000 200000000 800000000 600000000
             serviceLeaseEconomicFinalityBlockers)).

(** Two replicas for one hour, admitted at a ceiling equal to the maximum charge. *)
Definition demo_lease : ServiceLease :=
  mkLease
    (mkTerms 5%N 6%N "profile" demo_sha "eu-west" 2 2 500 0 3600 3000000 (Some 5%N) demo_pricing demo_sha 0 3600000000000)
    8%N 9%N ACTIVE 2 "" 0 (mkMeter 0 0 0 0 0 0) None.

Definition demo_offer : worker_offer :=
  mkOffer 9%N demo_sha 2 0 1000000000 100000000 "usd" 100 0 5 60 "DATA_PLANE_COMPLETIONS_V1" "READY" 0.

Definition demo_store : store :=
  mkStore {[5%N := demo_lease]} [] [] [] {[(8%N, "profile", "eu-west") := demo_offer]} []
    (mkDb [] ∅ ∅ ∅) {[(6%N, "usd") := 3000000]}.

Definition demo_ready : ServiceLeaseHeartbeat :=
  mkHeartbeat 2 100 0 5 60 "DATA_PLANE_COMPLETIONS_V1" demo_sha "READY" "".

Definition demo_digest (_ : lease_pricing) : res string := Ok demo_sha.
Definition demo_shape (_ : lease_pricing) : res unit := Ok tt.
Definition demo_usd : settlement := mkSettlement true (mkCurrency "usd" 2).

(** A heartbeat at [now] and then the finalization at the end of the term. *)
Definition heartbeat_then_finalize (now : Z) : res (store * bool) :=
  s ← HeartbeatServiceLease whole_micros demo_digest demo_shape demo_store now 8%N 9%N 5%N demo_ready;
  finalizeExpiredServiceLease whole_micros demo_digest demo_shape demo_usd s 3600000000000 5%N.

Definition outcome (m : res (store * bool)) : res (option lease_state * list Z) :=
  match m with
  | Ok (s, _) => Ok (sl_State <$> leases s !! 5%N, amount_micros <$> ledger (books s))
  | Err e => Err e
  end.

Example finalize_on_the_microsecond :
  outcome (heartbeat_then_finalize 1800000000000) = Ok (Some COMPLETED, [2200000; -3000000; -3000000; 800000]).
Proof. vm_compute. reflexivity. Qed.

(** A heartbeat between two microseconds can make a lease impossible to
    finalize.  The meter accrues up to the nanosecond of the heartbeat but the
    column [last_metered_at] keeps whole microseconds, so the next meter accrues
    the dropped nanoseconds again.  A one-hour lease of two replicas, admitted at a
    ceiling equal to its maximum charge, finalizes when its one heartbeat falls on a
    microsecond; 789 nanoseconds later, the final meter exceeds the ceiling and is
    refused. *)
Theorem heartbeat_drift_refused :
  outcome (heartbeat_then_finalize 1800000000000) = Ok (Some COMPLETED, [2200000; -3000000; -3000000; 800000]) ∧
  outcome (heartbeat_then_finalize 1800000000789) =
    Err (Errorf "service lease meter violates reserved ceiling or exact cost bounds").
Proof. split; vm_compute; reflexivity. Qed.

(** A settlement of nothing is refused. *)
Lemma settle_zero digest st s l now s' :
  0 < ReservedBuyerMicros (terms l) → sl_BuyerChargeNanos (meter l) = 0 →
  settleFinalServiceLeaseTx digest st s l now ≠ Ok s'.
Proof.
  intros R B H. unfold settleFinalServiceLeaseTx in H. apply refuse_Ok in H as [_ H].
  rewrite (proj2 (Z.leb_gt _ _)) in H by done. peel H. rewrite B in *. reflect_bools.
  match goal with E : LedgerMicrosFromNanos _ = Ok ?x |- _ =>
    assert (x = 0) by (unfold LedgerMicrosFromNanos in E; apply refuse_Ok in E as [_ E]; vm_compute in E; congruence) end.
  lia.
Qed.

(** *** How far the accrual can run ahead *)

Section Drift.
Context (stored : Z → Z) `{!TimestampColumn stored}.

(** The deltas recorded for a lease. *)
Definition meter_count (s : store) (id : UUID) : Z := Z.of_nat (length (supplier_deltas s id)).

(** Accrued replica time is at most the maximum replicas for the metered time, plus
    one microsecond per meter. *)
Record drift_ok (s : store) (l : ServiceLease) : Prop := {
  dr_width : 0 ≤ sl_MaximumReplicas (terms l) ≤ max_int64;
  dr_times : stored (StartedAt (terms l)) = StartedAt (terms l) ∧ stored (LastMeteredAt (meter l)) = LastMeteredAt (meter l) ∧
             StartedAt (terms l) ≤ LastMeteredAt (meter l);
  dr_bound : CumulativeReplicaNanos (meter l) ≤ sl_MaximumReplicas (terms l) *
               (LastMeteredAt (meter l) - StartedAt (terms l) + 1000 * meter_count s (sl_ID (terms l)))
}.

Lemma add_bound n x y add :
  0 ≤ n ≤ max_int64 → y < x → mulDiv n (time_Sub x y) 1 false = Ok add → 0 ≤ add ≤ n * (x - y).
Proof using.
  intros N L H. unfold time_Sub in H.
  assert (B : 0 < Z.max min_int64 (Z.min max_int64 (x - y)) ≤ x - y ∧ int64 (Z.max min_int64 (Z.min max_int64 (x - y)))) by go_lia.
  destruct B as [B I]. apply (exact_division_Ok mulDiv) in H as [-> H]; [|done || go_lia..].
  unfold round_div in *. rewrite Z.div_1_r in *. nia.
Qed.

(** One transaction keeps the bound. *)
Lemma drift_meter s l at_ s1 l1 l2 :
  meter_ok (supplier_meterings s) l → lease_checks l = true → drift_ok s l →
  meterServiceLeaseTx stored s l at_ = Ok (s1, l1) → terms l2 = terms l1 → meter l2 = meter l1 →
  drift_ok s1 (persisted stored l2).
Proof using TimestampColumn0.
  intros K C [W (T1 & T2 & T3) B] H TE ME.
  assert (Ac : 0 ≤ ActiveReplicas l ≤ sl_MaximumReplicas (terms l)) by (unfold lease_checks in C; reflect_bools; lia).
  unfold meterServiceLeaseTx in H. apply refuse_Ok in H as [_ H]. cbv zeta in H.
  set (x := if ExpiresAt (terms l) <? at_ then ExpiresAt (terms l) else at_) in *.
  destruct (Z.leb_spec x (LastMeteredAt (meter l))) as [L|L].
  { simplify_eq. split; unfold persisted; simpl; rewrite ?TE, ?ME, ?T2; done. }
  destruct (mulDiv _ _ 1 false) as [add|] eqn:Q; [|done]. apply refuse_Ok in H as [G H]. reflect_bools.
  pose proof (mulDiv_int64 _ _ _ _ _ Q) as Ia. apply add_bound in Q as Q'; [|lia|done].
  pose proof (mk_cumulative _ _ K) as Cu. rewrite (wrap64_id (max_int64 - add)) in * by go_lia.
  rewrite (wrap64_id (CumulativeReplicaNanos (meter l) + add)) in * by go_lia.
  pose proof (stored_near x) as Nx. assert (Mx : StartedAt (terms l) ≤ stored x) by (rewrite <-T1; apply stored_mono; lia).
  assert (St : ∀ s1 n, terms l1 = terms l → LastMeteredAt (meter l1) = x → meter_count s1 (sl_ID (terms l)) = n →
    CumulativeReplicaNanos (meter l1) ≤ sl_MaximumReplicas (terms l) * (stored x - StartedAt (terms l) + 1000 * n) →
    drift_ok s1 (persisted stored l2)).
  { intros s1' n E1 E2 En Bn. split; unfold persisted; simpl; rewrite ?TE, ?ME, ?E1, ?E2, ?En, ?stored_idem; done. }
  destruct (Z.leb_spec (CumulativeReplicaNanos (meter l) + add) 0).
  - simplify_eq. apply (St _ (meter_count s1 (sl_ID (terms l)))); [done..|]. simpl. unfold meter_count. nia.
  - destruct (MustParseCurrency _) as [c|]; [|done]. destruct (pd_ServiceLease _) as [a|]; [|done].
    destruct (pd_FixedPoint _) as [f|]; [|done]. apply bind_Ok in H as (money & _ & H).
    destruct (serviceLeaseKnownVariableNanos a money) as [v|]; [|done]. apply refuse_Ok in H as [_ H].
    unfold record_meter in H. peel H. simplify_eq.
    apply (St _ (meter_count s (sl_ID (terms l)) + 1)); [done..| |].
    + unfold meter_count, supplier_deltas. simpl. rewrite filter_app, filter_cons_True by done.
      rewrite List.length_app. simpl. lia.
    + simpl. unfold meter_count in *. nia.
Qed.

Definition store_drift (s : store) : Prop := ∀ id l, leases s !! id = Some l → drift_ok s l.

Definition keeps_drift (s s' : store) : Prop := store_ok s → store_drift s → store_ok s' ∧ store_drift s'.

#[local] Instance keeps_drift_preorder : PreOrder keeps_drift.
Proof using. split; unfold keeps_drift; [done|]. intros s1 s2 s3 A B K D. destruct (A K D). by apply B. Qed.

Lemma drift_tx id s s' : lease_tx stored id s s' → keeps_drift s s'.
Proof using TimestampColumn0.
  intros H K D. split; [by eapply lease_tx_ok|].
  destruct H as [|l at_ s1 l1 s2 l2 s3 s4 L T M (F1 & _ & F2) TE ME U (G1 & _ & G2)]; [done|].
  destruct (K id l L) as (I & C & O). destruct (meter_preserves _ _ _ _ _ _ O M) as (O1 & Ls & A & T1 & _).
  unfold update_lease in U. apply refuse_Ok in U as [Ch U]. simplify_eq. simpl in *.
  assert (I2 : sl_ID (terms l2) = sl_ID (terms l)) by congruence.
  assert (Q : ∀ id', meter_count s4 id' = meter_count s1 id')
    by (intros; unfold meter_count, supplier_deltas; by rewrite G2, F2).
  intros id' l' H. rewrite G1, F1, Ls in H. apply lookup_insert_Some in H as [[<- <-]|[N H]].
  - pose proof (drift_meter _ _ _ _ _ l2 O C (D _ _ L) M TE ME) as [W2 T2 B2]. split; [done..|]. by rewrite Q.
  - destruct (K id' l' H) as (I' & _ & _). destruct (D id' l' H) as [W2 T2 B2]. split; [done..|].
    rewrite Q. unfold meter_count in *. rewrite (deltas_appended _ _ _ _ A) by congruence. done.
Qed.
End Drift.

(** Accrual runs ahead of the clock by at most a microsecond per meter.  In
    any history, with any timestamp column of microsecond resolution, the replica
    time accrued on a lease is at most its maximum replicas for the metered time
    plus one microsecond for each meter recorded; how often a worker reports can
    move the charge by no more than that. *)
Theorem accrual_bounded stored digest shape st s s' id l' :
  TimestampColumn stored → store_ok s → store_drift stored s →
  rtc (lease_step stored digest shape st) s s' → leases s' !! id = Some l' →
  CumulativeReplicaNanos (meter l') ≤ sl_MaximumReplicas (terms l') *
    (LastMeteredAt (meter l') - StartedAt (terms l') + 1000 * meter_count s' id).
Proof.
  intros TC K D R H.
  pose proof (keeps_drift_preorder stored) as PO.
  destruct (steps_R stored digest shape st (keeps_drift stored) (drift_tx stored) s s' R K D) as [K' D'].
  destruct (K' id l' H) as (<- & _). by destruct (D' _ l' H).
Qed.

(** A lease that never accrued cannot be finalized.  The worker never reported,
    so the loss is metered up to the start of the lease and nothing accrues; if the
    term ends before the lease is moved or terminated, every later attempt to
    finalize it is refused, at any time, because the final settlement requires a
    positive charge. *)
Theorem unaccrued_lease_stuck stored digest shape st s id l s1 now s2 b :
  scanServiceLease digest shape s id = Ok l → sl_State l = ACTIVE → sl_ID (terms l) = id →
  CumulativeReplicaNanos (meter l) = 0 → sl_BuyerChargeNanos (meter l) = 0 →
  LastWorkerHeartbeatAt l = LastMeteredAt (meter l) → 0 < ReservedBuyerMicros (terms l) →
  markServiceLeaseWorkerLost stored digest shape s id = Ok (s1, true) →
  ExpiresAt (terms l) ≤ now →
  finalizeExpiredServiceLease stored digest shape st s1 now id ≠ Ok (s2, b).
Proof.
  intros S A I C B HB R L E F. unfold markServiceLeaseWorkerLost in L. rewrite S in L. cbn [mbind res_bind] in L.
  rewrite A in L. simpl in L. apply bind_Ok in L as ([s0 l0] & M & L).
  unfold meterServiceLeaseTx in M. rewrite HB, Z.ltb_irrefl in M. cbv zeta in M.
  assert (N : ((if ExpiresAt (terms l) <? LastMeteredAt (meter l) then ExpiresAt (terms l) else LastMeteredAt (meter l))
              <=? LastMeteredAt (meter l)) = true).
  { apply Z.leb_le. destruct (Z.ltb_spec (ExpiresAt (terms l)) (LastMeteredAt (meter l))); lia. }
  rewrite N in M. simplify_eq. apply bind_Ok in L as (s3 & U & L). simplify_eq.
  unfold update_lease in U. apply refuse_Ok in U as [_ U]. simplify_eq.
  unfold finalizeExpiredServiceLease in F. apply bind_Ok in F as (l1 & S1 & F). apply scan_Ok in S1.
  simpl in S1. rewrite lookup_insert_eq in S1. simplify_eq. simpl in F.
  rewrite (proj2 (Z.ltb_ge _ _)) in F by done. apply bind_Ok in F as ([s4 l4] & M & F).
  apply bind_Ok in F as (s5 & F & _).
  assert (Q : terms l4 = terms l0 ∧ sl_BuyerChargeNanos (meter l4) = 0).
  { unfold meterServiceLeaseTx in M. simpl in M. apply refuse_Ok in M as [_ M]. cbv zeta in M.
    rewrite Z.ltb_irrefl in M. destruct (_ <=? stored _); [by simplify_eq|].
    destruct (mulDiv 0 _ 1 false) as [add|] eqn:D; [|done].
    assert (add = 0). { unfold mulDiv in D. simpl in D. destruct (0 <=? _); [|unfold quo_round in D; simpl in D; by simplify_eq].
      unfold mulDiv_fast in D. simpl in D. by simplify_eq. }
    subst. rewrite C in M. simpl in M. by simplify_eq. }
  destruct Q as [QT QB]. by eapply settle_zero in F; [|rewrite QT|].
Qed.

(** *** Instances of the histories *)

Lemma demo_lookup id l : leases demo_store !! id = Some l → id = 5%N ∧ l = demo_lease.
Proof. unfold demo_store. simpl. intros H. by apply lookup_singleton_Some in H as [<- <-]. Qed.

Lemma demo_store_ok : store_ok demo_store.
Proof.
  intros id l H. apply demo_lookup in H as [-> ->]. split_and!; [done|vm_compute; reflexivity|].
  split; [apply demo_authority_width|simpl; unfold max_int64; lia|done|constructor|done|simpl; lia].
Qed.

Lemma demo_store_drift : store_drift whole_micros demo_store.
Proof. intros id l H. apply demo_lookup in H as [-> ->]. split; vm_compute; split_and?; done. Qed.

(** The tables after one heartbeat. *)
Definition demo_after : store :=
  match HeartbeatServiceLease whole_micros demo_digest demo_shape demo_store 1800000000789 8%N 9%N 5%N demo_ready with
  | Ok s => s
  | Err _ => demo_store
  end.

Definition demo_metered : ServiceLease := default demo_lease (leases demo_after !! 5%N).

Lemma demo_step : rtc (lease_step whole_micros demo_digest demo_shape demo_usd) demo_store demo_after.
Proof.
  apply rtc_once, (step_heartbeat _ _ _ _ _ 1800000000789 8%N 9%N 5%N demo_ready).
  vm_compute. reflexivity.
Qed.

Lemma lease_history_exact_witness :
  sl_BuyerChargeNanos (meter demo_metered) =
    SupplierPayableNanos (meter demo_metered) + KnownVariableCostNanos (meter demo_metered) +
    KnownContributionNanos (meter demo_metered).
Proof.
  refine (proj1 (proj2 (lease_history_exact whole_micros demo_digest demo_shape demo_usd demo_store demo_after 5%N demo_metered
    demo_store_ok demo_step _))).
  vm_compute. reflexivity.
Defined.

Lemma accrual_bounded_witness :
  CumulativeReplicaNanos (meter demo_metered) ≤ sl_MaximumReplicas (terms demo_metered) *
    (LastMeteredAt (meter demo_metered) - StartedAt (terms demo_metered) + 1000 * meter_count demo_after 5%N).
Proof.
  refine (accrual_bounded whole_micros demo_digest demo_shape demo_usd demo_store demo_after 5%N demo_metered
    whole_micros_column demo_store_ok demo_store_drift demo_step _).
  vm_compute. reflexivity.
Defined.

Definition demo_lost : store :=
  match markServiceLeaseWorkerLost whole_micros demo_digest demo_shape demo_store 5%N with
  | Ok (s, _) => s
  | Err _ => demo_store
  end.

Lemma unaccrued_lease_stuck_witness :
  finalizeExpiredServiceLease whole_micros demo_digest demo_shape demo_usd demo_lost 3600000000001 5%N ≠ Ok (demo_lost, true).
Proof.
  refine (unaccrued_lease_stuck whole_micros demo_digest demo_shape demo_usd demo_store 5%N demo_lease demo_lost
    3600000000001 demo_lost true _ _ _ _ _ _ _ _ _); vm_compute; (reflexivity || discriminate).
Defined.
