(* ===== verification/Funding.v ===== *)
(** * Funding: what a buyer's money already backs

    [buyer_open_exposure.go] defines, as SQL fragments, the funds held against a buyer:
    the residual of live prepaid jobs, the ceilings of service leases, the remainder of
    active execution envelopes, and the holds that outlive their envelope.  Three
    admission checks subtract it before they accept new work: prepaid jobs and service
    leases ([store_prepaid.go]), free-credit jobs ([accounts.go]) and realtime requests
    and envelopes ([realtime_store.go], [execution_envelope.go]).

    A fragment is a function of the tables it reads; a [SUM] is an exact sum whose
    value has to fit a [BIGINT].  The advisory lock that serialises the checks of one
    buyer is the atomicity of each operation.  Runtime profiles, their validation and
    the JSON digest of an envelope's authority are arguments. *)
From stdpp Require Import base numbers list gmap strings.
From S2P Require Import Prelude.
From S2P Require Import Float64.
From S2P Require Import Currency.
From S2P Require Import MoneyNanos.
From S2P Require Import LedgerWrite.
From S2P Require Import MicroMoney.
From S2P Require Import Purse.
From S2P Require Import Envelopes.
From S2P Require Import ServiceLeases.
Local Open Scope Z_scope.
Local Open Scope go_scope.

(** The tables the checks read. *)
Record funds := mkFunds {
  f_purse : purse;
  f_buyers : gmap UUID buyer;
  f_cards : gset UUID;                (* buyers with a default payment method *)
  f_env : envstore;
  f_leases : gmap UUID ServiceLease
}.

Definition f_books (f : funds) : db := purse_books (f_purse f).

(** ** Open exposure *)

(** Nanos rounded up to micros, as the fragments write it. *)
Definition ceil_micros (nanos : Z) : Z := (nanos + 999) /t 1000.

Definition live_job (j : job) (b : UUID) (c : string) : bool :=
  bool_decide (job_buyer j = b) && bool_decide (job_currency j = c) &&
  one_of (job_status j) ["queued"; "running"; "verifying"].

(** What the tasks and the SLA premium of a job have already taken from the balance. *)
Definition job_debited (d : db) (jobID : UUID) (c : string) : Z :=
  - sum_micros (λ r, bool_decide (kind r = KindPrepaidDebit) && bool_decide (row_currency r = c) &&
                     (of_job d jobID r || bool_decide (payout_ref r = Some (prepaidSLAPremiumDebitRef jobID)))) (ledger d).

Definition sqlOpenPrepaidJobResidualMicros (d : db) (b : UUID) (c : string) : Z :=
  sum_over (λ id j, if live_job j b c && prepaid_required j then
                      match plans d !! id with
                      | Some p => Z.max 0 (reserved_buyer_charge_micros p - job_debited d id c)
                      | None => 0
                      end
                    else 0) (jobs d).

Definition open_lease (l : ServiceLease) (b : UUID) (c : string) : bool :=
  bool_decide (sl_BuyerID (terms l) = b) && bool_decide (pd_Currency (Pricing (terms l)) = c) &&
  negb (is_terminal (sl_State l)).

Definition sqlOpenServiceLeaseReservedMicros (ls : gmap UUID ServiceLease) (b : UUID) (c : string) : Z :=
  sum_over (λ _ l, if open_lease l b c then ReservedBuyerMicros (terms l) else 0) ls.

Definition open_envelope (e : envelope) (b : UUID) (c : string) : bool :=
  bool_decide (env_BuyerID (env_grant e) = b) && bool_decide (env_Currency (env_grant e) = c) &&
  bool_decide (env_State e = ENV_ACTIVE).

Definition sqlOpenActiveEnvelopeRemainingMicros (s : envstore) (b : UUID) (c : string) : Z :=
  sum_over (λ _ e, if open_envelope e b c then ceil_micros (CapNanos (env_grant e) - SpentNanos e) else 0) (envelopes s).

Definition executing (ct : contract) (b : UUID) (c : string) : bool :=
  bool_decide (ct_buyer ct = b) && bool_decide (ct_currency ct = c) && bool_decide (ct_state ct = "EXECUTING").

(** Some spend of the contract draws on an active envelope of the currency. *)
Definition active_backed (s : envstore) (contractID : UUID) (c : string) : bool :=
  existsb (λ x, by_contract contractID x.2 &&
                match envelopes s !! sp_EnvelopeID x.2 with
                | Some e => bool_decide (env_Currency (env_grant e) = c) && bool_decide (env_State e = ENV_ACTIVE)
                | None => false
                end) (map_to_list (spends s)).

Definition orphan_hold (s : envstore) (sp : spend) (b : UUID) (c : string) : bool :=
  bool_decide (sp_State sp = RESERVED) &&
  match ContractID sp with
  | Some id => match env_contracts s !! id with
               | Some ct => executing ct b c && negb (active_backed s id c)
               | None => false
               end
  | None => false
  end.

Definition sqlOpenOrphanEnvelopeSpendMicros (s : envstore) (b : UUID) (c : string) : Z :=
  sum_over (λ _ sp, if orphan_hold s sp b c then ceil_micros (ReservedNanos sp) else 0) (spends s).

(** Live jobs outside the prepaid rail: the residual of the plan, or the estimate. *)
Definition sqlOpenNonPrepaidJobResidualMicros (d : db) (b : UUID) (c : string) : Z :=
  sum_over (λ id j, if live_job j b c && negb (prepaid_required j) then
                      match plans d !! id with
                      | Some p => Z.max 0 (reserved_buyer_charge_micros p - job_debited d id c)
                      | None => Z.max 0 (estimated_micros j)
                      end
                    else 0) (jobs d).

Definition ceiling_micros (ct : contract) : Z :=
  if 0 <? accepted_ceiling_nanos ct then ceil_micros (accepted_ceiling_nanos ct) else maximum_price_micros ct.

Definition has_spend (s : envstore) (contractID : UUID) : bool :=
  existsb (λ x, by_contract contractID x.2) (map_to_list (spends s)).

Definition sqlOpenNonEnvelopeExecutingCeilingMicros (s : envstore) (b : UUID) (c : string) : Z :=
  sum_over (λ id ct, if executing ct b c && negb (has_spend s id) then ceiling_micros ct else 0) (env_contracts s).

(** The four arms of the canonical exposure, in the order of their sum. *)
Definition open_exposure (f : funds) (b : UUID) (c : string) : Z :=
  sqlOpenPrepaidJobResidualMicros (f_books f) b c + sqlOpenServiceLeaseReservedMicros (f_leases f) b c +
  sqlOpenActiveEnvelopeRemainingMicros (f_env f) b c + sqlOpenOrphanEnvelopeSpendMicros (f_env f) b c.

(** Every sum the arms compute, left to right, fits a [BIGINT]. *)
Definition exposure_fits (f : funds) (b : UUID) (c : string) : bool :=
  let j := sqlOpenPrepaidJobResidualMicros (f_books f) b c in
  let l := sqlOpenServiceLeaseReservedMicros (f_leases f) b c in
  let e := sqlOpenActiveEnvelopeRemainingMicros (f_env f) b c in
  let o := sqlOpenOrphanEnvelopeSpendMicros (f_env f) b c in
  is_int64 j && is_int64 l && is_int64 (j + l) && is_int64 e && is_int64 (j + l + e) && is_int64 o &&
  is_int64 (j + l + e + o).

Definition sqlBuyerOpenExposureMicros (f : funds) (b : UUID) (c : string) : res Z :=
  refuse errOutOfRange if negb (exposure_fits f b c);
  Ok (open_exposure f b c).

Definition sqlBuyerCommittedMoneyMicros (f : funds) (b : UUID) (c : string) : res Z :=
  open ← sqlBuyerOpenExposureMicros f b c;
  let n := sqlOpenNonPrepaidJobResidualMicros (f_books f) b c in
  let x := sqlOpenNonEnvelopeExecutingCeilingMicros (f_env f) b c in
  refuse errOutOfRange if negb (is_int64 n && is_int64 (open + n) && is_int64 x && is_int64 (open + n + x));
  Ok (open + n + x).

(** ** Prepaid admission *)

Section Operations.
Context (st : settlement).

Definition prepaidOpenReservationMicrosInCurrency (f : funds) (b : UUID) (currency : string) : res Z :=
  _ ← ParseCurrency currency;
  sqlBuyerOpenExposureMicros f b currency.

(** The hold of realtime ceilings, cast to [BIGINT]. *)
Definition executing_hold (f : funds) (b : UUID) (c : string) : res Z :=
  let x := sqlOpenNonEnvelopeExecutingCeilingMicros (f_env f) b c in
  refuse errOutOfRange if negb (is_int64 x);
  Ok x.

(** [buyerPrepaidBalanceMicrosInCurrency] reads under the canonical code. *)
Definition buyerPrepaidBalanceMicrosInCurrency (f : funds) (b : UUID) (currency : string) : res Z :=
  cur ← ParseCurrency currency;
  Ok (balance_of (f_purse f) b (code cur)).

Definition BuyerPrepaidAvailableMicros (f : funds) (b : UUID) : res Z :=
  let currency := SettlementCurrencyCode st in
  bal ← buyerPrepaidBalanceMicrosInCurrency f b currency;
  reserved ← prepaidOpenReservationMicrosInCurrency f b currency;
  executingHold ← executing_hold f b currency;
  let held := reserved +w executingHold in
  if bal <=? held then Ok 0 else Ok (bal -w held).

Definition reservePrepaidForJobTx (f : funds) (buyerID : UUID) (amountMicros : Z) : res unit :=
  refuse (Errorf "prepaid reservation requires buyer and positive ledger micros")
    if bool_decide (buyerID = uuid_Nil) || (amountMicros <=? 0);
  let currency := SettlementCurrencyCode st in
  _ ← ParseCurrency currency;
  let balance := balance_of (f_purse f) buyerID currency in
  reserved ← prepaidOpenReservationMicrosInCurrency f buyerID currency;
  executingHold ← executing_hold f buyerID currency;
  refuse errInsufficientPrepaid if (balance -w reserved) -w executingHold <? amountMicros;
  Ok tt.

Definition reservePrepaidForServiceLeaseTx (f : funds) (buyerID : UUID) (amountMicros : Z) : res unit :=
  refuse errNotFound if bool_decide (buyerID = uuid_Nil);
  match f_buyers f !! buyerID with
  | None => Err errNotFound
  | Some b =>
      refuse errNotFound if negb (buyer_active b);
      reservePrepaidForJobTx f buyerID amountMicros
  end.

(** ** Free credit *)

Definition errInsufficientFreeCredit : error := Sentinel "errInsufficientFreeCredit".

Definition reserveFreeCreditForJobTx (f : funds) (buyerID : UUID) (needMicros : Z) : res unit :=
  refuse errNotFound if bool_decide (buyerID = uuid_Nil);
  refuse (Errorf "free-credit reservation requires positive ledger micros") if needMicros <=? 0;
  settlement ← SettlementCurrency st;
  match f_buyers f !! buyerID with
  | None => Err errNotFound
  | Some b =>
      refuse errNotFound if negb (buyer_active b);
      let freeCredit := microsToUSD (free_credit_micros b) in
      let spent := microsToUSD (buyer_spent (f_books f) buyerID "usd") in
      committedMicros ← sqlBuyerCommittedMoneyMicros f buyerID "usd";
      if bool_decide (buyerID ∈ f_cards f) then Ok tt
      else
        refuse errInsufficientFreeCredit if negb (bool_decide (code settlement = "usd"));
        let remainingMicros := (usdToMicros freeCredit -w usdToMicros spent) -w committedMicros in
        refuse errInsufficientFreeCredit if remainingMicros <? needMicros;
        Ok tt
  end.

(** ** Realtime funding *)

Definition errRealtimeInsufficientFunds : error := Sentinel "errRealtimeInsufficientFunds".
Definition errRealtimeFreeCreditCurrencyMismatch : error := Sentinel "errRealtimeFreeCreditCurrencyMismatch".
Definition errRealtimeTopupRequired : error := Sentinel "errRealtimeTopupRequired".

Definition ceilNanosToMicros (nanos : Z) : Z :=
  if nanos <=? 0 then 0 else ((nanos +w NanosPerMicro) -w 1) /t NanosPerMicro.

(** Net prepaid debits: what has left the balance for work already charged. *)
Definition buyer_debited (d : db) (b : UUID) (c : string) : Z :=
  - sum_micros (λ r, bool_decide (buyer_id r = Some b) && bool_decide (row_currency r = c) &&
                     one_of (kind r) [KindPrepaidDebit; KindPrepaidRestore]) (ledger d).

Definition evaluateRealtimeBuyerFunding (f : funds) (buyerID : UUID) (needNanos : Z) : res unit :=
  refuse (Errorf "realtime funding need must be non-negative") if needNanos <? 0;
  let currency := SettlementCurrencyCode st in
  _ ← ParseCurrency currency;
  match f_buyers f !! buyerID with
  | None => Err errNotFound
  | Some b =>
      refuse errNotFound if negb (buyer_active b);
      let freeCreditUSDRaw := microsToUSD (free_credit_micros b) in
      let freeCredit := if bool_decide (currency = "usd") then freeCreditUSDRaw else f64_of_Z 0 in
      let prepaidMicros := balance_of (f_purse f) buyerID currency in
      let spent := microsToUSD (buyer_spent (f_books f) buyerID currency) in
      let prepaidDebited := microsToUSD (buyer_debited (f_books f) buyerID currency) in
      committedMicros ← sqlBuyerCommittedMoneyMicros f buyerID currency;
      let needMicros := ceilNanosToMicros needNanos in
      refuse (Errorf "realtime funding need must be non-negative") if needMicros <? 0;
      let availableMicros :=
        ((((usdToMicros freeCredit +w prepaidMicros) -w usdToMicros spent) +w usdToMicros prepaidDebited) -w committedMicros) in
      if needMicros <=? availableMicros then Ok tt
      else
        refuse (Wrapf errRealtimeFreeCreditCurrencyMismatch "%w: free credit is denominated in usd and cannot fund %s settlement")
          if negb (bool_decide (currency = "usd")) && f64_ltb (f64_of_Z 0) freeCreditUSDRaw &&
             (needMicros <=? availableMicros +w usdToMicros freeCreditUSDRaw);
        refuse errRealtimeTopupRequired if bool_decide (buyerID ∈ f_cards f);
        Err errRealtimeInsufficientFunds
  end.

(** ** Creating an envelope *)

Definition executionEnvelopeAuthorityVersion : Z := 1.
Definition executionEnvelopeRoundingPolicy : string := "execution-envelope-nanos-v1".
Definition executionEnvelopeMaxTTL : Z := 86400.      (* seconds *)
Definition executionEnvelopeMinTTL : Z := 30.
Definition executionEnvelopeMaxRequests : Z := 100000.
Definition executionEnvelopeMaxTokensCap : Z := 1000000000.

Record ExecutionEnvelopeCreateRequest := mkCreateRequest {
  req_RuntimeProfileID : string;
  req_CapNanos : Z;
  req_MaxRequests : Z;
  req_MaxTokens : Z;
  req_PerRequestCeilingNanos : Z;
  TTLSeconds : Z
}.

(** The authority document; its buyer and expiry, texts in the source, are kept as the
    values they print. *)
Record ExecutionEnvelopeAuthority := mkEnvAuthority {
  ea_Version : Z;
  ea_grant : grant;
  BuyerInputNanosPerMillion : Z;
  BuyerOutputNanosPerMillion : Z;
  ea_RoundingPolicy : string
}.

Definition bounds_invalid (capNanos maxRequests maxTokens ceilingNanos : Z) : bool :=
  (capNanos <=? 0) || (ceilingNanos <=? 0) || (capNanos <? ceilingNanos) || (maxRequests <? 1) ||
  (executionEnvelopeMaxRequests <? maxRequests) || (maxTokens <? 0) || (executionEnvelopeMaxTokensCap <? maxTokens).

Definition validateExecutionEnvelopeAuthority (a : ExecutionEnvelopeAuthority) : res unit :=
  let g := ea_grant a in
  refuse (Errorf "execution envelope authority has unsupported version or rounding policy")
    if negb (ea_Version a =? executionEnvelopeAuthorityVersion) ||
       negb (bool_decide (ea_RoundingPolicy a = executionEnvelopeRoundingPolicy));
  _ ← RequireSettlementCurrency st (env_Currency g);
  refuse (Errorf "execution envelope authority has invalid spend or request bounds")
    if bounds_invalid (CapNanos g) (MaxRequests g) (MaxTokens g) (PerRequestCeilingNanos g);
  refuse (Errorf "execution envelope authority lacks runtime scope")
    if bool_decide (env_ProfileID g = "") || negb (validSHA256 (env_ProfileSHA256 g)) ||
       bool_decide (trim_space (env_ModelAlias g) = "");
  refuse (Errorf "execution envelope authority lacks positive buyer token rates")
    if (BuyerInputNanosPerMillion a <=? 0) || (BuyerOutputNanosPerMillion a <=? 0);
  Ok tt.

Context (vllmProfileByID : string → option envelope_profile).
Context (validateVLLMRuntimeProfile : envelope_profile → res unit).
Context (marshalAndHash : ExecutionEnvelopeAuthority → res string).

Definition executionEnvelopeAuthorityDigest (a : ExecutionEnvelopeAuthority) : res string :=
  _ ← validateExecutionEnvelopeAuthority a;
  marshalAndHash a.

Definition with_env (f : funds) (s : envstore) : funds := mkFunds (f_purse f) (f_buyers f) (f_cards f) s (f_leases f).

(** The row [CreateExecutionEnvelope] inserts under the new identity [id]. *)
Definition CreateExecutionEnvelope (f : funds) (id buyerID : UUID) (req : ExecutionEnvelopeCreateRequest) (now : Z) :
    res (ExecutionEnvelopeAuthority * string * funds) :=
  refuse (Errorf "execution envelope requires a buyer") if bool_decide (buyerID = uuid_Nil);
  match vllmProfileByID (trim_space (req_RuntimeProfileID req)) with
  | None => Err (Errorf "unknown runtime profile for execution envelope")
  | Some profile =>
      _ ← validateVLLMRuntimeProfile profile;
      currency ← SettlementCurrency st;
      refuse (Errorf "execution envelope bounds are invalid")
        if bounds_invalid (req_CapNanos req) (req_MaxRequests req) (req_MaxTokens req) (req_PerRequestCeilingNanos req);
      refuse (Errorf "execution envelope ttl must be between %s and %s")
        if (TTLSeconds req <? executionEnvelopeMinTTL) || (executionEnvelopeMaxTTL <? TTLSeconds req);
      buyerIn ← nanoRatePerMillionFromFloat (BuyerInputUSDPerMillionTokens profile);
      buyerOut ← nanoRatePerMillionFromFloat (BuyerOutputUSDPerMillionTokens profile);
      let g := mkGrant buyerID (code currency) (req_CapNanos req) (req_MaxRequests req) (req_MaxTokens req)
                 (req_PerRequestCeilingNanos req) (vp_RuntimeProfileID profile) (vp_ProfileSHA256 profile)
                 (vp_ModelAlias profile) (now + TTLSeconds req * 1000000000) in
      let authority := mkEnvAuthority executionEnvelopeAuthorityVersion g buyerIn buyerOut executionEnvelopeRoundingPolicy in
      _ ← validateExecutionEnvelopeAuthority authority;
      digest ← executionEnvelopeAuthorityDigest authority;
      _ ← evaluateRealtimeBuyerFunding f buyerID (req_CapNanos req);
      refuse errUniqueViolation if bool_decide (envelopes (f_env f) !! id ≠ None);
      refuse errCheckViolation if negb (sha_check (Some (env_ProfileSHA256 g))) || negb (sha_check (Some digest));
      s ← write_envelope (f_env f) id (fresh_envelope g);
      Ok (authority, digest, with_env f (log_envelope s id "CREATED"))
  end.

End Operations.

(** ** The account a buyer sees

    The specification of the rails: a buyer has cash and holds against it; work is
    admitted only against free cash, spending a hold spends cash, and only free cash
    can be withdrawn. *)
Inductive account_step : Z * Z → Z * Z → Prop :=
  | acc_admit cash held m : 0 < m → held + m ≤ cash → account_step (cash, held) (cash, held + m)
  | acc_spend cash held m : 0 < m ≤ held → account_step (cash, held) (cash - m, held - m)
  | acc_release cash held m : 0 < m ≤ held → account_step (cash, held) (cash, held - m)
  | acc_deposit cash held m : 0 < m → account_step (cash, held) (cash + m, held)
  | acc_withdraw cash held m : 0 < m ≤ cash - held → account_step (cash, held) (cash - m, held).

(** Holds never exceed cash, and cash is never negative. *)
Definition account_ok (a : Z * Z) : Prop := 0 ≤ a.2 ≤ a.1.

Lemma account_step_ok a a' : account_ok a → account_step a a' → account_ok a'.
Proof. unfold account_ok. intros O H. destruct H; simpl in *; lia. Qed.

Definition executing_ceilings (f : funds) (b : UUID) (c : string) : Z :=
  sqlOpenNonEnvelopeExecutingCeilingMicros (f_env f) b c.

(** The account of a buyer in a currency, read off the tables. *)
Definition account (f : funds) (b : UUID) (c : string) : Z * Z :=
  (balance_of (f_purse f) b c, open_exposure f b c + executing_ceilings f b c).

(** *** How rows move the arms *)

Lemma job_debited_frame d d' id c : ledger d' = ledger d → tasks d' = tasks d → job_debited d' id c = job_debited d id c.
Proof. intros L T. unfold job_debited, of_job. by rewrite L, T. Qed.

(** A job that was just made has no debits. *)
Lemma job_debited_fresh d id c :
  (∀ t, tasks d !! t ≠ Some id) → ledger_by_ref d KindPrepaidDebit (prepaidSLAPremiumDebitRef id) = None →
  job_debited d id c = 0.
Proof.
  intros T N. pose proof (proj1 (ledger_by_ref_None _ _ _) N) as N'. unfold job_debited.
  assert (∀ l, (∀ r, r ∈ l → r ∈ ledger d) → sum_micros (λ r, bool_decide (kind r = KindPrepaidDebit) && bool_decide (row_currency r = c) &&
     (of_job d id r || bool_decide (payout_ref r = Some (prepaidSLAPremiumDebitRef id)))) l = 0) as ->; [|done|done].
  induction l as [|r l IH]; intros S; [done|]. rewrite sum_micros_cons, IH by (intros; apply S; by right).
  assert (of_job d id r = false) as ->.
  { unfold of_job. destruct (task_id r); [|done]. by apply bool_decide_eq_false. }
  destruct (decide (kind r = KindPrepaidDebit)) as [K|K]; [|by rewrite bool_decide_false].
  rewrite (bool_decide_false (payout_ref r = _)) by (apply N'; [apply S; left|done]). by rewrite andb_false_r.
Qed.

(** A row of the ledger moves the debits of the jobs it counts for. *)
Lemma job_debited_snoc d r id c :
  job_debited (with_ledger d (ledger d ++ [r])) id c =
  job_debited d id c - (if bool_decide (kind r = KindPrepaidDebit) && bool_decide (row_currency r = c) &&
                          (of_job d id r || bool_decide (payout_ref r = Some (prepaidSLAPremiumDebitRef id)))
                        then amount_micros r else 0).
Proof.
  unfold job_debited. simpl. rewrite sum_micros_app, sum_micros_cons. change (sum_micros _ []) with 0.
  change (of_job (with_ledger d (ledger d ++ [r]))) with (of_job d). lia.
Qed.

Lemma ceil_micros_bounds n : 0 ≤ n → n ≤ 1000 * ceil_micros n < n + 1000.
Proof. intros H. unfold ceil_micros. Z.to_euclidean_division_equations. lia. Qed.

(** ** Admitting a prepaid job *)

Definition add_job (f : funds) (id : UUID) (j : job) (p : plan) : funds :=
  let d := f_books f in
  mkFunds (with_purse_books (f_purse f) (mkDb (ledger d) (tasks d) (<[id := j]> (jobs d)) (<[id := p]> (plans d))))
    (f_buyers f) (f_cards f) (f_env f) (f_leases f).

Lemma residual_add_job f id j p b c :
  jobs (f_books f) !! id = None → (∀ t, tasks (f_books f) !! t ≠ Some id) →
  ledger_by_ref (f_books f) KindPrepaidDebit (prepaidSLAPremiumDebitRef id) = None → 0 ≤ reserved_buyer_charge_micros p →
  sqlOpenPrepaidJobResidualMicros (f_books (add_job f id j p)) b c =
  sqlOpenPrepaidJobResidualMicros (f_books f) b c +
  (if live_job j b c && prepaid_required j then reserved_buyer_charge_micros p else 0).
Proof.
  intros N T S P. unfold sqlOpenPrepaidJobResidualMicros. simpl. rewrite sum_over_fresh by done. rewrite lookup_insert_eq.
  rewrite (job_debited_frame (f_books f)) by done. rewrite job_debited_fresh by done.
  rewrite Z.sub_0_r, Z.max_r, Z.add_comm by done. f_equal. apply sum_over_ext. intros i j' L.
  rewrite lookup_insert_ne by congruence. by rewrite (job_debited_frame (f_books f)).
Qed.

Lemma account_add_job f id j p b c :
  jobs (f_books f) !! id = None → (∀ t, tasks (f_books f) !! t ≠ Some id) →
  ledger_by_ref (f_books f) KindPrepaidDebit (prepaidSLAPremiumDebitRef id) = None → 0 ≤ reserved_buyer_charge_micros p →
  account (add_job f id j p) b c =
  ((account f b c).1, (account f b c).2 + (if live_job j b c && prepaid_required j then reserved_buyer_charge_micros p else 0)).
Proof.
  intros N T S P. unfold account, open_exposure, executing_ceilings. rewrite residual_add_job by done. simpl. f_equal. lia.
Qed.

(** *** Rows the tables can hold *)

Record funds_ok (f : funds) : Prop := {
  fo_leases id l : f_leases f !! id = Some l → 0 ≤ ReservedBuyerMicros (terms l);
  fo_env : env_ok (f_env f);
  fo_prices id ct : env_contracts (f_env f) !! id = Some ct → 0 ≤ maximum_price_micros ct
}.

Lemma ceiling_nonneg ct : 0 ≤ maximum_price_micros ct → 0 ≤ ceiling_micros ct.
Proof.
  intros P. unfold ceiling_micros. destruct (Z.ltb_spec 0 (accepted_ceiling_nanos ct)); [|done].
  pose proof (ceil_micros_bounds (accepted_ceiling_nanos ct)). lia.
Qed.

Lemma residual_nonneg d b c : 0 ≤ sqlOpenPrepaidJobResidualMicros d b c.
Proof.
  apply sum_over_nonneg. intros i j _. destruct (_ && _); [|done]. destruct (plans d !! i); lia.
Qed.

Lemma other_residual_nonneg d b c : 0 ≤ sqlOpenNonPrepaidJobResidualMicros d b c.
Proof.
  apply sum_over_nonneg. intros i j _. destruct (_ && _); [|done]. destruct (plans d !! i); lia.
Qed.

Section Arms.
Context (f : funds) (O : funds_ok f) (b : UUID) (c : string).

Lemma leases_nonneg : 0 ≤ sqlOpenServiceLeaseReservedMicros (f_leases f) b c.
Proof using O. apply sum_over_nonneg. intros i l L. destruct (open_lease _ _ _); [|done]. by eapply fo_leases. Qed.

Lemma envelopes_nonneg : 0 ≤ sqlOpenActiveEnvelopeRemainingMicros (f_env f) b c.
Proof using O.
  apply sum_over_nonneg. intros i e L. destruct (open_envelope _ _ _); [|done].
  destruct (ok_envelope _ (fo_env f O) i e L) as [_ C]. unfold envelope_checks in C. cbv zeta in C. reflect_bools.
  pose proof (ceil_micros_bounds (CapNanos (env_grant e) - SpentNanos e)). lia.
Qed.

Lemma orphans_nonneg : 0 ≤ sqlOpenOrphanEnvelopeSpendMicros (f_env f) b c.
Proof using O.
  apply sum_over_nonneg. intros i sp L. destruct (orphan_hold _ _ _ _); [|done].
  destruct (ok_spend _ (fo_env f O) i sp L) as [C _]. unfold spend_checks in C. reflect_bools.
  pose proof (ceil_micros_bounds (ReservedNanos sp)). lia.
Qed.

Lemma ceilings_nonneg : 0 ≤ executing_ceilings f b c.
Proof using O.
  apply sum_over_nonneg. intros i ct L. destruct (_ && _); [|done]. by eapply ceiling_nonneg, fo_prices.
Qed.

Lemma exposure_nonneg : 0 ≤ open_exposure f b c.
Proof using O.
  unfold open_exposure. pose proof leases_nonneg. pose proof envelopes_nonneg. pose proof orphans_nonneg.
  pose proof (residual_nonneg (f_books f) b c). lia.
Qed.

(** Arms that the cash covers fit their columns. *)
Lemma exposure_in_range :
  open_exposure f b c ≤ max_int64 → sqlBuyerOpenExposureMicros f b c = Ok (open_exposure f b c).
Proof using O.
  intros M. unfold sqlBuyerOpenExposureMicros.
  assert (exposure_fits f b c = true) as ->; [|done]. unfold exposure_fits. cbv zeta.
  pose proof leases_nonneg. pose proof envelopes_nonneg. pose proof orphans_nonneg.
  pose proof (residual_nonneg (f_books f) b c). unfold open_exposure in M.
  rewrite !andb_true_iff, !is_int64_spec. width. lia.
Qed.

Lemma executing_in_range :
  executing_ceilings f b c ≤ max_int64 → executing_hold f b c = Ok (executing_ceilings f b c).
Proof using O.
  intros M. unfold executing_hold. fold (executing_ceilings f b c). pose proof ceilings_nonneg.
  by rewrite (proj2 (is_int64_spec _)) by (width; lia).
Qed.

End Arms.

(** C16: prepaid admission is exact.  When the holds of a buyer are covered by cash,
    the check for a prepaid job accepts an amount exactly when the free cash covers
    it, and a job admitted by the check is a step of the account that keeps the holds
    of every buyer covered. *)
Theorem prepaid_admission st s f b m id j p :
  SettlementCurrency st = Ok s → funds_ok f → account_ok (account f b (code s)) → (account f b (code s)).1 ≤ max_int64 →
  reservePrepaidForJobTx st f b m =
    (if bool_decide (b = uuid_Nil) || (m <=? 0)
     then Err (Errorf "prepaid reservation requires buyer and positive ledger micros")
     else if (account f b (code s)).2 + m <=? (account f b (code s)).1 then Ok tt else Err errInsufficientPrepaid) ∧
  (reservePrepaidForJobTx st f b m = Ok tt → job_buyer j = b → job_currency j = code s → job_status j = "queued" →
   prepaid_required j = true → reserved_buyer_charge_micros p = m →
   jobs (f_books f) !! id = None → (∀ t, tasks (f_books f) !! t ≠ Some id) →
   ledger_by_ref (f_books f) KindPrepaidDebit (prepaidSLAPremiumDebitRef id) = None →
   account_step (account f b (code s)) (account (add_job f id j p) b (code s)) ∧
   ∀ b' c', account_ok (account f b' c') → account_ok (account (add_job f id j p) b' c')).
Proof.
  intros S O A W.
  assert (Currency_Valid s = true) as V.
  { unfold SettlementCurrency in S. apply refuse_Ok in S as [_ S]. apply refuse_Ok in S as [V S]. reflect_bools. by simplify_eq. }
  assert (SettlementCurrencyCode st = code s) as Cd by (unfold SettlementCurrencyCode; by rewrite S).
  pose proof (exposure_nonneg f O b (code s)) as P. pose proof (ceilings_nonneg f O b (code s)) as E.
  unfold account_ok, account in A, W. simpl in A, W.
  assert (reservePrepaidForJobTx st f b m =
    (if bool_decide (b = uuid_Nil) || (m <=? 0)
     then Err (Errorf "prepaid reservation requires buyer and positive ledger micros")
     else if (account f b (code s)).2 + m <=? (account f b (code s)).1 then Ok tt else Err errInsufficientPrepaid)) as R.
  { unfold reservePrepaidForJobTx, prepaidOpenReservationMicrosInCurrency. rewrite Cd, ParseCurrency_code by done. simpl.
    rewrite exposure_in_range by (done || lia). simpl. rewrite executing_in_range by (done || lia). simpl.
    rewrite (wrap64_id (_ - open_exposure _ _ _)), wrap64_id by (width; lia).
    destruct (_ || _); [done|]. destruct (Z.ltb_spec (balance_of (f_purse f) b (code s) - open_exposure f b (code s) - executing_ceilings f b (code s)) m),
      (Z.leb_spec (open_exposure f b (code s) + executing_ceilings f b (code s) + m) (balance_of (f_purse f) b (code s))); done || lia. }
  split; [exact R|]. rewrite R. intros Hok Hb Hc Hs Hp Hr N T L. subst m.
  destruct (_ || _) eqn:G in Hok; [done|]. reflect_bools. destruct (Z.leb_spec ((account f b (code s)).2 + reserved_buyer_charge_micros p) (account f b (code s)).1) as [Le|]; [|done].
  assert (∀ b' c', live_job j b' c' && prepaid_required j = bool_decide (b = b' ∧ code s = c')) as Lv.
  { intros b' c'. unfold live_job. rewrite Hb, Hc, Hs, Hp. repeat case_bool_decide; naive_solver. }
  split.
  - rewrite account_add_job by (done || lia). rewrite Lv, bool_decide_true by done. destruct (account f b (code s)). by apply acc_admit.
  - intros b' c' A'. rewrite account_add_job by (done || lia). rewrite Lv.
    destruct (decide (b = b' ∧ code s = c')) as [[<- <-]|D].
    + rewrite bool_decide_true by done. unfold account_ok in *. simpl in *. lia.
    + rewrite bool_decide_false, Z.add_0_r by done. by destruct (account f b' c').
Qed.

(** ** Admitting realtime work *)

Definition add_contract (f : funds) (id : UUID) (ct : contract) : funds :=
  with_env f (with_contracts (f_env f) (<[id := ct]> (env_contracts (f_env f)))).

Lemma has_spend_false s id : has_spend s id = false ↔ ∀ i sp, spends s !! i = Some sp → ContractID sp ≠ Some id.
Proof.
  unfold has_spend. rewrite <-not_true_iff_false, existsb_exists. split.
  - intros H i sp L C. apply H. exists (i, sp). rewrite <-list_elem_of_In, elem_of_map_to_list. split; [done|].
    unfold by_contract. simpl. by rewrite bool_decide_true.
  - intros H ([i sp] & L & C). rewrite <-list_elem_of_In, elem_of_map_to_list in L. unfold by_contract in C. simpl in C.
    reflect_bools. by eapply H.
Qed.

Lemma account_add_contract f id ct b c :
  env_contracts (f_env f) !! id = None → has_spend (f_env f) id = false →
  account (add_contract f id ct) b c =
  ((account f b c).1, (account f b c).2 + if executing ct b c then ceiling_micros ct else 0).
Proof.
  intros N S. set (f' := add_contract f id ct).
  assert (sqlOpenOrphanEnvelopeSpendMicros (f_env f') b c = sqlOpenOrphanEnvelopeSpendMicros (f_env f) b c) as E1.
  { apply sum_over_ext. intros i sp L. unfold orphan_hold. simpl. destruct (ContractID sp) as [k|] eqn:C; [|done].
    rewrite lookup_insert_ne; [done|]. intros ->. by apply (proj1 (has_spend_false _ _) S i sp L). }
  assert (executing_ceilings f' b c = executing_ceilings f b c + if executing ct b c then ceiling_micros ct else 0) as E2.
  { transitivity (sum_over (λ k x, if executing x b c && negb (has_spend (f_env f) k) then ceiling_micros x else 0)
                    (<[id := ct]> (env_contracts (f_env f)))); [done|].
    rewrite sum_over_fresh, S by done. simpl. rewrite andb_true_r. unfold executing_ceilings. apply Z.add_comm. }
  unfold account, open_exposure. rewrite E1, E2. cbn [fst snd]. f_equal.
  change (sqlOpenActiveEnvelopeRemainingMicros (f_env f') b c) with (sqlOpenActiveEnvelopeRemainingMicros (f_env f) b c).
  change (f_books f') with (f_books f). change (f_leases f') with (f_leases f). lia.
Qed.

(** Amounts the ledger and its conversions keep exactly. *)
Record modest (f : funds) (bu : buyer) (b : UUID) (c : string) : Prop := {
  mo_free : Z.abs (free_credit_micros bu) < 2 ^ 49;
  mo_spent : Z.abs (buyer_spent (f_books f) b c) < 2 ^ 49;
  mo_debited : Z.abs (buyer_debited (f_books f) b c) < 2 ^ 49;
  mo_cash : 0 ≤ balance_of (f_purse f) b c < 2 ^ 62;
  mo_held : open_exposure f b c + sqlOpenNonPrepaidJobResidualMicros (f_books f) b c + executing_ceilings f b c < 2 ^ 62
}.

(** Free credit that is neither spent nor set aside for jobs of its own rail. *)
Definition spare_credit (f : funds) (bu : buyer) (b : UUID) (c : string) : Z :=
  (if bool_decide (c = "usd") then free_credit_micros bu else 0) -
  (buyer_spent (f_books f) b c - buyer_debited (f_books f) b c) -
  sqlOpenNonPrepaidJobResidualMicros (f_books f) b c.

Lemma committed_in_range f bu b c :
  funds_ok f → modest f bu b c →
  sqlBuyerCommittedMoneyMicros f b c =
    Ok (open_exposure f b c + sqlOpenNonPrepaidJobResidualMicros (f_books f) b c + executing_ceilings f b c).
Proof.
  intros O M. pose proof (exposure_nonneg f O b c). pose proof (ceilings_nonneg f O b c).
  pose proof (other_residual_nonneg (f_books f) b c). pose proof (mo_held _ _ _ _ M).
  unfold sqlBuyerCommittedMoneyMicros. rewrite exposure_in_range by (done || width; lia). simpl.
  fold (executing_ceilings f b c).
  assert (∀ z, 0 ≤ z < 2 ^ 62 → is_int64 z = true) as I by (intros; apply is_int64_spec; width; lia).
  by rewrite !I by lia.
Qed.

Lemma ceilNanosToMicros_exact n : 0 ≤ n ≤ max_int64 - 999 → ceilNanosToMicros n = ceil_micros n.
Proof.
  intros N. unfold ceilNanosToMicros, ceil_micros, NanosPerMicro. destruct (Z.leb_spec n 0).
  - replace n with 0 by lia. done.
  - f_equal. width. Z.to_euclidean_division_equations. lia.
Qed.

Lemma settlement_code st s : SettlementCurrency st = Ok s → SettlementCurrencyCode st = code s ∧ ParseCurrency (code s) = Ok s.
Proof.
  intros S. unfold SettlementCurrencyCode. rewrite S. split; [done|]. apply ParseCurrency_code.
  unfold SettlementCurrency in S. apply refuse_Ok in S as [_ S]. apply refuse_Ok in S as [V S]. reflect_bools. by simplify_eq.
Qed.

#[local] Arguments f64_of_Z : simpl never.

(** The realtime check is the arithmetic of the pool. *)
Lemma realtime_check st s f b bu n :
  SettlementCurrency st = Ok s → funds_ok f → f_buyers f !! b = Some bu → buyer_active bu = true →
  modest f bu b (code s) → 0 ≤ n ≤ max_int64 - 999 →
  evaluateRealtimeBuyerFunding st f b n = Ok tt ↔
  (account f b (code s)).2 + ceil_micros n ≤ (account f b (code s)).1 + spare_credit f bu b (code s).
Proof.
  intros S O B Act M N. destruct (settlement_code st s S) as [Cd Pc].
  pose proof (exposure_nonneg f O b (code s)) as X1. pose proof (ceilings_nonneg f O b (code s)) as X2.
  pose proof (other_residual_nonneg (f_books f) b (code s)) as X3. pose proof (ceil_micros_bounds n ltac:(lia)) as Cb.
  unfold evaluateRealtimeBuyerFunding. rewrite (proj2 (Z.ltb_ge n 0)) by lia. rewrite Cd, Pc. simpl. rewrite B, Act. simpl.
  rewrite (committed_in_range f bu b (code s) O M). simpl. rewrite ceilNanosToMicros_exact by done.
  rewrite (proj2 (Z.ltb_ge (ceil_micros n) 0)) by lia. destruct M as [M1 M2 M3 M4 M5].
  assert (usdToMicros (if bool_decide (code s = "usd") then microsToUSD (free_credit_micros bu) else f64_of_Z 0) =
          if bool_decide (code s = "usd") then free_credit_micros bu else 0) as ->.
  { case_bool_decide; [by apply usdToMicros_microsToUSD|reflexivity]. }
  rewrite (usdToMicros_microsToUSD _ M2), (usdToMicros_microsToUSD _ M3).
  unfold account, spare_credit in *. simpl. set (F := if bool_decide (code s = "usd") then free_credit_micros bu else 0) in *.
  assert (Z.abs F < 2 ^ 49) as HF by (unfold F; case_bool_decide; lia). clearbody F.
  rewrite (wrap64_id (F + _)), (wrap64_id (F + _ - _)), (wrap64_id (F + _ - _ + _)), (wrap64_id (_ - _)) by (width; lia).
  destruct (Z.leb_spec (ceil_micros n) (F + balance_of (f_purse f) b (code s) - buyer_spent (f_books f) b (code s) +
    buyer_debited (f_books f) b (code s) - (open_exposure f b (code s) + sqlOpenNonPrepaidJobResidualMicros (f_books f) b (code s) +
    executing_ceilings f b (code s)))).
  - split; [lia|done].
  - split; [|lia]. destruct (_ && _); [done|]. by destruct (bool_decide _).
Qed.

(** C36: realtime admission pools cash with spare free credit, exactly.  A need is
    admitted exactly when the holds with it, rounded up to micros, are at most the cash
    plus the free credit that is neither spent nor set aside.  Where free credit does
    not count, in any currency but US dollars, an admitted request is a step of the
    account: it keeps the holds covered by cash. *)
Theorem realtime_admission st s f b bu n id ct :
  SettlementCurrency st = Ok s → funds_ok f → f_buyers f !! b = Some bu → buyer_active bu = true →
  modest f bu b (code s) → 0 ≤ n ≤ max_int64 - 999 →
  (evaluateRealtimeBuyerFunding st f b n = Ok tt ↔
   (account f b (code s)).2 + ceil_micros n ≤ (account f b (code s)).1 + spare_credit f bu b (code s)) ∧
  (evaluateRealtimeBuyerFunding st f b n = Ok tt → code s ≠ "usd" →
   buyer_debited (f_books f) b (code s) ≤ buyer_spent (f_books f) b (code s) →
   ct = mkContract b (code s) "EXECUTING" n (maximum_price_micros ct) → 0 < n →
   env_contracts (f_env f) !! id = None → has_spend (f_env f) id = false → account_ok (account f b (code s)) →
   account_step (account f b (code s)) (account (add_contract f id ct) b (code s)) ∧
   account_ok (account (add_contract f id ct) b (code s))).
Proof.
  intros S O B Act M N. pose proof (realtime_check st s f b bu n S O B Act M N) as I.
  pose proof (other_residual_nonneg (f_books f) b (code s)) as X3.
  split; [exact I|]. rewrite I. intros L Nu D -> Np Nc Hs A. rewrite account_add_contract by done.
  unfold executing, ceiling_micros. simpl. rewrite !bool_decide_true, (proj2 (Z.ltb_lt 0 n)) by (done || lia). simpl.
  pose proof (ceil_micros_bounds n ltac:(lia)). unfold spare_credit in L. rewrite bool_decide_false in L by done.
  unfold account, account_ok in *. simpl in *. split; [|lia]. apply acc_admit; lia.
Qed.

(** ** Settling *)

Definition with_purse (f : funds) (p : purse) : funds := mkFunds p (f_buyers f) (f_cards f) (f_env f) (f_leases f).

(** A debit of a task moves the residual of its job only. *)
Lemma residual_task_debit d r t J j b :
  kind r = KindPrepaidDebit → task_id r = Some t → payout_ref r = None → tasks d !! t = Some J → jobs d !! J = Some j →
  ∀ c, sqlOpenPrepaidJobResidualMicros (with_ledger d (ledger d ++ [r])) b c =
  sqlOpenPrepaidJobResidualMicros d b c +
  (if live_job j b c && prepaid_required j && bool_decide (row_currency r = c) then
     match plans d !! J with
     | Some p => Z.max 0 (reserved_buyer_charge_micros p - job_debited d J c + amount_micros r) -
                 Z.max 0 (reserved_buyer_charge_micros p - job_debited d J c)
     | None => 0
     end else 0).
Proof.
  intros K T P Tj L c. unfold sqlOpenPrepaidJobResidualMicros. simpl.
  assert (∀ id, of_job d id r = bool_decide (id = J)) as Oj.
  { intros id. unfold of_job. rewrite T, Tj. apply bool_decide_ext. naive_solver. }
  erewrite (sum_over_change _ (λ id j, if live_job j b c && prepaid_required j then
                 match plans d !! id with
                 | Some p => Z.max 0 (reserved_buyer_charge_micros p - job_debited d id c)
                 | None => 0
                 end else 0)); [|exact L|].
  - f_equal. rewrite job_debited_snoc, Oj, K, P, (bool_decide_true (J = J)), (bool_decide_true (KindPrepaidDebit = _)) by done.
    simpl. rewrite andb_true_r. destruct (live_job j b c && prepaid_required j); [|done]. simpl.
    destruct (plans d !! J); destruct (bool_decide (row_currency r = c)); lia.
  - intros id j' Lj N. simpl. rewrite job_debited_snoc, Oj, P, (bool_decide_false (id = J)) by done. simpl.
    by rewrite andb_false_r, Z.sub_0_r.
Qed.

(** Paying for a task spends its hold.  A first debit for a task of a live
    prepaid job, within what the job still has reserved, takes the same amount from the
    cash and from the holds of the buyer: it is a step of the account, and the holds
    stay covered. *)
Theorem task_debit_spends_hold st f b t m p' J j pl c cur :
  debitPrepaidForTaskTx st (f_purse f) b t m = Ok p' →
  (∀ r, r ∈ ledger (f_books f) → kind r = KindPrepaidDebit → task_id r ≠ Some t) →
  tasks (f_books f) !! t = Some J → jobs (f_books f) !! J = Some j → plans (f_books f) !! J = Some pl →
  job_currency j = c → ParseCurrency c = Ok cur → code cur = c →
  one_of (job_status j) ["queued"; "running"; "verifying"] = true → prepaid_required j = true →
  m ≤ reserved_buyer_charge_micros pl - job_debited (f_books f) J c → funds_ok f → account_ok (account f b c) →
  account_step (account f b c) (account (with_purse f p') b c) ∧ account_ok (account (with_purse f p') b c).
Proof.
  intros H N T L Pl Hc Pc Cc Sj Pr M O A. unfold debitPrepaidForTaskTx in H. apply refuse_Ok in H as [M0 H].
  fold (f_books f) in H. rewrite T in H. simpl in H. rewrite L in H. apply refuse_Ok in H as [Bj H].
  rewrite Hc, Pc in H. simpl in H. rewrite Cc in H. reflect_bools.
  unfold debit_once in H. apply bind_Ok in H as (p1 & Tk & H). unfold take_balance in Tk. apply refuse_Ok in Tk as [Le Tk].
  simplify_eq. apply bind_Ok in H as ([n d] & W & H). reflect_bools. simpl in W.
  apply insert_on_task_Ok in W as [(_ & _ & r & Hr & K & Tr)|(-> & r & -> & [K Am _ Tr Pr' Cr] & _)]; simpl in *.
  { exfalso. by apply (N r). }
  simplify_eq. unfold nullif in Pr'. simpl in Pr'.
  assert (row_currency r = job_currency j) as Rc by (rewrite <-Cc; apply Cr, ParseCurrency_code; by eapply ParseCurrency_Valid).
  assert (live_job j (job_buyer j) (job_currency j) = true) as Lv.
  { unfold live_job. rewrite !bool_decide_true by congruence. done. }
  set (f' := with_purse f _). assert (account f' (job_buyer j) (job_currency j) =
     ((account f (job_buyer j) (job_currency j)).1 - m, (account f (job_buyer j) (job_currency j)).2 - m)) as E.
  { unfold account, open_exposure, f'. cbn [fst snd]. f_equal.
    - simpl. rewrite balance_books, balance_set, decide_True by done. done.
    - change (f_books (with_purse f _)) with (with_ledger (f_books f) (ledger (f_books f) ++ [r])).
      rewrite (residual_task_debit (f_books f) r t J j) by done. rewrite Lv, Pr, Rc, bool_decide_true by done. simpl.
      rewrite Pl, Am. simpl. rewrite !Z.max_r by lia. unfold executing_ceilings. simpl. lia. }
  rewrite E.
  assert (m ≤ (account f (job_buyer j) (job_currency j)).2) as Mh.
  { unfold account, open_exposure. cbn [fst snd]. pose proof (leases_nonneg f O (job_buyer j) (job_currency j)).
    pose proof (envelopes_nonneg f O (job_buyer j) (job_currency j)). pose proof (orphans_nonneg f O (job_buyer j) (job_currency j)).
    pose proof (ceilings_nonneg f O (job_buyer j) (job_currency j)).
    assert (m ≤ sqlOpenPrepaidJobResidualMicros (f_books f) (job_buyer j) (job_currency j)); [|lia].
    etrans; [|apply (sum_over_elem _ _ J j); [|done]].
    - simpl. rewrite Lv, Pr, Pl. simpl. lia.
    - intros i j' _. destruct (_ && _); [|done]. destruct (plans (f_books f) !! i); lia. }
  destruct (account f (job_buyer j) (job_currency j)) as [cash held]. unfold account_ok in *. simpl in *.
  split; [by apply acc_spend|lia].
Qed.

(** A realtime charge uses free credit first and takes exactly the rest from the
    balance.  The part of the charge that the free credit not yet spent covers is not
    debited; the debit is for the remainder, and there is none when nothing remains. *)
Theorem realtime_debit_exact st buyers contracts p b id bu ct charge cur :
  b ≠ uuid_Nil → id ≠ uuid_Nil → 0 < charge < 2 ^ 49 → buyers !! b = Some bu → contracts !! id = Some ct → ct_buyer ct = b →
  ParseCurrency (ct_currency ct) = Ok cur → Z.abs (free_credit_micros bu) < 2 ^ 49 →
  Z.abs (buyer_spent (purse_books p) b (ct_currency ct)) < 2 ^ 49 →
  let free := if bool_decide (ct_currency ct = "usd") then free_credit_micros bu else 0 in
  let unspent := Z.max 0 (free - (buyer_spent (purse_books p) b (ct_currency ct) - charge)) in
  maybeDebitPrepaidForRealtimeTx st buyers contracts p b id charge =
    if charge <=? unspent then Ok p
    else debitPrepaidForExecutionContractTx st contracts p b id (charge - unspent).
Proof.
  intros B I Ch Lb Lc Eb Pc Hf Hs free unspent. unfold maybeDebitPrepaidForRealtimeTx.
  rewrite !bool_decide_false, (proj2 (Z.leb_gt charge 0)), Lb, Lc by (done || lia). simpl.
  rewrite Eb, bool_decide_true, Pc by done. simpl.
  assert (Z.abs free < 2 ^ 49) as Hff by (unfold free; case_bool_decide; lia).
  fold free. rewrite (usdToMicros_microsToUSD _ Hff), (usdToMicros_microsToUSD _ Hs).
  rewrite (wrap64_id (_ - charge)), (wrap64_id (free - _)) by (width; lia). unfold unspent. clearbody free.
  set (u := free - _). assert (Z.abs u < 2 ^ 51) by (unfold u; lia).
  destruct (Z.ltb_spec u 0).
  - rewrite Z.max_l by lia. rewrite (proj2 (Z.ltb_ge charge 0)), (proj2 (Z.leb_gt charge 0)) by lia.
    rewrite wrap64_id, (proj2 (Z.eqb_neq (charge - 0) 0)) by (width; lia). done.
  - rewrite Z.max_r by lia. destruct (Z.ltb_spec charge u).
    + rewrite wrap64_id, (proj2 (Z.eqb_eq (charge - charge) 0)), (proj2 (Z.leb_le charge u)) by (width; lia). done.
    + destruct (Z.leb_spec charge u); rewrite wrap64_id by (width; lia).
      * by rewrite (proj2 (Z.eqb_eq (charge - u) 0)) by lia.
      * by rewrite (proj2 (Z.eqb_neq (charge - u) 0)) by lia.
Qed.

(** ** Creating an envelope holds its cap *)

Lemma active_backed_fresh s s' id e k c :
  env_ok s → envelopes s !! id = None → envelopes s' = <[id := e]> (envelopes s) → spends s' = spends s →
  active_backed s' k c = active_backed s k c.
Proof.
  intros O N E S. unfold active_backed. rewrite E, S.
  assert (∀ l, (∀ i sp, (i, sp) ∈ l → spends s !! i = Some sp) →
    existsb (λ x, by_contract k x.2 &&
                match <[id := e]> (envelopes s) !! sp_EnvelopeID x.2 with
                | Some e => bool_decide (env_Currency (env_grant e) = c) && bool_decide (env_State e = ENV_ACTIVE)
                | None => false
                end) l =
    existsb (λ x, by_contract k x.2 &&
                match envelopes s !! sp_EnvelopeID x.2 with
                | Some e => bool_decide (env_Currency (env_grant e) = c) && bool_decide (env_State e = ENV_ACTIVE)
                | None => false
                end) l) as H.
  { induction l as [|[i sp] l IH]; intros In; [done|]. simpl. rewrite IH by (intros; apply In; by right).
    destruct (ok_spend s O i sp) as [_ (e0 & E0 & _)]; [apply In; left|]. rewrite lookup_insert_ne by congruence. done. }
  apply H. intros i sp. by rewrite elem_of_map_to_list.
Qed.

(** An envelope is funded when it is created.  A successful creation adds the
    cap, rounded up to micros, to the holds of the buyer and nothing else, and the holds
    are then at most the cash plus the spare free credit. *)
Theorem envelope_funded st s profiles validate hash f id b bu req now a dg f' :
  CreateExecutionEnvelope st profiles validate hash f id b req now = Ok (a, dg, f') →
  SettlementCurrency st = Ok s → funds_ok f → f_buyers f !! b = Some bu → modest f bu b (code s) →
  req_CapNanos req ≤ max_int64 - 999 →
  (account f' b (code s)).1 = (account f b (code s)).1 ∧
  (account f' b (code s)).2 = (account f b (code s)).2 + ceil_micros (req_CapNanos req) ∧
  (account f' b (code s)).2 ≤ (account f b (code s)).1 + spare_credit f bu b (code s) ∧ funds_ok f' ∧
  ∀ b' c', b' ≠ b ∨ c' ≠ code s → account f' b' c' = account f b' c'.
Proof.
  intros H S O B M Cap. unfold CreateExecutionEnvelope in H. apply refuse_Ok in H as [_ H].
  destruct (profiles _) as [pr|]; [|done]. apply bind_Ok in H as (_ & _ & H). rewrite S in H. simpl in H.
  apply refuse_Ok in H as [Bd H]. apply refuse_Ok in H as [_ H]. apply bind_Ok in H as (bi & _ & H). apply bind_Ok in H as (bo & _ & H).
  apply bind_Ok in H as (_ & _ & H). apply bind_Ok in H as (dg' & _ & H). apply bind_Ok in H as (tt' & Ev & H).
  apply refuse_Ok in H as [Fr H]. apply refuse_Ok in H as [_ H]. apply bind_Ok in H as (s1 & W & H). simplify_eq.
  apply bool_decide_eq_false, dec_stable in Fr. set (g := mkGrant _ _ _ _ _ _ _ _ _ _) in *.
  pose proof (fresh_envelope_ok (f_env f) id g s1 (fo_env f O) Fr W) as Ok1. apply write_envelope_Ok in W as (_ & _ & ->).
  unfold bounds_invalid in Bd. reflect_bools.
  assert (buyer_active bu = true) as Act.
  { unfold evaluateRealtimeBuyerFunding in Ev. apply refuse_Ok in Ev as [_ Ev]. apply bind_Ok in Ev as (? & _ & Ev).
    rewrite B in Ev. apply refuse_Ok in Ev as [X _]. by reflect_bools. }
  assert (evaluateRealtimeBuyerFunding st f b (req_CapNanos req) = Ok tt) as Ev' by (by destruct tt').
  set (f' := with_env f _).
  assert (∀ b' c', (account f' b' c').1 = (account f b' c').1 ∧
    (account f' b' c').2 = (account f b' c').2 + if bool_decide (b = b' ∧ code s = c') then ceil_micros (req_CapNanos req) else 0) as Ac.
  { intros b' c'. split; [done|].
    assert (sqlOpenOrphanEnvelopeSpendMicros (f_env f') b' c' = sqlOpenOrphanEnvelopeSpendMicros (f_env f) b' c') as E1.
    { apply sum_over_ext. intros i sp L. unfold orphan_hold. simpl. destruct (ContractID sp); [|done].
      destruct (env_contracts (f_env f) !! _); [|done]. 
      rewrite (active_backed_fresh (f_env f) _ id (fresh_envelope g)); [done|apply (fo_env f O)|done..]. }
    assert (sqlOpenActiveEnvelopeRemainingMicros (f_env f') b' c' = sqlOpenActiveEnvelopeRemainingMicros (f_env f) b' c' +
      if bool_decide (b = b' ∧ code s = c') then ceil_micros (req_CapNanos req) else 0) as E2.
    { unfold sqlOpenActiveEnvelopeRemainingMicros. simpl. rewrite sum_over_fresh by done. rewrite Z.add_comm. f_equal.
      unfold open_envelope. simpl. rewrite Z.sub_0_r, andb_true_r.
      repeat case_bool_decide; simpl; naive_solver. }
    unfold account, open_exposure. rewrite E1, E2. cbn [fst snd].
    change (executing_ceilings f' b' c') with (executing_ceilings f b' c'). change (f_books f') with (f_books f).
    change (f_leases f') with (f_leases f). lia. }
  destruct (Ac b (code s)) as [A1 A2]. rewrite bool_decide_true in A2 by done. split_and!; [done|done|..].
  - rewrite A2. by apply (realtime_check st s f b bu (req_CapNanos req)); try lia.
  - split; [apply (fo_leases f O)| |apply (fo_prices f O)]. by apply (env_ok_frame (with_envelopes (f_env f) (<[id := fresh_envelope g]> (envelopes (f_env f))))).
  - intros b' c' N. destruct (Ac b' c') as [E1 E2]. rewrite bool_decide_false, Z.add_0_r in E2 by naive_solver.
    destruct (account f' b' c'), (account f b' c'). simpl in *. by subst.
Qed.

(** ** Examples *)

Definition fund_st : settlement := mkSettlement true (mkCurrency "usd" 2).
Definition fund_buyer : buyer := mkBuyer 10000000 true.
Definition fund_ct : contract := mkContract 7%N "usd" "EXECUTING" 10000000000 10000000.
Definition fund_free_job : job := mkJob "usd" None 7%N "queued" false 10000000.
Definition fund_job : job := mkJob "usd" None 7%N "queued" true 10000000.
Definition fund_plan : plan := mkPlan "usd" 0 10000000.

(** A buyer with ten dollars of free credit and ten dollars of cash. *)
Definition fund_start : funds :=
  mkFunds (mkPurse (mkDb [] ∅ ∅ ∅) {[ (7%N, "usd") := 10000000 ]}) {[ 7%N := fund_buyer ]} ∅ no_envelopes ∅.
Definition fund_one : funds := add_job fund_start 31%N fund_free_job fund_plan.
Definition fund_two : funds := add_contract fund_one 41%N fund_ct.

(** The realtime request has run and is charged in full. *)
Definition fund_charge : ledgerInsert :=
  mkLedgerInsert KindBuyerCharge None (Some 7%N) None (Some 41%N) (-10000000) "usd" ledgerCurrencyAuthorityExecutionContract ""
    PayoutReleased None "" "" "" "".
Definition fund_charged : funds :=
  let f := add_contract fund_one 41%N (mkContract 7%N "usd" "SETTLED" 10000000000 10000000) in
  with_purse f (with_purse_books (f_purse f) (ok_or (0, f_books f) (insertLedgerEntryTx fund_st (f_books f) fund_charge)).2).

(** Free credit set aside for a job can be spent by a realtime request and the cash
    that replaced it withdrawn.  A buyer with ten dollars of free credit and ten of cash
    starts a free-credit job of ten dollars and a realtime request of ten dollars; the
    request is charged to the free credit first and nothing is debited, so all the cash
    still counts as available while the job's ten dollars have nothing left to back them. *)
Theorem free_credit_spent_from_under_job :
  reserveFreeCreditForJobTx fund_st fund_start 7%N 10000000 = Ok tt ∧
  evaluateRealtimeBuyerFunding fund_st fund_one 7%N 10000000000 = Ok tt ∧
  maybeDebitPrepaidForRealtimeTx fund_st (f_buyers fund_charged) (env_contracts (f_env fund_charged)) (f_purse fund_charged)
    7%N 41%N 10000000 = Ok (f_purse fund_charged) ∧
  buyer_spent (f_books fund_charged) 7%N "usd" = free_credit_micros fund_buyer ∧
  sqlOpenNonPrepaidJobResidualMicros (f_books fund_charged) 7%N "usd" = 10000000 ∧
  BuyerPrepaidAvailableMicros fund_st fund_charged 7%N = Ok 10000000.
Proof. vm_compute. done. Qed.

Lemma no_envelopes_ok : env_ok no_envelopes.
Proof. apply env_reachable_ok. apply rtc_refl. Qed.

Lemma fund_start_ok : funds_ok fund_start.
Proof. split; simpl; [intros *; by rewrite lookup_empty|apply no_envelopes_ok|intros *; by rewrite lookup_empty]. Qed.

Lemma fund_start_modest : modest fund_start fund_buyer 7%N "usd".
Proof. split; vm_compute; try done; split; done. Qed.

Lemma prepaid_admission_witness :
  reservePrepaidForJobTx fund_st fund_start 7%N 10000000 = Ok tt ∧
  reservePrepaidForJobTx fund_st fund_start 7%N 10000001 = Err errInsufficientPrepaid ∧
  account_step (account fund_start 7%N "usd") (account (add_job fund_start 31%N fund_job fund_plan) 7%N "usd").
Proof.
  assert (account_ok (account fund_start 7%N "usd")) as A by (split; vm_compute; discriminate).
  split; [vm_compute; reflexivity|].
  split.
  - rewrite (proj1 (prepaid_admission fund_st (mkCurrency "usd" 2) fund_start 7%N 10000001 31%N fund_job fund_plan
      eq_refl fund_start_ok A ltac:(vm_compute; discriminate))). vm_compute. reflexivity.
  - apply (proj2 (prepaid_admission fund_st (mkCurrency "usd" 2) fund_start 7%N 10000000 31%N fund_job fund_plan
      eq_refl fund_start_ok A ltac:(vm_compute; discriminate))); try (vm_compute; reflexivity).
    intros t. simpl. by rewrite lookup_empty.
Defined.

(** The same account in a currency free credit does not reach. *)
Definition fund_cad : funds :=
  mkFunds (mkPurse (mkDb [] ∅ ∅ ∅) {[ (7%N, "cad") := 10000000 ]}) {[ 7%N := fund_buyer ]} ∅ no_envelopes ∅.

Lemma realtime_admission_witness :
  evaluateRealtimeBuyerFunding cad_st fund_cad 7%N 9999999001 = Ok tt ∧
  account_ok (account (add_contract fund_cad 41%N (mkContract 7%N "cad" "EXECUTING" 9999999001 0)) 7%N "cad").
Proof.
  assert (funds_ok fund_cad) as O.
  { split; simpl; [intros *; by rewrite lookup_empty|apply no_envelopes_ok|intros *; by rewrite lookup_empty]. }
  assert (modest fund_cad fund_buyer 7%N "cad") as M by (split; vm_compute; try done; split; done).
  pose proof (realtime_admission cad_st (mkCurrency "cad" 2) fund_cad 7%N fund_buyer 9999999001 41%N
    (mkContract 7%N "cad" "EXECUTING" 9999999001 0) eq_refl O eq_refl eq_refl M ltac:(vm_compute; split; discriminate)) as [I St].
  assert (evaluateRealtimeBuyerFunding cad_st fund_cad 7%N 9999999001 = Ok tt) as E.
  { apply I. vm_compute. discriminate. }
  split; [exact E|]. apply St; try done; try (vm_compute; discriminate); try lia; vm_compute; split; discriminate.
Defined.

(** A live prepaid job of one task. *)
Definition fund_live : funds :=
  mkFunds (mkPurse (mkDb [] {[ 21%N := 31%N ]} {[ 31%N := fund_job ]} {[ 31%N := fund_plan ]}) {[ (7%N, "usd") := 10000000 ]})
    {[ 7%N := fund_buyer ]} ∅ no_envelopes ∅.
Definition fund_paid : purse := ok_or (f_purse fund_live) (debitPrepaidForTaskTx fund_st (f_purse fund_live) 7%N 21%N 4000000).

Lemma task_debit_spends_hold_witness :
  account_step (account fund_live 7%N "usd") (account (with_purse fund_live fund_paid) 7%N "usd") ∧
  account (with_purse fund_live fund_paid) 7%N "usd" = (6000000, 6000000).
Proof.
  split; [|vm_compute; reflexivity].
  apply (task_debit_spends_hold fund_st fund_live 7%N 21%N 4000000 fund_paid 31%N fund_job fund_plan "usd" (mkCurrency "usd" 2));
    try (vm_compute; reflexivity).
  - intros r Hr. by apply elem_of_nil in Hr.
  - vm_compute. discriminate.
  - split; simpl; [intros *; by rewrite lookup_empty|apply no_envelopes_ok|intros *; by rewrite lookup_empty].
  - split; vm_compute; discriminate.
Defined.

Lemma realtime_debit_exact_witness :
  let contracts := {[ 41%N := mkContract 7%N "usd" "SETTLED" 12500000000 12500000 ]} in
  let p := with_purse_books (f_purse fund_start) (with_ledger (f_books fund_start)
             [mkRow KindBuyerCharge None (Some 7%N) None (Some 41%N) (-12500000) "usd" PayoutReleased None None None None None]) in
  maybeDebitPrepaidForRealtimeTx fund_st (f_buyers fund_start) contracts p 7%N 41%N 12500000 =
  debitPrepaidForExecutionContractTx fund_st contracts p 7%N 41%N 2500000.
Proof.
  intros contracts p.
  rewrite (realtime_debit_exact fund_st (f_buyers fund_start) contracts p 7%N 41%N fund_buyer
    (mkContract 7%N "usd" "SETTLED" 12500000000 12500000) 12500000 (mkCurrency "usd" 2)); try (vm_compute; reflexivity); try done.
Defined.

Definition fund_request : ExecutionEnvelopeCreateRequest := mkCreateRequest "profile" 20000000000 5 0 5000 60.
Definition fund_sha : string := "0123456789abcdef0123456789abcdef0123456789abcdef0123456789abcdef".
Definition fund_profile : envelope_profile := mkEnvProfile "profile" fund_sha "alias" (f64_of_Z 1) (f64_of_Z 2).
Definition fund_create : res (ExecutionEnvelopeAuthority * string * funds) :=
  CreateExecutionEnvelope fund_st (λ _, Some fund_profile) (λ _, Ok tt) (λ _, Ok fund_sha) fund_start 1%N 7%N fund_request 0.
Definition fund_authority : ExecutionEnvelopeAuthority :=
  mkEnvAuthority 1 (mkGrant 7%N "usd" 20000000000 5 0 5000 "profile" fund_sha "alias" 60000000000) 1000000000 2000000000
    executionEnvelopeRoundingPolicy.
Definition fund_opened : funds := (ok_or (fund_authority, "", fund_start) fund_create).2.

Lemma envelope_funded_witness :
  fund_create = Ok (fund_authority, fund_sha, fund_opened) ∧ account fund_opened 7%N "usd" = (10000000, 20000000) ∧
  (account fund_opened 7%N "usd").2 ≤ (account fund_start 7%N "usd").1 + spare_credit fund_start fund_buyer 7%N "usd".
Proof.
  assert (fund_create = Ok (fund_authority, fund_sha, fund_opened)) as E by (vm_compute; reflexivity).
  split; [exact E|]. split; [vm_compute; reflexivity|].
  unfold fund_create in E.
  destruct (envelope_funded fund_st (mkCurrency "usd" 2) (λ _, Some fund_profile) (λ _, Ok tt) (λ _, Ok fund_sha) fund_start 1%N 7%N
    fund_buyer fund_request 0 fund_authority fund_sha fund_opened E eq_refl fund_start_ok eq_refl fund_start_modest
    ltac:(vm_compute; discriminate)) as (_ & _ & L & _). exact L.
Defined.
