(* ===== verification/StripeCash.v ===== *)
(** * StripeCash: what a card network takes back, and which payouts it undermines

    [stripe_cash_events.go] records refunds and disputes that Stripe reports by
    webhook.  Webhooks are repeated and arrive in any order, also before the charge
    they speak of has been recorded; the tables keep, for every charge and every
    dispute, the evidence that matters for cash, bind it to the collection of the
    charge once that exists, and recompute which supplier payouts are no longer backed.
    [collect.go] records the collection of a job or a batch, and [store_payouts.go]
    reserves collected cash for a payout.

    JSON decoding is an argument of the parser.  The order of texts, which the
    database's collation decides, is an argument where rows are sorted by one. *)
From Stdlib Require Import Ascii.
From stdpp Require Import base numbers list gmap strings sorting pretty.
From S2P Require Import Prelude.
From S2P Require Import Sha256.
From S2P Require Import Currency.
From S2P Require Import LedgerWrite.
Local Open Scope Z_scope.
Local Open Scope go_scope.

(** ** Events *)

Definition stripeEventChargeRefunded : string := "charge.refunded".
Definition stripeEventDisputeCreated : string := "charge.dispute.created".
Definition stripeEventDisputeFundsWithdrawn : string := "charge.dispute.funds_withdrawn".
Definition stripeEventDisputeFundsReinstated : string := "charge.dispute.funds_reinstated".
Definition stripeEventDisputeClosed : string := "charge.dispute.closed".

Inductive stripeDisputeCashEffect :=
  | stripeDisputeCashNoEffect
  | stripeDisputeCashUnavailable
  | stripeDisputeCashAvailable.

#[export] Instance stripeDisputeCashEffect_eq_dec : EqDecision stripeDisputeCashEffect.
Proof. solve_decision. Defined.

Record stripeCashEvent := mkCashEvent {
  EventID : string;
  EventType : string;
  ObjectID : string;
  ev_ChargeID : string;
  ev_PaymentIntent : string;
  ev_Currency : string;
  ev_Status : string;
  EventCreated : Z;
  AmountCents : Z;
  RefundedCents : Z;
  PayloadSHA256 : string;
  DisputeEffect : stripeDisputeCashEffect;
  EffectRank : Z
}.

Record stripeCashEventResult := mkCashResult {
  Duplicate : bool;
  CashEffectApplied : bool;
  CurrentCashEffectRank : Z;
  LinkedCollection : bool;
  UnavailableCents : Z;
  CompromisedFundingRows : Z;
  ReversalRequiredRows : Z
}.

Definition isStripeCashEventType (eventType : string) : bool :=
  one_of eventType [stripeEventChargeRefunded; stripeEventDisputeCreated; stripeEventDisputeFundsWithdrawn;
                    stripeEventDisputeFundsReinstated; stripeEventDisputeClosed].

Definition disputeCashEffect (eventType status : string) : stripeDisputeCashEffect * Z :=
  if bool_decide (eventType = stripeEventDisputeCreated) then
    if has_prefix status "warning_" || bool_decide (status = "prevented") then (stripeDisputeCashNoEffect, 0)
    else (stripeDisputeCashUnavailable, 10)
  else if bool_decide (eventType = stripeEventDisputeFundsWithdrawn) then (stripeDisputeCashUnavailable, 20)
  else if bool_decide (eventType = stripeEventDisputeClosed) then
    if bool_decide (status = "lost") then (stripeDisputeCashUnavailable, 30) else (stripeDisputeCashNoEffect, 0)
  else if bool_decide (eventType = stripeEventDisputeFundsReinstated) then (stripeDisputeCashAvailable, 40)
  else (stripeDisputeCashNoEffect, 0).

(** The alphabet of the opaque part of a Stripe identity. *)
Definition stripe_id_byte (a : ascii) : bool :=
  let n := nat_of_ascii a in
  ((97 <=? n)%nat && (n <=? 122)%nat) || ((65 <=? n)%nat && (n <=? 90)%nat) ||
  ((48 <=? n)%nat && (n <=? 57)%nat) || (n =? 95)%nat || (n =? 45)%nat.

Definition validStripeObjectID (value prefix : string) : bool :=
  let value := trim_space value in
  let prefix := trim_space prefix in
  if bool_decide (prefix = "") || (String.length value <=? String.length prefix)%nat || negb (has_prefix value prefix)
  then false
  else forallb stripe_id_byte (drop (String.length prefix) (String.list_ascii_of_string value)).

Definition isSHA256Hex (s : string) : bool := (String.length s =? 64)%nat && hex_decodes s.

Definition validateStripeCashEvent (event : stripeCashEvent) : res unit :=
  refuse (Errorf "stripe cash event has invalid identifiers, amount, currency, timestamp, or digest")
    if bool_decide (trim_space (EventID event) = "") || bool_decide (trim_space (ObjectID event) = "") ||
       bool_decide (trim_space (ev_ChargeID event) = "") || (EventCreated event <=? 0) ||
       (AmountCents event <=? 0) || bool_decide (trim_space (ev_Currency event) = "") ||
       negb (isSHA256Hex (PayloadSHA256 event)) || negb (isStripeCashEventType (EventType event));
  let bad_intent := negb (bool_decide (ev_PaymentIntent event = "")) &&
                    negb (validStripeObjectID (ev_PaymentIntent event) "pi_") in
  if bool_decide (EventType event = stripeEventChargeRefunded) then
    refuse (Errorf "charge.refunded has invalid Stripe object identifiers")
      if negb (validStripeObjectID (ObjectID event) "ch_") || negb (validStripeObjectID (ev_ChargeID event) "ch_") ||
         bad_intent;
    refuse (Errorf "charge.refunded has an invalid cumulative amount_refunded")
      if (RefundedCents event <=? 0) || (AmountCents event <? RefundedCents event);
    Ok tt
  else
    refuse (Errorf "Stripe dispute has invalid object identifiers")
      if negb (validStripeObjectID (ObjectID event) "dp_") || negb (validStripeObjectID (ev_ChargeID event) "ch_") ||
         bad_intent;
    refuse (Errorf "stripe dispute event is missing status") if bool_decide (ev_Status event = "");
    let '(expectedEffect, expectedRank) := disputeCashEffect (EventType event) (ev_Status event) in
    refuse (Errorf "stripe dispute event cash effect does not match its type and status")
      if negb (bool_decide (DisputeEffect event = expectedEffect)) || negb (EffectRank event =? expectedRank);
    Ok tt.

(** ** Parsing *)

Record charge_object := mkChargeObject {
  ch_Object : string;
  ch_ID : string;
  ch_PaymentIntent : string;           (* raw JSON *)
  ch_Amount : Z;
  ch_AmountRefunded : Z;
  ch_Currency : string
}.

Record dispute_object := mkDisputeObject {
  dp_Object : string;
  dp_ID : string;
  dp_Charge : string;                  (* raw JSON *)
  dp_PaymentIntent : string;           (* raw JSON *)
  dp_Amount : Z;
  dp_Currency : string;
  dp_Status : string
}.

Section Parse.
Context (decode_charge : string → res charge_object) (decode_dispute : string → res dispute_object).
Context (decode_id : string → option string) (decode_expanded : string → option (string * string)).

Definition stripeExpandableID (raw expectedObject : string) : res string :=
  if bool_decide (raw = "") || bool_decide (raw = "null") then Ok ""
  else
    match decode_id raw with
    | Some id => Ok (trim_space id)
    | None =>
        match decode_expanded raw with
        | None => Err (Errorf "stripe expandable reference is neither an id nor an object")
        | Some (object, id) =>
            refuse (Errorf "stripe expandable reference has object kind %q, want %q")
              if negb (bool_decide (trim_space object = expectedObject));
            Ok (trim_space id)
        end
    end.

Definition parseStripeCashEvent (eventID eventType : string) (eventCreated : Z) (object payload : string) :
    res stripeCashEvent :=
  let id := trim_space eventID in
  let ty := trim_space eventType in
  let hash := sha256_hex payload in
  refuse (Errorf "stripe cash event is missing a supported type, id, or creation time")
    if bool_decide (id = "") || (eventCreated <=? 0) || negb (isStripeCashEventType ty);
  out ←
    (if bool_decide (ty = stripeEventChargeRefunded) then
       charge ← decode_charge object;
       refuse (Errorf "charge.refunded has the wrong Stripe object kind")
         if negb (bool_decide (trim_space (ch_Object charge) = "charge"));
       pi ← stripeExpandableID (ch_PaymentIntent charge) "payment_intent";
       Ok (mkCashEvent id ty (trim_space (ch_ID charge)) (trim_space (ch_ID charge)) pi
             (to_lower (trim_space (ch_Currency charge))) "" eventCreated (ch_Amount charge) (ch_AmountRefunded charge)
             hash stripeDisputeCashNoEffect 0)
     else
       dispute ← decode_dispute object;
       refuse (Errorf "Stripe dispute event has the wrong object kind")
         if negb (bool_decide (trim_space (dp_Object dispute) = "dispute"));
       chargeID ← stripeExpandableID (dp_Charge dispute) "charge";
       pi ← stripeExpandableID (dp_PaymentIntent dispute) "payment_intent";
       let status := trim_space (dp_Status dispute) in
       let '(effect, rank) := disputeCashEffect ty status in
       Ok (mkCashEvent id ty (trim_space (dp_ID dispute)) chargeID pi
             (to_lower (trim_space (dp_Currency dispute))) status eventCreated (dp_Amount dispute) 0
             hash effect rank));
  _ ← validateStripeCashEvent out;
  Ok out.

End Parse.

(** ** Tables *)

Record webhook_event := mkWebhook {
  we_type : string;
  we_object : string;
  we_charge : string;
  we_intent : option string;
  we_created : Z;
  we_sha : string
}.

Record charge_state := mkChargeState {
  cs_intent : option string;
  cs_amount : Z;
  cs_refunded : Z;
  cs_currency : string;
  cs_event : string;
  cs_created : Z
}.

Record dispute_state := mkDisputeState {
  ds_charge : string;
  ds_intent : option string;
  ds_amount : Z;
  ds_currency : string;
  ds_status : string;
  ds_unavailable : bool;
  ds_effect_created : Z;
  ds_effect_rank : Z;
  ds_event : string;
  ds_event_type : string;
  ds_created : Z
}.

Record collection := mkCollection {
  co_charge : option string;
  co_buyer : UUID;
  co_source : string;
  co_job : option UUID;
  co_batch : option UUID;
  co_requested : Z;
  co_received : Z;
  co_currency : string;
  co_recorded : Z
}.

Record funding := mkFunding {
  fu_entry : UUID;
  fu_source : string;
  fu_job : option UUID;
  fu_lease : option UUID;
  fu_contract : option UUID;
  fu_intent : option string;
  fu_amount : Z;
  fu_currency : string;
  fu_created : Z
}.

Record funding_state := mkFundingState {
  fs_status : string;
  fs_compromised : Z;
  fs_event : string;
  fs_reason : string
}.

Record payout_op := mkPayoutOp {
  op_entry : UUID;
  op_funding : option UUID;
  op_status : string;
  op_cash_moved : bool;
  op_outcome_unknown : bool;
  op_error : option string
}.

Record cashbook := mkCashbook {
  webhook_events : gmap string webhook_event;
  charge_states : gmap string charge_state;
  dispute_states : gmap string dispute_state;
  risk_bindings : list (string * option string);     (* stripe_risk_events: charge, intent *)
  cash_collections : gmap string collection;         (* by payment intent *)
  fundings : gmap UUID funding;
  funding_states : gmap UUID funding_state;
  payout_ops : gmap UUID payout_op;
  entry_status : gmap UUID string                    (* ledger_entries: payout_status *)
}.

Definition with_cash_webhooks (s : cashbook) x := mkCashbook x (charge_states s) (dispute_states s) (risk_bindings s)
  (cash_collections s) (fundings s) (funding_states s) (payout_ops s) (entry_status s).
Definition with_charge_states (s : cashbook) x := mkCashbook (webhook_events s) x (dispute_states s) (risk_bindings s)
  (cash_collections s) (fundings s) (funding_states s) (payout_ops s) (entry_status s).
Definition with_dispute_states (s : cashbook) x := mkCashbook (webhook_events s) (charge_states s) x (risk_bindings s)
  (cash_collections s) (fundings s) (funding_states s) (payout_ops s) (entry_status s).
Definition with_collections (s : cashbook) x := mkCashbook (webhook_events s) (charge_states s) (dispute_states s)
  (risk_bindings s) x (fundings s) (funding_states s) (payout_ops s) (entry_status s).
Definition with_fundings (s : cashbook) x := mkCashbook (webhook_events s) (charge_states s) (dispute_states s)
  (risk_bindings s) (cash_collections s) x (funding_states s) (payout_ops s) (entry_status s).
Definition with_impairment (s : cashbook) fs ops es := mkCashbook (webhook_events s) (charge_states s) (dispute_states s)
  (risk_bindings s) (cash_collections s) (fundings s) fs ops es.

(** ** Binding evidence to a collection *)

Definition nullableStripeID (value : string) : option string := nullif (trim_space value).

Definition other_intent (paymentIntent : string) (o : option string) : bool :=
  match o with Some p => negb (bool_decide (p = paymentIntent)) | None => false end.

(** The [EXISTS] over the three tables of evidence. *)
Definition cash_conflict (s : cashbook) (chargeID paymentIntent : string) (received : Z) (currency : string) : bool :=
  match charge_states s !! chargeID with
  | Some c => other_intent paymentIntent (cs_intent c) || negb (cs_amount c =? received) ||
              negb (bool_decide (cs_currency c = currency))
  | None => false
  end ||
  existsb (λ x, bool_decide (ds_charge x.2 = chargeID) &&
                (other_intent paymentIntent (ds_intent x.2) || (received <? ds_amount x.2) ||
                 negb (bool_decide (ds_currency x.2 = currency)))) (map_to_list (dispute_states s)) ||
  existsb (λ x, bool_decide (x.1 = chargeID) && other_intent paymentIntent x.2) (risk_bindings s).

Definition fill_intent (paymentIntent : string) (o : option string) : option string :=
  match o with Some p => Some p | None => Some paymentIntent end.

Definition bind_charge (paymentIntent : string) (c : charge_state) : charge_state :=
  mkChargeState (fill_intent paymentIntent (cs_intent c)) (cs_amount c) (cs_refunded c) (cs_currency c) (cs_event c)
    (cs_created c).

Definition bind_dispute (chargeID paymentIntent : string) (d : dispute_state) : dispute_state :=
  if bool_decide (ds_charge d = chargeID) then
    mkDisputeState (ds_charge d) (fill_intent paymentIntent (ds_intent d)) (ds_amount d) (ds_currency d) (ds_status d)
      (ds_unavailable d) (ds_effect_created d) (ds_effect_rank d) (ds_event d) (ds_event_type d) (ds_created d)
  else d.

(** [UPDATE stripe_dispute_cash_state SET payment_intent=$2 WHERE charge_id=$1 AND payment_intent IS NULL]. *)
Definition bind_disputes (s : cashbook) (chargeID paymentIntent : string) : cashbook :=
  with_dispute_states s (bind_dispute chargeID paymentIntent <$> dispute_states s).

Definition bind_states (s : cashbook) (chargeID paymentIntent : string) : cashbook :=
  bind_disputes (with_charge_states s (alter (bind_charge paymentIntent) chargeID (charge_states s))) chargeID paymentIntent.

Definition lockStripeCashBinding (chargeID : string) : res unit :=
  refuse (Errorf "Stripe cash binding requires a charge id") if bool_decide (trim_space chargeID = "");
  Ok tt.

Definition bindStripeCashStateToCollection (s : cashbook) (chargeID paymentIntent : string) (received : Z)
    (currency : string) : res cashbook :=
  let chargeID := trim_space chargeID in
  let paymentIntent := trim_space paymentIntent in
  let currency := to_lower (trim_space currency) in
  refuse (Errorf "Stripe cash collection binding is incomplete")
    if bool_decide (chargeID = "") || bool_decide (paymentIntent = "") || (received <=? 0) || bool_decide (currency = "");
  refuse (Errorf "charge %s webhook state is bound to a different PaymentIntent")
    if cash_conflict s chargeID paymentIntent received currency;
  Ok (bind_states s chargeID paymentIntent).

(** ** Recording collected cash *)

(** The checks of [buyer_cash_collections]. *)
Definition collection_checks (paymentIntent : string) (c : collection) : bool :=
  not_blank paymentIntent && match co_charge c with Some ch => not_blank ch | None => true end &&
  (0 <? co_requested c) && (0 <? co_received c) && (co_requested c =? co_received c) &&
  one_of (co_currency c) ["usd"; "cad"; "jpy"] &&
  (bool_decide (co_source c = "job") && bool_decide (co_job c ≠ None) && bool_decide (co_batch c = None) ||
   bool_decide (co_source c = "batch") && bool_decide (co_batch c ≠ None) && bool_decide (co_job c = None) ||
   bool_decide (co_source c = "topup") && bool_decide (co_job c = None) && bool_decide (co_batch c = None)).

(** A row with the same charge, job or batch. *)
Definition collection_clash (c c' : collection) : bool :=
  (bool_decide (co_charge c ≠ None) && bool_decide (co_charge c = co_charge c')) ||
  (bool_decide (co_job c ≠ None) && bool_decide (co_job c = co_job c')) ||
  (bool_decide (co_batch c ≠ None) && bool_decide (co_batch c = co_batch c')).

(** Insert a row whose payment intent is new. *)
Definition insert_collection (s : cashbook) (paymentIntent : string) (c : collection) : res cashbook :=
  refuse errCheckViolation if negb (collection_checks paymentIntent c);
  refuse errUniqueViolation if existsb (λ x, collection_clash c x.2) (map_to_list (cash_collections s));
  Ok (with_collections s (<[paymentIntent := c]> (cash_collections s))).

Record ChargeResult := mkChargeResult {
  PaymentIntentID : string;
  cr_ChargeID : string;
  RequestedCents : Z;
  ReceivedCents : Z;
  cr_Currency : string
}.

Definition validateChargeResultShape (charge : ChargeResult) : res unit :=
  refuse (Errorf "charge result has invalid Stripe identities or amount")
    if negb (validStripeObjectID (PaymentIntentID charge) "pi_") || negb (validStripeObjectID (cr_ChargeID charge) "ch_") ||
       (RequestedCents charge <=? 0) || negb (ReceivedCents charge =? RequestedCents charge);
  match ParseCurrency (cr_Currency charge) with
  | Err _ => Err (Errorf "charge result has invalid settlement currency")
  | Ok _ => Ok tt
  end.

(** The stored row is the request, but for the time it was recorded. *)
Definition same_collection (c c' : collection) : bool :=
  bool_decide (co_charge c = co_charge c') && bool_decide (co_buyer c = co_buyer c') &&
  bool_decide (co_source c = co_source c') && bool_decide (co_job c = co_job c') &&
  bool_decide (co_batch c = co_batch c') && (co_requested c =? co_requested c') &&
  (co_received c =? co_received c') && bool_decide (co_currency c = co_currency c').

Definition recordBuyerCashCollection (s : cashbook) (buyerID : UUID) (sourceKind : string) (sourceID : UUID)
    (charge : ChargeResult) (now : Z) : res cashbook :=
  refuse (Errorf "invalid buyer cash source kind %q") if negb (one_of sourceKind ["job"; "batch"]);
  let jobID := if bool_decide (sourceKind = "job") then Some sourceID else None in
  let batchID := if bool_decide (sourceKind = "batch") then Some sourceID else None in
  let pi := PaymentIntentID charge in
  let c := mkCollection (Some (cr_ChargeID charge)) buyerID sourceKind jobID batchID (RequestedCents charge)
             (ReceivedCents charge) (cr_Currency charge) now in
  s ← (match cash_collections s !! pi with
       | Some stored =>
           refuse errCheckViolation if negb (collection_checks pi c);
           refuse (Errorf "payment intent %s is already bound to a different cash source or amount")
             if negb (same_collection stored c);
           Ok s
       | None => insert_collection s pi c
       end);
  refuse (Errorf "charge %s webhook state is bound to a different PaymentIntent")
    if cash_conflict s (cr_ChargeID charge) pi (ReceivedCents charge) (cr_Currency charge);
  Ok (bind_states s (cr_ChargeID charge) pi).

(** ** Capacity *)

Definition backs (paymentIntent : string) (f : funding) : bool :=
  bool_decide (fu_source f = "buyer_collection") && bool_decide (fu_intent f = Some paymentIntent).

Definition refunded_sum (s : cashbook) (pi : string) : Z :=
  sum_over (λ _ c, if bool_decide (cs_intent c = Some pi) then cs_refunded c else 0) (charge_states s).

Definition disputed_sum (s : cashbook) (pi : string) : Z :=
  sum_over (λ _ d, if bool_decide (ds_intent d = Some pi) && ds_unavailable d then ds_amount d else 0) (dispute_states s).

Definition reserved_sum (s : cashbook) (pi : string) : Z :=
  sum_over (λ _ f, if backs pi f then fu_amount f else 0) (fundings s).

(** [LEAST(received, sum::bigint + sum::bigint)]. *)
Definition unavailable_cents (s : cashbook) (pi : string) (received : Z) : res Z :=
  let r := refunded_sum s pi in
  let d := disputed_sum s pi in
  refuse errOutOfRange if negb (is_int64 r && is_int64 d && is_int64 (r + d));
  Ok (Z.min received (r + d)).

Record stripeCollectionCapacity := mkCapacity { Unavailable : Z; Reserved : Z }.

Definition stripeCollectionCapacityForPaymentIntent (s : cashbook) (paymentIntent : string) (received : Z) :
    res stripeCollectionCapacity :=
  u ← unavailable_cents s paymentIntent received;
  let r := reserved_sum s paymentIntent in
  refuse errOutOfRange if negb (is_int64 r);
  Ok (mkCapacity u r).

(** ** Impairment *)

(** The reservations of a collection, oldest first. *)
Definition fundings_of (s : cashbook) (pi : string) : list (UUID * funding) :=
  merge_sort (due_before fu_created) (filter (λ x, backs pi x.2 = true) (map_to_list (fundings s))).

(** The part of each reservation beyond the cash that is left: the running sum of
    the window less the available cents, clamped to the row. *)
Fixpoint exposures (available running : Z) (l : list (UUID * funding)) : list (UUID * Z) :=
  match l with
  | [] => []
  | (id, f) :: l =>
      let running := running + fu_amount f in
      (id, Z.max 0 (Z.min (fu_amount f) (running - available))) :: exposures available running l
  end.

Definition exposure_reason (pi eventID eventType : string) (unavailable compromised : Z) : string :=
  if 0 <? compromised then
    "collection " +:+ pi +:+ " has " +:+ pretty unavailable +:+ " unavailable cents after " +:+ eventType +:+
    "; this reservation is impaired by " +:+ pretty compromised +:+ " cents"
  else "collection " +:+ pi +:+ " remains available after Stripe event " +:+ eventID.

Definition exposure_state (pi : string) (event : stripeCashEvent) (unavailable compromised : Z) : funding_state :=
  mkFundingState (if 0 <? compromised then "compromised" else "available") compromised (EventID event)
    (exposure_reason pi (EventID event) (EventType event) unavailable compromised).

(** The upsert of the states. *)
Definition record_states (pi : string) (event : stripeCashEvent) (unavailable : Z) (xs : list (UUID * Z))
    (m : gmap UUID funding_state) : gmap UUID funding_state :=
  foldr (λ x m, <[x.1 := exposure_state pi event unavailable x.2]> m) m xs.

Definition impairment (xs : list (UUID * Z)) (op : payout_op) : option Z :=
  match op_funding op with
  | Some id => snd <$> (snd <$> list_find (λ x, bool_decide (x.1 = id) && (0 <? x.2) = true) xs)
  | None => None
  end.

Definition is_reversal (xs : list (UUID * Z)) (op : payout_op) : bool :=
  bool_decide (impairment xs op ≠ None) && negb (bool_decide (op_status op = "reversed")) &&
  (op_cash_moved op || op_outcome_unknown op || bool_decide (op_status op = "sending")).

Definition require_reversal (pi : string) (event : stripeCashEvent) (unavailable : Z) (xs : list (UUID * Z))
    (op : payout_op) : payout_op :=
  if is_reversal xs op then
    mkPayoutOp (op_entry op) (op_funding op) "reversal_required" (op_cash_moved op) (op_outcome_unknown op)
      ((λ c, exposure_reason pi (EventID event) (EventType event) unavailable c) <$> impairment xs op)
  else op.

(** The ledger rows to mark: those of the updated operations and of impaired ones
    that already required a reversal. *)
Definition reversal_target (xs : list (UUID * Z)) (ops : gmap UUID payout_op) (entry : UUID) : bool :=
  existsb (λ x, bool_decide (op_entry x.2 = entry) &&
                (is_reversal xs x.2 ||
                 bool_decide (impairment xs x.2 ≠ None) && bool_decide (op_status x.2 = "reversal_required")))
    (map_to_list ops).

(** [lifecycle_transitions]: the states a payout may leave for [reversal_required]. *)
Definition may_require_reversal (status : string) : bool :=
  one_of status ["pending"; "held"; "awaiting_funding"; "ready"; "sending"; "outcome_unknown"; "released"; "exported";
                 "carried"; "reversing"; "reversal_required"].

Definition count_true {A} (p : A → bool) (l : list A) : Z := Z.of_nat (length (List.filter p l)).

Definition recomputeStripeCollectionFunding (s : cashbook) (paymentIntent : string) (received : Z)
    (event : stripeCashEvent) : res (Z * Z * Z * cashbook) :=
  unavailable ← unavailable_cents s paymentIntent received;
  let xs := exposures (received - unavailable) 0 (fundings_of s paymentIntent) in
  let target := reversal_target xs (payout_ops s) in
  refuse (Errorf "illegal payout lifecycle transition")
    if existsb (λ x, target x.1 && negb (may_require_reversal x.2)) (map_to_list (entry_status s));
  Ok (unavailable, count_true (λ x, 0 <? x.2) xs, count_true (λ x, is_reversal xs x.2) (map_to_list (payout_ops s)),
      with_impairment s (record_states paymentIntent event unavailable xs (funding_states s))
        (require_reversal paymentIntent event unavailable xs <$> payout_ops s)
        (map_imap (λ id st, Some (if target id then "reversal_required" else st)) (entry_status s))).

(** ** Applying an event *)

(** [stripe_webhook_events] keeps lower-case digests only. *)
Definition webhook_row (e : stripeCashEvent) : webhook_event :=
  mkWebhook (EventType e) (ObjectID e) (ev_ChargeID e) (nullif (ev_PaymentIntent e)) (EventCreated e) (PayloadSHA256 e).

Definition same_webhook (w : webhook_event) (e : stripeCashEvent) : bool :=
  bool_decide (we_type w = EventType e) && bool_decide (we_object w = ObjectID e) &&
  bool_decide (we_charge w = ev_ChargeID e) && bool_decide (default "" (we_intent w) = ev_PaymentIntent e) &&
  (we_created w =? EventCreated e) && bool_decide (we_sha w = PayloadSHA256 e).

(** The first of: the event's intent, the collection of the charge, the charge's
    evidence and, for a dispute, its own. *)
Definition resolve_intent (s : cashbook) (e : stripeCashEvent) : option string :=
  match nullif (ev_PaymentIntent e) with
  | Some p => Some p
  | None =>
      match find_row (λ c, bool_decide (co_charge c = Some (ev_ChargeID e))) (cash_collections s) with
      | Some (p, _) => Some p
      | None =>
          match charge_states s !! ev_ChargeID e ≫= cs_intent with
          | Some p => Some p
          | None => if bool_decide (EventType e = stripeEventChargeRefunded) then None
                    else dispute_states s !! ObjectID e ≫= ds_intent
          end
      end
  end.

(** Bindings agree, or one of them is missing. *)
Definition intents_agree (o1 o2 : option string) : bool :=
  match o1, o2 with Some p, Some q => bool_decide (p = q) | _, _ => true end.

Definition coalesce (o1 o2 : option string) : option string := match o1 with Some p => Some p | None => o2 end.

Definition merge_charge (stored : charge_state) (pi : option string) (e : stripeCashEvent) : charge_state :=
  mkChargeState (coalesce (cs_intent stored) pi) (cs_amount stored) (Z.max (cs_refunded stored) (RefundedCents e))
    (cs_currency stored) (if cs_created stored <=? EventCreated e then EventID e else cs_event stored)
    (Z.max (cs_created stored) (EventCreated e)).

Definition applyStripeChargeRefundState (s : cashbook) (e : stripeCashEvent) (resolvedPI : string) :
    res (string * cashbook) :=
  let pi := nullableStripeID resolvedPI in
  c ← (match charge_states s !! ev_ChargeID e with
       | Some stored =>
           refuse (Errorf "stripe charge %s conflicts with its durable object binding")
             if negb ((cs_amount stored =? AmountCents e) && bool_decide (cs_currency stored = ev_Currency e) &&
                      intents_agree (cs_intent stored) pi);
           Ok (merge_charge stored pi e)
       | None => Ok (mkChargeState pi (AmountCents e) (RefundedCents e) (ev_Currency e) (EventID e) (EventCreated e))
       end);
  Ok (default "" (cs_intent c), with_charge_states s (<[ev_ChargeID e := c]> (charge_states s))).

(** Effects are ordered by the time Stripe created them, then by rank. *)
Definition effect_le (c1 r1 c2 r2 : Z) : bool := (c1 <? c2) || ((c1 =? c2) && (r1 <=? r2)).

Definition merge_dispute (stored excluded : dispute_state) : dispute_state :=
  let newer := ds_created stored <=? ds_created excluded in
  let wins := effect_le (ds_effect_created stored) (ds_effect_rank stored) (ds_effect_created excluded) (ds_effect_rank excluded)
              && (0 <? ds_effect_rank excluded) in
  mkDisputeState (ds_charge stored) (coalesce (ds_intent stored) (ds_intent excluded)) (ds_amount stored) (ds_currency stored)
    (if newer then ds_status excluded else ds_status stored)
    (if wins then ds_unavailable excluded else ds_unavailable stored)
    (if wins then ds_effect_created excluded else ds_effect_created stored)
    (if wins then ds_effect_rank excluded else ds_effect_rank stored)
    (if newer then ds_event excluded else ds_event stored)
    (if newer then ds_event_type excluded else ds_event_type stored)
    (Z.max (ds_created stored) (ds_created excluded)).

Definition applyStripeDisputeState (s : cashbook) (e : stripeCashEvent) (resolvedPI : string) :
    res (string * Z * Z * cashbook) :=
  let effective := negb (bool_decide (DisputeEffect e = stripeDisputeCashNoEffect)) in
  let excluded :=
    mkDisputeState (ev_ChargeID e) (nullableStripeID resolvedPI) (AmountCents e) (ev_Currency e) (ev_Status e)
      (effective && bool_decide (DisputeEffect e = stripeDisputeCashUnavailable))
      (if effective then EventCreated e else 0) (if effective then EffectRank e else 0)
      (EventID e) (EventType e) (EventCreated e) in
  d ← (match dispute_states s !! ObjectID e with
       | Some stored =>
           refuse (Errorf "stripe dispute %s conflicts with its durable object binding")
             if negb (bool_decide (ds_charge stored = ev_ChargeID e) && (ds_amount stored =? AmountCents e) &&
                      bool_decide (ds_currency stored = ev_Currency e) &&
                      intents_agree (ds_intent stored) (ds_intent excluded));
           Ok (merge_dispute stored excluded)
       | None => Ok excluded
       end);
  Ok (default "" (ds_intent d), ds_effect_created d, ds_effect_rank d,
      with_dispute_states s (<[ObjectID e := d]> (dispute_states s))).

(** What the event says about the collection it is linked to. *)
Definition check_collection (c : collection) (e : stripeCashEvent) : res unit :=
  refuse (Errorf "stripe event %s currency %s conflicts with collection %s currency %s")
    if negb (bool_decide (co_currency c = ev_Currency e));
  refuse (Errorf "stripe charge %s amount %d conflicts with collection %s amount %d")
    if bool_decide (EventType e = stripeEventChargeRefunded) && negb (AmountCents e =? co_received c);
  refuse (Errorf "stripe event %s charge %s conflicts with collection %s charge %s")
    if negb (bool_decide (default "" (co_charge c) = "")) && negb (bool_decide (co_charge c = Some (ev_ChargeID e)));
  Ok tt.

(** Merge the event into the evidence of its charge or dispute. *)
Definition apply_evidence (s : cashbook) (event : stripeCashEvent) (resolvedPI : string) : res (string * bool * Z * cashbook) :=
  if bool_decide (EventType event = stripeEventChargeRefunded) then
    '(pi, s) ← applyStripeChargeRefundState s event resolvedPI;
    Ok (pi, false, 0, if bool_decide (pi = "") then s else bind_disputes s (ev_ChargeID event) pi)
  else
    '(pi, created, rank, s) ← applyStripeDisputeState s event resolvedPI;
    Ok (pi, (0 <? EffectRank event) && (created =? EventCreated event) && (rank =? EffectRank event), rank, s).

Definition ApplyPaymentEventTx (s : cashbook) (event : stripeCashEvent) : res (stripeCashEventResult * cashbook) :=
  _ ← validateStripeCashEvent event;
  match webhook_events s !! EventID event with
  | Some w =>
      refuse (Errorf "stripe event id %s conflicts with its durable event binding") if negb (same_webhook w event);
      Ok (mkCashResult true false 0 false 0 0 0, s)
  | None =>
      refuse errCheckViolation if negb (sha_check (Some (PayloadSHA256 event)));
      let s := with_cash_webhooks s (<[EventID event := webhook_row event]> (webhook_events s)) in
      let resolved := resolve_intent s event in
      let linked := resolved ≫= λ p, cash_collections s !! p in
      _ ← from_option (λ c, check_collection c event) (Ok tt) linked;
      let resolvedPI := default "" resolved in
      '(resolvedPI, applied, rank, s) ← apply_evidence s event resolvedPI;
      match linked with
      | None => Ok (mkCashResult false applied rank false 0 0 0, s)
      | Some c =>
          '(unavailable, compromised, reversal, s) ← recomputeStripeCollectionFunding s resolvedPI (co_received c) event;
          Ok (mkCashResult false applied rank true unavailable compromised reversal, s)
      end
  end.

(** ** Reserving collected cash for a payout *)

Definition payoutFundingBuyerCollection : string := "buyer_collection".
Definition payoutFundingPlatformSubsidy : string := "platform_subsidy".

(** The columns of [jobs], [charge_batches], [ledger_entries], [execution_contracts] and
    [service_leases] that a reservation reads. *)
Record cash_source := mkCashSource {
  so_buyer : UUID;
  so_status : string;
  so_intent : string;
  so_requested : Z;
  so_received : Z;
  so_currency : string
}.

Record cash_job := mkCashJob { cj_cash : cash_source; cj_batch : option UUID; cj_prepaid : bool }.

Record lease_row := mkLeaseRow { lr_buyer : UUID; lr_state : string; lr_currency : string; lr_reserved_micros : Z }.

Record liabilities := mkLiabilities {
  li_tasks : gmap UUID UUID;
  li_jobs : gmap UUID cash_job;
  li_batches : gmap UUID cash_source;
  li_entries : gmap UUID (string * option UUID);      (* kind, execution contract *)
  li_contracts : gmap UUID UUID;                      (* buyer *)
  li_leases : gmap UUID lease_row
}.

Record topupPayoutFunding := mkTopupFunding {
  tp_EntryID : UUID;
  tp_BuyerID : UUID;
  tp_JobID : option UUID;
  tp_ServiceLeaseID : option UUID;
  tp_ExecutionContractID : option UUID;
  tp_RequestedCents : Z;
  tp_Currency : string
}.

Definition names_one (o : option UUID) : nat := if bool_decide (o = None) || bool_decide (o = Some uuid_Nil) then 0 else 1.

Definition topupPayoutFunding_valid (f : topupPayoutFunding) : bool :=
  if bool_decide (tp_EntryID f = uuid_Nil) || bool_decide (tp_BuyerID f = uuid_Nil) || (tp_RequestedCents f <=? 0) ||
     bool_decide (trim_space (tp_Currency f) = "")
  then false
  else (names_one (tp_JobID f) + names_one (tp_ServiceLeaseID f) + names_one (tp_ExecutionContractID f) =? 1)%nat.

(** The row of [supplier_payout_funding]: one per ledger entry, for one liability. *)
Definition insert_funding (s : cashbook) (id : UUID) (f : funding) : res cashbook :=
  refuse errCheckViolation
    if (fu_amount f <=? 0) || negb (one_of (fu_currency f) ["usd"; "cad"; "jpy"]) ||
       negb (length (filter (λ o, o ≠ None) [fu_job f; fu_lease f; fu_contract f]) =? 1)%nat;
  refuse errUniqueViolation
    if bool_decide (fundings s !! id ≠ None) ||
       existsb (λ x, bool_decide (fu_entry x.2 = fu_entry f)) (map_to_list (fundings s));
  Ok (with_fundings s (<[id := f]> (fundings s))).

Section Reserve.
(** The order of texts in the database. *)
Context (collate : string → string → bool).

Definition recorded_before (x y : string * collection) : Prop :=
  co_recorded x.2 < co_recorded y.2 ∨ (co_recorded x.2 = co_recorded y.2 ∧ collate x.1 y.1 = true).

#[export] Instance recorded_before_dec : RelDecision recorded_before.
Proof. unfold recorded_before. intros x y. apply _. Defined.

Definition topup_candidates (s : cashbook) (b : UUID) (c : string) : list (string * collection) :=
  merge_sort recorded_before
    (filter (λ x, bool_decide (co_buyer x.2 = b) && bool_decide (co_source x.2 = "topup") &&
                  bool_decide (co_currency x.2 = c) && (co_requested x.2 =? co_received x.2) = true)
       (map_to_list (cash_collections s))).

(** The first top-up whose free cash covers the request.  The query computes the
    capacity of every candidate before the loop looks at the first. *)
Fixpoint capacities (s : cashbook) (l : list (string * collection)) : res (list (string * collection * stripeCollectionCapacity)) :=
  match l with
  | [] => Ok []
  | (pi, c) :: l =>
      cap ← stripeCollectionCapacityForPaymentIntent s pi (co_received c);
      rest ← capacities s l;
      Ok ((pi, c, cap) :: rest)
  end.

(** The capacity left, or [None] when it is taken. *)
Definition covers (received requested : Z) (cap : stripeCollectionCapacity) : bool :=
  let available := received -w Unavailable cap in
  negb ((Reserved cap <? 0) || (available <? Reserved cap) || (available -w Reserved cap <? requested)).

Fixpoint pick_topup (requested : Z) (l : list (string * collection * stripeCollectionCapacity)) : res (option string) :=
  match l with
  | [] => Ok None
  | (pi, c, cap) :: l =>
      if (co_received c <=? 0) || bool_decide (trim_space pi = "") || bool_decide (trim_space (default "" (co_charge c)) = "")
      then pick_topup requested l
      else
        refuse (Errorf "stripe cash state for %s exceeds collected top-up cash") if co_received c -w Unavailable cap <? 0;
        if covers (co_received c) requested cap then Ok (Some pi) else pick_topup requested l
  end.

Definition reserveBuyerTopupPayoutFunding (s : cashbook) (id : UUID) (now : Z) (f : topupPayoutFunding) :
    res (UUID * bool * cashbook) :=
  refuse (Errorf "top-up payout funding identity is invalid") if negb (topupPayoutFunding_valid f);
  candidates ← capacities s (topup_candidates s (tp_BuyerID f) (tp_Currency f));
  chosen ← pick_topup (tp_RequestedCents f) candidates;
  match chosen with
  | None => Ok (uuid_Nil, false, s)
  | Some pi =>
      s ← insert_funding s id
            (mkFunding (tp_EntryID f) payoutFundingBuyerCollection (tp_JobID f) (tp_ServiceLeaseID f)
               (tp_ExecutionContractID f) (Some pi) (tp_RequestedCents f) (tp_Currency f) now);
      Ok (id, true, s)
  end.

Definition reserveServiceLeasePayoutFunding (li : liabilities) (s : cashbook) (id : UUID) (now : Z) (entryID leaseID : UUID)
    (requestedCents : Z) (currency : string) : res (UUID * bool * cashbook) :=
  refuse (Errorf "service lease payout funding identity is invalid")
    if bool_decide (entryID = uuid_Nil) || bool_decide (leaseID = uuid_Nil) || (requestedCents <=? 0) ||
       bool_decide (trim_space currency = "");
  match li_leases li !! leaseID with
  | None => Ok (uuid_Nil, false, s)
  | Some l =>
      if negb (one_of (lr_state l) ["COMPLETED"; "CANCELLED"]) then Ok (uuid_Nil, false, s)
      else if bool_decide (lr_buyer l = uuid_Nil) || (lr_reserved_micros l <=? 0) || negb (bool_decide (lr_currency l = currency))
      then Ok (uuid_Nil, false, s)
      else reserveBuyerTopupPayoutFunding s id now
             (mkTopupFunding entryID (lr_buyer l) None (Some leaseID) None requestedCents currency)
  end.

(** The cash of a charged job, or of the batch it was charged with. *)
Definition reserve_charged (li : liabilities) (s : cashbook) (id : UUID) (now : Z) (entryID jobID : UUID) (j : cash_job)
    (requestedCents : Z) (currency : string) : res (UUID * bool * cashbook) :=
  source ← (match cj_batch j with
            | None => Ok (Some (cj_cash j))
            | Some b =>
                match li_batches li !! b with
                | None => Err errNoRows
                | Some ba => Ok (if bool_decide (so_buyer ba = so_buyer (cj_cash j)) && bool_decide (so_status ba = "charged")
                                 then Some ba else None)
                end
            end);
  match source with
  | None => Ok (uuid_Nil, false, s)
  | Some so =>
      if bool_decide (trim_space (so_intent so) = "") || (so_requested so <=? 0) || negb (so_received so =? so_requested so) ||
         negb (bool_decide (so_currency so = currency))
      then Ok (uuid_Nil, false, s)
      else
        match cash_collections s !! so_intent so with
        | None => Ok (uuid_Nil, false, s)
        | Some c =>
            if negb (match cj_batch j with
                     | None => bool_decide (co_source c = "job") && bool_decide (co_job c = Some jobID)
                     | Some b => bool_decide (co_source c = "batch") && bool_decide (co_batch c = Some b)
                     end) then Ok (uuid_Nil, false, s)
            else
              refuse (Errorf "canonical buyer cash %s disagrees with its %s source")
                if negb (bool_decide (co_buyer c = so_buyer (cj_cash j))) || negb (co_requested c =? so_requested so) ||
                   negb (co_received c =? so_received so) || negb (bool_decide (co_currency c = so_currency so));
              if bool_decide (trim_space (default "" (co_charge c)) = "") then Ok (uuid_Nil, false, s)
              else
                cap ← stripeCollectionCapacityForPaymentIntent s (so_intent so) (so_received so);
                refuse (Errorf "stripe cash state for %s exceeds collected cash") if so_received so -w Unavailable cap <? 0;
                if negb (covers (so_received so) requestedCents cap) then Ok (uuid_Nil, false, s)
                else
                  s ← insert_funding s id
                        (mkFunding entryID payoutFundingBuyerCollection (Some jobID) None None (Some (so_intent so))
                           requestedCents currency now);
                  Ok (id, true, s)
        end
  end.

(** The job is read with its task, or taken from the snapshot the claim already read
    under the same locks. *)
Definition reservePayoutFundingWithJobSnapshot (li : liabilities) (s : cashbook) (id : UUID) (now : Z) (entryID : UUID)
    (taskID : option UUID) (requestedCents : Z) (currency : string)
    (jobSnapshot : option (option UUID * UUID * cash_job)) (serviceLeaseIDs : list UUID) : res (UUID * bool * cashbook) :=
  refuse (Errorf "payout funding received multiple service lease identities") if (1 <? length serviceLeaseIDs)%nat;
  match find_row (λ f, bool_decide (fu_entry f = entryID)) (fundings s) with
  | Some (existing, f) =>
      refuse (Errorf "payout funding for ledger entry %s does not match liability: source=%s amount=%d %s liability=%d %s")
        if negb (fu_amount f =? requestedCents) || negb (bool_decide (fu_currency f = currency)) ||
           negb (one_of (fu_source f) [payoutFundingBuyerCollection; payoutFundingPlatformSubsidy]);
      Ok (existing, negb (bool_decide (fs_status <$> funding_states s !! existing = Some "compromised")), s)
  | None =>
      match taskID with
      | None =>
          match serviceLeaseIDs with
          | [lease] =>
              refuse (Errorf "service lease payout funding requires a non-empty lease") if bool_decide (lease = uuid_Nil);
              reserveServiceLeasePayoutFunding li s id now entryID lease requestedCents currency
          | _ =>
              match li_entries li !! entryID with
              | Some (k, Some contractID) =>
                  match li_contracts li !! contractID with
                  | Some buyerID =>
                      if negb (bool_decide (k = KindSupplierCredit)) || bool_decide (contractID = uuid_Nil) ||
                         bool_decide (buyerID = uuid_Nil)
                      then Ok (uuid_Nil, false, s)
                      else reserveBuyerTopupPayoutFunding s id now
                             (mkTopupFunding entryID buyerID None None (Some contractID) requestedCents currency)
                  | None => Ok (uuid_Nil, false, s)
                  end
              | _ => Ok (uuid_Nil, false, s)
              end
          end
      | Some task =>
          refuse (Errorf "job payout funding cannot carry a service lease identity") if (length serviceLeaseIDs =? 1)%nat;
          '(jobID, j) ←
            (match jobSnapshot with
             | Some (snapTask, jobID, j) =>
                 refuse (Errorf "payout job funding snapshot does not match task") if negb (bool_decide (snapTask = Some task));
                 Ok (jobID, j)
             | None =>
                 match li_tasks li !! task with
                 | Some jobID => match li_jobs li !! jobID with Some j => Ok (jobID, j) | None => Err errNoRows end
                 | None => Err errNoRows
                 end
             end);
          if bool_decide (so_status (cj_cash j) = "charged") then reserve_charged li s id now entryID jobID j requestedCents currency
          else if negb (cj_prepaid j) then Ok (uuid_Nil, false, s)
          else reserveBuyerTopupPayoutFunding s id now
                 (mkTopupFunding entryID (so_buyer (cj_cash j)) (Some jobID) None None requestedCents currency)
      end
  end.

End Reserve.

(** ** Reservations never exceed collected cash *)

(** The shapes of a dispute's effect. *)
Definition rank_unavailable (rank : Z) : bool := (0 <? rank) && (rank <? 40).

Definition effect_ok (d : dispute_state) : Prop :=
  0 ≤ ds_effect_rank d ∧ ds_unavailable d = rank_unavailable (ds_effect_rank d) ∧
  (ds_effect_rank d = 0 ∧ ds_effect_created d = 0 ∨ 0 < ds_effect_rank d ∧ 0 < ds_effect_created d).

Record cash_ok (s : cashbook) : Prop := {
  ok_charge c st : charge_states s !! c = Some st → 0 < cs_refunded st ≤ cs_amount st;
  ok_dispute d st : dispute_states s !! d = Some st → 0 < ds_amount st ∧ effect_ok st;
  ok_collection p c : cash_collections s !! p = Some c → 0 < co_received c ≤ max_int64;
  ok_funding id f : fundings s !! id = Some f → 0 < fu_amount f;
  ok_backed p : reserved_sum s p ≤ from_option co_received 0 (cash_collections s !! p)
}.

Section Steps.
Context (collate : string → string → bool).

(** What can happen to the tables.  The last two steps are the parts of the program
    that only read evidence: fraud warnings are appended, and payouts are processed. *)
Inductive cash_step : cashbook → cashbook → Prop :=
  | cash_apply s e r s' : ApplyPaymentEventTx s e = Ok (r, s') → cash_step s s'
  | cash_collect s b k id charge now s' :
      ReceivedCents charge ≤ max_int64 → recordBuyerCashCollection s b k id charge now = Ok s' → cash_step s s'
  | cash_topup s pi c s' :
      cash_collections s !! pi = None → co_received c ≤ max_int64 → insert_collection s pi c = Ok s' → cash_step s s'
  | cash_bind s ch pi n cur s' : bindStripeCashStateToCollection s ch pi n cur = Ok s' → cash_step s s'
  | cash_reserve s li id now entry task n cur snap leases r b s' :
      reservePayoutFundingWithJobSnapshot collate li s id now entry task n cur snap leases = Ok (r, b, s') → cash_step s s'
  | cash_warning s x :
      cash_step s (mkCashbook (webhook_events s) (charge_states s) (dispute_states s) (risk_bindings s ++ [x])
                     (cash_collections s) (fundings s) (funding_states s) (payout_ops s) (entry_status s))
  | cash_payout s ops es : cash_step s (with_impairment s (funding_states s) ops es).

Definition no_cash : cashbook := mkCashbook ∅ ∅ ∅ [] ∅ ∅ ∅ ∅ ∅.

(** *** Evidence keeps its shape *)

Lemma effect_rank_spec ty status :
  let '(eff, rank) := disputeCashEffect ty status in
  (eff = stripeDisputeCashNoEffect ∧ rank = 0) ∨
  (eff = stripeDisputeCashUnavailable ∧ 0 < rank ∧ rank_unavailable rank = true) ∨
  (eff = stripeDisputeCashAvailable ∧ 0 < rank ∧ rank_unavailable rank = false).
Proof using.
  unfold disputeCashEffect. repeat (case_bool_decide || case_match); simplify_eq;
    first [by left|right; left; split_and!; (done || lia)|right; right; split_and!; (done || lia)].
Qed.

Lemma validate_event e :
  validateStripeCashEvent e = Ok tt →
  0 < EventCreated e ∧ 0 < AmountCents e ∧
  (EventType e = stripeEventChargeRefunded → 0 < RefundedCents e ≤ AmountCents e) ∧
  (EventType e ≠ stripeEventChargeRefunded →
   DisputeEffect e = stripeDisputeCashNoEffect ∧ EffectRank e = 0 ∨
   0 < EffectRank e ∧ DisputeEffect e ≠ stripeDisputeCashNoEffect ∧
   rank_unavailable (EffectRank e) = bool_decide (DisputeEffect e = stripeDisputeCashUnavailable)).
Proof using.
  unfold validateStripeCashEvent. intros H. apply refuse_Ok in H as [C H]. reflect_bools.
  destruct (bool_decide (EventType e = _)) eqn:T in H; reflect_bools.
  - apply refuse_Ok in H as [_ H]. apply refuse_Ok in H as [R _]. reflect_bools. split_and!; try lia. done.
  - apply refuse_Ok in H as [_ H]. apply refuse_Ok in H as [_ H]. pose proof (effect_rank_spec (EventType e) (ev_Status e)) as S.
    destruct (disputeCashEffect _ _) as [eff rank]. apply refuse_Ok in H as [X _]. reflect_bools. subst.
    split_and!; try lia; [done|]. intros _.
    destruct S as [[-> E]|[(-> & P & E)|(-> & P & E)]]; [left; split; [done|lia]|right..]; split_and!; try done; try lia;
      by rewrite E, ?bool_decide_true, ?bool_decide_false.
Qed.

(** The invariant reads four tables. *)
Lemma cash_ok_frame s s' :
  charge_states s' = charge_states s → dispute_states s' = dispute_states s → cash_collections s' = cash_collections s →
  fundings s' = fundings s → cash_ok s → cash_ok s'.
Proof using.
  intros E1 E2 E3 E4 [O1 O2 O3 O4 O5].
  split; unfold reserved_sum in *; rewrite ?E1, ?E2, ?E3, ?E4; done.
Qed.

(** Evidence written over evidence. *)
Lemma cash_ok_evidence s s' :
  (∀ c st, charge_states s' !! c = Some st → 0 < cs_refunded st ≤ cs_amount st) →
  (∀ d st, dispute_states s' !! d = Some st → 0 < ds_amount st ∧ effect_ok st) →
  cash_collections s' = cash_collections s → fundings s' = fundings s → cash_ok s → cash_ok s'.
Proof using.
  intros H1 H2 E3 E4 [O1 O2 O3 O4 O5]. split; unfold reserved_sum in *; rewrite ?E3, ?E4; done.
Qed.

Lemma bind_disputes_lookup s ch pi d st :
  dispute_states (bind_disputes s ch pi) !! d = Some st →
  ∃ st0, dispute_states s !! d = Some st0 ∧ st = bind_dispute ch pi st0.
Proof using. simpl. rewrite lookup_fmap. intros (st0 & L & ->)%fmap_Some. eauto. Qed.

Lemma bind_dispute_keeps ch pi st :
  ds_amount (bind_dispute ch pi st) = ds_amount st ∧ ds_unavailable (bind_dispute ch pi st) = ds_unavailable st ∧
  ds_effect_created (bind_dispute ch pi st) = ds_effect_created st ∧
  ds_effect_rank (bind_dispute ch pi st) = ds_effect_rank st ∧ ds_charge (bind_dispute ch pi st) = ds_charge st.
Proof using. unfold bind_dispute. by case_bool_decide. Qed.

Lemma effect_ok_bind ch pi st : effect_ok st → effect_ok (bind_dispute ch pi st).
Proof using. unfold effect_ok. destruct (bind_dispute_keeps ch pi st) as (_ & -> & -> & -> & _). done. Qed.

Lemma bind_disputes_ok s ch pi : cash_ok s → cash_ok (bind_disputes s ch pi).
Proof using.
  intros O. apply (cash_ok_evidence s); [apply (ok_charge s O)| |done..]. intros d st.
  intros (st0 & L & ->)%bind_disputes_lookup. destruct (ok_dispute s O d st0 L). split; [|by apply effect_ok_bind].
  by destruct (bind_dispute_keeps ch pi st0) as (-> & _).
Qed.

Lemma bind_states_ok s ch pi : cash_ok s → cash_ok (bind_states s ch pi).
Proof using.
  intros O. apply bind_disputes_ok. apply (cash_ok_evidence s); [|apply (ok_dispute s O)|done..]. simpl. intros c st H.
  apply lookup_alter_Some in H as [(<- & st0 & L & ->)|[_ L]]; [|by eapply ok_charge]. by apply (ok_charge s O _ st0 L).
Qed.

Lemma insert_collection_ok s pi c s' :
  cash_ok s → cash_collections s !! pi = None → co_received c ≤ max_int64 → insert_collection s pi c = Ok s' → cash_ok s'.
Proof using.
  intros O N B H. unfold insert_collection in H. apply refuse_Ok in H as [C H]. apply refuse_Ok in H as [_ H]. simplify_eq.
  unfold collection_checks in C. reflect_bools. destruct O as [O1 O2 O3 O4 O5]. split; [done|done| |done|]; simpl.
  - intros p c'. destruct (decide (p = pi)) as [->|D]; [rewrite lookup_insert_eq|rewrite lookup_insert_ne by done].
    + intros ?. simplify_eq. lia.
    + apply O3.
  - intros p. specialize (O5 p). destruct (decide (p = pi)) as [->|D]; [rewrite lookup_insert_eq|by rewrite lookup_insert_ne].
    rewrite N in O5. unfold reserved_sum in *. simpl in *. lia.
Qed.

Lemma collect_ok s b k id charge now s' :
  cash_ok s → ReceivedCents charge ≤ max_int64 → recordBuyerCashCollection s b k id charge now = Ok s' → cash_ok s'.
Proof using.
  intros O B H. unfold recordBuyerCashCollection in H. apply refuse_Ok in H as [_ H]. cbv zeta in H.
  apply bind_Ok in H as (s1 & C & H). apply refuse_Ok in H as [_ H]. simplify_eq. apply bind_states_ok.
  destruct (cash_collections s !! PaymentIntentID charge) eqn:L.
  - apply refuse_Ok in C as [_ C]. apply refuse_Ok in C as [_ C]. by simplify_eq.
  - by apply insert_collection_ok in C.
Qed.

(** *** Applying an event *)

Lemma recompute_frame s pi n e u c r s' :
  recomputeStripeCollectionFunding s pi n e = Ok (u, c, r, s') →
  webhook_events s' = webhook_events s ∧ charge_states s' = charge_states s ∧ dispute_states s' = dispute_states s ∧
  cash_collections s' = cash_collections s ∧ fundings s' = fundings s.
Proof using. unfold recomputeStripeCollectionFunding. intros H. inv_ok. done. Qed.

Lemma charge_state_ok s e pi pi' s' :
  cash_ok s → validateStripeCashEvent e = Ok tt → EventType e = stripeEventChargeRefunded →
  applyStripeChargeRefundState s e pi = Ok (pi', s') → cash_ok s'.
Proof using.
  intros O V T H. apply validate_event in V as (_ & _ & R & _). specialize (R T).
  unfold applyStripeChargeRefundState in H. apply bind_Ok in H as (c & C & H). simplify_eq.
  apply (cash_ok_evidence s); [|apply (ok_dispute s O)|done..]. intros i st. simpl.
  rewrite lookup_insert_Some. intros [[<- <-]|[_ L]]; [|by eapply ok_charge].
  destruct (charge_states s !! ev_ChargeID e) as [st0|] eqn:L.
  - apply refuse_Ok in C as [X C]. reflect_bools. simplify_eq. simpl. pose proof (ok_charge s O _ _ L). lia.
  - simplify_eq. done.
Qed.

Lemma merge_effect_ok st ex : effect_ok st → effect_ok ex → effect_ok (merge_dispute st ex).
Proof using. unfold effect_ok, merge_dispute. simpl. intros H1 H2. by destruct (_ && _). Qed.

(** The effect an event carries. *)
Definition event_effect (e : stripeCashEvent) (intent : option string) : dispute_state :=
  let effective := negb (bool_decide (DisputeEffect e = stripeDisputeCashNoEffect)) in
  mkDisputeState (ev_ChargeID e) intent (AmountCents e) (ev_Currency e) (ev_Status e)
    (effective && bool_decide (DisputeEffect e = stripeDisputeCashUnavailable))
    (if effective then EventCreated e else 0) (if effective then EffectRank e else 0)
    (EventID e) (EventType e) (EventCreated e).

Lemma event_effect_ok e intent :
  validateStripeCashEvent e = Ok tt → EventType e ≠ stripeEventChargeRefunded → effect_ok (event_effect e intent).
Proof using.
  intros V T. apply validate_event in V as (Ec & Ea & _ & R). specialize (R T). unfold effect_ok, event_effect. simpl.
  destruct R as [[-> ->]|(P & N & U)].
  - simpl. split_and!; try done. by left.
  - rewrite (bool_decide_false (DisputeEffect e = stripeDisputeCashNoEffect)) by done. simpl. rewrite U. split_and!; try done; lia.
Qed.

Lemma dispute_state_ok s e pi pi' c r s' :
  cash_ok s → validateStripeCashEvent e = Ok tt → EventType e ≠ stripeEventChargeRefunded →
  applyStripeDisputeState s e pi = Ok (pi', c, r, s') → cash_ok s'.
Proof using.
  intros O V T H. pose proof (event_effect_ok e (nullableStripeID pi) V T) as Ex. apply validate_event in V as (_ & Ea & _).
  unfold applyStripeDisputeState in H. cbv zeta in H. fold (event_effect e (nullableStripeID pi)) in H.
  set (ex := event_effect _ _) in *.
  apply bind_Ok in H as (d & C & H). simplify_eq.
  apply (cash_ok_evidence s); [apply (ok_charge s O)| |done..]. intros i st. simpl.
  rewrite lookup_insert_Some. intros [[<- <-]|[_ L]]; [|by eapply ok_dispute].
  destruct (dispute_states s !! ObjectID e) as [st0|] eqn:L.
  - apply refuse_Ok in C as [_ C]. simplify_eq. destruct (ok_dispute s O _ _ L). split; [done|by apply merge_effect_ok].
  - by simplify_eq.
Qed.

Definition with_event (s : cashbook) (e : stripeCashEvent) : cashbook :=
  with_cash_webhooks s (<[EventID e := webhook_row e]> (webhook_events s)).

(** An event is a repetition, or is merged into the evidence and, when its collection
    is known, followed by the recomputation. *)
Lemma apply_Ok s e r s' :
  ApplyPaymentEventTx s e = Ok (r, s') →
  validateStripeCashEvent e = Ok tt ∧
  ((∃ w, webhook_events s !! EventID e = Some w ∧ same_webhook w e = true ∧ s' = s ∧
         r = mkCashResult true false 0 false 0 0 0) ∨
   (webhook_events s !! EventID e = None ∧
    ∃ pi a k s2, apply_evidence (with_event s e) e (default "" (resolve_intent s e)) = Ok (pi, a, k, s2) ∧
      match resolve_intent s e ≫= λ p, cash_collections s !! p with
      | None => s' = s2 ∧ r = mkCashResult false a k false 0 0 0
      | Some c => check_collection c e = Ok tt ∧
                  ∃ u n m, recomputeStripeCollectionFunding s2 pi (co_received c) e = Ok (u, n, m, s') ∧
                           r = mkCashResult false a k true u n m
      end)).
Proof using.
  unfold ApplyPaymentEventTx. intros H. apply bind_Ok in H as ([] & V & H). split; [done|].
  destruct (webhook_events s !! EventID e) as [w|] eqn:L.
  - apply refuse_Ok in H as [S H]. simplify_eq. left. exists w. by reflect_bools.
  - right. split; [done|]. apply refuse_Ok in H as [_ H]. fold (with_event s e) in H.
    change (resolve_intent (with_event s e) e) with (resolve_intent s e) in H.
    change (cash_collections (with_event s e)) with (cash_collections s) in H.
    apply bind_Ok in H as ([] & K & H). apply bind_Ok in H as ([[[pi a] k] s2] & E & H).
    exists pi, a, k, s2. split; [done|]. destruct (resolve_intent s e ≫= _) as [c|]; [|by simplify_eq].
    split; [done|]. apply bind_Ok in H as ([[[u n] m] s3] & R & H). simplify_eq. eauto 10.
Qed.

Lemma evidence_ok s e pi pi' a k s' :
  cash_ok s → validateStripeCashEvent e = Ok tt → apply_evidence s e pi = Ok (pi', a, k, s') → cash_ok s'.
Proof using.
  intros O V H. unfold apply_evidence in H. destruct (bool_decide (EventType e = _)) eqn:T in H; reflect_bools.
  - apply bind_Ok in H as ([q s1] & A & H). simplify_eq. apply charge_state_ok in A; [|done..].
    case_bool_decide; [done|by apply bind_disputes_ok].
  - apply bind_Ok in H as ([[[q c] r] s1] & A & H). simplify_eq. by apply dispute_state_ok in A.
Qed.

Lemma apply_ok s e r s' : cash_ok s → ApplyPaymentEventTx s e = Ok (r, s') → cash_ok s'.
Proof using.
  intros O [V [(w & _ & _ & -> & _)|(_ & pi & a & k & s2 & E & H)]]%apply_Ok; [done|].
  apply evidence_ok in E; [|by apply (cash_ok_frame s)|done]. destruct (_ ≫= _) as [c|]; [|by destruct H as [-> _]].
  destruct H as (_ & u & n & m & R & _). apply recompute_frame in R as (_ & E1 & E2 & E3 & E4). by apply (cash_ok_frame s2).
Qed.

(** *** Reserving *)

Section Capacity.
Context (s : cashbook) (O : cash_ok s) (pi : string).

Lemma refunded_nonneg : 0 ≤ refunded_sum s pi.
Proof using O. apply sum_over_nonneg. intros c st L. case_bool_decide; [|done]. pose proof (ok_charge s O c st L). lia. Qed.

Lemma disputed_nonneg : 0 ≤ disputed_sum s pi.
Proof using O.
  apply sum_over_nonneg. intros d st L. destruct (_ && _); [|done]. destruct (ok_dispute s O d st L). lia.
Qed.

Lemma reserved_nonneg : 0 ≤ reserved_sum s pi.
Proof using O. apply sum_over_nonneg. intros i f L. destruct (backs _ _); [|done]. pose proof (ok_funding s O i f L). lia. Qed.

Lemma unavailable_bounds n u : 0 ≤ n → unavailable_cents s pi n = Ok u → 0 ≤ u ≤ n.
Proof using O.
  intros N H. unfold unavailable_cents in H. apply refuse_Ok in H as [_ H]. simplify_eq.
  pose proof refunded_nonneg. pose proof disputed_nonneg. lia.
Qed.

(** A reservation that fits leaves the collection within its cash. *)
Lemma covers_spec n m cap :
  0 ≤ n ≤ max_int64 → stripeCollectionCapacityForPaymentIntent s pi n = Ok cap → 0 < m → covers n m cap = true →
  ∃ u, unavailable_cents s pi n = Ok u ∧ reserved_sum s pi + m ≤ n - u.
Proof using O.
  intros N H M C. unfold stripeCollectionCapacityForPaymentIntent in H. apply bind_Ok in H as (u & U & H).
  apply refuse_Ok in H as [_ H]. simplify_eq. exists u. split; [done|]. apply unavailable_bounds in U; [|lia]. pose proof reserved_nonneg.
  unfold covers in C. simpl in C. rewrite (wrap64_id (n - u)) in C by (width; lia). reflect_bools.
  rewrite wrap64_id in * by (width; lia). lia.
Qed.

End Capacity.

Lemma reserved_sum_fresh s id f p :
  fundings s !! id = None →
  reserved_sum (with_fundings s (<[id := f]> (fundings s))) p = reserved_sum s p + if backs p f then fu_amount f else 0.
Proof using. intros N. unfold reserved_sum. simpl. rewrite sum_over_fresh by done. lia. Qed.

(** A new row for a payout, within what the collection has left. *)
Definition reserves (s s' : cashbook) : Prop := ∃ id f p c u,
  s' = with_fundings s (<[id := f]> (fundings s)) ∧ fundings s !! id = None ∧ 0 < fu_amount f ∧ fu_intent f = Some p ∧
  cash_collections s !! p = Some c ∧ unavailable_cents s p (co_received c) = Ok u ∧
  reserved_sum s p + fu_amount f ≤ co_received c - u.

Lemma insert_funding_Ok s id f s' :
  insert_funding s id f = Ok s' → s' = with_fundings s (<[id := f]> (fundings s)) ∧ fundings s !! id = None ∧ 0 < fu_amount f.
Proof using.
  intros H. unfold insert_funding in H. apply refuse_Ok in H as [K H]. apply refuse_Ok in H as [U H]. simplify_eq.
  reflect_bools. split_and!; [done|by apply dec_stable|lia].
Qed.

Lemma reserves_ok s s' : cash_ok s → reserves s s' → cash_ok s'.
Proof using.
  intros O (id & f & p & c & u & -> & N & A & P & C & U & B).
  pose proof (ok_collection s O p c C). apply (unavailable_bounds s O) in U; [|lia].
  split; [apply (ok_charge s O)|apply (ok_dispute s O)|apply (ok_collection s O)|..].
  - intros i g. simpl. rewrite lookup_insert_Some. intros [[<- <-]|[_ L]]; [done|by eapply ok_funding].
  - intros q. rewrite reserved_sum_fresh by done. pose proof (ok_backed s O q) as Q. simpl in *. unfold backs. rewrite P.
    destruct (decide (q = p)) as [->|D].
    + rewrite C in *. simpl in *. destruct (_ && _); lia.
    + rewrite (bool_decide_false (Some p = Some q)), andb_false_r by congruence. lia.
Qed.

Lemma capacities_elem s l xs pi c cap :
  capacities s l = Ok xs → (pi, c, cap) ∈ xs → (pi, c) ∈ l ∧ stripeCollectionCapacityForPaymentIntent s pi (co_received c) = Ok cap.
Proof using.
  revert xs. induction l as [|[q d] l IH]; simpl; intros xs H E; [simplify_eq; by apply elem_of_nil in E|].
  apply bind_Ok in H as (cp & C & H). apply bind_Ok in H as (ys & Y & H). simplify_eq.
  apply elem_of_cons in E as [E|E]; [simplify_eq; split; [left|done]|]. destruct (IH ys Y E). split; [by right|done].
Qed.

Lemma pick_topup_Some n xs pi :
  pick_topup n xs = Ok (Some pi) → ∃ c cap, (pi, c, cap) ∈ xs ∧ covers (co_received c) n cap = true.
Proof using.
  induction xs as [|[[q c] cap] xs IH]; simpl; intros H; [done|]. destruct (_ || _) in H.
  - destruct (IH H) as (c' & cap' & E & C). exists c', cap'. split; [by right|done].
  - apply refuse_Ok in H as [_ H]. destruct (covers _ _ _) eqn:C in H.
    + simplify_eq. exists c, cap. split; [left|done].
    + destruct (IH H) as (c' & cap' & E & C'). exists c', cap'. split; [by right|done].
Qed.

Lemma reserve_topup_Ok s id now f r b s' :
  cash_ok s → reserveBuyerTopupPayoutFunding collate s id now f = Ok (r, b, s') → s' = s ∨ reserves s s'.
Proof using.
  intros O H. unfold reserveBuyerTopupPayoutFunding in H. apply refuse_Ok in H as [V H].
  apply bind_Ok in H as (xs & X & H). apply bind_Ok in H as ([pi|] & P & H); [|simplify_eq; by left].
  apply bind_Ok in H as (s1 & I & H). simplify_eq. right.
  apply pick_topup_Some in P as (c & cap & E & C). destruct (capacities_elem _ _ _ _ _ _ X E) as [M K].
  unfold topup_candidates in M. rewrite merge_sort_Permutation, list_elem_of_filter, elem_of_map_to_list in M. destruct M as [_ M].
  pose proof (ok_collection s O _ _ M). apply insert_funding_Ok in I as (-> & N & A).
  destruct (covers_spec s O pi (co_received c) _ _ ltac:(lia) K A C) as (u & U & B). do 5 eexists. split_and!; eauto.
Qed.

Lemma reserve_charged_Ok li s id now e j cj n cur r b s' :
  cash_ok s → reserve_charged li s id now e j cj n cur = Ok (r, b, s') → s' = s ∨ reserves s s'.
Proof using.
  intros O H. unfold reserve_charged in H. apply bind_Ok in H as ([so|] & _ & H); [|simplify_eq; by left].
  destruct (_ || _) in H; [simplify_eq; by left|].
  destruct (cash_collections s !! so_intent so) as [c|] eqn:C; [|simplify_eq; by left].
  destruct (negb _) in H; [simplify_eq; by left|]. apply refuse_Ok in H as [X H]. case_bool_decide; [simplify_eq; by left|].
  apply bind_Ok in H as (cap & K & H). apply refuse_Ok in H as [_ H].
  destruct (covers _ _ _) eqn:V in H; simpl in H; [|simplify_eq; by left]. apply bind_Ok in H as (s1 & I & H). simplify_eq. right.
  reflect_bools. pose proof (ok_collection s O _ _ C). apply insert_funding_Ok in I as (-> & N & A).
  assert (so_received so = co_received c) as Er by lia. rewrite Er in *. destruct (covers_spec s O _ (co_received c) _ _ ltac:(lia) K A V) as (u & U & B).
  do 5 eexists. split_and!; eauto.
Qed.

Lemma reserve_Ok li s id now e task n cur snap leases r b s' :
  cash_ok s → reservePayoutFundingWithJobSnapshot collate li s id now e task n cur snap leases = Ok (r, b, s') → s' = s ∨ reserves s s'.
Proof using.
  intros O H. unfold reservePayoutFundingWithJobSnapshot in H. apply refuse_Ok in H as [_ H].
  destruct (find_row _ _) as [[i f]|]; [apply refuse_Ok in H as [_ H]; simplify_eq; by left|].
  destruct task as [t|].
  - apply refuse_Ok in H as [_ H]. apply bind_Ok in H as ([jid j] & _ & H).
    case_bool_decide; [by eapply reserve_charged_Ok|]. destruct (negb _); [simplify_eq; by left|by eapply reserve_topup_Ok].
  - assert (∀ H' : match li_entries li !! e with
                   | Some (k, Some contractID) =>
                       match li_contracts li !! contractID with
                       | Some buyerID =>
                           if negb (bool_decide (k = KindSupplierCredit)) || bool_decide (contractID = uuid_Nil) ||
                              bool_decide (buyerID = uuid_Nil)
                           then Ok (uuid_Nil, false, s)
                           else reserveBuyerTopupPayoutFunding collate s id now (mkTopupFunding e buyerID None None (Some contractID) n cur)
                       | None => Ok (uuid_Nil, false, s)
                       end
                   | _ => Ok (uuid_Nil, false, s)
                   end = Ok (r, b, s'), s' = s ∨ reserves s s') as Realtime.
    { intros H'. destruct (li_entries li !! e) as [[k [ct|]]|]; [|simplify_eq; by left..].
      destruct (li_contracts li !! ct); [|simplify_eq; by left]. destruct (_ || _); [simplify_eq; by left|by eapply reserve_topup_Ok]. }
    destruct leases as [|l [|]]; [by apply Realtime| |by apply Realtime]. apply refuse_Ok in H as [_ H].
    unfold reserveServiceLeasePayoutFunding in H. apply refuse_Ok in H as [_ H].
    destruct (li_leases li !! l); [|simplify_eq; by left]. destruct (negb _); [simplify_eq; by left|].
    destruct (_ || _); [simplify_eq; by left|by eapply reserve_topup_Ok].
Qed.

Lemma bind_collection_ok s ch pi n cur s' : cash_ok s → bindStripeCashStateToCollection s ch pi n cur = Ok s' → cash_ok s'.
Proof using.
  intros O H. unfold bindStripeCashStateToCollection in H. apply refuse_Ok in H as [_ H]. apply refuse_Ok in H as [_ H].
  simplify_eq. by apply bind_states_ok.
Qed.

Lemma cash_step_ok s s' : cash_ok s → cash_step s s' → cash_ok s'.
Proof using.
  intros O H. destruct H; [by eapply apply_ok|by eapply collect_ok|by eapply insert_collection_ok|by eapply bind_collection_ok
    | |by apply (cash_ok_frame s)|by apply (cash_ok_frame s)].
  destruct (reserve_Ok _ _ _ _ _ _ _ _ _ _ _ _ _ O H) as [->|R]; [done|by eapply reserves_ok].
Qed.

Lemma cash_reachable_ok s : rtc cash_step no_cash s → cash_ok s.
Proof using.
  intros H. assert (cash_ok no_cash) as O.
  { by split; simpl; intros *; rewrite lookup_empty. }
  revert O. induction H as [s|s1 s2 s3 St _ IH]; [done|]. intros O. apply IH. by eapply cash_step_ok.
Qed.

(** C17: collected cash is never promised twice.  In every reachable state the payouts
    reserved against a collection add up to no more than the cash it received, and a
    payout that is not reserved already is reserved only against cash that is neither
    taken back by the card network nor reserved. *)
Theorem reservations_backed s :
  rtc cash_step no_cash s →
  (∀ p, 0 ≤ reserved_sum s p ≤ from_option co_received 0 (cash_collections s !! p)) ∧
  (∀ li id now entry task n cur snap leases r b s',
     reservePayoutFundingWithJobSnapshot collate li s id now entry task n cur snap leases = Ok (r, b, s') →
     s' = s ∨ reserves s s').
Proof using.
  intros O%cash_reachable_ok. split; [|intros *; by apply reserve_Ok].
  intros p. split; [by apply reserved_nonneg|by apply ok_backed].
Qed.

End Steps.

(** ** Impairment is exact *)

(** The shares add up to the shortfall. *)
Lemma exposures_total v l : ∀ r, (∀ x, x ∈ l → 0 ≤ fu_amount x.2) →
  list_total snd (exposures v r l) = Z.max 0 (r + list_total (λ x, fu_amount x.2) l - v) - Z.max 0 (r - v).
Proof.
  induction l as [|[id f] l IH]; intros r H; cbn -[Z.max Z.min]; [lia|].
  fold (list_total (λ x : UUID * funding, fu_amount x.2) l). fold (list_total (@snd UUID Z) (exposures v (r + fu_amount f) l)).
  rewrite IH by (intros; apply H; by right). pose proof (H (id, f) ltac:(left)). simpl in *. lia.
Qed.

Lemma exposures_ids v l : ∀ r, (exposures v r l).*1 = l.*1.
Proof. induction l as [|[id f] l IH]; intros r; simpl; [done|]. by rewrite IH. Qed.

Lemma exposures_app v l1 l2 : ∀ r,
  exposures v r (l1 ++ l2) = exposures v r l1 ++ exposures v (r + list_total (λ x, fu_amount x.2) l1) l2.
Proof.
  induction l1 as [|[id f] l1 IH]; intros r; simpl.
  - unfold list_total. simpl. by rewrite Z.add_0_r.
  - rewrite IH. do 3 f_equal. unfold list_total. simpl. lia.
Qed.

Lemma exposures_bounds v l id x : ∀ r, (id, x) ∈ exposures v r l → ∃ f, (id, f) ∈ l ∧ (0 ≤ fu_amount f → 0 ≤ x ≤ fu_amount f).
Proof.
  induction l as [|[i f] l IH]; intros r H; simpl in H; [by apply elem_of_nil in H|].
  apply elem_of_cons in H as [H|H].
  - simplify_eq. exists f. split; [left|lia].
  - destruct (IH _ H) as (g & G & B). exists g. split; [by right|done].
Qed.

(** The youngest reservations bear the loss. *)
Lemma exposures_senior v l1 l2 l3 id f id' f' x x' :
  (∀ y, y ∈ l1 ++ (id, f) :: l2 ++ (id', f') :: l3 → 0 ≤ fu_amount y.2) → NoDup (l1 ++ (id, f) :: l2 ++ (id', f') :: l3).*1 →
  (id, x) ∈ exposures v 0 (l1 ++ (id, f) :: l2 ++ (id', f') :: l3) →
  (id', x') ∈ exposures v 0 (l1 ++ (id, f) :: l2 ++ (id', f') :: l3) → 0 < x → x' = fu_amount f'.
Proof.
  intros P ND Hx Hx'. pose proof ND as ND'. rewrite <-(exposures_ids v _ 0) in ND'.
  set (R := list_total (λ x, fu_amount x.2) l1).
  assert (0 ≤ list_total (λ x : UUID * funding, fu_amount x.2) l2) as P2 by (apply list_total_nonneg; intros; apply P; set_solver).
  pose proof (P (id, f) ltac:(set_solver)) as Pf. pose proof (P (id', f') ltac:(set_solver)) as Pf'. simpl in Pf, Pf'.
  assert ((id, Z.max 0 (Z.min (fu_amount f) (R + fu_amount f - v))) ∈ exposures v 0 (l1 ++ (id, f) :: l2 ++ (id', f') :: l3)) as E.
  { rewrite exposures_app. simpl. set_solver. }
  assert ((id', Z.max 0 (Z.min (fu_amount f') (R + fu_amount f + list_total (λ x, fu_amount x.2) l2 + fu_amount f' - v)))
            ∈ exposures v 0 (l1 ++ (id, f) :: l2 ++ (id', f') :: l3)) as E'.
  { rewrite exposures_app. simpl. rewrite exposures_app. simpl. set_solver. }
  pose proof (fst_unique _ _ _ _ ND' Hx E). pose proof (fst_unique _ _ _ _ ND' Hx' E'). lia.
Qed.

Lemma record_states_lookup pi e u xs m id :
  record_states pi e u xs m !! id =
  match (list_to_map xs : gmap UUID Z) !! id with Some x => Some (exposure_state pi e u x) | None => m !! id end.
Proof.
  induction xs as [|[i x] xs IH]; [by rewrite list_to_map_nil, lookup_empty|]. simpl.
  destruct (decide (i = id)) as [->|D]; [by rewrite !lookup_insert_eq|]. by rewrite !lookup_insert_ne.
Qed.

Lemma fundings_of_spec s pi x : x ∈ fundings_of s pi ↔ fundings s !! x.1 = Some x.2 ∧ backs pi x.2 = true.
Proof.
  unfold fundings_of. rewrite merge_sort_Permutation, list_elem_of_filter. destruct x as [i f].
  rewrite elem_of_map_to_list. naive_solver.
Qed.

Lemma fundings_of_NoDup s pi : NoDup (fundings_of s pi).*1.
Proof.
  unfold fundings_of. rewrite merge_sort_Permutation. apply NoDup_fmap_fst; [|apply NoDup_filter, NoDup_map_to_list].
  intros i x y [_ Hx]%list_elem_of_filter [_ Hy]%list_elem_of_filter. apply elem_of_map_to_list in Hx, Hy. naive_solver.
Qed.

Lemma fundings_of_sorted s pi : StronglySorted (due_before fu_created) (fundings_of s pi).
Proof. apply StronglySorted_merge_sort; apply _. Qed.

Lemma fundings_of_total s pi : list_total (λ x, fu_amount x.2) (fundings_of s pi) = reserved_sum s pi.
Proof.
  unfold fundings_of, reserved_sum. rewrite (list_total_perm _ _ _ (merge_sort_Permutation _ _)), sum_over_total.
  apply (list_total_filter (λ x, backs pi x.2)).
Qed.

(** The impairment of a collection, after it has been recomputed. *)
Section Recompute.
Context (s : cashbook) (pi : string) (n : Z) (e : stripeCashEvent) (u k m : Z) (s' : cashbook).
Context (O : cash_ok s) (H : recomputeStripeCollectionFunding s pi n e = Ok (u, k, m, s')).
Let xs := exposures (n - u) 0 (fundings_of s pi).

Definition lost (s : cashbook) (id : UUID) : Z := from_option fs_compromised 0 (funding_states s !! id).

Lemma recompute_Ok :
  unavailable_cents s pi n = Ok u ∧ funding_states s' = record_states pi e u xs (funding_states s) ∧
  payout_ops s' = require_reversal pi e u xs <$> payout_ops s ∧
  entry_status s' = map_imap (λ id st, Some (if reversal_target xs (payout_ops s) id then "reversal_required" else st)) (entry_status s).
Proof using H.
  unfold recomputeStripeCollectionFunding in H. apply bind_Ok in H as (u' & U & H'). apply refuse_Ok in H' as [_ H'].
  by simplify_eq.
Qed.

Lemma exposed id f : fundings s !! id = Some f → backs pi f = true → ∃ x, (id, x) ∈ xs ∧ 0 ≤ x ≤ fu_amount f.
Proof using O.
  intros L B. assert (id ∈ xs.*1) as I.
  { unfold xs. rewrite exposures_ids, list_elem_of_fmap. exists (id, f). by rewrite fundings_of_spec. }
  apply list_elem_of_fmap in I as ([i x] & -> & I). exists x. split; [done|].
  destruct (exposures_bounds _ _ _ _ _ I) as (g & G & Bd). apply fundings_of_spec in G as [G _]. simpl in *. simplify_eq.
  apply Bd. pose proof (ok_funding s O i f L). lia.
Qed.

Lemma exposed_state id x : (id, x) ∈ xs → funding_states s' !! id = Some (exposure_state pi e u x).
Proof using H.
  intros I. destruct recompute_Ok as (_ & -> & _). rewrite record_states_lookup.
  apply (elem_of_list_to_map_1 (M:=gmap UUID)) in I; [by rewrite I|]. unfold xs. rewrite exposures_ids. apply fundings_of_NoDup.
Qed.

Lemma exposed_lost id x : (id, x) ∈ xs → lost s' id = x.
Proof using H. intros I. unfold lost. by rewrite (exposed_state id x I). Qed.

(** The shares of the reservations add up to what the remaining cash does not cover. *)
Lemma lost_total :
  0 ≤ u ≤ n → sum_over (λ id f, if backs pi f then lost s' id else 0) (fundings s) = Z.max 0 (reserved_sum s pi - (n - u)).
Proof using H O.
  intros U. rewrite sum_over_total.
  rewrite <-(list_total_filter (λ x, backs pi x.2) (λ x, lost s' x.1)).
  rewrite <-(list_total_perm _ _ _ (merge_sort_Permutation (due_before fu_created) _)). fold (fundings_of s pi).
  rewrite <-(list_total_fmap fst (lost s')), <-(exposures_ids (n - u) (fundings_of s pi) 0), list_total_fmap. fold xs.
  rewrite (list_total_ext _ snd) by (intros [i x] I; by apply exposed_lost). unfold xs. rewrite exposures_total.
  - rewrite fundings_of_total. lia.
  - intros [i f] [L _]%fundings_of_spec. pose proof (ok_funding s O i f L). simpl. lia.
Qed.

Lemma lost_senior id f id' f' :
  fundings s !! id = Some f → backs pi f = true → fundings s !! id' = Some f' → backs pi f' = true →
  fu_created f < fu_created f' → 0 < lost s' id → lost s' id' = fu_amount f'.
Proof using H O.
  intros L B L' B' C P. destruct (exposed id f L B) as (x & I & _). destruct (exposed id' f' L' B') as (x' & I' & _).
  rewrite (exposed_lost id x I) in P. rewrite (exposed_lost id' x' I').
  destruct (sorted_split fu_created (fundings_of s pi) (id, f) (id', f')) as (l1 & l2 & l3 & E);
    [apply fundings_of_sorted|by rewrite fundings_of_spec..|done|].
  pose proof (fundings_of_NoDup s pi) as ND.
  assert (∀ y, y ∈ fundings_of s pi → 0 ≤ fu_amount y.2) as Pos.
  { intros [i g] [G _]%fundings_of_spec. pose proof (ok_funding s O i g G). simpl. lia. }
  unfold xs in I, I'. rewrite E in *. by eapply exposures_senior.
Qed.

Lemma impairment_Some op id f :
  op_funding op = Some id → fundings s !! id = Some f → backs pi f = true → 0 < lost s' id → impairment xs op ≠ None.
Proof using H O.
  intros F L B P. destruct (exposed id f L B) as (x & I & _). rewrite (exposed_lost id x I) in P.
  unfold impairment. rewrite F. intros N. rewrite !fmap_None in N. rewrite list_find_None, Forall_forall in N.
  apply (N (id, x)); [done|]. simpl. by rewrite bool_decide_true, (proj2 (Z.ltb_lt 0 x)).
Qed.

(** A payout whose cash has moved has to be recovered. *)
Lemma moved_reversed o op id f :
  payout_ops s !! o = Some op → op_funding op = Some id → fundings s !! id = Some f → backs pi f = true → 0 < lost s' id →
  op_cash_moved op = true → op_status op ≠ "reversed" →
  (∃ op', payout_ops s' !! o = Some op' ∧ op_status op' = "reversal_required") ∧
  (entry_status s !! op_entry op ≠ None → entry_status s' !! op_entry op = Some "reversal_required").
Proof using H O.
  intros Lo F L B P Mv St. pose proof (impairment_Some op id f F L B P) as Im.
  assert (is_reversal xs op = true) as Rv.
  { unfold is_reversal. rewrite Mv, (bool_decide_true (impairment xs op ≠ None)), (bool_decide_false (op_status op = _)) by done. done. }
  destruct recompute_Ok as (_ & _ & Eo & Ee). split.
  - rewrite Eo, lookup_fmap, Lo. simpl. eexists. split; [done|]. unfold require_reversal. by rewrite Rv.
  - intros Es. rewrite Ee, map_lookup_imap. destruct (entry_status s !! op_entry op); [|done]. simpl.
    assert (reversal_target xs (payout_ops s) (op_entry op) = true) as ->; [|done].
    unfold reversal_target. apply existsb_exists. exists (o, op). rewrite <-list_elem_of_In, elem_of_map_to_list.
    split; [done|]. simpl. by rewrite bool_decide_true, Rv.
Qed.

End Recompute.

Lemma coalesce_agree o p : intents_agree o (Some p) = true → coalesce o (Some p) = Some p.
Proof. destruct o; simpl; [|done]. intros ?. reflect_bools. by subst. Qed.

(** Evidence is written under the intent that was resolved; the other tables stay. *)
Lemma evidence_intent s e p pi a k s' :
  apply_evidence s e p = Ok (pi, a, k, s') → trim_space p = p → p ≠ "" →
  pi = p ∧ webhook_events s' = webhook_events s ∧ cash_collections s' = cash_collections s ∧ fundings s' = fundings s ∧
  payout_ops s' = payout_ops s ∧ entry_status s' = entry_status s.
Proof.
  intros H T N. assert (nullableStripeID p = Some p) as Np by (unfold nullableStripeID, nullif; by rewrite T, bool_decide_false).
  unfold apply_evidence in H. destruct (bool_decide (EventType e = _)) in H.
  - apply bind_Ok in H as ([q s1] & A & H). simplify_eq. unfold applyStripeChargeRefundState in A.
    apply bind_Ok in A as (c & C & A). simplify_eq.
    assert (cs_intent c = Some p) as Ec.
    { rewrite Np in C. destruct (charge_states s !! _); [|by simplify_eq]. apply refuse_Ok in C as [G C]. reflect_bools.
      simplify_eq. by apply coalesce_agree. }
    rewrite Ec. simpl. by rewrite bool_decide_false.
  - apply bind_Ok in H as ([[[q c] r] s1] & A & H). simplify_eq. unfold applyStripeDisputeState in A. cbv zeta in A.
    apply bind_Ok in A as (d & C & A). simplify_eq.
    assert (ds_intent d = Some p) as Ed.
    { rewrite Np in C. destruct (dispute_states s !! _); [|by simplify_eq]. apply refuse_Ok in C as [G C]. reflect_bools.
      simplify_eq. by apply coalesce_agree. }
    by rewrite Ed.
Qed.

(** C8: impairment is exact.  After an event about a known collection, the cash the
    card network has taken is computed from all evidence of the collection, and the
    losses of the payouts reserved against it add up to exactly what the remaining cash
    does not cover.  No payout loses more than it reserved; younger reservations lose
    everything before an older one loses anything; and a payout that was already sent
    against lost cash is marked for recovery, in its operation and in the ledger. *)
Theorem impairment_exact s e r s' p c :
  cash_ok s → resolve_intent s e = Some p → trim_space p = p → p ≠ "" → cash_collections s !! p = Some c →
  ApplyPaymentEventTx s e = Ok (r, s') → Duplicate r = false →
  unavailable_cents s' p (co_received c) = Ok (UnavailableCents r) ∧ LinkedCollection r = true ∧
  sum_over (λ id f, if backs p f then lost s' id else 0) (fundings s') =
    Z.max 0 (reserved_sum s' p - (co_received c - UnavailableCents r)) ∧
  (∀ id f, fundings s' !! id = Some f → backs p f = true →
     0 ≤ lost s' id ≤ fu_amount f ∧
     fs_status <$> funding_states s' !! id = Some (if 0 <? lost s' id then "compromised" else "available") ∧
     (∀ id' f', fundings s' !! id' = Some f' → backs p f' = true → fu_created f < fu_created f' →
        0 < lost s' id → lost s' id' = fu_amount f') ∧
     (∀ o op, payout_ops s !! o = Some op → op_funding op = Some id → 0 < lost s' id → op_cash_moved op = true →
        op_status op ≠ "reversed" →
        (∃ op', payout_ops s' !! o = Some op' ∧ op_status op' = "reversal_required") ∧
        (entry_status s !! op_entry op ≠ None → entry_status s' !! op_entry op = Some "reversal_required"))).
Proof.
  intros O Rs T N C [V [(w & _ & _ & _ & ->)|(_ & pi & a & k & s2 & E & H)]]%apply_Ok D; [done|].
  rewrite Rs in *. simpl in *. rewrite C in H. destruct H as (_ & u & cn & m & R & ->). simpl.
  pose proof (evidence_ok _ _ _ _ _ _ _ (cash_ok_frame s (with_event s e) eq_refl eq_refl eq_refl eq_refl O) V E) as O2.
  apply evidence_intent in E as (-> & _ & E1 & E2 & E3 & E4); [|done..]. simpl in *.
  pose proof (recompute_frame _ _ _ _ _ _ _ _ R) as (_ & F1 & F2 & F3 & F4).
  pose proof (recompute_Ok _ _ _ _ _ _ _ _ R) as (U & _).
  assert (0 ≤ u ≤ co_received c) as Ub by (eapply unavailable_bounds; [exact O2| |exact U]; pose proof (ok_collection s O p c C); lia).
  split; [unfold unavailable_cents, refunded_sum, disputed_sum in *; by rewrite F1, F2|]. split; [done|]. split.
  { rewrite F4. rewrite (lost_total _ _ _ _ _ _ _ _ O2 R Ub). unfold reserved_sum. by rewrite F4. }
  rewrite F4. intros id f L B. destruct (exposed s2 p (co_received c) u O2 id f L B) as (x & I & Bx).
  pose proof (exposed_lost _ _ _ _ _ _ _ _ R id x I) as Lx.
  split; [by rewrite Lx|]. split; [rewrite Lx, (exposed_state _ _ _ _ _ _ _ _ R id x I); done|]. split.
  - intros id' f' L' B' K P. by apply (lost_senior _ _ _ _ _ _ _ _ O2 R id f).
  - intros o op Lo Fo P Mv St. rewrite <-E4. eapply (moved_reversed _ _ _ _ _ _ _ _ O2 R); try done. by rewrite E3.
Qed.

(** ** What the evidence says *)

Definition refunded_at (s : cashbook) (c : string) : Z := from_option cs_refunded 0 (charge_states s !! c).
Definition effect_at (s : cashbook) (d : string) : Z * Z :=
  from_option (λ st, (ds_effect_created st, ds_effect_rank st)) (0, 0) (dispute_states s !! d).

(** ** Repetition and late binding *)

Lemma evidence_events s e p pi a k s' : apply_evidence s e p = Ok (pi, a, k, s') → webhook_events s' = webhook_events s.
Proof.
  intros E. unfold apply_evidence in E. case_bool_decide.
  - apply bind_Ok in E as ([q s3] & A & E). unfold applyStripeChargeRefundState in A. apply bind_Ok in A as (c & _ & A).
    simplify_eq. by case_bool_decide.
  - apply bind_Ok in E as ([[[q c1] r1] s3] & A & E). unfold applyStripeDisputeState in A. apply bind_Ok in A as (c & _ & A).
    by simplify_eq.
Qed.

Lemma apply_events s e r s' :
  ApplyPaymentEventTx s e = Ok (r, s') →
  webhook_events s' = webhook_events s ∧ (∃ w, webhook_events s !! EventID e = Some w ∧ same_webhook w e = true) ∨
  webhook_events s' = <[EventID e := webhook_row e]> (webhook_events s) ∧ webhook_events s !! EventID e = None.
Proof.
  intros [_ [(w & L & Sm & -> & _)|(F & pi & a & k & s2 & E%evidence_events & H)]]%apply_Ok; [left; eauto|right].
  split; [|done]. change (<[_ := _]> _) with (webhook_events (with_event s e)). rewrite <-E.
  destruct (_ ≫= _); [|by destruct H as [-> _]]. destruct H as (_ & u & n & m & R & _). by apply recompute_frame in R as (-> & _).
Qed.

Lemma insert_collection_Ok s pi c s' :
  insert_collection s pi c = Ok s' → s' = with_collections s (<[pi := c]> (cash_collections s)) ∧ collection_checks pi c = true.
Proof. unfold insert_collection. intros H. apply refuse_Ok in H as [C H]. apply refuse_Ok in H as [_ H]. simplify_eq. by reflect_bools. Qed.

(** Recording a collection stores it, or finds it stored, and binds the evidence. *)
Lemma collect_Ok s b k id charge now s' :
  recordBuyerCashCollection s b k id charge now = Ok s' →
  ∃ s1 c, s' = bind_states s1 (cr_ChargeID charge) (PaymentIntentID charge) ∧
    cash_collections s1 !! PaymentIntentID charge = Some c ∧
    same_collection c (mkCollection (Some (cr_ChargeID charge)) b k (if bool_decide (k = "job") then Some id else None)
      (if bool_decide (k = "batch") then Some id else None) (RequestedCents charge) (ReceivedCents charge) (cr_Currency charge) now) = true ∧
    collection_checks (PaymentIntentID charge) (mkCollection (Some (cr_ChargeID charge)) b k (if bool_decide (k = "job") then Some id else None)
      (if bool_decide (k = "batch") then Some id else None) (RequestedCents charge) (ReceivedCents charge) (cr_Currency charge) now) = true ∧
    one_of k ["job"; "batch"] = true ∧
    cash_conflict s1 (cr_ChargeID charge) (PaymentIntentID charge) (ReceivedCents charge) (cr_Currency charge) = false ∧
    charge_states s1 = charge_states s ∧ dispute_states s1 = dispute_states s ∧ webhook_events s1 = webhook_events s.
Proof.
  unfold recordBuyerCashCollection. intros H. apply refuse_Ok in H as [K H]. apply bind_Ok in H as (s1 & C & H).
  apply refuse_Ok in H as [X H]. simplify_eq. apply negb_false_iff in K.
  destruct (cash_collections s !! PaymentIntentID charge) as [c|] eqn:L.
  - apply refuse_Ok in C as [C1 C]. apply refuse_Ok in C as [C2 C]. simplify_eq. exists s1, c. by reflect_bools.
  - apply insert_collection_Ok in C as [-> C]. eexists _, _. split; [done|]. simpl. rewrite lookup_insert_eq. split; [done|].
    split; [|by rewrite K]. unfold same_collection. simpl. by rewrite !bool_decide_true, !Z.eqb_refl by done.
Qed.

Lemma cash_step_events collate s s' id w :
  cash_ok s → cash_step collate s s' → webhook_events s !! id = Some w → webhook_events s' !! id = Some w.
Proof.
  intros O H L. destruct H as [s e r s' H|s b k j charge now s' _ H|s pi c s' N _ H|s ch pi n cur s' H
    |s li i now en t n cur sn ls r b s' H|s x|s ops es]; [..|done|done].
  - apply apply_events in H as [[-> _]|[-> N]]; [done|]. rewrite lookup_insert_ne; congruence.
  - apply collect_Ok in H as (s1 & c & -> & _ & _ & _ & _ & _ & _ & _ & E). simpl. by rewrite E.
  - by apply insert_collection_Ok in H as [-> _].
  - unfold bindStripeCashStateToCollection in H. apply refuse_Ok in H as [_ H]. apply refuse_Ok in H as [_ H]. by simplify_eq.
  - apply reserve_Ok in H as [->|(i' & f & p & c & u & -> & _)]; done.
Qed.

(** A webhook counts once.  An event that was applied is recognised in every later
    state: applying it again changes nothing and says so. *)
Theorem event_once collate s e r s' s2 :
  rtc (cash_step collate) no_cash s → ApplyPaymentEventTx s e = Ok (r, s') → rtc (cash_step collate) s' s2 →
  ApplyPaymentEventTx s2 e = Ok (mkCashResult true false 0 false 0 0 0, s2).
Proof.
  intros O%cash_reachable_ok H St.
  assert (validateStripeCashEvent e = Ok tt ∧ ∃ w, webhook_events s' !! EventID e = Some w ∧ same_webhook w e = true) as [V (w & L & Sm)].
  { split; [by apply apply_Ok in H as [? _]|]. apply apply_events in H as [[-> ?]|[-> _]]; [done|].
    rewrite lookup_insert_eq. eexists. split; [done|]. unfold same_webhook. simpl.
    assert (default "" (nullif (ev_PaymentIntent e)) = ev_PaymentIntent e) as -> by (unfold nullif; by case_bool_decide).
    by rewrite !bool_decide_true, Z.eqb_refl by done. }
  apply (apply_ok s) in H; [|done]. clear O s r.
  assert (webhook_events s2 !! EventID e = Some w) as L2.
  { revert H L. induction St as [|s1 s3 s4 St _ IH]; [done|]. intros O L. apply IH; [by eapply cash_step_ok|by eapply cash_step_events]. }
  unfold ApplyPaymentEventTx. rewrite V. simpl. by rewrite L2, Sm.
Qed.

Lemma bind_states_bound s ch p :
  (∀ st, charge_states s !! ch = Some st → cs_intent st ≠ None) →
  (∀ d st, dispute_states s !! d = Some st → ds_charge st = ch → ds_intent st ≠ None) → bind_states s ch p = s.
Proof.
  intros B1 B2. unfold bind_states, bind_disputes. simpl.
  assert (alter (bind_charge p) ch (charge_states s) = charge_states s) as ->.
  { apply map_eq. intros c. destruct (decide (ch = c)) as [<-|D]; [|by rewrite lookup_alter_ne]. rewrite lookup_alter_eq.
    destruct (charge_states s !! ch) as [st|] eqn:L; [|done]. specialize (B1 st eq_refl). simpl. f_equal. by destruct st as [[i|]]. }
  assert (bind_dispute ch p <$> dispute_states s = dispute_states s) as ->; [|by destruct s].
  rewrite <-(map_fmap_id (dispute_states s)) at 2. apply map_fmap_ext. intros d st L. specialize (B2 d st L).
  unfold bind_dispute. case_bool_decide; [|done]. destruct st as [? [i|]]; [done|]. by destruct B2.
Qed.

(** Evidence that came before its collection is not lost.  Recording a collection
    binds every refund and dispute of its charge to it, whatever had arrived before,
    and leaves what they say as it was; recording it again changes nothing. *)
Theorem collection_binds_evidence s b k id charge now s' :
  recordBuyerCashCollection s b k id charge now = Ok s' →
  (∀ st, charge_states s' !! cr_ChargeID charge = Some st → cs_intent st = Some (PaymentIntentID charge)) ∧
  (∀ d st, dispute_states s' !! d = Some st → ds_charge st = cr_ChargeID charge → ds_intent st = Some (PaymentIntentID charge)) ∧
  (∀ c, refunded_at s' c = refunded_at s c) ∧ (∀ d, effect_at s' d = effect_at s d) ∧
  ∀ now', recordBuyerCashCollection s' b k id charge now' = Ok s'.
Proof.
  intros (s1 & c & -> & Lc & Sm & Ck & K & X & E1 & E2 & _)%collect_Ok.
  set (ch := cr_ChargeID charge) in *. set (pi := PaymentIntentID charge) in *.
  unfold cash_conflict in X. apply orb_false_iff in X as [X X3]. apply orb_false_iff in X as [X1 X2].
  assert (∀ st, charge_states (bind_states s1 ch pi) !! ch = Some st → cs_intent st = Some pi ∧
            cs_amount st = ReceivedCents charge ∧ cs_currency st = cr_Currency charge) as B1.
  { simpl. intros st. rewrite lookup_alter_eq. destruct (charge_states s1 !! ch) as [st0|]; [|done]. simpl. intros ?. simplify_eq.
    apply orb_false_iff in X1 as [X1 Y2]. apply orb_false_iff in X1 as [Y0 Y1]. reflect_bools. simpl.
    split; [|done]. destruct (cs_intent st0); [|done]. simpl in *. reflect_bools. by subst. }
  assert (∀ d st, dispute_states (bind_states s1 ch pi) !! d = Some st → ds_charge st = ch → ds_intent st = Some pi ∧
            ds_amount st ≤ ReceivedCents charge ∧ ds_currency st = cr_Currency charge) as B2.
  { intros d st (st0 & L & ->)%bind_disputes_lookup Hc. destruct (bind_dispute_keeps ch pi st0) as (_ & _ & _ & _ & Kc).
    rewrite Kc in Hc. simpl in L.
    assert (other_intent pi (ds_intent st0) || (ReceivedCents charge <? ds_amount st0) || negb (bool_decide (ds_currency st0 = cr_Currency charge)) = false) as Y.
    { apply not_true_iff_false. intros Y. apply not_true_iff_false in X2. apply X2, existsb_exists. exists (d, st0).
      rewrite <-list_elem_of_In, elem_of_map_to_list. split; [done|]. simpl. by rewrite bool_decide_true, Y. }
    apply orb_false_iff in Y as [Y Y2]. apply orb_false_iff in Y as [Y0 Y1]. reflect_bools.
    unfold bind_dispute. rewrite bool_decide_true by done. simpl. split; [|split; [lia|done]].
    destruct (ds_intent st0); [|done]. simpl in *. reflect_bools. by subst. }
  split; [intros st L; by apply B1|]. split; [intros d st L E; by apply (B2 d st)|]. split; [|split].
  - intros ch'. unfold refunded_at. simpl. rewrite <-E1. destruct (decide (ch = ch')) as [<-|D]; [|by rewrite lookup_alter_ne].
    rewrite lookup_alter_eq. by destruct (charge_states s1 !! ch).
  - intros d. unfold effect_at. simpl. rewrite lookup_fmap, <-E2. destruct (dispute_states s1 !! d) as [st|]; [|done]. simpl.
    by destruct (bind_dispute_keeps ch pi st) as (_ & _ & -> & -> & _).
  - intros now'. unfold recordBuyerCashCollection. rewrite K. cbv zeta. fold ch pi.
    change (cash_collections (bind_states s1 ch pi)) with (cash_collections s1). rewrite Lc.
    set (c' := mkCollection _ _ _ _ _ _ _ _ now'). assert (collection_checks pi c' = true) as -> by exact Ck.
    assert (same_collection c c' = true) as -> by exact Sm. simpl.
    assert (cash_conflict (bind_states s1 ch pi) ch pi (ReceivedCents charge) (cr_Currency charge) = false) as ->.
    { unfold cash_conflict. apply orb_false_iff. split; [apply orb_false_iff; split|exact X3].
      - destruct (charge_states (bind_states s1 ch pi) !! ch) as [st|] eqn:L; [|done]. destruct (B1 st eq_refl) as (-> & -> & ->). simpl.
        by rewrite Z.eqb_refl, !bool_decide_true by done.
      - apply not_true_iff_false. rewrite existsb_exists. intros ([d st] & L & Y). rewrite <-list_elem_of_In, elem_of_map_to_list in L.
        apply andb_true_iff in Y as [Hc%bool_decide_eq_true Y]. simpl in *. destruct (B2 d st L Hc) as (Ei & Ea & Ec). rewrite Ei in Y. simpl in Y.
        rewrite Ec, !bool_decide_true, (proj2 (Z.ltb_ge _ _)) in Y by done. done. }
    f_equal. apply bind_states_bound; [intros st L; by rewrite (proj1 (B1 st L))|intros d st L Hc; by rewrite (proj1 (B2 d st L Hc))].
Qed.

(** ** Examples *)

Definition ex_sha : string := "0123456789abcdef0123456789abcdef0123456789abcdef0123456789abcdef".
Definition ex_charge : ChargeResult := mkChargeResult "pi_1" "ch_1" 1000 1000 "usd".
Definition ex_refund (id : string) (created cents : Z) : stripeCashEvent :=
  mkCashEvent id stripeEventChargeRefunded "ch_1" "ch_1" "" "usd" "" created 1000 cents ex_sha stripeDisputeCashNoEffect 0.
Definition ex_withdrawn : stripeCashEvent :=
  mkCashEvent "evt_3" stripeEventDisputeFundsWithdrawn "dp_1" "ch_1" "pi_1" "usd" "needs_response" 20 400 0 ex_sha
    stripeDisputeCashUnavailable 20.
Definition ex_reinstated : stripeCashEvent :=
  mkCashEvent "evt_4" stripeEventDisputeFundsReinstated "dp_1" "ch_1" "" "usd" "won" 30 400 0 ex_sha
    stripeDisputeCashAvailable 40.

Definition ex_collate (_ _ : string) : bool := true.
Definition ex_job : cash_job := mkCashJob (mkCashSource 7%N "charged" "pi_1" 1000 1000 "usd") None false.
Definition ex_liabilities : liabilities := mkLiabilities {[ 21%N := 31%N; 22%N := 31%N ]} {[ 31%N := ex_job ]} ∅ ∅ ∅ ∅.

(** A refund arrives before its collection is recorded; then two payouts are reserved. *)
Definition ex_early : cashbook := (ok_or (mkCashResult false false 0 false 0 0 0, no_cash) (ApplyPaymentEventTx no_cash (ex_refund "evt_1" 10 300))).2.
Definition ex_known : cashbook := ok_or no_cash (recordBuyerCashCollection no_cash 7%N "job" 31%N ex_charge 5).
Definition ex_recorded : cashbook := ok_or no_cash (recordBuyerCashCollection ex_early 7%N "job" 31%N ex_charge 5).
Definition ex_reserved_by (s : cashbook) (id entry task : UUID) (now n : Z) : cashbook :=
  (ok_or (uuid_Nil, false, s)
     (reservePayoutFundingWithJobSnapshot ex_collate ex_liabilities s id now entry (Some task) n "usd" None [])).2.
Definition ex_first : cashbook := ex_reserved_by ex_recorded 51%N 61%N 21%N 100 400.
Definition ex_second : cashbook := ex_reserved_by ex_first 52%N 62%N 22%N 200 300.
Definition ex_sent : cashbook :=
  with_impairment ex_second (funding_states ex_second)
    {[ 71%N := mkPayoutOp 62%N (Some 52%N) "released" true false None ]} {[ 61%N := "held"; 62%N := "released" ]}.

Lemma ex_recorded_reachable : rtc (cash_step ex_collate) no_cash ex_recorded.
Proof.
  eapply rtc_l; [eapply (cash_apply _ _ (ex_refund "evt_1" 10 300) (mkCashResult false false 0 false 0 0 0) ex_early); vm_compute; reflexivity|].
  apply rtc_once, (cash_collect _ _ 7%N "job" 31%N ex_charge 5); [vm_compute; discriminate|vm_compute; reflexivity].
Qed.

Lemma ex_sent_reachable : rtc (cash_step ex_collate) no_cash ex_sent.
Proof.
  etrans; [apply ex_recorded_reachable|].
  eapply rtc_l; [eapply (cash_reserve _ _ ex_liabilities 51%N 100 61%N (Some 21%N) 400 "usd" None [] 51%N true ex_first); vm_compute; reflexivity|].
  eapply rtc_l; [eapply (cash_reserve _ _ ex_liabilities 52%N 200 62%N (Some 22%N) 300 "usd" None [] 52%N true ex_second); vm_compute; reflexivity|].
  apply rtc_once, cash_payout.
Qed.

Lemma reservations_backed_witness :
  reserved_sum ex_sent "pi_1" = 700 ∧ reserved_sum ex_sent "pi_1" ≤ from_option co_received 0 (cash_collections ex_sent !! "pi_1").
Proof. split; [vm_compute; reflexivity|]. apply (reservations_backed ex_collate ex_sent ex_sent_reachable). Defined.

Definition ex_lost : stripeCashEventResult * cashbook :=
  ok_or (mkCashResult false false 0 false 0 0 0, no_cash) (ApplyPaymentEventTx ex_sent ex_withdrawn).

(** 300 refunded and 400 disputed leave 300 of 1000 for payouts of 400 and 300: the
    younger loses all of its 300, the older 100. *)
Lemma impairment_exact_witness :
  UnavailableCents ex_lost.1 = 700 ∧ lost ex_lost.2 51%N = 100 ∧ lost ex_lost.2 52%N = 300 ∧
  entry_status ex_lost.2 !! 62%N = Some "reversal_required" ∧
  sum_over (λ id f, if backs "pi_1" f then lost ex_lost.2 id else 0) (fundings ex_lost.2) =
    Z.max 0 (reserved_sum ex_lost.2 "pi_1" - (1000 - UnavailableCents ex_lost.1)).
Proof.
  assert (ApplyPaymentEventTx ex_sent ex_withdrawn = Ok (ex_lost.1, ex_lost.2)) as E by (vm_compute; reflexivity).
  split; [vm_compute; reflexivity|]. split; [vm_compute; reflexivity|]. split; [vm_compute; reflexivity|].
  split; [vm_compute; reflexivity|].
  destruct (impairment_exact ex_sent ex_withdrawn ex_lost.1 ex_lost.2 "pi_1" (mkCollection (Some "ch_1") 7%N "job" (Some 31%N) None 1000 1000 "usd" 5)
    (cash_reachable_ok _ _ ex_sent_reachable)) as (_ & _ & T & _); [vm_compute; reflexivity..|discriminate|vm_compute; reflexivity|exact E|vm_compute; reflexivity|].
  exact T.
Defined.

Lemma event_once_witness :
  ApplyPaymentEventTx ex_recorded (ex_refund "evt_1" 10 300) = Ok (mkCashResult true false 0 false 0 0 0, ex_recorded).
Proof.
  apply (event_once ex_collate no_cash (ex_refund "evt_1" 10 300) (mkCashResult false false 0 false 0 0 0) ex_early);
    [apply rtc_refl|vm_compute; reflexivity|].
  apply rtc_once, (cash_collect _ _ 7%N "job" 31%N ex_charge 5); [vm_compute; discriminate|vm_compute; reflexivity].
Defined.

Lemma collection_binds_evidence_witness :
  cs_intent <$> charge_states ex_early !! "ch_1" = Some None ∧
  (∀ st, charge_states ex_recorded !! "ch_1" = Some st → cs_intent st = Some "pi_1") ∧
  recordBuyerCashCollection ex_recorded 7%N "job" 31%N ex_charge 99 = Ok ex_recorded.
Proof.
  split; [vm_compute; reflexivity|].
  destruct (collection_binds_evidence ex_early 7%N "job" 31%N ex_charge 5 ex_recorded) as (B & _ & _ & _ & R); [vm_compute; reflexivity|].
  split; [exact B|apply R].
Defined.
