(* ===== verification/CashEvidence.v ===== *)
(** * CashEvidence: the order in which Stripe reports does not matter

    Refunds and disputes are reported by webhook: repeated, in any order, and before or
    after the collection they are about has been recorded ([stripe_cash_events.go],
    [collect.go], [store_prepaid.go]).  [cash_run] is any interleaving of events,
    collections, top-ups, reservations and payouts that starts from empty tables; the
    evidence it leaves is a function of the set of events and of the collected charges
    alone. *)
From stdpp Require Import base numbers list gmap strings sorting pretty.
From S2P Require Import Prelude.
From S2P Require Import LedgerWrite.
From S2P Require Import StripeCash.
Local Open Scope Z_scope.
Local Open Scope go_scope.

(** ** What a set of events says *)

Definition is_refund (e : stripeCashEvent) : bool := bool_decide (EventType e = stripeEventChargeRefunded).

(** What an event says about a charge and about a dispute. *)
Definition refund_says (c : string) (e : stripeCashEvent) : Z :=
  if is_refund e && bool_decide (ev_ChargeID e = c) then RefundedCents e else 0.
Definition effect_says (d : string) (e : stripeCashEvent) : Z * Z :=
  if negb (is_refund e) && bool_decide (ObjectID e = d) && negb (bool_decide (DisputeEffect e = stripeDisputeCashNoEffect))
  then (EventCreated e, EffectRank e) else (0, 0).

Definition effect_max (x y : Z * Z) : Z * Z := if effect_le x.1 x.2 y.1 y.2 then y else x.

Lemma effect_le_spec c1 r1 c2 r2 : effect_le c1 r1 c2 r2 = true ↔ c1 < c2 ∨ c1 = c2 ∧ r1 ≤ r2.
Proof. unfold effect_le. rewrite orb_true_iff, andb_true_iff, Z.ltb_lt, Z.eqb_eq, Z.leb_le. done. Qed.

Lemma effect_max_cases x y :
  (effect_max x y = y ∧ (x.1 < y.1 ∨ x.1 = y.1 ∧ x.2 ≤ y.2)) ∨ (effect_max x y = x ∧ (y.1 < x.1 ∨ x.1 = y.1 ∧ y.2 < x.2)).
Proof.
  unfold effect_max. destruct (effect_le x.1 x.2 y.1 y.2) eqn:E.
  - left. split; [done|]. by apply effect_le_spec.
  - right. split; [done|]. apply not_true_iff_false in E. rewrite effect_le_spec in E. lia.
Qed.

Lemma effect_eq (x y : Z * Z) : x.1 = y.1 → x.2 = y.2 → x = y.
Proof. destruct x, y. simpl. congruence. Qed.

Lemma effect_max_assoc x y z : effect_max x (effect_max y z) = effect_max (effect_max x y) z.
Proof.
  destruct (effect_max_cases y z) as [[E1 L1]|[E1 L1]], (effect_max_cases x y) as [[E2 L2]|[E2 L2]]; rewrite E1, E2;
    destruct (effect_max_cases x z) as [[E3 L3]|[E3 L3]]; rewrite ?E1, ?E2, ?E3; try done; apply effect_eq; lia.
Qed.

Lemma effect_max_comm x y : effect_max x y = effect_max y x.
Proof.
  destruct (effect_max_cases x y) as [[-> L1]|[-> L1]], (effect_max_cases y x) as [[-> L2]|[-> L2]]; try done; apply effect_eq; lia.
Qed.

Definition refund_level (es : list stripeCashEvent) (c : string) : Z := foldr (λ e m, Z.max (refund_says c e) m) 0 es.
Definition effect_level (es : list stripeCashEvent) (d : string) : Z * Z := foldr (λ e m, effect_max (effect_says d e) m) (0, 0) es.

Lemma refund_level_elem es c e : e ∈ es → refund_says c e ≤ refund_level es c.
Proof. unfold refund_level. induction 1; simpl; lia. Qed.

Lemma effect_max_idem x : effect_max x x = x.
Proof. unfold effect_max. by destruct (effect_le _ _ _ _). Qed.

Lemma effect_level_elem es d e : e ∈ es → effect_max (effect_says d e) (effect_level es d) = effect_level es d.
Proof.
  unfold effect_level. induction 1 as [e es|e e' es _ IH]; simpl.
  - by rewrite effect_max_assoc, effect_max_idem.
  - rewrite effect_max_assoc, (effect_max_comm (effect_says d e)), <-effect_max_assoc. f_equal. done.
Qed.

Lemma effect_level_floor es d : effect_max (0, 0) (effect_level es d) = effect_level es d.
Proof.
  unfold effect_level. induction es as [|e es IH]; [done|]. simpl.
  rewrite effect_max_assoc, (effect_max_comm (0, 0)), <-effect_max_assoc. by rewrite IH.
Qed.

Lemma refund_level_cons e es c : refund_level (e :: es) c = Z.max (refund_says c e) (refund_level es c).
Proof. done. Qed.

Lemma effect_level_cons e es d : effect_level (e :: es) d = effect_max (effect_says d e) (effect_level es d).
Proof. done. Qed.

Lemma refund_level_nonneg es c : 0 ≤ refund_level es c.
Proof. unfold refund_level. induction es; simpl; lia. Qed.


(** The levels depend on which events there are, not on how often or when they came. *)
Lemma refund_level_mono es es' c : (∀ e, e ∈ es → e ∈ es') → refund_level es c ≤ refund_level es' c.
Proof.
  induction es as [|e es IH]; intros S; [apply refund_level_nonneg|]. rewrite refund_level_cons.
  pose proof (refund_level_elem es' c e (S e ltac:(left))). specialize (IH ltac:(intros; apply S; by right)). lia.
Qed.

Lemma effect_level_mono es es' d : (∀ e, e ∈ es → e ∈ es') → effect_max (effect_level es d) (effect_level es' d) = effect_level es' d.
Proof.
  induction es as [|e es IH]; intros S; [apply effect_level_floor|].
  rewrite effect_level_cons, <-effect_max_assoc, IH by (intros; apply S; by right). apply effect_level_elem, S. left.
Qed.

Lemma refund_level_set es es' c : (∀ e, e ∈ es ↔ e ∈ es') → refund_level es c = refund_level es' c.
Proof. intros E. apply Z.le_antisymm; apply refund_level_mono; intros e; apply E. Qed.

Lemma effect_level_set es es' d : (∀ e, e ∈ es ↔ e ∈ es') → effect_level es d = effect_level es' d.
Proof.
  intros E. rewrite <-(effect_level_mono es es' d) by (intros e; apply E).
  by rewrite effect_max_comm, effect_level_mono by (intros e; apply E).
Qed.

(** ** Runs *)

(** A binding is [p] when [P] holds and missing otherwise. *)
Definition bound_iff (P : Prop) (p : string) (o : option string) : Prop := (P ∧ o = Some p) ∨ (¬ P ∧ o = None).

#[export] Instance bound_iff_proper : Proper (iff ==> eq ==> eq ==> iff) bound_iff.
Proof. intros P Q E p ? <- o ? <-. unfold bound_iff. by rewrite E. Qed.

Lemma bound_iff_mono P Q p o : (P ↔ Q) → bound_iff P p o → bound_iff Q p o.
Proof. unfold bound_iff. tauto. Qed.

Lemma bound_iff_eq P Q p o o' : (P ↔ Q) → bound_iff P p o → bound_iff Q p o' → o = o'.
Proof. intros E [[H ->]|[H ->]] [[H' ->]|[H' ->]]; tauto. Qed.

Lemma bound_iff_fill P Q p o : Q → bound_iff P p o → bound_iff Q p (fill_intent p o).
Proof. intros H [[_ ->]|[_ ->]]; by left. Qed.

Lemma bound_iff_coalesce P Q R p o o' : (R ↔ P ∨ Q) → bound_iff P p o → bound_iff Q p o' → bound_iff R p (coalesce o o').
Proof. intros E [[H ->]|[H ->]] [[H' ->]|[H' ->]]; simpl; unfold bound_iff; tauto. Qed.

(** The charge of some recorded collection. *)
Definition collected (s : cashbook) (ch : string) : Prop := ∃ p c, cash_collections s !! p = Some c ∧ co_charge c = Some ch.

(** A refund of the charge named its payment intent; an event of the dispute did. *)
Definition charge_named (es : list stripeCashEvent) (ch : string) : Prop :=
  ∃ e, e ∈ es ∧ is_refund e = true ∧ ev_ChargeID e = ch ∧ ev_PaymentIntent e ≠ "".
Definition dispute_named (es : list stripeCashEvent) (d : string) : Prop :=
  ∃ e, e ∈ es ∧ is_refund e = false ∧ ObjectID e = d ∧ ev_PaymentIntent e ≠ "".

Definition charge_bound (es : list stripeCashEvent) (s : cashbook) (ch : string) : Prop := collected s ch ∨ charge_named es ch.

Section Runs.
Context (collate : string → string → bool).

(** The events accepted since the tables were empty, the latest first, and the tables
    they led to.  A top-up inserts its collection and binds the evidence in one
    transaction; its replay binds again. *)
Inductive cash_run : list stripeCashEvent → cashbook → Prop :=
  | run_start : cash_run [] no_cash
  | run_event es s e r s' : cash_run es s → ApplyPaymentEventTx s e = Ok (r, s') → cash_run (e :: es) s'
  | run_collect es s b k id charge now s' :
      cash_run es s → ReceivedCents charge ≤ max_int64 → recordBuyerCashCollection s b k id charge now = Ok s' → cash_run es s'
  | run_topup es s pi ch c s1 s' :
      cash_run es s → cash_collections s !! pi = None → co_received c ≤ max_int64 → co_charge c = Some ch →
      insert_collection s pi c = Ok s1 → bindStripeCashStateToCollection s1 ch pi (co_received c) (co_currency c) = Ok s' →
      cash_run es s'
  | run_rebind es s pi ch c s' :
      cash_run es s → cash_collections s !! pi = Some c → co_charge c = Some ch →
      bindStripeCashStateToCollection s ch pi (co_received c) (co_currency c) = Ok s' → cash_run es s'
  | run_reserve es s li id now entry task n cur snap leases r b s' :
      cash_run es s → reservePayoutFundingWithJobSnapshot collate li s id now entry task n cur snap leases = Ok (r, b, s') →
      cash_run es s'
  | run_warning es s x :
      cash_run es s →
      cash_run es (mkCashbook (webhook_events s) (charge_states s) (dispute_states s) (risk_bindings s ++ [x])
                     (cash_collections s) (fundings s) (funding_states s) (payout_ops s) (entry_status s))
  | run_payout es s ops st : cash_run es s → cash_run es (with_impairment s (funding_states s) ops st).

Lemma run_reachable es s : cash_run es s → rtc (cash_step collate) no_cash s.
Proof using.
  induction 1 as [|es s e r s' _ IH H|es s b k id charge now s' _ IH B H|es s pi ch c s1 s' _ IH N B _ I H|es s pi ch c s' _ IH _ _ H
    |es s li id now entry task n cur snap leases r b s' _ IH H|es s x _ IH|es s ops st _ IH]; [done|..]; (etrans; [exact IH|]).
  - apply rtc_once. by eapply cash_apply.
  - apply rtc_once. by eapply cash_collect.
  - eapply rtc_l; [by eapply cash_topup|]. apply rtc_once. by eapply cash_bind.
  - apply rtc_once. by eapply cash_bind.
  - apply rtc_once. by eapply cash_reserve.
  - apply rtc_once, cash_warning.
  - apply rtc_once, cash_payout.
Qed.

End Runs.

(** ** The evidence of a run *)

Section Converge.
Context (owner : string → string).

(** A charge has one payment intent: events that name one and collections agree on it.
    The identities have no surrounding space. *)
Record one_intent (es : list stripeCashEvent) (s : cashbook) : Prop := {
  oi_name ch : trim_space (owner ch) = owner ch ∧ owner ch ≠ "";
  oi_events e : e ∈ es → ev_PaymentIntent e = "" ∨ ev_PaymentIntent e = owner (ev_ChargeID e);
  oi_collections p c ch : cash_collections s !! p = Some c → co_charge c = Some ch → p = owner ch ∧ trim_space ch = ch
}.

Record evidence (es : list stripeCashEvent) (s : cashbook) : Prop := {
  ev_ids id w : webhook_events s !! id = Some w → ∃ e, e ∈ es ∧ EventID e = id;
  ev_refunds c : refunded_at s c = refund_level es c;
  ev_effects d : effect_at s d = effect_level es d;
  ev_charges c st : charge_states s !! c = Some st → bound_iff (charge_bound es s c) (owner c) (cs_intent st);
  ev_disputes d st : dispute_states s !! d = Some st →
    bound_iff (charge_bound es s (ds_charge st) ∨ dispute_named es d) (owner (ds_charge st)) (ds_intent st);
  ev_refund_seen e : e ∈ es → is_refund e = true → is_Some (charge_states s !! ev_ChargeID e);
  ev_dispute_seen e : e ∈ es → is_refund e = false →
    ∃ st, dispute_states s !! ObjectID e = Some st ∧ ds_amount st = AmountCents e ∧ ds_charge st = ev_ChargeID e;
  ev_dispute_said d st : dispute_states s !! d = Some st → ∃ e, e ∈ es ∧ is_refund e = false ∧ ObjectID e = d
}.

Lemma evidence_start : evidence [] no_cash.
Proof.
  split; try (intros *; simpl; by rewrite ?lookup_empty); try done; intros e I; by apply not_elem_of_nil in I.
Qed.

(** It reads four tables. *)
Lemma evidence_frame es s s' :
  webhook_events s' = webhook_events s → charge_states s' = charge_states s → dispute_states s' = dispute_states s →
  cash_collections s' = cash_collections s → evidence es s → evidence es s'.
Proof.
  intros E1 E2 E3 E4 [D1 D2 D3 D4 D5 D6 D7 D8].
  split; unfold charge_bound, collected, refunded_at, effect_at in *; rewrite ?E1, ?E2, ?E3, ?E4; done.
Qed.

(** *** A repeated event *)

Lemma charge_named_cons es e ch :
  charge_named (e :: es) ch ↔ (is_refund e = true ∧ ev_ChargeID e = ch ∧ ev_PaymentIntent e ≠ "") ∨ charge_named es ch.
Proof.
  unfold charge_named. split.
  - intros (e' & [->|I]%elem_of_cons & X); [by left|right; eauto].
  - intros [X|(e' & I & X)]; [exists e; split; [left|done]|exists e'; split; [by right|done]].
Qed.

Lemma dispute_named_cons es e d :
  dispute_named (e :: es) d ↔ (is_refund e = false ∧ ObjectID e = d ∧ ev_PaymentIntent e ≠ "") ∨ dispute_named es d.
Proof.
  unfold dispute_named. split.
  - intros (e' & [->|I]%elem_of_cons & X); [by left|right; eauto].
  - intros [X|(e' & I & X)]; [exists e; split; [left|done]|exists e'; split; [by right|done]].
Qed.

Lemma named_repeat es e ch : e ∈ es → charge_named (e :: es) ch ↔ charge_named es ch.
Proof. intros I. rewrite charge_named_cons. split; [|tauto]. intros [X|?]; [by exists e|done]. Qed.

Lemma dispute_named_repeat es e d : e ∈ es → dispute_named (e :: es) d ↔ dispute_named es d.
Proof. intros I. rewrite dispute_named_cons. split; [|tauto]. intros [X|?]; [by exists e|done]. Qed.

Lemma evidence_repeat es s e : evidence es s → e ∈ es → evidence (e :: es) s.
Proof.
  intros [D1 D2 D3 D4 D5 D6 D7 D8] I. split.
  - intros id w L. destruct (D1 id w L) as (e' & I' & E). exists e'. split; [by right|done].
  - intros c. rewrite D2, refund_level_cons. pose proof (refund_level_elem es c e I). lia.
  - intros d. rewrite D3, effect_level_cons. symmetry. by apply effect_level_elem.
  - intros c st L. eapply bound_iff_mono; [|by apply D4]. unfold charge_bound. by rewrite named_repeat.
  - intros d st L. eapply bound_iff_mono; [|by apply D5]. unfold charge_bound. by rewrite named_repeat, dispute_named_repeat.
  - intros e' [->|I']%elem_of_cons; by apply D6.
  - intros e' [->|I']%elem_of_cons; by apply D7.
  - intros d st L. destruct (D8 d st L) as (e' & I' & X). exists e'. split; [by right|done].
Qed.

(** *** Which collection an event is about *)

Lemma own_intent es s e : one_intent (e :: es) s → ev_PaymentIntent e ≠ "" → ev_PaymentIntent e = owner (ev_ChargeID e).
Proof. intros O N. by destruct (oi_events _ _ O e ltac:(left)). Qed.

Lemma resolve_refund es s e :
  evidence es s → one_intent (e :: es) s → is_refund e = true →
  bound_iff (charge_bound (e :: es) s (ev_ChargeID e)) (owner (ev_ChargeID e)) (resolve_intent s e).
Proof.
  intros D O R. pose proof (own_intent _ _ _ O) as P. unfold resolve_intent, nullif.
  case_bool_decide as Ep; [|left; split; [right; exists e; set_solver|by rewrite P]].
  destruct (find_row _ _) as [[p c]|] eqn:F.
  { apply find_row_Some in F as [L C]. reflect_bools. left. split; [left; by exists p, c|].
    by destruct (oi_collections _ _ O p c (ev_ChargeID e) L C) as [-> _]. }
  assert (¬ collected s (ev_ChargeID e)) as Nc.
  { intros (p & c & L & C). apply (proj1 (find_row_None _ _) F) in L. by rewrite bool_decide_true in L. }
  assert (charge_named (e :: es) (ev_ChargeID e) ↔ charge_named es (ev_ChargeID e)) as En by (rewrite charge_named_cons; tauto).
  unfold is_refund in R. rewrite R. destruct (charge_states s !! ev_ChargeID e) as [st|] eqn:L; simpl.
  - eapply (bound_iff_mono (charge_bound es s (ev_ChargeID e))); [unfold charge_bound; by rewrite En|].
    pose proof (ev_charges _ _ D _ _ L) as B. by destruct (cs_intent st).
  - right. split; [|done]. unfold charge_bound. rewrite En. intros [?|(e' & I & Re & Ec & _)]; [done|].
    destruct (ev_refund_seen _ _ D e' I Re) as [st Ls]. congruence.
Qed.

Lemma resolve_dispute es s e :
  evidence es s → one_intent (e :: es) s → is_refund e = false →
  (∀ st, dispute_states s !! ObjectID e = Some st → ds_charge st = ev_ChargeID e) →
  bound_iff (charge_bound es s (ev_ChargeID e) ∨ dispute_named (e :: es) (ObjectID e)) (owner (ev_ChargeID e)) (resolve_intent s e).
Proof.
  intros D O R Sc. pose proof (own_intent _ _ _ O) as P. unfold resolve_intent, nullif.
  case_bool_decide as Ep; [|left; split; [right; exists e; set_solver|by rewrite P]].
  destruct (find_row _ _) as [[p c]|] eqn:F.
  { apply find_row_Some in F as [L C]. reflect_bools. left. split; [left; left; by exists p, c|].
    by destruct (oi_collections _ _ O p c (ev_ChargeID e) L C) as [-> _]. }
  assert (¬ collected s (ev_ChargeID e)) as Nc.
  { intros (p & c & L & C). apply (proj1 (find_row_None _ _) F) in L. by rewrite bool_decide_true in L. }
  assert (dispute_named (e :: es) (ObjectID e) ↔ dispute_named es (ObjectID e)) as En by (rewrite dispute_named_cons; tauto).
  unfold is_refund in R. rewrite R.
  assert (charge_bound es s (ev_ChargeID e) ∨ ¬ charge_bound es s (ev_ChargeID e) ∧ charge_states s !! ev_ChargeID e ≫= cs_intent = None) as B.
  { destruct (charge_states s !! ev_ChargeID e) as [st|] eqn:L; simpl.
    - destruct (ev_charges _ _ D _ _ L) as [[? ?]|[? ?]]; [by left|by right].
    - right. split; [|done]. intros [?|(e' & I & Re & Ec & _)]; [done|]. destruct (ev_refund_seen _ _ D e' I Re) as [st Ls]. congruence. }
  destruct B as [B|[B ->]].
  - left. split; [by left|]. destruct B as [?|(e' & I & Re & Ec & Ne)]; [done|].
    destruct (ev_refund_seen _ _ D e' I Re) as [st Ls]. rewrite Ec in Ls. rewrite Ls. simpl.
    destruct (ev_charges _ _ D _ _ Ls) as [[_ ->]|[N _]]; [done|]. destruct N. right. by exists e'.
  - destruct (dispute_states s !! ObjectID e) as [st|] eqn:L; simpl.
    + pose proof (ev_disputes _ _ D _ _ L) as X. rewrite (Sc st eq_refl) in X. eapply bound_iff_mono; [|exact X]. by rewrite En.
    + right. split; [|done]. rewrite En. intros [?|(e' & I & Re & Ed & _)]; [done|].
      destruct (ev_dispute_seen _ _ D e' I Re) as (st & Ls & _). congruence.
Qed.

(** *** A refund *)

(** What a collection or a refund that is bound does to the evidence of a charge. *)
Lemma null_owner es s P ch o : one_intent es s → bound_iff P (owner ch) o → nullableStripeID (default "" o) = o.
Proof.
  intros O. destruct (oi_name _ _ O ch) as [T N]. unfold nullableStripeID, nullif.
  intros [[_ ->]|[_ ->]]; [|reflexivity]. simpl. by rewrite T, bool_decide_false.
Qed.

Lemma charge_refund_Ok s e pi a k s' :
  is_refund e = true → 0 < RefundedCents e → nullableStripeID (default "" (resolve_intent s e)) = resolve_intent s e →
  apply_evidence (with_event s e) e (default "" (resolve_intent s e)) = Ok (pi, a, k, s') →
  ∃ c, s' = (if bool_decide (default "" (cs_intent c) = "") then with_charge_states (with_event s e) (<[ev_ChargeID e := c]> (charge_states s))
             else bind_disputes (with_charge_states (with_event s e) (<[ev_ChargeID e := c]> (charge_states s))) (ev_ChargeID e) (default "" (cs_intent c))) ∧
    cs_refunded c = Z.max (RefundedCents e) (refunded_at s (ev_ChargeID e)) ∧
    cs_intent c = from_option (λ st, coalesce (cs_intent st) (resolve_intent s e)) (resolve_intent s e) (charge_states s !! ev_ChargeID e).
Proof.
  intros R V Np H. unfold is_refund in R. unfold apply_evidence in H. rewrite R in H.
  apply bind_Ok in H as ([q s1] & A & H). injection H as <- <- <- <-. unfold applyStripeChargeRefundState in A. rewrite Np in A.
  apply bind_Ok in A as (c & C & A). injection A as <- <-. exists c. split; [done|]. unfold refunded_at.
  change (charge_states (with_event s e)) with (charge_states s) in C. destruct (charge_states s !! ev_ChargeID e) as [st|] eqn:L; simpl.
  - apply refuse_Ok in C as [G C]. injection C as <-. simpl. split; [lia|done].
  - injection C as <-. simpl. split; [lia|done].
Qed.

Lemma charge_bound_other es s e c : ev_ChargeID e ≠ c ∨ is_refund e = false → charge_bound (e :: es) s c ↔ charge_bound es s c.
Proof. intros H. unfold charge_bound. rewrite charge_named_cons. destruct H as [H|H]; rewrite ?H; naive_solver. Qed.

Lemma dispute_named_other es e d : ObjectID e ≠ d ∨ is_refund e = true → dispute_named (e :: es) d ↔ dispute_named es d.
Proof. intros H. rewrite dispute_named_cons. destruct H as [H|H]; rewrite ?H; naive_solver. Qed.

Lemma charge_bound_coll es s s' c : cash_collections s' = cash_collections s → charge_bound es s' c ↔ charge_bound es s c.
Proof. intros E. unfold charge_bound, collected. by rewrite E. Qed.

(** What a refund does to the disputes of its charge: they are bound with it. *)
Definition dispute_facts (st : dispute_state) : string * Z * Z * Z :=
  (ds_charge st, ds_amount st, ds_effect_created st, ds_effect_rank st).

Lemma refund_disputes es s e c (ch := ev_ChargeID e)
    (s1 := with_charge_states (with_event s e) (<[ch := c]> (charge_states s))) :
  evidence es s → one_intent (e :: es) s → is_refund e = true →
  bound_iff (charge_bound (e :: es) s ch) (owner ch) (cs_intent c) →
  ∃ m, dispute_states (if bool_decide (default "" (cs_intent c) = "") then s1 else bind_disputes s1 ch (default "" (cs_intent c))) = m ∧
    (∀ d, dispute_facts <$> m !! d = dispute_facts <$> dispute_states s !! d) ∧
    ∀ d st, m !! d = Some st →
      bound_iff (charge_bound (e :: es) s (ds_charge st) ∨ dispute_named (e :: es) d) (owner (ds_charge st)) (ds_intent st).
Proof.
  intros D O R Bc. case_bool_decide as Q.
  - exists (dispute_states s). split; [done|]. split; [done|]. intros d st L. rewrite dispute_named_other by by right.
    pose proof (ev_disputes _ _ D _ _ L) as X. destruct (decide (ch = ds_charge st)) as [E|N]; [|by rewrite charge_bound_other by by left].
    assert (¬ charge_bound (e :: es) s ch) as Nb by (destruct Bc as [[? Ec]|[? ?]]; [|done]; rewrite Ec in Q; by destruct (oi_name _ _ O ch)).
    eapply bound_iff_mono; [|exact X]. rewrite <-E. unfold charge_bound in *. rewrite charge_named_cons in *. tauto.
  - exists (bind_dispute ch (owner ch) <$> dispute_states s).
    assert (charge_bound (e :: es) s ch ∧ default "" (cs_intent c) = owner ch) as [Hb ->] by (destruct Bc as [[? ->]|[? Ec]]; [done|by rewrite Ec in Q]).
    split; [done|]. split.
    + intros d. rewrite lookup_fmap. destruct (dispute_states s !! d) as [st|]; [|done]. simpl. unfold dispute_facts.
      by destruct (bind_dispute_keeps ch (owner ch) st) as (-> & _ & -> & -> & ->).
    + intros d st. rewrite lookup_fmap. intros (st0 & L & ->)%fmap_Some. destruct (bind_dispute_keeps ch (owner ch) st0) as (_ & _ & _ & _ & ->).
      pose proof (ev_disputes _ _ D _ _ L) as X. unfold bind_dispute. case_bool_decide as Ec.
      * simpl. rewrite Ec in *. eapply bound_iff_fill; [by left|exact X].
      * rewrite dispute_named_other by by right. by rewrite charge_bound_other by (left; by apply not_eq_sym).
Qed.

Lemma evidence_refund es s e pi a k s' :
  evidence es s → one_intent (e :: es) s → validateStripeCashEvent e = Ok tt → is_refund e = true →
  apply_evidence (with_event s e) e (default "" (resolve_intent s e)) = Ok (pi, a, k, s') → evidence (e :: es) s'.
Proof.
  intros D O V R H. set (ch := ev_ChargeID e). pose proof (resolve_refund es s e D O R) as B.
  assert (0 < RefundedCents e) as Rp.
  { apply validate_event in V as (_ & _ & V & _). unfold is_refund in R. reflect_bools. by apply V. }
  apply charge_refund_Ok in H as (c & -> & Er & Ei); [|done..|by eapply null_owner].
  fold ch in Er, Ei, B.
  assert (bound_iff (charge_bound (e :: es) s ch) (owner ch) (cs_intent c)) as Bc.
  { rewrite Ei. destruct (charge_states s !! ch) as [st|] eqn:L; simpl; [|done].
    eapply bound_iff_coalesce; [|exact (ev_charges _ _ D _ _ L)|exact B]. unfold charge_bound. rewrite charge_named_cons. tauto. }
  set (s1 := with_charge_states _ _).
  destruct (refund_disputes es s e c D O R Bc) as (m & Em & Keep & Bd). fold ch s1 in Em.
  set (s2 := if bool_decide _ then _ else _) in *.
  assert (webhook_events s2 = <[EventID e := webhook_row e]> (webhook_events s)) as Ew by (unfold s2; by case_bool_decide).
  assert (charge_states s2 = <[ch := c]> (charge_states s)) as Ecs by (unfold s2; by case_bool_decide).
  assert (cash_collections s2 = cash_collections s) as Eco by (unfold s2; by case_bool_decide). clearbody s2.
  destruct D as [D1 D2 D3 D4 D5 D6 D7 D8]. split.
  - intros id w. rewrite Ew, lookup_insert_Some. intros [[<- <-]|[_ L]]; [exists e; split; [left|done]|].
    destruct (D1 id w L) as (e' & I & E). exists e'. split; [by right|done].
  - intros x. rewrite refund_level_cons, <-D2. unfold refund_says. rewrite R. simpl. unfold refunded_at at 1. rewrite Ecs. fold ch.
    destruct (decide (ch = x)) as [<-|Df].
    + rewrite lookup_insert_eq, bool_decide_true by done. simpl. lia.
    + rewrite lookup_insert_ne, bool_decide_false by done. fold (refunded_at s x). rewrite D2. pose proof (refund_level_nonneg es x). lia.
  - intros d. assert (effect_at s2 d = effect_at s d) as ->.
    { unfold effect_at. rewrite Em. specialize (Keep d). unfold dispute_facts in Keep. destruct (m !! d), (dispute_states s !! d); simpl in *; congruence. }
    rewrite effect_level_cons, D3. unfold effect_says. rewrite R. simpl. symmetry. apply effect_level_floor.
  - intros x st. rewrite Ecs, lookup_insert_Some. rewrite charge_bound_coll by done.
    intros [[<- <-]|[N L]]; [done|]. eapply bound_iff_mono; [|by apply D4]. symmetry. apply charge_bound_other. by left.
  - intros d st. rewrite Em, charge_bound_coll by done. apply Bd.
  - intros e' [->|I]%elem_of_cons Re; rewrite Ecs; [fold ch; rewrite lookup_insert_eq; by eexists|].
    destruct (decide (ch = ev_ChargeID e')) as [<-|N]; [rewrite lookup_insert_eq; by eexists|]. rewrite lookup_insert_ne by done. by apply D6.
  - intros e' [->|I]%elem_of_cons Re; [congruence|]. destruct (D7 e' I Re) as (st & L & A & C). rewrite Em. specialize (Keep (ObjectID e')).
    rewrite L in Keep. destruct (m !! ObjectID e') as [st'|]; [|done]. simpl in Keep. unfold dispute_facts in Keep. exists st'. split; [done|]. split; congruence.
  - intros d st. rewrite Em. intros L. specialize (Keep d). rewrite L in Keep. destruct (dispute_states s !! d) as [st0|] eqn:L0; [|done].
    destruct (D8 d st0 L0) as (e' & I & X). exists e'. split; [by right|done].
Qed.

(** The later effect wins. *)
Lemma merged_effect st ex : effect_ok st → effect_ok ex →
  (ds_effect_created (merge_dispute st ex), ds_effect_rank (merge_dispute st ex)) =
  effect_max (ds_effect_created ex, ds_effect_rank ex) (ds_effect_created st, ds_effect_rank st).
Proof.
  intros (E1 & _ & E2) (Eo1 & _ & Eo2). rewrite effect_max_comm. unfold effect_max, merge_dispute. simpl.
  destruct (effect_le _ _ _ _) eqn:El; [|done]. simpl. destruct (Z.ltb_spec 0 (ds_effect_rank ex)); [done|].
  apply effect_le_spec in El. apply effect_eq; simpl; lia.
Qed.

(** *** A dispute *)

Lemma dispute_Ok s e pi a k s' :
  cash_ok s → validateStripeCashEvent e = Ok tt → is_refund e = false →
  nullableStripeID (default "" (resolve_intent s e)) = resolve_intent s e →
  apply_evidence (with_event s e) e (default "" (resolve_intent s e)) = Ok (pi, a, k, s') →
  ∃ d, s' = with_dispute_states (with_event s e) (<[ObjectID e := d]> (dispute_states s)) ∧
    ds_charge d = ev_ChargeID e ∧ ds_amount d = AmountCents e ∧
    (ds_effect_created d, ds_effect_rank d) = effect_max (effect_says (ObjectID e) e) (effect_at s (ObjectID e)) ∧
    ds_intent d = from_option (λ st, coalesce (ds_intent st) (resolve_intent s e)) (resolve_intent s e) (dispute_states s !! ObjectID e) ∧
    ∀ st, dispute_states s !! ObjectID e = Some st → ds_charge st = ev_ChargeID e ∧ ds_amount st = AmountCents e.
Proof.
  intros Oc V R Np H. pose proof R as R'. unfold is_refund in R'. reflect_bools. pose proof (validate_event e V) as (Vc & _).
  unfold apply_evidence in H. rewrite (bool_decide_false (EventType e = stripeEventChargeRefunded)) in H by done.
  apply bind_Ok in H as ([[[q c1] r1] s1] & A & H). injection H as <- <- <- <-.
  unfold applyStripeDisputeState in A. rewrite Np in A. cbv zeta in A. fold (event_effect e (resolve_intent s e)) in A.
  set (ex := event_effect _ _) in A.
  assert ((ds_effect_created ex, ds_effect_rank ex) = effect_says (ObjectID e) e) as Ex.
  { unfold ex, event_effect, effect_says. simpl. rewrite R, (bool_decide_true (ObjectID e = ObjectID e)) by done. simpl.
    by destruct (decide (DisputeEffect e = stripeDisputeCashNoEffect)) as [Q|Q]; [rewrite !(bool_decide_true _ Q)|rewrite !(bool_decide_false _ Q)]. }
  assert (effect_ok ex ∧ ds_intent ex = resolve_intent s e ∧ ds_amount ex = AmountCents e ∧ ds_charge ex = ev_ChargeID e)
    as (Eo & Xi & Xa & Xc) by (split_and!; [by apply event_effect_ok|done..]).
  clearbody ex. apply bind_Ok in A as (d & C & A). injection A as <- <- <- <-. exists d. split; [done|].
  change (dispute_states (with_event s e)) with (dispute_states s) in C. unfold effect_at.
  destruct (dispute_states s !! ObjectID e) as [st|] eqn:L; simpl.
  - apply refuse_Ok in C as [G C]. reflect_bools. injection C as <-. cbn [merge_dispute ds_charge ds_amount ds_intent].
    split; [done|]. split; [done|]. split; [|split; [by rewrite Xi|by intros st' [= <-]]].
    by rewrite <-Ex, merged_effect by (done || by apply (ok_dispute s Oc _ _ L)).
  - injection C as <-. split_and!; [done..| |done|done]. rewrite Ex, effect_max_comm. symmetry.
    unfold effect_says. destruct (_ && _); [|done]. unfold effect_max. by rewrite (proj2 (effect_le_spec _ _ _ _)) by (simpl; lia).
Qed.

Lemma dispute_charge s e p pi a k s' st :
  is_refund e = false → dispute_states s !! ObjectID e = Some st → apply_evidence (with_event s e) e p = Ok (pi, a, k, s') →
  ds_charge st = ev_ChargeID e.
Proof.
  intros R L H. unfold is_refund in R. unfold apply_evidence in H. rewrite R in H. apply bind_Ok in H as ([[[q c1] r1] s1] & A & _).
  unfold applyStripeDisputeState in A. apply bind_Ok in A as (d & C & _).
  change (dispute_states (with_event s e)) with (dispute_states s) in C. rewrite L in C. apply refuse_Ok in C as [G _]. by reflect_bools.
Qed.

Lemma evidence_dispute es s e pi a k s' :
  cash_ok s → evidence es s → one_intent (e :: es) s → validateStripeCashEvent e = Ok tt → is_refund e = false →
  (∀ st, dispute_states s !! ObjectID e = Some st → ds_charge st = ev_ChargeID e) →
  apply_evidence (with_event s e) e (default "" (resolve_intent s e)) = Ok (pi, a, k, s') → evidence (e :: es) s'.
Proof.
  intros Oc D O V R Sc H. pose proof (resolve_dispute es s e D O R Sc) as B.
  apply dispute_Ok in H as (d & -> & Ec & Ea & Ef & Ei & St); [|done..|by eapply null_owner].
  assert (bound_iff (charge_bound es s (ev_ChargeID e) ∨ dispute_named (e :: es) (ObjectID e)) (owner (ev_ChargeID e)) (ds_intent d)) as Bd.
  { rewrite Ei. destruct (dispute_states s !! ObjectID e) as [st|] eqn:L; simpl; [|done].
    pose proof (ev_disputes _ _ D _ _ L) as X. destruct (St st eq_refl) as [Es _]. rewrite Es in X.
    eapply bound_iff_coalesce; [|exact X|exact B]. rewrite dispute_named_cons. tauto. }
  destruct D as [D1 D2 D3 D4 D5 D6 D7 D8]. split.
  - intros id w. simpl. rewrite lookup_insert_Some. intros [[<- <-]|[_ L]]; [exists e; split; [left|done]|].
    destruct (D1 id w L) as (e' & I & E). exists e'. split; [by right|done].
  - intros ch. change (refunded_at s ch = refund_level (e :: es) ch). rewrite refund_level_cons, D2. unfold refund_says.
    rewrite R. simpl. pose proof (refund_level_nonneg es ch). lia.
  - intros i. rewrite effect_level_cons, <-D3. unfold effect_at at 1. simpl. destruct (decide (ObjectID e = i)) as [<-|Df].
    + rewrite lookup_insert_eq. simpl. exact Ef.
    + rewrite lookup_insert_ne by done. fold (effect_at s i). unfold effect_says.
      rewrite (bool_decide_false (ObjectID e = i)), andb_false_r, D3 by done. simpl. symmetry. apply effect_level_floor.
  - intros c st L. rewrite charge_bound_other by by right. by apply D4.
  - intros i st. simpl. rewrite lookup_insert_Some. rewrite charge_bound_other by by right.
    intros [[<- <-]|[N L]]; [by rewrite Ec|]. rewrite dispute_named_other by by left. by apply D5.
  - simpl. intros e' [->|I]%elem_of_cons Re; [congruence|by apply D6].
  - simpl. intros e' [->|I]%elem_of_cons Re; [exists d; by rewrite lookup_insert_eq|]. destruct (D7 e' I Re) as (st & L & A & C).
    destruct (decide (ObjectID e = ObjectID e')) as [Eq|Df]; [|rewrite lookup_insert_ne by done; eauto].
    rewrite <-Eq in *. rewrite lookup_insert_eq. exists d. destruct (St st L). split; [done|]. split; congruence.
  - intros i st. simpl. rewrite lookup_insert_Some. intros [[<- <-]|[_ L]]; [exists e; split; [left|done]|].
    destruct (D8 i st L) as (e' & I & X). exists e'. split; [by right|done].
Qed.

Lemma evidence_event es s e r s' :
  cash_ok s → evidence es s → one_intent (e :: es) s → (∀ e', e' ∈ es → EventID e' = EventID e → e' = e) →
  ApplyPaymentEventTx s e = Ok (r, s') → evidence (e :: es) s'.
Proof.
  intros Oc D O Id [V [(w & L & _ & -> & _)|(_ & pi & a & k & s2 & E & H)]]%apply_Ok.
  - destruct (ev_ids _ _ D _ _ L) as (e' & I & Ei). rewrite <-(Id e' I Ei). by apply evidence_repeat.
  - assert (evidence (e :: es) s2) as D2.
    { destruct (is_refund e) eqn:R; [by eapply evidence_refund|]. eapply evidence_dispute; [done..| |exact E].
      intros st L. eapply dispute_charge; [exact R|exact L|exact E]. }
    destruct (_ ≫= _) as [c|]; [|by destruct H as [-> _]]. destruct H as (_ & u & n & m & Rc & _).
    apply recompute_frame in Rc as (E0 & E1 & E2 & E3 & _). by apply (evidence_frame _ s2).
Qed.

(** *** A collection *)

Lemma evidence_bind es s s1 ch :
  evidence es s → webhook_events s1 = webhook_events s → charge_states s1 = charge_states s → dispute_states s1 = dispute_states s →
  (∀ c, collected s1 c ↔ collected s c ∨ c = ch) → evidence es (bind_states s1 ch (owner ch)).
Proof.
  intros [D1 D2 D3 D4 D5 D6 D7 D8] E1 E2 E3 Co.
  assert (∀ c, charge_bound es (bind_states s1 ch (owner ch)) c ↔ charge_bound es s c ∨ c = ch) as Cb.
  { intros c. unfold charge_bound. change (collected (bind_states s1 ch (owner ch)) c) with (collected s1 c). rewrite Co. tauto. }
  assert (∀ c, charge_states (bind_states s1 ch (owner ch)) !! c = (if decide (c = ch) then bind_charge (owner ch) else id) <$> charge_states s !! c) as Lc.
  { intros c. simpl. rewrite E2. case_decide as Ec; [subst; by rewrite lookup_alter_eq|]. rewrite lookup_alter_ne by done. by destruct (_ !! _). }
  assert (∀ d, dispute_states (bind_states s1 ch (owner ch)) !! d = bind_dispute ch (owner ch) <$> dispute_states s !! d) as Ld.
  { intros d. simpl. by rewrite E3, lookup_fmap. }
  split.
  - intros i w L. apply (D1 i w). by rewrite <-E1.
  - intros c. rewrite <-D2. unfold refunded_at. rewrite Lc. destruct (charge_states s !! c); [|done]. by case_decide.
  - intros d. rewrite <-D3. unfold effect_at. rewrite Ld. destruct (dispute_states s !! d) as [st|]; [|done]. simpl.
    by destruct (bind_dispute_keeps ch (owner ch) st) as (_ & _ & -> & -> & _).
  - intros c st. rewrite Lc, Cb. intros (st0 & L & ->)%fmap_Some. pose proof (D4 _ _ L) as X.
    case_decide as Ec; [subst; simpl; eapply bound_iff_fill; [by right|exact X]|]. eapply bound_iff_mono; [|exact X]. tauto.
  - intros d st. rewrite Ld, Cb. intros (st0 & L & ->)%fmap_Some. pose proof (D5 _ _ L) as X.
    destruct (bind_dispute_keeps ch (owner ch) st0) as (_ & _ & _ & _ & ->). unfold bind_dispute. case_bool_decide as Ec.
    + simpl. rewrite Ec in *. eapply bound_iff_fill; [by left; right|exact X].
    + eapply bound_iff_mono; [|exact X]. tauto.
  - intros e I R. rewrite Lc. destruct (D6 e I R) as [st ->]. by eexists.
  - intros e I R. destruct (D7 e I R) as (st & L & A & C). rewrite Ld, L. eexists. split; [done|].
    by destruct (bind_dispute_keeps ch (owner ch) st) as (-> & _ & _ & _ & ->).
  - intros d st. rewrite Ld. intros (st0 & L & _)%fmap_Some. by apply (D8 d st0).
Qed.

Lemma collected_insert s p c ch :
  cash_collections s !! p = None → co_charge c = Some ch →
  ∀ x, collected (with_collections s (<[p := c]> (cash_collections s))) x ↔ collected s x ∨ x = ch.
Proof.
  intros N C x. unfold collected. simpl. split.
  - intros (q & c' & L & Ec). apply lookup_insert_Some in L as [[<- <-]|[_ L]]; [right; congruence|left; eauto].
  - intros [(q & c' & L & Ec)| ->]; [exists q, c'; rewrite lookup_insert_ne by congruence; done|].
    exists p, c. by rewrite lookup_insert_eq.
Qed.

(** Recording a collection inserts it or finds it, and binds the evidence of its charge. *)
Lemma collect_cases s b k id charge now s' :
  recordBuyerCashCollection s b k id charge now = Ok s' →
  ∃ s1 c, s' = bind_states s1 (cr_ChargeID charge) (PaymentIntentID charge) ∧ co_charge c = Some (cr_ChargeID charge) ∧
    cash_collections s1 !! PaymentIntentID charge = Some c ∧
    (s1 = s ∨ cash_collections s !! PaymentIntentID charge = None ∧
              s1 = with_collections s (<[PaymentIntentID charge := c]> (cash_collections s))).
Proof.
  unfold recordBuyerCashCollection. intros H. apply refuse_Ok in H as [_ H]. cbv zeta in H. apply bind_Ok in H as (s1 & C & H).
  apply refuse_Ok in H as [_ H]. injection H as <-. destruct (cash_collections s !! PaymentIntentID charge) as [c|] eqn:L.
  - apply refuse_Ok in C as [_ C]. apply refuse_Ok in C as [Sm C]. injection C as <-. exists s, c. unfold same_collection in Sm.
    simpl in Sm. reflect_bools. split_and!; [done..|by left].
  - apply insert_collection_Ok in C as [-> _]. eexists _, _. split; [done|]. split; [|split; [apply lookup_insert_eq|by right]]. done.
Qed.

Lemma bind_collection_Ok s ch pi n cur s' :
  bindStripeCashStateToCollection s ch pi n cur = Ok s' → s' = bind_states s (trim_space ch) (trim_space pi).
Proof.
  unfold bindStripeCashStateToCollection. intros H. apply refuse_Ok in H as [_ H]. apply refuse_Ok in H as [_ H]. by simplify_eq.
Qed.

Lemma one_intent_shrink es es' s s' :
  (∀ e, e ∈ es → e ∈ es') → cash_collections s ⊆ cash_collections s' → one_intent es' s' → one_intent es s.
Proof.
  intros Se Sc [N E C]. split; [done|intros e I; by apply E, Se|]. intros p c ch L. apply C. by eapply lookup_weaken.
Qed.

Lemma evidence_bound es s s1 p c ch :
  evidence es s → one_intent es s1 → cash_collections s1 !! p = Some c → co_charge c = Some ch →
  (s1 = s ∨ cash_collections s !! p = None ∧ s1 = with_collections s (<[p := c]> (cash_collections s))) →
  evidence es (bind_states s1 (trim_space ch) (trim_space p)).
Proof.
  intros D O L C E. destruct (oi_collections _ _ O p c ch L C) as [-> ->]. destruct (oi_name _ _ O ch) as [-> _].
  destruct E as [->|[N ->]]; [|by eapply evidence_bind; [exact D|done..|by apply collected_insert]].
  eapply evidence_bind; [exact D|done..|]. intros x. split; [by left|]. intros [?| ->]; [done|]. by exists (owner ch), c.
Qed.

Lemma apply_collections s e r s' : ApplyPaymentEventTx s e = Ok (r, s') → cash_collections s' = cash_collections s.
Proof.
  intros [_ [(w & _ & _ & -> & _)|(_ & pi & a & k & s2 & E & H)]]%apply_Ok; [done|].
  assert (cash_collections s2 = cash_collections s) as <-.
  { unfold apply_evidence in E. case_bool_decide.
    - apply bind_Ok in E as ([q s3] & A & E). unfold applyStripeChargeRefundState in A. apply bind_Ok in A as (c & _ & A).
      simplify_eq. by case_bool_decide.
    - apply bind_Ok in E as ([[[q c1] r1] s3] & A & E). unfold applyStripeDisputeState in A. apply bind_Ok in A as (c & _ & A). by simplify_eq. }
  destruct (_ ≫= _); [|by destruct H as [-> _]]. destruct H as (_ & u & n & m & R & _). by apply recompute_frame in R as (_ & _ & _ & -> & _).
Qed.

Lemma run_evidence collate es s :
  cash_run collate es s → one_intent es s → (∀ e e', e ∈ es → e' ∈ es → EventID e = EventID e' → e = e') → evidence es s.
Proof.
  intros Rn. induction Rn as [|es s e r s' Rn IH H|es s b k id charge now s' Rn IH B H|es s pi ch c s1 s' Rn IH N B C I H|es s pi ch c s' Rn IH L C H
    |es s li id now entry task n cur snap leases r b s' Rn IH H|es s x Rn IH|es s ops st Rn IH]; intros O Id.
  - exact evidence_start.
  - pose proof (cash_reachable_ok _ _ (run_reachable _ _ _ Rn)) as Oc.
    assert (cash_collections s' = cash_collections s) as Ec by (by eapply apply_collections).
    assert (one_intent (e :: es) s) as O1 by (eapply one_intent_shrink; [done| |exact O]; by rewrite Ec).
    eapply evidence_event; [done| |exact O1| |exact H].
    + apply IH; [|intros; apply Id; [by right..|done]]. eapply one_intent_shrink; [|done|exact O1]. intros; by right.
    + intros e' I' E'. apply Id; [by right|left|done].
  - apply collect_cases in H as (s1 & c & -> & C & L & E).
    assert (cash_collections s ⊆ cash_collections s1) as Sub by (destruct E as [->|[N ->]]; [done|by apply insert_subseteq]).
    assert (one_intent es s1) as O1 by (by eapply one_intent_shrink; [| |exact O]).
    assert (evidence es s) as D by (apply IH; [by eapply one_intent_shrink; [|exact Sub|exact O1]|done]).
    pose proof (evidence_bound _ _ _ _ _ _ D O1 L C E) as X. destruct (oi_collections _ _ O1 _ _ _ L C) as [Ep Ech].
    rewrite Ech in X. destruct (oi_name _ _ O1 (cr_ChargeID charge)) as [Et _]. by rewrite Ep, Et, <-Ep in X.
  - apply insert_collection_Ok in I as [-> _]. apply bind_collection_Ok in H as ->.
    set (s1 := with_collections _ _) in *. assert (one_intent es s1) as O1 by (by eapply one_intent_shrink; [| |exact O]).
    eapply evidence_bound; [|exact O1|apply lookup_insert_eq|exact C|by right]. apply IH; [|done].
    eapply one_intent_shrink; [done| |exact O1]. by apply insert_subseteq.
  - apply bind_collection_Ok in H as ->. assert (one_intent es s) as O1 by (by eapply one_intent_shrink; [| |exact O]).
    eapply evidence_bound; [by apply IH|exact O1|exact L|exact C|by left].
  - pose proof (cash_reachable_ok _ _ (run_reachable _ _ _ Rn)) as Oc.
    apply reserve_Ok in H as [->|(i & f & p & c & u & -> & _)]; [by apply IH| |done].
    apply (evidence_frame es s); [done..|]. apply IH; [|done]. by eapply one_intent_shrink; [| |exact O].
  - apply (evidence_frame es s); [done..|]. apply IH; [|done]. by eapply one_intent_shrink; [| |exact O].
  - apply (evidence_frame es s); [done..|]. apply IH; [|done]. by eapply one_intent_shrink; [| |exact O].
Qed.

(** Tables with the evidence of the same events and the same collected charges agree on
    the cash that is gone. *)
Lemma evidence_agree es es' s s' :
  cash_ok s → cash_ok s' → evidence es s → evidence es' s' → (∀ e, e ∈ es ↔ e ∈ es') → (∀ ch, collected s ch ↔ collected s' ch) →
  ∀ p n, unavailable_cents s p n = unavailable_cents s' p n.
Proof.
  intros Oc Oc' D D' E C p n.
  assert (∀ ch, charge_bound es s ch ↔ charge_bound es' s' ch) as Cb.
  { intros ch. unfold charge_bound, charge_named. rewrite C. setoid_rewrite E. done. }
  assert (∀ d, dispute_named es d ↔ dispute_named es' d) as Db by (intros d; unfold dispute_named; by setoid_rewrite E).
  unfold unavailable_cents. assert (refunded_sum s p = refunded_sum s' p) as ->.
  { apply sum_over_lookup. intros c. pose proof (ev_refunds _ _ D c) as R. rewrite (refund_level_set es es'), <-(ev_refunds _ _ D') in R by done.
    unfold refunded_at in R. destruct (charge_states s !! c) as [x|] eqn:L1, (charge_states s' !! c) as [y|] eqn:L2; simpl in *; [|exfalso..|done].
    - by rewrite (bound_iff_eq _ _ _ _ _ (Cb c) (ev_charges _ _ D _ _ L1) (ev_charges _ _ D' _ _ L2)), R.
    - pose proof (ok_charge _ Oc c x L1). lia.
    - pose proof (ok_charge _ Oc' c y L2). lia. }
  assert (disputed_sum s p = disputed_sum s' p) as ->; [|done].
  apply sum_over_lookup. intros d. pose proof (ev_effects _ _ D d) as F. rewrite (effect_level_set es es'), <-(ev_effects _ _ D') in F by done.
  unfold effect_at in F. destruct (dispute_states s !! d) as [x|] eqn:L1.
  - destruct (ev_dispute_said _ _ D d x L1) as (e & I & Re & Ed). destruct (ev_dispute_seen _ _ D e I Re) as (x' & Lx & Ax & Cx).
    apply E in I. destruct (ev_dispute_seen _ _ D' e I Re) as (y & L2 & Ay & Cy). rewrite Ed in *. rewrite L2 in *. assert (x' = x) as -> by congruence.
    simpl in *. assert (ds_charge x = ds_charge y) as Ec by congruence.
    pose proof (ev_disputes _ _ D _ _ L1) as B1. pose proof (ev_disputes _ _ D' _ _ L2) as B2. rewrite Ec in B1.
    assert (charge_bound es s (ds_charge y) ∨ dispute_named es d ↔ charge_bound es' s' (ds_charge y) ∨ dispute_named es' d) as Q by (by rewrite Cb, Db).
    rewrite (bound_iff_eq _ _ _ _ _ Q B1 B2).
    destruct (ok_dispute _ Oc d x L1) as (_ & _ & -> & _). destruct (ok_dispute _ Oc' d y L2) as (_ & _ & -> & _).
    injection F as _ ->. by rewrite Ax, Ay.
  - destruct (dispute_states s' !! d) as [y|] eqn:L2; [|done]. destruct (ev_dispute_said _ _ D' d y L2) as (e & I & Re & Ed).
    apply E in I. destruct (ev_dispute_seen _ _ D e I Re) as (x & Lx & _). congruence.
Qed.

End Converge.

(** C23: the evidence does not depend on how it arrived.  Take two runs of the tables from
    empty, with events, collections, top-ups, reservations and payouts interleaved in any
    way, evidence before or after the collection it is about, and any event delivered any
    number of times.  When the same events were accepted in both (as a set) and the same
    charges are collected, then every charge has the same refunded amount, every dispute
    the same cash effect, and every collection the same unavailable cash.  The refunded
    amount is the largest one reported, and the effect is the one Stripe created last.
    Of Stripe this uses that a charge belongs to one payment intent ([one_intent]) and
    that two events with the same identity are the same event. *)
Theorem evidence_converges collate owner es es' s s' :
  cash_run collate es s → cash_run collate es' s' → one_intent owner es s → one_intent owner es' s' →
  (∀ e, e ∈ es ↔ e ∈ es') → (∀ ch, collected s ch ↔ collected s' ch) →
  (∀ e e', e ∈ es → e' ∈ es → EventID e = EventID e' → e = e') →
  (∀ c, refunded_at s c = refund_level es c ∧ refunded_at s' c = refund_level es c) ∧
  (∀ d, effect_at s d = effect_level es d ∧ effect_at s' d = effect_level es d) ∧
  (∀ p n, unavailable_cents s p n = unavailable_cents s' p n).
Proof.
  intros R R' O O' E C Id.
  assert (∀ e e', e ∈ es' → e' ∈ es' → EventID e = EventID e' → e = e') as Id' by (intros e e' I I'; apply Id; by apply E).
  pose proof (run_evidence owner _ _ _ R O Id) as D. pose proof (run_evidence owner _ _ _ R' O' Id') as D'. split_and!.
  - intros c. rewrite (ev_refunds _ _ _ D), (ev_refunds _ _ _ D'). split; [done|]. symmetry. by apply refund_level_set.
  - intros d. rewrite (ev_effects _ _ _ D), (ev_effects _ _ _ D'). split; [done|]. symmetry. by apply effect_level_set.
  - eapply evidence_agree; [by eapply cash_reachable_ok, run_reachable..|exact D|exact D'|done|done].
Qed.

(** ** Example *)

(** A refund and a dispute come before the collection of their charge is recorded, and
    one event is repeated; or the collection comes first and the events the other way
    around. *)
Definition deliver (s : cashbook) (e : stripeCashEvent) : cashbook :=
  (ok_or (mkCashResult false false 0 false 0 0 0, no_cash) (ApplyPaymentEventTx s e)).2.
Definition collect_it (s : cashbook) : cashbook := ok_or no_cash (recordBuyerCashCollection s 7%N "job" 31%N ex_charge 5).

Definition late_book : cashbook :=
  deliver (deliver (collect_it (deliver (deliver no_cash (ex_refund "evt_1" 10 300)) ex_reinstated)) ex_withdrawn) (ex_refund "evt_2" 40 500).
Definition early_book : cashbook :=
  deliver (deliver (deliver (deliver (deliver (collect_it no_cash) (ex_refund "evt_2" 40 500)) ex_withdrawn) ex_withdrawn) ex_reinstated) (ex_refund "evt_1" 10 300).

Definition late_events : list stripeCashEvent := [ex_refund "evt_2" 40 500; ex_withdrawn; ex_reinstated; ex_refund "evt_1" 10 300].
Definition early_events : list stripeCashEvent := [ex_refund "evt_1" 10 300; ex_reinstated; ex_withdrawn; ex_withdrawn; ex_refund "evt_2" 40 500].

Lemma deliver_run es s e : is_ok (ApplyPaymentEventTx s e) = true → cash_run ex_collate es s → cash_run ex_collate (e :: es) (deliver s e).
Proof.
  unfold deliver. intros K R. destruct (ApplyPaymentEventTx s e) as [[r s']|] eqn:E; [|done]. by eapply run_event.
Qed.

Lemma collect_run es s :
  is_ok (recordBuyerCashCollection s 7%N "job" 31%N ex_charge 5) = true → cash_run ex_collate es s → cash_run ex_collate es (collect_it s).
Proof.
  unfold collect_it. intros K R. destruct (recordBuyerCashCollection _ _ _ _ _ _) as [s'|] eqn:E; [|done]. eapply run_collect; [done| |exact E]. done.
Qed.

Lemma late_run : cash_run ex_collate late_events late_book.
Proof.
  do 2 (apply deliver_run; [vm_compute; reflexivity|]). apply collect_run; [vm_compute; reflexivity|].
  do 2 (apply deliver_run; [vm_compute; reflexivity|]). apply run_start.
Qed.

Lemma early_run : cash_run ex_collate early_events early_book.
Proof.
  do 5 (apply deliver_run; [vm_compute; reflexivity|]). apply collect_run; [vm_compute; reflexivity|]. apply run_start.
Qed.

Lemma example_collections s : s = late_book ∨ s = early_book →
  cash_collections s = {[ "pi_1" := mkCollection (Some "ch_1") 7%N "job" (Some 31%N) None 1000 1000 "usd" 5 ]}.
Proof. intros [->| ->]; vm_compute; reflexivity. Qed.

Lemma example_intents e : e ∈ late_events → ev_PaymentIntent e = "" ∨ ev_PaymentIntent e = "pi_1".
Proof. intros I. repeat (apply elem_of_cons in I as [->|I]; [by (left + right)|]). by apply elem_of_nil in I. Qed.

Lemma example_set e : e ∈ late_events ↔ e ∈ early_events.
Proof. unfold late_events, early_events. set_solver. Qed.

Lemma example_owner es s : s = late_book ∨ s = early_book → (∀ e, e ∈ es → e ∈ late_events) → one_intent (λ _, "pi_1") es s.
Proof.
  intros Hs S. split; [done|intros e I; by apply example_intents, S|]. rewrite (example_collections s Hs).
  intros p c ch [<- <-]%lookup_singleton_Some [= <-]. done.
Qed.

Lemma example_distinct e e' : e ∈ late_events → e' ∈ late_events → EventID e = EventID e' → e = e'.
Proof.
  assert (Forall (λ e, Forall (λ e', EventID e = EventID e' → e = e') late_events) late_events) as F.
  { repeat (apply Forall_cons; split); try apply Forall_nil; try done;
      repeat (apply Forall_cons; split); try apply Forall_nil; try done; first [intros _; reflexivity|intros X; vm_compute in X; discriminate X]. }
  intros I I'. rewrite Forall_forall in F. specialize (F e I). rewrite Forall_forall in F. by apply F.
Qed.

Lemma evidence_converges_witness :
  unavailable_cents late_book "pi_1" 1000 = unavailable_cents early_book "pi_1" 1000 ∧
  unavailable_cents early_book "pi_1" 1000 = Ok 500 ∧ refunded_at late_book "ch_1" = 500 ∧ effect_at early_book "dp_1" = (30, 40).
Proof.
  split; [|split_and!; vm_compute; reflexivity].
  refine (proj2 (proj2 (evidence_converges ex_collate (λ _, "pi_1") late_events early_events late_book early_book late_run early_run
    (example_owner _ _ (or_introl eq_refl) _) (example_owner _ _ (or_intror eq_refl) _) example_set _ example_distinct)) "pi_1" 1000).
  - done.
  - intros e. apply example_set.
  - intros ch. unfold collected. by rewrite !example_collections by auto.
Defined.
