(* ===== verification/AdminAudit.v ===== *)
(** * AdminAudit: privileged requests, authorised and recorded once

    [admin_authority.go] names the operators who may act and [admin_mutation_audit.go]
    records what they did.  A privileged request carries an incident reference: the
    first request under a reference is carried out and recorded in the transaction that
    carries it out, an exact retry by the same operator is answered from the record,
    and any other use of the reference is refused.

    The JSON text of an intent is an argument.  The recorded states before and after,
    free-form objects in the source, are lists of named integers. *)
From stdpp Require Import base numbers list gmap strings.
From S2P Require Import Prelude.
From S2P Require Import Float64.
From S2P Require Import Sha256.
From S2P Require Import LedgerWrite.
Local Open Scope Z_scope.
Local Open Scope go_scope.

(** ** Operators *)

Definition AdminAuthOperatorKey : string := "operator_key".
Definition AdminAuthBreakGlassAPIKey : string := "break_glass_api_key".
Definition AdminAttributionNamedOperatorKey : string := "named_operator_key".

Record AdminActor := mkActor {
  Mode : string;
  PrincipalID : UUID;
  SessionID : option UUID;
  AttributionScope : string;
  Label : string
}.

Record credential := mkCredential { cr_hash : string; cr_label : string; cr_revoked : bool }.
Record api_key := mkApiKey { ak_hash : string; ak_name : string; ak_admin : bool; ak_revoked : bool }.

Record admin_action := mkAction {
  ac_kind : string;
  ac_task : option UUID;
  ac_supplier : option UUID;
  ac_entry : option UUID;
  ac_reason : string;
  ac_detail : list (string * Z) * list (string * Z);
  ac_mode : string;
  ac_principal : UUID;
  ac_session : option UUID;
  ac_label : option string;
  ac_scope : string;
  ac_version : Z;
  ac_sha : string;
  ac_ref : string;
  ac_target_kind : string;
  ac_target : UUID
}.

Record admin_tables := mkAdmin {
  admin_actions : list admin_action;
  admin_credentials : gmap UUID credential;
  admin_keys : gmap UUID api_key
}.

Definition errAdminActorUnauthorized : error := Sentinel "errAdminActorUnauthorized".
Definition errAdminMutationInvalid : error := Sentinel "errAdminMutationInvalid".

Definition validateAdminActorShape (actor : AdminActor) : res unit :=
  refuse (Wrapf errAdminActorUnauthorized "%w: missing principal id") if bool_decide (PrincipalID actor = uuid_Nil);
  refuse (Wrapf errAdminActorUnauthorized "%w: unsupported authentication mode %q")
    if negb (one_of (Mode actor) [AdminAuthOperatorKey; AdminAuthBreakGlassAPIKey]);
  refuse (Wrapf errAdminActorUnauthorized "%w: invalid admin key attribution")
    if bool_decide (SessionID actor ≠ None) || negb (bool_decide (AttributionScope actor = AdminAttributionNamedOperatorKey));
  let label := trim_space (Label actor) in
  refuse (Wrapf errAdminActorUnauthorized "%w: a named operator key label is required")
    if bool_decide (label = "") || (200 <? String.length label)%nat;
  Ok tt.

Definition revalidateAdminActor (t : admin_tables) (actor : AdminActor) : res unit :=
  _ ← validateAdminActorShape actor;
  let live :=
    if bool_decide (Mode actor = AdminAuthOperatorKey)
    then bool_decide (cr_revoked <$> admin_credentials t !! PrincipalID actor = Some false)
    else match admin_keys t !! PrincipalID actor with Some k => ak_admin k && negb (ak_revoked k) | None => false end in
  refuse errAdminActorUnauthorized if negb live;
  Ok tt.

(** [hashKey] is the SHA-256 of the key in hexadecimal. *)
Definition AuthenticateAdmin (t : admin_tables) (rawKey : string) : res AdminActor :=
  let presented := sha256_hex rawKey in
  match find_row (λ c, bool_decide (cr_hash c = presented) && negb (cr_revoked c)) (admin_credentials t) with
  | Some (id, c) => Ok (mkActor AdminAuthOperatorKey id None AdminAttributionNamedOperatorKey (cr_label c))
  | None =>
      match find_row (λ k, bool_decide (ak_hash k = presented) && ak_admin k && negb (ak_revoked k)) (admin_keys t) with
      | Some (id, k) =>
          Ok (mkActor AdminAuthBreakGlassAPIKey id None AdminAttributionNamedOperatorKey
                (default "break-glass API key" (nullif (ak_name k))))
      | None => Err errNotFound
      end
  end.

(** ** Intents *)

Definition adminMutationIntentVersion : Z := 1.

Record adminMutationIntent := mkIntent {
  in_Version : Z;
  in_Kind : string;
  in_TargetKind : string;
  in_TargetID : UUID;
  in_Reason : string;
  in_CorrelationRef : string;
  in_Delta : option f64;               (* a [float32], which is a [float64] value *)
  in_Resolution : string
}.

Definition normalized (i : adminMutationIntent) : adminMutationIntent :=
  mkIntent adminMutationIntentVersion (trim_space (in_Kind i)) (trim_space (in_TargetKind i)) (in_TargetID i)
    (trim_space (in_Reason i)) (trim_space (in_CorrelationRef i)) (in_Delta i) (trim_space (in_Resolution i)).

(** The actions and the kind of target each requires. *)
Definition wantTarget (kind : string) : option string :=
  if one_of kind ["worker_suspended"; "worker_reinstated"] then Some "worker"
  else if bool_decide (kind = "task_requeued") then Some "task"
  else if bool_decide (kind = "reputation_adjusted") then Some "supplier"
  else if bool_decide (kind = "payout_released") then Some "ledger_entry"
  else if bool_decide (kind = "operational_control_changed") then Some "operational_control"
  else if one_of kind ["buyer_tombstoned"; "prepaid_refunded"] then Some "buyer"
  else if bool_decide (kind = "realtime_refunded") then Some "execution_contract"
  else if bool_decide (kind = "dispute_resolved") then Some "dispute"
  else None.

Definition validate_intent (i : adminMutationIntent) : res unit :=
  let invalid msg := Wrapf errAdminMutationInvalid msg in
  refuse (invalid "%w: version and target are required")
    if negb (in_Version i =? adminMutationIntentVersion) || bool_decide (in_TargetID i = uuid_Nil);
  refuse (invalid "%w: reason and incident or ticket reference are required")
    if bool_decide (in_Reason i = "") || bool_decide (in_CorrelationRef i = "");
  refuse (invalid "%w: reason or request_id is too long")
    if (1000 <? String.length (in_Reason i))%nat || (200 <? String.length (in_CorrelationRef i))%nat;
  refuse (invalid "%w: reputation delta must be finite and non-zero")
    if bool_decide (in_Kind i = "reputation_adjusted") &&
       match in_Delta i with
       | None => true
       | Some d => f64_eqb d (f64_of_Z 0) || is_nan d || is_inf d
       end;
  refuse (invalid "%w: dispute resolution must be upheld or rejected")
    if bool_decide (in_Kind i = "dispute_resolved") && negb (one_of (trim_space (in_Resolution i)) ["upheld"; "rejected"]);
  match wantTarget (in_Kind i) with
  | None => Err (invalid "%w: unsupported action %q")
  | Some target =>
      refuse (invalid "%w: action %q requires target kind %q") if negb (bool_decide (in_TargetKind i = target));
      refuse (invalid "%w: action %q does not accept a reputation delta")
        if negb (bool_decide (in_Kind i = "reputation_adjusted")) && bool_decide (in_Delta i ≠ None);
      refuse (invalid "%w: action %q does not accept a dispute resolution")
        if negb (bool_decide (in_Kind i = "dispute_resolved")) && negb (bool_decide (trim_space (in_Resolution i) = ""));
      Ok tt
  end.

Section Audit.
(** [json.Marshal] of an intent. *)
Context (marshal : adminMutationIntent → res string).

Definition adminMutationRequestSHA256 (i : adminMutationIntent) : res string :=
  let i := normalized i in
  _ ← validate_intent i;
  raw ← marshal i;
  Ok (sha256_hex raw).

Definition prepareAdminMutation (actor : AdminActor) (i : adminMutationIntent) : res adminMutationIntent :=
  _ ← validateAdminActorShape actor;
  let i := normalized i in
  _ ← adminMutationRequestSHA256 i;
  Ok i.

Definition by_request (kind ref : string) (a : admin_action) : bool :=
  bool_decide (ac_kind a = kind) && bool_decide (ac_ref a = ref).

(** The recorded states of an exact retry, if there is one. *)
Definition acquireAdminMutationReplay (t : admin_tables) (actor : AdminActor) (i : adminMutationIntent) :
    res (option (list (string * Z) * list (string * Z))) :=
  let i := normalized i in
  digest ← adminMutationRequestSHA256 i;
  match List.find (by_request (in_Kind i) (in_CorrelationRef i)) (admin_actions t) with
  | None => Ok None
  | Some a =>
      refuse (Wrapf errAdminMutationInvalid "%w: incident or ticket reference already belongs to another privileged request")
        if negb (bool_decide (ac_sha a = digest)) || negb (bool_decide (ac_principal a = PrincipalID actor)) ||
           negb (bool_decide (default "" (ac_label a) = trim_space (Label actor))) ||
           negb (bool_decide (ac_scope a = AttributionScope actor));
      Ok (Some (ac_detail a))
  end.

(** The kinds the table's own check and unique index name. *)
Definition privileged_kinds : list string :=
  ["worker_suspended"; "worker_reinstated"; "task_requeued"; "reputation_adjusted"; "payout_released";
   "operational_control_changed"; "buyer_tombstoned"; "realtime_refunded"; "dispute_resolved"].

(** [admin_actions_privileged_mutation_shape], for what the record does not already fix. *)
Definition privileged_shape (a : admin_action) : bool :=
  let no_task := bool_decide (ac_task a = None) in
  let no_supplier := bool_decide (ac_supplier a = None) in
  let no_entry := bool_decide (ac_entry a = None) in
  if negb (one_of (ac_kind a) privileged_kinds) then true
  else
    one_of (ac_mode a) [AdminAuthOperatorKey; AdminAuthBreakGlassAPIKey] && bool_decide (ac_session a = None) &&
    bool_decide (ac_scope a = AdminAttributionNamedOperatorKey) && bool_decide (ac_label a ≠ None) && (ac_version a =? 1) &&
    sha_check (Some (ac_sha a)) && bool_decide (wantTarget (ac_kind a) = Some (ac_target_kind a)) &&
    (if one_of (ac_kind a) ["worker_suspended"; "worker_reinstated"; "realtime_refunded"] then negb no_supplier && no_task && no_entry
     else if bool_decide (ac_kind a = "task_requeued") then bool_decide (ac_task a = Some (ac_target a)) && no_supplier && no_entry
     else if bool_decide (ac_kind a = "reputation_adjusted") then
       bool_decide (ac_supplier a = Some (ac_target a)) && no_task && no_entry
     else if bool_decide (ac_kind a = "payout_released") then
       bool_decide (ac_entry a = Some (ac_target a)) && negb no_supplier && no_task
     else if bool_decide (ac_kind a = "dispute_resolved") then no_task && no_entry
     else no_supplier && no_task && no_entry).

Definition insertAdminMutationAction (t : admin_tables) (actor : AdminActor) (i : adminMutationIntent)
    (taskID supplierID ledgerEntryID : option UUID) (before after : option (list (string * Z))) : res admin_tables :=
  _ ← revalidateAdminActor t actor;
  let i := normalized i in
  digest ← adminMutationRequestSHA256 i;
  match before, after with
  | Some before, Some after =>
      let label := String.substring 0 200 (trim_space (Label actor)) in
      let a := mkAction (in_Kind i) taskID supplierID ledgerEntryID (in_Reason i) (before, after) (Mode actor)
                 (PrincipalID actor) (SessionID actor) (nullif label) (AttributionScope actor) (in_Version i) digest
                 (in_CorrelationRef i) (in_TargetKind i) (in_TargetID i) in
      refuse errCheckViolation if negb (privileged_shape a);
      refuse errUniqueViolation
        if one_of (in_Kind i) privileged_kinds && existsb (by_request (in_Kind i) (in_CorrelationRef i)) (admin_actions t);
      Ok (mkAdmin (admin_actions t ++ [a]) (admin_credentials t) (admin_keys t))
  | _, _ => Err (Wrapf errAdminMutationInvalid "%w: before and after audit state are required")
  end.

End Audit.

(** ** A privileged request is carried out once *)

Lemma normalized_idem i : normalized (normalized i) = normalized i.
Proof. unfold normalized. simpl. by rewrite !trim_space_idem. Qed.

Lemma substring_all s : ∀ n, (String.length s ≤ n)%nat → String.substring 0 n s = s.
Proof.
  induction s as [|a s IH]; intros [|n] H; simpl in *; [done|done|lia|]. f_equal. apply IH. lia.
Qed.

(** The first match of an appended list. *)
Lemma find_app_None {A} (p : A → bool) l l' : List.find p l = None → List.find p (l ++ l') = List.find p l'.
Proof. induction l as [|x l IH]; simpl; [done|]. by destruct (p x). Qed.

Section Once.
Context (marshal : adminMutationIntent → res string).

Lemma request_digest_normal i : adminMutationRequestSHA256 marshal (normalized i) = adminMutationRequestSHA256 marshal i.
Proof using. unfold adminMutationRequestSHA256. by rewrite normalized_idem. Qed.

(** Recording an action appends it. *)
Lemma insert_action_Ok t actor i tk su en be af t' :
  insertAdminMutationAction marshal t actor i tk su en be af = Ok t' →
  ∃ a b c digest, be = Some b ∧ af = Some c ∧ adminMutationRequestSHA256 marshal i = Ok digest ∧
    t' = mkAdmin (admin_actions t ++ [a]) (admin_credentials t) (admin_keys t) ∧
    ac_kind a = in_Kind (normalized i) ∧ ac_ref a = in_CorrelationRef (normalized i) ∧ ac_detail a = (b, c) ∧
    ac_sha a = digest ∧ ac_principal a = PrincipalID actor ∧ default "" (ac_label a) = trim_space (Label actor) ∧
    ac_scope a = AttributionScope actor ∧ ac_target a = in_TargetID i ∧ ac_reason a = in_Reason (normalized i).
Proof using.
  intros H. unfold insertAdminMutationAction in H. apply bind_Ok in H as ([] & R & H). rewrite request_digest_normal in H.
  apply bind_Ok in H as (digest & D & H). destruct be as [b|], af as [c|]; [|done..].
  apply refuse_Ok in H as [_ H]. apply refuse_Ok in H as [_ H]. simplify_eq.
  assert (String.length (trim_space (Label actor)) ≤ 200)%nat as L.
  { unfold revalidateAdminActor in R. apply bind_Ok in R as ([] & S & _). unfold validateAdminActorShape in S.
    do 3 apply refuse_Ok in S as [_ S]. apply refuse_Ok in S as [X _]. apply orb_false_iff in X as [_ X]. by apply Nat.ltb_ge in X. }
  do 4 eexists. split_and!; try done. simpl. rewrite substring_all by done. unfold nullif. by case_bool_decide.
Qed.

(** A recorded request answers for its reference, however the log grows. *)
Lemma reference_taken t actor i tk su en before after t' rest :
  acquireAdminMutationReplay marshal t actor i = Ok None →
  insertAdminMutationAction marshal t actor i tk su en (Some before) (Some after) = Ok t' →
  ∀ later actor' i' digest', admin_actions later = admin_actions t' ++ rest →
    in_Kind (normalized i') = in_Kind (normalized i) →
    in_CorrelationRef (normalized i') = in_CorrelationRef (normalized i) →
    adminMutationRequestSHA256 marshal i' = Ok digest' →
    acquireAdminMutationReplay marshal later actor' i' =
      if bool_decide (Ok digest' = adminMutationRequestSHA256 marshal i) && bool_decide (PrincipalID actor' = PrincipalID actor) &&
         bool_decide (trim_space (Label actor') = trim_space (Label actor)) && bool_decide (AttributionScope actor' = AttributionScope actor)
      then Ok (Some (before, after))
      else Err (Wrapf errAdminMutationInvalid "%w: incident or ticket reference already belongs to another privileged request").
Proof using.
  intros A H later actor' i' digest' La Ek Er Di.
  apply insert_action_Ok in H as (a & b & c & digest & E1 & E2 & D & -> & Ak & Ar & Ad & As & Ap & Al & Ac & _).
  injection E1 as <-. injection E2 as <-.
  assert (List.find (by_request (in_Kind (normalized i')) (in_CorrelationRef (normalized i'))) (admin_actions later) = Some a) as F.
  { rewrite Ek, Er, La. simpl. rewrite <-app_assoc, find_app_None.
    - simpl. unfold by_request at 1. by rewrite Ak, Ar, !bool_decide_true.
    - unfold acquireAdminMutationReplay in A. apply bind_Ok in A as (dg & _ & A). destruct (List.find _ _); [|done].
      by apply refuse_Ok in A as [_ A]. }
  unfold acquireAdminMutationReplay. rewrite request_digest_normal, Di. simpl. simpl in F. rewrite F, Ap, Al, Ac, Ad, D.
  rewrite (bool_decide_ext (ac_sha a = digest') (Ok digest' = Ok (ac_sha a))) by (split; congruence).
  rewrite (bool_decide_ext (PrincipalID actor = PrincipalID actor') (PrincipalID actor' = PrincipalID actor)) by done.
  rewrite (bool_decide_ext (trim_space (Label actor) = _) (trim_space (Label actor') = trim_space (Label actor))) by done.
  rewrite (bool_decide_ext (AttributionScope actor = AttributionScope actor') (AttributionScope actor' = AttributionScope actor)) by done.
  rewrite As. by repeat destruct (bool_decide _).
Qed.

(** A retry by the same operator is answered with what was recorded. *)
Lemma retry_answered t actor i tk su en before after t' rest later :
  acquireAdminMutationReplay marshal t actor i = Ok None →
  insertAdminMutationAction marshal t actor i tk su en (Some before) (Some after) = Ok t' →
  admin_actions later = admin_actions t' ++ rest →
  acquireAdminMutationReplay marshal later actor i = Ok (Some (before, after)).
Proof using.
  intros A H L. pose proof H as (_ & _ & _ & digest & _ & _ & D & _)%insert_action_Ok.
  by rewrite (reference_taken _ _ _ _ _ _ _ _ _ _ A H _ actor i _ L eq_refl eq_refl D), D, !bool_decide_true.
Qed.

(** An incident reference is used once.  After a privileged request has been recorded,
    an exact retry by the same operator is answered with the recorded states for as
    long as the log only grows, and any other request under the same reference, by
    another operator or with other content, is refused. *)
Theorem privileged_once t actor i tk su en before after t' rest :
  acquireAdminMutationReplay marshal t actor i = Ok None →
  insertAdminMutationAction marshal t actor i tk su en (Some before) (Some after) = Ok t' →
  let later := mkAdmin (admin_actions t' ++ rest) (admin_credentials t') (admin_keys t') in
  acquireAdminMutationReplay marshal later actor i = Ok (Some (before, after)) ∧
  ∀ actor' i' digest', in_Kind (normalized i') = in_Kind (normalized i) →
    in_CorrelationRef (normalized i') = in_CorrelationRef (normalized i) →
    adminMutationRequestSHA256 marshal i' = Ok digest' →
    acquireAdminMutationReplay marshal later actor' i' =
      if bool_decide (Ok digest' = adminMutationRequestSHA256 marshal i) && bool_decide (PrincipalID actor' = PrincipalID actor) &&
         bool_decide (trim_space (Label actor') = trim_space (Label actor)) && bool_decide (AttributionScope actor' = AttributionScope actor)
      then Ok (Some (before, after))
      else Err (Wrapf errAdminMutationInvalid "%w: incident or ticket reference already belongs to another privileged request").
Proof using.
  intros A H later. split; [by eapply (retry_answered _ _ _ _ _ _ _ _ _ rest)|].
  intros actor' i' digest' Ek Er Di. by eapply (reference_taken _ _ _ _ _ _ _ _ _ rest).
Qed.

End Once.

Definition ex_actor : AdminActor := mkActor AdminAuthOperatorKey 3%N None AdminAttributionNamedOperatorKey " Ada ".
Definition ex_intent : adminMutationIntent := mkIntent 0 "prepaid_refunded" "buyer" 7%N " closing account " "INC-1" None "".
Definition ex_admin : admin_tables := mkAdmin [] {[ 3%N := mkCredential "hash" "Ada" false ]} ∅.
Definition ex_marshal (i : adminMutationIntent) : res string := Ok (in_Kind i +:+ in_Reason i +:+ in_CorrelationRef i).
Definition ex_logged : admin_tables :=
  ok_or ex_admin (insertAdminMutationAction ex_marshal ex_admin ex_actor ex_intent None None None (Some []) (Some [])).

Lemma privileged_once_witness :
  insertAdminMutationAction ex_marshal ex_admin ex_actor ex_intent None None None (Some []) (Some []) = Ok ex_logged ∧
  acquireAdminMutationReplay ex_marshal (mkAdmin (admin_actions ex_logged ++ []) (admin_credentials ex_logged) (admin_keys ex_logged))
    ex_actor ex_intent = Ok (Some ([], [])).
Proof.
  split; [vm_compute; reflexivity|].
  apply (privileged_once ex_marshal ex_admin ex_actor ex_intent None None None [] [] ex_logged []); vm_compute; reflexivity.
Defined.
