(* ===== verification/PrepaidCards.v ===== *)
(** * PrepaidCards: paying in by card and paying back

    The card side of [store_prepaid.go].  A top-up is a pending operation before Stripe
    is asked for the cash, and becomes balance, ledger row and cash collection in one
    transaction when the charge is confirmed.  A refund takes the unreserved balance of
    a buyer, in whole minor units, splits it over the payment intents that funded it,
    and records the slices before Stripe is asked to move anything; a slice then
    succeeds, or fails and is put back.

    The balance and its ledger are a [purse], the holds against it [funds], the cash
    evidence a [cashbook], the operator's log [admin_tables].  Timestamps and the order
    of texts are arguments.  [SeedPrepaidBalance], a test helper, is left out. *)
From stdpp Require Import base numbers list gmap strings sorting.
From S2P Require Import Prelude.
From S2P Require Import Float64.
From S2P Require Import Currency.
From S2P Require Import LedgerWrite.
From S2P Require Import Purse.
From S2P Require Import Envelopes.
From S2P Require Import ServiceLeases.
From S2P Require Import Funding.
From S2P Require Import StripeCash.
From S2P Require Import AdminAudit.
Local Open Scope Z_scope.
Local Open Scope go_scope.

(** ** Tables *)

Record topup := mkTopup {
  tu_buyer : UUID;
  tu_cents : Z;
  tu_currency : string;
  tu_status : string;
  tu_intent : option string;
  tu_charge : option string;
  tu_credited : option Z
}.

Record refund_op := mkRefund {
  rf_key : string;
  rf_buyer : UUID;
  rf_cents : Z;
  rf_currency : string;
  rf_status : string;
  rf_stripe : option string;
  rf_intent : option string;
  rf_created : Z
}.

Record cards := mkCards {
  cd_funds : funds;
  cd_cash : cashbook;
  cd_admin : admin_tables;
  topups : gmap string topup;
  refunds : gmap string refund_op
}.

Definition cd_purse (s : cards) : purse := f_purse (cd_funds s).

Definition with_money (s : cards) (p : purse) : cards :=
  mkCards (with_purse (cd_funds s) p) (cd_cash s) (cd_admin s) (topups s) (refunds s).
Definition with_cash (s : cards) (c : cashbook) : cards := mkCards (cd_funds s) c (cd_admin s) (topups s) (refunds s).
Definition with_admin (s : cards) (a : admin_tables) : cards := mkCards (cd_funds s) (cd_cash s) a (topups s) (refunds s).
Definition with_topups (s : cards) (t : gmap string topup) : cards := mkCards (cd_funds s) (cd_cash s) (cd_admin s) t (refunds s).
Definition with_refunds (s : cards) (r : gmap string refund_op) : cards := mkCards (cd_funds s) (cd_cash s) (cd_admin s) (topups s) r.

(** ** Top-ups *)

Definition errPrepaidTopupConflict : error := Sentinel "errPrepaidTopupConflict".
Definition prepaidTopupArmed : string := "armed".
Definition prepaidTopupInFlight : string := "in_flight".
Definition prepaidTopupCredited : string := "credited".

Record prepaidTopupArm := mkTopupArm { arm_State : string; arm_PaymentIntent : string; arm_ChargeID : string }.

(** A new row: pending, for a positive amount in a supported currency, of a known buyer. *)
Definition insert_topup (s : cards) (key : string) (b : UUID) (cents : Z) (currency : string) : res cards :=
  refuse errCheckViolation if negb (not_blank key) || (cents <=? 0) || negb (one_of currency ["usd"; "cad"; "jpy"]);
  refuse errForeignKey if bool_decide (f_buyers (cd_funds s) !! b = None);
  Ok (with_topups s (<[key := mkTopup b cents currency "pending" None None None]> (topups s))).

Section Cards.
Context (st : settlement).
Context (collate : string → string → bool).
Context (marshal : adminMutationIntent → res string).

Definition PrepaidPendingTopupMinorUnits (s : cards) (b : UUID) : res (Z * Z) :=
  let currency := SettlementCurrencyCode st in
  _ ← ParseCurrency currency;
  let pending t := bool_decide (tu_buyer t = b) && bool_decide (tu_currency t = currency) && bool_decide (tu_status t = "pending") in
  let cents := sum_over (λ _ t, if pending t then tu_cents t else 0) (topups s) in
  refuse errOutOfRange if negb (is_int64 cents);
  Ok (sum_over (λ _ t, if pending t then 1 else 0) (topups s), cents).

Definition BeginPrepaidTopup (s : cards) (operationKey : string) (buyerID : UUID) (amountCents : Z) :
    res (prepaidTopupArm * cards) :=
  let operationKey := trim_space operationKey in
  refuse (Errorf "invalid prepaid top-up identity")
    if bool_decide (operationKey = "") || bool_decide (buyerID = uuid_Nil) || (amountCents <=? 0);
  let currency := SettlementCurrencyCode st in
  _ ← ParseCurrency currency;
  match topups s !! operationKey with
  | None =>
      s ← insert_topup s operationKey buyerID amountCents currency;
      Ok (mkTopupArm prepaidTopupArmed "" "", s)
  | Some t =>
      refuse errPrepaidTopupConflict
        if negb (bool_decide (tu_buyer t = buyerID)) || negb (tu_cents t =? amountCents) || negb (bool_decide (tu_currency t = currency));
      Ok (mkTopupArm (if bool_decide (tu_status t = "succeeded") then prepaidTopupCredited else prepaidTopupInFlight)
            (default "" (tu_intent t)) (default "" (tu_charge t)), s)
  end.

(** The collection of a top-up: inserted, or found as it should be. *)
Definition topup_collection (s : cashbook) (operationKey : string) (b : UUID) (charge : ChargeResult) (currency : string) (now : Z) :
    res cashbook :=
  let pi := PaymentIntentID charge in
  let c := mkCollection (Some (cr_ChargeID charge)) b "topup" None None (RequestedCents charge) (ReceivedCents charge) currency now in
  s ← (match cash_collections s !! pi with
       | Some _ => refuse errCheckViolation if negb (collection_checks pi c); Ok s
       | None => insert_collection s pi c
       end);
  refuse (Errorf "top-up %s PaymentIntent %s conflicts with its durable cash collection binding")
    if negb (from_option (λ stored, same_collection stored c) false (cash_collections s !! pi));
  Ok s.

Definition CreditPrepaidTopup (s : cards) (operationKey : string) (buyerID : UUID) (charge : ChargeResult) (now : Z) : res cards :=
  let operationKey := trim_space operationKey in
  refuse (Errorf "invalid prepaid top-up credit") if bool_decide (operationKey = "") || bool_decide (buyerID = uuid_Nil);
  _ ← match validateChargeResultShape charge with Err err => Err (Wrapf err "invalid prepaid top-up credit: %w") | Ok _ => Ok tt end;
  chargeCurrency ← match ParseCurrency (cr_Currency charge) with
                   | Err err => Err (Wrapf err "invalid prepaid top-up credit currency: %w")
                   | Ok c => Ok c
                   end;
  _ ← lockStripeCashBinding (cr_ChargeID charge);
  '(t, s) ← (match topups s !! operationKey with
             | Some t => Ok (t, s)
             | None =>
                 s ← insert_topup s operationKey buyerID (ReceivedCents charge) (code chargeCurrency);
                 Ok (mkTopup buyerID (ReceivedCents charge) (code chargeCurrency) "pending" None None None, s)
             end);
  refuse (Errorf "top-up %s buyer mismatch") if negb (bool_decide (tu_buyer t = buyerID));
  refuse (Errorf "top-up %s amount mismatch: stored=%d charge=%d") if negb (tu_cents t =? ReceivedCents charge);
  settlement ← match ParseCurrency (tu_currency t) with
               | Err err => Err (Wrapf err "top-up %s has invalid stored currency: %w")
               | Ok c => Ok c
               end;
  refuse (Errorf "top-up %s currency mismatch: stored=%s charge=%s") if negb (bool_decide (code chargeCurrency = code settlement));
  let bind c := match bindStripeCashStateToCollection c (cr_ChargeID charge) (PaymentIntentID charge) (ReceivedCents charge)
                        (code settlement) with
                | Err err => Err (Wrapf err "top-up %s cannot bind prior Stripe cash state: %w")
                | Ok c => Ok c
                end in
  if bool_decide (tu_status t = "succeeded") then
    refuse (Errorf "top-up %s has a conflicting completed provider identity")
      if negb (bool_decide (default "" (tu_intent t) = PaymentIntentID charge)) ||
         negb (bool_decide (default "" (tu_charge t) = cr_ChargeID charge));
    c ← bind (cd_cash s);
    Ok (with_cash s c)
  else
    refuse (Errorf "top-up %s is %s, cannot credit") if negb (bool_decide (tu_status t = "pending"));
    c ← topup_collection (cd_cash s) operationKey buyerID charge (code settlement) now;
    c ← bind c;
    micros ← MinorToMicros settlement (ReceivedCents charge);
    p ← add_balance (cd_purse s) buyerID (code settlement) micros;
    '(_, d) ← insertLedgerEntryIfAbsentByRefTx st (purse_books p)
                (prepaid_entry KindPrepaidTopup buyerID None micros settlement (PaymentIntentID charge));
    refuse errUniqueViolation
      if existsb (λ x, negb (bool_decide (x.1 = operationKey)) && bool_decide (tu_intent x.2 = Some (PaymentIntentID charge)))
           (map_to_list (topups s));
    Ok (with_topups (with_cash (with_money s (with_purse_books p d)) c)
          (<[operationKey := mkTopup (tu_buyer t) (tu_cents t) (tu_currency t) "succeeded" (Some (PaymentIntentID charge))
                               (Some (cr_ChargeID charge)) (Some now)]> (topups s))).

Definition PrepaidTopupPending (s : cards) (operationKey : string) : res (UUID * Z) :=
  match topups s !! operationKey with Some t => Ok (tu_buyer t, tu_cents t) | None => Err errNotFound end.

(** ** Refunds *)

Record prepaidRefundSlice := mkSlice {
  sl_OperationKey : string;
  sl_PaymentIntent : string;
  sl_Cents : Z;
  sl_Currency : string;
  sl_RefundID : string;
  sl_Status : string
}.

Record prepaidRefundPlan := mkRefundPlan {
  pl_OperationKey : string;
  pl_Currency : string;
  pl_Cents : Z;
  pl_Slices : list prepaidRefundSlice;
  pl_Replayed : bool
}.

Definition prepaidRefundOperationKey (buyerID : UUID) (correlationRef : string) : string :=
  "prepaid-refund-" +:+ uuid_String buyerID +:+ "-" +:+ trim_space correlationRef.

Definition live_refund (pi : string) (c : string) (r : refund_op) : bool :=
  bool_decide (rf_intent r = Some pi) && bool_decide (rf_currency r = c) && one_of (rf_status r) ["pending"; "succeeded"].

Definition refunded_from (s : cards) (pi c : string) : Z :=
  sum_over (λ _ r, if live_refund pi c r then rf_cents r else 0) (refunds s).

Definition newest_first (x y : string * topup) : Prop :=
  default 0 (tu_credited y.2) < default 0 (tu_credited x.2) ∨
  (default 0 (tu_credited x.2) = default 0 (tu_credited y.2) ∧ collate y.1 x.1 = true).

#[export] Instance newest_first_dec : RelDecision newest_first.
Proof. unfold newest_first. intros x y. apply _. Defined.

Definition settled (b : UUID) (c : string) (t : topup) : bool :=
  bool_decide (tu_buyer t = b) && bool_decide (tu_currency t = c) && bool_decide (tu_status t = "succeeded").

(** The funding intents, newest first, with what each still owes the buyer. *)
Definition refundable_intents (s : cards) (b : UUID) (c : string) : list (string * Z) :=
  omap (λ x, pi ← tu_intent x.2; Some (pi, tu_cents x.2 - refunded_from s pi (tu_currency x.2)))
    (merge_sort newest_first
       (filter (λ x, settled b c x.2 = true) (map_to_list (topups s)))).

Fixpoint take_slices (operationKey currency : string) (remaining : Z) (l : list (string * Z)) : list prepaidRefundSlice * Z :=
  match l with
  | [] => ([], remaining)
  | (intentID, refundable) :: l =>
      if (remaining <=? 0) || (refundable <=? 0) then take_slices operationKey currency remaining l
      else
        let take := if remaining <? refundable then remaining else refundable in
        let '(slices, remaining) := take_slices operationKey currency (remaining - take) l in
        (mkSlice (operationKey +:+ "-" +:+ intentID) intentID take currency "" "pending" :: slices, remaining)
  end.

Definition planPrepaidRefundSlicesTx (s : cards) (operationKey : string) (b : UUID) (currency : string) (cents : Z) :
    res (list prepaidRefundSlice) :=
  let rows := refundable_intents s b currency in
  refuse errOutOfRange if negb (forallb (λ x, is_int64 x.2) rows);
  let '(slices, remaining) := take_slices operationKey currency cents rows in
  refuse (Errorf "refund would exceed funded value: %d of %d cents cannot be traced to an unrefunded top-up") if 0 <? remaining;
  Ok slices.

Definition key_order (x y : string * refund_op) : Prop := collate x.1 y.1 = true.

#[export] Instance key_order_dec : RelDecision key_order.
Proof. unfold key_order. intros x y. apply _. Defined.

Definition slice_of (x : string * refund_op) : prepaidRefundSlice :=
  mkSlice x.1 (default "" (rf_intent x.2)) (rf_cents x.2) (rf_currency x.2) (default "" (rf_stripe x.2)) (rf_status x.2).

(** One row after the other: no failed slice, one currency. *)
Fixpoint collect_slices (l : list prepaidRefundSlice) (currency : string) (total : Z) : res (string * Z) :=
  match l with
  | [] => Ok (currency, total)
  | x :: l =>
      refuse (Errorf "prepaid refund %s has a failed slice; use a new request reference") if bool_decide (sl_Status x = "failed");
      refuse (Errorf "prepaid refund %s has unsupported slice status %q") if negb (one_of (sl_Status x) ["pending"; "succeeded"]);
      refuse (Errorf "prepaid refund %s mixes currencies")
        if negb (bool_decide (currency = "")) && negb (bool_decide (currency = sl_Currency x));
      collect_slices l (sl_Currency x) (total +w sl_Cents x)
  end.

Definition prepaidRefundSlicesTx (s : cards) (operationKey : string) : res (list prepaidRefundSlice * Z * string) :=
  let slices := slice_of <$> merge_sort key_order (filter (λ x, rf_key x.2 = operationKey) (map_to_list (refunds s))) in
  '(currency, total) ← collect_slices slices "" 0;
  refuse (Errorf "prepaid refund %s has no durable slices") if bool_decide (slices = []) || bool_decide (currency = "");
  _ ← ParseCurrency currency;
  Ok (slices, total, currency).

(** The rows of the slices, one [INSERT] each. *)
Fixpoint insert_slices (m : gmap string refund_op) (key : string) (b : UUID) (currency : string) (now : Z)
    (l : list prepaidRefundSlice) : res (gmap string refund_op) :=
  match l with
  | [] => Ok m
  | x :: l =>
      refuse errCheckViolation
        if negb (not_blank (sl_OperationKey x)) || (sl_Cents x <=? 0) || negb (one_of currency ["usd"; "cad"; "jpy"]);
      refuse errUniqueViolation if bool_decide (m !! sl_OperationKey x ≠ None);
      insert_slices (<[sl_OperationKey x := mkRefund key b (sl_Cents x) currency "pending" None (Some (sl_PaymentIntent x)) now]> m)
        key b currency now l
  end.

Definition BeginPrepaidRefund (s : cards) (actor : AdminActor) (buyerID : UUID) (reason correlationRef : string) (now : Z) :
    res (prepaidRefundPlan * cards) :=
  intent ← prepareAdminMutation marshal actor (mkIntent 0 "prepaid_refunded" "buyer" buyerID reason correlationRef None "");
  let operationKey := prepaidRefundOperationKey buyerID (in_CorrelationRef intent) in
  _ ← revalidateAdminActor (cd_admin s) actor;
  replay ← acquireAdminMutationReplay marshal (cd_admin s) actor intent;
  match replay with
  | Some _ =>
      '(slices, cents, currency) ← prepaidRefundSlicesTx s operationKey;
      Ok (mkRefundPlan operationKey currency cents slices true, s)
  | None =>
      settlement ← SettlementCurrency st;
      let currency := code settlement in
      refuse errForeignKey
        if bool_decide (purse_balances (cd_purse s) !! (buyerID, currency) = None) && bool_decide (f_buyers (cd_funds s) !! buyerID = None);
      let balance := balance_of (cd_purse s) buyerID currency in
      reserved ← prepaidOpenReservationMicrosInCurrency (cd_funds s) buyerID currency;
      executingHold ← executing_hold (cd_funds s) buyerID currency;
      let available := (balance -w reserved) -w executingHold in
      refuse errInsufficientPrepaid if available <=? 0;
      microsPerMinor ← MicrosPerMinorUnit settlement;
      let cents := available /t microsPerMinor in
      refuse (Errorf "unreserved prepaid balance %d micros is below one %s minor unit and cannot be refunded via card rails")
        if cents <=? 0;
      refundMicros ← MinorToMicros settlement cents;
      slices ← planPrepaidRefundSlicesTx s operationKey buyerID currency cents;
      p ← take_balance (cd_purse s) buyerID currency refundMicros;
      '(_, d) ← insertLedgerEntryIfAbsentByRefTx st (purse_books p)
                  (prepaid_entry KindPrepaidRefund buyerID None (- refundMicros) settlement operationKey);
      rs ← insert_slices (refunds s) operationKey buyerID currency now slices;
      admin ← insertAdminMutationAction marshal (cd_admin s) actor intent None None None
                (Some [("prepaid_balance_micros", balance); ("reserved_micros", reserved);
                       ("executing_hold_micros", executingHold); ("refundable_micros", available)])
                (Some [("prepaid_balance_micros", balance -w refundMicros); ("reserved_micros", reserved);
                       ("executing_hold_micros", executingHold); ("refunded_micros", refundMicros)]);
      Ok (mkRefundPlan operationKey currency cents slices false,
          with_admin (with_refunds (with_money s (with_purse_books p d)) rs) admin)
  end.

(** ** Slices after the provider answered *)

Definition oldest_first (x y : string * refund_op) : Prop :=
  rf_created x.2 < rf_created y.2 ∨ (rf_created x.2 = rf_created y.2 ∧ collate x.1 y.1 = true).

#[export] Instance oldest_first_dec : RelDecision oldest_first.
Proof. unfold oldest_first. intros x y. apply _. Defined.

Definition PendingPrepaidRefunds (s : cards) (limit : Z) : res (list prepaidRefundSlice) :=
  refuse (Errorf "prepaid refund recovery limit must be between 1 and 200") if (limit <=? 0) || (200 <? limit);
  Ok (slice_of <$> take (Z.to_nat limit) (merge_sort oldest_first (filter (λ x, rf_status x.2 = "pending") (map_to_list (refunds s))))).

Definition set_refund (r : refund_op) (status : string) (stripe : option string) : refund_op :=
  mkRefund (rf_key r) (rf_buyer r) (rf_cents r) (rf_currency r) status stripe (rf_intent r) (rf_created r).

(** [stripe_refund_id] is unique. *)
Definition refund_id_taken (s : cards) (key refundID : string) : bool :=
  existsb (λ x, negb (bool_decide (x.1 = key)) && bool_decide (rf_stripe x.2 = Some refundID)) (map_to_list (refunds s)).

Definition unbound_or (refundID : string) (r : refund_op) : bool :=
  bool_decide (rf_stripe r = None) || bool_decide (rf_stripe r = Some refundID).

Definition RecordPrepaidRefundProviderID (s : cards) (operationKey paymentIntent refundID : string) : res cards :=
  let operationKey := trim_space operationKey in
  let paymentIntent := trim_space paymentIntent in
  let refundID := trim_space refundID in
  refuse (Errorf "prepaid refund provider binding has invalid identity")
    if bool_decide (operationKey = "") || negb (validStripeObjectID paymentIntent "pi_") || negb (validStripeObjectID refundID "re_");
  match refunds s !! operationKey with
  | None => Err (Errorf "prepaid refund slice %s is missing")
  | Some r =>
      if bool_decide (rf_intent r = Some paymentIntent) && bool_decide (rf_status r = "pending") && unbound_or refundID r then
        refuse errUniqueViolation if refund_id_taken s operationKey refundID;
        Ok (with_refunds s (<[operationKey := set_refund r "pending" (Some refundID)]> (refunds s)))
      else
        refuse (Errorf "prepaid refund slice %s has a conflicting provider binding")
          if negb (bool_decide (default "" (rf_intent r) = paymentIntent)) || negb (bool_decide (default "" (rf_stripe r) = refundID)) ||
             negb (one_of (rf_status r) ["pending"; "succeeded"]);
        Ok s
  end.

Definition prepaidRefundFailureRef (operationKey : string) : string := "prepaid-refund-failed-" +:+ trim_space operationKey.

Definition FailPrepaidRefund (s : cards) (slice : prepaidRefundSlice) : res cards :=
  let operationKey := trim_space (sl_OperationKey slice) in
  let refundID := trim_space (sl_RefundID slice) in
  refuse (Errorf "failed prepaid refund requires an operation and provider refund id")
    if bool_decide (operationKey = "") || negb (validStripeObjectID refundID "re_");
  match refunds s !! operationKey with
  | None => Err (Errorf "prepaid refund slice %s is missing")
  | Some r =>
      let identityMatches := bool_decide (default "" (rf_stripe r) = refundID) &&
        bool_decide (default "" (rf_intent r) = sl_PaymentIntent slice) && (rf_cents r =? sl_Cents slice) &&
        bool_decide (rf_currency r = sl_Currency slice) in
      if bool_decide (rf_status r = "failed") then
        refuse (Errorf "prepaid refund slice %s has a conflicting failure identity") if negb identityMatches;
        Ok s
      else
        refuse (Errorf "prepaid refund slice %s already succeeded") if bool_decide (rf_status r = "succeeded");
        refuse (Errorf "prepaid refund slice %s has a conflicting failure identity")
          if negb (bool_decide (rf_status r = "pending")) || negb identityMatches;
        settlement ← ParseCurrency (rf_currency r);
        refundMicros ← MinorToMicros settlement (rf_cents r);
        '(n, d) ← insertLedgerEntryIfAbsentByRefTx st (purse_books (cd_purse s))
                    (mkLedgerInsert KindPrepaidBalanceReturn None (Some (rf_buyer r)) None None refundMicros (rf_currency r)
                       ledgerCurrencyAuthorityPrepaid "" PayoutReleased None (prepaidRefundFailureRef operationKey) "" "" "");
        let p := with_purse_books (cd_purse s) d in
        p ← (if n =? 1 then creditPrepaidBalanceTx p (rf_buyer r) refundMicros (rf_currency r) else Ok p);
        refuse (Errorf "prepaid refund slice %s failed status CAS") if negb (bool_decide (rf_stripe r = Some refundID));
        Ok (with_refunds (with_money s p) (<[operationKey := set_refund r "failed" (rf_stripe r)]> (refunds s)))
  end.

Fixpoint CompletePrepaidRefund (s : cards) (slices : list prepaidRefundSlice) : cards * res unit :=
  match slices with
  | [] => (s, Ok tt)
  | x :: l =>
      if negb (validStripeObjectID (sl_RefundID x) "re_") then (s, Err (Errorf "prepaid refund %s has no provider refund id"))
      else
        match refunds s !! sl_OperationKey x with
        | None => (s, Err errNoRows)
        | Some r =>
            if bool_decide (rf_status r = "pending") && unbound_or (sl_RefundID x) r then
              if refund_id_taken s (sl_OperationKey x) (sl_RefundID x) then (s, Err errUniqueViolation)
              else CompletePrepaidRefund
                     (with_refunds s (<[sl_OperationKey x := set_refund r "succeeded" (Some (sl_RefundID x))]> (refunds s))) l
            else if negb (bool_decide (rf_status r = "succeeded")) || negb (bool_decide (default "" (rf_stripe r) = trim_space (sl_RefundID x)))
            then (s, Err (Errorf "prepaid refund %s has a conflicting completion identity"))
            else CompletePrepaidRefund s l
        end
  end.

End Cards.

(** ** Reconciliation

    The rows of the ledger that stand for cash on the card rails, and the rest of the
    prepaid rows, which spend what was paid in. *)

Definition supported : list string := ["usd"; "cad"; "jpy"].

Definition failurePrefix : string := "prepaid-refund-failed-".

Definition is_failure_ref (o : option string) : bool :=
  match o with Some ref => has_prefix ref failurePrefix | None => false end.

Definition card_row (r : row) : bool :=
  one_of (kind r) [KindPrepaidTopup; KindPrepaidRefund] ||
  (bool_decide (kind r = KindPrepaidBalanceReturn) && is_failure_ref (payout_ref r)).

Definition card_sum (b : UUID) (c : string) (l : list row) : Z :=
  sum_micros (λ r, card_row r && bool_decide (buyer_id r = Some b) && bool_decide (row_currency r = c)) l.

(** What the buyer has spent, less what was given back. *)
Definition net_spend (b : UUID) (c : string) (l : list row) : Z :=
  - sum_micros (λ r, one_of (kind r) prepaid_kinds && negb (card_row r) && bool_decide (buyer_id r = Some b) &&
                     bool_decide (row_currency r = c)) l.

(** The micro-units of one minor unit. *)
Definition per_minor (c : string) : Z := match ParseCurrency c with Ok cur => 10 ^ (6 - exponent cur) | Err _ => 0 end.

Definition counts_in (b : UUID) (c : string) (t : topup) : Z := if settled b c t then tu_cents t else 0.
Definition counts_back (b : UUID) (c : string) (r : refund_op) : Z :=
  if bool_decide (rf_buyer r = b) && bool_decide (rf_currency r = c) && one_of (rf_status r) ["pending"; "succeeded"] then rf_cents r else 0.

Definition paid_in (s : cards) (b : UUID) (c : string) : Z := sum_over (λ _, counts_in b c) (topups s).
Definition paid_back (s : cards) (b : UUID) (c : string) : Z := sum_over (λ _, counts_back b c) (refunds s).

(** A refund reference that the operator's log holds. *)
Definition refund_logged (a : admin_tables) (ref : string) : Prop :=
  trim_space ref = ref ∧ existsb (by_request "prepaid_refunded" ref) (admin_actions a) = true.

Record topup_ok (t : topup) : Prop := {
  tu_positive : 0 < tu_cents t ≤ max_int64;
  tu_supported : tu_currency t ∈ supported;
  tu_stage : tu_status t = "pending" ∧ tu_intent t = None ∨ tu_status t = "succeeded" ∧ is_Some (tu_intent t)
}.

(** A slice is of a payment intent that collected the cash of the same buyer. *)
Record refund_ok (s : cards) (r : refund_op) : Prop := {
  rf_positive : 0 < rf_cents r;
  rf_stage : rf_status r ∈ ["pending"; "succeeded"; "failed"];
  rf_source : ∃ k t pi, topups s !! k = Some t ∧ tu_intent t = Some pi ∧ rf_intent r = Some pi ∧
                        tu_buyer t = rf_buyer r ∧ tu_currency t = rf_currency r;
  rf_logged : ∃ b ref, rf_key r = prepaidRefundOperationKey b ref ∧ refund_logged (cd_admin s) ref
}.

Record cards_ok (s : cards) : Prop := {
  ck_purse : purse_ok (cd_purse s);
  ck_books : ∀ b c, card_sum b c (ledger (purse_books (cd_purse s))) = per_minor c * (paid_in s b c - paid_back s b c);
  ck_topups : ∀ k t, topups s !! k = Some t → topup_ok t;
  ck_intents : ∀ k k' t t' pi, topups s !! k = Some t → topups s !! k' = Some t' →
    tu_intent t = Some pi → tu_intent t' = Some pi → k = k';
  ck_topup_rows : ∀ r, r ∈ ledger (purse_books (cd_purse s)) → kind r = KindPrepaidTopup →
    ∃ k t pi, topups s !! k = Some t ∧ tu_intent t = Some pi ∧ payout_ref r = Some pi;
  ck_refunds : ∀ k r, refunds s !! k = Some r → refund_ok s r;
  ck_refund_rows : ∀ r, r ∈ ledger (purse_books (cd_purse s)) → kind r = KindPrepaidRefund →
    ∃ b ref, payout_ref r = Some (prepaidRefundOperationKey b ref) ∧ refund_logged (cd_admin s) ref;
  ck_returns : ∀ r ref, r ∈ ledger (purse_books (cd_purse s)) → kind r = KindPrepaidBalanceReturn →
    payout_ref r = Some (failurePrefix +:+ ref) → ∃ x, refunds s !! ref = Some x ∧ rf_status x = "failed";
  ck_bound : ∀ k t pi, topups s !! k = Some t → tu_intent t = Some pi → refunded_from s pi (tu_currency t) ≤ tu_cents t
}.

(** Other code's work: the tables of this file stay, and the ledger gets no prepaid rows. *)
Definition unrelated (s s' : cards) : Prop :=
  topups s' = topups s ∧ refunds s' = refunds s ∧ purse_balances (cd_purse s') = purse_balances (cd_purse s) ∧
  (∃ rs, ledger (purse_books (cd_purse s')) = ledger (purse_books (cd_purse s)) ++ rs ∧ Forall (λ r, kind r ∉ prepaid_kinds) rs) ∧
  ∃ rest, admin_actions (cd_admin s') = admin_actions (cd_admin s) ++ rest.

Section Steps.
Context (st : settlement).
Context (collate : string → string → bool).
Context (marshal : adminMutationIntent → res string).

Inductive card_step (s : cards) : cards → Prop :=
  | card_arm key b n arm s' : int64 n → BeginPrepaidTopup st s key b n = Ok (arm, s') → card_step s s'
  | card_credit key b charge now s' : int64 (ReceivedCents charge) → CreditPrepaidTopup st s key b charge now = Ok s' → card_step s s'
  | card_refund actor b reason ref now plan s' :
      BeginPrepaidRefund st collate marshal s actor b reason ref now = Ok (plan, s') → card_step s s'
  | card_bind key pi re s' : RecordPrepaidRefundProviderID s key pi re = Ok s' → card_step s s'
  | card_fail slice s' : FailPrepaidRefund st s slice = Ok s' → card_step s s'
  | card_complete slices r s' : CompletePrepaidRefund s slices = (s', r) → card_step s s'
  | card_spend p : honest (cd_purse s) p → card_step s (with_money s p)
  | card_other s' : unrelated s s' → card_step s s'.

End Steps.

(** *** Sums *)

Lemma sum_micros_split p q l : sum_micros p l = sum_micros (λ r, q r && p r) l + sum_micros (λ r, negb (q r) && p r) l.
Proof. induction l as [|r l IH]; [done|]. rewrite !sum_micros_cons, IH. destruct (q r); simpl; lia. Qed.

Lemma prepaid_sum_cards b c l : prepaid_sum b c l = card_sum b c l - net_spend b c l.
Proof.
  unfold prepaid_sum, card_sum, net_spend. rewrite (sum_micros_split _ card_row).
  rewrite (sum_micros_ext _ (λ r, card_row r && bool_decide (buyer_id r = Some b) && bool_decide (row_currency r = c))).
  - rewrite (sum_micros_ext (λ r, negb _ && _) (λ r, one_of (kind r) prepaid_kinds && negb (card_row r) &&
      bool_decide (buyer_id r = Some b) && bool_decide (row_currency r = c))); [lia|]. intros r _. by destruct (card_row r), (one_of _ _).
  - intros r _. destruct (card_row r) eqn:E; [|done]. rewrite (proj2 (one_of_spec (kind r) prepaid_kinds)); [done|].
    unfold card_row in E. apply orb_true_iff in E as [E|E].
    + apply one_of_spec in E. unfold prepaid_kinds. set_solver.
    + reflect_bools. unfold prepaid_kinds. set_solver.
Qed.

Lemma card_sum_snoc b c l r :
  card_sum b c (l ++ [r]) =
  card_sum b c l + if card_row r && bool_decide (buyer_id r = Some b) && bool_decide (row_currency r = c) then amount_micros r else 0.
Proof. unfold card_sum. rewrite sum_micros_app, sum_micros_cons. change (sum_micros _ []) with 0. lia. Qed.

Lemma card_sum_quiet b c l rs : Forall (λ r, card_row r = false) rs → card_sum b c (l ++ rs) = card_sum b c l.
Proof.
  intros F. unfold card_sum. rewrite sum_micros_app, (sum_micros_none _ rs); [lia|].
  intros r Hr. by rewrite (proj1 (Forall_forall _ _) F r Hr).
Qed.

Lemma card_row_kind r : card_row r = true → kind r ∈ prepaid_kinds.
Proof.
  unfold card_row, prepaid_kinds. intros E. apply orb_true_iff in E as [E|E]; [apply one_of_spec in E|reflect_bools]; set_solver.
Qed.

(** *** Frames *)

Lemma refund_logged_grow a a' rest ref :
  admin_actions a' = admin_actions a ++ rest → refund_logged a ref → refund_logged a' ref.
Proof. intros E [T L]. split; [done|]. by rewrite E, existsb_app, L. Qed.

Lemma refund_ok_grow s s' r rest :
  (∀ k t pi, topups s !! k = Some t → tu_intent t = Some pi → topups s' !! k = Some t) →
  admin_actions (cd_admin s') = admin_actions (cd_admin s) ++ rest → refund_ok s r → refund_ok s' r.
Proof.
  intros T A [P G (k & t & pi & L & I & R) (b & ref & K & Lg)]. split; [done|done| |].
  - exists k, t, pi. by erewrite T.
  - exists b, ref. split; [done|]. by eapply refund_logged_grow.
Qed.

(** Steps that leave the card rails alone. *)
Lemma cards_ok_quiet s s' rs rest :
  topups s' = topups s → refunds s' = refunds s → purse_ok (cd_purse s') →
  ledger (purse_books (cd_purse s')) = ledger (purse_books (cd_purse s)) ++ rs → Forall (λ r, card_row r = false) rs →
  admin_actions (cd_admin s') = admin_actions (cd_admin s) ++ rest → cards_ok s → cards_ok s'.
Proof.
  intros T R P L F A O.
  assert (∀ r, r ∈ ledger (purse_books (cd_purse s')) → card_row r = true → r ∈ ledger (purse_books (cd_purse s))) as Old.
  { intros r. rewrite L. intros [?|H]%elem_of_app E; [done|]. by rewrite (proj1 (Forall_forall _ _) F r H) in E. }
  split; [done|..].
  - intros b c. unfold paid_in, paid_back. rewrite T, R, L, card_sum_quiet by done. apply (ck_books _ O).
  - rewrite T. apply (ck_topups _ O).
  - rewrite T. apply (ck_intents _ O).
  - rewrite T. intros r Hr K. apply (ck_topup_rows _ O r); [|done]. apply Old; [done|]. unfold card_row. by rewrite K.
  - rewrite R. intros k r Lr. eapply (refund_ok_grow s); [|done|by apply (ck_refunds _ O k)]. by rewrite T.
  - intros r Hr K. destruct (ck_refund_rows _ O r) as (b & ref & E & Lg); [|done|].
    + apply Old; [done|]. unfold card_row. by rewrite K.
    + exists b, ref. split; [done|]. by eapply refund_logged_grow.
  - rewrite R. intros r ref Hr K E. apply (ck_returns _ O r ref); [|done..]. apply Old; [done|].
    unfold card_row, is_failure_ref, has_prefix. by rewrite K, E, (proj2 (strip_prefix_app _ _ ref)).
  - unfold refunded_from. rewrite T, R. apply (ck_bound _ O).
Qed.

(** A pending top-up is not cash yet. *)
Lemma cards_ok_pending s k b n c :
  topups s !! k = None → 0 < n ≤ max_int64 → c ∈ supported → cards_ok s →
  cards_ok (with_topups s (<[k := mkTopup b n c "pending" None None None]> (topups s))).
Proof.
  intros N P S O.
  assert (∀ k' t pi, topups s !! k' = Some t → tu_intent t = Some pi →
    <[k := mkTopup b n c "pending" None None None]> (topups s) !! k' = Some t) as Keep.
  { intros k' t pi L _. rewrite lookup_insert_ne; [done|congruence]. }
  assert (∀ k' t pi, <[k := mkTopup b n c "pending" None None None]> (topups s) !! k' = Some t → tu_intent t = Some pi →
    topups s !! k' = Some t) as Back.
  { intros k' t pi [[<- <-]|[_ L]]%lookup_insert_Some; [done|done]. }
  split; simpl; [apply (ck_purse _ O)|..].
  - intros b' c'. rewrite (ck_books _ O). f_equal. unfold paid_in, paid_back. simpl. rewrite sum_over_fresh by done.
    unfold counts_in at 2, settled. simpl. by rewrite andb_false_r.
  - intros k' t [[_ <-]|[_ L]]%lookup_insert_Some; [|by apply (ck_topups _ O k')]. split; simpl; auto.
  - intros k1 k2 t1 t2 pi L1 L2 I1 I2. eapply (ck_intents _ O k1 k2 t1 t2 pi); eauto.
  - intros r Hr K. destruct (ck_topup_rows _ O r Hr K) as (k' & t & pi & L & I & E). exists k', t, pi. split_and!; eauto.
  - intros k' r L. eapply (refund_ok_grow s _ _ []); [done| |by apply (ck_refunds _ O k')]. by rewrite app_nil_r.
  - apply (ck_refund_rows _ O).
  - apply (ck_returns _ O).
  - intros k' t pi L I. apply (ck_bound _ O k' t pi); eauto.
Qed.

(** *** Amounts *)

Lemma supported_parse c : c ∈ supported → ∃ cur, ParseCurrency c = Ok cur ∧ code cur = c.
Proof. unfold supported. rewrite !elem_of_cons. intros [->|[->|[->|H]]]; [by eexists..|by apply elem_of_nil in H]. Qed.

Lemma valid_supported cur : Currency_Valid cur = true → code cur ∈ supported.
Proof. unfold supported. intros [->|[->| ->]]%Currency_Valid_cases; simpl; set_solver. Qed.

Lemma per_minor_code cur : Currency_Valid cur = true → per_minor (code cur) = 10 ^ (6 - exponent cur).
Proof. intros V. unfold per_minor. by rewrite ParseCurrency_code. Qed.

Lemma minor_micros cur n m : 0 < n → MinorToMicros cur n = Ok m → m = n * per_minor (code cur).
Proof.
  intros P H. unfold MinorToMicros in H. apply bind_Ok in H as (f & F & H).
  apply MicrosPerMinorUnit_spec in F as (V & E & D). rewrite (per_minor_code _ V), <-E.
  apply refuse_Ok in H as [G H]. simplify_eq. apply orb_false_iff in G as [G _].
  rewrite (proj2 (Z.ltb_lt 0 n) P) in G. apply Z.ltb_ge in G. clear -P G D. destruct D as [E|E]; rewrite E in *; go_lia.
Qed.

Lemma per_minor_positive c : c ∈ supported → 0 < per_minor c.
Proof. unfold supported. rewrite !elem_of_cons. intros [->|[->|[->|H]]]; [done..|by apply elem_of_nil in H]. Qed.

(** *** Top-ups *)

(** The state a credit works on: the row is there, pending if it was not. *)
Lemma credit_topup_Ok st s key b charge now s' :
  CreditPrepaidTopup st s key b charge now = Ok s' →
  let k := trim_space key in let pi := PaymentIntentID charge in let n := ReceivedCents charge in
  ∃ s1 t cur c, 0 < n ∧ ParseCurrency (tu_currency t) = Ok cur ∧ (∃ cc, ParseCurrency (cr_Currency charge) = Ok cc ∧ code cc = code cur) ∧
    (s1 = s ∨ topups s !! k = None ∧ tu_currency t ∈ supported ∧
      s1 = with_topups s (<[k := mkTopup b n (tu_currency t) "pending" None None None]> (topups s))) ∧
    topups s1 !! k = Some t ∧ tu_buyer t = b ∧ tu_cents t = n ∧
    (tu_status t = "succeeded" ∧ default "" (tu_intent t) = pi ∧ s' = with_cash s1 c ∨
     tu_status t = "pending" ∧ (∀ k' t', topups s1 !! k' = Some t' → tu_intent t' = Some pi → k' = k) ∧
     ∃ micros p d x, MinorToMicros cur n = Ok micros ∧ add_balance (cd_purse s1) b (code cur) micros = Ok p ∧
       insertLedgerEntryIfAbsentByRefTx st (purse_books p) (prepaid_entry KindPrepaidTopup b None micros cur pi) = Ok (x, d) ∧
       s' = with_topups (with_cash (with_money s1 (with_purse_books p d)) c)
              (<[k := mkTopup b n (tu_currency t) "succeeded" (Some pi) (Some (cr_ChargeID charge)) (Some now)]> (topups s1))).
Proof.
  intros H k pi n. unfold CreditPrepaidTopup in H. cbv zeta in H. fold k in H. apply refuse_Ok in H as [_ H].
  apply bind_Ok in H as ([] & V & H). apply bind_Ok in H as (cc & Cc & H). apply bind_Ok in H as ([] & _ & H).
  apply bind_Ok in H as ([t s1] & Row & H). apply refuse_Ok in H as [B H]. apply refuse_Ok in H as [A H].
  apply bind_Ok in H as (cur & P & H). apply refuse_Ok in H as [Ec H].
  assert (0 < n) as Pos.
  { destruct (validateChargeResultShape charge) eqn:E; [|done]. unfold validateChargeResultShape in E.
    apply refuse_Ok in E as [E _]. reflect_bools. unfold n. lia. }
  clear V.
  assert (ParseCurrency (tu_currency t) = Ok cur) as P' by (destruct (ParseCurrency (tu_currency t)); [congruence|discriminate P]).
  clear P.
  assert (∃ cc, ParseCurrency (cr_Currency charge) = Ok cc ∧ code cc = code cur) as Cx.
  { exists cc. destruct (ParseCurrency (cr_Currency charge)); [|discriminate Cc]. injection Cc as ->.
    by apply negb_false_iff, bool_decide_eq_true in Ec. }
  clear Cc.
  assert ((s1 = s ∨ topups s !! k = None ∧ tu_currency t ∈ supported ∧
      s1 = with_topups s (<[k := mkTopup b n (tu_currency t) "pending" None None None]> (topups s))) ∧ topups s1 !! k = Some t) as [S L].
  { clear H. destruct (topups s !! k) as [t0|] eqn:L; [injection Row as <- <-; by split; [left|]|].
    apply bind_Ok in Row as (s2 & I & E). unfold insert_topup in I. apply refuse_Ok in I as [C I]. apply refuse_Ok in I as [_ I].
    injection I as <-. injection E as <- <-. simpl. split; [right|by rewrite lookup_insert_eq]. split_and!; [done| |done].
    reflect_bools. by apply one_of_spec. }
  clear Row. reflect_bools. destruct (bool_decide (tu_status t = "succeeded")) eqn:Su; reflect_bools.
  - apply refuse_Ok in H as [I H]. apply bind_Ok in H as (c & _ & H). injection H as <-. reflect_bools.
    exists s1, t, cur, c. split_and!; try done. by left.
  - apply refuse_Ok in H as [Pe H]. apply bind_Ok in H as (c & _ & H). apply bind_Ok in H as (c' & _ & H).
    apply bind_Ok in H as (micros & M & H). apply bind_Ok in H as (p & Ad & H). apply bind_Ok in H as ([x d] & In & H).
    apply refuse_Ok in H as [U H]. injection H as <-. reflect_bools.
    exists s1, t, cur, c'. split_and!; try done. right. split; [done|]. split; [|exists micros, p, d, x; split_and!; [done..|by rewrite A, B]].
    intros k' t' L' I'. destruct (decide (k' = k)) as [|Nk]; [done|]. exfalso. apply not_true_iff_false in U. apply U.
    apply existsb_exists. exists (k', t'). split; [by apply list_elem_of_In, elem_of_map_to_list|]. simpl. fold k.
    by rewrite bool_decide_false, bool_decide_true.
Qed.

Lemma supported_code c cur : c ∈ supported → ParseCurrency c = Ok cur → code cur = c.
Proof. intros (cur' & P & E)%supported_parse P'. rewrite P in P'. by injection P' as <-. Qed.

(** The row a card operation writes, and the balance it leaves. *)
Lemma card_row_written st p k b m cur ref x d :
  Currency_Valid cur = true → insertLedgerEntryIfAbsentByRefTx st (purse_books p) (prepaid_entry k b None m cur ref) = Ok (x, d) →
  (∀ r, r ∈ ledger (purse_books p) → kind r = k → payout_ref r ≠ Some ref) →
  x = 1 ∧ ∃ r, d = with_ledger (purse_books p) (ledger (purse_books p) ++ [r]) ∧ kind r = k ∧ amount_micros r = m ∧
    buyer_id r = Some b ∧ row_currency r = code cur ∧ payout_ref r = Some ref.
Proof.
  intros V [N [(-> & -> & r & Hr & K & R)|(-> & _ & r & -> & [Wk Wa Wb _ Wr Wc] & _)]]%insert_by_ref_Ok F; simpl in *.
  - by destruct (F r).
  - split; [done|]. exists r. split_and!; [done..| |].
    + by apply Wc, ParseCurrency_code.
    + rewrite Wr. unfold nullif. by rewrite bool_decide_false.
Qed.

(** The first credit of a top-up: one row, one balance, one succeeded operation. *)
Lemma cards_ok_credit st s k t b n cur c micros p d x pi ch now :
  cards_ok s → topups s !! k = Some t → tu_status t = "pending" → tu_buyer t = b → tu_cents t = n →
  ParseCurrency (tu_currency t) = Ok cur → (∀ k' t', topups s !! k' = Some t' → tu_intent t' = Some pi → k' = k) →
  MinorToMicros cur n = Ok micros → add_balance (cd_purse s) b (code cur) micros = Ok p →
  insertLedgerEntryIfAbsentByRefTx st (purse_books p) (prepaid_entry KindPrepaidTopup b None micros cur pi) = Ok (x, d) →
  let s' := with_topups (with_cash (with_money s (with_purse_books p d)) c)
              (<[k := mkTopup b n (tu_currency t) "succeeded" (Some pi) (Some ch) (Some now)]> (topups s)) in
  cards_ok s' ∧ ∀ b' c', balance_of (cd_purse s') b' c' =
    balance_of (cd_purse s) b' c' + if decide (b = b' ∧ tu_currency t = c') then n * per_minor c' else 0.
Proof.
  intros O L Pe Tb Tn P U M A I. cbv zeta. destruct (ck_topups _ O k t L) as [Pos Sup Stage].
  assert (tu_intent t = None) as Ni by (destruct Stage as [[_ ?]|[? _]]; [done|congruence]).
  pose proof (supported_code _ _ Sup P) as Ec. pose proof (ParseCurrency_Valid _ _ P) as V.
  apply minor_micros in M; [|lia]. rewrite Ec in M. apply add_balance_Ok in A as [-> Nn]. rewrite Ec in *.
  assert (∀ k' t', topups s !! k' = Some t' → tu_intent t' ≠ Some pi) as Fresh.
  { intros k' t' L' E. assert (k' = k) as -> by eauto. congruence. }
  destruct (card_row_written _ _ _ _ _ _ _ _ _ V I) as (-> & r & -> & Rk & Ra & Rb & Rc & Rr).
  { simpl. intros r Hr K R. destruct (ck_topup_rows _ O r Hr K) as (k' & t' & pi' & L' & I' & E).
    apply (Fresh k' t' L'). congruence. }
  clear I. rewrite Ec in Rc.
  set (t' := mkTopup b n (tu_currency t) "succeeded" (Some pi) (Some ch) (Some now)) in *.
  assert (∀ k0 t0 pi0, topups s !! k0 = Some t0 → tu_intent t0 = Some pi0 → <[k := t']> (topups s) !! k0 = Some t0) as Keep.
  { intros k0 t0 pi0 L0 I0. rewrite lookup_insert_ne; [done|]. intros <-. congruence. }
  assert (card_row r = true) as Cr by (unfold card_row; by rewrite Rk).
  split.
  2: { intros b' c'. change (cd_purse (with_topups _ _)) with
         (with_purse_books (set_balance (cd_purse s) b (tu_currency t) (balance_of (cd_purse s) b (tu_currency t) + micros))
            (with_ledger (purse_books (cd_purse s)) (ledger (purse_books (cd_purse s)) ++ [r]))).
       rewrite balance_books, balance_set. case_decide as D; [|lia]. destruct D as [<- <-]. lia. }
  split; simpl.
  - apply purse_ok_snoc; [apply (ck_purse _ O)| |done|done|by rewrite Ra|done]. by apply card_row_kind.
  - intros b' c'. rewrite card_sum_snoc, (ck_books _ O), Cr, Rb, Rc, Ra. unfold paid_in, paid_back. simpl.
    rewrite sum_over_insert, L. simpl. unfold counts_in at 3 4, settled. simpl. rewrite Pe, Tb, andb_false_r, andb_true_r.
    rewrite (bool_decide_ext (Some b = Some b') (b = b')) by naive_solver.
    destruct (bool_decide (b = b') && bool_decide (tu_currency t = c')) eqn:D; [|lia]. reflect_bools. subst. lia.
  - intros k0 t0 [[_ <-]|[_ L0]]%lookup_insert_Some; [|by apply (ck_topups _ O k0)]. split; simpl; [lia|done|]. by right.
  - intros k1 k2 t1 t2 pi0. rewrite !lookup_insert_Some. intros [[<- <-]|[N1 L1]] [[<- <-]|[N2 L2]] I1 I2; [done|..].
    + simpl in I1. simplify_eq. by destruct (Fresh k2 t2).
    + simpl in I2. simplify_eq. by destruct (Fresh k1 t1).
    + by eapply (ck_intents _ O).
  - intros r0 [Hr|Hr%list_elem_of_singleton]%elem_of_app K.
    + destruct (ck_topup_rows _ O r0 Hr K) as (k0 & t0 & pi0 & L0 & I0 & E). exists k0, t0, pi0. split_and!; eauto.
    + subst r0. exists k, t', pi. by rewrite lookup_insert_eq.
  - intros k0 r0 L0. eapply (refund_ok_grow s _ _ []); [done| |by apply (ck_refunds _ O k0)]. by rewrite app_nil_r.
  - intros r0 [Hr|Hr%list_elem_of_singleton]%elem_of_app K; [by apply (ck_refund_rows _ O)|]. subst r0. by rewrite Rk in K.
  - intros r0 ref [Hr|Hr%list_elem_of_singleton]%elem_of_app K; [by apply (ck_returns _ O)|]. subst r0. by rewrite Rk in K.
  - intros k0 t0 pi0 [[<- <-]|[_ L0]]%lookup_insert_Some I0; [|by apply (ck_bound _ O k0)].
    simpl in *. simplify_eq. unfold refunded_from. simpl.
    rewrite (sum_over_ext _ (λ _ _, 0)), sum_over_zero; [lia|].
    intros i y Ly. unfold live_refund. destruct (ck_refunds _ O i y Ly) as [_ _ (k1 & t1 & pi1 & L1 & I1 & R1 & _) _].
    rewrite bool_decide_false; [done|]. intros E. apply (Fresh k1 t1 L1). congruence.
Qed.

Lemma arm_ok st s key b n arm s' : int64 n → cards_ok s → BeginPrepaidTopup st s key b n = Ok (arm, s') → cards_ok s'.
Proof.
  intros W O H. unfold BeginPrepaidTopup in H. cbv zeta in H. apply refuse_Ok in H as [_ H]. apply bind_Ok in H as (cur & _ & H).
  destruct (topups s !! _) as [t|] eqn:L.
  - apply refuse_Ok in H as [_ H]. by injection H as _ <-.
  - apply bind_Ok in H as (s1 & I & H). injection H as _ <-. unfold insert_topup in I. apply refuse_Ok in I as [C I].
    apply refuse_Ok in I as [_ I]. injection I as <-. reflect_bools. apply cards_ok_pending; [done|width; lia| |done].
    by apply one_of_spec.
Qed.

Lemma cards_ok_cash s c : cards_ok s → cards_ok (with_cash s c).
Proof. intros O. eapply (cards_ok_quiet s _ [] []); try done; [apply (ck_purse _ O)|by rewrite app_nil_r..]. Qed.

Lemma credit_ok st s key b charge now s' :
  int64 (ReceivedCents charge) → cards_ok s → CreditPrepaidTopup st s key b charge now = Ok s' → cards_ok s'.
Proof.
  intros W O (s1 & t & cur & c & Pos & P & _ & S & L & Tb & Tn & H)%credit_topup_Ok.
  assert (cards_ok s1) as O1. { destruct S as [->|(N & Sup & ->)]; [done|]. apply cards_ok_pending; [done|width; lia|done..]. }
  destruct H as [(_ & _ & ->)|(Pe & U & micros & p & d & x & M & A & I & ->)]; [by apply cards_ok_cash|].
  by eapply cards_ok_credit.
Qed.

(** *** Refund slices *)

Definition slice_row (key : string) (b : UUID) (currency : string) (now : Z) (x : prepaidRefundSlice) : refund_op :=
  mkRefund key b (sl_Cents x) currency "pending" None (Some (sl_PaymentIntent x)) now.

Lemma insert_slices_Ok key b cur now l : ∀ m m', insert_slices m key b cur now l = Ok m' →
  (∀ f, sum_over f m' = sum_over f m + list_total (λ x, f (sl_OperationKey x) (slice_row key b cur now x)) l) ∧
  (∀ k r, m' !! k = Some r ↔ m !! k = Some r ∨ ∃ x, x ∈ l ∧ k = sl_OperationKey x ∧ r = slice_row key b cur now x) ∧
  Forall (λ x, 0 < sl_Cents x ∧ m !! sl_OperationKey x = None) l ∧ NoDup (sl_OperationKey <$> l).
Proof.
  induction l as [|x l IH]; intros m m' H; simpl in H.
  - injection H as <-. split_and!; [unfold list_total; simpl; lia| |done|constructor]. intros k r. split; [by left|].
    intros [?|(x & Hx & _)]; [done|by apply elem_of_nil in Hx].
  - apply refuse_Ok in H as [C H]. apply refuse_Ok in H as [N H]. reflect_bools.
    apply dec_stable in N. apply IH in H as (S & L & F & ND). fold (slice_row key b cur now x) in *.
    assert (∀ y, y ∈ l → sl_OperationKey y ≠ sl_OperationKey x ∧ m !! sl_OperationKey y = None) as Ne.
    { intros y Hy. destruct (proj1 (Forall_forall _ _) F y Hy) as [_ Ny].
      destruct (decide (sl_OperationKey x = sl_OperationKey y)) as [E|E]; [by rewrite E, lookup_insert_eq in Ny|].
      by rewrite lookup_insert_ne in Ny. }
    split_and!.
    + intros f. rewrite S, sum_over_fresh by done. unfold list_total. simpl. lia.
    + intros k r. rewrite L. split.
      * intros [[[<- <-]|[_ ?]]%lookup_insert_Some|(y & Hy & E)]; [right; exists x; set_solver|by left|right; exists y; set_solver].
      * intros [Lk|(y & [->|Hy]%elem_of_cons & -> & ->)]; [left..|right; by exists y].
        -- rewrite lookup_insert_ne; [done|congruence].
        -- by rewrite lookup_insert_eq.
    + constructor; [split; [lia|done]|]. apply Forall_forall. intros y Hy. split; [|by apply Ne].
      by apply (proj1 (Forall_forall _ _) F y Hy).
    + simpl. constructor; [|done]. intros (y & E & Hy)%list_elem_of_fmap. by destruct (Ne y Hy).
Qed.

(** Slices cover what is asked, newest funding first, within what each intent owes. *)
Lemma take_slices_Ok key cur l : ∀ n slices rest, 0 ≤ n → take_slices key cur n l = (slices, rest) →
  rest = Z.max 0 (n - list_total (λ x, Z.max 0 x.2) l) ∧ list_total sl_Cents slices = n - rest ∧
  (∀ x, x ∈ slices → ∃ v, (sl_PaymentIntent x, v) ∈ l ∧ 0 < sl_Cents x ≤ v ∧ sl_Currency x = cur ∧ sl_Status x = "pending" ∧
     sl_RefundID x = "" ∧ sl_OperationKey x = key +:+ "-" +:+ sl_PaymentIntent x) ∧
  (NoDup l.*1 → NoDup (sl_PaymentIntent <$> slices)).
Proof.
  induction l as [|[pi v] l IH]; intros n slices rest N H.
  - simpl in H. injection H as <- <-. unfold list_total. simpl. split_and!; [lia|lia| |by constructor].
    intros x Hx. by apply elem_of_nil in Hx.
  - simpl in H.
    assert (0 ≤ list_total (λ x, Z.max 0 x.2) l) as Nl by (apply list_total_nonneg; intros; lia).
    change (list_total (λ x, Z.max 0 x.2) ((pi, v) :: l)) with (Z.max 0 v + list_total (λ x, Z.max 0 x.2) l).
    destruct ((n <=? 0) || (v <=? 0)) eqn:C.
    + apply IH in H as (R & T & E & D); [|done]. split_and!; [|done| |].
      * apply orb_true_iff in C as [C|C]; apply Z.leb_le in C; lia.
      * intros x Hx. destruct (E x Hx) as (w & Hw & X). exists w. split; [by right|done].
      * intros ND. apply D. by inversion ND.
    + apply orb_false_iff in C as [C1 C2]. apply Z.leb_gt in C1, C2.
      set (tk := if n <? v then n else v) in *.
      assert (tk = Z.min n v) as Tk by (unfold tk; destruct (n <? v) eqn:X; [apply Z.ltb_lt in X|apply Z.ltb_ge in X]; lia).
      clearbody tk. destruct (take_slices key cur (n - tk) l) as [sl rs] eqn:Q. injection H as <- <-.
      apply IH in Q as (R & T & E & D); [|lia]. split_and!.
      * lia.
      * unfold list_total in *. simpl. lia.
      * intros x [->|Hx]%elem_of_cons; [exists v; simpl; split_and!; [by left|lia|lia|done..]|].
        destruct (E x Hx) as (w & Hw & X). exists w. split; [by right|done].
      * intros ND. inversion ND as [|? ? N1 N2]; subst. rewrite fmap_cons. simpl. constructor; [|by apply D].
        intros (x & -> & Hx)%list_elem_of_fmap. apply N1. destruct (E x Hx) as (w & Hw & _).
        apply list_elem_of_fmap. by exists (sl_PaymentIntent x, w).
Qed.

Lemma NoDup_omap_inj {A B} (f : A → option B) l :
  (∀ x y z, x ∈ l → y ∈ l → f x = Some z → f y = Some z → x = y) → NoDup l → NoDup (omap f l).
Proof.
  induction l as [|x l IH]; intros I N; [constructor|]. inversion N as [|? ? N1 N2]; subst. simpl.
  assert (NoDup (omap f l)) as NL. { apply IH; [|done]. intros a b z Ha Hb. apply I; by right. }
  destruct (f x) as [z|] eqn:E; [|done]. constructor; [|done].
  intros (y & Hy & Ey)%list_elem_of_omap. assert (x = y) as <-; [|done]. apply (I x y z); [left|by right|done..].
Qed.

(** *** Slices move on *)

Lemma refund_ok_status s s' r status stripe :
  status ∈ ["pending"; "succeeded"; "failed"] → topups s' = topups s → cd_admin s' = cd_admin s →
  refund_ok s r → refund_ok s' (set_refund r status stripe).
Proof. intros E T A [P G So Lg]. split; simpl; [done|done|by rewrite T|by rewrite A]. Qed.

(** A live slice stays live. *)
Lemma cards_ok_live s k r status stripe :
  cards_ok s → refunds s !! k = Some r → rf_status r ∈ ["pending"; "succeeded"] → status ∈ ["pending"; "succeeded"] →
  cards_ok (with_refunds s (<[k := set_refund r status stripe]> (refunds s))).
Proof.
  intros O L G E.
  assert (∀ f, f k (set_refund r status stripe) = f k r → sum_over f (<[k := set_refund r status stripe]> (refunds s)) = sum_over f (refunds s)) as Su.
  { intros f Ef. rewrite sum_over_insert, L. simpl. lia. }
  assert (one_of status ["pending"; "succeeded"] = true ∧ one_of (rf_status r) ["pending"; "succeeded"] = true) as [G1 G2]
    by (split; by apply one_of_spec).
  split; simpl; [apply (ck_purse _ O)| |apply (ck_topups _ O)|apply (ck_intents _ O)|apply (ck_topup_rows _ O)| |apply (ck_refund_rows _ O)|..].
  - intros b c. rewrite (ck_books _ O). unfold paid_in, paid_back. simpl. rewrite Su; [done|]. unfold counts_back. simpl. by rewrite G1, G2.
  - intros k' r' [[_ <-]|[_ L']]%lookup_insert_Some.
    + eapply (refund_ok_status s); [set_solver|done|done|by apply (ck_refunds _ O k)].
    + eapply (refund_ok_grow s _ _ []); [done|by rewrite app_nil_r|by apply (ck_refunds _ O k')].
  - intros r0 rf Hr K P. destruct (ck_returns _ O r0 rf Hr K P) as (x & Lx & F). exists x. split; [|done].
    rewrite lookup_insert_ne; [done|]. intros <-. rewrite L in Lx. injection Lx as <-. rewrite F in G. set_solver.
  - intros k' t pi L' I. unfold refunded_from. simpl. rewrite Su; [by apply (ck_bound _ O k')|].
    unfold live_refund. simpl. by rewrite G1, G2.
Qed.

Lemma bind_refund_ok s key pi re s' : cards_ok s → RecordPrepaidRefundProviderID s key pi re = Ok s' → cards_ok s'.
Proof.
  intros O H. unfold RecordPrepaidRefundProviderID in H. cbv zeta in H. apply refuse_Ok in H as [_ H].
  destruct (refunds s !! _) as [r|] eqn:L; [|done]. destruct (_ && unbound_or _ r) eqn:C.
  - apply refuse_Ok in H as [_ H]. injection H as <-. reflect_bools. apply cards_ok_live; [done|done|set_solver..].
  - apply refuse_Ok in H as [_ H]. by injection H as <-.
Qed.

Lemma complete_ok slices : ∀ s r s', cards_ok s → CompletePrepaidRefund s slices = (s', r) → cards_ok s'.
Proof.
  induction slices as [|x l IH]; intros s r s' O H; cbn [CompletePrepaidRefund] in H; [by injection H as <- _|].
  destruct (negb _); [by injection H as <- _|]. destruct (refunds s !! _) as [y|] eqn:L; [|by injection H as <- _].
  destruct (_ && unbound_or _ y) eqn:C.
  - destruct (refund_id_taken _ _ _); [by injection H as <- _|]. eapply IH; [|done]. reflect_bools.
    apply cards_ok_live; [done|done|set_solver..].
  - destruct (_ || _); [by injection H as <- _|by eapply IH].
Qed.

(** A failed slice is put back: one row, the balance, and the intent owes it again. *)
Lemma fail_Ok st s x s' :
  FailPrepaidRefund st s x = Ok s' →
  let k := trim_space (sl_OperationKey x) in ∃ r, refunds s !! k = Some r ∧
    (rf_status r = "failed" ∧ s' = s ∨
     rf_status r = "pending" ∧ ∃ cur micros n d p, ParseCurrency (rf_currency r) = Ok cur ∧ MinorToMicros cur (rf_cents r) = Ok micros ∧
       insertLedgerEntryIfAbsentByRefTx st (purse_books (cd_purse s))
         (mkLedgerInsert KindPrepaidBalanceReturn None (Some (rf_buyer r)) None None micros (rf_currency r)
            ledgerCurrencyAuthorityPrepaid "" PayoutReleased None (failurePrefix +:+ k) "" "" "") = Ok (n, d) ∧
       (if n =? 1 then creditPrepaidBalanceTx (with_purse_books (cd_purse s) d) (rf_buyer r) micros (rf_currency r)
        else Ok (with_purse_books (cd_purse s) d)) = Ok p ∧
       s' = with_refunds (with_money s p) (<[k := set_refund r "failed" (rf_stripe r)]> (refunds s))).
Proof.
  intros H k. unfold FailPrepaidRefund in H. cbv zeta in H. fold k in H. apply refuse_Ok in H as [_ H].
  destruct (refunds s !! k) as [r|] eqn:L; [|done]. exists r. split; [done|].
  destruct (bool_decide (rf_status r = "failed")) eqn:F.
  - left. apply refuse_Ok in H as [_ H]. injection H as <-. by apply bool_decide_eq_true in F.
  - right. apply refuse_Ok in H as [_ H]. apply refuse_Ok in H as [Pe H]. apply orb_false_iff in Pe as [Pe _].
    apply negb_false_iff, bool_decide_eq_true in Pe. split; [done|].
    apply bind_Ok in H as (cur & P & H). apply bind_Ok in H as (micros & M & H). apply bind_Ok in H as ([n d] & I & H).
    apply bind_Ok in H as (p & B & H). apply refuse_Ok in H as [_ H]. injection H as <-.
    exists cur, micros, n, d, p. split_and!; try done. rewrite <-I. unfold prepaidRefundFailureRef. unfold k. by rewrite trim_space_idem.
Qed.

Lemma cards_ok_fail st s x s' :
  cards_ok s → FailPrepaidRefund st s x = Ok s' →
  let k := trim_space (sl_OperationKey x) in
  cards_ok s' ∧ ∃ r, refunds s !! k = Some r ∧
    (rf_status r = "failed" ∧ s' = s ∨
     rf_status r = "pending" ∧ refunds s' = <[k := set_refund r "failed" (rf_stripe r)]> (refunds s) ∧
     ∀ b c, balance_of (cd_purse s') b c =
       balance_of (cd_purse s) b c + if decide (rf_buyer r = b ∧ rf_currency r = c) then rf_cents r * per_minor c else 0).
Proof.
  intros O H k. apply fail_Ok in H as (r & L & [[F ->]|(Pe & cur & micros & n & d & p & P & M & I & B & ->)]); fold k in L |- *.
  { split; [done|]. exists r. eauto. }
  destruct (ck_refunds _ O k r L) as [Pos _ So Lg].
  assert (rf_currency r ∈ supported) as Sup.
  { destruct So as (k' & t & pi & Lt & _ & _ & _ & <-). by destruct (ck_topups _ O k' t Lt). }
  pose proof (supported_code _ _ Sup P) as Ec. apply minor_micros in M; [|done]. rewrite Ec in M.
  apply insert_by_ref_Ok in I as [_ [(_ & _ & r0 & Hr & K & R)|(-> & _ & row & -> & [Wk Wa Wb _ Wr Wc] & _)]]; simpl in *.
  { exfalso. destruct (ck_returns _ O r0 k Hr K R) as (y & Ly & F). rewrite L in Ly. injection Ly as <-. by rewrite Pe in F. }
  assert (row_currency row = rf_currency r) as Wc' by (rewrite <-Ec; by apply Wc).
  assert (payout_ref row = Some (failurePrefix +:+ k)) as Wr' by done. clear Wc Wr.
  apply (credit_Ok _ _ _ _ cur) in B as [-> Nn]; [|done]. rewrite Ec in *. rewrite balance_books in *.
  assert (card_row row = true) as Cr.
  { unfold card_row, is_failure_ref, has_prefix. by rewrite Wk, Wr', (proj2 (strip_prefix_app _ _ k)). }
  set (r' := set_refund r "failed" (rf_stripe r)).
  assert (∀ f, sum_over f (<[k := r']> (refunds s)) = sum_over f (refunds s) - f k r + f k r') as Su.
  { intros f. by rewrite sum_over_insert, L. }
  split.
  2: { exists r. split; [done|]. right. split_and!; [done|done|]. intros b c. change (cd_purse _) with
         (with_purse_books (set_balance (cd_purse s) (rf_buyer r) (rf_currency r) (balance_of (cd_purse s) (rf_buyer r) (rf_currency r) + micros))
            (with_ledger (purse_books (cd_purse s)) (ledger (purse_books (cd_purse s)) ++ [row]))) at 1.
       rewrite balance_books, balance_set. case_decide as D; [|lia]. destruct D as [<- <-]. lia. }
  split; simpl; [| |apply (ck_topups _ O)|apply (ck_intents _ O)|..].
  - apply (purse_ok_snoc (cd_purse s) (rf_buyer r) (rf_currency r) row
      (balance_of (cd_purse s) (rf_buyer r) (rf_currency r) + micros));
      [apply (ck_purse _ O)|by apply card_row_kind|done|done|by rewrite Wa|done].
  - intros b c. rewrite card_sum_snoc, (ck_books _ O), Cr, Wb, Wc', Wa. unfold paid_in, paid_back. simpl. rewrite Su.
    unfold counts_back at 3 4. simpl. rewrite Pe, andb_false_r. simpl. rewrite andb_true_r.
    rewrite (bool_decide_ext (Some (rf_buyer r) = Some b) (rf_buyer r = b)) by (split; congruence).
    destruct (bool_decide (rf_buyer r = b) && bool_decide (rf_currency r = c)) eqn:D; [|lia]. reflect_bools. subst. lia.
  - intros r0 [Hr|Hr%list_elem_of_singleton]%elem_of_app K; [by apply (ck_topup_rows _ O)|]. subst r0. by rewrite Wk in K.
  - intros k' y [[_ <-]|[_ L']]%lookup_insert_Some.
    + eapply (refund_ok_status s); [set_solver|done|done|by apply (ck_refunds _ O k)].
    + eapply (refund_ok_grow s _ _ []); [done|by rewrite app_nil_r|by apply (ck_refunds _ O k')].
  - intros r0 [Hr|Hr%list_elem_of_singleton]%elem_of_app K; [by apply (ck_refund_rows _ O)|]. subst r0. by rewrite Wk in K.
  - intros r0 rf [Hr|Hr%list_elem_of_singleton]%elem_of_app K E.
    + destruct (ck_returns _ O r0 rf Hr K E) as (y & Ly & F). destruct (decide (k = rf)) as [<-|D].
      * exists r'. by rewrite lookup_insert_eq.
      * exists y. by rewrite lookup_insert_ne.
    + subst r0. rewrite Wr' in E. apply (inj Some) in E. apply string_app_inj_length in E as [_ <-]; [|done].
      exists r'. by rewrite lookup_insert_eq.
  - intros k' t pi L' It. pose proof (ck_bound _ O k' t pi L' It) as Bd. unfold refunded_from in *. simpl. rewrite Su.
    unfold live_refund at 2 3. simpl. rewrite andb_false_r. destruct (_ && _); lia.
Qed.

(** *** Refunding *)

Section Refund.
Context (st : settlement).
Context (collate : string → string → bool).
Context (marshal : adminMutationIntent → res string).

Lemma refundable_spec s b c pi v :
  (pi, v) ∈ refundable_intents collate s b c →
  ∃ k t, topups s !! k = Some t ∧ tu_buyer t = b ∧ tu_currency t = c ∧ tu_status t = "succeeded" ∧ tu_intent t = Some pi ∧
    v = tu_cents t - refunded_from s pi c.
Proof using.
  unfold refundable_intents. intros ([k t] & Hx & E)%list_elem_of_omap. rewrite merge_sort_Permutation in Hx.
  apply list_elem_of_filter in Hx as [F Hx]. apply elem_of_map_to_list in Hx. simpl in *. unfold settled in F. reflect_bools.
  destruct (tu_intent t) as [q|] eqn:I; [|done]. simpl in E. injection E as <- <-. subst. exists k, t. done.
Qed.

Lemma refundable_NoDup s b c : cards_ok s → NoDup (refundable_intents collate s b c).*1.
Proof using.
  intros O. unfold refundable_intents. rewrite list_fmap_omap. apply NoDup_omap_inj.
  - intros [k t] [k' t'] pi Hx Hy. rewrite merge_sort_Permutation in Hx, Hy.
    apply list_elem_of_filter in Hx as [_ Hx]. apply list_elem_of_filter in Hy as [_ Hy].
    apply elem_of_map_to_list in Hx, Hy. simpl. intros E E'.
    destruct (tu_intent t) as [q|] eqn:I; [|done]. destruct (tu_intent t') as [q'|] eqn:I'; [|done].
    simpl in E, E'. injection E as <-. injection E' as <-.
    assert (k = k') as <- by (by eapply (ck_intents _ O)). congruence.
  - rewrite merge_sort_Permutation. apply NoDup_filter, NoDup_map_to_list.
Qed.

(** A planned refund: each slice within what its intent still owes, all of it covered. *)
Record planned (s : cards) (key : string) (b : UUID) (c : string) (n : Z) (l : list prepaidRefundSlice) : Prop := {
  pn_total : list_total sl_Cents l = n;
  pn_slices : ∀ x, x ∈ l → 0 < sl_Cents x ∧ sl_Currency x = c ∧ sl_Status x = "pending" ∧ sl_RefundID x = "" ∧
    sl_OperationKey x = key +:+ "-" +:+ sl_PaymentIntent x ∧
    ∃ k t, topups s !! k = Some t ∧ tu_buyer t = b ∧ tu_currency t = c ∧ tu_intent t = Some (sl_PaymentIntent x) ∧
      sl_Cents x ≤ tu_cents t - refunded_from s (sl_PaymentIntent x) c;
  pn_distinct : NoDup (sl_PaymentIntent <$> l)
}.

Lemma plan_Ok s key b c n l :
  cards_ok s → 0 ≤ n → planPrepaidRefundSlicesTx collate s key b c n = Ok l → planned s key b c n l.
Proof using.
  intros O N H. unfold planPrepaidRefundSlicesTx in H. cbv zeta in H. apply refuse_Ok in H as [_ H].
  destruct (take_slices _ _ _ _) as [sl rest] eqn:T. apply refuse_Ok in H as [R H]. injection H as <-.
  apply Z.ltb_ge in R. apply take_slices_Ok in T as (Er & Et & Ex & Ed); [|done].
  split; [lia| |by apply Ed, refundable_NoDup].
  intros x Hx. destruct (Ex x Hx) as (v & Hv & P & Cu & Stt & Id & Ok'). split_and!; try done; [lia|].
  apply refundable_spec in Hv as (k & t & L & B & C & S & I & ->). exists k, t. split_and!; try done. lia.
Qed.

(** At most one slice is of an intent. *)
Lemma planned_intent s key b c n l pi f :
  planned s key b c n l → (∀ x, f x = if bool_decide (sl_PaymentIntent x = pi) then sl_Cents x else 0) →
  list_total f l = 0 ∨ ∃ x, x ∈ l ∧ sl_PaymentIntent x = pi ∧ list_total f l = sl_Cents x.
Proof using.
  intros [_ _ ND] F. induction l as [|x l IH]; [by left|]. rewrite fmap_cons in ND. inversion ND as [|? ? N1 N2]; subst.
  change (list_total f (x :: l)) with (f x + list_total f l). rewrite F. case_bool_decide as D.
  - right. exists x. split_and!; [left|done|]. rewrite (list_total_ext f (λ _, 0)).
    + rewrite list_total_zero. lia.
    + intros y Hy. rewrite F, bool_decide_false; [done|]. intros E. apply N1. rewrite D, <-E. by apply list_elem_of_fmap_2.
  - destruct (IH N2) as [->|(y & Hy & Ey & ->)]; [by left|]. right. exists y. split_and!; [by right|done|lia].
Qed.

Lemma refund_key_inj b ref b' ref' :
  prepaidRefundOperationKey b ref = prepaidRefundOperationKey b' ref' → trim_space ref = trim_space ref'.
Proof using.
  unfold prepaidRefundOperationKey. intros [_ E]%string_app_inj_length; [|done].
  apply string_app_inj_length in E as [_ E]; [|by rewrite !uuid_String_length].
  by apply string_app_inj_length in E as [_ E].
Qed.

Lemma acquire_None t actor i :
  acquireAdminMutationReplay marshal t actor i = Ok None →
  existsb (by_request (in_Kind (normalized i)) (in_CorrelationRef (normalized i))) (admin_actions t) = false.
Proof using.
  unfold acquireAdminMutationReplay. cbv zeta. intros (dg & _ & H)%bind_Ok. destruct (List.find _ _) eqn:F.
  - by apply refuse_Ok in H as [_ H].
  - apply not_true_iff_false. intros (a & Ha & B)%existsb_exists. by rewrite (List.find_none _ _ F a Ha) in B.
Qed.

(** The operator's request for a refund. *)
Definition refund_intent (b : UUID) (reason ref : string) : adminMutationIntent :=
  normalized (mkIntent 0 "prepaid_refunded" "buyer" b reason ref None "").

Lemma prepare_Ok actor i j : prepareAdminMutation marshal actor i = Ok j → j = normalized i.
Proof using. unfold prepareAdminMutation. intros ([] & _ & H)%bind_Ok. cbv zeta in H. apply bind_Ok in H as (dg & _ & H). by injection H as <-. Qed.

(** A call is a replay, or a first refund. *)
Lemma refund_Ok s actor b reason ref now plan s' :
  BeginPrepaidRefund st collate marshal s actor b reason ref now = Ok (plan, s') →
  let i := refund_intent b reason ref in let key := prepaidRefundOperationKey b ref in
  pl_OperationKey plan = key ∧
  ((∃ x, acquireAdminMutationReplay marshal (cd_admin s) actor i = Ok (Some x)) ∧ pl_Replayed plan = true ∧ s' = s ∧
     prepaidRefundSlicesTx collate s key = Ok (pl_Slices plan, pl_Cents plan, pl_Currency plan) ∨
   acquireAdminMutationReplay marshal (cd_admin s) actor i = Ok None ∧ pl_Replayed plan = false ∧
   ∃ cur reserved hold f micros p d x rs admin before after,
     SettlementCurrency st = Ok cur ∧ pl_Currency plan = code cur ∧
     prepaidOpenReservationMicrosInCurrency (cd_funds s) b (code cur) = Ok reserved ∧
     executing_hold (cd_funds s) b (code cur) = Ok hold ∧ MicrosPerMinorUnit cur = Ok f ∧
     0 < (balance_of (cd_purse s) b (code cur) -w reserved) -w hold ∧
     pl_Cents plan = ((balance_of (cd_purse s) b (code cur) -w reserved) -w hold) /t f ∧ 0 < pl_Cents plan ∧
     MinorToMicros cur (pl_Cents plan) = Ok micros ∧
     planPrepaidRefundSlicesTx collate s key b (code cur) (pl_Cents plan) = Ok (pl_Slices plan) ∧
     take_balance (cd_purse s) b (code cur) micros = Ok p ∧
     insertLedgerEntryIfAbsentByRefTx st (purse_books p) (prepaid_entry KindPrepaidRefund b None (- micros) cur key) = Ok (x, d) ∧
     insert_slices (refunds s) key b (code cur) now (pl_Slices plan) = Ok rs ∧
     insertAdminMutationAction marshal (cd_admin s) actor i None None None (Some before) (Some after) = Ok admin ∧
     s' = with_admin (with_refunds (with_money s (with_purse_books p d)) rs) admin).
Proof using.
  intros H i key. unfold BeginPrepaidRefund in H. apply bind_Ok in H as (i' & Pr & H). apply prepare_Ok in Pr. fold (refund_intent b reason ref) in Pr.
  fold i in Pr. subst i'. cbv zeta in H.
  assert (prepaidRefundOperationKey b (in_CorrelationRef i) = key) as K.
  { unfold i, key, refund_intent, prepaidRefundOperationKey. simpl. by rewrite trim_space_idem. }
  rewrite K in H. clear K. apply bind_Ok in H as ([] & _ & H). apply bind_Ok in H as (rp & A & H). destruct rp as [x|].
  - apply bind_Ok in H as ([[sl n] c] & R & H). injection H as <- <-. split; [done|]. left. by eauto.
  - apply bind_Ok in H as (cur & S & H). apply refuse_Ok in H as [_ H]. apply bind_Ok in H as (reserved & Rs & H).
    apply bind_Ok in H as (hold & Ho & H). apply refuse_Ok in H as [Av H]. apply bind_Ok in H as (f & F & H).
    apply refuse_Ok in H as [Ce H]. apply bind_Ok in H as (micros & M & H). apply bind_Ok in H as (sl & Pl & H).
    apply bind_Ok in H as (p & T & H). apply bind_Ok in H as ([x d] & I & H). apply bind_Ok in H as (rs & Is & H).
    apply bind_Ok in H as (admin & Ad & H). injection H as <- <-. apply Z.leb_gt in Av, Ce. split; [done|]. right.
    split_and!; [done..|]. do 12 eexists. split_and!; try done.
Qed.

Lemma logged_by s actor b reason ref be af admin :
  insertAdminMutationAction marshal (cd_admin s) actor (refund_intent b reason ref) None None None (Some be) (Some af) = Ok admin →
  (∃ a, admin_actions admin = admin_actions (cd_admin s) ++ [a]) ∧ refund_logged admin (trim_space ref).
Proof using.
  intros (a & ? & ? & ? & _ & _ & _ & -> & K & R & _)%insert_action_Ok. unfold refund_intent in K, R. rewrite normalized_idem in K, R.
  simpl in *. change (trim_space "prepaid_refunded") with "prepaid_refunded" in K. split; [by exists a|]. split; [apply trim_space_idem|]. simpl. rewrite existsb_app. simpl. unfold by_request at 2.
  rewrite K, R, !bool_decide_true by done. by rewrite orb_true_r.
Qed.

Lemma slice_totals key b c now l b' c' :
  list_total (λ x, counts_back b' c' (slice_row key b c now x)) l = if decide (b = b' ∧ c = c') then list_total sl_Cents l else 0.
Proof using.
  induction l as [|x l IH]; [by case_decide|].
  change (list_total ?f (x :: l)) with (f x + list_total f l). rewrite IH. unfold counts_back. simpl. case_decide as D.
  - destruct D as [-> ->]. by rewrite !bool_decide_true.
  - assert (bool_decide (b = b') && bool_decide (c = c') = false) as ->; [|done].
    apply not_true_iff_false. intros E. reflect_bools. by apply D.
Qed.

Lemma key_trim b ref : prepaidRefundOperationKey b (trim_space ref) = prepaidRefundOperationKey b ref.
Proof using. unfold prepaidRefundOperationKey. by rewrite trim_space_idem. Qed.

(** A reference that the log does not hold has no row. *)
Lemma refund_ref_fresh s actor b reason ref :
  cards_ok s → acquireAdminMutationReplay marshal (cd_admin s) actor (refund_intent b reason ref) = Ok None →
  ∀ r, r ∈ ledger (purse_books (cd_purse s)) → kind r = KindPrepaidRefund → payout_ref r ≠ Some (prepaidRefundOperationKey b ref).
Proof using.
  intros O Ac r Hr K R. destruct (ck_refund_rows _ O r Hr K) as (b' & ref' & E & Tr & Lg).
  rewrite R in E. apply (inj Some), refund_key_inj in E. apply acquire_None in Ac. unfold refund_intent in Ac.
  rewrite normalized_idem in Ac. simpl in Ac. rewrite E, Tr in Ac.
  change (trim_space "prepaid_refunded") with "prepaid_refunded" in Ac. by rewrite Lg in Ac.
Qed.

Lemma cards_ok_refund s actor b reason ref now plan s' :
  cards_ok s → BeginPrepaidRefund st collate marshal s actor b reason ref now = Ok (plan, s') → cards_ok s'.
Proof using.
  intros O (Ek & [(_ & _ & -> & _)|(Ac & _ & cur & reserved & hold & f & micros & p & d & x & rs & admin & be & af & S & Ec & _ & _ &
    _ & _ & _ & Pos & M & Pl & T & I & Is & Ad & ->)])%refund_Ok; [done|].
  set (key := prepaidRefundOperationKey b ref) in *. clear Ek. pose proof (plan_Ok _ _ _ _ _ _ O (Z.lt_le_incl _ _ Pos) Pl) as Q. clear Pl.
  assert (Currency_Valid cur = true) as V by (by apply settlement_code in S as [_ ?]; eauto with go).
  apply minor_micros in M; [|done]. unfold take_balance in T. apply refuse_Ok in T as [Le T]. apply Z.ltb_ge in Le. injection T as <-.
  destruct (card_row_written _ _ _ _ _ _ _ _ _ V I) as (-> & r & -> & Rk & Ra & Rb & Rc & Rr).
  { by eapply refund_ref_fresh. }
  clear I. destruct (logged_by _ _ _ _ _ _ _ _ Ad) as [(a & Aa) Lg].
  apply insert_slices_Ok in Is as (Su & Lk & _ & _). simpl in Su, Lk.
  assert (card_row r = true) as Cr by (unfold card_row; by rewrite Rk).
  split; simpl.
  - apply purse_ok_snoc; [apply (ck_purse _ O)|by apply card_row_kind|done|done|by rewrite Ra|lia].
  - intros b' c'. rewrite card_sum_snoc, (ck_books _ O), Cr, Rb, Rc, Ra. unfold paid_in, paid_back. simpl.
    rewrite Su, slice_totals, (pn_total _ _ _ _ _ _ Q). rewrite (bool_decide_ext (Some b = Some b') (b = b')) by naive_solver.
    destruct (decide (b = b' ∧ code cur = c')) as [[<- <-]|D]; [rewrite !bool_decide_true by done; simpl; lia|].
    assert (bool_decide (b = b') && bool_decide (code cur = c') = false) as E; [|simpl; rewrite E; lia].
    apply not_true_iff_false. intros E. reflect_bools. naive_solver.
  - apply (ck_topups _ O).
  - apply (ck_intents _ O).
  - intros r0 [Hr|Hr%list_elem_of_singleton]%elem_of_app K; [by apply (ck_topup_rows _ O)|]. subst r0. by rewrite Rk in K.
  - intros k r0 [L|(y & Hy & -> & ->)]%Lk.
    + eapply (refund_ok_grow s _ _ [a]); [done|done|by apply (ck_refunds _ O k)].
    + destruct (pn_slices _ _ _ _ _ _ Q y Hy) as (Py & _ & _ & _ & _ & k' & t & Lt & Tb & Tc & Ti & _).
      split; simpl; [done|set_solver| |].
      * exists k', t, (sl_PaymentIntent y). done.
      * exists b, (trim_space ref). by rewrite key_trim.
  - intros r0 [Hr|Hr%list_elem_of_singleton]%elem_of_app K.
    + destruct (ck_refund_rows _ O r0 Hr K) as (b' & ref' & E & L). exists b', ref'. split; [done|]. by eapply refund_logged_grow.
    + subst r0. exists b, (trim_space ref). by rewrite key_trim.
  - intros r0 rf [Hr|Hr%list_elem_of_singleton]%elem_of_app K E; [|subst r0; by rewrite Rk in K].
    destruct (ck_returns _ O r0 rf Hr K E) as (y & L & F). exists y. split; [|done]. apply Lk. by left.
  - intros k t pi L It. pose proof (ck_bound _ O k t pi L It) as B. unfold refunded_from in *. simpl. rewrite Su.
    destruct (decide (tu_currency t = code cur)) as [E|E].
    + destruct (planned_intent _ _ _ _ _ _ pi (λ y, if live_refund pi (tu_currency t) (slice_row key b (code cur) now y)
        then rf_cents (slice_row key b (code cur) now y) else 0) Q) as [->|(y & Hy & Ey & ->)].
      * intros y. unfold live_refund. simpl. rewrite (bool_decide_true (code cur = tu_currency t)) by done.
        rewrite (bool_decide_ext (Some (sl_PaymentIntent y) = Some pi) (sl_PaymentIntent y = pi)) by naive_solver.
        by rewrite !andb_true_r.
      * lia.
      * destruct (pn_slices _ _ _ _ _ _ Q y Hy) as (_ & _ & _ & _ & _ & k' & t' & Lt & Tb & Tc & Ti & Bd).
        rewrite Ey in *. assert (k' = k) as -> by (by eapply (ck_intents _ O)). unfold refunded_from in Bd.
        assert (t' = t) as -> by congruence. rewrite E in *. lia.
    + rewrite (list_total_ext _ (λ _, 0)).
      * rewrite list_total_zero. lia.
      * intros y _. unfold live_refund. simpl. by rewrite (bool_decide_false (code cur = tu_currency t)), andb_false_r.
Qed.

(** ** Every history *)

Lemma spent_not_card r : spent_row r → card_row r = false.
Proof using.
  clear. intros [K R]. unfold card_row. rewrite !elem_of_cons in K.
  destruct K as [K|[K|[K|K]]]; [by rewrite K..| |by apply elem_of_nil in K]. rewrite K. simpl.
  unfold is_failure_ref. destruct (payout_ref r) as [ref|]; [|done]. destruct (R ref eq_refl K) as [j ->]. done.
Qed.

Lemma spend_ok s p : cards_ok s → honest (cd_purse s) p → cards_ok (with_money s p).
Proof using.
  clear. intros O [P (rs & E & F)]. eapply (cards_ok_quiet s _ rs []); [done|done|by apply P, (ck_purse _ O)| | |by rewrite app_nil_r|done].
  - change (cd_purse (with_money s p)) with p. by rewrite E.
  - eapply Forall_impl; [exact F|]. apply spent_not_card.
Qed.

Lemma other_ok s s' : cards_ok s → unrelated s s' → cards_ok s'.
Proof using.
  clear. intros O (T & R & B & (rs & L & F) & rest & A). eapply (cards_ok_quiet s _ rs rest); [done|done| |done| |done|done].
  - destruct (ck_purse _ O) as [X S]. assert (∀ b c, balance_of (cd_purse s') b c = balance_of (cd_purse s) b c) as Eb.
    { intros b c. unfold balance_of. by rewrite B. }
    split; intros b c; rewrite Eb; [|apply S]. rewrite X, L. unfold prepaid_sum. rewrite sum_micros_app, (sum_micros_none _ rs); [lia|].
    intros r Hr. rewrite (proj1 (not_true_iff_false (one_of (kind r) prepaid_kinds))); [done|]. rewrite one_of_spec.
    by apply (proj1 (Forall_forall _ _) F).
  - eapply Forall_impl; [exact F|]. intros r K. simpl in K. destruct (card_row r) eqn:E; [|done]. by apply card_row_kind in E.
Qed.

Lemma card_step_ok s s' : cards_ok s → card_step st collate marshal s s' → cards_ok s'.
Proof using.
  intros O [key b n arm s1 W H|key b charge now s1 W H|actor b reason ref now plan s1 H|key pi re s1 H|x s1 H|l r s1 H|p H|s1 H].
  - by eapply arm_ok.
  - by eapply credit_ok.
  - by eapply cards_ok_refund.
  - by eapply bind_refund_ok.
  - by apply (cards_ok_fail _ _ _ _ O) in H as [? _].
  - by eapply complete_ok.
  - by apply spend_ok.
  - by eapply other_ok.
Qed.

(** Before the first card operation. *)
Record opening (s : cards) : Prop := {
  op_topups : topups s = ∅;
  op_refunds : refunds s = ∅;
  op_purse : purse_ok (cd_purse s);
  op_ledger : Forall (λ r, card_row r = false) (ledger (purse_books (cd_purse s)))
}.

Lemma opening_ok s : opening s → cards_ok s.
Proof using.
  clear. intros [T R P L].
  assert (∀ r, r ∈ ledger (purse_books (cd_purse s)) → card_row r = true → False) as N.
  { intros r Hr E. by rewrite (proj1 (Forall_forall _ _) L r Hr) in E. }
  split; [done|..].
  - intros b c. unfold paid_in, paid_back. rewrite T, R, !sum_over_empty. rewrite <-(app_nil_l (ledger _)), card_sum_quiet by done.
    unfold card_sum. change (sum_micros _ []) with 0. lia.
  - rewrite T. done.
  - rewrite T. done.
  - intros r Hr K. destruct (N r Hr). unfold card_row. by rewrite K.
  - rewrite R. done.
  - intros r Hr K. destruct (N r Hr). unfold card_row. by rewrite K.
  - intros r ref Hr K E. destruct (N r Hr). unfold card_row, is_failure_ref, has_prefix.
    by rewrite K, E, (proj2 (strip_prefix_app _ _ ref)).
  - rewrite T. done.
Qed.

Lemma cards_reachable_ok s s' : cards_ok s → rtc (card_step st collate marshal) s s' → cards_ok s'.
Proof using. intros O H. induction H as [|s s1 s2 H _ IH]; [done|]. by apply IH, (card_step_ok s). Qed.

(** C4: the balance reconciles to the cash.  Over any history of top-ups, refunds, provider
    answers, spending and other work, the balance of a buyer in a currency is what
    their card paid in less what was paid back, in the currency's micro-units, less
    what they spent; it is never negative; and no payment intent is refunded, or being
    refunded, for more than it collected. *)
Theorem cards_reconcile s0 s b c :
  opening s0 → rtc (card_step st collate marshal) s0 s →
  balance_of (cd_purse s) b c =
    per_minor c * (paid_in s b c - paid_back s b c) - net_spend b c (ledger (purse_books (cd_purse s))) ∧
  0 ≤ balance_of (cd_purse s) b c ∧
  ∀ k t pi, topups s !! k = Some t → tu_intent t = Some pi →
    tu_status t = "succeeded" ∧ 0 ≤ refunded_from s pi (tu_currency t) ≤ tu_cents t.
Proof using.
  intros O H. pose proof (cards_reachable_ok _ _ (opening_ok _ O) H) as K. destruct (ck_purse _ K) as [X S]. split_and!.
  - rewrite X, prepaid_sum_cards, (ck_books _ K). lia.
  - apply S.
  - intros k t pi L I. split_and!.
    + destruct (ck_topups _ K k t L) as [_ _ [[_ E]|[E _]]]; [congruence|done].
    + unfold refunded_from. apply sum_over_nonneg. intros i r Lr. destruct (ck_refunds _ K i r Lr) as [P _ _ _]. destruct (live_refund _ _ _); lia.
    + by apply (ck_bound _ K k).
Qed.

(** ** The free cash can always be refunded *)

(** What one refund takes from one top-up. *)
Definition share (b : UUID) (c : string) (t : topup) (r : refund_op) : Z :=
  if settled b c t then (match tu_intent t with Some pi => if live_refund pi c r then rf_cents r else 0 | None => 0 end) else 0.

Lemma share_total s b c k r :
  cards_ok s → refunds s !! k = Some r → sum_over (λ _ t, share b c t r) (topups s) = counts_back b c r.
Proof using.
  clear. intros O L. destruct (ck_refunds _ O k r L) as [_ _ (k' & t & pi & Lt & It & Ir & Tb & Tc) _].
  rewrite (sum_over_single _ _ k' t Lt).
  - unfold share, settled, counts_back, live_refund. rewrite It, Ir, Tb, Tc.
    destruct (ck_topups _ O k' t Lt) as [_ _ [[_ E]|[E _]]]; [congruence|]. rewrite E, (bool_decide_true ("succeeded" = _)), (bool_decide_true (Some pi = _)) by done.
    destruct (bool_decide (rf_buyer r = b)), (bool_decide (rf_currency r = c)); done.
  - intros j y Ly N. unfold share. destruct (settled b c y); [|done]. destruct (tu_intent y) as [pi'|] eqn:Iy; [|done].
    unfold live_refund. rewrite bool_decide_false; [done|]. rewrite Ir. intros E. apply N. by eapply (ck_intents _ O j k' y t pi'); congruence.
Qed.

(** What the intents owe a buyer is what they paid in and were not paid back. *)
Lemma refundable_total s b c :
  cards_ok s → list_total snd (refundable_intents collate s b c) = paid_in s b c - paid_back s b c.
Proof using.
  intros O. unfold refundable_intents. rewrite list_total_omap, (list_total_perm _ _ _ (merge_sort_Permutation _ _)).
  rewrite (list_total_filter (λ x, settled b c x.2)).
  rewrite <-(sum_over_total (λ _ t, if settled b c t then
    from_option snd 0 (pi ← tu_intent t; Some (pi, tu_cents t - refunded_from s pi (tu_currency t))) else 0) (topups s)).
  rewrite (sum_over_ext _ (λ _ t, counts_in b c t - sum_over (λ _ r, share b c t r) (refunds s))).
  - rewrite sum_over_sub, sum_over_swap. unfold paid_in, paid_back. f_equal. apply sum_over_ext.
    intros k r L. by eapply share_total.
  - intros k t L. unfold counts_in, share. destruct (settled b c t) eqn:Se.
    + unfold settled in Se. reflect_bools. destruct (ck_topups _ O k t L) as [_ _ [[E _]|[_ [pi E]]]]; [congruence|].
      rewrite E. simpl. unfold refunded_from. subst. done.
    + by rewrite sum_over_zero.
Qed.

Lemma plan_succeeds s key b c n :
  cards_ok s → 0 ≤ n ≤ paid_in s b c - paid_back s b c → ∃ l, planPrepaidRefundSlicesTx collate s key b c n = Ok l.
Proof using.
  intros O [N M]. rewrite <-(refundable_total s b c O) in M. unfold planPrepaidRefundSlicesTx. cbv zeta.
  assert (∀ x, x ∈ refundable_intents collate s b c → 0 ≤ x.2 ≤ max_int64) as B.
  { intros [pi v] Hx. apply refundable_spec in Hx as (k & t & L & _ & <- & _ & I & ->). simpl.
    pose proof (ck_bound _ O k t pi L I). destruct (ck_topups _ O k t L) as [W _ _].
    assert (0 ≤ refunded_from s pi (tu_currency t)); [|lia]. unfold refunded_from. apply sum_over_nonneg. intros i r Lr.
    destruct (ck_refunds _ O i r Lr) as [P _ _ _]. destruct (live_refund _ _ _); lia. }
  assert (forallb (λ x, is_int64 x.2) (refundable_intents collate s b c) = true) as ->.
  { apply forallb_forall. intros x Hx%list_elem_of_In. apply is_int64_spec. pose proof (B x Hx). width. lia. }
  simpl. destruct (take_slices _ _ _ _) as [l rest] eqn:T. apply take_slices_Ok in T as (R & _); [|done].
  rewrite (list_total_ext _ snd) in R by (intros x Hx; pose proof (B x Hx); lia).
  rewrite (proj2 (Z.ltb_ge 0 rest)) by lia. eauto.
Qed.

Lemma insert_slices_fresh key b c now l : ∀ m,
  c ∈ supported → NoDup (sl_OperationKey <$> l) →
  (∀ x, x ∈ l → 0 < sl_Cents x ∧ not_blank (sl_OperationKey x) = true ∧ m !! sl_OperationKey x = None) →
  ∃ m', insert_slices m key b c now l = Ok m'.
Proof using.
  clear. induction l as [|x l IH]; intros m S ND H; simpl; [eauto|]. rewrite fmap_cons in ND. inversion ND as [|? ? N1 N2]; subst.
  destruct (H x ltac:(left)) as (P & B & N). rewrite B, (proj2 (Z.leb_gt _ _) P), (proj2 (one_of_spec c ["usd"; "cad"; "jpy"]) S). simpl.
  rewrite bool_decide_false by (intros X; by apply X). apply IH; [done|done|]. intros y Hy. destruct (H y ltac:(by right)) as (Py & By & Ny).
  split_and!; [done|done|]. rewrite lookup_insert_ne; [done|]. intros E. apply N1. rewrite E. by apply list_elem_of_fmap_2.
Qed.

(** Card rows leave the holds as they are. *)
Lemma account_card_row f p r b c :
  purse_books p = with_ledger (f_books f) (ledger (f_books f) ++ [r]) → kind r ≠ KindPrepaidDebit →
  account (with_purse f p) b c = (balance_of p b c, (account f b c).2).
Proof using.
  clear. intros E K. unfold account. simpl. f_equal. f_equal. unfold open_exposure. f_equal. f_equal. f_equal.
  unfold f_books at 1. simpl. rewrite E. unfold sqlOpenPrepaidJobResidualMicros. simpl. apply sum_over_ext. intros id j _.
  rewrite job_debited_snoc, bool_decide_false by done. simpl. by rewrite Z.sub_0_r.
Qed.

Lemma MinorToMicros_small cur n :
  Currency_Valid cur = true → 0 < n → n * per_minor (code cur) ≤ max_int64 → MinorToMicros cur n = Ok (n * per_minor (code cur)).
Proof using.
  clear. intros V P M. rewrite per_minor_code in * by done. rewrite (MinorToMicros_exact cur V).
  - by rewrite (proj2 (is_int64_spec _)) by (apply Currency_Valid_cases in V as [->|[->| ->]]; simpl in *; width; lia).
  - apply Currency_Valid_cases in V as [->|[->| ->]]; simpl in *; width; lia.
Qed.

Lemma intent_key b reason ref : prepaidRefundOperationKey b (in_CorrelationRef (refund_intent b reason ref)) = prepaidRefundOperationKey b ref.
Proof using. clear. unfold refund_intent, prepaidRefundOperationKey. simpl. by rewrite trim_space_idem. Qed.

(** The log takes the action of a request that was validated. *)
Lemma log_succeeds t actor b reason ref be af :
  prepareAdminMutation marshal actor (mkIntent 0 "prepaid_refunded" "buyer" b reason ref None "") = Ok (refund_intent b reason ref) →
  revalidateAdminActor t actor = Ok tt →
  ∃ t', insertAdminMutationAction marshal t actor (refund_intent b reason ref) None None None (Some be) (Some af) = Ok t'.
Proof using.
  intros Pr Re. unfold prepareAdminMutation in Pr. apply bind_Ok in Pr as ([] & _ & Pr). cbv zeta in Pr.
  apply bind_Ok in Pr as (dg & D & _). unfold insertAdminMutationAction. rewrite (run_bind _ _ _ Re). cbv zeta.
  unfold refund_intent. rewrite normalized_idem, (run_bind _ _ _ D). eexists. unfold privileged_shape. cbn [ac_kind].
  assert (∀ i, in_Kind i = "prepaid_refunded" → one_of (in_Kind i) privileged_kinds = false) as K by (by intros i ->).
  by rewrite K.
Qed.

(** The part of a refund after the free cash is known. *)
Lemma refund_taken s b c cur key n now :
  cards_ok s → SettlementCurrency st = Ok cur → c = code cur → 0 < n → n ≤ paid_in s b c - paid_back s b c →
  n * per_minor c ≤ balance_of (cd_purse s) b c → balance_of (cd_purse s) b c ≤ maxMoneyAbsMicros →
  key ≠ "" → ledger_by_ref (purse_books (cd_purse s)) KindPrepaidRefund key = None → not_blank key = true →
  (∀ pi, refunds s !! (key +:+ "-" +:+ pi) = None) →
  ∃ slices p d rs, MinorToMicros cur n = Ok (n * per_minor c) ∧ planPrepaidRefundSlicesTx collate s key b c n = Ok slices ∧
    take_balance (cd_purse s) b c (n * per_minor c) = Ok p ∧
    insertLedgerEntryIfAbsentByRefTx st (purse_books p) (prepaid_entry KindPrepaidRefund b None (- (n * per_minor c)) cur key) = Ok (1, d) ∧
    insert_slices (refunds s) key b c now slices = Ok rs ∧
    account (with_purse (cd_funds s) (with_purse_books p d)) b c = (balance_of (cd_purse s) b c - n * per_minor c, (account (cd_funds s) b c).2).
Proof using.
  intros O S -> P In Le M Kn Lr Nb Fr. set (c := code cur) in *.
  assert (Currency_Valid cur = true) as V by (apply settlement_code in S as [_ S]; eauto with go).
  assert (0 < per_minor c) as Pm by (by apply per_minor_positive, valid_supported).
  destruct (plan_succeeds s key b c n O ltac:(lia)) as [l Pl]. pose proof (plan_Ok _ _ _ _ _ _ O (Z.lt_le_incl _ _ P) Pl) as Q.
  destruct (insert_slices_fresh key b c now l (refunds s)) as [rs Is].
  { by apply valid_supported. }
  { pose proof (pn_distinct _ _ _ _ _ _ Q) as ND. pose proof (pn_slices _ _ _ _ _ _ Q) as Sl. clear -ND Sl.
    induction l as [|x l IH]; [constructor|]. rewrite fmap_cons in *. inversion ND as [|? ? N1 N2]; subst. constructor.
    - intros (y & E & Hy)%list_elem_of_fmap. apply N1. destruct (Sl x ltac:(left)) as (_ & _ & _ & _ & Ex & _).
      destruct (Sl y ltac:(by right)) as (_ & _ & _ & _ & Ey & _). rewrite Ex, Ey in E.
      apply string_app_inj_length in E as [_ E]; [|done]. apply string_app_inj_length in E as [_ E]; [|done].
      rewrite E. by apply list_elem_of_fmap_2.
    - apply IH; [done|]. intros y Hy. apply Sl. by right. }
  { intros x Hx. destruct (pn_slices _ _ _ _ _ _ Q x Hx) as (Px & _ & _ & _ & -> & _). split_and!; [done| |done].
    clear -Nb. unfold not_blank in *. induction key as [|a k IH]; [done|]. simpl in *. destruct (negb _); [done|]. by apply IH. }
  exists l, (set_balance (cd_purse s) b c (balance_of (cd_purse s) b c - n * per_minor c)), (with_ledger (purse_books (cd_purse s))
    (ledger (purse_books (cd_purse s)) ++ [row_of (prepaid_entry KindPrepaidRefund b None (- (n * per_minor c)) cur key) None])), rs.
  split_and!; [|done| | |done|].
  - apply MinorToMicros_small; [done..|]. fold c. unfold maxMoneyAbsMicros in M. width. lia.
  - unfold take_balance. by rewrite (proj2 (Z.ltb_ge _ _)) by lia.
  - apply (insert_prepaid_fresh st _ KindPrepaidRefund b _ cur key cur); [unfold prepaid_kinds; set_solver|done|done|lia|done|done].
  - erewrite account_card_row; [|done|done]. by rewrite balance_books, balance_set, decide_True.
Qed.

(** C12: a first refund pays back all the free cash.  The operator's valid request, for a buyer
    whose holds are covered and who spent no less than they were given back, is
    refused only when the cash free of holds is short of one minor unit; otherwise it
    withdraws the largest whole number of minor units of it, traced in full to the
    payment intents that collected it, and the holds stay covered. *)
Theorem refund_pays_free_cash s actor b reason ref now cur :
  cards_ok s → SettlementCurrency st = Ok cur → funds_ok (cd_funds s) → is_Some (f_buyers (cd_funds s) !! b) →
  let c := code cur in
  let before := account (cd_funds s) b c in
  account_ok before → before.1 ≤ maxMoneyAbsMicros → 0 ≤ net_spend b c (ledger (purse_books (cd_purse s))) →
  prepareAdminMutation marshal actor (mkIntent 0 "prepaid_refunded" "buyer" b reason ref None "") = Ok (refund_intent b reason ref) →
  revalidateAdminActor (cd_admin s) actor = Ok tt →
  acquireAdminMutationReplay marshal (cd_admin s) actor (refund_intent b reason ref) = Ok None →
  (∀ pi, refunds s !! (prepaidRefundOperationKey b ref +:+ "-" +:+ pi) = None) →
  let free := before.1 - before.2 in
  let n := free / per_minor c in
  match BeginPrepaidRefund st collate marshal s actor b reason ref now with
  | Err e => n = 0 ∧ e = (if free <=? 0 then errInsufficientPrepaid else Errorf
      "unreserved prepaid balance %d micros is below one %s minor unit and cannot be refunded via card rails")
  | Ok (plan, s') =>
      0 < n ∧ pl_Cents plan = n ∧ pl_Replayed plan = false ∧ planned s (prepaidRefundOperationKey b ref) b c n (pl_Slices plan) ∧
      account (cd_funds s') b c = (before.1 - n * per_minor c, before.2) ∧ account_step before (account (cd_funds s') b c) ∧
      cards_ok s'
  end.
Proof using.
  intros O S F Bu c before A M N Pr Re Ac Fr free n.
  assert (Currency_Valid cur = true) as V by (apply settlement_code in S as [_ S]; eauto with go).
  assert (0 < per_minor c) as Pm by (by apply per_minor_positive, valid_supported).
  pose proof (exposure_nonneg (cd_funds s) F b c) as P1. pose proof (ceilings_nonneg (cd_funds s) F b c) as P2.
  assert (account_ok before ∧ before.1 ≤ maxMoneyAbsMicros) as [A' M'] by done. unfold account_ok, before, account in A', M'. simpl in A', M'.
  assert (free = balance_of (cd_purse s) b c - open_exposure (cd_funds s) b c - executing_ceilings (cd_funds s) b c) as Ef.
  { unfold free, before, account. simpl. unfold cd_purse. lia. }
  fold (cd_purse s) in A', M'. unfold maxMoneyAbsMicros in M'. 
  assert (∀ plan s', BeginPrepaidRefund st collate marshal s actor b reason ref now = Ok (plan, s') → cards_ok s') as Co.
  { intros plan s'. by apply cards_ok_refund. }
  revert Co. clearbody free. unfold BeginPrepaidRefund. rewrite (run_bind _ _ _ Pr).
  cbv zeta. rewrite intent_key. rewrite (run_bind _ _ _ Re), (run_bind _ _ _ Ac), (run_bind _ _ _ S). fold c.
  rewrite (bool_decide_false (f_buyers _ !! b = None)), andb_false_r by (destruct Bu as [? E]; by rewrite E).
  assert (prepaidOpenReservationMicrosInCurrency (cd_funds s) b c = Ok (open_exposure (cd_funds s) b c)) as Rv.
  { unfold prepaidOpenReservationMicrosInCurrency. rewrite (run_bind _ _ _ (ParseCurrency_code _ V)). apply exposure_in_range; [done|width; lia]. }
  assert (executing_hold (cd_funds s) b c = Ok (executing_ceilings (cd_funds s) b c)) as Eh by (apply executing_in_range; [done|width; lia]).
  assert (MicrosPerMinorUnit cur = Ok (per_minor c)) as Mp by (unfold c; rewrite per_minor_code by done; by apply MicrosPerMinorUnit_valid).
  rewrite (run_bind _ _ _ Rv), (run_bind _ _ _ Eh).
  rewrite (wrap64_id (_ - open_exposure _ _ _)), wrap64_id by (width; lia). rewrite <-Ef.
  destruct (Z.leb_spec free 0) as [Z0|Z0].
  { intros _. split; [|done]. unfold n. assert (free = 0) as -> by lia. by rewrite Z.div_0_l by lia. }
  rewrite (run_bind _ _ _ Mp), Z.quot_div_nonneg by lia. fold n.
  destruct (Z.leb_spec n 0) as [N0|N0].
  { intros _. split; [|done]. assert (0 ≤ n) by (apply Z.div_pos; lia). lia. }
  assert (n * per_minor c ≤ free < n * per_minor c + per_minor c) as Dn.
  { unfold n. pose proof (Z.div_mod free (per_minor c)). pose proof (Z.mod_pos_bound free (per_minor c)). lia. }
  clearbody n.
  assert (n ≤ paid_in s b c - paid_back s b c) as In.
  { pose proof (explained _ (ck_purse _ O) b c) as Ex. rewrite prepaid_sum_cards, (ck_books _ O) in Ex. nia. }
  destruct (refund_taken s b c cur (prepaidRefundOperationKey b ref) n now) as (slices & p & d & rs & E1 & E2 & E3 & E4 & E5 & E6);
    [done|done|done|done|done|lia|unfold maxMoneyAbsMicros; lia|done| |done|done|].
  { apply ledger_by_ref_None. by eapply refund_ref_fresh. }
  rewrite (run_bind _ _ _ E1), (run_bind _ _ _ E2), (run_bind _ _ _ E3), (run_bind _ _ _ E4), (run_bind _ _ _ E5).
  match goal with |- context [insertAdminMutationAction _ _ _ _ _ _ _ (Some ?be) (Some ?af)] =>
    destruct (log_succeeds (cd_admin s) actor b reason ref be af Pr Re) as [t' Lg] end.
  rewrite (run_bind _ _ _ Lg). intros Co. cbn [pl_Cents pl_Replayed pl_Slices].
  change (cd_funds (with_admin _ _)) with (with_purse (cd_funds s) (with_purse_books p d)). rewrite E6.
  assert (before = (balance_of (cd_purse s) b c, before.2)) as Eb by done.
  split_and!; [done|done|done| |done| |by eapply Co].
  - by apply plan_Ok; [|lia|].
  - rewrite Eb. change (account (cd_funds s) b c) with before. simpl. apply acc_withdraw. rewrite Ef in Dn. unfold before, account. simpl. lia.
Qed.

(** ** What a history keeps *)

Definition identity (r : refund_op) := (rf_key r, rf_buyer r, rf_cents r, rf_currency r, rf_intent r).

(** The log grows, a credited top-up and the identity of a slice stay, a failed slice
    stays failed, and a new slice is of a reference the log did not hold. *)
Record frame (s s' : cards) : Prop := {
  fr_log : ∃ rest, admin_actions (cd_admin s') = admin_actions (cd_admin s) ++ rest;
  fr_topups : ∀ k t, topups s !! k = Some t → tu_status t = "succeeded" → topups s' !! k = Some t;
  fr_refunds : ∀ k r, refunds s !! k = Some r →
    ∃ r', refunds s' !! k = Some r' ∧ identity r' = identity r ∧ (rf_status r = "failed" → rf_status r' = "failed");
  fr_new : ∀ k r, refunds s' !! k = Some r → refunds s !! k = None →
    ∃ b ref, rf_key r = prepaidRefundOperationKey b ref ∧ ¬ refund_logged (cd_admin s) (trim_space ref)
}.

#[local] Instance frame_preorder : PreOrder frame.
Proof using.
  split.
  - intros s. split; [exists []; by rewrite app_nil_r|done| |congruence]. intros k r L. by exists r.
  - intros s1 s2 s3 [[l1 A1] T1 R1 N1] [[l2 A2] T2 R2 N2]. split.
    + exists (l1 ++ l2). by rewrite A2, A1, app_assoc.
    + intros k t L E. by apply T2; [apply T1|].
    + intros k r L. destruct (R1 k r L) as (r1 & L1 & E1 & F1). destruct (R2 k r1 L1) as (r2 & L2 & E2 & F2).
      exists r2. split_and!; [done|congruence|auto].
    + intros k r L N. destruct (refunds s2 !! k) as [r2|] eqn:L2.
      * destruct (R2 k r2 L2) as (r3 & L3 & E3 & _). destruct (N1 k r2 L2 N) as (b & ref & K & U). exists b, ref. split; [|done].
        unfold identity in E3. congruence.
      * destruct (N2 k r L L2) as (b & ref & K & U). exists b, ref. split; [done|]. intros Lg. apply U. by eapply refund_logged_grow.
Qed.

Lemma frame_same s s' :
  cd_admin s' = cd_admin s → refunds s' = refunds s →
  (∀ k t, topups s !! k = Some t → tu_status t = "succeeded" → topups s' !! k = Some t) → frame s s'.
Proof using.
  intros A R T. split; [exists []; by rewrite A, app_nil_r|done| |rewrite R; congruence]. rewrite R. intros k r L. by exists r.
Qed.

Lemma frame_status s s' k r status x :
  cd_admin s' = cd_admin s → topups s' = topups s → refunds s !! k = Some r → rf_status r = "pending" →
  refunds s' = <[k := set_refund r status x]> (refunds s) → frame s s'.
Proof using.
  intros A T L P R. split; [exists []; by rewrite A, app_nil_r|by rewrite T|..]; rewrite R.
  - intros k' r' L'. destruct (decide (k = k')) as [<-|N]; [|exists r'; by rewrite lookup_insert_ne].
    rewrite L in L'. injection L' as <-. exists (set_refund r status x). rewrite lookup_insert_eq. split_and!; [done|done|congruence].
  - intros k' r' [[<- _]|[_ ?]]%lookup_insert_Some N; congruence.
Qed.

Lemma complete_frame l : ∀ s r s', CompletePrepaidRefund s l = (s', r) → frame s s'.
Proof using.
  induction l as [|x l IH]; intros s r s' H; cbn [CompletePrepaidRefund] in H; [by injection H as <- _|].
  destruct (negb _); [by injection H as <- _|]. destruct (refunds s !! _) as [y|] eqn:L; [|by injection H as <- _].
  destruct (_ && unbound_or _ y) eqn:C.
  - destruct (refund_id_taken _ _ _); [by injection H as <- _|]. reflect_bools. apply IH in H. etrans; [|exact H].
    by eapply frame_status.
  - destruct (_ || _); [by injection H as <- _|by eapply IH].
Qed.

Lemma step_frame s s' : card_step st collate marshal s s' → frame s s'.
Proof using.
  intros [key b n arm s1 W H|key b charge now s1 W H|actor b reason ref now plan s1 H|key pi re s1 H|x s1 H|l r s1 H|p H|s1 H].
  - unfold BeginPrepaidTopup in H. cbv zeta in H. apply refuse_Ok in H as [_ H]. apply bind_Ok in H as (cur & _ & H).
    destruct (topups s !! trim_space key) eqn:Lk; [apply refuse_Ok in H as [_ H]; by injection H as _ <-|].
    apply bind_Ok in H as (s2 & I & H). injection H as _ <-. unfold insert_topup in I. do 2 apply refuse_Ok in I as [_ I].
    injection I as <-. apply frame_same; [done..|]. intros k t L _. simpl. rewrite lookup_insert_ne; [done|congruence].
  - apply credit_topup_Ok in H as (s2 & t2 & cur & c & _ & _ & _ & S & L2 & _ & _ & H).
    assert (frame s s2) as F.
    { destruct S as [->|(N & _ & ->)]; [done|]. apply frame_same; [done..|]. intros k t L _. simpl. rewrite lookup_insert_ne; [done|congruence]. }
    etrans; [exact F|]. destruct H as [(_ & _ & ->)|(Pe & _ & ? & ? & ? & ? & _ & _ & _ & ->)]; [by apply frame_same|].
    apply frame_same; [done..|]. intros k t L E. simpl. rewrite lookup_insert_ne; [done|]. intros <-. congruence.
  - apply refund_Ok in H as (_ & [(_ & _ & -> & _)|(Ac & _ & cur & reserved & hold & f & micros & p & d & x & rs & admin & be & af & _ & _ & _ &
      _ & _ & _ & _ & _ & _ & _ & _ & _ & Is & Ad & ->)]); [done|]. apply logged_by in Ad as [(a & E) _].
    apply insert_slices_Ok in Is as (_ & Lk & _ & _). split; [by exists [a]|done|..]; simpl.
    + intros k r L. exists r. split; [|done]. apply Lk. by left.
    + intros k r [L|(y & _ & _ & ->)]%Lk N; [congruence|]. exists b, ref. split; [done|]. intros [_ Lg].
      apply acquire_None in Ac. unfold refund_intent in Ac. rewrite normalized_idem in Ac. simpl in Ac.
      change (trim_space "prepaid_refunded") with "prepaid_refunded" in Ac. congruence.
  - unfold RecordPrepaidRefundProviderID in H. cbv zeta in H. apply refuse_Ok in H as [_ H].
    destruct (refunds s !! _) as [r|] eqn:L; [|done]. destruct (_ && unbound_or _ r) eqn:C; apply refuse_Ok in H as [_ H]; injection H as <-; [|done].
    reflect_bools. by eapply frame_status.
  - apply fail_Ok in H as (r & L & [[_ ->]|(P & ? & ? & ? & ? & ? & _ & _ & _ & _ & ->)]); [done|]. by eapply frame_status.
  - by eapply complete_frame.
  - by apply frame_same.
  - destruct H as (T & R & _ & _ & rest & A). split; [by exists rest|by rewrite T|rewrite R|rewrite R; congruence]. intros k r L. by exists r.
Qed.

Lemma reachable_frame s s' : rtc (card_step st collate marshal) s s' → frame s s'.
Proof using. induction 1 as [|s s1 s2 H _ IH]; [done|]. etrans; [by apply step_frame|done]. Qed.

(** C25: a payment intent becomes balance once.  The first credit of a top-up adds exactly the
    cash received, in the currency's micro-units, to the buyer's balance; whatever
    happens afterwards, no credit of the same operation or of the same payment intent
    moves money again, and a retry of the request is told that it is credited. *)
Theorem topup_credited_once s key b charge now s' :
  cards_ok s → int64 (ReceivedCents charge) → CreditPrepaidTopup st s key b charge now = Ok s' →
  (∀ t, topups s !! trim_space key = Some t → tu_status t = "pending") →
  (∃ cur, ParseCurrency (cr_Currency charge) = Ok cur ∧ ∀ b' c, balance_of (cd_purse s') b' c = balance_of (cd_purse s) b' c +
     if decide (b = b' ∧ code cur = c) then ReceivedCents charge * per_minor c else 0) ∧
  ∀ s2, rtc (card_step st collate marshal) s' s2 →
    (∀ key2 b2 charge2 now2 s3, trim_space key2 = trim_space key ∨ PaymentIntentID charge2 = PaymentIntentID charge →
       CreditPrepaidTopup st s2 key2 b2 charge2 now2 = Ok s3 → cd_funds s3 = cd_funds s2) ∧
    ∀ n arm s3, BeginPrepaidTopup st s2 key b n = Ok (arm, s3) →
      s3 = s2 ∧ arm = mkTopupArm prepaidTopupCredited (PaymentIntentID charge) (cr_ChargeID charge).
Proof using.
  intros O W H Pe. apply credit_topup_Ok in H as (s1 & t & cur & c & Pos & P & (cc & Cc & Ec) & S & L & Tb & Tn & H).
  assert (cards_ok s1 ∧ cd_funds s1 = cd_funds s ∧ tu_status t = "pending") as (O1 & F1 & T1).
  { destruct S as [->|(N & Sup & ->)]; [by eauto|]. simpl in L. rewrite lookup_insert_eq in L. split_and!; [|done|by injection L as <-].
    apply cards_ok_pending; [done|width; lia|done..]. }
  destruct H as [(E & _)|(_ & U & micros & p & d & x & M & A & I & ->)]; [congruence|].
  pose proof (ck_topups _ O1 _ _ L) as [_ Sup _]. pose proof (supported_code _ _ Sup P) as Ec'.
  destruct (cards_ok_credit st s1 (trim_space key) t b _ cur c micros p d x (PaymentIntentID charge) (cr_ChargeID charge) now
    O1 L T1 Tb Tn P U M A I) as [O' B]. split.
  { exists cc. split; [done|]. intros b' c'. rewrite B. unfold cd_purse. by rewrite F1, Ec, Ec'. }
  intros s2 R. apply reachable_frame in R. apply fr_topups with (k := trim_space key)
    (t := mkTopup b (ReceivedCents charge) (tu_currency t) "succeeded" (Some (PaymentIntentID charge)) (Some (cr_ChargeID charge)) (Some now)) in R;
    [|simpl; by rewrite lookup_insert_eq|done].
  split.
  - intros key2 b2 charge2 now2 s3 K (s4 & t4 & cur4 & c4 & _ & _ & _ & S4 & L4 & _ & _ & H4)%credit_topup_Ok.
    assert (cd_funds s4 = cd_funds s2 ∧ topups s4 !! trim_space key = topups s2 !! trim_space key) as [F4 K4].
    { destruct S4 as [->|(N4 & _ & ->)]; [done|]. simpl. rewrite lookup_insert_ne; [done|]. intros E. by rewrite E, R in N4. }
    destruct H4 as [(_ & _ & ->)|(P4 & U4 & ? & ? & ? & ? & _)]; [by rewrite <-F4|]. exfalso.
    assert (trim_space key2 = trim_space key) as E2.
    { destruct K as [K|K]; [done|]. symmetry. eapply U4; [rewrite K4; exact R|]. simpl. by rewrite K. }
    rewrite E2, K4, R in L4. by injection L4 as <-.
  - intros n arm s3 H3. unfold BeginPrepaidTopup in H3. cbv zeta in H3. apply refuse_Ok in H3 as [_ H3].
    apply bind_Ok in H3 as (cur3 & _ & H3). rewrite R in H3. apply refuse_Ok in H3 as [_ H3]. simpl in H3. by injection H3 as <- <-.
Qed.

(** A failed refund is put back once.  Failing a pending slice returns exactly its amount to
    the buyer's balance and to what its payment intent can still refund; the slice
    stays failed whatever happens afterwards, failing it again moves nothing, and the
    refund it belongs to is never replayed. *)
Theorem failed_refund_returned s x s' r :
  cards_ok s → FailPrepaidRefund st s x = Ok s' → refunds s !! trim_space (sl_OperationKey x) = Some r → rf_status r = "pending" →
  (∀ b c, balance_of (cd_purse s') b c =
     balance_of (cd_purse s) b c + if decide (rf_buyer r = b ∧ rf_currency r = c) then rf_cents r * per_minor c else 0) ∧
  (∀ pi c, refunded_from s' pi c =
     refunded_from s pi c - if bool_decide (rf_intent r = Some pi) && bool_decide (rf_currency r = c) then rf_cents r else 0) ∧
  ∀ s2, rtc (card_step st collate marshal) s' s2 →
    (∃ r2, refunds s2 !! trim_space (sl_OperationKey x) = Some r2 ∧ identity r2 = identity r ∧ rf_status r2 = "failed") ∧
    (∀ y s3, trim_space (sl_OperationKey y) = trim_space (sl_OperationKey x) → FailPrepaidRefund st s2 y = Ok s3 → s3 = s2) ∧
    is_ok (prepaidRefundSlicesTx collate s2 (rf_key r)) = false.
Proof using.
  intros O H L P. destruct (cards_ok_fail _ _ _ _ O H) as (O' & r0 & L0 & [[E _]|(_ & R & B)]); rewrite L in L0; injection L0 as <-; [congruence|].
  split_and!; [done|..].
  - intros pi c. unfold refunded_from. rewrite R, sum_over_insert, L. simpl. unfold live_refund at 2 3. simpl. rewrite P, andb_false_r. simpl.
    rewrite andb_true_r. destruct (_ && _); lia.
  - intros s2 F%reachable_frame.
    destruct (fr_refunds _ _ F (trim_space (sl_OperationKey x)) (set_refund r "failed" (rf_stripe r))) as (r2 & L2 & E2 & F2).
    { by rewrite R, lookup_insert_eq. }
    specialize (F2 eq_refl). split_and!; [by exists r2| |].
    + intros y s3 K (r3 & L3 & [[_ ->]|(P3 & _)])%fail_Ok; [done|]. rewrite K in L3. congruence.
    + unfold prepaidRefundSlicesTx. cbv zeta. set (l := slice_of <$> _).
      assert (slice_of (trim_space (sl_OperationKey x), r2) ∈ l) as Hl.
      { apply list_elem_of_fmap_2. rewrite merge_sort_Permutation. apply list_elem_of_filter. split.
        - unfold identity in E2. simpl in *. congruence.
        - by apply elem_of_map_to_list. }
      assert (∀ c n, is_ok (collect_slices l c n) = false) as Cl.
      { clearbody l. induction l as [|z l IH]; [by apply elem_of_nil in Hl|]. intros c n. cbn [collect_slices].
        destruct (decide (sl_Status z = "failed")) as [Fz|Fz]; [by rewrite bool_decide_true|]. rewrite bool_decide_false by done.
        destruct (negb _); [done|]. destruct (_ && _); [done|]. apply IH. apply elem_of_cons in Hl as [<-|Hl]; [|done]. by destruct Fz. }
      specialize (Cl "" 0). destruct (collect_slices l "" 0); [done|]. done.
Qed.

(** *** Replays *)

Lemma collect_slices_Ok c l : ∀ cur t,
  (∀ x, x ∈ l → one_of (sl_Status x) ["pending"; "succeeded"] = true ∧ sl_Currency x = c ∧ 0 ≤ sl_Cents x) → cur = "" ∨ cur = c →
  0 ≤ t → t + list_total sl_Cents l ≤ max_int64 →
  collect_slices l cur t = Ok (match l with [] => cur | _ => c end, t + list_total sl_Cents l).
Proof using.
  clear. induction l as [|x l IH]; intros cur t H E T M; cbn [collect_slices].
  - change (list_total sl_Cents []) with 0. by rewrite Z.add_0_r.
  - destruct (H x ltac:(left)) as (Sx & Cx & Px). change (list_total sl_Cents (x :: l)) with (sl_Cents x + list_total sl_Cents l) in *.
    assert (0 ≤ list_total sl_Cents l) by (apply list_total_nonneg; intros y Hy; by apply H; right).
    rewrite Sx, (bool_decide_false (sl_Status x = "failed")) by (intros X; by rewrite X in Sx). simpl.
    assert (negb (bool_decide (cur = "")) && negb (bool_decide (cur = sl_Currency x)) = false) as ->.
    { rewrite Cx. destruct E as [->| ->]; [done|]. rewrite (bool_decide_true (c = c)) by done. by rewrite andb_false_r. }
    rewrite wrap64_id by (width; lia). rewrite (IH _ _); [|intros y Hy; apply H; by right|by right|lia|lia]. rewrite Cx. destruct l; f_equal; f_equal; lia.
Qed.

Lemma refund_prepared s actor b reason ref now r :
  BeginPrepaidRefund st collate marshal s actor b reason ref now = Ok r →
  prepareAdminMutation marshal actor (mkIntent 0 "prepaid_refunded" "buyer" b reason ref None "") = Ok (refund_intent b reason ref).
Proof using.
  intros H. unfold BeginPrepaidRefund in H. apply bind_Ok in H as (i & Pr & _). rewrite Pr. by apply prepare_Ok in Pr as ->.
Qed.

(** What a slice counts for in a refund. *)
Definition cents_of (key : string) (r : refund_op) : Z := if bool_decide (rf_key r = key) then rf_cents r else 0.

Section Replay.
Context (s s' s2 : cards) (key c : string) (b : UUID) (now : Z) (l : list prepaidRefundSlice).
Context (O2 : cards_ok s2) (F : frame s' s2).
Context (Lk : ∀ k r, refunds s' !! k = Some r ↔
  refunds s !! k = Some r ∨ ∃ x, x ∈ l ∧ k = sl_OperationKey x ∧ r = slice_row key b c now x).
Context (Su : ∀ f, sum_over f (refunds s') = sum_over f (refunds s) + list_total (λ x, f (sl_OperationKey x) (slice_row key b c now x)) l).
(** The refund is new to the first state and known to the second. *)
Context (Fresh : ∀ k r, refunds s !! k = Some r → rf_key r ≠ key).
Context (Known : ∀ b' ref', prepaidRefundOperationKey b' ref' = key → refund_logged (cd_admin s') (trim_space ref')).

Lemma replay_row k r :
  refunds s2 !! k = Some r → rf_key r = key → ∃ x, x ∈ l ∧ k = sl_OperationKey x ∧ identity r = identity (slice_row key b c now x).
Proof using F Lk Fresh Known.
  intros L K. destruct (refunds s' !! k) as [r'|] eqn:L'.
  - destruct (fr_refunds _ _ F k r' L') as (r2 & L2 & E & _). rewrite L in L2. injection L2 as <-.
    apply Lk in L' as [L0|(x & Hx & -> & ->)]; [|by exists x]. exfalso. apply (Fresh _ _ L0). unfold identity in E. congruence.
  - destruct (fr_new _ _ F k r L L') as (b' & ref' & E & U). destruct U. apply (Known b'). congruence.
Qed.

Lemma replay_slice x : x ∈ l →
  ∃ r, refunds s2 !! sl_OperationKey x = Some r ∧ rf_key r = key ∧ identity r = identity (slice_row key b c now x).
Proof using F Lk.
  intros Hx. destruct (fr_refunds _ _ F (sl_OperationKey x) (slice_row key b c now x)) as (r & L & E & _).
  { apply Lk. right. by exists x. }
  exists r. split_and!; [done| |done]. unfold identity in E. simpl in E. congruence.
Qed.

Lemma replay_total :
  list_total sl_Cents (slice_of <$> merge_sort (key_order collate) (filter (λ x, rf_key x.2 = key) (map_to_list (refunds s2)))) = list_total sl_Cents l.
Proof using F Lk Su Fresh Known.
  rewrite list_total_fmap, (list_total_perm _ _ _ (merge_sort_Permutation _ _)). simpl.
  assert (∀ m : list (string * refund_op), list_total (λ x, rf_cents x.2) (filter (λ x, rf_key x.2 = key) m) =
    list_total (λ x, cents_of key x.2) m) as Fl.
  { clear. induction m as [|x m IH]; [done|]. rewrite filter_cons. change (list_total ?f (x :: m)) with (f x + list_total f m).
    rewrite <-IH. unfold cents_of. case_decide as D; [by rewrite bool_decide_true|by rewrite bool_decide_false]. }
  rewrite Fl. etrans; [symmetry; apply (sum_over_total (λ _, cents_of key))|].
  rewrite (sum_over_lookup _ (refunds s2) (refunds s')).
  - rewrite Su, (sum_over_ext _ (λ _ _, 0)), sum_over_zero by (intros k r L; unfold cents_of; by rewrite bool_decide_false by (by eapply Fresh)).
    simpl. apply list_total_ext. intros x _. unfold cents_of. by rewrite bool_decide_true.
  - intros k. destruct (refunds s' !! k) as [r'|] eqn:L'.
    + destruct (fr_refunds _ _ F k r' L') as (r & -> & E & _). simpl. unfold cents_of. unfold identity in E. by injection E as -> _ -> _ _.
    + destruct (refunds s2 !! k) as [r|] eqn:L; [|done]. simpl. unfold cents_of. rewrite bool_decide_false; [done|].
      intros K. destruct (fr_new _ _ F k r L L') as (b' & ref' & E & U). destruct U. apply (Known b'). congruence.
Qed.

End Replay.


End Refund.

(** ** Witnesses *)

Definition card_funds : funds := mkFunds (mkPurse (mkDb [] ∅ ∅ ∅) ∅) {[ 7%N := fund_buyer ]} ∅ no_envelopes ∅.
Definition card_start : cards := mkCards card_funds no_cash ex_admin ∅ ∅.
Definition card_charge (pi ch : string) (n : Z) : ChargeResult := mkChargeResult pi ch n n "usd".

(** Two top-ups of ten and five dollars. *)
Definition card_first : cards := ok_or card_start (CreditPrepaidTopup fund_st card_start " top-1" 7%N (card_charge "pi_1" "ch_1" 1000) 10).
Definition card_paid : cards := ok_or card_start (CreditPrepaidTopup fund_st card_first "top-2" 7%N (card_charge "pi_2" "ch_2" 500) 20).

(** Nine dollars and half a cent are spent. *)
Definition card_debited : purse :=
  ok_or (cd_purse card_paid) (debitPrepaidByRefTx fund_st (cd_purse card_paid) 7%N 9005000 "usd" "contract" "" "").
Definition card_spent : cards := with_money card_paid card_debited.

(** The rest, 599 whole cents, is refunded: five dollars from the newer intent. *)
Definition card_refunded : prepaidRefundPlan * cards :=
  ok_or (mkRefundPlan "" "" 0 [] false, card_start)
    (BeginPrepaidRefund fund_st ex_collate ex_marshal card_spent ex_actor 7%N "closing account" " INC-1 " 30).
Definition card_bound : cards :=
  ok_or card_start (RecordPrepaidRefundProviderID card_refunded.2 (prepaidRefundOperationKey 7%N "INC-1" +:+ "-pi_2") "pi_2" "re_1").
Definition card_slice : prepaidRefundSlice :=
  mkSlice (prepaidRefundOperationKey 7%N "INC-1" +:+ "-pi_2") "pi_2" 500 "usd" "re_1" "pending".
Definition card_failed : cards := ok_or card_start (FailPrepaidRefund fund_st card_bound card_slice).

Notation card_steps := (rtc (card_step fund_st ex_collate ex_marshal)).

Lemma card_start_opening : opening card_start.
Proof. split; [done|done| |constructor]. split; intros b c; [|done]. by vm_compute. Qed.

Lemma card_first_reachable : card_steps card_start card_first.
Proof.
  apply rtc_once, (card_credit _ _ _ _ " top-1" 7%N (card_charge "pi_1" "ch_1" 1000) 10); [split; vm_compute; discriminate|vm_compute; reflexivity].
Qed.

Lemma card_spent_reachable : card_steps card_start card_spent.
Proof.
  etrans; [apply card_first_reachable|].
  eapply rtc_l; [apply (card_credit _ _ _ _ "top-2" 7%N (card_charge "pi_2" "ch_2" 500) 20 card_paid);
    [split; vm_compute; discriminate|vm_compute; reflexivity]|].
  apply rtc_once, card_spend. eapply (debit_by_ref_honest fund_st _ 7%N 9005000 "usd" "contract" "" ""). vm_compute. reflexivity.
Qed.

Lemma card_spent_ok : cards_ok card_spent.
Proof. eapply cards_reachable_ok; [apply opening_ok, card_start_opening|apply card_spent_reachable]. Qed.

Lemma card_refund_runs :
  BeginPrepaidRefund fund_st ex_collate ex_marshal card_spent ex_actor 7%N "closing account" " INC-1 " 30 = Ok (card_refunded.1, card_refunded.2).
Proof. vm_compute. reflexivity. Qed.

Lemma card_bound_reachable : card_steps card_refunded.2 card_bound.
Proof.
  apply rtc_once, (card_bind _ _ _ _ (prepaidRefundOperationKey 7%N "INC-1" +:+ "-pi_2") "pi_2" "re_1"). vm_compute. reflexivity.
Qed.

Lemma card_bound_ok : cards_ok card_bound.
Proof.
  eapply cards_reachable_ok; [|apply card_bound_reachable]. eapply cards_ok_refund; [apply card_spent_ok|apply card_refund_runs].
Qed.

Lemma cards_reconcile_witness :
  balance_of (cd_purse card_bound) 7%N "usd" = 5000 ∧ paid_in card_bound 7%N "usd" = 1500 ∧ paid_back card_bound 7%N "usd" = 599 ∧
  net_spend 7%N "usd" (ledger (purse_books (cd_purse card_bound))) = 9005000 ∧
  balance_of (cd_purse card_bound) 7%N "usd" = per_minor "usd" * (paid_in card_bound 7%N "usd" - paid_back card_bound 7%N "usd") -
    net_spend 7%N "usd" (ledger (purse_books (cd_purse card_bound))).
Proof.
  split; [vm_compute; reflexivity|]. split; [vm_compute; reflexivity|]. split; [vm_compute; reflexivity|]. split; [vm_compute; reflexivity|].
  destruct (cards_reconcile fund_st ex_collate ex_marshal card_start card_bound 7%N "usd") as [E _].
  - apply card_start_opening.
  - etrans; [apply card_spent_reachable|]. eapply rtc_l; [|apply card_bound_reachable].
    eapply card_refund, card_refund_runs.
  - exact E.
Defined.

Lemma card_spent_funds : funds_ok (cd_funds card_spent).
Proof.
  assert (f_leases (cd_funds card_spent) = ∅ ∧ f_env (cd_funds card_spent) = no_envelopes) as [L E] by (split; vm_compute; reflexivity).
  split; [intros id l; by rewrite L|rewrite E; apply no_envelopes_ok|intros id ct; by rewrite E].
Qed.

Lemma refund_pays_free_cash_witness :
  map sl_Cents (pl_Slices card_refunded.1) = [500; 99] ∧ pl_Cents card_refunded.1 = 599 ∧
  account_step (account (cd_funds card_spent) 7%N "usd") (account (cd_funds card_refunded.2) 7%N "usd").
Proof.
  split; [vm_compute; reflexivity|]. split; [vm_compute; reflexivity|].
  pose proof (refund_pays_free_cash fund_st ex_collate ex_marshal card_spent ex_actor 7%N "closing account" " INC-1 " 30 (mkCurrency "usd" 2)
    card_spent_ok eq_refl card_spent_funds) as T.
  rewrite card_refund_runs in T. apply T; clear T; [by exists fund_buyer|split; vm_compute; discriminate|vm_compute; discriminate|
    vm_compute; discriminate|vm_compute; reflexivity|vm_compute; reflexivity|vm_compute; reflexivity|].
  intros pi. reflexivity.
Defined.

Lemma topup_credited_once_witness :
  balance_of (cd_purse card_first) 7%N "usd" = 10000000 ∧
  ∀ s3, CreditPrepaidTopup fund_st card_first "other" 7%N (card_charge "pi_1" "ch_9" 1000) 11 = Ok s3 → cd_funds s3 = cd_funds card_first.
Proof.
  split; [vm_compute; reflexivity|].
  destruct (topup_credited_once fund_st ex_collate ex_marshal card_start " top-1" 7%N (card_charge "pi_1" "ch_1" 1000) 10 card_first) as [_ T];
    [apply opening_ok, card_start_opening|split; vm_compute; discriminate|vm_compute; reflexivity|intros t H; discriminate H|].
  destruct (T card_first (rtc_refl _ _)) as [T1 _]. intros s3. apply (T1 "other" 7%N (card_charge "pi_1" "ch_9" 1000) 11 s3). right. reflexivity.
Defined.

Lemma failed_refund_returned_witness :
  balance_of (cd_purse card_failed) 7%N "usd" = 5005000 ∧ refunded_from card_failed "pi_2" "usd" = 0 ∧
  is_ok (prepaidRefundSlicesTx ex_collate card_failed (prepaidRefundOperationKey 7%N "INC-1")) = false.
Proof.
  split; [vm_compute; reflexivity|]. split; [vm_compute; reflexivity|].
  destruct (failed_refund_returned fund_st ex_collate ex_marshal card_bound card_slice card_failed
    (set_refund (slice_row (prepaidRefundOperationKey 7%N "INC-1") 7%N "usd" 30 card_slice) "pending" (Some "re_1"))) as (_ & _ & T);
    [apply card_bound_ok|vm_compute; reflexivity|vm_compute; reflexivity|reflexivity|].
  by destruct (T card_failed (rtc_refl _ _)) as (_ & _ & T3).
Defined.

