(* ===== verification/Payouts.v ===== *)
(** * Payouts: from a supplier's credit to cash

    A supplier credit of the ledger is paid by the sweep of [workers.go] through the
    transactions of [store_payouts.go], [supplier_accrual.go] and [store.go].  A claim
    folds the credit into the supplier's accrual, takes the whole minor units that
    are due, reserves collected cash for them and opens a payout operation; the
    provider is asked to send under the credit's key; the answer is recorded, or the
    operation waits as unknown until the same request is made again.  Cash that must
    come back is reversed by the same sweep.

    The payout rail is a class, as [Payout] and [PayoutReverser] are interfaces in the
    source.  The columns of [supplier_payout_operations] that cash events write are a
    [payout_op] of the [cashbook]; the other columns are a [payout_detail] under the
    same id.  A row of [ledger_entries] of kind [supplier_credit] is a [credit], with
    its status in the [cashbook].  The tables a payout only reads are [origins].
    Parsing a UUID, the text of an error, the clock and new ids are arguments. *)
From Stdlib Require Import Ascii.
From stdpp Require Import base numbers list gmap strings sorting relations.
From S2P Require Import Prelude.
From S2P Require Import Float64.
From S2P Require Import Currency.
From S2P Require Import LedgerWrite.
From S2P Require Import Purse.
From S2P Require Import StripeSimulator.
From S2P Require Import ServiceLeases.
From S2P Require Import StripeCash.
From S2P Require Import AdminAudit.
Local Open Scope Z_scope.
Local Open Scope go_scope.

(** ** Tables *)

Definition PayoutReady : string := "ready".
Definition PayoutAwaitingFunding : string := "awaiting_funding".
Definition PayoutCarried : string := "carried".
Definition PayoutSending : string := "sending".
Definition PayoutOutcomeUnknown : string := "outcome_unknown".
Definition PayoutExported : string := "exported".
Definition PayoutClawedBack : string := "clawed_back".
Definition PayoutReversalRequired : string := "reversal_required".
Definition PayoutReversing : string := "reversing".
Definition PayoutReversed : string := "reversed".

Definition supplierSettlementPolicyAccountAccrualV2 : string := "account_accrual_v2".
Definition supplierSettlementPolicyAccountAccrualV3 : string := "account_accrual_minor_unit_v3".

Record credit := mkCredit {
  sc_supplier : UUID;
  sc_task : option UUID;
  sc_contract : option UUID;
  sc_micros : Z;
  sc_release : option Z;
  sc_ref : option string;
  sc_sha : option string;
  sc_lane : option string;
  sc_rev : option string
}.

Record minor_settlement := mkMinor {
  ms_policy : string;
  ms_carry_in : Z;
  ms_liability : Z;
  ms_cash : Z;
  ms_remainder : Z;
  ms_currency : string;
  ms_sha : option string;
  ms_rev : option string;
  ms_lane : option string
}.

Record supplierAccrual := mkAccrual {
  AccruedMicros : Z;
  LifetimeAbsorbed : Z;
  LifetimePaidCent : Z;
  sa_Currency : string
}.

Record payout_detail := mkDetail {
  pd_supplier : UUID;
  pd_requested : Z;
  pd_sent : option Z;
  pd_currency : string;
  pd_transfer : option string;
  pd_reverse : option string;
  pd_created : Z;
  pd_updated : Z
}.

Record origins := mkOrigins {
  og_tasks : gmap UUID (UUID * string);                 (* job, verification outcome *)
  og_jobs : gmap UUID (cash_job * string);              (* pricing digest *)
  og_batches : gmap UUID cash_source;
  og_contracts : gmap UUID (UUID * string * option UUID);   (* buyer, digest, settlement *)
  og_leases : gmap UUID (lease_row * string);           (* pricing digest *)
  og_disputes : list (UUID * string);                   (* job, status *)
  og_actions : list admin_action
}.

Record paystore := mkPaystore {
  ps_cash : cashbook;
  ps_credits : gmap UUID credit;
  ps_details : gmap UUID payout_detail;
  ps_settlements : gmap UUID minor_settlement;
  ps_accruals : gmap UUID supplierAccrual;
  ps_origins : origins
}.

Definition with_paycash (s : paystore) c :=
  mkPaystore c (ps_credits s) (ps_details s) (ps_settlements s) (ps_accruals s) (ps_origins s).
Definition with_credits (s : paystore) c :=
  mkPaystore (ps_cash s) c (ps_details s) (ps_settlements s) (ps_accruals s) (ps_origins s).
Definition with_accrual (s : paystore) m a :=
  mkPaystore (ps_cash s) (ps_credits s) (ps_details s) m a (ps_origins s).

Definition with_status (c : cashbook) (e : UUID) (status : string) : cashbook :=
  with_impairment c (funding_states c) (payout_ops c) (<[e := status]> (entry_status c)).

(** The tables a reservation reads. *)
Definition liabilities_of (s : paystore) : liabilities :=
  let o := ps_origins s in
  mkLiabilities (fst <$> og_tasks o) (fst <$> og_jobs o) (og_batches o)
    ((λ c, (KindSupplierCredit, sc_contract c)) <$> ps_credits s) ((λ x, x.1.1) <$> og_contracts o) (fst <$> og_leases o).

Definition active_dispute (o : origins) (job : UUID) : bool :=
  existsb (λ d, bool_decide (d.1 = job) && one_of d.2 ["open"; "no_peer"; "reverifying"; "unresolvable"]) (og_disputes o).

Definition job_of (o : origins) (c : credit) : option UUID := sc_task c ≫= λ t, fst <$> og_tasks o !! t.

Definition disputed (o : origins) (c : credit) : bool :=
  match job_of o c with Some j => active_dispute o j | None => false end.

Definition verdict_of (o : origins) (c : credit) : string :=
  default "" (sc_task c ≫= λ t, snd <$> og_tasks o !! t).

(** The operation of a ledger entry: [ledger_entry_id] is unique. *)
Definition op_of (s : paystore) (e : UUID) : option (UUID * payout_op * payout_detail) :=
  match find_row (λ op, bool_decide (op_entry op = e)) (payout_ops (ps_cash s)) with
  | Some (id, op) => match ps_details s !! id with Some d => Some (id, op, d) | None => None end
  | None => None
  end.

(** *** Guards of the tables *)

(** [lifecycle_transitions] of a payout. *)
Definition payout_edges : list (string * string) :=
  [("pending", "held"); ("pending", "awaiting_funding"); ("pending", "ready"); ("pending", "clawed_back");
   ("pending", "reversal_required"); ("held", "awaiting_funding"); ("held", "ready"); ("held", "sending");
   ("held", "released"); ("held", "exported"); ("held", "carried"); ("held", "clawed_back");
   ("held", "reversal_required"); ("awaiting_funding", "held"); ("awaiting_funding", "ready");
   ("awaiting_funding", "sending"); ("awaiting_funding", "clawed_back"); ("awaiting_funding", "reversal_required");
   ("ready", "held"); ("ready", "sending"); ("ready", "released"); ("ready", "exported"); ("ready", "clawed_back");
   ("ready", "awaiting_funding"); ("ready", "reversal_required"); ("sending", "ready"); ("sending", "released");
   ("sending", "outcome_unknown"); ("sending", "reversal_required"); ("sending", "exported");
   ("outcome_unknown", "exported"); ("outcome_unknown", "ready"); ("outcome_unknown", "released");
   ("outcome_unknown", "reversal_required"); ("released", "clawed_back"); ("released", "reversal_required");
   ("exported", "reversal_required"); ("carried", "held"); ("carried", "awaiting_funding"); ("carried", "clawed_back");
   ("carried", "reversal_required"); ("reversal_required", "reversing"); ("reversal_required", "ready");
   ("reversal_required", "released"); ("reversal_required", "outcome_unknown"); ("reversing", "reversed");
   ("reversing", "reversal_required")].

(** [UPDATE ledger_entries SET payout_status, payout_ref] of a supplier credit under its
    two triggers and its check; without a row it does nothing. *)
Definition update_entry (s : paystore) (e : UUID) (status : string) (ref : option string) : res paystore :=
  match ps_credits s !! e, entry_status (ps_cash s) !! e with
  | Some c, Some old =>
      let ref := match ref with Some r => Some r | None => sc_ref c end in
      let changed := negb (bool_decide (old = status)) in
      refuse errRaised if changed && negb (bool_decide ((old, status) ∈ payout_edges));
      refuse errRaised if changed && one_of status ["sending"; "released"; "exported"] && disputed (ps_origins s) c;
      refuse errCheckViolation if bool_decide (status = "released") && bool_decide (ref = None);
      let c := mkCredit (sc_supplier c) (sc_task c) (sc_contract c) (sc_micros c) (sc_release c) ref (sc_sha c) (sc_lane c) (sc_rev c) in
      Ok (with_credits (with_paycash s (with_status (ps_cash s) e status)) (<[e := c]> (ps_credits s)))
  | _, _ => Ok s
  end.

Definition op_checks (op : payout_op) (d : payout_detail) : bool :=
  (0 <? pd_requested d) && match pd_sent d with Some n => 0 <? n | None => true end &&
  one_of (pd_currency d) ["usd"; "cad"; "jpy"] &&
  one_of (op_status op) ["sending"; "ready"; "outcome_unknown"; "released"; "exported"; "clawed_back"; "reversal_required";
                         "reversing"; "reversed"] &&
  (negb (op_cash_moved op) || (bool_decide (pd_sent d ≠ None) && bool_decide (pd_transfer d ≠ None))) &&
  (negb (op_outcome_unknown op) || negb (op_cash_moved op)).

(** The two partial unique indexes on provider references. *)
Definition ref_clash (s : paystore) (id : UUID) (op : payout_op) (d : payout_detail) : bool :=
  existsb (λ x, negb (bool_decide (x.1 = id)) &&
    ((bool_decide (pd_transfer d ≠ None) && op_cash_moved op && bool_decide (pd_transfer x.2 = pd_transfer d) &&
      match payout_ops (ps_cash s) !! x.1 with Some op' => op_cash_moved op' | None => false end) ||
     (bool_decide (pd_reverse d ≠ None) && bool_decide (pd_reverse x.2 = pd_reverse d)))) (map_to_list (ps_details s)).

Definition write_op (s : paystore) (id : UUID) (op : payout_op) (d : payout_detail) : res paystore :=
  refuse errCheckViolation if negb (op_checks op d);
  refuse errUniqueViolation if ref_clash s id op d;
  let c := ps_cash s in
  Ok (mkPaystore (with_impairment c (funding_states c) (<[id := op]> (payout_ops c)) (entry_status c)) (ps_credits s)
        (<[id := d]> (ps_details s)) (ps_settlements s) (ps_accruals s) (ps_origins s)).

(** [UPDATE supplier_payout_operations], whose trigger keeps the identity of a row. *)
Definition same_identity (op op' : payout_op) (d d' : payout_detail) : bool :=
  bool_decide (op_entry op' = op_entry op) && bool_decide (op_funding op' = op_funding op) &&
  bool_decide (pd_supplier d' = pd_supplier d) && (pd_requested d' =? pd_requested d) &&
  bool_decide (pd_currency d' = pd_currency d) && (pd_created d' =? pd_created d).

Definition update_op (s : paystore) (id : UUID) (op' : payout_op) (d' : payout_detail) : res paystore :=
  match payout_ops (ps_cash s) !! id, ps_details s !! id with
  | Some op, Some d => refuse errRaised if negb (same_identity op op' d d'); write_op s id op' d'
  | _, _ => Ok s
  end.

(** The columns a transition sets. *)
Definition with_op (op : payout_op) (status : string) (moved unknown : bool) (err : option string) : payout_op :=
  mkPayoutOp (op_entry op) (op_funding op) status moved unknown err.

Definition touched (d : payout_detail) (now : Z) : payout_detail :=
  mkDetail (pd_supplier d) (pd_requested d) (pd_sent d) (pd_currency d) (pd_transfer d) (pd_reverse d) (pd_created d) now.

Definition with_transfer (d : payout_detail) (sent : option Z) (currency : string) (ref : string) (now : Z) : payout_detail :=
  mkDetail (pd_supplier d) (pd_requested d) sent currency (Some ref) (pd_reverse d) (pd_created d) now.

Definition with_reverse (d : payout_detail) (ref : string) (now : Z) : payout_detail :=
  mkDetail (pd_supplier d) (pd_requested d) (pd_sent d) (pd_currency d) (pd_transfer d) (Some ref) (pd_created d) now.

Record DueHeldEntry := mkDue {
  du_ID : UUID;
  du_SupplierID : UUID;
  AmountUSD : f64;
  LiabilityMicros : Z;
  RequestedCents : Z;
  RemainderMicros : Z;
  SettlementPolicy : string;
  du_Currency : string
}.

Record PayoutResult := mkPayoutResult { pr_Ref : string; SentCents : Z; pr_Currency : string; CashMoved : bool }.

Definition validatePayoutResult (r : PayoutResult) : res unit :=
  let ref := trim_space (pr_Ref r) in
  if CashMoved r then
    refuse (Errorf "cash-moving payout result requires a valid Stripe transfer reference") if negb (validStripeObjectID ref "tr_");
    Ok tt
  else
    refuse (Errorf "non-cash payout result requires a manual-export reference")
      if negb (has_prefix ref "manual-export:") || bool_decide (String.length ref = String.length "manual-export:");
    Ok tt.

Section Transactions.
(** The settlement currency of the process, the order of texts in the database, and
    [uuid.Parse]. *)
Context (st : settlement) (collate : string → string → bool) (uuid_Parse : string → option UUID).

(** ** The accrual *)

Definition serviceLeaseIDFromSupplierCreditRef (ref : string) : option UUID :=
  match strip_prefix "service-lease-ledger-" ref with
  | None => None
  | Some rest =>
      match split_on ":"%char rest with
      | [lease; kind; supplier] =>
          if negb (bool_decide (kind = KindSupplierCredit)) then None
          else
            match uuid_Parse lease, uuid_Parse supplier with
            | Some l, Some u => if bool_decide (l = uuid_Nil) || bool_decide (u = uuid_Nil) then None else Some l
            | _, _ => None
            end
      | _ => None
      end
  end.

(** The authority of a credit, and whether it is history without one. *)
Definition loadLedgerEntryLiabilityAuthority (s : paystore) (e : UUID) : res (liabilityAuthority * bool) :=
  match ps_credits s !! e with
  | None => Err errNoRows
  | Some c =>
      let o := ps_origins s in
      let existingSHA := default "" (sc_sha c) in
      let existingLane := default "" (sc_lane c) in
      let existingRev := default "" (sc_rev c) in
      let legacy := (mkLiability "" "" liabilityLifecycleRevision, true) in
      let checked a := (_ ← liabilityAuthority_validate a; Ok (a, false)) in
      if negb (bool_decide (existingSHA = "")) || negb (bool_decide (existingLane = "")) then
        checked (mkLiability existingSHA existingLane
                   (if bool_decide (existingRev = "") then liabilityLifecycleRevision else existingRev))
      else
        match sc_task c, sc_contract c with
        | Some t, _ =>
            match job_of o c ≫= λ j, og_jobs o !! j with
            | None => Err errNoRows
            | Some (_, sha) =>
                if bool_decide (sha = "") then Ok legacy else checked (mkLiability sha "" liabilityLifecycleRevision)
            end
        | None, Some ct =>
            match og_contracts o !! ct with
            | None => Err errNoRows
            | Some (_, sha, sid) =>
                let lane := from_option uuid_String "" sid in
                if bool_decide (trim_space sha = "") && bool_decide (trim_space lane = "") then Ok legacy
                else checked (mkLiability sha lane liabilityLifecycleRevision)
            end
        | None, None =>
            match serviceLeaseIDFromSupplierCreditRef (default "" (sc_ref c)) with
            | None => Err (Errorf "ledger entry %s has no task, execution contract, or service-lease origin for liability authority")
            | Some lease =>
                match og_leases o !! lease with
                | None => Err errNoRows
                | Some (_, sha) =>
                    let a := mkLiability sha (uuid_String lease) liabilityLifecycleRevision in
                    if bool_decide (sha = "") then Ok (a, false) else checked a
                end
            end
        end
  end.

(** The minor unit of a currency in the checks of the tables. *)
Definition table_minor (currency : string) : Z := if bool_decide (currency = "jpy") then 1000000 else 10000.

Definition lockSupplierAccrual (s : paystore) (supplier : UUID) : res (supplierAccrual * paystore) :=
  match ps_accruals s !! supplier with
  | Some a => Ok (a, s)
  | None =>
      let a := mkAccrual 0 0 0 (SettlementCurrencyCode st) in
      refuse errCheckViolation if negb (one_of (sa_Currency a) ["usd"; "cad"; "jpy"]);
      Ok (a, with_accrual s (ps_settlements s) (<[supplier := a]> (ps_accruals s)))
  end.

(** The row and its checks; the trigger compares it with the ledger. *)
Definition insert_settlement (s : paystore) (e : UUID) (m : minor_settlement) : res paystore :=
  refuse errRaised if negb (bool_decide (sc_micros <$> ps_credits s !! e = Some (ms_liability m)));
  refuse errCheckViolation
    if (ms_liability m <? 0) || (ms_cash m <? 0) || negb (one_of (ms_currency m) ["usd"; "cad"; "jpy"]) ||
       (ms_remainder m <? 0) || (table_minor (ms_currency m) <=? ms_remainder m) ||
       negb (ms_carry_in m + ms_liability m =? ms_cash m * table_minor (ms_currency m) + ms_remainder m) ||
       negb (sha_check (ms_sha m)) || negb (bool_decide (ms_rev m = None) || bool_decide (ms_rev m = Some liabilityLifecycleRevision));
  refuse errUniqueViolation if bool_decide (ps_settlements s !! e ≠ None);
  Ok (with_accrual s (<[e := m]> (ps_settlements s)) (ps_accruals s)).

Definition update_accrual (s : paystore) (supplier : UUID) (carryOut liability cash : Z) : res paystore :=
  match ps_accruals s !! supplier with
  | None => Ok s
  | Some a =>
      let a := mkAccrual carryOut (LifetimeAbsorbed a + liability) (LifetimePaidCent a + cash) (sa_Currency a) in
      refuse errOutOfRange if negb (is_int64 (LifetimeAbsorbed a)) || negb (is_int64 (LifetimePaidCent a));
      refuse errCheckViolation
        if (AccruedMicros a <? 0) || (table_minor (sa_Currency a) <=? AccruedMicros a) || (LifetimeAbsorbed a <? 0) ||
           (LifetimePaidCent a <? 0) ||
           negb (LifetimeAbsorbed a =? LifetimePaidCent a * table_minor (sa_Currency a) + AccruedMicros a);
      Ok (with_accrual s (ps_settlements s) (<[supplier := a]> (ps_accruals s)))
  end.

(** The cash and the remainder of a credit: recorded, or computed and recorded. *)
Definition accrueSupplierLiability (s : paystore) (supplier e : UUID) (liabilityMicros : Z) : res (Z * Z * paystore) :=
  refuse (Errorf "supplier liability must be non-negative, got %d microusd") if liabilityMicros <? 0;
  settlement ← SettlementCurrency st;
  '(accrual, s) ← lockSupplierAccrual s supplier;
  refuse (Wrapf errCurrencyMismatch "supplier accrual currency %q: %w") if negb (bool_decide (sa_Currency accrual = code settlement));
  match ps_settlements s !! e with
  | Some m =>
      refuse (Errorf "accrual event for ledger entry %s changed: recorded liability %d, now %d") if negb (ms_liability m =? liabilityMicros);
      Ok (ms_cash m, ms_remainder m, s)
  | None =>
      '(auth, legacyMissing) ← loadLedgerEntryLiabilityAuthority s e;
      let auth := mkLiability (la_PricingDecisionSHA256 auth) (la_LaneSettlementID auth) liabilityLifecycleRevision in
      _ ← (if (legacyMissing : bool) then Ok tt else liabilityAuthority_validate auth);
      factor ← MicrosPerMinorUnit settlement;
      let effective := AccruedMicros accrual +w liabilityMicros in
      let cashCents := effective /t factor in
      let carryOut := effective %t factor in
      s ← insert_settlement s e
            (mkMinor supplierSettlementPolicyAccountAccrualV3 (AccruedMicros accrual) liabilityMicros cashCents carryOut
               (SettlementCurrencyCode st) (nullif (la_PricingDecisionSHA256 auth)) (nullif (la_LifecycleRevision auth))
               (nullif (la_LaneSettlementID auth)));
      s ← update_accrual s supplier carryOut liabilityMicros cashCents;
      Ok (cashCents, carryOut, s)
  end.

(** ** Claiming a payout *)

Definition approved (o : origins) (e : UUID) : bool :=
  existsb (λ a, bool_decide (ac_kind a = "payout_released") && bool_decide (ac_entry a = Some e)) (og_actions o).

Definition payable_status (status : string) : bool := one_of status [PayoutHeld; PayoutReady; PayoutAwaitingFunding].

Definition is_due (s : paystore) (manualGate : bool) (now : Z) (e : UUID) (c : credit) : bool :=
  match entry_status (ps_cash s) !! e, sc_release c with
  | Some status, Some at_ =>
      payable_status status && (at_ <=? now) && negb (disputed (ps_origins s) c) &&
      (bool_decide (sc_task c = None) || bool_decide (verdict_of (ps_origins s) c = "pass")) &&
      (negb manualGate || approved (ps_origins s) e)
  | _, _ => false
  end.

Definition DuePayouts (s : paystore) (manualGate : res bool) (limit now : Z) : res (list (UUID * credit)) :=
  manual ← manualGate;
  Ok (take (Z.to_nat limit)
        (merge_sort (due_before (λ c, default 0 (sc_release c)))
           (filter (λ x, is_due s manual now x.1 x.2 = true) (map_to_list (ps_credits s))))).

(** [INSERT ... ON CONFLICT (ledger_entry_id) DO UPDATE ... WHERE]. *)
Definition open_operation (s : paystore) (id : UUID) (now : Z) (e fundingID supplier : UUID) (cents : Z) (currency : string) :
    res paystore :=
  match op_of s e with
  | None =>
      refuse errUniqueViolation if bool_decide (payout_ops (ps_cash s) !! id ≠ None);
      write_op s id (mkPayoutOp e (Some fundingID) "sending" false false None)
        (mkDetail supplier cents None currency None None now now)
  | Some (id', op, d) =>
      refuse (Errorf "payout operation for ledger entry %s is not retryable")
        if negb (bool_decide (op_status op = "ready") &&
                 (bool_decide (op_funding op = None) || bool_decide (op_funding op = Some fundingID)) &&
                 bool_decide (pd_supplier d = supplier) && (pd_requested d =? cents) && bool_decide (pd_currency d = currency));
      update_op s id' (mkPayoutOp (op_entry op) (Some fundingID) "sending" (op_cash_moved op) (op_outcome_unknown op) None)
        (touched d now)
  end.

(** The entry to send, when the claim succeeds.  Leaving without a commit leaves the
    tables as they were. *)
Definition ClaimPayout (s : paystore) (manualGate : res bool) (fundingID opID : UUID) (now : Z) (e : UUID) :
    res (option DueHeldEntry * paystore) :=
  manual ← manualGate;
  let o := ps_origins s in
  match ps_credits s !! e with
  | None => Err errNotFound
  | Some c =>
      let jobSnapshot :=
        match job_of o c with
        | Some j => match og_jobs o !! j with Some (cj, _) => Some (sc_task c, j, cj) | None => None end
        | None => None
        end in
      if match jobSnapshot with Some (_, j, _) => active_dispute o j | None => false end then Ok (None, s)
      else
        let status := default "" (entry_status (ps_cash s) !! e) in
        if negb (payable_status status) || match sc_release c with Some at_ => now <? at_ | None => true end ||
           (negb (bool_decide (sc_task c = None)) && negb (bool_decide (verdict_of o c = "pass")))
        then Ok (None, s)
        else if manual && negb (approved o e) then Ok (None, s)
        else
          '(cents, remainder, s1) ← accrueSupplierLiability s (sc_supplier c) e (sc_micros c);
          if cents =? 0 then
            if bool_decide (status = PayoutHeld) then s2 ← update_entry s1 e PayoutCarried None; Ok (None, s2)
            else Ok (None, s)
          else
            let currency := SettlementCurrencyCode st in
            settlement ← SettlementCurrency st;
            cashMicros ← MinorToMicros settlement cents;
            let leases := match sc_task c with
                          | Some _ => []
                          | None => match serviceLeaseIDFromSupplierCreditRef (default "" (sc_ref c)) with
                                    | Some l => [l] | None => [] end
                          end in
            '(fid, funded, cash) ← reservePayoutFundingWithJobSnapshot collate (liabilities_of s1) (ps_cash s1) fundingID now e
                                     (sc_task c) cents currency jobSnapshot leases;
            let s2 := with_paycash s1 cash in
            if negb funded then s3 ← update_entry s2 e PayoutAwaitingFunding None; Ok (None, s3)
            else
              s3 ← open_operation s2 opID now e fid (sc_supplier c) cents currency;
              s4 ← update_entry s3 e PayoutSending None;
              Ok (Some (mkDue e (sc_supplier c) (microsToUSD cashMicros) (sc_micros c) cents remainder
                          supplierSettlementPolicyAccountAccrualV3 currency), s4)
  end.

(** ** Operations that wait *)

(** The operations with their entries, as the sweeps select them: by time of the last
    change, then by entry. *)
Definition operations (s : paystore) : list (UUID * (UUID * payout_op * payout_detail)) :=
  omap (λ x, (λ d, (op_entry x.2, (x.1, x.2, d))) <$> ps_details s !! x.1) (map_to_list (payout_ops (ps_cash s))).

Definition select_ops (p : payout_op → payout_detail → bool) (limit : Z) (s : paystore) :
    list (UUID * (UUID * payout_op * payout_detail)) :=
  take (Z.to_nat limit) (merge_sort (due_before (λ x, pd_updated x.2)) (filter (λ x, p x.2.1.2 x.2.2 = true) (operations s))).

Definition status_of (s : paystore) (e : UUID) : string := default "" (entry_status (ps_cash s) !! e).

(** One row after the other. *)
Fixpoint for_each {A B} (f : B → A → res B) (l : list A) (b : B) : res B :=
  match l with [] => Ok b | x :: l => b ← f b x; for_each f l b end.

Definition no_evidence (op : payout_op) (d : payout_detail) : bool :=
  negb (op_cash_moved op) && bool_decide (pd_transfer d = None).

Definition stale_sending (s : paystore) (cutoff : Z) (op : payout_op) (d : payout_detail) : bool :=
  bool_decide (op_status op = "sending") && bool_decide (status_of s (op_entry op) = "sending") && no_evidence op d &&
  (pd_updated d <=? cutoff).

(** The update names the entries and tests the rows again. *)
Definition expire_sending (s : paystore) (e : UUID) : res paystore :=
  match op_of s e with
  | Some (id, op, d) =>
      if bool_decide (op_status op = "sending") && no_evidence op d then
        s ← update_op s id (with_op op "outcome_unknown" (op_cash_moved op) true
                              (Some "sending lease expired; provider outcome unknown")) d;
        if bool_decide (status_of s e = "sending") then update_entry s e PayoutOutcomeUnknown None else Ok s
      else Ok s
  | None => Ok s
  end.

Definition RecoverStalePayoutOperations (s : paystore) (lease limit now : Z) : res (Z * paystore) :=
  if limit <=? 0 then Ok (0, s)
  else
    let ids := (select_ops (stale_sending s (now - lease)) limit s).*1 in
    s ← for_each expire_sending ids s;
    Ok (Z.of_nat (length ids), s).

Definition compromised (c : cashbook) (op : payout_op) : bool :=
  bool_decide (op_funding op ≫= (λ f, fs_status <$> funding_states c !! f) = Some "compromised").

Definition retryable_unknown (s : paystore) (cutoff earliest : Z) (op : payout_op) (d : payout_detail) : bool :=
  op_outcome_unknown op && no_evidence op d && negb (compromised (ps_cash s) op) &&
  one_of (op_status op) ["outcome_unknown"; "reversal_required"] &&
  one_of (status_of s (op_entry op)) ["outcome_unknown"; "reversal_required"] &&
  bool_decide (ps_settlements s !! op_entry op ≠ None) && (pd_updated d <=? cutoff) && (earliest <=? pd_created d).

Definition due_again (s : paystore) (x : UUID * (UUID * payout_op * payout_detail)) : res DueHeldEntry :=
  let '(e, (_, _, d)) := x in
  match ps_settlements s !! e with
  | None => Err errNoRows
  | Some m =>
      currency ← ParseCurrency (pd_currency d);
      cashMicros ← MinorToMicros currency (pd_requested d);
      Ok (mkDue e (pd_supplier d) (microsToUSD cashMicros) (ms_liability m) (pd_requested d) (ms_remainder m) (ms_policy m)
            (pd_currency d))
  end.

Fixpoint collect_due (s : paystore) (l : list (UUID * (UUID * payout_op * payout_detail))) : res (list DueHeldEntry) :=
  match l with
  | [] => Ok []
  | x :: l => d ← due_again s x; rest ← collect_due s l; Ok (d :: rest)
  end.

Definition touch_unknown (now : Z) (s : paystore) (e : UUID) : res paystore :=
  match op_of s e with
  | Some (id, op, d) => if op_outcome_unknown op && no_evidence op d then update_op s id op (touched d now) else Ok s
  | None => Ok s
  end.

Definition ClaimOutcomeUnknownPayouts (s : paystore) (lease retryWindow limit now : Z) : res (list DueHeldEntry * paystore) :=
  if (limit <=? 0) || (lease <? 0) || (retryWindow <=? 0) then Ok ([], s)
  else
    let rows := select_ops (retryable_unknown s (now - lease) (now - retryWindow)) limit s in
    out ← collect_due s rows;
    s ← for_each (touch_unknown now) rows.*1 s;
    Ok (out, s).

Definition truncate (s : string) (n : nat) : string := if (n <? String.length s)%nat then String.substring 0 n s else s.

(** ** The provider's answer *)

(** [cause] is the text of the error, [None] for [nil]. *)
Definition MarkPayoutOutcomeUnknown (s : paystore) (e : UUID) (cause : option string) (now : Z) : res (string * paystore) :=
  match entry_status (ps_cash s) !! e, op_of s e with
  | Some ledgerStatus, Some (id, op, d) =>
      refuse (Errorf "payout %s already has provider cash evidence") if op_cash_moved op || negb (bool_decide (pd_transfer d = None));
      refuse (Errorf "payout %s cannot become outcome_unknown from ledger=%s operation=%s")
        if negb (one_of ledgerStatus [PayoutSending; PayoutOutcomeUnknown; PayoutReversalRequired]);
      let errText := from_option (λ t, truncate t 500) "provider outcome unknown" cause in
      let next := if bool_decide (ledgerStatus = PayoutReversalRequired) || bool_decide (op_status op = PayoutReversalRequired)
                  then PayoutReversalRequired else PayoutOutcomeUnknown in
      s ← update_op s id (with_op op next (op_cash_moved op) true (Some errText)) (touched d now);
      s ← update_entry s e next None;
      Ok (next, s)
  | _, _ => Err errNoRows
  end.

Definition DeferPayout (s : paystore) (e : UUID) (cause : option string) (now : Z) : res (string * paystore) :=
  match entry_status (ps_cash s) !! e, ps_credits s !! e with
  | Some status, Some c =>
      let o := op_of s e in
      let cashMoved := from_option (λ x, op_cash_moved x.1.2) false o in
      let outcomeUnknown := from_option (λ x, op_outcome_unknown x.1.2) false o in
      let transferRef := o ≫= λ x, pd_transfer x.2 in
      let operationStatus := from_option (λ x, op_status x.1.2) "" o in
      let errText := from_option (λ t, truncate t 500) "" cause in
      refuse (Errorf "payout %s already has provider cash evidence")
        if cashMoved || negb (bool_decide (transferRef = None)) || negb (bool_decide (trim_space (default "" (sc_ref c)) = ""));
      if outcomeUnknown then
        refuse (Errorf "payout %s has an unresolved provider outcome and cannot be deferred to ready")
          if negb (bool_decide (status = PayoutReversalRequired));
        Ok (status, s)
      else if bool_decide (status = PayoutReversalRequired) then
        if negb (bool_decide (operationStatus = PayoutReversalRequired)) then Ok (status, s)
        else if disputed (ps_origins s) c then Ok (status, s)
        else
          match o with
          | None => Ok (status, s)
          | Some (id, op, d) =>
              s ← update_op s id (with_op op "ready" (op_cash_moved op) false (nullif errText)) (touched d now);
              s ← update_entry s e PayoutReady None;
              Ok (PayoutReady, s)
          end
      else if negb (bool_decide (status = PayoutSending)) then Ok (status, s)
      else
        s ← (match o with
             | Some (id, op, d) =>
                 if bool_decide (op_status op = "sending")
                 then update_op s id (with_op op "ready" (op_cash_moved op) (op_outcome_unknown op) (nullif errText)) (touched d now)
                 else Ok s
             | None => Ok s
             end);
        s ← update_entry s e PayoutReady None;
        Ok (PayoutReady, s)
  | _, _ => Err errNoRows
  end.

(** In flight: sending, or sent with an unknown outcome, in both tables. *)
Definition in_flight (ledgerStatus opStatus : string) : bool :=
  (bool_decide (ledgerStatus = PayoutSending) && bool_decide (opStatus = PayoutSending)) ||
  (bool_decide (ledgerStatus = PayoutOutcomeUnknown) && bool_decide (opStatus = PayoutOutcomeUnknown)).

(** The answer to a request against what was claimed, reserved and accrued. *)
Definition check_payout (e : UUID) (op : payout_op) (d : payout_detail) (f : funding) (m : minor_settlement) (liability : Z) : res unit :=
  refuse (Errorf "payout %s operation/funding mismatch: operation=%d %s funding=%d %s")
    if negb (pd_requested d =? fu_amount f) || negb (bool_decide (pd_currency d = fu_currency f));
  settlement ← SettlementCurrency st;
  _ ← RequireSettlementCurrency st (pd_currency d);
  factor ← MicrosPerMinorUnit settlement;
  refuse (Errorf "payout %s minor-unit reconciliation mismatch: policy=%s liability=%d requested=%d settlement=%d remainder=%d")
    if negb (one_of (ms_policy m) [supplierSettlementPolicyAccountAccrualV2; supplierSettlementPolicyAccountAccrualV3]) ||
       negb (pd_requested d =? ms_cash m) ||
       negb (ms_carry_in m +w liability =? (ms_cash m *w factor) +w ms_remainder m);
  let sha := default "" (ms_sha m) in
  let lane := default "" (ms_lane m) in
  let rev := default "" (ms_rev m) in
  refuse (Errorf "payout %s lifecycle revision %q does not match %s")
    if negb (bool_decide (rev = "")) && negb (bool_decide (rev = liabilityLifecycleRevision));
  if negb (bool_decide (sha = "")) || negb (bool_decide (lane = ""))
  then liabilityAuthority_validate (mkLiability sha lane rev) else Ok tt.

Definition FinalizePayout (s : paystore) (e : UUID) (r : PayoutResult) (now : Z) : res (string * paystore) :=
  let ref := trim_space (pr_Ref r) in
  _ ← validatePayoutResult (mkPayoutResult ref (SentCents r) (pr_Currency r) (CashMoved r));
  match entry_status (ps_cash s) !! e, ps_credits s !! e, op_of s e, ps_settlements s !! e with
  | Some ledgerStatus, Some c, Some (id, op, d), Some m =>
      match op_funding op ≫= (λ f, fundings (ps_cash s) !! f) with
      | None => Err errNoRows
      | Some f =>
          refuse errNoRows if negb (bool_decide (fu_entry f = e));
          _ ← check_payout e op d f m (sc_micros c);
          if CashMoved r then
            refuse (Errorf "payout %s cash mismatch: requested=%d %s sent=%d %s")
              if negb (SentCents r =? pd_requested d) || negb (bool_decide (pr_Currency r = pd_currency d));
            finalStatus ←
              (if one_of ledgerStatus [PayoutReversalRequired; PayoutClawedBack] ||
                  one_of (op_status op) [PayoutReversalRequired; PayoutClawedBack] then Ok PayoutReversalRequired
               else if in_flight ledgerStatus (op_status op) then Ok PayoutReleased
               else Err (Errorf "payout %s cannot complete from ledger=%s operation=%s"));
            s ← update_op s id (with_op op finalStatus true false None) (with_transfer d (Some (SentCents r)) (pr_Currency r) ref now);
            s ← update_entry s e finalStatus (Some ref);
            Ok (finalStatus, s)
          else if bool_decide (ledgerStatus = PayoutReversalRequired) || bool_decide (op_status op = PayoutReversalRequired) then
            s ← update_op s id (with_op op "reversal_required" (op_cash_moved op) false
                                  (Some "manual export requires external cancellation"))
                  (with_transfer d (pd_sent d) (pd_currency d) ref now);
            s ← update_entry s e PayoutReversalRequired (Some ref);
            Ok (PayoutReversalRequired, s)
          else
            refuse (Errorf "non-cash payout %s cannot complete from ledger=%s operation=%s") if negb (in_flight ledgerStatus (op_status op));
            s ← update_op s id (with_op op "exported" false false None) (with_transfer d (pd_sent d) (pd_currency d) ref now);
            s ← update_entry s e PayoutExported (Some ref);
            Ok (PayoutExported, s)
      end
  | _, _, _, _ => Err errNoRows
  end.

Definition MarkPayout (s : paystore) (e : UUID) (status ref : string) (now : Z) : res paystore :=
  refuse (Errorf "refusing to mark ledger entry %s 'released' without a payout reference")
    if bool_decide (status = PayoutReleased) && bool_decide (ref = "");
  if bool_decide (status = PayoutReady) then '(_, s) ← DeferPayout s e None now; Ok s
  else if bool_decide (status = PayoutReleased) then
    match op_of s e with
    | None => Err errNoRows
    | Some (_, _, d) => '(_, s) ← FinalizePayout s e (mkPayoutResult ref (pd_requested d) (pd_currency d) true) now; Ok s
    end
  else Err (Errorf "unsupported payout transition to %q; use the durable payout operation").

(** ** Reversals *)

Definition CountReversalRequired (s : paystore) : Z :=
  Z.of_nat (length (filter (λ x, one_of x.2 ["reversal_required"; "reversing"] = true) (map_to_list (entry_status (ps_cash s))))).

Record DueReversal := mkReversal {
  dr_ID : UUID;
  dr_SupplierID : UUID;
  TransferRef : string;
  dr_PaymentIntent : string;
  dr_RequestedCents : Z;
  dr_Currency : string;
  dr_CashMoved : bool
}.

Record ReversalResult := mkReversalResult {
  rr_Ref : string;
  rr_Cents : Z;
  rr_Currency : string;
  Instrument : string;
  ProviderStatus : string
}.

Definition validateReversalResult (r : ReversalResult) : res unit :=
  let ref := trim_space (rr_Ref r) in
  prefix ← (if bool_decide (Instrument r = "transfer_reversal") then Ok "trr_"
            else if bool_decide (Instrument r = "charge_refund") then Ok "re_"
            else Err (Errorf "unsupported reversal instrument %q"));
  refuse (Errorf "%s reversal requires a valid Stripe %s reference") if negb (validStripeObjectID ref prefix);
  Ok tt.

(** [COALESCE(op.transfer_ref, le.payout_ref, '')]. *)
Definition provider_ref (s : paystore) (op : payout_op) (d : payout_detail) : string :=
  match pd_transfer d with Some r => r | None => default "" (ps_credits s !! op_entry op ≫= sc_ref) end.

Definition reversible (s : paystore) (cutoff : Z) (op : payout_op) (d : payout_detail) : bool :=
  one_of (status_of s (op_entry op)) ["reversal_required"; "reversing"] &&
  one_of (op_status op) ["reversal_required"; "reversing"] &&
  (op_cash_moved op || negb (bool_decide (provider_ref s op d = ""))) &&
  ((bool_decide (op_status op = "reversing") && (pd_updated d <=? cutoff)) ||
   (bool_decide (op_status op = "reversal_required") &&
    negb (match ps_credits s !! op_entry op with Some c => disputed (ps_origins s) c | None => false end))).

Definition reversal_of (s : paystore) (x : UUID * (UUID * payout_op * payout_detail)) : DueReversal :=
  let '(e, (_, op, d)) := x in
  mkReversal e (pd_supplier d) (provider_ref s op d)
    (default "" ((op_funding op ≫= λ f, fundings (ps_cash s) !! f) ≫= fu_intent)) (pd_requested d) (pd_currency d) (op_cash_moved op).

Definition start_reversal (now : Z) (s : paystore) (e : UUID) : res paystore :=
  match op_of s e with
  | Some (id, op, d) =>
      refuse (Errorf "reversal claim CAS lost for operation %s") if negb (one_of (op_status op) ["reversal_required"; "reversing"]);
      s ← update_op s id (with_op op "reversing" (op_cash_moved op) (op_outcome_unknown op) (op_error op)) (touched d now);
      refuse (Errorf "reversal claim CAS lost for ledger %s") if negb (one_of (status_of s e) ["reversal_required"; "reversing"]);
      update_entry s e PayoutReversing None
  | None => Err (Errorf "reversal claim CAS lost for operation %s")
  end.

Definition ClaimReversals (s : paystore) (lease limit now : Z) : res (list DueReversal * paystore) :=
  if limit <=? 0 then Ok ([], s)
  else
    let rows := select_ops (reversible s (now - lease)) limit s in
    s' ← for_each (start_reversal now) rows.*1 s;
    Ok (reversal_of s <$> rows, s').

Definition FinalizeReversal (s : paystore) (e : UUID) (r : ReversalResult) (now : Z) : res (string * paystore) :=
  let ref := trim_space (rr_Ref r) in
  _ ← validateReversalResult (mkReversalResult ref (rr_Cents r) (rr_Currency r) (Instrument r) (ProviderStatus r));
  match entry_status (ps_cash s) !! e, op_of s e with
  | Some ledgerStatus, Some (id, op, d) =>
      if bool_decide (ledgerStatus = PayoutReversed) && bool_decide (op_status op = PayoutReversed) then
        refuse (Errorf "payout %s already reversed under ref %s")
          if match pd_reverse d with Some old => negb (bool_decide (old = "")) && negb (bool_decide (old = ref)) | None => false end;
        Ok (PayoutReversed, s)
      else
        refuse (Errorf "payout %s cannot reverse from ledger=%s operation=%s")
          if negb (bool_decide (ledgerStatus = PayoutReversing)) || negb (bool_decide (op_status op = PayoutReversing));
        refuse (Errorf "payout %s already observed provider recovery ref %s, got %s")
          if match pd_reverse d with
             | Some old => negb (bool_decide (trim_space old = "")) && negb (bool_decide (trim_space old = ref))
             | None => false
             end;
        refuse (Errorf "payout %s reversal mismatch: requested=%d %s recovered=%d %s")
          if negb (rr_Cents r =? pd_requested d) || negb (bool_decide (rr_Currency r = pd_currency d));
        s ← update_op s id (with_op op "reversed" (op_cash_moved op) false None) (with_reverse d ref now);
        s ← update_entry s e PayoutReversed None;
        Ok (PayoutReversed, s)
  | _, _ => Err errNoRows
  end.

Definition MarkReversalFailed (s : paystore) (e : UUID) (cause : option string) (now : Z) : res paystore :=
  let errText := from_option (λ t, truncate t 500) "provider reversal failed" cause in
  match entry_status (ps_cash s) !! e, op_of s e with
  | Some ledgerStatus, Some (id, op, d) =>
      if bool_decide (ledgerStatus = PayoutReversed) || bool_decide (op_status op = PayoutReversed) then Ok s
      else
        refuse (Errorf "payout %s cannot record reverse failure from ledger=%s operation=%s")
          if negb (one_of ledgerStatus [PayoutReversing; PayoutReversalRequired]);
        s ← (if one_of (op_status op) ["reversing"; "reversal_required"]
             then update_op s id (with_op op "reversal_required" (op_cash_moved op) (op_outcome_unknown op) (Some errText)) (touched d now)
             else Ok s);
        update_entry s e PayoutReversalRequired None
  | _, _ => Err errNoRows
  end.

Definition RecordReversalRefundRef (s : paystore) (e : UUID) (refundID : string) (now : Z) : res paystore :=
  refuse (Errorf "pending reversal refund binding has invalid identity")
    if bool_decide (e = uuid_Nil) || negb (validStripeObjectID refundID "re_");
  let refundID := trim_space refundID in
  match op_of s e with
  | None => Err (Errorf "reversal operation %s is missing")
  | Some (id, op, d) =>
      if one_of (op_status op) ["reversal_required"; "reversing"] &&
         (bool_decide (pd_reverse d = None) || bool_decide (pd_reverse d = Some refundID))
      then update_op s id op (with_reverse d refundID now)
      else if bool_decide (trim_space (default "" (pd_reverse d)) = refundID) &&
              one_of (op_status op) ["reversal_required"; "reversing"; "reversed"]
      then Ok s
      else Err (Errorf "reversal %s has a conflicting provider refund binding")
  end.

(** ** The sweep *)

(** [Payout] and [PayoutReverser]. *)
Class PayoutRail (W : Type) := {
  Send : W → UUID → Z → string → string → res PayoutResult * W;
  ReverseTransfer : W → string → Z → string → string → res ReversalResult * W;
  RefundCharge : W → string → Z → string → string → res ReversalResult * W
}.

Definition errPayoutDefinitelyNotSent : error := Sentinel "errPayoutDefinitelyNotSent".

Definition payoutSendingLease : Z := 300000000000.
Definition payoutIdempotencyRetryWindow : Z := 82800000000000.

Section Sweep.
(** The rail, the text of an error, and new ids for a claim. *)
Context `{PayoutRail W} (err_text : error → string) (fresh : UUID → UUID * UUID).

(** What the answer of the rail does to the tables. *)
Definition record_answer (s : paystore) (claimed : DueHeldEntry) (resolvingUnknown : bool) (answer : res PayoutResult) (now : Z) :
    res paystore :=
  match answer with
  | Err sendErr =>
      '(_, s) ← (if resolvingUnknown || negb (errors_Is sendErr errPayoutDefinitelyNotSent)
                 then MarkPayoutOutcomeUnknown s (du_ID claimed) (Some (err_text sendErr)) now
                 else DeferPayout s (du_ID claimed) (Some (err_text sendErr)) now);
      Ok s
  | Ok result => '(_, s) ← FinalizePayout s (du_ID claimed) result now; Ok s
  end.

(** The loops stop at the first error; what was done until then stays. *)
Definition sweep : Type := paystore * W * option error.

Definition and_then (x : sweep) (k : paystore → W → sweep) : sweep :=
  match x with (s, w, None) => k s w | (s, w, Some e) => (s, w, Some e) end.

Definition commit {A} (s : paystore) (w : W) (m : res (A * paystore)) (k : A → paystore → sweep) : sweep :=
  match m with Ok (a, s) => k a s | Err e => (s, w, Some e) end.

Definition settle (s : paystore) (w : W) (m : res paystore) : sweep :=
  match m with Ok s => (s, w, None) | Err e => (s, w, Some e) end.

Fixpoint each {A} (f : A → paystore → W → sweep) (l : list A) (s : paystore) (w : W) : sweep :=
  match l with [] => (s, w, None) | x :: l => and_then (f x s w) (each f l) end.

Definition finishAttempt (now : Z) (resolvingUnknown : bool) (claimed : DueHeldEntry) (s : paystore) (w : W) : sweep :=
  let '(answer, w) := Send w (du_SupplierID claimed) (RequestedCents claimed) (du_Currency claimed) (uuid_String (du_ID claimed)) in
  settle s w (record_answer s claimed resolvingUnknown answer now).

Definition executeReversal (r : DueReversal) (w : W) : res ReversalResult * W :=
  let reverseKey := uuid_String (dr_ID r) in
  if negb (bool_decide (trim_space (TransferRef r) = "")) && negb (has_prefix (TransferRef r) "manual-export:")
  then ReverseTransfer w (TransferRef r) (dr_RequestedCents r) (dr_Currency r) reverseKey
  else if negb (bool_decide (trim_space (dr_PaymentIntent r) = ""))
  then RefundCharge w (dr_PaymentIntent r) (dr_RequestedCents r) (dr_Currency r) reverseKey
  else (Err (Wrapf errPayoutDefinitelyNotSent "no reversible instrument for ledger entry %s (transfer=%q pi=%q)"), w).

Definition reverse_one (now : Z) (r : DueReversal) (s : paystore) (w : W) : sweep :=
  let '(answer, w) := executeReversal r w in
  let failed cause := settle s w (MarkReversalFailed s (dr_ID r) (Some cause) now) in
  match answer with
  | Err revErr => failed (err_text revErr)
  | Ok result =>
      let providerStatus := trim_space (ProviderStatus result) in
      if negb (bool_decide (providerStatus = "")) && negb (bool_decide (providerStatus = "succeeded")) then
        if negb (one_of providerStatus ["pending"; "requires_action"; "failed"; "canceled"]) ||
           negb (bool_decide (Instrument result = "charge_refund")) || negb (validStripeObjectID (rr_Ref result) "re_")
        then failed (err_text (Errorf
          "Stripe refund recovery returned an invalid non-terminal result: status=%q ref=%q instrument=%q"))
        else
          match RecordReversalRefundRef s (dr_ID r) (rr_Ref result) now with
          | Err err => failed (err_text err)
          | Ok s => settle s w (MarkReversalFailed s (dr_ID r) (Some (err_text (Errorf "Stripe refund %s remains %s"))) now)
          end
      else
        match FinalizeReversal s (dr_ID r) result now with
        | Err err => failed (err_text err)
        | Ok (_, s) => (s, w, None)
        end
  end.

Definition processReversals (now : Z) (s : paystore) (w : W) : sweep :=
  commit s w (ClaimReversals s payoutSendingLease sweepBatch now) (λ claimed s, each (reverse_one now) claimed s w).

Definition claim_and_finish (manualGate : res bool) (now : Z) (e : UUID) (s : paystore) (w : W) : sweep :=
  commit s w (ClaimPayout s manualGate (fresh e).1 (fresh e).2 now e)
    (λ claimed s, match claimed with Some d => finishAttempt now false d s w | None => (s, w, None) end).

Definition releasePayouts (paused : res bool) (manualGate : res bool) (now : Z) (s : paystore) (w : W) : sweep :=
  match paused with
  | Err e => (s, w, Some e)
  | Ok true => (s, w, None)
  | Ok false =>
      and_then (processReversals now s w) (λ s w,
      commit s w (RecoverStalePayoutOperations s payoutSendingLease sweepBatch now) (λ _ s,
      commit s w (ClaimOutcomeUnknownPayouts s payoutSendingLease payoutIdempotencyRetryWindow sweepBatch now) (λ unknown s,
      and_then (each (finishAttempt now true) unknown s w) (λ s w,
      if 0 <? CountReversalRequired s then (s, w, None)
      else
        match DuePayouts s manualGate sweepBatch now with
        | Err e => (s, w, Some e)
        | Ok due => each (claim_and_finish manualGate now) due.*1 s w
        end))))
  end.
End Sweep.
End Transactions.

(** ** What every transaction keeps *)

Definition op_at (s : paystore) (id : UUID) (op : payout_op) (d : payout_detail) : Prop :=
  payout_ops (ps_cash s) !! id = Some op ∧ ps_details s !! id = Some d.

Definition identified (op op' : payout_op) (d d' : payout_detail) : Prop :=
  op_entry op' = op_entry op ∧ op_funding op' = op_funding op ∧ pd_supplier d' = pd_supplier d ∧
  pd_requested d' = pd_requested d ∧ pd_currency d' = pd_currency d ∧ pd_created d' = pd_created d.

(** Statuses, references and times may change; amounts, parties and what was settled
    stay, no operation appears, and new credits have identities of their own. *)
Record pay_keeps (s s' : paystore) : Prop := {
  kp_settlements : ps_settlements s' = ps_settlements s;
  kp_accruals : ps_accruals s' = ps_accruals s;
  kp_credit e c : ps_credits s !! e = Some c →
    ∃ c', ps_credits s' !! e = Some c' ∧ sc_supplier c' = sc_supplier c ∧ sc_micros c' = sc_micros c;
  kp_new e c : ps_credits s' !! e = Some c → is_Some (ps_credits s !! e) ∨ (e < 2 ^ 128)%N;
  kp_op id op d : op_at s' id op d → ∃ op0 d0, op_at s id op0 d0 ∧ identified op0 op d0 d;
  kp_ops id : is_Some (payout_ops (ps_cash s') !! id) → is_Some (payout_ops (ps_cash s) !! id);
  kp_details id : is_Some (ps_details s !! id) → is_Some (ps_details s' !! id);
  kp_funding id f : fundings (ps_cash s) !! id = Some f → fundings (ps_cash s') !! id = Some f
}.

(** No operation comes to say that cash moved. *)
Definition moves_none (s s' : paystore) : Prop :=
  ∀ id op d, op_at s' id op d → op_cash_moved op = true →
    ∃ op0 d0, op_at s id op0 d0 ∧ op_cash_moved op0 = true ∧ identified op0 op d0 d.

(** The work of others on the same tables: cash events, disputes, clawbacks, new credits. *)
Definition outside (s s' : paystore) : Prop := pay_keeps s s' ∧ moves_none s s'.

Lemma identified_refl op d : identified op op d d.
Proof. done. Qed.

Lemma identified_trans op1 op2 op3 d1 d2 d3 : identified op1 op2 d1 d2 → identified op2 op3 d2 d3 → identified op1 op3 d1 d3.
Proof. unfold identified. intuition congruence. Qed.

#[export] Instance pay_keeps_refl : Reflexive pay_keeps.
Proof. intros s. split; eauto using identified_refl. Qed.

#[export] Instance pay_keeps_trans : Transitive pay_keeps.
Proof.
  intros s1 s2 s3 [S A C N O P D F] [S' A' C' N' O' P' D' F']. split; try congruence; eauto.
  - intros e c L. destruct (C e c L) as (c2 & L2 & E1 & E2). destruct (C' e c2 L2) as (c3 & L3 & E3 & E4).
    exists c3. split_and!; [done|congruence..].
  - intros e c L. destruct (N' e c L) as [[c2 L2]|?]; eauto.
  - intros id op d (op2 & d2 & (op1 & d1 & ? & I)%O & I')%O'. eauto using identified_trans.
Qed.

#[export] Instance moves_none_refl : Reflexive moves_none.
Proof. intros s id op d ? ?. eauto using identified_refl. Qed.

#[export] Instance moves_none_trans : Transitive moves_none.
Proof.
  intros s1 s2 s3 H H' id op d O M. destruct (H' id op d O M) as (op2 & d2 & O2 & M2 & I').
  destruct (H id op2 d2 O2 M2) as (op1 & d1 & O1 & M1 & I). eauto 6 using identified_trans.
Qed.

#[export] Instance outside_refl : Reflexive outside.
Proof. split; reflexivity. Qed.

#[export] Instance outside_trans : Transitive outside.
Proof. intros s1 s2 s3 [] []. split; etrans; eassumption. Qed.

Lemma for_each_ind {A B} (R : B → B → Prop) `{!Reflexive R, !Transitive R} (f : B → A → res B) l b b' :
  (∀ b x b', f b x = Ok b' → R b b') → for_each f l b = Ok b' → R b b'.
Proof.
  intros H. revert b. induction l as [|x l IH]; intros b E; simpl in E; [by simplify_eq|].
  apply bind_Ok in E as (b1 & E1 & E). etrans; [by eapply H|by apply IH].
Qed.

(** *** The guarded updates *)

Lemma op_of_Some s e id op d : op_of s e = Some (id, op, d) → op_at s id op d ∧ op_entry op = e.
Proof.
  unfold op_of. destruct (find_row _ _) as [[i o]|] eqn:F; [|done]. apply find_row_Some in F as [L E].
  destruct (ps_details s !! i) as [d'|] eqn:D; [|done]. intros ?. simplify_eq. split; [done|]. by apply bool_decide_eq_true in E.
Qed.

Lemma update_entry_Ok s e status ref s' :
  update_entry s e status ref = Ok s' →
  s' = s ∨ ∃ c c', ps_credits s !! e = Some c ∧ sc_supplier c' = sc_supplier c ∧ sc_micros c' = sc_micros c ∧
    sc_task c' = sc_task c ∧ sc_release c' = sc_release c ∧
    s' = with_credits (with_paycash s (with_status (ps_cash s) e status)) (<[e := c']> (ps_credits s)).
Proof.
  unfold update_entry. destruct (ps_credits s !! e) as [c|] eqn:L; [|intros ?; simplify_eq; by left].
  destruct (entry_status _ !! e); [|intros ?; simplify_eq; by left]. cbv zeta. intros H.
  do 3 apply refuse_Ok in H as [_ H]. simplify_eq. right. eexists c, _. split; [done|].
  split_and!; [| | | |reflexivity]; done.
Qed.

Lemma update_entry_outside s e status ref s' : update_entry s e status ref = Ok s' → outside s s'.
Proof.
  intros [->|(c & c' & L & E1 & E2 & _ & _ & ->)]%update_entry_Ok; [reflexivity|].
  split; [|intros id op d ? ?; eauto using identified_refl]. split; simpl; try done; eauto using identified_refl.
  - intros e' c0 L'. destruct (decide (e = e')) as [<-|N].
    + exists c'. rewrite lookup_insert_eq. split_and!; [done|congruence..].
    + exists c0. by rewrite lookup_insert_ne.
  - intros e' c0 [[<- _]|[_ L']]%lookup_insert_Some; left; eauto.
Qed.

Lemma update_op_Ok s id op' d' s' :
  update_op s id op' d' = Ok s' →
  (s' = s ∧ (payout_ops (ps_cash s) !! id = None ∨ ps_details s !! id = None)) ∨
  ∃ op d, op_at s id op d ∧ identified op op' d d' ∧
    s' = mkPaystore (with_impairment (ps_cash s) (funding_states (ps_cash s)) (<[id := op']> (payout_ops (ps_cash s))) (entry_status (ps_cash s)))
           (ps_credits s) (<[id := d']> (ps_details s)) (ps_settlements s) (ps_accruals s) (ps_origins s).
Proof.
  unfold update_op, op_at. destruct (payout_ops _ !! id) as [op|]; [|intros ?; simplify_eq; left; auto].
  destruct (ps_details s !! id) as [d|]; [|intros ?; simplify_eq; left; auto]. intros H.
  apply refuse_Ok in H as [I H]. unfold write_op in H. apply refuse_Ok in H as [_ H]. apply refuse_Ok in H as [_ H]. simplify_eq.
  right. exists op, d. split; [done|]. split; [|done]. unfold same_identity in I. reflect_bools. unfold identified. split_and!; (done || lia).
Qed.

Lemma update_op_keeps s id op' d' s' : update_op s id op' d' = Ok s' → pay_keeps s s'.
Proof.
  intros [[-> _]|(op & d & [L1 L2] & I & ->)]%update_op_Ok; [reflexivity|].
  split; simpl; try done; eauto.
  - intros i o x [O D]. simpl in *. destruct (decide (id = i)) as [<-|N].
    + rewrite lookup_insert_eq in O. rewrite lookup_insert_eq in D. simplify_eq. exists op, d. by split.
    + rewrite lookup_insert_ne in O by done. rewrite lookup_insert_ne in D by done. exists o, x. by split.
  - intros i [o O]. destruct (decide (id = i)) as [<-|N]; [eauto|]. rewrite lookup_insert_ne in O by done. eauto.
  - intros i [o O]. destruct (decide (id = i)) as [<-|N]; [rewrite lookup_insert_eq|rewrite lookup_insert_ne by done]; eauto.
Qed.

Lemma update_op_outside s id op d op' d' s' :
  op_at s id op d → op_cash_moved op' = op_cash_moved op ∨ op_cash_moved op' = false →
  update_op s id op' d' = Ok s' → outside s s'.
Proof.
  intros [L1 L2] M H. split; [by eapply update_op_keeps|].
  apply update_op_Ok in H as [[-> _]|(op1 & d1 & [L1' L2'] & I & ->)]; [reflexivity|]. simplify_eq.
  intros i o x [O D] Mv. simpl in *. destruct (decide (id = i)) as [<-|N].
  - rewrite lookup_insert_eq in O. rewrite lookup_insert_eq in D. simplify_eq. exists op, d. split; [by split|]. split; [|done]. destruct M; congruence.
  - rewrite lookup_insert_ne in O by done. rewrite lookup_insert_ne in D by done. exists o, x. by split.
Qed.

(** *** The transactions that only change states *)

Ltac same_op :=
  match goal with U : update_op ?s ?id _ _ = Ok _, O : op_at ?s ?id _ _ |- _ => eapply (update_op_outside _ _ _ _ _ _ _ O); [|exact U]; by left end.
Ltac step_outside := etrans; [same_op|].

Lemma expire_sending_outside s e s' : expire_sending s e = Ok s' → outside s s'.
Proof.
  unfold expire_sending. destruct (op_of s e) as [[[id op] d]|] eqn:O; [|intros; by simplify_eq].
  apply op_of_Some in O as [O _]. destruct (_ && _); [|intros; by simplify_eq]. intros (s1 & U & H)%bind_Ok.
  step_outside. case_bool_decide; [by eapply update_entry_outside|by simplify_eq].
Qed.

Lemma recover_outside s lease limit now n s' : RecoverStalePayoutOperations s lease limit now = Ok (n, s') → outside s s'.
Proof.
  unfold RecoverStalePayoutOperations. destruct (_ <=? _); [intros; by simplify_eq|]. intros (s1 & F & H)%bind_Ok. simplify_eq.
  eapply for_each_ind; [apply _..|by apply expire_sending_outside|done].
Qed.

Lemma touch_unknown_outside now s e s' : touch_unknown now s e = Ok s' → outside s s'.
Proof.
  unfold touch_unknown. destruct (op_of s e) as [[[id op] d]|] eqn:O; [|intros; by simplify_eq].
  apply op_of_Some in O as [O _]. destruct (_ && _); [|intros; by simplify_eq]. intros U. same_op.
Qed.

Lemma unknown_outside s lease window limit now out s' :
  ClaimOutcomeUnknownPayouts s lease window limit now = Ok (out, s') → outside s s'.
Proof.
  unfold ClaimOutcomeUnknownPayouts. destruct (_ || _); [intros; by simplify_eq|]. intros (o & _ & H)%bind_Ok.
  apply bind_Ok in H as (s1 & F & H). simplify_eq. eapply for_each_ind; [apply _..|by apply touch_unknown_outside|done].
Qed.

Lemma mark_unknown_outside s e cause now r s' : MarkPayoutOutcomeUnknown s e cause now = Ok (r, s') → outside s s'.
Proof.
  unfold MarkPayoutOutcomeUnknown. destruct (entry_status _ !! e); [|done]. destruct (op_of s e) as [[[id op] d]|] eqn:O; [|done].
  apply op_of_Some in O as [O _]. intros H. apply refuse_Ok in H as [_ H]. apply refuse_Ok in H as [_ H]. cbv zeta in H.
  apply bind_Ok in H as (s1 & U & H). apply bind_Ok in H as (s2 & V & H). simplify_eq.
  step_outside. by eapply update_entry_outside.
Qed.

Lemma defer_outside s e cause now r s' : DeferPayout s e cause now = Ok (r, s') → outside s s'.
Proof.
  unfold DeferPayout. destruct (entry_status _ !! e); [|done]. destruct (ps_credits s !! e) as [c|]; [|done]. cbv zeta. intros H.
  apply refuse_Ok in H as [_ H]. destruct (from_option _ false _) in H; [apply refuse_Ok in H as [_ H]; by simplify_eq|].
  destruct (op_of s e) as [[[id op] d]|] eqn:O; [apply op_of_Some in O as [O _]|]; simpl in H.
  - destruct (bool_decide (_ = PayoutReversalRequired)) in H;
      [destruct (negb _) in H; [by simplify_eq|]; destruct (disputed _ _) in H; [by simplify_eq|]|
       destruct (negb _) in H; [by simplify_eq|]].
    + apply bind_Ok in H as (s1 & U & H). apply bind_Ok in H as (s2 & V & H). simplify_eq.
      step_outside. by eapply update_entry_outside.
    + apply bind_Ok in H as (s1 & U & H). apply bind_Ok in H as (s2 & V & H). simplify_eq. etrans; [|by eapply update_entry_outside].
      destruct (bool_decide _) in U; [same_op|by simplify_eq].
  - destruct (bool_decide _) in H; [by simplify_eq|]. destruct (negb _) in H; [by simplify_eq|].
    apply bind_Ok in H as (s2 & V & H). simplify_eq. by eapply update_entry_outside.
Qed.

Lemma start_reversal_outside now s e s' : start_reversal now s e = Ok s' → outside s s'.
Proof.
  unfold start_reversal. destruct (op_of s e) as [[[id op] d]|] eqn:O; [|done]. apply op_of_Some in O as [O _]. intros H.
  apply refuse_Ok in H as [_ H]. apply bind_Ok in H as (s1 & U & H). apply refuse_Ok in H as [_ H].
  step_outside. by eapply update_entry_outside.
Qed.

Lemma claim_reversals_outside s lease limit now out s' : ClaimReversals s lease limit now = Ok (out, s') → outside s s'.
Proof.
  unfold ClaimReversals. destruct (_ <=? _); [intros; by simplify_eq|]. intros (s1 & F & H)%bind_Ok. simplify_eq.
  eapply for_each_ind; [apply _..|by apply start_reversal_outside|done].
Qed.

Lemma finalize_reversal_outside s e r now x s' : FinalizeReversal s e r now = Ok (x, s') → outside s s'.
Proof.
  unfold FinalizeReversal. cbv zeta. intros (u & _ & H)%bind_Ok. destruct (entry_status _ !! e); [|done].
  destruct (op_of s e) as [[[id op] d]|] eqn:O; [|done]. apply op_of_Some in O as [O _].
  destruct (_ && _) in H; [apply refuse_Ok in H as [_ H]; by simplify_eq|]. do 3 apply refuse_Ok in H as [_ H].
  apply bind_Ok in H as (s1 & U & H). apply bind_Ok in H as (s2 & V & H). simplify_eq.
  step_outside. by eapply update_entry_outside.
Qed.

Lemma reversal_failed_outside s e cause now s' : MarkReversalFailed s e cause now = Ok s' → outside s s'.
Proof.
  unfold MarkReversalFailed. cbv zeta. destruct (entry_status _ !! e); [|done].
  destruct (op_of s e) as [[[id op] d]|] eqn:O; [|done]. apply op_of_Some in O as [O _]. intros H.
  destruct (_ || _) in H; [by simplify_eq|]. apply refuse_Ok in H as [_ H]. apply bind_Ok in H as (s1 & U & H).
  etrans; [|by eapply update_entry_outside]. destruct (one_of _ _) in U; [|by simplify_eq]. same_op.
Qed.

Lemma record_refund_outside s e ref now s' : RecordReversalRefundRef s e ref now = Ok s' → outside s s'.
Proof.
  unfold RecordReversalRefundRef. cbv zeta. intros H. apply refuse_Ok in H as [_ H].
  destruct (op_of s e) as [[[id op] d]|] eqn:O; [|done]. apply op_of_Some in O as [O _].
  destruct (_ && _) in H; [same_op|]. destruct (_ && _) in H; by simplify_eq.
Qed.

(** A cash event impairs reservations and requires reversals, and touches nothing else
    of a payout. *)
Lemma event_ops c e r c' :
  ApplyPaymentEventTx c e = Ok (r, c') →
  fundings c' = fundings c ∧
  (c' = c ∨ payout_ops c' = payout_ops c ∧ entry_status c' = entry_status c ∨
   ∃ pi u xs, payout_ops c' = require_reversal pi e u xs <$> payout_ops c ∧
     entry_status c' = map_imap (λ id st, Some (if reversal_target xs (payout_ops c) id then "reversal_required" else st)) (entry_status c)).
Proof.
  assert (∀ p pi a k c2, apply_evidence (with_event c e) e p = Ok (pi, a, k, c2) →
            fundings c2 = fundings c ∧ payout_ops c2 = payout_ops c ∧ entry_status c2 = entry_status c) as Ev.
  { intros p pi a k c2 H. unfold apply_evidence in H. destruct (bool_decide _) in H.
    - apply bind_Ok in H as ([q s1] & A & H). simplify_eq. unfold applyStripeChargeRefundState in A.
      apply bind_Ok in A as (x & _ & A). simplify_eq. by destruct (bool_decide _).
    - apply bind_Ok in H as ([[[q u] v] s1] & A & H). simplify_eq. unfold applyStripeDisputeState in A. cbv zeta in A.
      apply bind_Ok in A as (x & _ & A). by simplify_eq. }
  intros [_ [(w & _ & _ & -> & _)|(_ & pi & a & k & s2 & (F & P & S)%Ev & H)]]%apply_Ok; [auto|].
  destruct (_ ≫= _) as [x|]; [|destruct H as [-> _]; auto].
  destruct H as (_ & u & n & m & R & _). apply recompute_frame in R as Fr. destruct Fr as (_ & _ & _ & _ & Ef).
  apply recompute_Ok in R as (_ & _ & Eo & Es). rewrite Ef, F, Eo, Es, P, S. split; [done|]. do 2 right. eauto.
Qed.

Lemma required_op pi e u xs op :
  let op' := require_reversal pi e u xs op in
  op_entry op' = op_entry op ∧ op_funding op' = op_funding op ∧ op_cash_moved op' = op_cash_moved op ∧
  op_outcome_unknown op' = op_outcome_unknown op ∧ (op_status op = PayoutReversed → op' = op).
Proof.
  unfold require_reversal, is_reversal. simpl. destruct (_ && _) eqn:B; [|done]. simpl. split_and!; try done.
  intros E. rewrite E in B. by rewrite andb_false_r in B.
Qed.

(** Ids are kept, and the cash columns of an operation. *)
Lemma event_op c e r c' id op' :
  ApplyPaymentEventTx c e = Ok (r, c') → payout_ops c' !! id = Some op' → ∃ op, payout_ops c !! id = Some op ∧
    op_entry op' = op_entry op ∧ op_funding op' = op_funding op ∧ op_cash_moved op' = op_cash_moved op.
Proof.
  intros [_ [->|[[-> _]|(pi & u & xs & -> & _)]]]%event_ops L; [eauto..|]. rewrite lookup_fmap in L.
  apply fmap_Some in L as (op & L & ->). exists op. destruct (required_op pi e u xs op) as (? & ? & ? & _). done.
Qed.

Lemma event_outside s e r c' : ApplyPaymentEventTx (ps_cash s) e = Ok (r, c') → outside s (with_paycash s c').
Proof.
  intros H. pose proof (λ id op', event_op _ _ _ _ id op' H) as O. apply event_ops in H as [F _].
  split; [split; simpl; try done; eauto|].
  - intros id op d [Lo Ld]. apply O in Lo as (op0 & L0 & E1 & E2 & _). exists op0, d. split; [by split|done].
  - intros id [op L]. apply O in L as (op0 & L0 & _). eauto.
  - by rewrite F.
  - intros id op d [Lo Ld] M. apply O in Lo as (op0 & L0 & E1 & E2 & E3). exists op0, d. split; [by split|]. split; [congruence|done].
Qed.

(** ** Books *)

Section Books.
Context (st : settlement).
Local Notation cur := (SettlementCurrencyCode st).
Local Notation unit_micros := (table_minor (SettlementCurrencyCode st)).

(** A settlement balances, and its citations pass the check that releases it. *)
Record settlement_ok (s : paystore) (e : UUID) (m : minor_settlement) : Prop := {
  se_credit : ∃ c, ps_credits s !! e = Some c ∧ ms_liability m = sc_micros c;
  se_policy : ms_policy m = supplierSettlementPolicyAccountAccrualV3;
  se_currency : ms_currency m = cur;
  se_amounts : 0 ≤ ms_liability m ∧ 0 ≤ ms_cash m;
  se_balance : ms_carry_in m + ms_liability m = ms_cash m * unit_micros + ms_remainder m;
  se_revision : default "" (ms_rev m) = liabilityLifecycleRevision;
  se_cited : default "" (ms_sha m) = "" ∧ default "" (ms_lane m) = "" ∨
    liabilityAuthority_validate (mkLiability (default "" (ms_sha m)) (default "" (ms_lane m)) (default "" (ms_rev m))) = Ok tt
}.

Definition of_supplier (s : paystore) (u e : UUID) : bool := bool_decide (sc_supplier <$> ps_credits s !! e = Some u).

(** What the settled credits of a supplier are worth, and the cash due for them. *)
Definition earned (s : paystore) (u : UUID) : Z :=
  sum_over (λ e m, if of_supplier s u e then ms_liability m else 0) (ps_settlements s).
Definition cash_due (s : paystore) (u : UUID) : Z :=
  sum_over (λ e m, if of_supplier s u e then ms_cash m else 0) (ps_settlements s).

Definition accrual_of (s : paystore) (u : UUID) : supplierAccrual := default (mkAccrual 0 0 0 cur) (ps_accruals s !! u).

(** An operation pays the settlement of its credit from a reservation of the same amount. *)
Record op_ok (s : paystore) (op : payout_op) (d : payout_detail) : Prop := {
  oo_credit : ∃ c, ps_credits s !! op_entry op = Some c ∧ pd_supplier d = sc_supplier c;
  oo_settled : ∃ m, ps_settlements s !! op_entry op = Some m ∧ pd_requested d = ms_cash m;
  oo_amount : 0 < pd_requested d;
  oo_currency : pd_currency d = cur;
  oo_funding : ∃ i f, op_funding op = Some i ∧ fundings (ps_cash s) !! i = Some f ∧ fu_entry f = op_entry op ∧
    fu_amount f = pd_requested d ∧ fu_currency f = cur
}.

Record pay_ok (s : paystore) : Prop := {
  po_settled e m : ps_settlements s !! e = Some m → settlement_ok s e m;
  po_op id op d : op_at s id op d → op_ok s op d;
  po_unique id id' op op' : payout_ops (ps_cash s) !! id = Some op → payout_ops (ps_cash s) !! id' = Some op' →
    op_entry op = op_entry op' → id = id';
  po_detail id : is_Some (payout_ops (ps_cash s) !! id) → is_Some (ps_details s !! id);
  po_ids e c : ps_credits s !! e = Some c → (e < 2 ^ 128)%N;
  po_accrual u : sa_Currency (accrual_of s u) = cur ∧ LifetimeAbsorbed (accrual_of s u) = earned s u ∧
    LifetimePaidCent (accrual_of s u) = cash_due s u ∧ 0 ≤ AccruedMicros (accrual_of s u) < unit_micros ∧
    earned s u = cash_due s u * unit_micros + AccruedMicros (accrual_of s u)
}.

Lemma of_supplier_keeps s s' u e : pay_keeps s s' → is_Some (ps_credits s !! e) → of_supplier s' u e = of_supplier s u e.
Proof using.
  intros K [c L]. destruct (kp_credit s s' K e c L) as (c' & L' & E & _). unfold of_supplier. rewrite L, L'. simpl. by rewrite E.
Qed.

Lemma keeps_ok s s' : pay_keeps s s' → pay_ok s → pay_ok s'.
Proof using.
  intros K O. assert (∀ id op d, op_at s' id op d → op_ok s' op d) as Ops.
  { intros id op d (op0 & d0 & A & I1 & I2 & I3 & I4 & I5 & _)%(kp_op s s' K). destruct (po_op s O id op0 d0 A) as [(c & Lc & Ec) M Am Cu (i & f & Fi & Lf & Rest)].
    destruct (kp_credit s s' K _ c Lc) as (c' & Lc' & Es & _). split.
    - exists c'. rewrite I1, I3. split; [done|congruence].
    - by rewrite I1, I4, (kp_settlements s s' K).
    - by rewrite I4.
    - by rewrite I5.
    - exists i, f. rewrite I1, I2, I4. split_and!; [done|by apply (kp_funding s s' K)|apply Rest..]. }
  assert (∀ u f, sum_over (λ e m, if of_supplier s' u e then f m else 0) (ps_settlements s) =
                 sum_over (λ e m, if of_supplier s u e then f m else 0) (ps_settlements s)) as Sums.
  { intros u f. apply sum_over_ext. intros e m (c & L & _)%(po_settled s O)%se_credit.
    by rewrite (of_supplier_keeps s s') by eauto. }
  assert (∀ id, is_Some (payout_ops (ps_cash s') !! id) → is_Some (ps_details s' !! id)) as Det.
  { intros id H%(kp_ops s s' K). by apply (kp_details s s' K), (po_detail s O). }
  split; [|done| |done| |].
  - rewrite (kp_settlements s s' K). intros e m L. destruct (po_settled s O e m L) as [(c & Lc & Ec) ? ? ? ? ? ?]. split; try done.
    destruct (kp_credit s s' K e c Lc) as (c' & Lc' & _ & Em). exists c'. split; [done|congruence].
  - intros id id' op op' L L' E. destruct (Det id) as [d D]; [eauto|]. destruct (Det id') as [d' D']; [eauto|].
    destruct (kp_op s s' K id op d) as (op0 & d0 & [A _] & I & _); [by split|].
    destruct (kp_op s s' K id' op' d') as (op0' & d0' & [A' _] & I' & _); [by split|].
    apply (po_unique s O id id' op0 op0'); congruence.
  - intros e c [[c0 L]|B]%(kp_new s s' K); [by apply (po_ids s O e c0)|done].
  - intros u. unfold accrual_of, earned, cash_due. rewrite (kp_accruals s s' K), (kp_settlements s s' K), !Sums. apply (po_accrual s O).
Qed.

(** *** Accruing *)

Context (uuid_Parse : string → option UUID).

Lemma settlement_unit c : SettlementCurrency st = Ok c → code c = cur ∧ MicrosPerMinorUnit c = Ok unit_micros.
Proof using.
  intros H. assert (cur = code c) as E by (unfold SettlementCurrencyCode; by rewrite H). split; [done|].
  rewrite E. unfold SettlementCurrency in H. apply refuse_Ok in H as [_ H]. apply refuse_Ok in H as [V H].
  simplify_eq. apply negb_false_iff, Currency_Valid_cases in V. by destruct V as [->|[->| ->]].
Qed.

Lemma default_nullif x : default "" (nullif x) = x.
Proof using. unfold nullif. by case_bool_decide. Qed.

Lemma load_legacy s e a : loadLedgerEntryLiabilityAuthority uuid_Parse s e = Ok (a, true) →
  la_PricingDecisionSHA256 a = "" ∧ la_LaneSettlementID a = "".
Proof using.
  unfold loadLedgerEntryLiabilityAuthority. destruct (ps_credits s !! e) as [c|]; [|done]. cbv zeta. intros H.
  destruct (_ || _) in H; [apply bind_Ok in H as (? & _ & H); by simplify_eq|].
  repeat (case_match; try done); simplify_eq; try (apply bind_Ok in H as (? & _ & H)); by simplify_eq.
Qed.

Lemma lock_Ok s u a s1 :
  lockSupplierAccrual st s u = Ok (a, s1) →
  a = accrual_of s u ∧ ps_accruals s1 !! u = Some a ∧ (∀ v, accrual_of s1 v = accrual_of s v) ∧
  ps_cash s1 = ps_cash s ∧ ps_credits s1 = ps_credits s ∧ ps_details s1 = ps_details s ∧ ps_settlements s1 = ps_settlements s ∧
  ps_origins s1 = ps_origins s.
Proof using.
  unfold lockSupplierAccrual. destruct (ps_accruals s !! u) as [a'|] eqn:L; intros H.
  - simplify_eq. unfold accrual_of at 1. by rewrite L.
  - apply refuse_Ok in H as [_ H]. simplify_eq. unfold accrual_of. simpl. rewrite lookup_insert_eq, L. split_and!; try done.
    intros v. destruct (decide (u = v)) as [<-|N]; [by rewrite lookup_insert_eq, L|by rewrite lookup_insert_ne].
Qed.

(** The books only depend on what was settled and on the accruals. *)
Lemma pay_ok_books s s' :
  ps_cash s' = ps_cash s → ps_credits s' = ps_credits s → ps_details s' = ps_details s → ps_settlements s' = ps_settlements s →
  (∀ u, accrual_of s' u = accrual_of s u) → pay_ok s → pay_ok s'.
Proof using.
  intros E1 E2 E3 E4 E5 [O1 O2 O3 O4 O5 O6].
  split; unfold op_at, earned, cash_due, of_supplier in *; rewrite ?E1, ?E2, ?E3, ?E4 in *; try done.
  - intros e m L. destruct (O1 e m L). split; rewrite ?E2; done.
  - intros id op d A. destruct (O2 id op d A). split; rewrite ?E1, ?E2, ?E4; done.
  - intros u. rewrite E5. apply O6.
Qed.

(** Settling a credit adds it to its supplier's books. *)
Lemma settle_credit s e c m a :
  pay_ok s → ps_credits s !! e = Some c → ps_settlements s !! e = None → ps_accruals s !! sc_supplier c = Some a →
  settlement_ok s e m →
  let a' := mkAccrual (ms_remainder m) (LifetimeAbsorbed a + ms_liability m) (LifetimePaidCent a + ms_cash m) (sa_Currency a) in
  0 ≤ AccruedMicros a' < unit_micros → LifetimeAbsorbed a' = LifetimePaidCent a' * unit_micros + AccruedMicros a' →
  pay_ok (with_accrual s (<[e := m]> (ps_settlements s)) (<[sc_supplier c := a']> (ps_accruals s))).
Proof using.
  intros O Lc Nm La Sm a' B E. set (s' := with_accrual _ _ _).
  assert (∀ u f, sum_over (λ i x, if of_supplier s u i then f x else 0) (ps_settlements s') =
            sum_over (λ i x, if of_supplier s u i then f x else 0) (ps_settlements s) +
            if bool_decide (u = sc_supplier c) then f m else 0) as Sums.
  { intros u f. simpl. rewrite sum_over_fresh by done. unfold of_supplier at 1. rewrite Lc. simpl.
    rewrite (bool_decide_ext (Some (sc_supplier c) = Some u) (u = sc_supplier c)) by (split; congruence). lia. }
  destruct O as [O1 O2 O3 O4 O5 O6]. split; try done.
  - intros i x L. simpl in L. apply lookup_insert_Some in L as [[<- <-]|[_ L]]; [by destruct Sm; split|]. destruct (O1 i x L). by split.
  - intros id op d A. destruct (O2 id op d A) as [? (m' & L & Em) ? ? ?]. split; try done. exists m'. split; [|done]. simpl.
    rewrite lookup_insert_ne; [done|]. intros X. congruence.
  - intros u. destruct (O6 u) as (C1 & C2 & C3 & C4 & C5). change (earned s' u) with
      (sum_over (λ i x, if of_supplier s u i then ms_liability x else 0) (ps_settlements s')).
    change (cash_due s' u) with (sum_over (λ i x, if of_supplier s u i then ms_cash x else 0) (ps_settlements s')).
    rewrite !Sums. fold (earned s u) (cash_due s u). unfold accrual_of in *. simpl. case_bool_decide as D.
    + subst u. rewrite La in *. rewrite lookup_insert_eq. simpl in *. split_and!; try done; lia.
    + rewrite lookup_insert_ne by done. rewrite !Z.add_0_r. done.
Qed.

Lemma accrue_Ok s e c cents rem s1 :
  pay_ok s → ps_credits s !! e = Some c →
  accrueSupplierLiability st uuid_Parse s (sc_supplier c) e (sc_micros c) = Ok (cents, rem, s1) →
  pay_ok s1 ∧ (∃ m, ps_settlements s1 !! e = Some m ∧ ms_cash m = cents) ∧
  (∀ i m, ps_settlements s !! i = Some m → ps_settlements s1 !! i = Some m) ∧
  ps_cash s1 = ps_cash s ∧ ps_credits s1 = ps_credits s ∧ ps_details s1 = ps_details s ∧ ps_origins s1 = ps_origins s.
Proof using.
  intros O Lc H. unfold accrueSupplierLiability in H. apply refuse_Ok in H as [Nn H]. apply bind_Ok in H as (k & K & H).
  apply settlement_unit in K as [Ek Fk]. apply bind_Ok in H as ([a s0] & Lk & H). apply lock_Ok in Lk as (-> & La & Acc & E1 & E2 & E3 & E4 & E5).
  apply refuse_Ok in H as [_ H]. assert (pay_ok s0) as O0 by (by apply (pay_ok_books s)).
  destruct (ps_settlements s0 !! e) as [m|] eqn:Lm.
  - apply refuse_Ok in H as [_ H]. simplify_eq. rewrite E4 in *. split; [done|]. split; [by exists m|]. done.
  - apply bind_Ok in H as ([auth legacy] & Ld & H). cbv zeta in H. apply bind_Ok in H as ([] & V & H).
    apply bind_Ok in H as (factor & F & H). apply bind_Ok in H as (s2 & I & H). apply bind_Ok in H as (s3 & U & H). simplify_eq.
    set (m := mkMinor _ _ _ _ _ _ _ _ _) in I. unfold insert_settlement in I. do 3 apply refuse_Ok in I as [? I]. simplify_eq.
    unfold update_accrual in U. simpl in U. rewrite La in U. cbv zeta in U. apply refuse_Ok in U as [_ U]. apply refuse_Ok in U as [Ck U].
    simplify_eq. split; [|split; [exists m; split; [apply lookup_insert_eq|done]|]].
    2:{ split; [|done]. intros i m' L. simpl. rewrite E4 in *. rewrite lookup_insert_ne; [done|congruence]. }
    destruct (po_accrual s O (sc_supplier c)) as (Cu & _). simpl in Ck. rewrite Cu in Ck. reflect_bools.
    rewrite <-E2 in Lc. apply (settle_credit s0 e c m (accrual_of s (sc_supplier c))); try done; [|simpl; lia..].
    split; [exists c; done|done|done|done|done|apply default_nullif|].
    unfold m. cbn [ms_sha ms_lane ms_rev la_PricingDecisionSHA256 la_LaneSettlementID la_LifecycleRevision]. rewrite !default_nullif. destruct legacy; [left; by apply (load_legacy s0 e)|right; done].
Qed.

(** *** Reserving and opening *)

Context (collate : string → string → bool).

(** A reservation keeps the others, and its row names the entry, the amount and the currency. *)
Definition reserved_row (c c' : cashbook) (e i : UUID) (funded : bool) (n : Z) (k : string) : Prop :=
  (∀ j f, fundings c !! j = Some f → fundings c' !! j = Some f) ∧
  payout_ops c' = payout_ops c ∧ entry_status c' = entry_status c ∧
  (funded = true → ∃ f, fundings c' !! i = Some f ∧ fu_entry f = e ∧ fu_amount f = n ∧ fu_currency f = k).

Lemma reserved_none c e i n k : reserved_row c c e i false n k.
Proof using. by split_and!. Qed.

Lemma reserved_new c c' i f : insert_funding c i f = Ok c' → reserved_row c c' (fu_entry f) i true (fu_amount f) (fu_currency f).
Proof using.
  intros (-> & N & _)%insert_funding_Ok. split_and!; try done; simpl.
  - intros j g L. rewrite lookup_insert_ne; [done|congruence].
  - intros _. exists f. by rewrite lookup_insert_eq.
Qed.

Lemma reserve_topup_row c id now t r b c' :
  reserveBuyerTopupPayoutFunding collate c id now t = Ok (r, b, c') →
  reserved_row c c' (tp_EntryID t) r b (tp_RequestedCents t) (tp_Currency t).
Proof using.
  unfold reserveBuyerTopupPayoutFunding. intros H. apply refuse_Ok in H as [_ H]. apply bind_Ok in H as (xs & _ & H).
  apply bind_Ok in H as ([pi|] & _ & H); [|simplify_eq; apply reserved_none]. apply bind_Ok in H as (c1 & I & H). simplify_eq.
  by apply reserved_new in I.
Qed.

Lemma reserve_charged_row li c id now e j cj n k r b c' :
  reserve_charged li c id now e j cj n k = Ok (r, b, c') → reserved_row c c' e r b n k.
Proof using.
  unfold reserve_charged. intros (so & _ & H)%bind_Ok.
  repeat match goal with
  | H : Ok _ = Ok _ |- _ => simplify_eq; apply reserved_none
  | H : match ?x with _ => _ end = Ok _ |- _ => destruct x; try done
  | H : (_ ≫= _) = Ok _ |- _ => apply bind_Ok in H as (? & ? & H)
  end.
  simplify_eq. by eapply (reserved_new _ _ _ (mkFunding _ _ _ _ _ _ _ _ _)).
Qed.

Lemma reserve_row li c id now e task n k snap leases r b c' :
  reservePayoutFundingWithJobSnapshot collate li c id now e task n k snap leases = Ok (r, b, c') → reserved_row c c' e r b n k.
Proof using.
  unfold reservePayoutFundingWithJobSnapshot. intros H. apply refuse_Ok in H as [_ H].
  destruct (find_row _ _) as [[i f]|] eqn:F.
  - apply refuse_Ok in H as [G H]. simplify_eq. apply find_row_Some in F as [L E]. reflect_bools.
    split_and!; try done. intros _. exists f. split_and!; (done || lia).
  - destruct task as [t|].
    + apply refuse_Ok in H as [_ H]. apply bind_Ok in H as ([jid j] & _ & H). destruct (bool_decide _) in H; [by eapply reserve_charged_row|].
      destruct (negb _) in H; [simplify_eq; apply reserved_none|]. by apply reserve_topup_row in H.
    + assert (∀ l, reserveServiceLeasePayoutFunding collate li c id now e l n k = Ok (r, b, c') → reserved_row c c' e r b n k) as Lease.
      { intros l X. unfold reserveServiceLeasePayoutFunding in X. apply refuse_Ok in X as [_ X].
        destruct (li_leases li !! l); [|simplify_eq; apply reserved_none]. destruct (negb _) in X; [simplify_eq; apply reserved_none|].
        destruct (_ || _) in X; [simplify_eq; apply reserved_none|]. by apply reserve_topup_row in X. }
      repeat match goal with
      | H : Ok _ = Ok _ |- _ => simplify_eq; apply reserved_none
      | H : reserveBuyerTopupPayoutFunding _ _ _ _ _ = Ok _ |- _ => by apply reserve_topup_row in H
      | H : reserveServiceLeasePayoutFunding _ _ _ _ _ _ _ _ _ = Ok _ |- _ => by eapply Lease
      | H : match ?x with _ => _ end = Ok _ |- _ => destruct x; try done
      end.
Qed.

Lemma op_of_None s e : pay_ok s → op_of s e = None → ∀ id op, payout_ops (ps_cash s) !! id = Some op → op_entry op ≠ e.
Proof using.
  intros O N id op L E. unfold op_of in N. destruct (find_row _ _) as [[i o]|] eqn:F.
  - apply find_row_Some in F as [Li _]. destruct (po_detail s O i) as [d D]; [eauto|]. by rewrite D in N.
  - apply (proj1 (find_row_None _ _)) with (i := id) (x := op) in F; [|done]. by apply bool_decide_eq_false in F.
Qed.

Lemma open_Ok s id now e i c m s' :
  pay_ok s → ps_credits s !! e = Some c → ps_settlements s !! e = Some m →
  (∃ f, fundings (ps_cash s) !! i = Some f ∧ fu_entry f = e ∧ fu_amount f = ms_cash m ∧ fu_currency f = cur) →
  open_operation s id now e i (sc_supplier c) (ms_cash m) cur = Ok s' →
  pay_ok s' ∧ moves_none s s' ∧ ps_credits s' = ps_credits s ∧ ps_settlements s' = ps_settlements s.
Proof using.
  intros O Lc Lm (f & Lf & F1 & F2 & F3) H. unfold open_operation in H. destruct (op_of s e) as [[[id0 op] d]|] eqn:Op.
  - apply op_of_Some in Op as [A Ae]. apply refuse_Ok in H as [_ H].
    assert (outside s s') as [K M] by same_op. split; [by apply (keeps_ok s)|]. split; [done|].
    apply update_op_Ok in H as [[-> _]|(? & ? & _ & _ & ->)]; done.
  - pose proof (op_of_None s e O Op) as No. apply refuse_Ok in H as [Fr H]. apply bool_decide_eq_false, dec_stable in Fr.
    unfold write_op in H. apply refuse_Ok in H as [Ck H]. apply refuse_Ok in H as [_ H]. simplify_eq.
    unfold op_checks in Ck. simpl in Ck. reflect_bools. split; [|split; [|done]].
    + destruct O as [O1 O2 O3 O4 O5 O6]. split; try done.
      * intros k x L. destruct (O1 k x L). by split.
      * intros k op d [Lo Ld]. simpl in *. apply lookup_insert_Some in Lo as [[<- <-]|[N Lo]].
        -- rewrite lookup_insert_eq in Ld. simplify_eq. split; simpl; eauto 10.
        -- rewrite lookup_insert_ne in Ld by done. destruct (O2 k op d) as [? ? ? ? ?]; [by split|]. by split.
      * intros k k' op op'. simpl. intros [[<- <-]|[N L]]%lookup_insert_Some [[<- <-]|[N' L']]%lookup_insert_Some E; [done| | |by eapply O3].
        -- by destruct (No k' op').
        -- by destruct (No k op).
      * intros k. simpl. intros [op L]. destruct (decide (id = k)) as [<-|N]; [rewrite lookup_insert_eq; eauto|].
        rewrite lookup_insert_ne in L by done. rewrite lookup_insert_ne by done. eauto.
    + intros k op d [Lo Ld] Mv. simpl in *. apply lookup_insert_Some in Lo as [[<- <-]|[N Lo]]; [done|].
      rewrite lookup_insert_ne in Ld by done. exists op, d. split; [by split|done].
Qed.

(** ** A claim *)

(** Credits stay with their suppliers and settlements stay. *)
Definition grows (s s' : paystore) : Prop :=
  (∀ e c, ps_credits s !! e = Some c → ∃ c', ps_credits s' !! e = Some c' ∧ sc_supplier c' = sc_supplier c) ∧
  (∀ e m, ps_settlements s !! e = Some m → ps_settlements s' !! e = Some m).

Lemma keeps_grows s s' : pay_keeps s s' → grows s s'.
Proof using.
  intros K. split; [|by rewrite (kp_settlements s s' K)].
  intros e c (c' & L & E & _)%(kp_credit s s' K). eauto.
Qed.

#[local] Instance grows_trans : Transitive grows.
Proof using.
  intros s1 s2 s3 [C M] [C' M']. split; [|auto]. intros e c (c' & L & E)%C. destruct (C' e c' L) as (c2 & L2 & E2).
  exists c2. split; [done|congruence].
Qed.

(** What a claim hands to the sender is what was settled for the credit. *)
Definition claimed_ok (s : paystore) (d : DueHeldEntry) : Prop :=
  ∃ c m, ps_credits s !! du_ID d = Some c ∧ ps_settlements s !! du_ID d = Some m ∧ du_SupplierID d = sc_supplier c ∧
    RequestedCents d = ms_cash m ∧ du_Currency d = cur.

Lemma claimed_grows s s' d : grows s s' → claimed_ok s d → claimed_ok s' d.
Proof using.
  intros [C M] (c & m & Lc & Lm & E1 & E2 & E3). destruct (C _ c Lc) as (c' & Lc' & E). exists c', m.
  split_and!; [done|by apply M|congruence|done..].
Qed.

Lemma reserved_keeps s c e i b n k : reserved_row (ps_cash s) c e i b n k → outside s (with_paycash s c).
Proof using.
  intros (F & P & _ & _). split; [split; simpl; try done; eauto|].
  - intros id op d [Lo Ld]. simpl in *. rewrite P in Lo. exists op, d. split; [by split|done].
  - intros id. by rewrite P.
  - intros id op d [Lo Ld] M. simpl in *. rewrite P in Lo. exists op, d. split; [by split|done].
Qed.

(** The ways a claim ends. *)
Lemma claim_cases s gate i j now e o s' :
  ClaimPayout st collate uuid_Parse s gate i j now e = Ok (o, s') →
  (o = None ∧ s' = s) ∨
  ∃ c cents rem s1, ps_credits s !! e = Some c ∧ payable_status (status_of s e) = true ∧
    accrueSupplierLiability st uuid_Parse s (sc_supplier c) e (sc_micros c) = Ok (cents, rem, s1) ∧
    ((o = None ∧ update_entry s1 e PayoutCarried None = Ok s') ∨
     ∃ fid funded cash, reserved_row (ps_cash s1) cash e fid funded cents cur ∧
       let s2 := with_paycash s1 cash in
       ((o = None ∧ update_entry s2 e PayoutAwaitingFunding None = Ok s') ∨
        ∃ s3 usd, funded = true ∧ open_operation s2 j now e fid (sc_supplier c) cents cur = Ok s3 ∧
          update_entry s3 e PayoutSending None = Ok s' ∧
          o = Some (mkDue e (sc_supplier c) usd (sc_micros c) cents rem supplierSettlementPolicyAccountAccrualV3 cur))).
Proof using.
  intros H. unfold ClaimPayout in H. apply bind_Ok in H as (manual & _ & H). destruct (ps_credits s !! e) as [c|] eqn:Lc; [|done].
  cbv zeta in H. match type of H with (if ?b then _ else _) = _ => destruct b end; [simplify_eq; by left|].
  destruct (_ || _) eqn:P in H; [simplify_eq; by left|]. do 2 apply orb_false_iff in P as [P _]. apply negb_false_iff in P.
  destruct (manual && _) in H; [simplify_eq; by left|].
  apply bind_Ok in H as ([[cents rem] s1] & A & H). destruct (cents =? 0) eqn:Z.
  - destruct (bool_decide _) in H; [|simplify_eq; by left]. apply bind_Ok in H as (s2 & U & H). simplify_eq. right. exists c, cents, rem, s1.
    split_and!; [done..|by left].
  - apply bind_Ok in H as (k & _ & H). apply bind_Ok in H as (mi & _ & H). apply bind_Ok in H as ([[fid funded] cash] & R & H).
    apply reserve_row in R. right. exists c, cents, rem, s1. split_and!; [done..|]. right. exists fid, funded, cash. split; [done|].
    destruct funded; simpl in H; [|apply bind_Ok in H as (s3 & U & H); simplify_eq; by left].
    apply bind_Ok in H as (s3 & Op & H). apply bind_Ok in H as (s4 & U & H). simplify_eq. right. exists s3, (microsToUSD mi). done.
Qed.

Lemma claim_Ok s gate i j now e o s' :
  pay_ok s → ClaimPayout st collate uuid_Parse s gate i j now e = Ok (o, s') →
  pay_ok s' ∧ moves_none s s' ∧ grows s s' ∧ ∀ d, o = Some d → claimed_ok s' d.
Proof using.
  intros O [[-> ->]|(c & cents & rem & s1 & Lc & _ & A & H)]%claim_cases.
  { split_and!; [done|reflexivity|apply keeps_grows; reflexivity|done]. }
  apply accrue_Ok in A as (O1 & (m & Lm & Em) & Gm & E1 & E2 & E3 & E4); [|done..].
  assert (moves_none s s1 ∧ grows s s1) as [M1 G1].
  { split; [|split; [rewrite E2; eauto|done]]. intros id op d [Lo Ld]. rewrite E1 in Lo. rewrite E3 in Ld. intros Mv.
    exists op, d. split; [by split|done]. }
  destruct H as [[-> U]|(fid & funded & cash & R & H)].
  { apply update_entry_outside in U as [K M]. split_and!; [by apply (keeps_ok s1)|by etrans|by etrans; [|apply keeps_grows]|done]. }
  destruct (reserved_keeps s1 cash _ _ _ _ _ R) as [K2 M2].
  assert (pay_ok (with_paycash s1 cash)) as O2 by (by apply (keeps_ok s1)). apply keeps_grows in K2.
  destruct H as [[-> U]|(s3 & usd & -> & Op & U & ->)]; apply update_entry_outside in U as [K M]; apply keeps_grows in K as G4.
  - split_and!; [by apply (keeps_ok (with_paycash s1 cash))|by do 2 (etrans; [eassumption|])|exact (grows_trans _ _ _ G1 (grows_trans _ _ _ K2 G4))|done].
  - destruct R as (_ & _ & _ & Fu). destruct (Fu eq_refl) as (f & Lf & F1 & F2 & F3). rewrite <-E2 in Lc. subst cents.
    eapply (open_Ok (with_paycash s1 cash) _ _ _ _ c m) in Op as (O3 & M3 & C3 & S3); [|done..|by exists f].
    assert (grows (with_paycash s1 cash) s3) as G3 by (split; [rewrite C3; eauto|by rewrite S3]).
    split_and!; [by apply (keeps_ok s3)|by do 3 (etrans; [eassumption|])|exact (grows_trans _ _ _ G1 (grows_trans _ _ _ K2 (grows_trans _ _ _ G3 G4)))|].
    intros d ?. simplify_eq. eapply claimed_grows; [exact G4|]. eapply claimed_grows; [exact G3|]. exists c, m. done.
Qed.

Lemma operations_op s x : x ∈ operations s → ∃ id op d, x = (op_entry op, (id, op, d)) ∧ op_at s id op d.
Proof using.
  unfold operations. intros ([id op] & In & Hx)%list_elem_of_omap. simpl in Hx. apply fmap_Some in Hx as (d & Ld & ->).
  apply elem_of_map_to_list in In. exists id, op, d. done.
Qed.

Lemma select_ops_sub p limit s x : x ∈ select_ops p limit s → x ∈ operations s ∧ p x.2.1.2 x.2.2 = true.
Proof using.
  unfold select_ops. intros In%elem_of_take. destruct In as (i & In & _). apply list_elem_of_lookup_2 in In.
  rewrite (merge_sort_Permutation _ _) in In. by apply list_elem_of_filter in In as [? In].
Qed.

Lemma collect_due_each s rows out d : collect_due s rows = Ok out → d ∈ out → ∃ x, x ∈ rows ∧ due_again s x = Ok d.
Proof using.
  revert out. induction rows as [|x rows IH]; intros out H In; simpl in H; [simplify_eq; by apply not_elem_of_nil in In|].
  apply bind_Ok in H as (d' & D & H). apply bind_Ok in H as (rest & R & H). simplify_eq. apply elem_of_cons in In as [->|In].
  - exists x. split; [left|done].
  - destruct (IH rest R In) as (y & Iy & Dy). exists y. split; [by right|done].
Qed.

(** What is asked again is what was settled, of an operation that may be asked again. *)
Lemma unknown_Ok s lease window limit now out s' d :
  pay_ok s → ClaimOutcomeUnknownPayouts s lease window limit now = Ok (out, s') → d ∈ out →
  claimed_ok s' d ∧ ∃ id op dt, op_at s id op dt ∧ du_ID d = op_entry op ∧
    retryable_unknown s (now - lease) (now - window) op dt = true.
Proof using.
  intros O H In. pose proof (unknown_outside _ _ _ _ _ _ _ H) as [K _]. unfold ClaimOutcomeUnknownPayouts in H.
  destruct (_ || _) in H; [simplify_eq; by apply not_elem_of_nil in In|]. apply bind_Ok in H as (o & C & H).
  apply bind_Ok in H as (s1 & F & H). simplify_eq. destruct (collect_due_each _ _ _ _ C In) as (x & [Ix P]%select_ops_sub & D).
  apply operations_op in Ix as (id & op & dt & -> & A). destruct (po_op s O id op dt A) as [(c & Lc & Ec) (m & Lm & Em) _ Cu _].
  unfold due_again in D. rewrite Lm in D. apply bind_Ok in D as (? & _ & D). apply bind_Ok in D as (? & _ & D). simplify_eq. split.
  - eapply claimed_grows; [by apply keeps_grows|]. exists c, m. done.
  - exists id, op, dt. done.
Qed.

(** ** An answer *)

(** Only the payout a moving result answers comes to say that cash moved. *)
Definition moves_at (s s' : paystore) (e : UUID) : Prop :=
  ∀ id op d, op_at s' id op d → op_cash_moved op = true →
    (∃ op0 d0, op_at s id op0 d0 ∧ op_cash_moved op0 = true ∧ identified op0 op d0 d) ∨ op_entry op = e.

Lemma finalize_Ok s e r now x s' :
  FinalizePayout st s e r now = Ok (x, s') →
  pay_keeps s s' ∧ if CashMoved r then moves_at s s' e else moves_none s s'.
Proof using.
  unfold FinalizePayout. cbv zeta. intros (u & _ & H)%bind_Ok. destruct (entry_status _ !! e) as [ls|]; [|done].
  destruct (ps_credits s !! e) as [c|]; [|done]. destruct (op_of s e) as [[[id op] d]|] eqn:O; [|done].
  destruct (ps_settlements s !! e) as [m|]; [|done]. destruct (op_funding op ≫= _) as [f|]; [|done].
  apply op_of_Some in O as [O Eo]. apply refuse_Ok in H as [_ H]. apply bind_Ok in H as ([] & _ & H). destruct (CashMoved r).
  - apply refuse_Ok in H as [_ H]. apply bind_Ok in H as (fin & _ & H). apply bind_Ok in H as (s1 & U & H).
    apply bind_Ok in H as (s2 & V & H). simplify_eq. apply update_entry_outside in V as [K2 M2].
    split; [etrans; [by eapply update_op_keeps|done]|]. intros i o dt A Mv. destruct (M2 i o dt A Mv) as (o1 & d1 & A1 & Mv1 & I1).
    apply update_op_Ok in U as [[-> _]|(op0 & d0 & A0 & I0 & ->)]; [left; by exists o1, d1|]. destruct A1 as [L1 L2]. simpl in *.
    destruct (decide (id = i)) as [<-|N].
    + right. rewrite lookup_insert_eq in L1. simplify_eq. by destruct I1 as [-> _].
    + left. rewrite lookup_insert_ne in L1 by done. rewrite lookup_insert_ne in L2 by done. exists o1, d1. split; [by split|done].
  - destruct (_ || _) in H; [|apply refuse_Ok in H as [_ H]]; apply bind_Ok in H as (s1 & U & H); apply bind_Ok in H as (s2 & V & H);
      simplify_eq; apply update_entry_outside in V; (apply (update_op_outside _ _ _ _ _ _ _ O) in U; [|simpl; auto]);
      exact (outside_trans _ _ _ U V).
Qed.

Lemma answer_Ok err_text s d b a now s' :
  record_answer st err_text s d b a now = Ok s' →
  pay_keeps s s' ∧ match a with
                   | Ok r => if CashMoved r then moves_at s s' (du_ID d) else moves_none s s'
                   | Err _ => moves_none s s'
                   end.
Proof using.
  unfold record_answer. destruct a as [r|err].
  - intros ([x s1] & F & H)%bind_Ok. simplify_eq. by eapply finalize_Ok.
  - intros ([x s1] & F & H)%bind_Ok. simplify_eq. destruct (_ || _) in F; [by eapply mark_unknown_outside|by eapply defer_outside].
Qed.

(** ** Payouts on their way *)

(** A credit that may still be claimed, one way or another. *)
Definition unsent_status (status : string) : bool :=
  one_of status ["pending"; PayoutHeld; PayoutReady; PayoutAwaitingFunding; PayoutCarried].

Definition locked (s : paystore) (e : UUID) : Prop := unsent_status (status_of s e) = false.

(** The provider may have been reached, or the payout was reversed: it is not sent
    again under a new claim. *)
Definition spoken (s : paystore) (op : payout_op) (d : payout_detail) : Prop :=
  op_outcome_unknown op = true ∨ op_cash_moved op = true ∨ pd_transfer d ≠ None ∨
  (op_status op = PayoutReversed ∧ status_of s (op_entry op) = PayoutReversed).

Definition kept (s s' : paystore) (id : UUID) (op : payout_op) (d : payout_detail) : Prop :=
  ∃ op' d', op_at s' id op' d' ∧ identified op op' d d' ∧ locked s' (op_entry op) ∧ (spoken s op d → spoken s' op' d').

(** What has left stays on its way. *)
Definition stays (s s' : paystore) : Prop := ∀ id op d, op_at s id op d → locked s (op_entry op) → kept s s' id op d.

#[local] Instance stays_refl : Reflexive stays.
Proof using. intros s id op d A L. exists op, d. by split_and!. Qed.

#[local] Instance stays_trans : Transitive stays.
Proof using.
  intros s1 s2 s3 H1 H2 id op d A L. destruct (H1 id op d A L) as (op2 & d2 & A2 & I2 & L2 & S2).
  assert (op_entry op2 = op_entry op) as E by apply I2. destruct (H2 id op2 d2 A2) as (op3 & d3 & A3 & I3 & L3 & S3); [by rewrite E|].
  exists op3, d3. split_and!; [done|by eapply identified_trans|by rewrite <-E|auto].
Qed.

(** Rows of other payouts are left alone. *)
Lemma row_kept s s' id op d :
  op_at s' id op d → status_of s' (op_entry op) = status_of s (op_entry op) → locked s (op_entry op) → kept s s' id op d.
Proof using.
  intros A E L. exists op, d. unfold locked, spoken. rewrite E. by split_and!.
Qed.

Lemma update_op_status s id op' d' s1 e : update_op s id op' d' = Ok s1 → status_of s1 e = status_of s e.
Proof using. by intros [[-> _]|(? & ? & _ & _ & ->)]%update_op_Ok. Qed.

Lemma update_op_other s id op' d' s1 i op d : update_op s id op' d' = Ok s1 → i ≠ id → op_at s1 i op d ↔ op_at s i op d.
Proof using.
  intros [[-> _]|(? & ? & _ & _ & ->)]%update_op_Ok N; [done|]. unfold op_at. simpl. by rewrite !lookup_insert_ne by done.
Qed.

Lemma update_op_at s id op d op' d' s1 :
  op_at s id op d → update_op s id op' d' = Ok s1 → op_at s1 id op' d' ∧ identified op op' d d'.
Proof using.
  intros [L1 L2] [[-> [N|N]]|(op0 & d0 & [A1 A2] & I & ->)]%update_op_Ok; [congruence..|]. simplify_eq.
  split; [|done]. split; simpl; by rewrite lookup_insert_eq.
Qed.

Lemma update_entry_op s e status ref s1 id op d : update_entry s e status ref = Ok s1 → op_at s1 id op d ↔ op_at s id op d.
Proof using. by intros [->|(? & ? & _ & _ & _ & _ & _ & ->)]%update_entry_Ok. Qed.

Lemma update_entry_other s e status ref s1 e' : update_entry s e status ref = Ok s1 → e' ≠ e → status_of s1 e' = status_of s e'.
Proof using.
  intros [->|(? & ? & _ & _ & _ & _ & _ & ->)]%update_entry_Ok N; [done|]. unfold status_of. simpl. by rewrite lookup_insert_ne.
Qed.

Lemma update_entry_status s e status ref s1 :
  is_Some (ps_credits s !! e) → is_Some (entry_status (ps_cash s) !! e) → update_entry s e status ref = Ok s1 → status_of s1 e = status.
Proof using.
  intros [c L] [x X]. unfold update_entry. rewrite L, X. cbv zeta. intros H. do 3 apply refuse_Ok in H as [_ H]. simplify_eq.
  unfold status_of. simpl. by rewrite lookup_insert_eq.
Qed.

Lemma entry_known s e : status_of s e ≠ "" → is_Some (entry_status (ps_cash s) !! e).
Proof using. unfold status_of. destruct (entry_status _ !! e); [eauto|done]. Qed.

Lemma op_known s id op d : pay_ok s → op_at s id op d → is_Some (ps_credits s !! op_entry op).
Proof using. intros O A. destruct (po_op s O id op d A) as [(c & L & _) _ _ _ _]. eauto. Qed.

Lemma other_entry s id op d i op' d' : pay_ok s → op_at s id op d → op_at s i op' d' → i ≠ id → op_entry op' ≠ op_entry op.
Proof using. intros O [L _] [L' _] N E. apply N. by eapply (po_unique s O). Qed.

(** An operation and its entry move together. *)
Lemma move_stays s id op d op' d' status ref s1 s2 :
  pay_ok s → op_at s id op d → is_Some (entry_status (ps_cash s) !! op_entry op) →
  update_op s id op' d' = Ok s1 → update_entry s1 (op_entry op) status ref = Ok s2 → unsent_status status = false →
  (spoken s op d → op_outcome_unknown op' = true ∨ op_cash_moved op' = true ∨ pd_transfer d' ≠ None ∨
     op_status op' = PayoutReversed ∧ status = PayoutReversed) →
  stays s s2.
Proof using.
  intros O A Es U V Un Sp i o dt Ai Li. destruct (decide (i = id)) as [->|N].
  - destruct A as [A1 A2], Ai as [A1' A2']. simplify_eq. destruct (update_op_at s id op d op' d' s1) as [A' I]; [by split|done|].
    assert (status_of s2 (op_entry op) = status) as St.
    { eapply update_entry_status; [| |exact V]; [|by apply update_op_Ok in U as [[-> _]|(? & ? & _ & _ & ->)]].
      apply update_op_keeps in U as K. destruct (op_known s id op d O) as [c Lc]; [by split|].
      destruct (kp_credit s s1 K _ c Lc) as (c' & L' & _). eauto. }
    exists op', d'. split; [by eapply update_entry_op|]. split; [done|]. split; [unfold locked; by rewrite St|].
    intros [?|[?|[?|[? ?]]]]%Sp; unfold spoken; auto. do 3 right. destruct I as [-> _]. by rewrite St.
  - apply row_kept; [|erewrite update_entry_other by (done || by eapply other_entry); by eapply update_op_status|done].
    rewrite update_entry_op by done. by rewrite update_op_other.
Qed.

(** Only the operation moves. *)
Lemma op_stays s id op d op' d' s1 :
  pay_ok s → op_at s id op d → update_op s id op' d' = Ok s1 → (spoken s op d → spoken s op' d') → stays s s1.
Proof using.
  intros O A U Sp i o dt Ai Li. pose proof (update_op_status s id op' d' s1 (op_entry o) U) as St. destruct (decide (i = id)) as [->|N].
  - destruct A as [A1 A2], Ai as [A1' A2']. simplify_eq. destruct (update_op_at s id op d op' d' s1) as [A' I]; [by split|done|].
    exists op', d'. split; [done|]. split; [done|]. unfold locked, spoken in *. destruct I as [E _]. rewrite E in *. by rewrite St.
  - apply row_kept; [|done..]. by rewrite update_op_other.
Qed.

(** Only the entry moves. *)
Lemma entry_stays s e status ref s1 :
  update_entry s e status ref = Ok s1 → (locked s e → unsent_status status = false ∧ status_of s e ≠ PayoutReversed) → stays s s1.
Proof using.
  intros V Un i o dt A L. destruct (decide (op_entry o = e)) as [<-|N]; [|apply row_kept; [by eapply update_entry_op|by eapply update_entry_other|done]].
  destruct (Un L) as [Un' Nr]. exists o, dt. split; [by eapply update_entry_op|]. split; [done|].
  assert (locked s1 (op_entry o)) as L1.
  { apply update_entry_Ok in V as [->|(? & ? & _ & _ & _ & _ & _ & ->)]; [done|]. unfold locked, status_of. simpl. by rewrite lookup_insert_eq. }
  split; [done|]. unfold spoken. intros [?|[?|[?|[? ?]]]]; auto; done.
Qed.

Lemma spoken_same s op op' d d' :
  op_outcome_unknown op' = op_outcome_unknown op → op_cash_moved op' = op_cash_moved op → pd_transfer d' = pd_transfer d →
  spoken s op d → op_status op ≠ PayoutReversed →
  op_outcome_unknown op' = true ∨ op_cash_moved op' = true ∨ pd_transfer d' ≠ None ∨ False.
Proof using. intros -> -> -> [?|[?|[?|[? _]]]] N; auto; done. Qed.

Lemma expire_stays s e s' : pay_ok s → expire_sending s e = Ok s' → stays s s'.
Proof using.
  intros O H. unfold expire_sending in H. destruct (op_of s e) as [[[id op] d]|] eqn:Op; [|by simplify_eq].
  apply op_of_Some in Op as [A <-]. destruct (_ && _); [|by simplify_eq]. apply bind_Ok in H as (s1 & U & H).
  case_bool_decide as B; [|simplify_eq; eapply op_stays; [done..|by left]].
  eapply move_stays; [done..| |exact U|exact H|done|by left]. rewrite (update_op_status _ _ _ _ _ _ U) in B.
  apply entry_known. by rewrite B.
Qed.

Lemma for_each_stays {A} (f : paystore → A → res paystore) l s s' :
  (∀ s x s', pay_ok s → f s x = Ok s' → stays s s') → (∀ s x s', f s x = Ok s' → outside s s') →
  pay_ok s → for_each f l s = Ok s' → stays s s'.
Proof using.
  intros St Out. revert s. induction l as [|x l IH]; intros s O H; simpl in H; [by simplify_eq|].
  apply bind_Ok in H as (s1 & F & H). etrans; [by eapply St|]. apply IH; [|done]. apply Out in F as [K _]. by apply (keeps_ok s).
Qed.

Lemma recover_stays s lease limit now n s' : pay_ok s → RecoverStalePayoutOperations s lease limit now = Ok (n, s') → stays s s'.
Proof using.
  intros O. unfold RecoverStalePayoutOperations. destruct (_ <=? _); [intros; by simplify_eq|]. intros (s1 & F & H)%bind_Ok. simplify_eq.
  eapply for_each_stays; [apply expire_stays|apply expire_sending_outside|done..].
Qed.

Lemma touch_unknown_stays now s e s' : pay_ok s → touch_unknown now s e = Ok s' → stays s s'.
Proof using.
  intros O H. unfold touch_unknown in H. destruct (op_of s e) as [[[id op] d]|] eqn:Op; [|by simplify_eq].
  apply op_of_Some in Op as [A _]. destruct (_ && _); [|by simplify_eq]. by eapply op_stays.
Qed.

Lemma unknown_stays s lease window limit now out s' :
  pay_ok s → ClaimOutcomeUnknownPayouts s lease window limit now = Ok (out, s') → stays s s'.
Proof using.
  intros O. unfold ClaimOutcomeUnknownPayouts. destruct (_ || _); [intros; by simplify_eq|]. intros (o & _ & H)%bind_Ok.
  apply bind_Ok in H as (s1 & F & H). simplify_eq. eapply for_each_stays; [apply touch_unknown_stays|apply touch_unknown_outside|done..].
Qed.

Lemma mark_unknown_stays s e cause now r s' : pay_ok s → MarkPayoutOutcomeUnknown s e cause now = Ok (r, s') → stays s s'.
Proof using.
  intros O. unfold MarkPayoutOutcomeUnknown. destruct (entry_status _ !! e) as [ls|] eqn:Es; [|done].
  destruct (op_of s e) as [[[id op] d]|] eqn:Op; [|done].
  apply op_of_Some in Op as [A <-]. intros H. apply refuse_Ok in H as [_ H]. apply refuse_Ok in H as [_ H]. cbv zeta in H.
  apply bind_Ok in H as (s1 & U & H). apply bind_Ok in H as (s2 & V & H). simplify_eq.
  eapply move_stays; [done|done|eauto|exact U|exact V|by destruct (_ || _)|by left].
Qed.

Lemma start_reversal_stays now s e s' : pay_ok s → start_reversal now s e = Ok s' → stays s s'.
Proof using.
  intros O. unfold start_reversal. destruct (op_of s e) as [[[id op] d]|] eqn:Op; [|done]. apply op_of_Some in Op as [A <-]. intros H.
  apply refuse_Ok in H as [G H]. apply bind_Ok in H as (s1 & U & H). apply refuse_Ok in H as [G' H].
  rewrite (update_op_status _ _ _ _ _ _ U) in G'.
  eapply move_stays; [done|done| |exact U|exact H|done|].
  - apply entry_known. intros E. by rewrite E in G'.
  - intros S. destruct (spoken_same s op (with_op op "reversing" (op_cash_moved op) (op_outcome_unknown op) (op_error op)) d (touched d now)) as [?|[?|[?|[]]]];
      auto. intros E. by rewrite E in G.
Qed.

Lemma claim_reversals_stays s lease limit now out s' : pay_ok s → ClaimReversals s lease limit now = Ok (out, s') → stays s s'.
Proof using.
  intros O. unfold ClaimReversals. destruct (_ <=? _); [intros; by simplify_eq|]. intros (s1 & F & H)%bind_Ok. simplify_eq.
  eapply for_each_stays; [apply start_reversal_stays|apply start_reversal_outside|done..].
Qed.

Lemma finalize_reversal_stays s e r now x s' : pay_ok s → FinalizeReversal s e r now = Ok (x, s') → stays s s'.
Proof using.
  intros O. unfold FinalizeReversal. cbv zeta. intros (u & _ & H)%bind_Ok. destruct (entry_status _ !! e) as [ls|] eqn:Es; [|done].
  destruct (op_of s e) as [[[id op] d]|] eqn:Op; [|done]. apply op_of_Some in Op as [A <-].
  destruct (_ && _) in H; [apply refuse_Ok in H as [_ H]; by simplify_eq|]. do 3 apply refuse_Ok in H as [_ H].
  apply bind_Ok in H as (s1 & U & H). apply bind_Ok in H as (s2 & V & H). simplify_eq.
  eapply move_stays; [done|done|eauto|exact U|exact V|done|by auto].
Qed.

Lemma reversal_failed_stays s e cause now s' : pay_ok s → MarkReversalFailed s e cause now = Ok s' → stays s s'.
Proof using.
  intros O. unfold MarkReversalFailed. cbv zeta. destruct (entry_status _ !! e) as [ls|] eqn:Es; [|done].
  destruct (op_of s e) as [[[id op] d]|] eqn:Op; [|done]. apply op_of_Some in Op as [A <-]. intros H.
  destruct (_ || _) eqn:R in H; [by simplify_eq|]. apply orb_false_iff in R as [R1 R2]. apply bool_decide_eq_false in R1, R2.
  apply refuse_Ok in H as [_ H]. apply bind_Ok in H as (s1 & U & H).
  destruct (one_of _ _) in U.
  - eapply move_stays; [done|done|eauto|exact U|exact H|done|]. intros S.
    destruct (spoken_same s op (with_op op "reversal_required" (op_cash_moved op) (op_outcome_unknown op)
      (Some (from_option (λ t, truncate t 500) "provider reversal failed" cause))) d (touched d now)) as [?|[?|[?|[]]]]; auto.
  - simplify_eq. eapply entry_stays; [exact H|]. intros _. split; [done|]. unfold status_of. by rewrite Es.
Qed.

Lemma record_refund_stays s e ref now s' : pay_ok s → RecordReversalRefundRef s e ref now = Ok s' → stays s s'.
Proof using.
  intros O. unfold RecordReversalRefundRef. cbv zeta. intros H. apply refuse_Ok in H as [_ H].
  destruct (op_of s e) as [[[id op] d]|] eqn:Op; [|done]. apply op_of_Some in Op as [A _].
  destruct (_ && _) in H; [by eapply op_stays|]. destruct (_ && _) in H; by simplify_eq.
Qed.

Lemma finalize_stays s e r now x s' : pay_ok s → FinalizePayout st s e r now = Ok (x, s') → stays s s'.
Proof using.
  intros O. unfold FinalizePayout. cbv zeta. intros (u & _ & H)%bind_Ok. destruct (entry_status _ !! e) as [ls|] eqn:Es; [|done].
  destruct (ps_credits s !! e) as [c|]; [|done]. destruct (op_of s e) as [[[id op] d]|] eqn:Op; [|done].
  destruct (ps_settlements s !! e) as [m|]; [|done]. destruct (op_funding op ≫= _) as [f|]; [|done].
  apply op_of_Some in Op as [A <-]. apply refuse_Ok in H as [_ H]. apply bind_Ok in H as ([] & _ & H). destruct (CashMoved r).
  - apply refuse_Ok in H as [_ H]. apply bind_Ok in H as (fin & F & H). apply bind_Ok in H as (s1 & U & H).
    apply bind_Ok in H as (s2 & V & H). simplify_eq. eapply move_stays; [done|done|eauto|exact U|exact V| |by right; left].
    destruct (_ || _) in F; [by simplify_eq|]. destruct (in_flight _ _) in F; by simplify_eq.
  - destruct (_ || _) in H; [|apply refuse_Ok in H as [_ H]]; apply bind_Ok in H as (s1 & U & H); apply bind_Ok in H as (s2 & V & H);
      simplify_eq; (eapply move_stays; [done|done|eauto|exact U|exact V|done|by do 2 right; left]).
Qed.

(** A deferral frees its own payout, unless the provider may have been reached. *)
Definition stays_but (e : UUID) (s s' : paystore) : Prop :=
  ∀ id op d, op_at s id op d → locked s (op_entry op) → op_entry op ≠ e ∨ spoken s op d → kept s s' id op d.

Lemma stays_stays_but e s s' : stays s s' → stays_but e s s'.
Proof using. intros H id op d A L _. by apply H. Qed.

Lemma update_pair_but s id op d op' d' status ref s1 s2 :
  pay_ok s → op_at s id op d → ¬ spoken s op d → update_op s id op' d' = Ok s1 → update_entry s1 (op_entry op) status ref = Ok s2 →
  stays_but (op_entry op) s s2.
Proof using.
  intros O A Ns U V i o dt Ai Li Or. destruct (decide (i = id)) as [->|N].
  - destruct A as [A1 A2], Ai as [A1' A2']. simplify_eq. destruct Or; done.
  - apply row_kept; [|erewrite update_entry_other by (done || by eapply other_entry); by eapply update_op_status|done].
    rewrite update_entry_op by done. by rewrite update_op_other.
Qed.

Lemma entry_but s e status ref s1 :
  pay_ok s → (∀ id op d, op_at s id op d → op_entry op = e → ¬ spoken s op d) → update_entry s e status ref = Ok s1 → stays_but e s s1.
Proof using.
  intros O Ns V i o dt A L [N|Sp]; [|destruct (decide (op_entry o = e)) as [E|N]; [by destruct (Ns i o dt)|]];
    (apply row_kept; [by eapply update_entry_op|by eapply update_entry_other|done]).
Qed.

Lemma op_of_unique s e id op d i o dt :
  pay_ok s → op_of s e = Some (id, op, d) → op_at s i o dt → op_entry o = e → o = op ∧ dt = d.
Proof using.
  intros O [[L D] <-]%op_of_Some [L' D'] E. assert (i = id) as -> by (by eapply (po_unique s O)). by simplify_eq.
Qed.

Lemma defer_but s e cause now r s' : pay_ok s → DeferPayout s e cause now = Ok (r, s') → stays_but e s s'.
Proof using.
  intros O. unfold DeferPayout. destruct (entry_status _ !! e) as [ls|] eqn:Es; [|done].
  destruct (ps_credits s !! e) as [c|]; [|done]. cbv zeta. intros H. apply refuse_Ok in H as [G H]. reflect_bools.
  destruct (op_of s e) as [[[id op] d]|] eqn:Op; simpl in *.
  - assert (stays_but e s s) as Same by apply stays_stays_but, stays_refl. apply op_of_Some in Op as Op'. destruct Op' as [A Eo].
    destruct (op_outcome_unknown op) eqn:Un; [apply refuse_Ok in H as [_ H]; by simplify_eq|].
    assert (ls ≠ PayoutReversed → ¬ spoken s op d) as Ns.
    { intros N [?|[?|[X|[_ X]]]]; [congruence..|by apply X|]. unfold status_of in X. rewrite Eo, Es in X. by apply N. }
    destruct (bool_decide (ls = PayoutReversalRequired)) eqn:B1 in H;
      [destruct (negb _) in H; [by simplify_eq|]; destruct (disputed _ _) in H; [by simplify_eq|]|
       destruct (negb _) eqn:B2 in H; [by simplify_eq|]].
    + apply bool_decide_eq_true in B1. apply bind_Ok in H as (s1 & U & H). apply bind_Ok in H as (s2 & V & H). simplify_eq.
      eapply update_pair_but; [done|done|by apply Ns|exact U|exact V].
    + apply negb_false_iff, bool_decide_eq_true in B2.
      apply bind_Ok in H as (s1 & U & H). apply bind_Ok in H as (s2 & V & H). simplify_eq.
      destruct (bool_decide _) in U; [eapply update_pair_but; [done|done|by apply Ns|exact U|exact V]|]. simplify_eq.
      eapply entry_but; [done| |exact V]. intros i o dt Ai Ei. destruct (op_of_unique _ _ _ _ _ _ _ _ O Op Ai Ei) as [-> ->]. by apply Ns.
  - assert (stays_but e s s) as Same by apply stays_stays_but, stays_refl.
    destruct (bool_decide _) in H; [by simplify_eq|]. destruct (negb _) in H; [by simplify_eq|].
    apply bind_Ok in H as (s2 & V & H). simplify_eq. eapply entry_but; [done| |exact V].
    intros i o dt [Ai _] Ei. by destruct (op_of_None s e O Op i o Ai).
Qed.

Lemma target_entry xs ops e : reversal_target xs ops e = true → ∃ id op, ops !! id = Some op ∧ op_entry op = e ∧ op_status op ≠ PayoutReversed.
Proof using.
  unfold reversal_target. intros ([id op] & In & B)%existsb_exists. apply list_elem_of_In, elem_of_map_to_list in In.
  simpl in B. apply andb_true_iff in B as [E B]. apply bool_decide_eq_true in E. exists id, op. split_and!; [done..|]. intros R.
  unfold is_reversal in B. rewrite R in B. simpl in B. by rewrite !andb_false_r in B.
Qed.

Lemma event_stays s e r c' : pay_ok s → ApplyPaymentEventTx (ps_cash s) e = Ok (r, c') → stays s (with_paycash s c').
Proof using.
  intros O [_ [->|[[P S]|(pi & u & xs & P & S)]]]%event_ops id op d A L; [by apply row_kept..| |].
  - apply row_kept; [|unfold status_of; simpl; by rewrite S|done]. destruct A as [A D]. split; simpl; [by rewrite P|done].
  - destruct A as [A D]. destruct (required_op pi e u xs op) as (E1 & E2 & E3 & E4 & E5).
    assert (op_at (with_paycash s c') id (require_reversal pi e u xs op) d) as A' by (split; simpl; [by rewrite P, lookup_fmap, A|done]).
    assert (∀ x, status_of (with_paycash s c') x = status_of s x ∨ status_of (with_paycash s c') x = "reversal_required" ∧
                 reversal_target xs (payout_ops (ps_cash s)) x = true) as St.
    { intros x. unfold status_of. simpl. rewrite S, map_lookup_imap. destruct (entry_status _ !! x); simpl; [|by left].
      destruct (reversal_target _ _ _); auto. }
    exists (require_reversal pi e u xs op), d. split; [done|]. split; [by split_and!|]. unfold locked, spoken in *.
    rewrite E1, E3, E4. split; [destruct (St (op_entry op)) as [->|[-> _]]; done|].
    intros [?|[?|[?|[R X]]]]; auto. do 3 right. rewrite (E5 R). split; [done|].
    destruct (St (op_entry op)) as [->|[_ (i & o & Li & Ei & Ni)%target_entry]]; [done|].
    assert (i = id) as -> by (by eapply (po_unique s O)). by simplify_eq.
Qed.

(** *** A claim takes a credit that has not left *)

Lemma update_entry_unlocked s e status ref s1 : ¬ locked s e → update_entry s e status ref = Ok s1 → stays s s1.
Proof using. intros N V. by eapply entry_stays. Qed.

(** The rows a claim works on before it opens the operation. *)
Lemma stays_tables s s' : payout_ops (ps_cash s') = payout_ops (ps_cash s) → ps_details s' = ps_details s →
  entry_status (ps_cash s') = entry_status (ps_cash s) → stays s s'.
Proof using.
  intros P D S id op d [A1 A2] L. apply row_kept; [|unfold status_of; by rewrite S|done]. split; [by rewrite P|by rewrite D].
Qed.

Lemma open_stays s id now e i u n k s' :
  pay_ok s → ¬ locked s e → open_operation s id now e i u n k = Ok s' →
  stays s s' ∧ status_of s' e = status_of s e ∧ ps_credits s' = ps_credits s ∧
  (∃ id op d, op_at s' id op d ∧ op_entry op = e) ∧
  (∀ id op d, op_at s' id op d → pd_created d = now ∨ ∃ op0 d0, op_at s id op0 d0 ∧ pd_created d = pd_created d0).
Proof using.
  intros O N H. unfold open_operation in H. destruct (op_of s e) as [[[id0 op] d]|] eqn:Op.
  - apply op_of_Some in Op as [A Ae]. apply refuse_Ok in H as [_ H]. destruct (update_op_at _ _ _ _ _ _ _ A H) as [A' I].
    split.
    { eapply op_stays; [done|exact A|exact H|]. intros [?|[?|[?|[R X]]]]; unfold spoken; simpl; auto.
      destruct N. unfold locked. rewrite Ae in X. by rewrite X. }
    split; [by eapply update_op_status|]. split; [by apply update_op_Ok in H as [[-> _]|(? & ? & _ & _ & ->)]|]. split; [by eauto|]. intros i' o dt Ai. right.
    apply update_op_keeps in H. destruct (kp_op _ _ H i' o dt Ai) as (op0 & d0 & A0 & I0). exists op0, d0. split; [done|apply I0].
  - apply refuse_Ok in H as [Fr H]. apply bool_decide_eq_false, dec_stable in Fr.
    unfold write_op in H. apply refuse_Ok in H as [Ck H]. apply refuse_Ok in H as [_ H]. simplify_eq. split_and!.
    + intros j o dt [L D] Lk. apply row_kept; [|done..]. assert (id ≠ j) by congruence. split; simpl; by rewrite lookup_insert_ne.
    + done.
    + done.
    + exists id. eexists _, _. split; [split; simpl; by rewrite lookup_insert_eq|done].
    + intros j o dt [L D]. simpl in *. destruct (decide (id = j)) as [<-|Nj].
      * rewrite lookup_insert_eq in D. simplify_eq. by left.
      * rewrite lookup_insert_ne in L by done. rewrite lookup_insert_ne in D by done. right. exists o, dt. split; [by split|done].
Qed.

Definition dated (now : Z) (s s' : paystore) : Prop :=
  ∀ id op d, op_at s' id op d → pd_created d = now ∨ ∃ op0 d0, op_at s id op0 d0 ∧ pd_created d = pd_created d0.

Lemma keeps_dated now s s' : pay_keeps s s' → dated now s s'.
Proof using. intros K id op d (op0 & d0 & A & I)%(kp_op s s' K). right. exists op0, d0. split; [done|apply I]. Qed.

Lemma payable_unlocked s e : payable_status (status_of s e) = true → ¬ locked s e.
Proof using.
  unfold locked. intros P L. assert (∀ x, payable_status x = true → unsent_status x = true) as X.
  { clear. intros x. unfold payable_status, unsent_status, one_of. rewrite !bool_decide_eq_true. set_solver. }
  by rewrite (X _ P) in L.
Qed.

Lemma claim_stays s gate i j now e o s' :
  pay_ok s → ClaimPayout st collate uuid_Parse s gate i j now e = Ok (o, s') →
  stays s s' ∧ dated now s s' ∧
  ∀ d, o = Some d → du_ID d = e ∧ ¬ locked s e ∧ locked s' e ∧ ∃ id op dt, op_at s' id op dt ∧ op_entry op = e.
Proof using.
  intros O [[-> ->]|(c & cents & rem & s1 & Lc & P & A & H)]%claim_cases.
  { split_and!; [reflexivity|apply keeps_dated; reflexivity|done]. }
  assert (status_of s e ≠ "") as Ns by (intros X; by rewrite X in P). apply payable_unlocked in P.
  apply accrue_Ok in A as (O1 & _ & _ & E1 & E2 & E3 & E4); [|done..].
  assert (stays s s1) as S1 by (apply stays_tables; congruence).
  assert (¬ locked s1 e) as P1 by (unfold locked, status_of; by rewrite E1).
  destruct H as [[-> U]|(fid & funded & cash & R & H)].
  { split_and!; [by etrans; [|eapply update_entry_unlocked]| |done]. apply update_entry_outside in U as [K _].
    intros id op d (op0 & d0 & [A1 A2] & I)%(kp_op _ _ K). right. exists op0, d0. rewrite E1 in A1. rewrite E3 in A2.
    split; [by split|apply I]. }
  destruct (reserved_keeps s1 cash _ _ _ _ _ R) as [K2 _]. destruct R as (_ & E5 & E6 & _). set (s2 := with_paycash s1 cash) in *.
  assert (pay_ok s2) as O2 by (by apply (keeps_ok s1)). assert (stays s1 s2) as S2 by (by apply stays_tables).
  assert (status_of s2 e = status_of s e) as E by (unfold status_of; simpl; by rewrite E6, E1).
  assert (¬ locked s2 e) as P2 by (unfold locked; by rewrite E).
  assert (∀ id op d, op_at s2 id op d → op_at s id op d) as Old.
  { intros id op d [A1 A2]. simpl in *. split; congruence. }
  destruct H as [[-> U]|(s3 & usd & -> & Op & U & ->)].
  - split_and!; [etrans; [exact S1|etrans; [exact S2|by eapply update_entry_unlocked]]| |done]. apply update_entry_outside in U as [K _].
    intros id op d (op0 & d0 & A0 & I)%(kp_op _ _ K). right. exists op0, d0. split; [by apply Old|apply I].
  - apply open_stays in Op as (S3 & E3' & C3 & (id & op & dt & Ao & Ae) & D3); [|done..].
    assert (¬ locked s3 e) as P3 by (unfold locked; by rewrite E3').
    split; [etrans; [exact S1|etrans; [exact S2|etrans; [exact S3|by eapply update_entry_unlocked]]]|]. split.
    + apply update_entry_outside in U as [K _]. intros i0 op0 d0 (op1 & d1 & A1 & I)%(kp_op _ _ K).
      destruct (D3 _ _ _ A1) as [X|(op2 & d2 & A2%Old & X)]; [left; by rewrite <-X; apply I|right].
      exists op2, d2. split; [done|]. rewrite <-X. apply I.
    + intros d [= <-]. split; [done|]. split; [done|]. split; [|exists id, op, dt; split; [by eapply update_entry_op|done]].
      unfold locked. assert (status_of s' e = PayoutSending) as ->; [|done].
      eapply update_entry_status; [| |exact U]; [rewrite C3; simpl; rewrite E2; eauto|apply entry_known; by rewrite E3', E].
Qed.

(** ** An answer can be recorded *)

Lemma wrap64_wrap_l x y : wrap64 x +w y = wrap64 (x + y).
Proof using. clear. go_lia. Qed.

Lemma require_own k : SettlementCurrency st = Ok k → RequireSettlementCurrency st cur = Ok tt.
Proof using.
  intros S. destruct (settlement_unit k S) as [E _]. unfold RequireSettlementCurrency. rewrite S, <-E. simpl.
  assert (Currency_Valid k = true) as V.
  { unfold SettlementCurrency in S. apply refuse_Ok in S as [_ S]. apply refuse_Ok in S as [V S]. simplify_eq. by apply negb_false_iff in V. }
  rewrite (ParseCurrency_code k V). simpl. apply Currency_Valid_cases in V. by destruct V as [->|[->| ->]].
Qed.

(** The checks of an answer hold for every operation of well-formed tables. *)
Lemma check_holds s id op d i f m c k :
  pay_ok s → SettlementCurrency st = Ok k → op_at s id op d → ps_credits s !! op_entry op = Some c →
  ps_settlements s !! op_entry op = Some m → op_funding op = Some i → fundings (ps_cash s) !! i = Some f →
  fu_entry f = op_entry op ∧ check_payout st (op_entry op) op d f m (sc_micros c) = Ok tt.
Proof using.
  intros O S A Lc Lm Fi Lf. destruct (po_op s O id op d A) as [_ (m' & Lm' & Rq) _ Cu (i' & f' & Fi' & Lf' & F1 & F2 & F3)]. simplify_eq.
  destruct (po_settled s O _ m Lm) as [(c' & Lc' & El) Po _ _ Bal Rev Cit]. simplify_eq. split; [done|].
  destruct (settlement_unit k S) as [_ U]. unfold check_payout. rewrite F2, F3, Cu, Z.eqb_refl, bool_decide_eq_true_2 by done. simpl.
  rewrite S. simpl. rewrite (require_own k S). simpl. rewrite U. simpl. rewrite Po, Rq, Z.eqb_refl. simpl.
  rewrite wrap64_wrap_l, <-Bal, El, Z.eqb_refl. simpl. rewrite Rev. simpl.
  destruct Cit as [[-> ->]|V]; [done|]. destruct (_ || _); [by rewrite Rev in V|done].
Qed.

Lemma own_code k : SettlementCurrency st = Ok k → one_of cur ["usd"; "cad"; "jpy"] = true.
Proof using.
  intros S. destruct (settlement_unit k S) as [<- _]. unfold SettlementCurrency in S. do 2 apply refuse_Ok in S as [? S]. simplify_eq.
  match goal with V : negb (Currency_Valid _) = false |- _ => apply negb_false_iff, Currency_Valid_cases in V; by destruct V as [->|[->| ->]] end.
Qed.

(** A new reference clashes with no other operation. *)
Lemma no_clash s id op d ref :
  pd_transfer d = Some ref → pd_reverse d = None → (∀ i x, ps_details s !! i = Some x → i ≠ id → pd_transfer x ≠ Some ref) →
  ref_clash s id op d = false.
Proof using.
  intros T R Fresh. apply not_true_iff_false. intros ([i x] & In%list_elem_of_In & B)%existsb_exists. apply elem_of_map_to_list in In.
  simpl in B. rewrite T, R in B. apply andb_true_iff in B as [N B]. apply negb_true_iff, bool_decide_eq_false in N.
  apply orb_true_iff in B as [B|B]; [|done]. apply andb_true_iff in B as [B _]. apply andb_true_iff in B as [_ B].
  apply bool_decide_eq_true in B. by apply (Fresh i x).
Qed.

Lemma update_op_total s id op d op' d' :
  op_at s id op d → same_identity op op' d d' = true → op_checks op' d' = true → ref_clash s id op' d' = false →
  ∃ s1, update_op s id op' d' = Ok s1 ∧ op_at s1 id op' d' ∧ ps_credits s1 = ps_credits s ∧ ps_origins s1 = ps_origins s ∧
    entry_status (ps_cash s1) = entry_status (ps_cash s).
Proof using.
  intros [L D] I C R. unfold update_op, write_op. rewrite L, D, I, C, R. simpl. eexists. split; [done|]. split; [|done].
  split; simpl; apply lookup_insert_eq.
Qed.

Lemma update_entry_total s e c old status ref :
  ps_credits s !! e = Some c → entry_status (ps_cash s) !! e = Some old → (old, status) ∈ payout_edges →
  disputed (ps_origins s) c = false → ∃ s1, update_entry s e status (Some ref) = Ok s1.
Proof using.
  intros L E In Nd. unfold update_entry. rewrite L, E. cbv zeta. rewrite Nd, andb_false_r, (bool_decide_eq_true_2 _ In), andb_false_r. simpl.
  rewrite andb_false_r. simpl. eauto.
Qed.

(** C28: A payout in flight, whose credit is not disputed, can always be completed: when
    the rail says that the amount asked for was sent under a new transfer reference, the
    answer is recorded, and entry and operation are released with that reference. *)
Theorem in_flight_payout_completes s e c id op d ls r k now :
  SettlementCurrency st = Ok k → pay_ok s → ps_credits s !! e = Some c → op_of s e = Some (id, op, d) →
  entry_status (ps_cash s) !! e = Some ls → in_flight ls (op_status op) = true → disputed (ps_origins s) c = false →
  CashMoved r = true → validStripeObjectID (pr_Ref r) "tr_" = true → SentCents r = pd_requested d → pr_Currency r = pd_currency d →
  pd_reverse d = None → (∀ i x, ps_details s !! i = Some x → i ≠ id → pd_transfer x ≠ Some (trim_space (pr_Ref r))) →
  ∃ s' op' d', FinalizePayout st s e r now = Ok (PayoutReleased, s') ∧ op_at s' id op' d' ∧ op_status op' = PayoutReleased ∧
    op_cash_moved op' = true ∧ pd_sent d' = Some (pd_requested d) ∧ pd_transfer d' = Some (trim_space (pr_Ref r)) ∧
    status_of s' e = PayoutReleased.
Proof using.
  intros S O Lc Op Es Fl Nd Mv Vr Sc Rc Nr Fresh. destruct (op_of_Some _ _ _ _ _ Op) as [A <-].
  destruct (po_op s O id op d A) as [_ (m & Lm & _) Pos Cu (i & f & Fi & Lf & _)].
  destruct (check_holds s id op d i f m c k O S A Lc Lm Fi Lf) as [Ef Ck]. set (ref := trim_space (pr_Ref r)) in *.
  assert (in_flight ls (op_status op) = true → (ls, PayoutReleased) ∈ payout_edges ∧
    one_of ls [PayoutReversalRequired; PayoutClawedBack] || one_of (op_status op) [PayoutReversalRequired; PayoutClawedBack] = false) as X.
  { clear. unfold in_flight. intros [B|B]%orb_true_iff; apply andb_true_iff in B as [B1 B2]; apply bool_decide_eq_true in B1, B2;
      rewrite B1, B2; (split; [by apply (bool_decide_unpack _)|done]). }
  destruct (X Fl) as [Ed Nr2].
  destruct (update_op_total s id op d (with_op op PayoutReleased true false None) (with_transfer d (Some (SentCents r)) (pr_Currency r) ref now))
    as (s1 & U & A1 & C1 & O1 & E1).
  - done.
  - unfold same_identity. simpl. rewrite !bool_decide_eq_true_2, !Z.eqb_refl by done. done.
  - unfold op_checks. simpl. rewrite Sc, Rc, Cu, (own_code k S). apply Z.ltb_lt in Pos. rewrite Pos. done.
  - by apply (no_clash _ _ _ _ ref).
  - destruct (update_entry_total s1 (op_entry op) c ls PayoutReleased ref) as [s2 V]; [by rewrite C1|by rewrite E1|done|by rewrite O1|].
    exists s2, (with_op op PayoutReleased true false None), (with_transfer d (Some (SentCents r)) (pr_Currency r) ref now). split.
    + unfold FinalizePayout, validatePayoutResult. cbv zeta. cbn [pr_Ref CashMoved SentCents pr_Currency]. rewrite Mv. fold ref.
      assert (validStripeObjectID (trim_space ref) "tr_" = true) as ->.
      { unfold validStripeObjectID, ref in *. by rewrite !trim_space_idem. }
      simpl. rewrite Es, Lc, Op, Lm, Fi. simpl. rewrite Lf, Ef, bool_decide_eq_true_2 by done. simpl. rewrite Ck. simpl.
      rewrite Sc, Z.eqb_refl, Rc, bool_decide_eq_true_2 by done. simpl. rewrite Nr2, Fl. simpl. rewrite <-Sc, <-Rc, U. simpl. by rewrite V.
    + split; [by eapply update_entry_op|]. rewrite <-Sc. split_and!; try done.
      eapply update_entry_status; [by rewrite C1; eauto|by rewrite E1; eauto|exact V].
Qed.

(** ** The rail *)

Record rail_transfer := mkTransfer { tr_to : UUID; tr_amount : Z; tr_currency : string; tr_at : Z }.

(** What the provider documents of its requests: a key stands for one transfer while it
    lives, an answer that cash moved has a transfer behind it, and a request that was
    refused made none. *)
Class HonestRail (W : Type) `{PayoutRail W} := {
  clock : W → Z;
  transfers : W → string → list rail_transfer;
  key_lifetime : Z;
  lifetime_window : payoutIdempotencyRetryWindow < key_lifetime;
  send_clock w u n c k : clock (Send w u n c k).2 = clock w;
  send_other w u n c k k' : k' ≠ k → transfers (Send w u n c k).2 k' = transfers w k';
  send_own w u n c k :
    transfers (Send w u n c k).2 k = transfers w k ∨
    (transfers (Send w u n c k).2 k = mkTransfer u n c (clock w) :: transfers w k ∧
     ∀ t, t ∈ transfers w k → tr_at t + key_lifetime ≤ clock w);
  send_moved w u n c k r : (Send w u n c k).1 = Ok r → CashMoved r = true → transfers (Send w u n c k).2 k ≠ [];
  send_refused w u n c k e : (Send w u n c k).1 = Err e → errors_Is e errPayoutDefinitelyNotSent = true →
    transfers (Send w u n c k).2 k = transfers w k;
  reverse_clock w t n c k : clock (ReverseTransfer w t n c k).2 = clock w;
  reverse_transfers w t n c k k' : transfers (ReverseTransfer w t n c k).2 k' = transfers w k';
  refund_clock w t n c k : clock (RefundCharge w t n c k).2 = clock w;
  refund_transfers w t n c k k' : transfers (RefundCharge w t n c k).2 k' = transfers w k'
}.

Section World.
Context `{HonestRail W} (err_text : error → string).

(** A claim in the hands of a worker, with the answer once there is one. *)
Record attempt := mkAttempt {
  at_due : DueHeldEntry;
  at_unknown : bool;
  at_claimed : Z;
  at_answer : option (res PayoutResult)
}.

Record world := mkWorld { w_store : paystore; w_rail : W; w_open : list attempt }.

(** What the rest of the program does to these tables. *)
Definition others (s s' : paystore) : Prop := outside s s' ∧ stays s s'.

(** Any number of workers run the transactions of the sweep, in any order; they may stop
    at any point, and time may pass.  A request is made while its key is sure to live. *)
Inductive world_step : world → world → Prop :=
| step_claim s w l gate i j e o s' :
    ClaimPayout st collate uuid_Parse s gate i j (clock w) e = Ok (o, s') →
    world_step (mkWorld s w l) (mkWorld s' w (from_option (λ d, [mkAttempt d false (clock w) None]) [] o ++ l))
| step_again s w l lease limit out s' :
    ClaimOutcomeUnknownPayouts s lease payoutIdempotencyRetryWindow limit (clock w) = Ok (out, s') →
    world_step (mkWorld s w l) (mkWorld s' w (((λ d, mkAttempt d true (clock w) None) <$> out) ++ l))
| step_send s w l1 d b c l2 answer w' :
    clock w < c + (key_lifetime - payoutIdempotencyRetryWindow) →
    Send w (du_SupplierID d) (RequestedCents d) (du_Currency d) (uuid_String (du_ID d)) = (answer, w') →
    world_step (mkWorld s w (l1 ++ mkAttempt d b c None :: l2)) (mkWorld s w' (l1 ++ mkAttempt d b c (Some answer) :: l2))
| step_answer s w l1 d b c l2 answer s' :
    record_answer st err_text s d b answer (clock w) = Ok s' →
    world_step (mkWorld s w (l1 ++ mkAttempt d b c (Some answer) :: l2)) (mkWorld s' w (l1 ++ l2))
| step_drop s w l1 a l2 : world_step (mkWorld s w (l1 ++ a :: l2)) (mkWorld s w (l1 ++ l2))
| step_recover s w l lease limit n s' :
    RecoverStalePayoutOperations s lease limit (clock w) = Ok (n, s') → world_step (mkWorld s w l) (mkWorld s' w l)
| step_reversals s w l lease limit out s' :
    ClaimReversals s lease limit (clock w) = Ok (out, s') → world_step (mkWorld s w l) (mkWorld s' w l)
| step_reverse s w l r answer w' : executeReversal r w = (answer, w') → world_step (mkWorld s w l) (mkWorld s w' l)
| step_reversed s w l e r x s' :
    FinalizeReversal s e r (clock w) = Ok (x, s') → world_step (mkWorld s w l) (mkWorld s' w l)
| step_not_reversed s w l e cause s' :
    MarkReversalFailed s e cause (clock w) = Ok s' → world_step (mkWorld s w l) (mkWorld s' w l)
| step_refund s w l e ref s' :
    RecordReversalRefundRef s e ref (clock w) = Ok s' → world_step (mkWorld s w l) (mkWorld s' w l)
| step_event s w l e r c' :
    ApplyPaymentEventTx (ps_cash s) e = Ok (r, c') → world_step (mkWorld s w l) (mkWorld (with_paycash s c') w l)
| step_others s w l s' : others s s' → world_step (mkWorld s w l) (mkWorld s' w l)
| step_tick s w l w' :
    clock w ≤ clock w' → (∀ k, transfers w' k = transfers w k) → world_step (mkWorld s w l) (mkWorld s w' l).

(** Payouts have not started: no transfer, no operation says cash moved. *)
Definition world_start (x : world) : Prop :=
  pay_ok (w_store x) ∧ w_open x = [] ∧ (∀ k, transfers (w_rail x) k = []) ∧
  ∀ id op d, op_at (w_store x) id op d → op_cash_moved op = false ∧ pd_created d ≤ clock (w_rail x).

(** *** What every such run keeps *)

Definition key_of (e : UUID) : string := uuid_String e.
Definition attempts_of (e : UUID) (l : list attempt) : list attempt := filter (λ a, du_ID (at_due a) = e) l.

(** Not asked yet, or refused. *)
Definition no_transfer (a : attempt) : Prop :=
  match at_answer a with
  | None => True
  | Some (Err err) => errors_Is err errPayoutDefinitelyNotSent = true
  | Some (Ok _) => False
  end.

(** A payout on its way has one transfer at most, made after its operation; a request
    that is still to be made comes while the key of that transfer lives; and a payout
    whose outcome nobody knows is in one pair of hands, and not sent when that request
    is refused. *)
Definition on_way (s : paystore) (w : W) (l : list attempt) (e : UUID) : Prop :=
  ∃ id op d, op_at s id op d ∧ op_entry op = e ∧ locked s e ∧
    (length (transfers w (key_of e)) ≤ 1)%nat ∧
    (∀ t, t ∈ transfers w (key_of e) → pd_created d ≤ tr_at t) ∧
    (∀ a t, a ∈ attempts_of e l → at_answer a = None → t ∈ transfers w (key_of e) →
       at_claimed a - payoutIdempotencyRetryWindow ≤ tr_at t) ∧
    (spoken s op d ∨ (length (attempts_of e l) ≤ 1)%nat ∧ ∀ a, a ∈ attempts_of e l → no_transfer a → transfers w (key_of e) = []).

Definition entry_inv (s : paystore) (w : W) (l : list attempt) (e : UUID) : Prop :=
  (transfers w (key_of e) = [] ∧ attempts_of e l = []) ∨ on_way s w l e.

Record attempt_ok (s : paystore) (w : W) (a : attempt) : Prop := {
  ao_due : claimed_ok s (at_due a);
  ao_claimed : at_claimed a ≤ clock w;
  ao_moved r : at_answer a = Some (Ok r) → CashMoved r = true → transfers w (key_of (du_ID (at_due a))) ≠ []
}.

(** A transfer is the settlement of one credit, to its supplier. *)
Definition pays (s : paystore) (e : UUID) (t : rail_transfer) : Prop :=
  ∃ c m, ps_credits s !! e = Some c ∧ ps_settlements s !! e = Some m ∧
    tr_to t = sc_supplier c ∧ tr_amount t = ms_cash m ∧ tr_currency t = cur.

Record world_inv (s : paystore) (w : W) (l : list attempt) : Prop := {
  wi_books : pay_ok s;
  wi_dated id op d : op_at s id op d → pd_created d ≤ clock w;
  wi_open : Forall (attempt_ok s w) l;
  wi_pays k t : t ∈ transfers w k → ∃ e, k = key_of e ∧ pays s e t;
  wi_moved id op d : op_at s id op d → op_cash_moved op = true → transfers w (key_of (op_entry op)) ≠ [];
  wi_entry e : (e < 2 ^ 128)%N → entry_inv s w l e
}.

Lemma pays_grows s s' e t : grows s s' → pays s e t → pays s' e t.
Proof using.
  intros [C M] (c & m & Lc & Lm & E1 & E2 & E3). destruct (C _ c Lc) as (c' & Lc' & E). exists c', m.
  split_and!; [done|by apply M|congruence|done..].
Qed.

Lemma claimed_id s d : pay_ok s → claimed_ok s d → (du_ID d < 2 ^ 128)%N.
Proof using. intros O (c & m & L & _). by apply (po_ids s O _ c). Qed.

Lemma op_id s id op d : pay_ok s → op_at s id op d → (op_entry op < 2 ^ 128)%N.
Proof using. intros O A. destruct (op_known s id op d O A) as [c L]. by apply (po_ids s O _ c). Qed.

Lemma attempts_cons a l1 l2 e : attempts_of e (l1 ++ a :: l2) =
  attempts_of e l1 ++ (if decide (du_ID (at_due a) = e) then [a] else []) ++ attempts_of e l2.
Proof using. unfold attempts_of. rewrite filter_app, filter_cons. by case_decide. Qed.

Lemma attempts_drop a l1 l2 e : attempts_of e (l1 ++ l2) `sublist_of` attempts_of e (l1 ++ a :: l2).
Proof using.
  rewrite attempts_cons. unfold attempts_of at 1. rewrite filter_app. apply sublist_app; [done|]. by apply sublist_inserts_l.
Qed.

(** Fewer attempts. *)
Lemma on_way_drop s w l l' e : attempts_of e l' `sublist_of` attempts_of e l → on_way s w l e → on_way s w l' e.
Proof using.
  intros Sub (id & op & d & A & E & Lk & T1 & T2 & T3 & Sp). exists id, op, d.
  assert (∀ a, a ∈ attempts_of e l' → a ∈ attempts_of e l) as In by (intros a Ia; by eapply elem_of_sublist).
  split_and!; try done; [by eauto|]. destruct Sp as [?|[L N]]; [by left|right]. split; [|by eauto].
  by etrans; [apply sublist_length|].
Qed.

Lemma entry_inv_drop s w l l' e : attempts_of e l' `sublist_of` attempts_of e l → entry_inv s w l e → entry_inv s w l' e.
Proof using.
  intros Sub [[T L]|O]; [left|right; by eapply on_way_drop]. rewrite L in Sub. apply sublist_nil_r in Sub. done.
Qed.

Lemma on_way_keeps s s' w l e : on_way s w l e → (∀ id op d, op_at s id op d → op_entry op = e → locked s e → kept s s' id op d) → on_way s' w l e.
Proof using.
  intros (id & op & d & A & E & Lk & T1 & T2 & T3 & Sp) K. destruct (K id op d A E Lk) as (op' & d' & A' & I & Lk' & Sp').
  exists id, op', d'. rewrite E in Lk'. split; [done|]. split; [destruct I; congruence|]. split; [done|]. split; [done|].
  split; [intros t It; replace (pd_created d') with (pd_created d) by (symmetry; apply I); by apply T2|]. split; [done|].
  destruct Sp as [?|?]; auto.
Qed.

Lemma entry_inv_stays s s' w l e : stays s s' → entry_inv s w l e → entry_inv s' w l e.
Proof using.
  intros St [?|O]; [by left|right]. apply (on_way_keeps s); [done|]. intros id op d A <- L. by apply St.
Qed.

(** The tables change under the same attempts. *)
Lemma tables_step s s' w l :
  world_inv s w l → pay_ok s' → grows s s' → dated (clock w) s s' →
  (∀ id op d, op_at s' id op d → op_cash_moved op = true → transfers w (key_of (op_entry op)) ≠ []) →
  (∀ e, (e < 2 ^ 128)%N → entry_inv s' w l e) → world_inv s' w l.
Proof using.
  intros I O' G Da Mv En. split; try done.
  - intros id op d A. destruct (Da id op d A) as [->|(op0 & d0 & A0 & ->)]; [done|]. by eapply (wi_dated s w l I).
  - eapply Forall_impl; [apply (wi_open s w l I)|]. intros a [D C M]. split; [by eapply claimed_grows|done..].
  - intros k t (e & -> & P)%(wi_pays s w l I). exists e. split; [done|by eapply pays_grows].
Qed.

Lemma moved_kept s s' w l : world_inv s w l → moves_none s s' →
  ∀ id op d, op_at s' id op d → op_cash_moved op = true → transfers w (key_of (op_entry op)) ≠ [].
Proof using.
  intros I M id op d A Mv. destruct (M id op d A Mv) as (op0 & d0 & A0 & M0 & [E _]). rewrite E. by eapply (wi_moved s w l I).
Qed.

Lemma outside_step s s' w l : world_inv s w l → outside s s' → stays s s' → world_inv s' w l.
Proof using.
  intros I [K M] St. apply (tables_step s); [done|by apply (keeps_ok s), I|by apply keeps_grows|by apply keeps_dated|by eapply moved_kept|].
  intros e B. apply (entry_inv_stays s); [done|by apply (wi_entry s w l I)].
Qed.

Lemma drop_step s w l1 a l2 : world_inv s w (l1 ++ a :: l2) → world_inv s w (l1 ++ l2).
Proof using.
  intros [I1 I2 I3 I4 I5 I6]. split; try done.
  - apply Forall_app in I3 as [F1 F2]. apply Forall_cons in F2 as [_ F2]. by apply Forall_app.
  - intros e B. eapply entry_inv_drop; [apply attempts_drop|by apply I6].
Qed.

(** An attempt shows that its payout is on its way. *)
Lemma attempt_on_way s w l1 a l2 : world_inv s w (l1 ++ a :: l2) →
  on_way s w (l1 ++ a :: l2) (du_ID (at_due a)) ∧ a ∈ attempts_of (du_ID (at_due a)) (l1 ++ a :: l2) ∧
  (du_ID (at_due a) < 2 ^ 128)%N.
Proof using.
  intros I. assert (attempt_ok s w a) as [D _ _].
  { pose proof (wi_open s w _ I) as F. rewrite Forall_forall in F. apply F. apply elem_of_app. right. left. }
  assert (a ∈ attempts_of (du_ID (at_due a)) (l1 ++ a :: l2)) as In.
  { apply list_elem_of_filter. split; [done|]. apply elem_of_app. right. left. }
  apply (claimed_id s) in D; [|apply I]. destruct (wi_entry s w _ I (du_ID (at_due a)) D) as [[_ N]|O]; [|done].
  rewrite N in In. by apply not_elem_of_nil in In.
Qed.

Lemma claim_step s w l gate i j e o s' :
  world_inv s w l → ClaimPayout st collate uuid_Parse s gate i j (clock w) e = Ok (o, s') →
  world_inv s' w (from_option (λ d, [mkAttempt d false (clock w) None]) [] o ++ l).
Proof using.
  intros I C. destruct (claim_Ok _ _ _ _ _ _ _ _ (wi_books s w l I) C) as (O' & M & G & Cl).
  destruct (claim_stays _ _ _ _ _ _ _ _ (wi_books s w l I) C) as (St & Da & New).
  assert (world_inv s' w l) as I'.
  { apply (tables_step s); [done..|by eapply moved_kept|]. intros x B. apply (entry_inv_stays s); [done|by apply (wi_entry s w l I)]. }
  destruct o as [d|]; [|done]. simpl. destruct (New d eq_refl) as (<- & Un & Lk & id & op & dt & A & E).
  split; [apply I'..| |apply I'|apply I'|].
  - constructor; [|apply I']. split; [by apply Cl|done|done].
  - intros x B. unfold entry_inv, on_way, attempts_of. rewrite filter_cons. case_decide as X; [|by apply (wi_entry s' w l I')].
    simpl in X. subst x. destruct (wi_entry s w l I _ B) as [[T L]|(? & ? & ? & _ & _ & Lk0 & _)]; [|done].
    unfold attempts_of in L. rewrite L, T. right. exists id, op, dt. split_and!; try done; [apply le_0_n|..].
    + intros t It. by apply not_elem_of_nil in It.
    + intros ? t _ _ It. by apply not_elem_of_nil in It.
    + by right.
Qed.

Lemma retryable_spoken s cutoff earliest op d :
  retryable_unknown s cutoff earliest op d = true → locked s (op_entry op) ∧ spoken s op d ∧ earliest ≤ pd_created d.
Proof using.
  unfold retryable_unknown. intros R. apply andb_true_iff in R as [R C]. apply Z.leb_le in C. do 2 apply andb_true_iff in R as [R _].
  apply andb_true_iff in R as [R S]. do 3 apply andb_true_iff in R as [R _]. split; [|split; [by left|done]].
  unfold locked, one_of in *. apply bool_decide_eq_true in S.
  apply elem_of_cons in S as [->|S]; [done|]. by apply list_elem_of_singleton in S as ->.
Qed.

(** More attempts at a payout that was spoken of. *)
Lemma on_way_more s w l l' e id op d :
  pay_ok s → entry_inv s w l e → op_at s id op d → op_entry op = e → locked s e → spoken s op d →
  (∀ a, a ∈ attempts_of e l' → a ∈ attempts_of e l ∨ at_claimed a - payoutIdempotencyRetryWindow ≤ pd_created d) →
  on_way s w l' e.
Proof using.
  intros O I A E Lk Sp More. exists id, op, d. do 3 (split; [done|]). destruct I as [[T _]|(id0 & op0 & d0 & A0 & E0 & _ & T1 & T2 & T3 & _)].
  - rewrite T. split; [apply le_0_n|]. split; [intros t It; by apply not_elem_of_nil in It|].
    split; [intros a t _ _ It; by apply not_elem_of_nil in It|by left].
  - assert (id0 = id) as -> by (destruct A, A0; eapply (po_unique s O); [done..|congruence]).
    destruct A as [A1 A2], A0 as [A3 A4]. simplify_eq. do 2 (split; [done|]). split; [|by left].
    intros a t Ia Na It. destruct (More a Ia) as [Il|B]; [by apply (T3 a t)|]. etrans; [exact B|by apply T2].
Qed.

Lemma again_step s w l lease limit out s' :
  world_inv s w l → ClaimOutcomeUnknownPayouts s lease payoutIdempotencyRetryWindow limit (clock w) = Ok (out, s') →
  world_inv s' w (((λ d, mkAttempt d true (clock w) None) <$> out) ++ l).
Proof using.
  intros I C. pose proof (wi_books s w l I) as O. pose proof (unknown_outside _ _ _ _ _ _ _ C) as Out.
  pose proof (unknown_stays _ _ _ _ _ _ _ O C) as St. pose proof (outside_step s s' w l I Out St) as I'.
  split; [apply I'..| |apply I'|apply I'|].
  - apply Forall_app. split; [|apply I']. apply Forall_fmap, Forall_forall. intros d In.
    destruct (unknown_Ok _ _ _ _ _ _ _ d O C In) as [Cl _]. by split.
  - intros e B. set (new := (λ d, mkAttempt d true (clock w) None) <$> out).
    assert (∀ a, a ∈ attempts_of e new → at_claimed a = clock w ∧ ∃ d, d ∈ out ∧ du_ID d = e) as Each.
    { intros b [Eb Ib]%list_elem_of_filter. apply list_elem_of_fmap in Ib as (d & -> & Id). split; [done|]. eauto. }
    assert (attempts_of e (new ++ l) = attempts_of e new ++ attempts_of e l) as App by apply filter_app.
    destruct (attempts_of e new) as [|a rest] eqn:New.
    { eapply entry_inv_drop; [|by apply (wi_entry s' w l I' e B)]. by rewrite App. }
    destruct (Each a) as [_ (d & Id & Ed)]; [left|]. destruct (unknown_Ok _ _ _ _ _ _ _ d O C Id) as (_ & id & op & dt & A & Eo & R).
    apply retryable_spoken in R as (Lk & Sp & Cr). destruct (St id op dt A Lk) as (op' & d' & A' & Idn & Lk' & Sp').
    rewrite <-Eo, Ed in Lk'. right. eapply (on_way_more s' w l _ e id op' d'); [apply I'|by apply (wi_entry s' w l I')|done| |done|by apply Sp'|].
    + destruct Idn. congruence.
    + intros b. rewrite App, elem_of_app. intros [Ib|Ib]; [right|by left]. destruct (Each b Ib) as [-> _].
      replace (pd_created d') with (pd_created dt) by (symmetry; apply Idn). done.
Qed.

(** A request adds at most the first transfer of its key. *)
Lemma send_transfers s w l1 d b c l2 :
  let w' := (Send w (du_SupplierID d) (RequestedCents d) (du_Currency d) (key_of (du_ID d))).2 in
  world_inv s w (l1 ++ mkAttempt d b c None :: l2) → clock w < c + (key_lifetime - payoutIdempotencyRetryWindow) →
  transfers w' (key_of (du_ID d)) = transfers w (key_of (du_ID d)) ∨
  transfers w (key_of (du_ID d)) = [] ∧
  transfers w' (key_of (du_ID d)) = [mkTransfer (du_SupplierID d) (RequestedCents d) (du_Currency d) (clock w)].
Proof using.
  intros w' I Dl. destruct (send_own w (du_SupplierID d) (RequestedCents d) (du_Currency d) (key_of (du_ID d))) as [E|[E Old]]; [by left|].
  destruct (attempt_on_way _ _ _ _ _ I) as ((_ & _ & _ & _ & _ & _ & _ & _ & T3 & _) & In & _). simpl in *. right.
  destruct (transfers w (key_of (du_ID d))) as [|t T] eqn:Et; [done|]. exfalso.
  specialize (Old t ltac:(left)). specialize (T3 _ t In eq_refl ltac:(left)). simpl in T3. lia.
Qed.

(** The attempt has its answer. *)
Lemma send_on_way s w w' l1 d b c l2 answer (t0 : rail_transfer) :
  let e := du_ID d in
  on_way s w (l1 ++ mkAttempt d b c None :: l2) e →
  (∀ id op dt, op_at s id op dt → pd_created dt ≤ tr_at t0) → Forall (λ a, at_claimed a ≤ tr_at t0) (l1 ++ mkAttempt d b c None :: l2) →
  (transfers w' (key_of e) = transfers w (key_of e) ∨ transfers w' (key_of e) = [t0]) →
  (∀ err, answer = Err err → errors_Is err errPayoutDefinitelyNotSent = true → transfers w' (key_of e) = transfers w (key_of e)) →
  on_way s w' (l1 ++ mkAttempt d b c (Some answer) :: l2) e.
Proof using.
  intros e (id & op & dt & A & E & Lk & T1 & T2 & T3 & Sp) Cr Cl T Re. exists id, op, dt. do 3 (split; [done|]).
  rewrite attempts_cons in *. simpl in *. rewrite decide_True in * by done.
  set (x := attempts_of e l1) in *. set (y := attempts_of e l2) in *.
  assert (∀ a, a ∈ x ++ [mkAttempt d b c (Some answer)] ++ y → at_answer a = None → a ∈ x ++ [mkAttempt d b c None] ++ y) as Old.
  { intros a. rewrite !elem_of_app, !list_elem_of_singleton. intros [?|[->|?]]; auto; done. }
  split; [destruct T as [->| ->]; [done|apply le_n]|]. split.
  { intros t It. destruct T as [X|X]; rewrite X in It; [by apply T2|]. apply list_elem_of_singleton in It as ->. by eapply Cr. }
  split.
  { intros a t Ia Na It. specialize (Old a Ia Na). destruct T as [X|X]; rewrite X in It; [by apply T3|]. apply list_elem_of_singleton in It as ->.
    trans (at_claimed a); [by apply Z.le_sub_nonneg|]. rewrite Forall_forall in Cl. apply Cl.
    unfold x, y, attempts_of in Old. rewrite !elem_of_app in Old. rewrite elem_of_app, elem_of_cons.
    destruct Old as [[_ ?]%list_elem_of_filter|[?%list_elem_of_singleton|[_ ?]%list_elem_of_filter]]; auto. }
  destruct Sp as [?|[Ln Nt]]; [by left|right]. rewrite List.length_app in Ln. rewrite List.length_app. split; [done|]. intros a Ia Na.
  assert (x = [] ∧ y = []) as [-> ->] by (clear -Ln; simpl in Ln; split; apply nil_length_inv; lia). simpl in *.
  apply list_elem_of_singleton in Ia as ->. specialize (Nt _ ltac:(left) I). unfold no_transfer in Na. simpl in Na.
  destruct answer as [|err]; [done|]. by rewrite (Re err).
Qed.

Lemma send_step s w l1 d b c l2 answer w' :
  world_inv s w (l1 ++ mkAttempt d b c None :: l2) → clock w < c + (key_lifetime - payoutIdempotencyRetryWindow) →
  Send w (du_SupplierID d) (RequestedCents d) (du_Currency d) (uuid_String (du_ID d)) = (answer, w') →
  world_inv s w' (l1 ++ mkAttempt d b c (Some answer) :: l2).
Proof using.
  intros I Dl S. change (uuid_String (du_ID d)) with (key_of (du_ID d)) in S. pose proof (send_transfers _ _ _ _ _ _ _ I Dl) as T.
  pose proof (send_clock w (du_SupplierID d) (RequestedCents d) (du_Currency d) (key_of (du_ID d))) as Ck.
  pose proof (send_other w (du_SupplierID d) (RequestedCents d) (du_Currency d) (key_of (du_ID d))) as Ot.
  pose proof (send_moved w (du_SupplierID d) (RequestedCents d) (du_Currency d) (key_of (du_ID d))) as Mv.
  pose proof (send_refused w (du_SupplierID d) (RequestedCents d) (du_Currency d) (key_of (du_ID d))) as Re.
  rewrite S in *. cbn [fst snd] in *. destruct (attempt_on_way _ _ _ _ _ I) as (Ow & In & Bd). simpl in Ow, In, Bd.
  assert (∀ k, transfers w k ≠ [] → transfers w' k ≠ []) as Grow.
  { intros k N. destruct (decide (k = key_of (du_ID d))) as [->|Nk]; [|by rewrite Ot]. by destruct T as [->|[? _]]. }
  destruct I as [I1 I2 I3 I4 I5 I6]. apply Forall_app in I3 as [F1 F2]. apply Forall_cons in F2 as [F0 F2].
  assert (∀ l, Forall (attempt_ok s w) l → Forall (attempt_ok s w') l) as Fs.
  { intros l F. eapply Forall_impl; [exact F|]. intros a [D C M]. split; [done|by rewrite Ck|by eauto]. }
  split; [done|by setoid_rewrite Ck| | |by eauto|].
  - apply Forall_app. split; [auto|]. constructor; [|auto]. destruct F0 as [D C _]. split; [done|by rewrite Ck|].
    simpl. intros r [= ->]. by apply Mv.
  - intros k t It. destruct (decide (k = key_of (du_ID d))) as [->|Nk]; [|rewrite Ot in It by done; by apply I4].
    destruct T as [E|[_ E]]; rewrite E in It; [by apply I4|]. apply list_elem_of_singleton in It as ->.
    exists (du_ID d). split; [done|]. destruct F0 as [(cr & m & Lc & Lm & E1 & E2 & E3) _ _]. exists cr, m. done.
  - intros e B. destruct (decide (e = du_ID d)) as [->|Ne].
    + right. apply (send_on_way s w w' l1 d b c l2 answer (mkTransfer (du_SupplierID d) (RequestedCents d) (du_Currency d) (clock w))); try done.
      * apply Forall_app. split; [|constructor]; try (eapply Forall_impl; [done|intros a [_ C _]; exact C]). by destruct F0.
      * destruct T as [?|[_ ?]]; auto.
    + assert (key_of e ≠ key_of (du_ID d)) as Nk by (intros X; by apply uuid_String_inj in X).
      specialize (I6 e B). unfold entry_inv, on_way in *. rewrite !attempts_cons in *. simpl in *. rewrite decide_False in * by done.
      by rewrite Ot.
Qed.

Lemma answer_stays s d b answer now s' :
  pay_ok s → record_answer st err_text s d b answer now = Ok s' →
  stays s s' ∨ (∃ err, answer = Err err ∧ errors_Is err errPayoutDefinitelyNotSent = true) ∧ stays_but (du_ID d) s s'.
Proof using.
  intros O. unfold record_answer. destruct answer as [r|err].
  - intros ([x s1] & F & E)%bind_Ok. simplify_eq. left. by eapply finalize_stays.
  - intros ([x s1] & F & E)%bind_Ok. simplify_eq. destruct (_ || _) eqn:D in F; [left; by eapply mark_unknown_stays|right].
    apply orb_false_iff in D as [_ D]. apply negb_false_iff in D. split; [by exists err|by eapply defer_but].
Qed.

Lemma answer_step s w l1 d b c l2 answer s' :
  world_inv s w (l1 ++ mkAttempt d b c (Some answer) :: l2) → record_answer st err_text s d b answer (clock w) = Ok s' →
  world_inv s' w (l1 ++ l2).
Proof using.
  intros I R. destruct (answer_Ok _ _ _ _ _ _ _ R) as [K M]. destruct (attempt_on_way _ _ _ _ _ I) as (Ow & In & Bd). simpl in Ow, In, Bd.
  assert (attempt_ok s w (mkAttempt d b c (Some answer))) as [_ _ Mv].
  { pose proof (wi_open s w _ I) as F. rewrite Forall_forall in F. apply F. apply elem_of_app. right. left. }
  apply (tables_step s); [by eapply drop_step|by apply (keeps_ok s), I|by apply keeps_grows|by apply keeps_dated| |].
  - intros id op dt A Mo. destruct answer as [r|]; [|by eapply (moved_kept s s' w _ I M)].
    destruct (CashMoved r) eqn:Cm; [|by eapply (moved_kept s s' w _ I M)].
    destruct (M id op dt A Mo) as [(op0 & d0 & A0 & M0 & [E _])|E]; rewrite E; [by eapply (wi_moved s w _ I)|by apply (Mv r)].
  - intros e B. pose proof (wi_entry s w _ I e B) as En.
    destruct (answer_stays _ _ _ _ _ _ (wi_books _ _ _ I) R) as [St|[(err & -> & De) St]].
    { eapply entry_inv_drop; [apply attempts_drop|by apply (entry_inv_stays s)]. }
    destruct (decide (e = du_ID d)) as [->|Ne].
    + destruct Ow as (id & op & dt & A & E & Lk & T1 & T2 & T3 & [Sp|[Ln Nt]]).
      * right. eapply on_way_drop; [apply attempts_drop|]. apply (on_way_keeps s); [exists id, op, dt; by split_and!; try done; left|].
        intros i o x Ai Ei Li. apply St; [done|by rewrite Ei|right].
        assert (i = id) as -> by (destruct A, Ai; eapply (po_unique s (wi_books _ _ _ I)); [done..|congruence]).
        destruct A, Ai. by simplify_eq.
      * left. split; [by apply (Nt _ In)|]. rewrite attempts_cons in Ln. simpl in Ln. rewrite decide_True in Ln by done.
        rewrite List.length_app in Ln. unfold attempts_of. rewrite filter_app.
        assert (attempts_of (du_ID d) l1 = [] ∧ attempts_of (du_ID d) l2 = []) as [X Y]
          by (simpl in Ln; split; apply nil_length_inv; lia).
        unfold attempts_of in X, Y. by rewrite X, Y.
    + eapply entry_inv_drop; [apply attempts_drop|]. destruct En as [?|En]; [by left|right]. apply (on_way_keeps s); [done|].
      intros i o x Ai Ei Li. apply St; [done|by rewrite Ei|left; by rewrite Ei].
Qed.

(** The rail answers other requests, or time passes. *)
Lemma rail_step s w w' l : world_inv s w l → clock w ≤ clock w' → (∀ k, transfers w' k = transfers w k) → world_inv s w' l.
Proof using.
  intros [I1 I2 I3 I4 I5 I6] C T. split; unfold entry_inv, on_way in *; try (setoid_rewrite T); try done.
  - intros id op d A. by etrans; [eapply I2|].
  - eapply Forall_impl; [exact I3|]. intros a [D Cl M]. split; [done|by etrans|by rewrite T].
Qed.

Lemma reversal_rail r w : clock (executeReversal r w).2 = clock w ∧ ∀ k, transfers (executeReversal r w).2 k = transfers w k.
Proof using.
  unfold executeReversal. destruct (_ && _); [split; intros; [apply reverse_clock|apply reverse_transfers]|].
  destruct (negb _); [split; intros; [apply refund_clock|apply refund_transfers]|done].
Qed.

Definition good_world (x : world) : Prop := world_inv (w_store x) (w_rail x) (w_open x).

Lemma world_step_good x y : world_step x y → good_world x → good_world y.
Proof using.
  intros S I. pose proof (wi_books _ _ _ I) as O. unfold good_world in *. destruct S; simpl in *.
  - by eapply claim_step.
  - by eapply again_step.
  - by eapply send_step.
  - by eapply answer_step.
  - by eapply drop_step.
  - eapply outside_step; [done|by eapply recover_outside|by eapply recover_stays].
  - eapply outside_step; [done|by eapply claim_reversals_outside|by eapply claim_reversals_stays].
  - destruct (reversal_rail r w) as [C T]. rewrite H1 in C, T. eapply rail_step; [done|by rewrite <-C|done].
  - eapply outside_step; [done|by eapply finalize_reversal_outside|by eapply finalize_reversal_stays].
  - eapply outside_step; [done|by eapply reversal_failed_outside|by eapply reversal_failed_stays].
  - eapply outside_step; [done|by eapply record_refund_outside|by eapply record_refund_stays].
  - eapply outside_step; [done|by eapply event_outside|by eapply event_stays].
  - destruct H1 as [Out St]. by eapply outside_step.
  - by eapply rail_step.
Qed.

Lemma start_good x : world_start x → good_world x.
Proof using.
  intros (O & L & T & Ops). split; [done|by apply Ops|by rewrite L| | |].
  - intros k t It. rewrite T in It. by apply not_elem_of_nil in It.
  - intros id op d A M. destruct (Ops id op d A). congruence.
  - intros e _. left. by rewrite T, L.
Qed.

Lemma run_good x y : world_start x → rtc world_step x y → good_world y.
Proof using.
  intros S R. apply start_good in S. induction R as [|x y z St _ IH]; [done|]. by apply IH, (world_step_good x).
Qed.

(** *** The sweep is such a run *)

Context (fresh : UUID → UUID * UUID).

Definition runs (s : paystore) (w : W) (l : list attempt) (r : paystore * W * option error) (l' : list attempt) : Prop :=
  clock r.1.2 = clock w ∧ rtc world_step (mkWorld s w l) (mkWorld r.1.1 r.1.2 l').

Lemma runs_here s w l err : runs s w l (s, w, err) l.
Proof using. by split. Qed.

Lemma runs_drop s w l l' : rtc world_step (mkWorld s w (l' ++ l)) (mkWorld s w l).
Proof using. induction l' as [|a l' IH]; [done|]. eapply rtc_l; [apply (step_drop _ _ []) | exact IH]. Qed.

Lemma runs_step s w s1 l l1 r l' : world_step (mkWorld s w l) (mkWorld s1 w l1) → runs s1 w l1 r l' → runs s w l r l'.
Proof using. intros S [C R]. split; [done|]. by eapply rtc_l. Qed.

Lemma runs_then s w l r l1 k l' :
  runs s w l r l1 → (∀ s w err, runs s w l1 (s, w, Some err) l') → (∀ s w, runs s w l1 (k s w) l') → runs s w l (and_then r k) l'.
Proof using.
  destruct r as [[s1 w1] [err|]]; intros [C R] Er K; simpl in *.
  - destruct (Er s1 w1 err) as [C' R']. split; [done|by etrans].
  - destruct (K s1 w1) as [C' R']. split; [congruence|by etrans].
Qed.

Lemma finish_runs b d s w l : runs s w (mkAttempt d b (clock w) None :: l) (finishAttempt st err_text (clock w) b d s w) l.
Proof using.
  unfold finishAttempt. destruct (Send w _ _ _ _) as [answer w1] eqn:S.
  pose proof (send_clock w (du_SupplierID d) (RequestedCents d) (du_Currency d) (uuid_String (du_ID d))) as C. rewrite S in C. simpl in C.
  assert (world_step (mkWorld s w (mkAttempt d b (clock w) None :: l)) (mkWorld s w1 (mkAttempt d b (clock w) (Some answer) :: l))) as Step.
  { apply (step_send s w [] d b (clock w) l); [|done]. pose proof lifetime_window. lia. }
  destruct (record_answer _ _ _ _ _ _ _) as [s2|err] eqn:R; simpl; (split; [done|]); (eapply rtc_l; [exact Step|]); apply rtc_once.
  - rewrite <-C in R. exact (step_answer s w1 [] d b (clock w) l answer s2 R).
  - exact (step_drop s w1 [] _ l).
Qed.

Lemma each_runs {A} (f : A → paystore → W → paystore * W * option error) xs s w l now :
  clock w = now → (∀ x s w, clock w = now → runs s w l (f x s w) l) → runs s w l (each f xs s w) l.
Proof using.
  intros C F. revert s w C. induction xs as [|x xs IH]; intros s w C; simpl; [apply runs_here|].
  destruct (F x s w C) as [C1 R1]. destruct (f x s w) as [[s1 w1] [err|]]; simpl in *; [by split|].
  destruct (IH s1 w1) as [C2 R2]; [congruence|]. split; [congruence|by etrans].
Qed.

Lemma unknown_runs out s w l :
  runs s w (((λ d, mkAttempt d true (clock w) None) <$> out) ++ l) (each (finishAttempt st err_text (clock w) true) out s w) l.
Proof using.
  remember (clock w) as now eqn:C. symmetry in C. revert s w C. induction out as [|d out IH]; intros s w C; simpl; [apply runs_here|].
  pose proof (finish_runs true d s w (((λ d, mkAttempt d true now None) <$> out) ++ l)) as [C1 R1]. rewrite C in C1. rewrite C in R1.
  destruct (finishAttempt _ _ _ _ _ _ _) as [[s1 w1] [err|]]; simpl in *.
  - split; [simpl; congruence|]. etrans; [exact R1|apply runs_drop].
  - destruct (IH s1 w1 C1) as [C2 R2]. split; [congruence|by etrans].
Qed.

Lemma reverse_runs r s w l : runs s w l (reverse_one err_text (clock w) r s w) l.
Proof using.
  unfold reverse_one. pose proof (reversal_rail r w) as [C T]. destruct (executeReversal r w) as [answer w1] eqn:E. simpl in C.
  assert (world_step (mkWorld s w l) (mkWorld s w1 l)) as Step by (by eapply step_reverse).
  assert (∀ s1 cause, rtc world_step (mkWorld s w1 l) (mkWorld s1 w1 l) →
            runs s w l (settle s1 w1 (MarkReversalFailed s1 (dr_ID r) cause (clock w))) l) as Failed.
  { intros s1 cause R. destruct (MarkReversalFailed _ _ _ _) as [s2|] eqn:M; simpl; (split; [done|]);
      (eapply rtc_l; [exact Step|]); [|done]. eapply rtc_r; [exact R|]. rewrite <-C in M. by eapply step_not_reversed. }
  destruct answer as [result|err]; [|by apply Failed]. cbv zeta. destruct (_ && _).
  - destruct (_ || _); [by apply Failed|]. destruct (RecordReversalRefundRef _ _ _ _) as [s1|] eqn:M; [|by apply Failed].
    apply Failed. apply rtc_once. rewrite <-C in M. by eapply step_refund.
  - destruct (FinalizeReversal _ _ _ _) as [[x s1]|] eqn:M; [|by apply Failed]. split; [done|]. eapply rtc_l; [exact Step|].
    apply rtc_once. rewrite <-C in M. by eapply step_reversed.
Qed.

Lemma claim_runs gate e s w l : runs s w l (claim_and_finish st collate uuid_Parse err_text fresh gate (clock w) e s w) l.
Proof using.
  unfold claim_and_finish, commit. destruct (ClaimPayout _ _ _ _ _ _ _ _ _) as [[[d|] s1]|] eqn:C; [| |apply runs_here].
  - eapply runs_step; [by eapply step_claim|apply finish_runs].
  - eapply runs_step; [by eapply step_claim|apply runs_here].
Qed.

Lemma reversals_run s w l : runs s w l (processReversals err_text (clock w) s w) l.
Proof using.
  unfold processReversals, commit. destruct (ClaimReversals _ _ _ _) as [[out s1]|] eqn:C; [|apply runs_here].
  eapply runs_step; [by eapply step_reversals|]. eapply each_runs; [done|]. intros r s2 w2 <-. apply reverse_runs.
Qed.

Lemma sweep_runs paused gate s w l :
  runs s w l (releasePayouts st collate uuid_Parse err_text fresh paused gate (clock w) s w) l.
Proof using.
  unfold releasePayouts. destruct paused as [[]|]; [apply runs_here| |apply runs_here].
  pose proof (reversals_run s w l) as R. destruct (processReversals _ _ _ _) as [[s1 w1] [err|]]; [done|]. simpl. destruct R as [C R]. simpl in *.
  rewrite <-C. unfold commit. assert (∀ r, runs s1 w1 l r l → runs s w l r l) as Go.
  { intros r [C' R']. split; [congruence|by etrans]. }
  apply Go. clear Go R.
  destruct (RecoverStalePayoutOperations _ _ _ _) as [[n s2]|] eqn:Re; [|apply runs_here]. eapply runs_step; [by eapply step_recover|].
  destruct (ClaimOutcomeUnknownPayouts _ _ _ _ _) as [[out s3]|] eqn:Un; [|apply runs_here]. eapply runs_step; [by eapply step_again|].
  pose proof (unknown_runs out s3 w1 l) as R. destruct (each _ _ _ _) as [[s4 w4] [err|]]; [done|]. simpl. destruct R as [C4 R4]. simpl in *.
  rewrite <-C4. assert (∀ r, runs s4 w4 l r l → runs s3 w1 (((λ d, mkAttempt d true (clock w4) None) <$> out) ++ l) r l) as Go.
  { intros r [C' R']. rewrite C4. split; [congruence|by etrans]. }
  apply Go. clear Go R4. destruct (_ <? _); [apply runs_here|]. destruct (DuePayouts _ _ _ _) as [due|]; [|apply runs_here].
  apply (each_runs _ _ _ _ _ (clock w4)); [done|]. intros e s5 w5 <-. apply claim_runs.
Qed.

(** *** Theorems *)

(** What the rail has sent to a supplier for its credits. *)
Definition paid_to (s : paystore) (w : W) (u : UUID) : Z :=
  sum_over (λ e _, list_total (λ t, if bool_decide (tr_to t = u) then tr_amount t else 0) (transfers w (uuid_String e))) (ps_settlements s).

Lemma unit_pos : 0 < unit_micros.
Proof using. unfold table_minor. by case_bool_decide. Qed.

Lemma at_most_one s w l e : world_inv s w l → (e < 2 ^ 128)%N → (length (transfers w (uuid_String e)) ≤ 1)%nat.
Proof using.
  intros I B. destruct (wi_entry s w l I e B) as [[T _]|(_ & _ & _ & _ & _ & _ & T & _)]; [|done]. unfold key_of in T. rewrite T. apply le_0_n.
Qed.

Lemma pays_own s w l e t : world_inv s w l → (e < 2 ^ 128)%N → t ∈ transfers w (uuid_String e) → pays s e t.
Proof using.
  intros I B It. destruct (wi_pays s w l I _ t It) as (e' & E & P). replace e with e'; [done|]. symmetry. apply uuid_String_inj; [done| |done].
  destruct P as (c & m & L & _). by apply (po_ids s (wi_books s w l I) _ c).
Qed.

Lemma paid_due s w l u : world_inv s w l → paid_to s w u ≤ cash_due s u.
Proof using.
  intros I. apply sum_over_mono. intros e m Lm. destruct (po_settled s (wi_books s w l I) e m Lm) as [(c & Lc & _) _ _ [_ Nn] _ _ _].
  pose proof (po_ids s (wi_books s w l I) e c Lc) as B. pose proof (at_most_one s w l e I B) as One.
  destruct (transfers w (uuid_String e)) as [|t [|? ?]] eqn:T; simpl in *; [by destruct (of_supplier s u e)| |lia].
  destruct (pays_own s w l e t I B) as (c' & m' & Lc' & Lm' & E1 & E2 & _); [rewrite T; left|]. simplify_eq.
  unfold of_supplier. rewrite Lc. simpl. rewrite E1, E2, Z.add_0_r. by rewrite (bool_decide_ext (Some (sc_supplier c) = Some u) (sc_supplier c = u)) by (split; congruence).
Qed.

(** C1: However the workers' sweeps, their crashes, the cash events and the rest of the
    program interleave: on a rail that keeps the keys of its requests longer than the
    window in which an unknown outcome is asked again, every transfer is the settlement
    of one credit to its supplier, no credit has two, an operation that says cash moved
    has its transfer, and no supplier is sent more than the cash due for what they
    earned. *)
Theorem each_credit_is_paid_once x y :
  world_start x → rtc world_step x y →
  let s := w_store y in
  let w := w_rail y in
  (∀ k t, t ∈ transfers w k → ∃ e, k = uuid_String e ∧ pays s e t) ∧
  (∀ e, (e < 2 ^ 128)%N → (length (transfers w (uuid_String e)) ≤ 1)%nat) ∧
  (∀ id op d, op_at s id op d → op_cash_moved op = true → ∃ t, transfers w (uuid_String (op_entry op)) = [t] ∧
     tr_to t = pd_supplier d ∧ tr_amount t = pd_requested d ∧ tr_currency t = pd_currency d) ∧
  (∀ u, paid_to s w u ≤ cash_due s u ∧ paid_to s w u * unit_micros ≤ earned s u).
Proof using.
  intros S R. pose proof (run_good x y S R) as I. unfold good_world in I. cbv zeta. split_and!.
  - apply (wi_pays _ _ _ I).
  - intros e B. by eapply at_most_one.
  - intros id op d A M. pose proof (wi_moved _ _ _ I id op d A M) as N. pose proof (op_id _ _ _ _ (wi_books _ _ _ I) A) as B.
    pose proof (at_most_one _ _ _ _ I B) as One. unfold key_of in N. destruct (transfers _ _) as [|t [|? ?]] eqn:T; simpl in One; [done| |lia].
    exists t. split; [done|]. destruct (pays_own _ _ _ _ t I B) as (c & m & Lc & Lm & E1 & E2 & E3); [rewrite T; left|].
    destruct (po_op _ (wi_books _ _ _ I) id op d A) as [(c' & Lc' & F1) (m' & Lm' & F2) _ F3 _]. simplify_eq. split_and!; congruence.
  - intros u. pose proof (paid_due _ _ _ u I) as D. split; [done|]. destruct (po_accrual _ (wi_books _ _ _ I) u) as (_ & _ & _ & Ac & ->).
    pose proof unit_pos. nia.
Qed.

(** C20: The tables of payouts stay well formed in every run: each settlement balances
    against its carry, each operation pays one settlement from one reservation, and
    each supplier's accrual is what was earned less the cash due, below one minor unit. *)
Theorem payout_tables_well_formed x y : world_start x → rtc world_step x y → pay_ok (w_store y).
Proof using. intros S R. apply (wi_books _ _ _ (run_good x y S R)). Qed.

(** C11: A whole sweep, also one that stops at an error, is a run of such steps that
    leaves no attempt behind. *)
Theorem sweep_refines_steps paused gate s w l :
  let r := releasePayouts st collate uuid_Parse err_text fresh paused gate (clock w) s w in
  clock r.1.2 = clock w ∧ rtc world_step (mkWorld s w l) (mkWorld r.1.1 r.1.2 l).
Proof using. apply sweep_runs. Qed.
End World.
End Books.

(** ** A rail in memory, and two credits *)

Inductive mood := Answers | Loses | Refuses.

(** The next answers follow a script; a key lives for a day. *)
Record memory_rail := mkMemoryRail { mr_clock : Z; mr_sent : gmap string (list rail_transfer); mr_script : list mood }.

Definition day : Z := 86400000000000.

Definition transfer_ref (k : string) : string := "tr_" +:+ k.

Definition make_transfer (w : memory_rail) (u : UUID) (n : Z) (c k : string) : gmap string (list rail_transfer) :=
  let old := default [] (mr_sent w !! k) in
  if existsb (λ t, mr_clock w <? tr_at t + day) old then mr_sent w
  else <[k := mkTransfer u n c (mr_clock w) :: old]> (mr_sent w).

Definition memory_send (w : memory_rail) (u : UUID) (n : Z) (c k : string) : res PayoutResult * memory_rail :=
  let rest := tail (mr_script w) in
  match head (mr_script w) with
  | Some Refuses => (Err (Wrapf errPayoutDefinitelyNotSent "no connected account"), mkMemoryRail (mr_clock w) (mr_sent w) rest)
  | Some Loses => (Err (Errorf "request timed out"), mkMemoryRail (mr_clock w) (make_transfer w u n c k) rest)
  | _ => (Ok (mkPayoutResult (transfer_ref k) n c true), mkMemoryRail (mr_clock w) (make_transfer w u n c k) rest)
  end.

#[global] Instance memory_payouts : PayoutRail memory_rail := {
  Send := memory_send;
  ReverseTransfer w t n c k := (Ok (mkReversalResult "trr_1" n c "transfer_reversal" ""), w);
  RefundCharge w t n c k := (Ok (mkReversalResult "re_1" n c "charge_refund" "succeeded"), w)
}.

Lemma make_other w u n c k k' : k' ≠ k → make_transfer w u n c k !! k' = mr_sent w !! k'.
Proof. intros N. unfold make_transfer. destruct (existsb _ _); [done|]. by rewrite lookup_insert_ne. Qed.

Lemma make_own w u n c k :
  default [] (make_transfer w u n c k !! k) = default [] (mr_sent w !! k) ∧ default [] (mr_sent w !! k) ≠ [] ∨
  default [] (make_transfer w u n c k !! k) = mkTransfer u n c (mr_clock w) :: default [] (mr_sent w !! k) ∧
  ∀ t, t ∈ default [] (mr_sent w !! k) → tr_at t + day ≤ mr_clock w.
Proof.
  unfold make_transfer. destruct (existsb _ _) eqn:E.
  - left. split; [done|]. intros N. by rewrite N in E.
  - right. rewrite lookup_insert_eq. split; [done|]. intros t It%list_elem_of_In.
    destruct (Z.leb_spec (tr_at t + day) (mr_clock w)) as [?|L]; [done|]. apply Z.ltb_lt in L.
    assert (existsb (λ t, mr_clock w <? tr_at t + day) (default [] (mr_sent w !! k)) = true) as X; [|congruence].
    apply existsb_exists. eauto.
Qed.

#[global] Program Instance memory_honest : HonestRail memory_rail := {
  clock := mr_clock;
  transfers w k := default [] (mr_sent w !! k);
  key_lifetime := day
}.
Next Obligation. done. Qed.
Next Obligation. intros w u n c k. simpl. unfold memory_send. by destruct (head _) as [[]|]. Qed.
Next Obligation. intros w u n c k k' N. simpl. unfold memory_send. destruct (head _) as [[]|]; simpl; by rewrite ?make_other. Qed.
Next Obligation.
  intros w u n c k. simpl. unfold memory_send. destruct (make_own w u n c k) as [[? _]|?]; destruct (head _) as [[]|]; simpl; auto.
Qed.
Next Obligation.
  intros w u n c k r. simpl. unfold memory_send. destruct (make_own w u n c k) as [[E N]|[E _]]; destruct (head _) as [[]|]; simpl; rewrite ?E; done.
Qed.
Next Obligation. intros w u n c k e. simpl. unfold memory_send. destruct (head _) as [[]|]; simpl; intros; by simplify_eq. Qed.
Next Obligation. done. Qed.
Next Obligation. done. Qed.
Next Obligation. done. Qed.
Next Obligation. done. Qed.

Definition pay_st : settlement := mkSettlement true (mkCurrency "usd" 2).
Definition pay_parse (_ : string) : option UUID := None.
Definition pay_text (_ : error) : string := "provider error".
Definition pay_fresh (e : UUID) : UUID * UUID := (e + 100, e + 200)%N.
Definition pay_job2 : cash_job := mkCashJob (mkCashSource 8%N "charged" "pi_2" 1000 1000 "usd") None false.

(** Two suppliers are due 4.005 and 3 dollars of two charges of 10. *)
Definition pay_cash : cashbook :=
  let c := ok_or no_cash (recordBuyerCashCollection ex_known 8%N "job" 32%N (mkChargeResult "pi_2" "ch_2" 1000 1000 "usd") 6) in
  with_impairment c (funding_states c) (payout_ops c) {[ 61%N := "held"; 62%N := "held" ]}.
Definition pay_store : paystore :=
  mkPaystore pay_cash
    {[ 61%N := mkCredit 91%N (Some 21%N) None 4005000 (Some 50) None None None None;
       62%N := mkCredit 92%N (Some 22%N) None 3000000 (Some 60) None None None None ]}
    ∅ ∅ ∅ (mkOrigins {[ 21%N := (31%N, "pass"); 22%N := (32%N, "pass") ]} {[ 31%N := (ex_job, ex_sha); 32%N := (pay_job2, ex_sha) ]} ∅ ∅ ∅ [] []).

Definition pay_sweep (s : paystore) (w : memory_rail) : paystore * memory_rail * option error :=
  releasePayouts pay_st ex_collate pay_parse pay_text pay_fresh (Ok false) (Ok false) (clock w) s w.

(** The answer to the first request is lost. *)
Definition pay_rail : memory_rail := mkMemoryRail 1000 ∅ [Loses].
Definition pay_swept := pay_sweep pay_store pay_rail.
Definition pay_later (w : memory_rail) : memory_rail := mkMemoryRail (mr_clock w + 600000000000) (mr_sent w) (mr_script w).
Definition pay_resolved := pay_sweep pay_swept.1.1 (pay_later pay_swept.1.2).

(** *** Witnesses *)

Lemma pay_store_ok : pay_ok pay_st pay_store.
Proof.
  split.
  - intros e m L. by vm_compute in L.
  - intros id op d [L _]. by vm_compute in L.
  - intros id id' op op' L. vm_compute in L. discriminate L.
  - intros id [op L]. vm_compute in L. discriminate L.
  - intros e c L. simpl in L. apply lookup_insert_Some in L as [[<- _]|[_ L]]; [done|]. apply lookup_singleton_Some in L as [<- _]. done.
  - intros u. unfold accrual_of, earned, cash_due. simpl. rewrite !sum_over_empty. done.
Qed.

Lemma pay_start : world_start pay_st (mkWorld pay_store pay_rail []).
Proof.
  split; [apply pay_store_ok|]. split; [done|]. split; [done|]. intros id op d [L _]. by vm_compute in L.
Qed.

Lemma pay_sweep_runs s w :
  rtc (world_step pay_st pay_parse ex_collate pay_text) (mkWorld s w []) (mkWorld (pay_sweep s w).1.1 (pay_sweep s w).1.2 []).
Proof. apply (sweep_runs pay_st pay_parse ex_collate pay_text pay_fresh). Qed.

Lemma pay_tick s w : rtc (world_step pay_st pay_parse ex_collate pay_text) (mkWorld s w []) (mkWorld s (pay_later w) []).
Proof. apply rtc_once, step_tick; [simpl; lia|done]. Qed.

Lemma pay_run :
  rtc (world_step pay_st pay_parse ex_collate pay_text) (mkWorld pay_store pay_rail []) (mkWorld pay_resolved.1.1 pay_resolved.1.2 []).
Proof.
  transitivity (mkWorld pay_swept.1.1 pay_swept.1.2 []); [exact (pay_sweep_runs pay_store pay_rail)|].
  transitivity (mkWorld pay_swept.1.1 (pay_later pay_swept.1.2) []); [exact (pay_tick pay_swept.1.1 pay_swept.1.2)|].
  exact (pay_sweep_runs pay_swept.1.1 (pay_later pay_swept.1.2)).
Qed.

(** The answer for 61 was lost and asked for again; it was sent once. *)
Lemma each_credit_is_paid_once_witness :
  paid_to pay_resolved.1.1 pay_resolved.1.2 91%N = 400 ∧ paid_to pay_resolved.1.1 pay_resolved.1.2 91%N ≤ cash_due pay_resolved.1.1 91%N ∧
  status_of pay_swept.1.1 61%N = PayoutOutcomeUnknown ∧ status_of pay_resolved.1.1 61%N = PayoutReleased ∧
  (length (transfers pay_resolved.1.2 (uuid_String 61%N)) ≤ 1)%nat.
Proof.
  destruct (each_credit_is_paid_once pay_st pay_parse ex_collate pay_text _ _ pay_start pay_run) as (_ & One & _ & Due).
  cbn [w_store w_rail] in One, Due. split; [vm_compute; reflexivity|]. split; [exact (proj1 (Due 91%N))|].
  split; [vm_compute; reflexivity|]. split; [vm_compute; reflexivity|]. exact (One 61%N eq_refl).
Defined.

Lemma payout_tables_well_formed_witness : pay_ok pay_st pay_resolved.1.1 ∧ AccruedMicros (accrual_of pay_st pay_resolved.1.1 91%N) = 5000.
Proof.
  split; [|vm_compute; reflexivity].
  apply (payout_tables_well_formed pay_st pay_parse ex_collate pay_text _ (mkWorld pay_resolved.1.1 pay_resolved.1.2 []) pay_start pay_run).
Defined.

(** The operation of 61 before its answer came. *)
Lemma in_flight_payout_completes_witness :
  ∃ s' op' d', FinalizePayout pay_st pay_swept.1.1 61%N (mkPayoutResult "tr_9" 400 "usd" true) 2000 = Ok (PayoutReleased, s') ∧
    op_at s' 261%N op' d' ∧ op_cash_moved op' = true ∧ status_of s' 61%N = PayoutReleased.
Proof.
  destruct (in_flight_payout_completes pay_st pay_swept.1.1 61%N
    (mkCredit 91%N (Some 21%N) None 4005000 (Some 50) None None None None) 261%N
    (mkPayoutOp 61%N (Some 161%N) "outcome_unknown" false true (Some "provider error"))
    (mkDetail 91%N 400 None "usd" None None 1000 1000) "outcome_unknown" (mkPayoutResult "tr_9" 400 "usd" true)
    (mkCurrency "usd" 2) 2000) as (s' & op' & d' & F & A & _ & M & _ & _ & St); try (vm_compute; reflexivity).
  - exact (wi_books _ _ _ _ (run_good pay_st pay_parse ex_collate pay_text _ (mkWorld pay_swept.1.1 pay_swept.1.2 []) pay_start
      (pay_sweep_runs pay_store pay_rail))).
  - assert (map_Forall (λ i x, i ≠ 261%N → pd_transfer x ≠ Some (trim_space "tr_9")) (ps_details pay_swept.1.1)) as F
      by (apply (bool_decide_unpack _); vm_compute; exact I).
    exact F.
  - exists s', op', d'. exact (conj F (conj A (conj M St))).
Defined.

(** ** Payouts that strand *)

(** A credit of a completed service lease, whose buyer topped up 50 dollars. *)
Definition lease_ref : string :=
  "service-lease-ledger-" +:+ uuid_String 41%N +:+ ":supplier_credit:" +:+ uuid_String 93%N.
Definition lease_parse (s : string) : option UUID :=
  if bool_decide (s = uuid_String 41%N) then Some 41%N else if bool_decide (s = uuid_String 93%N) then Some 93%N else None.
Definition lease_cash : cashbook :=
  let c := ok_or no_cash (insert_collection no_cash "pi_3" (mkCollection (Some "ch_3") 9%N "topup" None None 5000 5000 "usd" 1)) in
  with_impairment c (funding_states c) (payout_ops c) {[ 63%N := "held" ]}.
Definition lease_store : paystore :=
  mkPaystore lease_cash {[ 63%N := mkCredit 93%N None None 2000000 (Some 50) (Some lease_ref) None None None ]} ∅ ∅ ∅
    (mkOrigins ∅ ∅ ∅ ∅ {[ 41%N := (mkLeaseRow 9%N "COMPLETED" "usd" 5000000, ex_sha) ]} [] []).

Definition lease_sweep (s : paystore) (w : memory_rail) : paystore * memory_rail * option error :=
  releasePayouts pay_st ex_collate lease_parse pay_text pay_fresh (Ok false) (Ok false) (clock w) s w.
Definition refusing (now : Z) : memory_rail := mkMemoryRail now ∅ [Refuses; Refuses].
Definition answering (now : Z) : memory_rail := mkMemoryRail now ∅ [].

(** A request that the rail refuses goes back to ready and can be sent again; not so
    for a credit of a service lease: its ledger reference is read as a transfer, the
    deferral is refused, the sweep stops, and when the lease of the claim is over the
    payout waits with an unknown outcome; after the retry window no sweep asks for it
    again, although nothing was ever sent. *)
Theorem refused_lease_payout_strands :
  let first := lease_sweep lease_store (refusing 1000) in
  let second := lease_sweep first.1.1 (refusing 600000001000) in
  let next_day := lease_sweep second.1.1 (answering 90000000000000) in
  let of_job := pay_sweep pay_store (refusing 1000) in
  (of_job.2, status_of of_job.1.1 61%N) = (None, PayoutReady) ∧
  (first.2, status_of first.1.1 63%N) = (Some (Errorf "payout %s already has provider cash evidence"), PayoutSending) ∧
  (second.2, status_of second.1.1 63%N) = (None, PayoutOutcomeUnknown) ∧
  (next_day.2, status_of next_day.1.1 63%N, mr_sent next_day.1.2) = (None, PayoutOutcomeUnknown, ∅).
Proof. vm_compute. done. Qed.

(** A worker stops between its claim and the answer, and the charge behind the payout is
    refunded before the claim's lease is over. *)
Definition crashed : paystore :=
  let s := match ClaimPayout pay_st ex_collate pay_parse pay_store (Ok false) 161%N 261%N 1000 61%N with Ok (_, s) => s | Err _ => pay_store end in
  match ApplyPaymentEventTx (ps_cash s) (ex_refund "evt_9" 10 900) with Ok (_, c) => with_paycash s c | Err _ => s end.

(** Such a payout requires a reversal, but nothing knows that cash may have moved: no
    sweep at any time recovers it, asks the rail for it or reverses it, and while it
    waits no sweep claims any other credit, also not one that is due and funded. *)
Theorem crash_and_refund_pause_payouts now gate (w : memory_rail) :
  status_of crashed 61%N = PayoutReversalRequired ∧ status_of crashed 62%N = PayoutHeld ∧
  (fst <$> ok_or [] (DuePayouts crashed (Ok false) sweepBatch 1000)) = [62%N] ∧
  releasePayouts pay_st ex_collate pay_parse pay_text pay_fresh (Ok false) gate now crashed w = (crashed, w, None).
Proof. vm_compute. done. Qed.
