(* ===== verification/ArrivalBatch.v ===== *)
(** * ArrivalBatch: compatible requests leave together

    [arrival_batch.go] holds admitted realtime requests for a short join window and
    lets those of one lane go together; [batch_policy.go] packs candidates under a
    token budget and projects the time to the first token; [traffic_class.go] has the
    four service classes with their windows.

    The batcher is one record behind its mutex: the lanes, the waiters with their
    channels, the timer callbacks that were started and wait for the mutex, and the
    goroutines that watch for the end of a request's context.  A channel is closed at
    most once; closing it again is the panic of the language.  Times are numbers of
    nanoseconds, [None] for the zero [time.Time].  One [Admit] reads the clock three
    times: before it takes the mutex, when it looks at the deadlines of the lane, and
    when it arms the timer. *)
From Stdlib Require Import Ascii SpecFloat.
From stdpp Require Import base numbers list gmap strings sorting relations.
From S2P Require Import Prelude.
From S2P Require Import Float64.
From S2P Require Import LedgerWrite.
Local Open Scope Z_scope.
Local Open Scope go_scope.

(** ** Packing under a token budget *)

Definition maxBatchTokens : Z := 8192.
Definition interactiveBatchTokens : Z := 4096.

Definition LatencyInteractive : string := "INTERACTIVE".
Definition LatencyBatch : string := "BATCH".

Definition TokenBudgetFor (class : string) : Z :=
  if bool_decide (class = LatencyInteractive) then interactiveBatchTokens else maxBatchTokens.

Record BatchCandidate := mkCandidate {
  bc_ID : string;
  bc_PromptTokens : Z;
  bc_OutputTokens : Z;
  bc_ReusablePrefixTokens : Z
}.

Definition prefillTokens (c : BatchCandidate) : Z :=
  let n := bc_PromptTokens c -w bc_ReusablePrefixTokens c in
  if n <? 0 then 0 else n.

(** The inner loop: the element at [j] moves down past dearer ones. *)
Fixpoint sift (j : nat) (l : list BatchCandidate) : list BatchCandidate :=
  match j with
  | O => l
  | S j' =>
      match l !! j, l !! j' with
      | Some a, Some b => if prefillTokens a <? prefillTokens b then sift j' (<[j := b]> (<[j' := a]> l)) else l
      | _, _ => l
      end
  end.

(** The outer loop, from [i] on. *)
Definition order_by_cost (l : list BatchCandidate) : list BatchCandidate :=
  foldl (λ l i, sift i l) l (seq 1 (length l - 1)).

Fixpoint pack (budget : Z) (chosen : list BatchCandidate) (used : Z) (l : list BatchCandidate) : list BatchCandidate * Z :=
  match l with
  | [] => (chosen, used)
  | c :: l =>
      let cost := prefillTokens c in
      if budget <? cost then
        match chosen with [] => ([c], cost) | _ => pack budget chosen used l end
      else if budget <? used +w cost then pack budget chosen used l
      else pack budget (chosen ++ [c]) (used +w cost) l
  end.

Definition SelectBatch (candidates : list BatchCandidate) (budget : Z) : list BatchCandidate * Z :=
  if budget <=? 0 then ([], 0) else pack budget [] 0 (order_by_cost candidates).

(** [float64(prefillTokens) * 0.1389 * float64(time.Millisecond)]. *)
Definition EstimatedTTFT (tokens : Z) : Z :=
  f64_to_int64 (f64_mul (f64_mul (f64_of_Z tokens) (f64_lit 1389 10000)) (f64_of_Z 1000000)).

Definition ValidateBatchBudget (class : string) (budget deadline : Z) : res unit :=
  refuse (Errorf "token budget must be positive, got %d") if budget <=? 0;
  if deadline <=? 0 then Ok tt
  else
    refuse (Errorf "token budget %d implies TTFT ~%v which exceeds the %v deadline for class %s") if deadline <? EstimatedTTFT budget;
    Ok tt.

(** ** Service classes *)

Definition TrafficInteractive : string := "INTERACTIVE".
Definition TrafficBatchPriority : string := "BATCH_PRIORITY".
Definition TrafficBatchStandard : string := "BATCH_STANDARD".
Definition TrafficBackground : string := "BACKGROUND".

Record TrafficClassPolicy := mkPolicy {
  tp_Class : string;
  TokenBudget : Z;
  MaxQueueWait : Z;
  Preemptible : bool;
  Priority : Z;
  NeverDelays : list string
}.

Definition trafficClassPolicies : gmap string TrafficClassPolicy :=
  {[ TrafficInteractive := mkPolicy TrafficInteractive interactiveBatchTokens 2000000000 false 40 [];
     TrafficBatchPriority := mkPolicy TrafficBatchPriority maxBatchTokens 30000000000 false 30 [TrafficInteractive];
     TrafficBatchStandard := mkPolicy TrafficBatchStandard maxBatchTokens 300000000000 false 20 [TrafficInteractive; TrafficBatchPriority];
     TrafficBackground := mkPolicy TrafficBackground maxBatchTokens 21600000000000 true 10
                            [TrafficInteractive; TrafficBatchPriority; TrafficBatchStandard] ]}.

Definition PolicyForTrafficClass (class : string) : res TrafficClassPolicy :=
  match trafficClassPolicies !! class with
  | Some policy => Ok policy
  | None => Err (Errorf "no promoted policy for traffic class %q")
  end.

Definition TokenBudgetForTrafficClass (class : string) : res Z :=
  policy ← PolicyForTrafficClass class; Ok (TokenBudget policy).

Definition TrafficClassForWorkload (latencyClass : string) (slaPremiumUSD : f64) : string :=
  if one_of latencyClass ["priority_queue"; "trusted_supply"] then TrafficBatchPriority
  else if bool_decide (latencyClass = "standard_batch") then
    if f64_ltb (f64_of_Z 0) slaPremiumUSD then TrafficBatchPriority else TrafficBatchStandard
  else if bool_decide (latencyClass = "background") then TrafficBackground
  else TrafficBatchStandard.

Definition TrafficClassForRealtime : string := TrafficInteractive.

Definition TrafficClassForAdmittedWork (realtime : bool) (latencyClass : string) (slaPremiumUSD : f64) : string :=
  if realtime then TrafficClassForRealtime else TrafficClassForWorkload latencyClass slaPremiumUSD.

Definition interactiveArrivalJoinWindow : Z := 2000000.
Definition batchPriorityArrivalJoinWindow : Z := 25000000.
Definition batchStandardArrivalJoinWindow : Z := 50000000.
Definition backgroundArrivalJoinWindow : Z := 100000000.
Definition arrivalDeadlineSafety : Z := 5000000.

Definition defaultJoinWindowForClass (class : string) : Z :=
  if bool_decide (class = TrafficInteractive) then interactiveArrivalJoinWindow
  else if bool_decide (class = TrafficBatchPriority) then batchPriorityArrivalJoinWindow
  else if bool_decide (class = TrafficBatchStandard) then batchStandardArrivalJoinWindow
  else if bool_decide (class = TrafficBackground) then backgroundArrivalJoinWindow
  else 0.

(** [Time.Sub] saturates. *)
Definition time_Sub (t u : Z) : Z := Z.max min_int64 (Z.min max_int64 (t - u)).

Definition JoinWindowForArrival (class : string) (deadline : option Z) (now tokens configured : Z) : Z :=
  let base := if configured <=? 0 then defaultJoinWindowForClass class else configured in
  if base <=? 0 then 0
  else
    match deadline with
    | None => base
    | Some d =>
        let remaining := time_Sub d now in
        let work := EstimatedTTFT tokens +w arrivalDeadlineSafety in
        if remaining <=? work then 0
        else
          let maxHold := remaining -w work in
          if maxHold <? base then maxHold else base
    end.

Definition HoldWouldMissDeadline (deadline : option Z) (now hold tokens : Z) : bool :=
  match deadline with
  | None => false
  | Some d => d <? now + hold + EstimatedTTFT tokens + arrivalDeadlineSafety
  end.

(** ** The batcher *)

Record ArrivalBatchConfig := mkBatchConfig { Enabled : bool; JoinWindow : Z }.

Record ArrivalRequest := mkArrival {
  ar_ID : string;
  LaneKey : string;
  ar_Class : string;
  Deadline : option Z;
  ar_PromptTokens : Z;
  ar_OutputTokens : Z;
  ar_ReusablePrefixTokens : Z
}.

(** A waiter is known by its address, an [N]. *)
Record arrivalWaiter := mkWaiter {
  aw_req : ArrivalRequest;
  aw_admitted : Z;
  aw_released : bool;
  aw_ready : bool                       (* the channel is closed *)
}.

(** An armed timer has its due time, and whether its callback was started. *)
Record arrivalLane := mkLane {
  al_class : string;
  al_pending : list N;
  al_timer : option (Z * bool)
}.

Record ArrivalBatcher := mkBatcher {
  cfg : ArrivalBatchConfig;
  lanes : gmap string arrivalLane;
  closed : bool;
  waiters : gmap N arrivalWaiter;
  callbacks : list string;              (* started, waiting for the mutex *)
  watchers : gset N             (* goroutines that may call [cancel] *)
}.

Definition NewArrivalBatcher (c : ArrivalBatchConfig) : ArrivalBatcher := mkBatcher c ∅ false ∅ [] ∅.

Definition with_lanes (b : ArrivalBatcher) l := mkBatcher (cfg b) l (closed b) (waiters b) (callbacks b) (watchers b).
Definition with_waiters (b : ArrivalBatcher) w := mkBatcher (cfg b) (lanes b) (closed b) w (callbacks b) (watchers b).

Definition candidate_of (w : arrivalWaiter) : BatchCandidate :=
  let r := aw_req w in mkCandidate (ar_ID r) (ar_PromptTokens r) (ar_OutputTokens r) (ar_ReusablePrefixTokens r).

Definition pending_of (b : ArrivalBatcher) (lane : arrivalLane) : list arrivalWaiter :=
  omap (λ i, waiters b !! i) (al_pending lane).

(** [w.released = true; close(w.ready)]. *)
Definition release (b : ArrivalBatcher) (i : N) : res ArrivalBatcher :=
  match waiters b !! i with
  | None => Err errPanic
  | Some w =>
      refuse errPanic if aw_ready w;
      Ok (with_waiters b (<[i := mkWaiter (aw_req w) (aw_admitted w) true true]> (waiters b)))
  end.

Fixpoint release_all (b : ArrivalBatcher) (l : list N) : res ArrivalBatcher :=
  match l with
  | [] => Ok b
  | i :: l =>
      match waiters b !! i with
      | None => Err errPanic
      | Some w => if aw_released w then release_all b l else b ← release b i; release_all b l
      end
  end.

(** A flushed lane is out of the map, so that its [flushing] flag is never seen set. *)
Definition flushLaneLocked (b : ArrivalBatcher) (key : string) (lane : arrivalLane) : res ArrivalBatcher :=
  release_all (with_lanes b (delete key (lanes b))) (al_pending lane).

(** The body of the loop of [earliestHold]: what is left of the window of [p]. *)
Definition window (c : ArrivalBatchConfig) (p : arrivalWaiter) : Z :=
  let r := aw_req p in JoinWindowForArrival (ar_Class r) (Deadline r) (aw_admitted p) (ar_PromptTokens r) (JoinWindow c).

Definition remaining_hold (c : ArrivalBatchConfig) (now : Z) (p : arrivalWaiter) : Z :=
  let remaining := window c p -w time_Sub now (aw_admitted p) in
  if remaining <? 0 then 0 else remaining.

Definition earliestHold (b : ArrivalBatcher) (lane : arrivalLane) (now : Z) : Z :=
  let remaining := remaining_hold (cfg b) now in
  match pending_of b lane with
  | [] => 0
  | p :: ps => foldl (λ earliest p, if remaining p <? earliest then remaining p else earliest) (remaining p) ps
  end.

Definition armTimerLocked (b : ArrivalBatcher) (key : string) (lane : arrivalLane) (hold now : Z) : res ArrivalBatcher :=
  if hold <=? 0 then flushLaneLocked b key lane
  else Ok (with_lanes b (<[key := mkLane (al_class lane) (al_pending lane) (Some (now + hold, false))]> (lanes b))).

Definition tightest (l : list arrivalWaiter) : option Z :=
  foldl (λ t p, match Deadline (aw_req p), t with
                | None, _ => t
                | Some d, None => Some d
                | Some d, Some t' => if d <? t' then Some d else Some t'
                end) None l.

Definition deadlineForceFlush (b : ArrivalBatcher) (lane : arrivalLane) (now : Z) : bool * bool :=
  let pending := pending_of b lane in
  match pending with
  | [] => (false, false)
  | _ =>
      let candidates := candidate_of <$> pending in
      match PolicyForTrafficClass (al_class lane) with
      | Err _ => (true, false)
      | Ok policy =>
          let '(chosen, used) := SelectBatch candidates (TokenBudget policy) in
          match chosen with
          | [] => (false, false)
          | _ =>
              match tightest (filter (λ p, ar_ID (aw_req p) ∈ bc_ID <$> chosen) pending) with
              | None => (false, false)
              | Some t =>
                  if HoldWouldMissDeadline (Some t) now 0 used then
                    let others := take (length pending - 1) pending in
                    let usedWithout := (SelectBatch (take (length candidates - 1) candidates) (TokenBudget policy)).2 in
                    match tightest others with
                    | Some t' => (true, (1 <? length pending)%nat && negb (HoldWouldMissDeadline (Some t') now 0 usedWithout))
                    | None => (true, false)
                    end
                  else if HoldWouldMissDeadline (Some t) now (earliestHold b lane now) used then (true, false)
                  else (false, false)
              end
          end
      end
  end.

Definition budgetFull (b : ArrivalBatcher) (lane : arrivalLane) (budget : Z) : bool :=
  let candidates := candidate_of <$> pending_of b lane in
  if bool_decide (al_pending lane = []) || (budget <=? 0) then false
  else
    let '(chosen, used) := SelectBatch candidates budget in
    (length chosen <? length candidates)%nat || (budget <=? used).

Definition latencyClassForTraffic (class : string) : string :=
  if bool_decide (class = TrafficInteractive) then LatencyInteractive else LatencyBatch.

(** [i] is the channel that [Admit] makes; a request that is not held gets it closed. *)
Definition bypass (b : ArrivalBatcher) (i : N) (req : ArrivalRequest) (now : Z) : ArrivalBatcher :=
  with_waiters b (<[i := mkWaiter req now true true]> (waiters b)).

(** What [Admit] does before it takes the mutex for good: the window of a request that
    may wait, and the budget of its class. *)
Definition may_hold (c : ArrivalBatchConfig) (req : ArrivalRequest) (now : Z) : option (Z * Z) :=
  match PolicyForTrafficClass (ar_Class req) with
  | Err _ => None
  | Ok policy =>
      let hold := JoinWindowForArrival (ar_Class req) (Deadline req) now (ar_PromptTokens req) (JoinWindow c) in
      if (hold <=? 0) || HoldWouldMissDeadline (Deadline req) now hold (ar_PromptTokens req) then None
      else if match Deadline req with
              | None => false
              | Some d => negb (is_ok (ValidateBatchBudget (latencyClassForTraffic (ar_Class req)) (TokenBudget policy) (time_Sub d now)))
              end
      then None
      else Some (hold, TokenBudget policy)
  end.

(** The clock reads [now] before the mutex is taken, [then_] in [deadlineForceFlush] and
    [armed] in [time.AfterFunc]. *)
Definition Admit (b : ArrivalBatcher) (i : N) (req : ArrivalRequest) (cancellable : bool) (now then_ armed : Z) : res ArrivalBatcher :=
  let key := LaneKey req in
  if negb (Enabled (cfg b)) || closed b || bool_decide (key = "") then Ok (bypass b i req now)
  else
    match may_hold (cfg b) req now with
    | None => Ok (bypass b i req now)
    | Some (hold, budget) =>
        let lane := default (mkLane (ar_Class req) [] None) (lanes b !! key) in
        if negb (bool_decide (al_class lane = ar_Class req)) then Ok (bypass b i req now)
        else
          let b := with_waiters b (<[i := mkWaiter req now false false]> (waiters b)) in
          let joined := mkLane (al_class lane) (al_pending lane ++ [i]) (al_timer lane) in
          match deadlineForceFlush b joined then_ with
          | (true, true) =>
              b ← flushLaneLocked b key lane;
              armTimerLocked b key (mkLane (ar_Class req) [i] None) hold armed
          | (true, false) => flushLaneLocked b key joined
          | (false, _) =>
              if budgetFull b joined budget then flushLaneLocked b key joined
              else
                b ← armTimerLocked b key joined (earliestHold b joined now) armed;
                Ok (mkBatcher (cfg b) (lanes b) (closed b) (waiters b) (callbacks b)
                      (if cancellable then {[ i ]} ∪ watchers b else watchers b))
          end
    end.

Definition cancel (b : ArrivalBatcher) (i : N) : res ArrivalBatcher :=
  match waiters b !! i with
  | None => Err errPanic
  | Some w =>
      if aw_released w then Ok b
      else
        let key := LaneKey (aw_req w) in
        match lanes b !! key with
        | None => release b i
        | Some lane =>
            let left := filter (λ j, j ≠ i) (al_pending lane) in
            b ← release b i;
            Ok (with_lanes b (if bool_decide (left = []) then delete key (lanes b)
                              else <[key := mkLane (al_class lane) left (al_timer lane)]> (lanes b)))
        end
  end.

Fixpoint flush_each (b : ArrivalBatcher) (l : list (string * arrivalLane)) : res ArrivalBatcher :=
  match l with [] => Ok b | (key, lane) :: l => b ← flushLaneLocked b key lane; flush_each b l end.

Definition Close (b : ArrivalBatcher) : res ArrivalBatcher :=
  flush_each (mkBatcher (cfg b) (lanes b) true (waiters b) (callbacks b) (watchers b)) (map_to_list (lanes b)).

(** A timer that is due starts its callback, which then waits for the mutex. *)
Definition fire (b : ArrivalBatcher) (key : string) (now : Z) : option ArrivalBatcher :=
  match lanes b !! key with
  | Some (mkLane c p (Some (due, false))) =>
      if due <=? now
      then Some (mkBatcher (cfg b) (<[key := mkLane c p (Some (due, true))]> (lanes b)) (closed b) (waiters b) (callbacks b ++ [key]) (watchers b))
      else None
  | _ => None
  end.

(** The function given to [time.AfterFunc]. *)
Definition callback (b : ArrivalBatcher) (key : string) : res ArrivalBatcher :=
  match lanes b !! key with None => Ok b | Some lane => flushLaneLocked b key lane end.

Definition ArrivalLaneKey (model runtimeCell workerID samplingFingerprint : string) : string :=
  model +:+ "|" +:+ runtimeCell +:+ "|" +:+ workerID +:+ "|" +:+ samplingFingerprint.

(** [WaitArrival]: the request goes on when its channel is closed. *)
Definition may_forward (b : ArrivalBatcher) (i : N) : bool := match waiters b !! i with Some w => aw_ready w | None => false end.

(** *** Histories *)

Definition drop_callback (b : ArrivalBatcher) (l : list string) : ArrivalBatcher :=
  mkBatcher (cfg b) (lanes b) (closed b) (waiters b) l (watchers b).

(** The steps of the timers. *)
Inductive timer_step (now : Z) : ArrivalBatcher → ArrivalBatcher → Prop :=
| timer_fires b key b' : fire b key now = Some b' → timer_step now b b'
| callback_runs b l1 key l2 b' :
    callbacks b = l1 ++ key :: l2 → callback (drop_callback b (l1 ++ l2)) key = Ok b' → timer_step now b b'.

(** Tokens are counts: a body has at most [maxRealtimeRequestBytes], and no request
    names more than [2 ^ 33]. *)
Definition counted (req : ArrivalRequest) : Prop :=
  0 ≤ ar_PromptTokens req < 2 ^ 33 ∧ 0 ≤ ar_ReusablePrefixTokens req < 2 ^ 33.

(** [d] bounds the time from the first reading of the clock in an [Admit] to its last,
    the wait for the mutex included. *)
Inductive batch_step (d : Z) : ArrivalBatcher * Z → ArrivalBatcher * Z → Prop :=
| step_admit b t i req c now then_ armed b' :
    waiters b !! i = None → counted req → t ≤ then_ ≤ armed → now ≤ then_ → armed ≤ now + d →
    Admit b i req c now then_ armed = Ok b' → batch_step d (b, t) (b', armed)
| step_cancel b t i b' : i ∈ watchers b → cancel b i = Ok b' → batch_step d (b, t) (b', t)
| step_close b t b' : Close b = Ok b' → batch_step d (b, t) (b', t)
| step_timer b t b' : timer_step t b b' → batch_step d (b, t) (b', t)
| step_wait b t t' : t ≤ t' → batch_step d (b, t) (b, t').

(** ** Packing *)

Definition cheaper (x y : BatchCandidate) : Prop := prefillTokens x ≤ prefillTokens y.
Definition total_prefill (l : list BatchCandidate) : Z := list_total prefillTokens l.

Lemma prefill_nonneg c : 0 ≤ prefillTokens c.
Proof. unfold prefillTokens. cbv zeta. destruct (Z.ltb_spec (bc_PromptTokens c -w bc_ReusablePrefixTokens c) 0); lia. Qed.

Lemma total_prefill_nonneg l : 0 ≤ total_prefill l.
Proof. unfold total_prefill, list_total. induction l as [|c l IH]; simpl; [lia|]. pose proof (prefill_nonneg c). lia. Qed.

Lemma total_prefill_app l l' : total_prefill (l ++ l') = total_prefill l + total_prefill l'.
Proof. unfold total_prefill, list_total. induction l as [|c l IH]; simpl; [done|]. rewrite IH. lia. Qed.

#[export] Instance total_prefill_proper : Proper ((≡ₚ) ==> (=)) total_prefill.
Proof. intros l l'. apply list_total_perm. Qed.

Lemma sorted_snoc l a : StronglySorted cheaper (l ++ [a]) ↔ StronglySorted cheaper l ∧ Forall (λ x, cheaper x a) l.
Proof.
  induction l as [|x l IH]; simpl.
  - split; [by split; constructor|]. intros _. by repeat constructor.
  - split.
    + intros [S F]%StronglySorted_inv. apply IH in S as [S F']. apply Forall_app in F as [F [Fa _]%Forall_cons].
      split; [by constructor|by constructor].
    + intros [[S F]%StronglySorted_inv [Fa F']%Forall_cons]. constructor; [by apply IH|]. apply Forall_app. split; [done|by constructor].
Qed.

Lemma sift_spec pre a post :
  ∃ q, sift (length pre) (pre ++ a :: post) = q ++ post ∧ q ≡ₚ pre ++ [a] ∧
    (StronglySorted cheaper pre → StronglySorted cheaper q).
Proof.
  revert post. induction pre as [|b pre IH] using rev_ind; intros post; simpl.
  { exists [a]. split_and!; [done..|]. intros _. by repeat constructor. }
  rewrite List.length_app, Nat.add_comm. simpl. rewrite <-app_assoc. simpl.
  assert ((pre ++ b :: a :: post) !! S (length pre) = Some a) as ->.
  { rewrite lookup_app_r by lia. by replace (S (length pre) - length pre)%nat with 1%nat by lia. }
  rewrite list_lookup_middle by done. destruct (Z.ltb_spec (prefillTokens a) (prefillTokens b)) as [L|L].
  - rewrite insert_app_r_alt by lia. rewrite Nat.sub_diag. simpl. rewrite insert_app_r_alt by lia.
    replace (S (length pre) - length pre)%nat with 1%nat by lia. simpl.
    destruct (IH (b :: post)) as (q & -> & P & S). exists (q ++ [b]). split; [by rewrite <-app_assoc|]. split.
    + rewrite P, <-!app_assoc. simpl. by rewrite (Permutation_swap a b).
    + intros [S1 F]%sorted_snoc. apply sorted_snoc. split; [auto|]. rewrite P. apply Forall_app. split; [done|].
      constructor; [unfold cheaper; lia|constructor].
  - exists (pre ++ [b; a]). split; [by rewrite <-app_assoc|]. split; [by rewrite <-app_assoc|]. intros Sb.
    replace (pre ++ [b; a]) with ((pre ++ [b]) ++ [a]) by (by rewrite <-app_assoc). apply sorted_snoc. split; [done|].
    apply sorted_snoc in Sb as [_ F]. apply Forall_app. split; [|by constructor].
    eapply Forall_impl; [exact F|]. unfold cheaper. simpl. intros x. lia.
Qed.

Lemma fold_sift pre post :
  StronglySorted cheaper pre →
  let q := foldl (λ l i, sift i l) (pre ++ post) (seq (length pre) (length post)) in
  q ≡ₚ pre ++ post ∧ StronglySorted cheaper q.
Proof.
  revert pre. induction post as [|a post IH]; intros pre S; simpl; [by rewrite app_nil_r|].
  destruct (sift_spec pre a post) as (q & -> & P & Sq). assert (length q = Datatypes.S (length pre)) as <-.
  { rewrite (Permutation_length P), List.length_app. simpl. lia. }
  destruct (IH q (Sq S)) as [P' S']. split; [|done]. rewrite P', P, <-app_assoc. done.
Qed.

(** The two loops are a sort. *)
Lemma order_by_cost_spec l : order_by_cost l ≡ₚ l ∧ StronglySorted cheaper (order_by_cost l).
Proof.
  unfold order_by_cost. destruct l as [|a l]; [split; [done|constructor]|].
  simpl. rewrite Nat.sub_0_r. apply (fold_sift [a] l). by repeat constructor.
Qed.

(** On a sorted list the packing is its longest prefix that fits. *)
Lemma pack_prefix budget chosen l :
  0 < budget < 2 ^ 62 → StronglySorted cheaper l → total_prefill chosen ≤ budget →
  (∃ c l', l = c :: l' ∧ chosen = [] ∧ budget < prefillTokens c ∧ pack budget chosen (total_prefill chosen) l = ([c], prefillTokens c)) ∨
  ∃ k, let q := chosen ++ take k l in
    pack budget chosen (total_prefill chosen) l = (q, total_prefill q) ∧ (k ≤ length l)%nat ∧ total_prefill q ≤ budget ∧
    (k = length l ∨ budget < total_prefill (chosen ++ take (S k) l)).
Proof.
  intros B. revert chosen. induction l as [|c l IH]; intros chosen S T.
  { right. exists O. simpl. rewrite app_nil_r. auto. }
  apply StronglySorted_inv in S as [S F]. cbn [pack]. cbv zeta. pose proof (prefill_nonneg c) as Nc. pose proof (total_prefill_nonneg chosen) as Nt.
  assert (budget < total_prefill chosen + prefillTokens c → chosen ≠ [] → pack budget chosen (total_prefill chosen) l = (chosen, total_prefill chosen)) as Rest.
  { clear IH. intros L Ne. induction l as [|x l IH]; [done|]. apply Forall_cons in F as [Fx F]. apply StronglySorted_inv in S as [S _]. simpl.
    unfold cheaper in Fx. pose proof (prefill_nonneg x). destruct (Z.ltb_spec budget (prefillTokens x)) as [_|Lx]; [destruct chosen; [done|by apply IH]|].
    rewrite wrap64_id by (width; lia). destruct (Z.ltb_spec budget (total_prefill chosen + prefillTokens x)); [by apply IH|lia]. }
  assert (total_prefill (chosen ++ [c]) = total_prefill chosen + prefillTokens c) as Tc.
  { rewrite total_prefill_app. unfold total_prefill, list_total. simpl. lia. }
  destruct (Z.ltb_spec budget (prefillTokens c)) as [L|L].
  - destruct chosen as [|x chosen]; [left; by exists c, l|]. right. exists O. simpl take. rewrite app_nil_r.
    split; [apply Rest; [lia|done]|]. split; [lia|]. split; [done|]. right. change (budget < total_prefill ((x :: chosen) ++ [c])). rewrite Tc. lia.
  - rewrite wrap64_id by (width; lia). destruct (Z.ltb_spec budget (total_prefill chosen + prefillTokens c)) as [L'|L'].
    + right. exists O. simpl take. rewrite app_nil_r. split; [apply Rest; [done|]|]. { intros ->. unfold total_prefill, list_total in L'. simpl in L'. lia. }
      split; [lia|]. split; [done|]. right. change (budget < total_prefill (chosen ++ [c])). rewrite Tc. lia.
    + rewrite <-Tc. destruct (IH (chosen ++ [c]) S) as [(x & l' & _ & Bad & _)|(k & Pk & Lk & Tk & Ck)]; [lia|by destruct chosen|].
      right. exists (Datatypes.S k). cbn [take]. rewrite <-app_assoc in *. simpl in *. split; [done|]. split; [lia|]. split; [done|].
      destruct Ck as [->|Ck]; [by left|right]. done.
Qed.

(** The cheapest of a sorted list cost no more than any others. *)
Lemma cheapest_first l S :
  StronglySorted cheaper l → S ⊆+ l → total_prefill (take (length S) l) ≤ total_prefill S.
Proof.
  revert S. induction l as [|x l IH]; intros S So Sub.
  { apply submseteq_nil_r in Sub as ->. done. }
  apply StronglySorted_inv in So as [So F].
  apply submseteq_cons_r in Sub as [Sub|(S' & P & Sub)].
  - specialize (IH S So Sub). destruct S as [|s S]; [done|]. simpl in *. etrans; [|exact IH].
    pose proof (submseteq_length _ _ Sub) as Len. simpl in Len.
    assert (∀ k, (k < length l)%nat → prefillTokens x + total_prefill (take k l) ≤ total_prefill (take (Datatypes.S k) l)) as Step.
    { intros k Lk. destruct (lookup_lt_is_Some_2 l k Lk) as [y Ly]. rewrite (take_S_r _ _ _ Ly), total_prefill_app.
      rewrite Forall_forall in F. assert (cheaper x y) by (apply F; by eapply list_elem_of_lookup_2).
      replace (total_prefill [y]) with (prefillTokens y) by (unfold total_prefill, list_total; simpl; lia). unfold cheaper in *. lia. }
    change (total_prefill (x :: take (length S) l)) with (prefillTokens x + total_prefill (take (length S) l)). apply Step. lia.
  - specialize (IH S' So Sub). rewrite P. simpl length. change (prefillTokens x + total_prefill (take (length S') l) ≤ prefillTokens x + total_prefill S').
    lia.
Qed.

(** ** The projection

    [EstimatedTTFT] is 138.9 microseconds a token up to its truncation, for any count a
    request can have. *)

Definition ttft_mantissa : positive := 5004399905934095.
Definition milli_mantissa : positive := 8589934592000000.

Lemma ttft_constants :
  f64_lit 1389 10000 = S754_finite false ttft_mantissa (-55) ∧ f64_of_Z 1000000 = S754_finite false milli_mantissa (-33).
Proof. split; vm_compute; reflexivity. Qed.

(** The errors of the literal and of the two products, together. *)
Lemma ttft_error m1 m2 m3 v1 v2 :
  0 < m1 < 2 ^ 53 → 52 ≤ v1 ≤ 54 → 0 ≤ v2 → Z.abs (m2 * 2 ^ v1 - m1 * Z.pos ttft_mantissa) ≤ 2 ^ 52 →
  Z.abs (m3 * 2 ^ v2 - m2 * Z.pos milli_mantissa) ≤ 2 ^ 52 → Z.abs (m3 * 2 ^ (v1 + v2) - m1 * 138900 * 2 ^ 88) < 2 ^ 108.
Proof.
  intros M V1 V2 D1 D2. rewrite Z.pow_add_r by lia. assert (2 ^ v1 ≤ 2 ^ 54) as U by (apply Z.pow_le_mono_r; lia).
  assert (0 < 2 ^ v1) as Pv by lia. revert D1 D2 U Pv. generalize (2 ^ v1), (2 ^ v2). intros x y D1 D2 U Pv.
  assert (Z.abs (m3 * y * x - m2 * Z.pos milli_mantissa * x) ≤ 2 ^ 106) as A.
  { rewrite <-Z.mul_sub_distr_r, Z.abs_mul. apply (Z.mul_le_mono_nonneg _ (2 ^ 52) _ (2 ^ 54)); lia. }
  unfold ttft_mantissa, milli_mantissa in *. lia.
Qed.

Lemma EstimatedTTFT_accurate n : 0 ≤ n < 2 ^ 33 → 138900 * n - 1 ≤ EstimatedTTFT n ≤ 138900 * n.
Proof.
  intros N. destruct (Z.eq_dec n 0) as [->|Nz]; [vm_compute; split; discriminate|].
  unfold EstimatedTTFT, f64_mul. destruct ttft_constants as [-> ->]. unfold f64_of_Z.
  destruct (f64_of_small false false n) as (m1 & k & E & M1 & R1 & K); [lia|]. simpl cond_Zopp in E. rewrite E. clear E.
  assert (20 ≤ k) as K20.
  { destruct (Z.lt_ge_cases k 20); [|done]. assert (2 ^ k ≤ 2 ^ 19) by (apply Z.pow_le_mono_r; lia).
    assert (n * 2 ^ k ≤ (2 ^ 33 - 1) * 2 ^ 19) by (apply Z.mul_le_mono_nonneg; lia). lia. }
  destruct (mul_normal false m1 (- k) ttft_mantissa (-55)) as (m2 & v1 & -> & R2 & V1 & D1); [done|by unfold ttft_mantissa|lia|].
  destruct (mul_normal false m2 (- k + -55 + v1) milli_mantissa (-33)) as (m3 & v2 & -> & R3 & V2 & D2); [done|by unfold milli_mantissa|lia|].
  pose proof (ttft_error (Z.pos m1) (Z.pos m2) (Z.pos m3) v1 v2 ltac:(lia) ltac:(lia) ltac:(lia) D1 D2) as Er. clear D1 D2 R2.
  assert (∃ q j, f64_trunc (S754_finite false m3 (- k + -55 + v1 + -33 + v2)) = Some q ∧ 0 ≤ j ∧ v1 + v2 + j = 88 + k ∧
    q * 2 ^ j ≤ Z.pos m3 < (q + 1) * 2 ^ j) as (q & j & Tq & J & Ej & Q).
  { simpl. destruct (Z.leb_spec 0 (- k + -55 + v1 + -33 + v2)) as [L|L].
    - exists (Z.pos m3), 0. replace (- k + -55 + v1 + -33 + v2) with 0 by lia. split_and!; try lia. f_equal. lia.
    - eexists _, (- (- k + -55 + v1 + -33 + v2)). split; [done|]. split_and!; [lia|lia|..].
      + rewrite Z.mul_comm. apply Z.mul_div_le. lia.
      + rewrite Z.mul_comm. apply Z.mul_succ_div_gt. lia. }
  assert (138900 * n - 1 ≤ q ≤ 138900 * n) as B.
  { assert (2 ^ 108 ≤ 2 ^ (88 + k)) by (apply Z.pow_le_mono_r; lia).
    assert (Z.pos m1 * 138900 * 2 ^ 88 = 138900 * n * 2 ^ (88 + k)) as Em by (rewrite M1, Z.pow_add_r by lia; lia). rewrite Em in Er.
    assert (0 < 2 ^ (v1 + v2)) as P by lia. rewrite <-Ej in *. rewrite (Z.pow_add_r 2 (v1 + v2) j) in * by lia.
    assert (0 < 2 ^ j) as Pj by lia. revert Er P Pj Q H. generalize (2 ^ (v1 + v2)), (2 ^ j), (138900 * n), (Z.pos m3). clear. intros. nia. }
  unfold f64_to_int64. rewrite Tq, (proj2 (is_int64_spec _)); [done|]. width. lia.
Qed.

Lemma EstimatedTTFT_mono n m : 0 ≤ n ≤ m → m < 2 ^ 33 → EstimatedTTFT n ≤ EstimatedTTFT m.
Proof.
  intros H M. destruct (Z.eq_dec n m) as [->|Ne]; [done|].
  pose proof (EstimatedTTFT_accurate n). pose proof (EstimatedTTFT_accurate m). lia.
Qed.

(** The packing never exceeds its budget, except for a single candidate when
    every candidate alone is too large; what it reports as used is what it chose; and no
    other choice of candidates that fits the budget has more of them. *)
Lemma SelectBatch_spec candidates budget chosen used :
  0 < budget < 2 ^ 62 → SelectBatch candidates budget = (chosen, used) →
  chosen ⊆+ candidates ∧ used = total_prefill chosen ∧
  (used ≤ budget ∨ length chosen = 1%nat ∧ Forall (λ c, budget < prefillTokens c) candidates) ∧
  (candidates ≠ [] → chosen ≠ []) ∧
  ∀ S, S ⊆+ candidates → total_prefill S ≤ budget → (length S ≤ length chosen)%nat.
Proof.
  intros B H. unfold SelectBatch in H. destruct (Z.leb_spec budget 0); [lia|]. destruct (order_by_cost_spec candidates) as [P So].
  set (l := order_by_cost candidates) in *. destruct (pack_prefix budget [] l B So) as [(c & l' & El & _ & Bc & E)|(k & E & Lk & Tk & Ck)];
    [unfold total_prefill, list_total; simpl; lia|..]; change (total_prefill []) with 0 in E; rewrite E in H; simplify_eq.
  - rewrite El in *. assert (Forall (λ c, budget < prefillTokens c) candidates) as All.
    { rewrite <-P. constructor; [done|]. apply StronglySorted_inv in So as [_ F]. eapply Forall_impl; [exact F|]. unfold cheaper. intros x. simpl. lia. }
    split_and!.
    + rewrite <-P. apply submseteq_skip, submseteq_nil_l.
    + unfold total_prefill, list_total. simpl. lia.
    + by right.
    + done.
    + intros S Sub T. destruct S as [|s S]; [simpl; lia|]. exfalso. rewrite Forall_forall in All.
      assert (budget < prefillTokens s) as L by (apply All; eapply elem_of_submseteq; [|exact Sub]; left).
      change (prefillTokens s + total_prefill S ≤ budget) in T. pose proof (total_prefill_nonneg S). lia.
  - simpl in *. split_and!.
    + rewrite <-P. apply sublist_submseteq, sublist_take.
    + done.
    + by left.
    + intros Ne Nil. destruct l as [|x l'] eqn:El; [apply Permutation_nil_l in P; done|]. destruct k; [|done]. simpl in Ck.
      destruct Ck as [?|Ck]; [done|]. unfold total_prefill, list_total in Ck. simpl in Ck.
      simpl in E. rewrite (proj2 (Z.ltb_lt _ _)) in E by lia. done.
    + intros S Sub T. rewrite <-P in Sub. destruct (decide (length S ≤ k)%nat) as [Le|Gt]; [rewrite length_take; lia|]. exfalso.
      pose proof (submseteq_length _ _ Sub). destruct Ck as [->|Ck]; [lia|]. pose proof (cheapest_first l S So Sub) as Ch.
      assert (total_prefill (take (Datatypes.S k) l) ≤ total_prefill (take (length S) l)); [|lia].
      rewrite <-(take_drop (Datatypes.S k) (take (length S) l)), total_prefill_app, take_take, Nat.min_l by lia.
      pose proof (total_prefill_nonneg (drop (Datatypes.S k) (take (length S) l))). lia.
Qed.

(** ** Windows *)

(** The longest window of a configuration. *)
Definition longest_window (c : ArrivalBatchConfig) : Z := if JoinWindow c <=? 0 then backgroundArrivalJoinWindow else JoinWindow c.

Lemma default_window class : 0 ≤ defaultJoinWindowForClass class ≤ backgroundArrivalJoinWindow.
Proof. unfold defaultJoinWindowForClass. repeat case_bool_decide; split; done. Qed.

Lemma join_window_bounds class dl now tokens c :
  0 ≤ tokens < 2 ^ 33 → longest_window c ≤ max_int64 →
  let hold := JoinWindowForArrival class dl now tokens (JoinWindow c) in
  0 ≤ hold ≤ longest_window c ∧ ∀ d, dl = Some d → 0 < hold → now + hold + EstimatedTTFT tokens + arrivalDeadlineSafety ≤ d.
Proof.
  intros T W. unfold JoinWindowForArrival, longest_window in *. pose proof (default_window class) as D.
  set (base := if JoinWindow c <=? 0 then defaultJoinWindowForClass class else JoinWindow c). cbv zeta.
  assert (base ≤ if JoinWindow c <=? 0 then backgroundArrivalJoinWindow else JoinWindow c) as B by (unfold base; destruct (JoinWindow c <=? 0); lia).
  destruct (Z.leb_spec base 0); [split; [|lia]; destruct (Z.leb_spec (JoinWindow c) 0); [unfold backgroundArrivalJoinWindow|]; lia|].
  destruct dl as [d|]; [|split; [lia|done]].
  pose proof (EstimatedTTFT_accurate tokens T) as E. unfold arrivalDeadlineSafety.
  rewrite (wrap64_id (_ + _)) by (width; lia). unfold time_Sub. set (r := Z.max min_int64 (Z.min max_int64 (d - now))).
  assert (r ≤ max_int64 ∧ (r ≤ d - now ∨ r = min_int64)) as [R1 R2] by (unfold r; width; lia).
  destruct (Z.leb_spec r (EstimatedTTFT tokens + 5000000)) as [L|L]; [split; [lia|intros ??; lia]|].
  rewrite wrap64_id by (revert R1 L; width; lia).
  assert (r ≤ d - now) as R3 by (destruct R2 as [?|R2]; [done|]; rewrite R2 in L; revert L; width; lia).
  destruct (Z.ltb_spec (r - (EstimatedTTFT tokens + 5000000)) base); (split; [lia|]); intros d' [= <-] _; lia.
Qed.

Lemma foldl_min {A} (f : A → Z) x l :
  let m := foldl (λ e p, if f p <? e then f p else e) x l in
  m ≤ x ∧ Forall (λ p, m ≤ f p) l ∧ (m = x ∨ Exists (λ p, m = f p) l).
Proof.
  revert x. induction l as [|p l IH]; intros x; simpl; [split_and!; [lia|constructor|by left]|].
  destruct (IH (if f p <? x then f p else x)) as (H1 & H2 & H3). destruct (Z.ltb_spec (f p) x); split_and!; try lia.
  - constructor; [lia|done].
  - right. destruct H3 as [H3|H3]; [by left|by right].
  - constructor; [lia|done].
  - destruct H3 as [H3|H3]; [by left|right; by right].
Qed.

Lemma earliestHold_min b lane now :
  pending_of b lane ≠ [] →
  Forall (λ p, earliestHold b lane now ≤ remaining_hold (cfg b) now p) (pending_of b lane) ∧
  Exists (λ p, earliestHold b lane now = remaining_hold (cfg b) now p) (pending_of b lane).
Proof.
  unfold earliestHold. destruct (pending_of b lane) as [|p ps]; [done|]. intros _.
  destruct (foldl_min (remaining_hold (cfg b) now) (remaining_hold (cfg b) now p) ps) as (H1 & H2 & [H3|H3]); split.
  - by constructor.
  - by left.
  - by constructor.
  - by right.
Qed.

Lemma window_bounds c p :
  counted (aw_req p) → longest_window c ≤ max_int64 → 0 ≤ window c p ≤ longest_window c.
Proof. intros [T _] W. by apply join_window_bounds. Qed.

Lemma remaining_hold_eq c d now p :
  counted (aw_req p) → 0 ≤ d → longest_window c + d ≤ max_int64 → aw_admitted p ≤ now + d →
  remaining_hold c now p = Z.max 0 (aw_admitted p + window c p - now).
Proof.
  intros T D W A. pose proof (window_bounds c p T ltac:(lia)) as B. unfold remaining_hold, time_Sub. cbv zeta.
  set (e := Z.max min_int64 (Z.min max_int64 (now - aw_admitted p))).
  assert (- d ≤ e ≤ max_int64 ∧ (e = now - aw_admitted p ∨ e = max_int64 ∧ max_int64 < now - aw_admitted p)) as [E1 E2] by (unfold e; revert W; width; lia).
  rewrite wrap64_id by (revert E1 W; width; lia). revert E2 W. width. intros E2 W.
  destruct (Z.ltb_spec (window c p - e) 0); lia.
Qed.

(** ** Flushing *)

Definition opened (w : arrivalWaiter) : arrivalWaiter := mkWaiter (aw_req w) (aw_admitted w) true true.
Definition open_all (l : list N) (m : gmap N arrivalWaiter) : gmap N arrivalWaiter :=
  map_imap (λ i w, Some (if decide (i ∈ l) then opened w else w)) m.
Definition waiting (m : gmap N arrivalWaiter) (i : N) : Prop := ∃ w, m !! i = Some w ∧ aw_released w = false ∧ aw_ready w = false.

Lemma open_all_lookup l m i : open_all l m !! i = (λ w, if decide (i ∈ l) then opened w else w) <$> m !! i.
Proof. unfold open_all. rewrite map_lookup_imap. by destruct (m !! i). Qed.

Lemma release_waiting b i :
  waiting (waiters b) i → release b i = Ok (with_waiters b (open_all [i] (waiters b))).
Proof.
  intros (w & L & R & C). unfold release. rewrite L, C. simpl. do 2 f_equal. apply map_eq. intros j.
  rewrite open_all_lookup. destruct (decide (i = j)) as [<-|Ne].
  - rewrite lookup_insert_eq, L. simpl. by rewrite decide_True by set_solver.
  - rewrite lookup_insert_ne by done. destruct (waiters b !! j); [|done]. simpl. by rewrite decide_False by set_solver.
Qed.

Lemma open_all_app l l' m : open_all l' (open_all l m) = open_all (l ++ l') m.
Proof.
  apply map_eq. intros j. rewrite !open_all_lookup. destruct (m !! j) as [w|]; [|done]. simpl. f_equal.
  destruct (decide (j ∈ l)), (decide (j ∈ l')), (decide (j ∈ l ++ l')); set_solver.
Qed.

Lemma open_all_nil m : open_all [] m = m.
Proof. apply map_eq. intros j. rewrite open_all_lookup. destruct (m !! j); done. Qed.

Lemma release_all_waiting b l :
  NoDup l → Forall (waiting (waiters b)) l → release_all b l = Ok (with_waiters b (open_all l (waiters b))).
Proof.
  revert b. induction l as [|i l IH]; intros b ND F; simpl.
  - rewrite open_all_nil. by destruct b.
  - apply NoDup_cons in ND as [Ni ND]. apply Forall_cons in F as [Fi F]. pose proof Fi as (w & L & R & _). rewrite L, R.
    rewrite release_waiting by done. simpl. rewrite IH; [simpl; by rewrite open_all_app|done|].
    rewrite Forall_forall in *. intros j Hj. destruct (F j Hj) as (wj & Lj & Rj). exists wj. simpl.
    rewrite open_all_lookup, Lj. simpl. rewrite decide_False by set_solver. done.
Qed.

(** A flush opens every channel of its lane, and takes the lane out of the map. *)
Lemma flush_waiting b key lane :
  NoDup (al_pending lane) → Forall (waiting (waiters b)) (al_pending lane) →
  flushLaneLocked b key lane =
    Ok (mkBatcher (cfg b) (delete key (lanes b)) (closed b) (open_all (al_pending lane) (waiters b)) (callbacks b) (watchers b)).
Proof. intros ND F. unfold flushLaneLocked. by rewrite release_all_waiting. Qed.

(** ** The invariant *)

Definition lane_prefill (b : ArrivalBatcher) (lane : arrivalLane) : Z := total_prefill (candidate_of <$> pending_of b lane).

(** A request that is held for [key]: its channel is open, and it belongs there. *)
Definition member_ok (b : ArrivalBatcher) (t : Z) (key : string) (class : string) (i : N) : Prop :=
  ∃ w, waiters b !! i = Some w ∧ aw_released w = false ∧ aw_ready w = false ∧ LaneKey (aw_req w) = key ∧
    ar_Class (aw_req w) = class ∧ counted (aw_req w) ∧ aw_admitted w ≤ t.

(** A timer due at [due] keeps the window of [w], and its deadline with all the work of
    the lane, up to the delay [d] of an [Admit]. *)
Definition in_time (d : Z) (b : ArrivalBatcher) (lane : arrivalLane) (due : Z) (w : arrivalWaiter) : Prop :=
  due ≤ aw_admitted w + window (cfg b) w + d ∧
  ∀ dl, Deadline (aw_req w) = Some dl → due + EstimatedTTFT (lane_prefill b lane) + arrivalDeadlineSafety ≤ dl + d.

Record lane_ok (d : Z) (b : ArrivalBatcher) (t : Z) (key : string) (lane : arrivalLane) : Prop := {
  lo_ne : al_pending lane ≠ [];
  lo_nodup : NoDup (al_pending lane);
  lo_members : Forall (member_ok b t key (al_class lane)) (al_pending lane);
  lo_prefill : lane_prefill b lane < 2 ^ 33;
  lo_timer : ∃ due started, al_timer lane = Some (due, started) ∧ (started = true → key ∈ callbacks b) ∧
    Forall (in_time d b lane due) (pending_of b lane)
}.

Record batcher_ok (d : Z) (b : ArrivalBatcher) (t : Z) : Prop := {
  bo_lanes : ∀ key lane, lanes b !! key = Some lane → lane_ok d b t key lane;
  bo_waiters : ∀ i w, waiters b !! i = Some w → aw_released w = aw_ready w ∧
    (aw_released w = false → ∃ lane, lanes b !! LaneKey (aw_req w) = Some lane ∧ i ∈ al_pending lane);
  bo_watchers : ∀ i, i ∈ watchers b → is_Some (waiters b !! i)
}.

(** The same, while the lane of [key] is being worked on: [l] are its waiters. *)
Record others_ok (d : Z) (key : string) (l : list N) (b : ArrivalBatcher) (t : Z) : Prop := {
  oo_lanes : ∀ k lane, k ≠ key → lanes b !! k = Some lane → lane_ok d b t k lane;
  oo_waiters : ∀ i w, waiters b !! i = Some w → aw_released w = aw_ready w ∧
    (aw_released w = false → if decide (LaneKey (aw_req w) = key) then i ∈ l
                             else ∃ lane, lanes b !! LaneKey (aw_req w) = Some lane ∧ i ∈ al_pending lane);
  oo_nodup : NoDup l;
  oo_members : Forall (λ i, ∃ w, waiters b !! i = Some w ∧ aw_released w = false ∧ LaneKey (aw_req w) = key) l;
  oo_watchers : ∀ i, i ∈ watchers b → is_Some (waiters b !! i)
}.

Definition pending_at (b : ArrivalBatcher) (key : string) : list N := default [] (al_pending <$> lanes b !! key).

Lemma pending_of_ext b b' lane :
  (∀ i, i ∈ al_pending lane → waiters b' !! i = waiters b !! i) → pending_of b' lane = pending_of b lane.
Proof.
  unfold pending_of. induction (al_pending lane) as [|i l IH]; intros H; simpl; [done|].
  rewrite (H i) by left. destruct (waiters b !! i); simpl; [f_equal|]; apply IH; intros; apply H; by right.
Qed.

Lemma lane_ok_frame d b b' t t' key lane :
  cfg b' = cfg b → (∀ i, i ∈ al_pending lane → waiters b' !! i = waiters b !! i) → t ≤ t' →
  (key ∈ callbacks b → key ∈ callbacks b') → lane_ok d b t key lane → lane_ok d b' t' key lane.
Proof.
  intros C W T K [N ND M P (due & st & Et & S & I)]. pose proof (pending_of_ext b b' lane W) as E. constructor; [done|done|..].
  - rewrite Forall_forall in *. intros i Hi. destruct (M i Hi) as (w & L & ?). exists w. rewrite (W i Hi). naive_solver lia.
  - unfold lane_prefill. by rewrite E.
  - exists due, st. split_and!; [done|naive_solver|]. rewrite E. eapply Forall_impl; [exact I|]. intros w.
    unfold in_time, lane_prefill. by rewrite E, C.
Qed.

Lemma member_waiting b t key class i : member_ok b t key class i → waiting (waiters b) i.
Proof. intros (w & ? & ? & ? & _). by exists w. Qed.

Lemma others_of_ok d key b t : batcher_ok d b t → others_ok d key (pending_at b key) b t.
Proof.
  intros [L W Wa]. unfold pending_at. constructor; [naive_solver| | | |done].
  - intros i w Hw. destruct (W i w Hw) as [E H]. split; [done|]. intros R. destruct (H R) as (lane & Ll & Hi).
    destruct (decide (LaneKey (aw_req w) = key)) as [<-|_]; [|by exists lane]. by rewrite Ll.
  - destruct (lanes b !! key) as [lane|] eqn:E; [apply (lo_nodup _ _ _ _ _ (L key lane E))|constructor].
  - destruct (lanes b !! key) as [lane|] eqn:E; [|constructor]. eapply Forall_impl; [apply (lo_members _ _ _ _ _ (L key lane E))|].
    intros i (w & ? & ? & _ & ? & _). by exists w.
Qed.

Lemma others_perm d key l l' b t : l ≡ₚ l' → others_ok d key l b t → others_ok d key l' b t.
Proof.
  intros P [L W ND M Wa]. constructor; [done| |by rewrite <-P|by rewrite <-P|done].
  intros i w Hw. destruct (W i w Hw) as [E H]. split; [done|]. intros R. specialize (H R).
  destruct (decide (LaneKey (aw_req w) = key)); [by rewrite <-P|done].
Qed.

Lemma others_waiting d key l b t : others_ok d key l b t → Forall (waiting (waiters b)) l.
Proof.
  intros O. eapply Forall_impl; [apply (oo_members _ _ _ _ _ O)|]. intros i (w & L & R & _). exists w.
  by rewrite <-(proj1 (oo_waiters _ _ _ _ _ O i w L)).
Qed.

(** Waiters of other lanes are not touched by what is done to those of [key]. *)
Lemma others_apart d key l b t k lane i :
  others_ok d key l b t → k ≠ key → lanes b !! k = Some lane → i ∈ al_pending lane → i ∉ l.
Proof.
  intros O K L Hi Hl. pose proof (lo_members _ _ _ _ _ (oo_lanes _ _ _ _ _ O k lane K L)) as M.
  rewrite Forall_forall in M. destruct (M i Hi) as (w & Lw & _ & _ & Kw & _).
  pose proof (oo_members _ _ _ _ _ O) as M'. rewrite Forall_forall in M'. destruct (M' i Hl) as (w' & Lw' & _ & Kw'). congruence.
Qed.

Lemma others_add d key l b t t' i req now :
  others_ok d key l b t → waiters b !! i = None → t ≤ t' → LaneKey req = key →
  others_ok d key (l ++ [i]) (with_waiters b (<[i := mkWaiter req now false false]> (waiters b))) t'.
Proof.
  intros O Fi T K. assert (i ∉ l) as Ni.
  { intros Hi. pose proof (oo_members _ _ _ _ _ O) as M. rewrite Forall_forall in M. destruct (M i Hi) as (w & ? & _). congruence. }
  destruct O as [L W ND M Wa]. constructor; simpl.
  - intros k lane Nk Lk. pose proof (L k lane Nk Lk) as Ok. apply (lane_ok_frame d b _ t t' k lane); [done| |done|done|done].
    intros j Hj. simpl. rewrite lookup_insert_ne; [done|]. intros <-. pose proof (lo_members _ _ _ _ _ Ok) as Mk.
    rewrite Forall_forall in Mk. destruct (Mk i Hj) as (w & ? & _). congruence.
  - intros j w. destruct (decide (i = j)) as [<-|Ne]; [rewrite lookup_insert_eq|rewrite lookup_insert_ne by done].
    + intros [= <-]. simpl. split; [done|]. intros _. rewrite decide_True by done. set_solver.
    + intros Hw. destruct (W j w Hw) as [E H]. split; [done|]. intros R. specialize (H R). destruct (decide _); [set_solver|done].
  - apply NoDup_app. split; [done|]. split; [set_solver|apply NoDup_singleton].
  - apply Forall_app. split.
    + rewrite Forall_forall in *. intros j Hj. destruct (M j Hj) as (w & Lj & ?). exists w. rewrite lookup_insert_ne; [done|congruence].
    + constructor; [|constructor]. eexists. by rewrite lookup_insert_eq.
  - intros j Hj. destruct (decide (i = j)) as [<-|Ne]; [rewrite lookup_insert_eq|rewrite lookup_insert_ne by done]; [done|by apply Wa].
Qed.

Lemma others_flush d key l l' b t :
  others_ok d key (l ++ l') b t →
  others_ok d key l' (mkBatcher (cfg b) (delete key (lanes b)) (closed b) (open_all l (waiters b)) (callbacks b) (watchers b)) t.
Proof.
  intros O. pose proof O as [L W ND M Wa]. apply NoDup_app in ND as (ND1 & Dj & ND2). apply Forall_app in M as [M1 M2]. constructor; simpl.
  - intros k lane Nk Lk. rewrite lookup_delete_ne in Lk by done.
    apply (lane_ok_frame d b _ t t k lane); [done| |done|done|by apply L]. intros i Hi. simpl. rewrite open_all_lookup.
    pose proof (others_apart _ _ _ _ _ k lane i O Nk Lk Hi). destruct (waiters b !! i); [|done]. simpl. by rewrite decide_False by set_solver.
  - intros i w Hw. rewrite open_all_lookup in Hw. destruct (waiters b !! i) as [w0|] eqn:E0; [|done]. simpl in Hw. destruct (W i w0 E0) as [E H].
    destruct (decide (i ∈ l)) as [Hi|Ni]; simplify_eq; [done|]. split; [done|]. intros R. specialize (H R).
    destruct (decide (LaneKey (aw_req w) = key)) as [K|K]; [set_solver|]. rewrite lookup_delete_ne by done. done.
  - done.
  - rewrite Forall_forall in *. intros i Hi. destruct (M2 i Hi) as (w & Lw & ?). exists w. rewrite open_all_lookup, Lw. simpl.
    rewrite decide_False; [done|]. intros Hl. by apply (Dj i).
  - intros i Hi. rewrite open_all_lookup. destruct (Wa i Hi) as [w ->]. done.
Qed.

Lemma others_done d key b t : others_ok d key [] b t → lanes b !! key = None → batcher_ok d b t.
Proof.
  intros [L W ND M Wa] N. constructor; [| |done].
  - intros k lane Lk. apply L; [congruence|done].
  - intros i w Hw. destruct (W i w Hw) as [E H]. split; [done|]. intros R. specialize (H R). destruct (decide _); [set_solver|done].
Qed.

Lemma others_insert d key lane b t :
  others_ok d key (al_pending lane) b t → lane_ok d b t key lane → batcher_ok d (with_lanes b (<[key := lane]> (lanes b))) t.
Proof.
  intros [L W ND M Wa] O. constructor; simpl; [| |done].
  - intros k l. destruct (decide (key = k)) as [<-|Ne]; [rewrite lookup_insert_eq|rewrite lookup_insert_ne by done].
    + intros [= <-]. by apply (lane_ok_frame d b _ t t).
    + intros Lk. apply (lane_ok_frame d b _ t t); [done..|]. by apply L.
  - intros i w Hw. destruct (W i w Hw) as [E H]. split; [done|]. intros R. specialize (H R).
    destruct (decide (LaneKey (aw_req w) = key)) as [->|K]; [exists lane; by rewrite lookup_insert_eq|]. by rewrite lookup_insert_ne.
Qed.

(** What a flush does to a lane whose waiters are those of [key]. *)
Lemma flush_ok d key lane b t :
  others_ok d key (al_pending lane) b t →
  ∃ b', flushLaneLocked b key lane = Ok b' ∧ batcher_ok d b' t ∧ cfg b' = cfg b ∧ closed b' = closed b ∧ lanes b' = delete key (lanes b) ∧
    callbacks b' = callbacks b ∧ watchers b' = watchers b ∧ waiters b' = open_all (al_pending lane) (waiters b).
Proof.
  intros O. rewrite flush_waiting; [|by eapply oo_nodup|by eapply others_waiting]. eexists. split; [done|].
  split; [|done]. apply (others_done d key); [|by apply lookup_delete_eq]. apply others_flush. by rewrite app_nil_r.
Qed.

Lemma bypass_ok d b t t' i req now : batcher_ok d b t → waiters b !! i = None → t ≤ t' → batcher_ok d (bypass b i req now) t'.
Proof.
  intros [L W Wa] Fi T. unfold bypass. constructor; simpl.
  - intros k lane Lk. pose proof (L k lane Lk) as Ok. apply (lane_ok_frame d b _ t t' k lane); [done| |done|done|done].
    intros j Hj. simpl. rewrite lookup_insert_ne; [done|]. intros <-. pose proof (lo_members _ _ _ _ _ Ok) as Mk.
    rewrite Forall_forall in Mk. destruct (Mk i Hj) as (w & ? & _). congruence.
  - intros j w. destruct (decide (i = j)) as [<-|Ne]; [rewrite lookup_insert_eq; by intros [= <-]|rewrite lookup_insert_ne by done; apply W].
  - intros j Hj. destruct (decide (i = j)) as [<-|Ne]; [by rewrite lookup_insert_eq|rewrite lookup_insert_ne by done; by apply Wa].
Qed.

(** ** Cancelling, closing and the timers *)

Lemma total_prefill_submseteq l l' : l ⊆+ l' → total_prefill l ≤ total_prefill l'.
Proof.
  intros [k ->]%submseteq_Permutation. rewrite total_prefill_app. pose proof (total_prefill_nonneg k). lia.
Qed.

Lemma omap_sublist {A B} (f : A → option B) l l' : l `sublist_of` l' → omap f l `sublist_of` omap f l'.
Proof.
  induction 1 as [|x l l' S IH|x l l' S IH]; simpl; [done|..]; destruct (f x); [by constructor|done|by constructor|done].
Qed.

(** Fewer waiters are still in time. *)
Lemma lane_ok_fewer d b t key lane l :
  lane_ok d b t key lane → l `sublist_of` al_pending lane → l ≠ [] → lane_ok d b t key (mkLane (al_class lane) l (al_timer lane)).
Proof.
  intros [N ND M P (due & st & Et & S & I)] Sub Ne. set (lane' := mkLane (al_class lane) l (al_timer lane)).
  assert (pending_of b lane' `sublist_of` pending_of b lane) as SubP by (by apply omap_sublist).
  assert (lane_prefill b lane' ≤ lane_prefill b lane) as Le.
  { apply total_prefill_submseteq, fmap_submseteq, sublist_submseteq, SubP. }
  constructor; simpl.
  - done.
  - by eapply sublist_NoDup.
  - rewrite Forall_forall in *. intros i Hi. apply M. by eapply elem_of_sublist.
  - lia.
  - exists due, st. split_and!; [done|done|]. rewrite Forall_forall in *. intros w Hw.
    destruct (I w) as [I1 I2]; [by eapply elem_of_sublist|]. split; [done|]. intros dl Hd. specialize (I2 dl Hd).
    pose proof (EstimatedTTFT_mono (lane_prefill b lane') (lane_prefill b lane)) as Mo.
    pose proof (total_prefill_nonneg (candidate_of <$> pending_of b lane')) as Nn. fold (lane_prefill b lane') in Nn. lia.
Qed.

Lemma filter_ne_perm i (l : list N) : NoDup l → i ∈ l → l ≡ₚ i :: filter (λ j, j ≠ i) l.
Proof.
  intros ND Hi. apply NoDup_Permutation; [done| |].
  - constructor; [rewrite list_elem_of_filter; naive_solver|by apply NoDup_filter].
  - intros j. rewrite elem_of_cons, list_elem_of_filter. destruct (decide (j = i)); naive_solver.
Qed.

Lemma cancel_ok d b t i :
  batcher_ok d b t → i ∈ watchers b → ∃ b', cancel b i = Ok b' ∧ batcher_ok d b' t ∧ cfg b' = cfg b ∧ (lanes b = ∅ → lanes b' = ∅) ∧
    closed b' = closed b ∧ ∀ w, waiters b !! i = Some w → waiters b' !! i = Some (if aw_released w then w else opened w).
Proof.
  intros O Hi. destruct (bo_watchers _ _ _ O i Hi) as [w Lw]. destruct (bo_waiters _ _ _ O i w Lw) as [Er H].
  unfold cancel. rewrite Lw. destruct (aw_released w) eqn:R.
  { exists b. split_and!; [done..|]. intros w' [= <-]. by rewrite R. }
  destruct (H eq_refl) as (lane & Ll & Hp). rewrite Ll. set (key := LaneKey (aw_req w)) in *.
  set (left := filter (λ j, j ≠ i) (al_pending lane)).
  pose proof (bo_lanes _ _ _ O key lane Ll) as Ok. pose proof (others_of_ok d key b t O) as Oo. unfold pending_at in Oo. rewrite Ll in Oo. simpl in Oo.
  assert (others_ok d key ([i] ++ left) b t) as Oi by (eapply others_perm; [|exact Oo]; apply filter_ne_perm; [apply Ok|done]).
  rewrite release_waiting by (exists w; split_and!; congruence). simpl.
  apply others_flush in Oi as Of. eexists. split; [done|]. unfold with_lanes. simpl. split_and!; [|done|intros E; rewrite E, lookup_empty in Ll; done|done|].
  - case_bool_decide as E; [rewrite E in Of; apply (others_done d key); [done|by apply lookup_delete_eq]|].
    rewrite <-insert_delete_eq. apply (others_insert d key (mkLane (al_class lane) left (al_timer lane)) _ t Of).
    apply (lane_ok_frame d b _ t t); [done| |done|done|]; [|apply lane_ok_fewer; [done|apply sublist_filter|done]].
    intros j Hj. simpl in *. rewrite open_all_lookup. destruct (waiters b !! j); [|done]. simpl. rewrite decide_False; [done|].
    rewrite list_elem_of_singleton. unfold left in Hj. apply list_elem_of_filter in Hj. naive_solver.
  - intros w' [= <-]. rewrite open_all_lookup, Lw. simpl. rewrite decide_True by set_solver. by rewrite R.
Qed.

Lemma flush_each_ok d l b t :
  batcher_ok d b t → NoDup l.*1 → Forall (λ kl, lanes b !! kl.1 = Some kl.2) l →
  ∃ b', flush_each b l = Ok b' ∧ batcher_ok d b' t ∧ cfg b' = cfg b ∧ closed b' = closed b ∧
    ∀ k, lanes b' !! k = if decide (k ∈ l.*1) then None else lanes b !! k.
Proof.
  revert b. induction l as [|[key lane] l IH]; intros b O ND F; simpl; [by exists b|].
  apply NoDup_cons in ND as [Nk ND]. apply Forall_cons in F as [Fk F]. simpl in Fk.
  pose proof (others_of_ok d key b t O) as Oo. unfold pending_at in Oo. rewrite Fk in Oo.
  destruct (flush_ok d key lane b t Oo) as (b1 & -> & O1 & C1 & D1 & L1 & _). simpl.
  destruct (IH b1 O1 ND) as (b2 & -> & O2 & C2 & D2 & L2).
  { rewrite Forall_forall in *. intros [k ln] Hk. specialize (F _ Hk). simpl in *. rewrite L1, lookup_delete_ne; [done|].
    intros ->. apply Nk, list_elem_of_fmap. by exists (k, ln). }
  exists b2. split_and!; [done|done|congruence|congruence|]. intros k. rewrite L2, L1.
  case_decide as Hk; case_decide as Hk'; [done|by destruct Hk'; right|..].
  - apply elem_of_cons in Hk' as [->|?]; [by rewrite lookup_delete_eq|done].
  - rewrite lookup_delete_ne; [done|]. intros ->. by destruct Hk'; left.
Qed.

Lemma Close_ok d b t :
  batcher_ok d b t → ∃ b', Close b = Ok b' ∧ batcher_ok d b' t ∧ cfg b' = cfg b ∧ closed b' = true ∧ lanes b' = ∅.
Proof.
  intros O. unfold Close. set (b0 := mkBatcher (cfg b) (lanes b) true (waiters b) (callbacks b) (watchers b)).
  destruct (flush_each_ok d (map_to_list (lanes b)) b0 t) as (b' & E & O' & C & D & L).
  - destruct O as [L W Wa]. constructor; [|done|done]. intros k lane Lk. apply (lane_ok_frame d b _ t t); [done..|]. by apply L.
  - apply NoDup_fst_map_to_list.
  - apply Forall_forall. intros [k lane] H. by apply elem_of_map_to_list.
  - exists b'. split_and!; [done..|]. apply map_empty. intros k. rewrite L. destruct (decide _) as [_|N]; [done|]. simpl.
    destruct (lanes b !! k) as [lane|] eqn:Ek; [|done]. destruct N. apply list_elem_of_fmap. exists (k, lane). split; [done|]. by apply elem_of_map_to_list.
Qed.

Lemma fire_ok d b t key b' :
  batcher_ok d b t → fire b key t = Some b' → batcher_ok d b' t ∧ cfg b' = cfg b ∧ closed b' = closed b ∧ waiters b' = waiters b ∧
    dom (lanes b') = dom (lanes b).
Proof.
  intros O F. unfold fire in F. destruct (lanes b !! key) as [[c p [[due []]|]]|] eqn:Lk; try done. destruct (due <=? t); simplify_eq. split_and!; [|done..|].
  - destruct O as [L W Wa]. constructor; simpl; [| |done].
    + intros k lane. destruct (decide (key = k)) as [<-|Ne]; [rewrite lookup_insert_eq|rewrite lookup_insert_ne by done].
      * intros [= <-]. destruct (L key _ Lk) as [N ND M P (due' & st & Et & S & I)]. simplify_eq/=. constructor; [done..|].
        exists due', true. split_and!; [done|set_solver|done].
      * intros Lk'. apply (lane_ok_frame d b _ t t); [done|done|done|set_solver|by apply L].
    + intros i w Hw. destruct (W i w Hw) as [E H]. split; [done|]. intros R. destruct (H R) as (lane & Ll & Hi).
      destruct (decide (key = LaneKey (aw_req w))) as [Ek|Ne]; [|exists lane; by rewrite lookup_insert_ne].
      rewrite <-Ek in *. eexists. rewrite lookup_insert_eq. split; [done|]. by rewrite Lk in Ll; simplify_eq.
  - simpl. apply dom_insert_lookup_L. by eexists.
Qed.

Lemma callback_ok d b t l1 key l2 :
  batcher_ok d b t → callbacks b = l1 ++ key :: l2 →
  ∃ b', callback (drop_callback b (l1 ++ l2)) key = Ok b' ∧ batcher_ok d b' t ∧ cfg b' = cfg b ∧ closed b' = closed b ∧
    lanes b' = delete key (lanes b) ∧ callbacks b' = l1 ++ l2.
Proof.
  intros O E. unfold callback. simpl.
  assert (others_ok d key (pending_at b key) (drop_callback b (l1 ++ l2)) t) as Oo.
  { destruct (others_of_ok d key b t O) as [L W ND M Wa]. constructor; [|done..]. intros k lane Nk Lk.
    apply (lane_ok_frame d b _ t t); [done|done|done| |by apply L]. rewrite E. simpl. set_solver. }
  unfold pending_at in Oo. destruct (lanes b !! key) as [lane|] eqn:Lk.
  - destruct (flush_ok d key lane _ t Oo) as (b' & Ef & O' & C & D & L' & K & _). eauto 10.
  - eexists. split; [done|]. split_and!; [by apply (others_done d key)|done|done| |done]. simpl. by rewrite delete_id.
Qed.

(** ** Admitting *)

Lemma policy_budget class policy : PolicyForTrafficClass class = Ok policy → 0 < TokenBudget policy ≤ maxBatchTokens.
Proof.
  unfold PolicyForTrafficClass. destruct (trafficClassPolicies !! class) as [p|] eqn:E; [|done]. intros [= <-]. revert class p E.
  change (map_Forall (λ _ p, 0 < TokenBudget p ≤ maxBatchTokens) trafficClassPolicies).
  apply (bool_decide_unpack _). vm_compute. exact I.
Qed.

Lemma tightest_least l dl w : w ∈ l → Deadline (aw_req w) = Some dl → ∃ t, tightest l = Some t ∧ t ≤ dl.
Proof.
  unfold tightest. generalize (@None Z) as acc.
  assert (∀ l (acc : option Z) a, acc = Some a → ∃ t, foldl (λ t p, match Deadline (aw_req p), t with None, _ => t | Some d, None => Some d
    | Some d, Some t' => if d <? t' then Some d else Some t' end) acc l = Some t ∧ t ≤ a) as Mono.
  { clear. induction l as [|p l IH]; intros acc a ->; simpl; [exists a; split; [done|lia]|].
    destruct (Deadline (aw_req p)) as [x|]; [|by apply IH]. destruct (Z.ltb_spec x a).
    - destruct (IH _ x eq_refl) as (t & ? & ?). exists t. split; [done|lia].
    - by apply IH. }
  induction l as [|p l IH]; intros acc Hw Hd; [set_solver|]. apply elem_of_cons in Hw as [<-|Hw]; simpl; [|by apply IH].
  rewrite Hd. destruct acc as [a|]; [|by apply Mono]. destruct (Z.ltb_spec dl a); [by apply Mono|].
  destruct (Mono l _ a eq_refl) as (t & ? & ?). exists t. split; [done|lia].
Qed.

(** A lane that is not full is packed whole. *)
Lemma not_full b lane budget :
  budgetFull b lane budget = false → pending_of b lane ≠ [] → 0 < budget ≤ maxBatchTokens →
  ∃ chosen, SelectBatch (candidate_of <$> pending_of b lane) budget = (chosen, lane_prefill b lane) ∧
    chosen ≡ₚ candidate_of <$> pending_of b lane ∧ lane_prefill b lane < budget.
Proof.
  unfold budgetFull, maxBatchTokens. intros F Ne B.
  rewrite bool_decide_eq_false_2 in F by (intros E; unfold pending_of in Ne; by rewrite E in Ne).
  rewrite (proj2 (Z.leb_gt _ _)) in F by lia. simpl in F.
  destruct (SelectBatch _ budget) as [chosen used] eqn:E. apply orb_false_iff in F as [F1 F2]. apply Nat.ltb_ge in F1. apply Z.leb_gt in F2.
  destruct (SelectBatch_spec _ budget chosen used ltac:(lia) E) as (Sub & -> & _).
  assert (chosen ≡ₚ candidate_of <$> pending_of b lane) as P by (apply submseteq_length_Permutation; done).
  exists chosen. unfold lane_prefill. pose proof (total_prefill_proper _ _ P) as T. rewrite T in F2. by rewrite T.
Qed.

Lemma no_force_in_time b lane now x policy :
  deadlineForceFlush b lane now = (false, x) → PolicyForTrafficClass (al_class lane) = Ok policy →
  budgetFull b lane (TokenBudget policy) = false → 
  Forall (λ w, ∀ dl, Deadline (aw_req w) = Some dl →
    now + earliestHold b lane now + EstimatedTTFT (lane_prefill b lane) + arrivalDeadlineSafety ≤ dl) (pending_of b lane).
Proof.
  intros F Po Bf. apply Forall_forall. intros w Hw dl Hd.
  assert (pending_of b lane ≠ []) as Ne by (intros E; rewrite E in Hw; set_solver).
  destruct (not_full _ _ _ Bf Ne (policy_budget _ _ Po)) as (chosen & Es & P & _).
  unfold deadlineForceFlush in F. destruct (pending_of b lane) as [|p ps] eqn:Ep; [done|]. rewrite <-Ep in *. clear Ep p ps.
  rewrite Po, Es in F. destruct chosen as [|c cs] eqn:Ec; [symmetry in P; apply Permutation_nil_r, fmap_nil_inv in P; done|]. rewrite <-Ec in *. clear Ec.
  destruct (tightest_least (filter (λ p, ar_ID (aw_req p) ∈ bc_ID <$> chosen) (pending_of b lane)) dl w) as (t & Et & Le); [|done|].
  - apply list_elem_of_filter. split; [|done]. rewrite P. apply list_elem_of_fmap. exists (candidate_of w). split; [done|].
    apply list_elem_of_fmap. by exists w.
  - rewrite Et in F. destruct (HoldWouldMissDeadline (Some t) now 0 (lane_prefill b lane)).
    { by destruct (tightest _). }
    destruct (HoldWouldMissDeadline (Some t) now (earliestHold b lane now) (lane_prefill b lane)) eqn:H; [done|].
    unfold HoldWouldMissDeadline in H. apply Z.ltb_ge in H. lia.
Qed.

Lemma pending_member b t key class lane w :
  Forall (member_ok b t key class) (al_pending lane) → w ∈ pending_of b lane → counted (aw_req w) ∧ aw_admitted w ≤ t.
Proof.
  intros M Hw. unfold pending_of in Hw. apply list_elem_of_omap in Hw as (i & Hi & L). rewrite Forall_forall in M.
  destruct (M i Hi) as (w' & L' & _ & _ & _ & _ & C & A). by simplify_eq.
Qed.

Lemma pending_nonempty b t key class lane :
  Forall (member_ok b t key class) (al_pending lane) → al_pending lane ≠ [] → pending_of b lane ≠ [].
Proof.
  unfold pending_of. intros M Ne. destruct (al_pending lane) as [|i l]; [done|]. apply Forall_cons in M as [(w & L & _) _]. simpl. by rewrite L.
Qed.

(** The timer of a lane that an arrival joined. *)
Lemma joined_in_time d b lane key now then_ armed x policy :
  0 ≤ d → longest_window (cfg b) + d ≤ max_int64 → now ≤ then_ ≤ armed → armed ≤ now + d →
  al_pending lane ≠ [] → Forall (member_ok b armed key (al_class lane)) (al_pending lane) →
  PolicyForTrafficClass (al_class lane) = Ok policy → budgetFull b lane (TokenBudget policy) = false →
  deadlineForceFlush b lane then_ = (false, x) → 0 < earliestHold b lane now →
  Forall (in_time d b lane (armed + earliestHold b lane now)) (pending_of b lane).
Proof.
  intros D W T A Ne M Po Bf Ff E. pose proof (pending_nonempty _ _ _ _ _ M Ne) as Np.
  destruct (earliestHold_min b lane now Np) as [Mn _]. destruct (earliestHold_min b lane then_ Np) as [_ Mt].
  apply Exists_exists in Mt as (p & Hp & Ep). rewrite Forall_forall in Mn.
  assert (∀ w s, w ∈ pending_of b lane → now ≤ s → remaining_hold (cfg b) s w = Z.max 0 (aw_admitted w + window (cfg b) w - s)) as Rem.
  { intros w s Hw Hs. destruct (pending_member _ _ _ _ _ w M Hw) as [C Aw]. apply (remaining_hold_eq _ d); [done|done|done|lia]. }
  pose proof (no_force_in_time _ _ _ _ _ Ff Po Bf) as N. rewrite Forall_forall in N. apply Forall_forall. intros w Hw. split.
  - specialize (Mn w Hw). rewrite (Rem w now) in Mn by (done || lia). lia.
  - intros dl Hd. specialize (N w Hw dl Hd). specialize (Mn p Hp). rewrite (Rem p now) in Mn by (done || lia).
    rewrite Ep, (Rem p then_) in N by (done || lia). lia.
Qed.

Lemma alone_in_time d c req now armed b :
  longest_window c ≤ max_int64 → armed ≤ now + d → counted req → cfg b = c →
  let hold := JoinWindowForArrival (ar_Class req) (Deadline req) now (ar_PromptTokens req) (JoinWindow c) in
  0 < hold →
  ∀ lane w, pending_of b lane = [w] → aw_req w = req → aw_admitted w = now →
  in_time d b lane (armed + hold) w ∧ lane_prefill b lane < 2 ^ 33.
Proof.
  intros W A C Ec hold H lane w Ep Er Ea.
  destruct (join_window_bounds (ar_Class req) (Deadline req) now (ar_PromptTokens req) c (proj1 C) W) as [B Dl].
  assert (0 ≤ lane_prefill b lane ≤ ar_PromptTokens req) as P.
  { unfold lane_prefill. rewrite Ep. unfold total_prefill, list_total. simpl. unfold prefillTokens, candidate_of. simpl. rewrite Er.
    destruct C as [C1 C2]. rewrite wrap64_id by (width; lia). destruct (Z.ltb_spec (ar_PromptTokens req - ar_ReusablePrefixTokens req) 0); lia. }
  destruct C as [C1 C2]. split; [|lia]. unfold in_time, window. rewrite Er, Ea, Ec. fold hold in Dl |- *. split; [lia|].
  intros dl Hd. specialize (Dl dl Hd H). pose proof (EstimatedTTFT_mono (lane_prefill b lane) (ar_PromptTokens req)). lia.
Qed.

Lemma may_hold_spec c req now hold budget :
  may_hold c req now = Some (hold, budget) →
  ∃ policy, PolicyForTrafficClass (ar_Class req) = Ok policy ∧ budget = TokenBudget policy ∧
    hold = JoinWindowForArrival (ar_Class req) (Deadline req) now (ar_PromptTokens req) (JoinWindow c) ∧ 0 < hold.
Proof.
  unfold may_hold. intros H. destruct (PolicyForTrafficClass (ar_Class req)) as [policy|]; [|done]. exists policy.
  set (hd := JoinWindowForArrival _ _ _ _ _) in *. destruct (Z.leb_spec hd 0); [done|]. simpl in H.
  destruct (HoldWouldMissDeadline _ _ _ _); [done|]. destruct (match Deadline req with None => _ | Some _ => _ end); [done|]. by simplify_eq.
Qed.

Lemma others_lane d key lane b t :
  others_ok d key (al_pending lane) b t → ∀ due, al_pending lane ≠ [] → Forall (member_ok b t key (al_class lane)) (al_pending lane) →
  lane_prefill b lane < 2 ^ 33 → Forall (in_time d b lane due) (pending_of b lane) →
  batcher_ok d (with_lanes b (<[key := mkLane (al_class lane) (al_pending lane) (Some (due, false))]> (lanes b))) t.
Proof.
  intros O due Ne M P I. apply (others_insert d key (mkLane (al_class lane) (al_pending lane) (Some (due, false)))); [done|].
  constructor; [done|by eapply oo_nodup|done|done|]. exists due, false. done.
Qed.

Lemma joined_members d b t i req now t' lane :
  batcher_ok d b t → waiters b !! i = None → t ≤ t' → now ≤ t' → counted req → al_class lane = ar_Class req →
  lane = default (mkLane (ar_Class req) [] None) (lanes b !! LaneKey req) →
  Forall (member_ok (with_waiters b (<[i := mkWaiter req now false false]> (waiters b))) t' (LaneKey req) (al_class lane)) (al_pending lane ++ [i]).
Proof.
  intros O Fi T N C Cc El. apply Forall_app. split.
  - destruct (lanes b !! LaneKey req) as [l|] eqn:Ll; simpl in El; subst lane; [|constructor].
    pose proof (lo_members _ _ _ _ _ (bo_lanes _ _ _ O _ _ Ll)) as M. rewrite Forall_forall in *. intros j Hj.
    destruct (M j Hj) as (w & Lw & ?). exists w. simpl. rewrite lookup_insert_ne by congruence. naive_solver lia.
  - constructor; [|constructor]. eexists. simpl. rewrite lookup_insert_eq. done.
Qed.

(** The newcomer waits alone: what was there is flushed, and a lane made for it. *)
Lemma admit_alone d b t i req lane hold now armed :
  let w := mkWaiter req now false false in
  others_ok d (LaneKey req) (al_pending lane ++ [i]) b t → waiters b !! i = Some w → longest_window (cfg b) ≤ max_int64 →
  armed ≤ now + d → now ≤ t → counted req →
  hold = JoinWindowForArrival (ar_Class req) (Deadline req) now (ar_PromptTokens req) (JoinWindow (cfg b)) → 0 < hold →
  ∃ b', (b ← flushLaneLocked b (LaneKey req) lane; armTimerLocked b (LaneKey req) (mkLane (ar_Class req) [i] None) hold armed) = Ok b' ∧
    batcher_ok d b' t ∧ cfg b' = cfg b ∧ closed b' = closed b ∧ watchers b' = watchers b.
Proof.
  intros w O Lw W A N C Eh Hh. pose proof (oo_nodup _ _ _ _ _ O) as (ND & Dj & _)%NoDup_app.
  pose proof (others_waiting _ _ _ _ _ O) as [Wt _]%Forall_app.
  rewrite flush_waiting by done. simpl. apply others_flush in O.
  set (b2 := mkBatcher (cfg b) _ _ _ _ _) in *. unfold armTimerLocked. rewrite (proj2 (Z.leb_gt _ _)) by lia.
  set (ln := mkLane (ar_Class req) [i] None).
  assert (waiters b2 !! i = Some w) as L2.
  { simpl. rewrite open_all_lookup, Lw. simpl. rewrite decide_False; [done|]. intros Hi. apply (Dj i Hi). by left. }
  assert (pending_of b2 ln = [w]) as Ep by (change (pending_of b2 ln) with (match waiters b2 !! i with Some y => [y] | None => [] end); by rewrite L2).
  eexists. split; [done|]. split; [|done]. subst hold.
  destruct (alone_in_time d (cfg b) req now armed b2 W A C eq_refl Hh ln w Ep eq_refl eq_refl) as [I P].
  apply (others_lane d (LaneKey req) ln b2 t O); [done| |done|rewrite Ep; by constructor].
  constructor; [|constructor]. exists w. by split_and!.
Qed.

Lemma watch_ok d b t (i : N) (c : bool) :
  batcher_ok d b t → waiters b !! i ≠ None →
  batcher_ok d (mkBatcher (cfg b) (lanes b) (closed b) (waiters b) (callbacks b) (if c then {[i]} ∪ watchers b else watchers b)) t.
Proof.
  intros [L W Wa] Hi. constructor; simpl; [| done|].
  - intros k lane Lk. apply (lane_ok_frame d b _ t t); [done..|]. by apply L.
  - intros j Hj. destruct c; [|by apply Wa]. apply elem_of_union in Hj as [->%elem_of_singleton|Hj]; [|by apply Wa].
    by destruct (waiters b !! i).
Qed.

Lemma Admit_ok d b t i req c now then_ armed :
  batcher_ok d b t → 0 ≤ d → longest_window (cfg b) + d ≤ max_int64 → waiters b !! i = None → counted req →
  t ≤ then_ ≤ armed → now ≤ then_ → armed ≤ now + d →
  ∃ b', Admit b i req c now then_ armed = Ok b' ∧ batcher_ok d b' armed ∧ cfg b' = cfg b ∧ closed b' = closed b ∧
    (closed b = true → lanes b' = lanes b).
Proof.
  intros O D W Fi C T N A. unfold Admit. set (key := LaneKey req).
  assert (batcher_ok d (bypass b i req now) armed) as Oby by (eapply bypass_ok; [done|done|lia]).
  destruct (negb (Enabled (cfg b)) || closed b || bool_decide (key = "")) eqn:G; [by eexists|].
  apply orb_false_iff in G as [[_ Cl]%orb_false_iff _]. rewrite Cl.
  destruct (may_hold (cfg b) req now) as [[hold budget]|] eqn:Mh; [|by eexists; split_and!].
  destruct (may_hold_spec _ _ _ _ _ Mh) as (policy & Po & -> & Eh & Hh). clear Mh.
  set (lane := default (mkLane (ar_Class req) [] None) (lanes b !! key)).
  case_bool_decide as Cc; [|by eexists; split_and!]. cbn [negb].
  set (b1 := with_waiters b (<[i := mkWaiter req now false false]> (waiters b))).
  set (joined := mkLane (al_class lane) (al_pending lane ++ [i]) (al_timer lane)).
  assert (others_ok d key (al_pending joined) b1 armed) as Oj.
  { apply (others_add d key (al_pending lane) b t); [|done|lia|done].
    pose proof (others_of_ok d key b t O) as Oo. unfold pending_at in Oo. unfold lane. by destruct (lanes b !! key). }
  assert (Forall (member_ok b1 armed key (al_class joined)) (al_pending joined)) as Mj by (apply (joined_members d b t i req now armed lane); [done|done|lia|lia|done|done|done]).
  assert (al_pending joined ≠ []) as Nj by (simpl; by destruct (al_pending lane)).
  destruct (flush_ok d key joined b1 armed Oj) as (bf & Ef & Of & Cf & Df & _ & _ & _ & Wf).
  destruct (deadlineForceFlush b1 joined then_) as [[] alone] eqn:Ff; [destruct alone|].
  - destruct (admit_alone d b1 armed i req lane hold now armed) as (b' & E & O' & C' & D' & _); [done|simpl; apply lookup_insert_eq|simpl; lia|done|lia|done|done|done|].
    exists b'. fold key in E. rewrite E. split_and!; [done|done|done|by rewrite D'|done].
  - exists bf. rewrite Ef. split_and!; [done|done|done|by rewrite Df|done].
  - destruct (budgetFull b1 joined (TokenBudget policy)) eqn:Bf; [exists bf; rewrite Ef; split_and!; [done|done|done|by rewrite Df|done]|].
    assert (∀ b2, batcher_ok d b2 armed → waiters b2 !! i ≠ None → batcher_ok d (mkBatcher (cfg b2) (lanes b2) (closed b2) (waiters b2) (callbacks b2)
      (if c then {[i]} ∪ watchers b2 else watchers b2)) armed) as Watch by (intros; by apply watch_ok).
    unfold armTimerLocked. destruct (Z.leb_spec (earliestHold b1 joined now) 0) as [He|He]; simpl.
    + rewrite Ef. simpl. eexists. split; [done|]. split_and!; [|done|by rewrite Df|done]. apply Watch; [done|].
      rewrite Wf, open_all_lookup. simpl. by rewrite lookup_insert_eq.
    + eexists. split; [done|]. split_and!; [|done|done|done]. rewrite <-Cc in Po.
      refine (Watch (with_lanes b1 (<[key := mkLane (al_class joined) (al_pending joined) (Some (armed + earliestHold b1 joined now, false))]> (lanes b1))) _ _).
      * apply (others_lane d key joined); [done..| |]; [|].
        -- destruct (not_full b1 joined _ Bf) as (_ & _ & _ & L); [by eapply pending_nonempty|by eapply policy_budget|].
           pose proof (policy_budget _ _ Po). unfold maxBatchTokens in *. lia.
        -- apply (joined_in_time d b1 joined key now then_ armed alone policy); [done|done|lia|done|done|done|done|done|done|done].
      * simpl. by rewrite lookup_insert_eq.
Qed.

(** ** Histories *)

Section histories.
Context (c : ArrivalBatchConfig) (d t0 : Z) (D : 0 ≤ d) (W : longest_window c + d ≤ max_int64).

Definition history (s : ArrivalBatcher * Z) : Prop := rtc (batch_step d) (NewArrivalBatcher c, t0) s.

Record reached (b : ArrivalBatcher) (t : Z) : Prop := {
  re_ok : batcher_ok d b t;
  re_cfg : cfg b = c;
  re_closed : closed b = true → lanes b = ∅
}.

Lemma batcher_later b t t' : t ≤ t' → batcher_ok d b t → batcher_ok d b t'.
Proof. intros T [L W' Wa]. constructor; [|done|done]. intros k lane Lk. apply (lane_ok_frame d b _ t t'); [done..|]. by apply L. Qed.

Lemma timer_reached b b' t : timer_step t b b' → reached b t → reached b' t.
Proof using.
  intros S [O C Cl]. destruct S as [b key b' F|b l1 key l2 b' E Cb].
  - destruct (fire_ok d b t key b' O F) as (O' & C' & D' & _ & Dm). constructor; [done|congruence|].
    rewrite D'. intros H. apply dom_empty_inv_L. by rewrite Dm, (Cl H), dom_empty_L.
  - destruct (callback_ok d b t l1 key l2 O E) as (b2 & E2 & O' & C' & D' & L' & _). assert (b' = b2) as -> by congruence.
    constructor; [done|congruence|]. rewrite D', L'. intros H. by rewrite (Cl H), delete_empty.
Qed.

Lemma step_reached b t b' t' : batch_step d (b, t) (b', t') → reached b t → reached b' t'.
Proof using D W.
  intros S R. pose proof R as [O C Cl]. inversion S as [? ? i req ca now th ar ? Fi Co T N A E|? ? i ? Hi E|? ? ? E|? ? ? Ts|? ? ? T]; subst.
  - destruct (Admit_ok d b t i req ca now th t' O D) as (b2 & E2 & O' & C' & D' & L'); [by rewrite C|done..|]. assert (b' = b2) as -> by congruence.
    constructor; [done|congruence|]. rewrite D'. intros H. rewrite (L' H). auto.
  - destruct (cancel_ok d b t' i O Hi) as (b2 & E2 & O' & C' & L' & D' & _). assert (b' = b2) as -> by congruence. constructor; [done|congruence|].
    rewrite D'. auto.
  - destruct (Close_ok d b t' O) as (b2 & E2 & O' & C' & _ & L'). assert (b' = b2) as -> by congruence. constructor; [done|congruence|done].
  - by eapply timer_reached.
  - constructor; [by eapply batcher_later|done|done].
Qed.

Lemma history_reached b t : history (b, t) → reached b t.
Proof using D W.
  assert (∀ s s', rtc (batch_step d) s s' → reached s.1 s.2 → reached s'.1 s'.2) as Keep.
  { intros s s' H. induction H as [|[b1 t1] [b2 t2] s' S H IH]; [done|]. intros R. apply IH. by eapply step_reached. }
  intros H. apply (Keep _ _ H). constructor; [|done|done]. constructor; simpl; set_solver.
Qed.

End histories.

(** C15: what is held is held in time.  In any history of a batcher whose [Admit]s
    take at most [d] between their readings of the clock, every request that waits is in
    the lane of its own key and class, its channel is open, and the timer of the lane is
    due no later than [d] after the end of the request's own join window, and early
    enough that the whole lane, projected as one batch, has its first token at
    [arrivalDeadlineSafety] before the request's deadline, again up to [d].  So an
    [Admit] that takes no more than the safety margin delays nobody past a deadline. *)
Theorem held_requests_in_time c d t0 b t :
  0 ≤ d → longest_window c + d ≤ max_int64 → history c d t0 (b, t) →
  ∀ key lane i, lanes b !! key = Some lane → i ∈ al_pending lane →
  ∃ w due started, waiters b !! i = Some w ∧ aw_ready w = false ∧ LaneKey (aw_req w) = key ∧ ar_Class (aw_req w) = al_class lane ∧
    al_timer lane = Some (due, started) ∧ due ≤ aw_admitted w + window c w + d ∧ window c w ≤ longest_window c ∧
    ∀ dl, Deadline (aw_req w) = Some dl → due + EstimatedTTFT (lane_prefill b lane) + arrivalDeadlineSafety ≤ dl + d.
Proof.
  intros D W H key lane i Ll Hi. destruct (history_reached c d t0 D W b t H) as [O C _].
  destruct (bo_lanes _ _ _ O key lane Ll) as [_ _ M _ (due & st & Et & _ & I)]. rewrite Forall_forall in M. rewrite Forall_forall in I.
  destruct (M i Hi) as (w & Lw & _ & Rd & K & Cl & Co & _). exists w, due, st.
  destruct (I w) as [I1 I2]; [apply list_elem_of_omap; by exists i|]. rewrite C in I1.
  pose proof (window_bounds c w Co ltac:(lia)) as [_ Wb]. by split_and!.
Qed.

(** C33: the batcher never panics and never forgets a request.  In any history,
    each operation returns: an arrival, the end of a watched context, [Close], and each
    timer callback.  A request is released exactly when its channel is closed, and one
    that is not waits in the lane of its key; after [Close] all channels are closed. *)
Theorem batcher_never_panics c d t0 b t :
  0 ≤ d → longest_window c + d ≤ max_int64 → history c d t0 (b, t) →
  (∀ i req ca now then_ armed, waiters b !! i = None → counted req → t ≤ then_ ≤ armed → now ≤ then_ → armed ≤ now + d →
    is_ok (Admit b i req ca now then_ armed) = true) ∧
  (∀ i, i ∈ watchers b → ∃ b', cancel b i = Ok b' ∧ may_forward b' i = true) ∧
  (∀ l1 key l2, callbacks b = l1 ++ key :: l2 → is_ok (callback (drop_callback b (l1 ++ l2)) key) = true) ∧
  (∃ b', Close b = Ok b' ∧ ∀ i, is_Some (waiters b' !! i) → may_forward b' i = true) ∧
  ∀ i w, waiters b !! i = Some w → aw_released w = aw_ready w ∧
    (aw_ready w = false → closed b = false ∧ ∃ lane, lanes b !! LaneKey (aw_req w) = Some lane ∧ i ∈ al_pending lane).
Proof.
  intros D W H. destruct (history_reached c d t0 D W b t H) as [O C Cl].
  split_and!.
  - intros i req ca now th ar Fi Co T N A. destruct (Admit_ok d b t i req ca now th ar O D) as (b' & -> & _); [by rewrite C|done..].
  - intros i Hi. destruct (cancel_ok d b t i O Hi) as (b' & E & _ & _ & _ & _ & Wi). exists b'. split; [done|]. unfold may_forward.
    destruct (bo_watchers _ _ _ O i Hi) as [w Lw]. rewrite (Wi w Lw). destruct (bo_waiters _ _ _ O i w Lw) as [E' _].
    destruct (aw_released w) eqn:R; by rewrite <-?E'.
  - intros l1 key l2 E. by destruct (callback_ok d b t l1 key l2 O E) as (b' & -> & _).
  - destruct (Close_ok d b t O) as (b' & E & O' & _ & _ & L'). exists b'. split; [done|]. intros i [w Lw]. unfold may_forward. rewrite Lw.
    destruct (bo_waiters _ _ _ O' i w Lw) as [E' H']. rewrite <-E'. destruct (aw_released w); [done|].
    destruct (H' eq_refl) as (lane & Ll & _). by rewrite L', lookup_empty in Ll.
  - intros i w Lw. destruct (bo_waiters _ _ _ O i w Lw) as [E' H']. split; [done|]. rewrite <-E'. intros R.
    destruct (H' R) as (lane & Ll & Hi). split; [|by exists lane]. destruct (closed b); [|done]. by rewrite (Cl eq_refl), lookup_empty in Ll.
Qed.

(** *** The timers alone *)

Definition unstarted (lane : arrivalLane) : bool := match al_timer lane with Some (_, false) => true | _ => false end.
Definition timer_work (b : ArrivalBatcher) : nat :=
  2 * size (filter (λ kl, unstarted kl.2 = true) (lanes b)) + length (callbacks b).
Definition all_due (t : Z) (b : ArrivalBatcher) : Prop :=
  map_Forall (λ _ lane, ∃ due st, al_timer lane = Some (due, st) ∧ due ≤ t) (lanes b).

Lemma timer_step_less d t b b' :
  batcher_ok d b t → timer_step t b b' → (timer_work b' < timer_work b)%nat ∧ (all_due t b → all_due t b').
Proof.
  intros O S. unfold timer_work, all_due. destruct S as [b key b' F|b l1 key l2 b' E Cb].
  - unfold fire in F. destruct (lanes b !! key) as [[cl p [[due []]|]]|] eqn:Lk; try done. destruct (Z.leb_spec due t); simplify_eq. simpl.
    rewrite map_filter_insert_False, length_app by done. simpl. rewrite map_filter_delete. split.
    + assert (is_Some (filter (λ kl, unstarted kl.2 = true) (lanes b) !! key)) as Lf by (eexists; by apply map_lookup_filter_Some).
      rewrite map_size_delete_Some by done. assert (size (filter (λ kl, unstarted kl.2 = true) (lanes b)) ≠ 0%nat); [|lia].
      apply map_size_ne_0_lookup. by exists key.
    + intros A. apply map_Forall_insert_2; [by eexists _, _|done].
  - destruct (callback_ok d b t l1 key l2 O E) as (b2 & E2 & _ & _ & _ & L' & K'). assert (b' = b2) as -> by congruence.
    rewrite L', K', E, map_filter_delete, !length_app. simpl. split; [|by apply map_Forall_delete].
    assert (size (delete key (filter (λ kl, unstarted kl.2 = true) (lanes b))) ≤ size (filter (λ kl, unstarted kl.2 = true) (lanes b)))%nat; [|lia].
    apply map_subseteq_size, delete_subseteq.
Qed.

(** While a lane or a callback is left, a timer can go on. *)
Lemma timer_progress d t b :
  batcher_ok d b t → all_due t b → lanes b = ∅ ∧ callbacks b = [] ∨ ∃ b', timer_step t b b'.
Proof.
  intros O A. destruct (callbacks b) as [|key l] eqn:E.
  - destruct (decide (lanes b = ∅)) as [|Ne]; [by left|]. right. apply map_choose in Ne as (key & lane & Ll).
    destruct (bo_lanes _ _ _ O key lane Ll) as [_ _ _ _ (due & st & Et & St & _)]. destruct (A key lane Ll) as (due' & st' & Et' & Le). simplify_eq.
    destruct st; [rewrite E in St; set_solver|]. destruct lane as [cl p ti]. simpl in Et. subst ti.
    eexists. apply (timer_fires t b key). unfold fire. rewrite Ll, (proj2 (Z.leb_le _ _) Le). done.
  - right. destruct (callback_ok d b t [] key l O E) as (b' & Eb & _). exists b'. by apply (callback_runs t b [] key l b').
Qed.

(** C21: the timers finish their work.  Take any history and a time past the
    longest window and the delay [d].  However the runtime interleaves the timers that are
    due with the callbacks that are started, they take at most two steps for a lane and
    one for a callback that was waiting already; and at each point of such a run either
    another step is possible, or no lane and no callback is left and every request was
    released. *)
Theorem timers_release_everyone c d t0 b t :
  0 ≤ d → longest_window c + d ≤ max_int64 → history c d t0 (b, t) →
  ∀ t' n b', t + longest_window c + d ≤ t' → nsteps (timer_step t') n b b' →
  (n ≤ 2 * size (lanes b) + length (callbacks b))%nat ∧
  ((∃ b'', timer_step t' b' b'') ∨
   lanes b' = ∅ ∧ callbacks b' = [] ∧ ∀ i, is_Some (waiters b' !! i) → may_forward b' i = true).
Proof.
  intros D W H t' n b' T S. destruct (history_reached c d t0 D W b t H) as [O C Cl].
  assert (t ≤ t') as Tt by (unfold longest_window, backgroundArrivalJoinWindow in *; destruct (Z.leb_spec (JoinWindow c) 0); lia).
  assert (all_due t' b) as A.
  { intros key lane Ll. destruct (bo_lanes _ _ _ O key lane Ll) as [Ne _ M _ (due & st & Et & _ & I)]. exists due, st. split; [done|].
    pose proof (pending_nonempty _ _ _ _ _ M Ne) as Np. destruct (pending_of b lane) as [|w ps] eqn:Ep; [done|]. apply Forall_cons in I as [[I _] _].
    destruct (pending_member b t key (al_class lane) lane w M) as [Co Ad]; [rewrite Ep; left|]. rewrite C in I.
    pose proof (window_bounds c w Co ltac:(lia)). lia. }
  assert (reached c d b t') as R by (constructor; [by eapply batcher_later|done|done]).
  assert (n + timer_work b' ≤ timer_work b ∧ all_due t' b' ∧ reached c d b' t')%nat as (N & A' & R').
  { clear H T O C Cl. induction S as [b|n b b1 b' S1 S IH]; [split_and!; [lia|done|done]|].
    destruct (timer_step_less d t' b b1 (re_ok _ _ _ _ R) S1) as [L A1]. destruct (IH (A1 A)) as (? & ? & ?); [by eapply timer_reached|].
    split_and!; [lia|done|done]. }
  split.
  - assert (size (filter (λ kl, unstarted kl.2 = true) (lanes b)) ≤ size (lanes b))%nat by (apply map_subseteq_size, map_filter_subseteq).
    unfold timer_work in N. lia.
  - destruct (timer_progress d t' b' (re_ok _ _ _ _ R') A') as [[L K]|P]; [right|by left]. split_and!; [done|done|]. intros i [w Lw].
    destruct (bo_waiters _ _ _ (re_ok _ _ _ _ R') i w Lw) as [E Hw]. unfold may_forward. rewrite Lw, <-E.
    destruct (aw_released w); [done|]. destruct (Hw eq_refl) as (lane & Ll & _). by rewrite L, lookup_empty in Ll.
Qed.

(** C34: for every traffic class, the batch that is selected is as large as its
    budget allows.  It is made of the candidates, its prefill is what is reported; it stays
    within the budget, except for one candidate that goes alone when every candidate is
    too large; it is empty only if there are no candidates; and no choice of candidates
    within the budget has more of them.  The projection for a batch within the budget is
    at most 138.9 microseconds a token of it. *)
Theorem class_batch_is_largest class policy candidates chosen used :
  PolicyForTrafficClass class = Ok policy → SelectBatch candidates (TokenBudget policy) = (chosen, used) →
  chosen ⊆+ candidates ∧ used = total_prefill chosen ∧
  (used ≤ TokenBudget policy ∧ EstimatedTTFT used ≤ 138900 * TokenBudget policy ∨
   length chosen = 1%nat ∧ Forall (λ c, TokenBudget policy < prefillTokens c) candidates) ∧
  (chosen = [] ↔ candidates = []) ∧
  ∀ S, S ⊆+ candidates → total_prefill S ≤ TokenBudget policy → (length S ≤ length chosen)%nat.
Proof.
  intros P E. pose proof (policy_budget _ _ P) as B. unfold maxBatchTokens in B.
  destruct (SelectBatch_spec candidates (TokenBudget policy) chosen used ltac:(lia) E) as (Sub & U & F & Ne & Mx).
  split_and!; [done|done| |split|done].
  - destruct F as [F|F]; [left|by right]. split; [done|]. pose proof (total_prefill_nonneg chosen).
    pose proof (EstimatedTTFT_accurate used ltac:(lia)). lia.
  - intros ->. destruct candidates; [done|]. by destruct (Ne ltac:(done)).
  - intros ->. by apply submseteq_nil_r in Sub.
Qed.

(** ** A lane of two, then a third that does not fit the deadlines *)

Definition ex_cfg : ArrivalBatchConfig := mkBatchConfig true 0.
Definition ex_new : ArrivalBatcher := NewArrivalBatcher ex_cfg.
Definition ex_req (id : string) (prompt deadline : Z) : ArrivalRequest :=
  mkArrival id (ArrivalLaneKey "m" "cell" "w" "t=0") TrafficInteractive (Some deadline) prompt 10 0.
Definition ex_admit (b : ArrivalBatcher) (i : N) (req : ArrivalRequest) (now armed : Z) : ArrivalBatcher :=
  match Admit b i req true now now armed with Ok b' => b' | Err _ => b end.
Definition ex_one : ArrivalBatcher := ex_admit ex_new 1 (ex_req "a" 1000 570000000) 0 1000.
Definition ex_two : ArrivalBatcher := ex_admit ex_one 2 (ex_req "b" 500 900000000) 200000 201000.
Definition ex_three : ArrivalBatcher := ex_admit ex_two 3 (ex_req "c" 2590 900000000) 1000000 1001000.

Lemma ex_history : history ex_cfg 5000 0 (ex_two, 201000).
Proof.
  eapply rtc_l; [|eapply rtc_once].
  - apply (step_admit 5000 ex_new 0 1 (ex_req "a" 1000 570000000) true 0 0 1000 ex_one); [done|done|lia|lia|lia|vm_compute; reflexivity].
  - apply (step_admit 5000 ex_one 1000 2 (ex_req "b" 500 900000000) true 200000 200000 201000 ex_two);
      [vm_compute; reflexivity|done|lia|lia|lia|vm_compute; reflexivity].
Qed.

Lemma held_requests_in_time_witness :
  ∃ lane, lanes ex_two !! "m|cell|w|t=0" = Some lane ∧ al_pending lane = [1%N; 2%N] ∧
  ∃ w due started, waiters ex_two !! 1%N = Some w ∧ aw_ready w = false ∧ LaneKey (aw_req w) = "m|cell|w|t=0" ∧ ar_Class (aw_req w) = al_class lane ∧
    al_timer lane = Some (due, started) ∧ due ≤ aw_admitted w + window ex_cfg w + 5000 ∧ window ex_cfg w ≤ longest_window ex_cfg ∧
    ∀ dl, Deadline (aw_req w) = Some dl → due + EstimatedTTFT (lane_prefill ex_two lane) + arrivalDeadlineSafety ≤ dl + 5000.
Proof.
  destruct (lanes ex_two !! "m|cell|w|t=0") as [lane|] eqn:L; [|vm_compute in L; discriminate L].
  assert (al_pending lane = [1%N; 2%N]) as P by (vm_compute in L; injection L as <-; reflexivity).
  exists lane. split; [reflexivity|]. split; [exact P|].
  apply (held_requests_in_time ex_cfg 5000 0 ex_two 201000 ltac:(lia) ltac:(vm_compute; discriminate) ex_history _ lane 1%N L).
  rewrite P. left.
Defined.

Lemma batcher_never_panics_witness : is_ok (Admit ex_two 3 (ex_req "c" 2590 900000000) true 1000000 1000000 1001000) = true.
Proof.
  destruct (batcher_never_panics ex_cfg 5000 0 ex_two 201000 ltac:(lia) ltac:(vm_compute; discriminate) ex_history) as [A _].
  refine (A 3%N (ex_req "c" 2590 900000000) true 1000000 1000000 1001000 _ _ _ _ _); [vm_compute; reflexivity|done|lia|lia|lia].
Defined.

Lemma timers_release_everyone_witness :
  ∃ b1 b2, timer_step 200000000 ex_two b1 ∧ timer_step 200000000 b1 b2 ∧ lanes b2 = ∅ ∧
    ((∃ b'', timer_step 200000000 b2 b'') ∨ lanes b2 = ∅ ∧ callbacks b2 = [] ∧ ∀ i, is_Some (waiters b2 !! i) → may_forward b2 i = true).
Proof.
  destruct (fire ex_two "m|cell|w|t=0" 200000000) as [b1|] eqn:F; [|vm_compute in F; discriminate F].
  destruct (callback (drop_callback b1 []) "m|cell|w|t=0") as [b2|] eqn:C; [|vm_compute in F; injection F as <-; vm_compute in C; discriminate C].
  assert (timer_step 200000000 ex_two b1) as S1 by exact (timer_fires _ _ _ _ F).
  assert (timer_step 200000000 b1 b2) as S2.
  { apply (callback_runs _ b1 [] "m|cell|w|t=0" []); [vm_compute in F; injection F as <-; reflexivity|exact C]. }
  exists b1, b2. split; [exact S1|]. split; [exact S2|]. split.
  { vm_compute in F; injection F as <-; vm_compute in C; injection C as <-; reflexivity. }
  apply (timers_release_everyone ex_cfg 5000 0 ex_two 201000 ltac:(lia) ltac:(vm_compute; discriminate) ex_history 200000000 2 b2); [vm_compute; discriminate|].
  eapply nsteps_l; [exact S1|]. eapply nsteps_l; [exact S2|]. apply nsteps_O.
Defined.

Lemma class_batch_is_largest_witness :
  ([mkCandidate "b" 3000 1 0; mkCandidate "c" 2000 1 1500] ⊆+
     [mkCandidate "a" 5000 1 0; mkCandidate "b" 3000 1 0; mkCandidate "c" 2000 1 1500] ∧
   total_prefill [mkCandidate "b" 3000 1 0; mkCandidate "c" 2000 1 1500] ≤ 4096) ∧
  (length [mkCandidate "b" 3000 1 0; mkCandidate "c" 2000 1 1500] ≤ 2)%nat.
Proof.
  destruct (class_batch_is_largest TrafficInteractive (mkPolicy TrafficInteractive interactiveBatchTokens 2000000000 false 40 [])
    [mkCandidate "a" 5000 1 0; mkCandidate "b" 3000 1 0; mkCandidate "c" 2000 1 1500]
    [mkCandidate "c" 2000 1 1500; mkCandidate "b" 3000 1 0] 3500 ltac:(vm_compute; reflexivity) ltac:(vm_compute; reflexivity)) as (_ & _ & _ & _ & M).
  assert ([mkCandidate "b" 3000 1 0; mkCandidate "c" 2000 1 1500] ⊆+
     [mkCandidate "a" 5000 1 0; mkCandidate "b" 3000 1 0; mkCandidate "c" 2000 1 1500]) as Sub by (apply submseteq_cons; reflexivity).
  assert (total_prefill [mkCandidate "b" 3000 1 0; mkCandidate "c" 2000 1 1500] ≤ 4096) as T by (vm_compute; discriminate).
  exact (conj (conj Sub T) (M _ Sub T)).
Defined.

(** A newcomer that is put in a lane of its own is not watched.  The third
    request would keep the first from its deadline, so the first two are released and the
    third waits for its window; its context can end, but no goroutine waits for that, so
    the end of the context does not take the request out of its lane. *)
Theorem isolated_newcomer_is_not_watched :
  Admit ex_two 3 (ex_req "c" 2590 900000000) true 1000000 1000000 1001000 = Ok ex_three ∧
  may_forward ex_three 1 = true ∧ may_forward ex_three 2 = true ∧ may_forward ex_three 3 = false ∧
  (al_pending <$> lanes ex_three !! "m|cell|w|t=0") = Some [3%N] ∧ (3%N ∉ watchers ex_three) ∧ 2%N ∈ watchers ex_three.
Proof.
  split; [vm_compute; reflexivity|]. split_and!; try (vm_compute; reflexivity).
  apply (bool_decide_unpack _). vm_compute. exact I.
Qed.
