(* ===== verification/TaskStore.v ===== *)
(** * TaskStore: tasks, their attempts, and the jobs they belong to

    A job is cut into tasks.  A worker claims a task, starts it, keeps the claim alive
    by heartbeats, and commits a result or reports a failure; what it leaves undone is
    taken back by sweeps, and every time a task is handed out again its attempt number
    [retry_count] has moved on.  A slow task can get a hedge (a second task for the same
    chunk), a disputed chunk a third opinion.  This file models those operations:
    [store_tasks.go], [failure.go], the claim of [scheduler.go], the job transitions of
    [store_jobs.go], the reservations of [store.go] and the guards [schema.sql] puts on
    the two status columns.  Committed results are verified in [Verification]; the
    theorems on histories are in [TaskLifecycle].

    Which task a claim prefers, and the conditions on capabilities, memory, residency
    and containment, are over tables this model does not have: the query's choice is an
    argument ([pick]), checked against the conditions on the modelled tables, and the
    remaining ones are the argument [supply].  The clock is an argument ([now], in
    nanoseconds); event rows that only inform the buyer are left out, and so is the
    trigger that keeps the identity of an execution frozen.  A job's economic plan is its
    row of columns, which the code compares with the plan's document before it uses
    them. *)
From stdpp Require Import base numbers list gmap strings pretty.
From Stdlib Require Import SpecFloat.
From S2P Require Import Prelude.
From S2P Require Import Float64.
From S2P Require Import Currency.
From S2P Require Import LedgerWrite.
From S2P Require Import Purse.
From S2P Require Import ObservedOutput.
Local Open Scope Z_scope.
Local Open Scope go_scope.

(** ** Rows *)

Inductive task_status := TQueued | TRunning | TVerifying | TRetrying | TComplete | TFailed | TCancelled.

#[export] Instance task_status_eq_dec : EqDecision task_status.
Proof. solve_decision. Defined.

(** The columns of a worker that decide what it may run, and that a claim freezes on
    the task. *)
Record machine := mkMachine {
  mc_hw_class : string;
  mc_hardware : string;
  mc_engine : string;
  mc_build : string;
  mc_policy : string
}.

#[export] Instance machine_eq_dec : EqDecision machine.
Proof. solve_decision. Defined.

Record worker := mkWorker {
  wk_supplier : UUID;
  wk_profile : string;
  wk_machine : machine;
  wk_last_seen : option Z;
  wk_throttled : bool;
  wk_streak : Z
}.

(** [execution_*]: all set or all null, by the check [tasks_execution_identity_complete]. *)
Record execution := mkExecution {
  ex_worker : UUID;
  ex_supplier : UUID;
  ex_machine : machine
}.

(** [frozenTaskEconomics]: the price a task is born with, in micros, and exactly where the
    plan is exact. *)
Record frozenTaskEconomics := mkFrozen {
  fz_charge : Z;                      (* economic_buyer_charge_usd *)
  fz_payout : Z;                      (* economic_supplier_payout_usd *)
  fz_charge_nanos : option Z;
  fz_payout_nanos : option Z
}.

#[export] Instance frozenTaskEconomics_eq_dec : EqDecision frozenTaskEconomics.
Proof. solve_decision. Defined.

(** What a task is, fixed when the row is inserted. *)
Record birth := mkBirth {
  b_job : UUID;
  b_chunk : Z;
  b_redundancy : bool;
  b_honeypot : bool;
  b_hedged_from : option UUID;
  b_input_ref : string;
  b_check_class : option machine;
  b_created_at : Z;
  b_price : frozenTaskEconomics;
  b_expected : Z;                     (* expected_output_records, 0 for null *)
  b_whole_input : bool                (* input_sha256 is the digest of the job's input *)
}.

(** Who holds it. *)
Record hold := mkHold {
  h_status : task_status;
  h_claimed_by : option UUID;
  h_claimed_at : option Z;
  h_started_at : option Z;
  h_worker : option UUID;
  h_retry : Z;
  h_visible_at : option Z;
  h_excluded : option UUID;
  h_excluded_until : option Z
}.

(** What came out of it. *)
Record outcome_cols := mkOutcome {
  o_result_key : string;
  o_result_ref : string;
  o_result_sha : string;
  o_reported : option (Z * Z);
  o_outcome : option string;
  o_completed_at : option Z
}.

Record task := mkTask {
  t_birth : birth;
  t_hold : hold;
  t_exec : option execution;
  t_out : outcome_cols
}.

Definition t_status (t : task) : task_status := h_status (t_hold t).
Definition t_job (t : task) : UUID := b_job (t_birth t).
Definition t_chunk (t : task) : Z := b_chunk (t_birth t).
Definition t_retry (t : task) : Z := h_retry (t_hold t).
Definition t_claimed_by (t : task) : option UUID := h_claimed_by (t_hold t).
Definition t_hedged_from (t : task) : option UUID := b_hedged_from (t_birth t).
Definition t_redundancy (t : task) : bool := b_redundancy (t_birth t).

Record placement := mkPlacement {
  pl_version : Z;
  pl_runtime : string;
  pl_machine : machine                (* the hardware class is not part of it *)
}.

(** The job's economic plan, and whether its pricing decision has the uniform policy. *)
Record econ_plan := mkEconPlan {
  ep_price : frozenTaskEconomics;     (* *_per_task_usd, *_per_task_nanos *)
  ep_initial : Z;                     (* initial_task_count *)
  ep_uniform : bool
}.

Definition ep_charge_micros (ep : econ_plan) : Z := fz_charge (ep_price ep).

(** The columns of [jobs] and of the job's reserve that [LedgerWrite]'s tables do not
    have. *)
Record jobx := mkJobx {
  jx_task_count : Z;
  jx_tasks_done : Z;
  jx_max_micros : option Z;           (* max_usd *)
  jx_firm_micros : option Z;          (* firm_quote_max_usd of a firm quote *)
  jx_charge_status : string;
  jx_strikes : Z;
  jx_tier : string;
  jx_budget_state : string;
  jx_placement : option placement;
  jx_actual_micros : option Z;
  jx_plan : option econ_plan;
  jx_reserve : option (Z * Z)         (* reserved_tasks, consumed_tasks *)
}.

Record supplier := mkSupplier {
  sp_reputation : spec_float;         (* REAL *)
  sp_status : string;
  sp_completed : Z;
  sp_quarantined_at : option Z
}.

(** *** Verification tables *)

Inductive work_status := WPending | WLeased | WTerminal.

#[export] Instance work_status_eq_dec : EqDecision work_status.
Proof. solve_decision. Defined.

(** The immutable snapshot of a commit; [sn_input] is the canonical JSON of the inputs. *)
Record work_snapshot := mkSnapshot {
  sn_task : UUID;
  sn_attempt : Z;
  sn_job : UUID;
  sn_worker : UUID;
  sn_supplier : UUID;
  sn_input : string;
  sn_staged_key : string;
  sn_reported_sha : string;
  sn_duration : Z;
  sn_tokens : Z
}.

#[export] Instance work_snapshot_eq_dec : EqDecision work_snapshot.
Proof. solve_decision. Defined.

Record artifact := mkArtifact { af_key : string; af_sha : string; af_bytes : Z }.

#[export] Instance artifact_eq_dec : EqDecision artifact.
Proof. solve_decision. Defined.

Record lease_cols := mkLeaseCols { ls_owner : string; ls_token : UUID; ls_expires : Z }.

Record vwork := mkVwork {
  vw_snapshot : work_snapshot;
  vw_status : work_status;
  vw_sampling : option (string * bool);
  vw_artifact : option artifact;
  vw_lease : option lease_cols;
  vw_attempts : Z;
  vw_next_at : Z;
  vw_terminal : option (string * string);   (* terminal_outcome, decision_sha256 *)
  vw_created_at : Z
}.

Record verdict := mkVerdict {
  vd_job : UUID;
  vd_supplier : UUID;
  vd_outcome : string;
  vd_result_sha : string;
  vd_decision_sha : string;
  vd_work : UUID;
  vd_artifact_key : string;
  vd_artifact_sha : string
}.

#[export] Instance verdict_eq_dec : EqDecision verdict.
Proof. solve_decision. Defined.

(** [VerificationEffect], one constructor per kind, the identifier first. *)
Inductive effect :=
  | DockReputation (id supplierID : UUID) (event : string)
  | RecordEvent (id jobID taskID supplierID : UUID) (event : string)
  | ClawbackCredit (id supplierID taskID : UUID)
  | Quarantine (id supplierID : UUID)
  | Requeue (id taskID : UUID)
  | InsertTiebreak (id jobID taskID peer primary : UUID) (inputRef : string) (chunk : Z).

Record failure_note := mkFailureNote { fn_kind : string; fn_code : string; fn_job_type : string }.

Record decision := mkDecision {
  dc_outcome : string;
  dc_effects : list effect;
  dc_failure : option failure_note
}.

Record vplan := mkVplan {
  vp_snapshot_sha : string;
  vp_artifact : artifact;
  vp_sampling : string * bool;
  vp_decision : decision;
  vp_settlement : list LedgerEntry;
  vp_digest : string;
  vp_created_at : Z
}.

Record resolution := mkResolution { rs_winner : UUID; rs_work : UUID; rs_artifact : artifact }.

#[export] Instance resolution_eq_dec : EqDecision resolution.
Proof. solve_decision. Defined.

(** ** The tables *)

Record world := mkWorld {
  w_purse : purse;                               (* ledger, job rows, balances *)
  w_tasks : gmap UUID task;
  w_jobs : gmap UUID jobx;
  w_workers : gmap UUID worker;
  w_suppliers : gmap UUID supplier;
  w_history : gmap (UUID * Z * UUID) UUID;       (* task, attempt, worker -> supplier *)
  w_work : gmap UUID vwork;
  w_plans : gmap UUID vplan;                     (* by work id *)
  w_verdicts : gmap (UUID * Z) verdict;          (* by task and attempt *)
  w_effects : gset UUID;                         (* verification_events.effect_id *)
  w_resolved : gmap (UUID * Z * string) resolution  (* job, chunk, basis *)
}.

Definition books (w : world) : db := purse_books (w_purse w).

Definition with_purse (w : world) (p : purse) : world :=
  mkWorld p (w_tasks w) (w_jobs w) (w_workers w) (w_suppliers w) (w_history w) (w_work w) (w_plans w)
    (w_verdicts w) (w_effects w) (w_resolved w).
Definition with_books (w : world) (d : db) : world := with_purse w (with_purse_books (w_purse w) d).
Definition with_tasks (w : world) (m : gmap UUID task) : world :=
  mkWorld (w_purse w) m (w_jobs w) (w_workers w) (w_suppliers w) (w_history w) (w_work w) (w_plans w)
    (w_verdicts w) (w_effects w) (w_resolved w).
Definition with_jobs (w : world) (m : gmap UUID jobx) : world :=
  mkWorld (w_purse w) (w_tasks w) m (w_workers w) (w_suppliers w) (w_history w) (w_work w) (w_plans w)
    (w_verdicts w) (w_effects w) (w_resolved w).
Definition with_workers (w : world) (m : gmap UUID worker) : world :=
  mkWorld (w_purse w) (w_tasks w) (w_jobs w) m (w_suppliers w) (w_history w) (w_work w) (w_plans w)
    (w_verdicts w) (w_effects w) (w_resolved w).
Definition with_suppliers (w : world) (m : gmap UUID supplier) : world :=
  mkWorld (w_purse w) (w_tasks w) (w_jobs w) (w_workers w) m (w_history w) (w_work w) (w_plans w)
    (w_verdicts w) (w_effects w) (w_resolved w).
Definition with_history (w : world) (m : gmap (UUID * Z * UUID) UUID) : world :=
  mkWorld (w_purse w) (w_tasks w) (w_jobs w) (w_workers w) (w_suppliers w) m (w_work w) (w_plans w)
    (w_verdicts w) (w_effects w) (w_resolved w).
Definition with_work (w : world) (m : gmap UUID vwork) : world :=
  mkWorld (w_purse w) (w_tasks w) (w_jobs w) (w_workers w) (w_suppliers w) (w_history w) m (w_plans w)
    (w_verdicts w) (w_effects w) (w_resolved w).
Definition with_plans (w : world) (m : gmap UUID vplan) : world :=
  mkWorld (w_purse w) (w_tasks w) (w_jobs w) (w_workers w) (w_suppliers w) (w_history w) (w_work w) m
    (w_verdicts w) (w_effects w) (w_resolved w).
Definition with_verdicts (w : world) (m : gmap (UUID * Z) verdict) : world :=
  mkWorld (w_purse w) (w_tasks w) (w_jobs w) (w_workers w) (w_suppliers w) (w_history w) (w_work w) (w_plans w)
    m (w_effects w) (w_resolved w).
Definition with_effects (w : world) (m : gset UUID) : world :=
  mkWorld (w_purse w) (w_tasks w) (w_jobs w) (w_workers w) (w_suppliers w) (w_history w) (w_work w) (w_plans w)
    (w_verdicts w) m (w_resolved w).
Definition with_resolved (w : world) (m : gmap (UUID * Z * string) resolution) : world :=
  mkWorld (w_purse w) (w_tasks w) (w_jobs w) (w_workers w) (w_suppliers w) (w_history w) (w_work w) (w_plans w)
    (w_verdicts w) (w_effects w) m.

(** ** The lifecycle guards

    [lifecycle_transitions] and the trigger [cx_guard_lifecycle_transition]: an update of
    a status column that is not in the table raises and aborts the transaction. *)

Definition errLifecycle : error := Sentinel "illegal lifecycle transition".

Definition task_edge (a b : task_status) : bool :=
  bool_decide (a = b) ||
  match a, b with
  | TQueued, (TRunning | TRetrying | TFailed | TCancelled) => true
  | TRunning, (TQueued | TVerifying | TComplete | TRetrying | TFailed | TCancelled) => true
  | TVerifying, (TRunning | TComplete | TRetrying | TFailed | TCancelled) => true
  | TRetrying, (TQueued | TRunning | TFailed | TCancelled) => true
  | TComplete, (TRetrying | TFailed) => true
  | TFailed, TRetrying => true
  | _, _ => false
  end.

Definition job_edges : list (string * string) :=
  [("queued", "running"); ("queued", "cancelled"); ("queued", "failed");
   ("running", "verifying"); ("running", "complete"); ("running", "failed"); ("running", "cancelled");
   ("verifying", "running"); ("verifying", "complete"); ("verifying", "failed")].

Definition job_edge (a b : string) : bool := bool_decide (a = b) || bool_decide ((a, b) ∈ job_edges).

(** ** Statements *)

(** [retry_count] is a [SMALLINT]. *)
Definition row_fits (t : task) : bool := (-32768 <=? t_retry t) && (t_retry t <=? 32767).

Definition store_row (id : UUID) (old new : task) (w : world) : res world :=
  refuse errOutOfRange if negb (row_fits new);
  refuse errLifecycle if negb (task_edge (t_status old) (t_status new));
  Ok (with_tasks w (<[id := new]> (w_tasks w))).

(** [UPDATE tasks SET ... WHERE id=$1 AND ...]: was the row updated? *)
Definition update_task (w : world) (id : UUID) (sel : task → bool) (f : task → task) : res (bool * world) :=
  match w_tasks w !! id with
  | Some t => if sel t then w ← store_row id t (f t) w; Ok (true, w) else Ok (false, w)
  | None => Ok (false, w)
  end.

(** [UPDATE tasks SET ... WHERE ...] over many rows: the statement sees the table as it
    was before. *)
Definition update_tasks (w : world) (sel : UUID → task → bool) (f : task → task) : res world :=
  let hit := filter (λ x, sel x.1 x.2 = true) (w_tasks w) in
  refuse errOutOfRange if negb (forallb (λ x, row_fits (f x.2)) (map_to_list hit));
  refuse errLifecycle if negb (forallb (λ x, task_edge (t_status x.2) (t_status (f x.2))) (map_to_list hit));
  Ok (with_tasks w ((f <$> hit) ∪ w_tasks w)).

(** [INSERT INTO tasks]; [LedgerWrite]'s tables have the job column of the same row. *)
Definition insert_task (w : world) (id : UUID) (t : task) : res world :=
  let d := books w in
  refuse errUniqueViolation if bool_decide (w_tasks w !! id ≠ None) || bool_decide (tasks d !! id ≠ None);
  Ok (with_books (with_tasks w (<[id := t]> (w_tasks w)))
        (mkDb (ledger d) (<[id := t_job t]> (tasks d)) (jobs d) (plans d))).

Definition job_row (w : world) (jobID : UUID) : option job := jobs (books w) !! jobID.

Definition job_status_of (w : world) (jobID : UUID) : res string :=
  match job_row w jobID with Some j => Ok (job_status j) | None => Err errNoRows end.

Definition set_status (j : job) (s : string) : job :=
  mkJob (job_currency j) (job_pricing_sha j) (job_buyer j) s (prepaid_required j) (estimated_micros j).

(** [UPDATE jobs SET status=$2 WHERE id=$1 AND status IN (...)]. *)
Definition update_job_status (w : world) (jobID : UUID) (from : list string) (s : string) : res (bool * world) :=
  match job_row w jobID with
  | Some j =>
      if one_of (job_status j) from then
        refuse errLifecycle if negb (job_edge (job_status j) s);
        let d := books w in
        Ok (true, with_books w (mkDb (ledger d) (tasks d) (<[jobID := set_status j s]> (jobs d)) (plans d)))
      else Ok (false, w)
  | None => Ok (false, w)
  end.

Definition update_jobx (w : world) (jobID : UUID) (f : jobx → jobx) : world :=
  with_jobs w (alter f jobID (w_jobs w)).

Definition live_statuses : list string := ["queued"; "running"; "verifying"].
Definition terminal_statuses : list string := ["complete"; "cancelled"; "failed"].

(** The tasks of a job that satisfy a condition. *)
Definition job_tasks (w : world) (jobID : UUID) (p : task → bool) : gmap UUID task :=
  filter (λ x, bool_decide (t_job x.2 = jobID) && p x.2 = true) (w_tasks w).

Definition some_task (w : world) (jobID : UUID) (p : task → bool) : bool :=
  bool_decide (job_tasks w jobID p ≠ ∅).

Definition in_status (l : list task_status) (t : task) : bool := bool_decide (t_status t ∈ l).

Definition with_hold (t : task) (h : hold) : task := mkTask (t_birth t) h (t_exec t) (t_out t).

(** ** Staging keys ([task_artifact_path.go]) *)

Definition attempt_key (jobID taskID : UUID) (attempt : Z) : string :=
  "jobs/" +:+ uuid_String jobID +:+ "/tasks/" +:+ uuid_String taskID +:+ "/attempt-" +:+ pretty attempt
    +:+ "/result.json".

Definition taskAttemptResultKey (jobID taskID : UUID) (attempt : Z) : string :=
  if bool_decide (jobID = uuid_Nil) || bool_decide (taskID = uuid_Nil) || (attempt <? 0) then ""
  else attempt_key jobID taskID attempt.

Definition validateTaskAttemptResultKey (jobID taskID : UUID) (attempt : Z) (key : string) : res unit :=
  let want := taskAttemptResultKey jobID taskID attempt in
  refuse (Errorf "task %s attempt %d result key is %q, want %q")
    if bool_decide (want = "") || negb (bool_decide (key = want));
  Ok tt.

(** ** Delays *)

Definition second : Z := 1000000000.
Definition minute : Z := 60 * second.
Definition requeueBackoffBase : Z := 30 * second.
Definition requeueBackoffCap : Z := 10 * minute.
Definition requeueExclusionGrace : Z := 2 * minute.
Definition immediateFailBackoff : Z := 5 * second.
Definition staleTaskTimeout : Z := 30 * minute.
Definition staleBackoff : Z := 1 * minute.
Definition deadWorkerAfter : Z := 180 * second.
Definition maxTaskRetries : Z := 3.
Definition sweep_limit : Z := 100.

Definition requeueBackoff (priorRetries : Z) : Z :=
  let priorRetries := if priorRetries <? 0 then 0 else priorRetries in
  let shift := if 20 <? priorRetries then 20 else priorRetries in
  let d := wrap64 (Z.shiftl requeueBackoffBase shift) in
  if (d <=? 0) || (requeueBackoffCap <? d) then requeueBackoffCap else d.

(** ** The budget of a job *)

Definition charged_micros (w : world) (jobID : UUID) : Z :=
  - sum_micros (λ r, bool_decide (kind r = KindBuyerCharge) && of_job (books w) jobID r) (ledger (books w)).

Definition tasks_in_flight (w : world) (jobID : UUID) : Z :=
  Z.of_nat (size (job_tasks w jobID (in_status [TRunning; TVerifying]))).

(** What the job will have cost once its tasks in flight, [more] further ones and the
    once-only SLA premium are charged; [NULL] without an economic plan. *)
Definition projected_micros (w : world) (jobID : UUID) (more : Z) : option Z :=
  match w_jobs w !! jobID ≫= jx_plan, plans (books w) !! jobID with
  | Some ep, Some pl =>
      Some (charged_micros w jobID + (tasks_in_flight w jobID + more) * ep_charge_micros ep + sla_premium_micros pl)
  | _, _ => None
  end.

(** [max_usd IS NULL OR COALESCE(projected <= max_usd, false)]. *)
Definition within_cap (w : world) (jobID : UUID) (more : Z) : bool :=
  match w_jobs w !! jobID with
  | Some jx =>
      match jx_max_micros jx with
      | None => true
      | Some cap => match projected_micros w jobID more with Some v => v <=? cap | None => false end
      end
  | None => false
  end.

Definition set_budget_state (s : string) (jx : jobx) : jobx :=
  mkJobx (jx_task_count jx) (jx_tasks_done jx) (jx_max_micros jx) (jx_firm_micros jx) (jx_charge_status jx)
    (jx_strikes jx) (jx_tier jx) s (jx_placement jx) (jx_actual_micros jx) (jx_plan jx) (jx_reserve jx).

(** From 80% of the cap on. *)
Definition budgetWarnOnDispatch (w : world) (jobID : UUID) : world :=
  match w_jobs w !! jobID, projected_micros w jobID 1 with
  | Some jx, Some v =>
      match jx_max_micros jx with
      | Some cap =>
          if bool_decide (jx_budget_state jx = "tracking") && (8 * cap <=? 10 * v)
          then update_jobx w jobID (set_budget_state "near_limit") else w
      | None => w
      end
  | _, _ => w
  end.

(** ** Independence of a second opinion

    [chunkIndependencePriorsSQL]: who executed, holds, committed or attempted another
    task of the chunk. *)
Definition of_chunk (jobID : UUID) (chunk : Z) (t : task) : bool :=
  bool_decide (t_job t = jobID) && (t_chunk t =? chunk).

Definition chunk_of_task (w : world) (jobID : UUID) (chunk : Z) (id : UUID) : bool :=
  match w_tasks w !! id with Some t => of_chunk jobID chunk t | None => false end.

Definition chunk_priors (w : world) (jobID : UUID) (chunk : Z) (exclude : option UUID) : list (UUID * UUID) :=
  omap (λ x : UUID * task,
          if of_chunk jobID chunk x.2 && negb (bool_decide (Some x.1 = exclude))
          then (λ e, (ex_worker e, ex_supplier e)) <$> t_exec x.2 else None) (map_to_list (w_tasks w)) ++
  omap (λ x : UUID * task,
          if of_chunk jobID chunk x.2 && negb (bool_decide (Some x.1 = exclude))
          then h ← t_claimed_by x.2; (λ k, (h, wk_supplier k)) <$> w_workers w !! h
          else None) (map_to_list (w_tasks w)) ++
  omap (λ x : UUID * vwork,
          if chunk_of_task w jobID chunk (sn_task (vw_snapshot x.2))
          then Some (sn_worker (vw_snapshot x.2), sn_supplier (vw_snapshot x.2)) else None)
    (map_to_list (w_work w)) ++
  omap (λ x : (UUID * Z * UUID) * UUID,
          if chunk_of_task w jobID chunk x.1.1.1 then Some (x.1.2, x.2) else None)
    (map_to_list (w_history w)).

Definition independent (w : world) (jobID : UUID) (chunk : Z) (exclude : option UUID) (workerID supplierID : UUID) : bool :=
  negb (existsb (λ p, bool_decide (p.1 = workerID) || bool_decide (p.2 = supplierID))
          (chunk_priors w jobID chunk exclude)).

(** The class a third opinion was frozen with; empty columns do not bind. *)
Definition class_matches (frozen : option machine) (m : machine) : bool :=
  match frozen with
  | Some c =>
      negb (bool_decide (mc_hw_class c = "")) && bool_decide (mc_hw_class m = mc_hw_class c) &&
      (bool_decide (mc_engine c = "") || bool_decide (mc_engine m = mc_engine c)) &&
      (bool_decide (mc_build c = "") || bool_decide (mc_build m = mc_build c)) &&
      (bool_decide (mc_policy c = "") || bool_decide (mc_policy m = mc_policy c))
  | None => false
  end.

(** ** Placement *)

Definition placementRequirementVersion : Z := 3.

Definition placement_version (jx : jobx) : Z :=
  match jx_placement jx with Some p => pl_version p | None => 1 end.

(** The worker is the one the job was priced for. *)
Definition placed_on (jx : jobx) (k : worker) : bool :=
  match jx_placement jx with
  | Some p =>
      bool_decide (wk_profile k = pl_runtime p) &&
      bool_decide (mc_engine (wk_machine k) = mc_engine (pl_machine p)) &&
      bool_decide (mc_build (wk_machine k) = mc_build (pl_machine p)) &&
      bool_decide (mc_policy (wk_machine k) = mc_policy (pl_machine p)) &&
      bool_decide (mc_hardware (wk_machine k) = mc_hardware (pl_machine p))
  | None => true
  end.

(** The worker is still the one that the claim froze on the task. *)
Definition still_frozen (e : option execution) (k : worker) : bool :=
  match e with
  | Some e => bool_decide (ex_machine e = wk_machine k) && bool_decide (ex_supplier e = wk_supplier k)
  | None => false
  end.

(** The claim's condition on placement: from version 3 on the exact build and device,
    except that version 4 admits every family of its contract. *)
Definition claim_placed (jx : jobx) (m : machine) : bool :=
  match jx_placement jx with
  | Some p =>
      bool_decide (pl_version p ∈ [1; 2; 4]) ||
      ((pl_version p =? 3) && bool_decide (mc_build (pl_machine p) = mc_build m) &&
       bool_decide (mc_policy (pl_machine p) = mc_policy m) &&
       bool_decide (mc_hardware (pl_machine p) = mc_hardware m))
  | None => true
  end.

(** [j.status IN ('queued','running','verifying')], and its complement. *)
Definition job_is_live (w : world) (jobID : UUID) : bool :=
  match job_row w jobID with Some j => one_of (job_status j) live_statuses | None => false end.

(** *** State of a job before a terminal transition *)

Definition errJobVerificationPending : error := Sentinel "ErrJobVerificationPending".

Definition verification_pending (w : world) (jobID : UUID) : bool :=
  some_task w jobID (in_status [TVerifying]) ||
  bool_decide (filter (λ x, bool_decide (sn_job (vw_snapshot x.2) = jobID) &&
                            negb (bool_decide (vw_status x.2 = WTerminal)) = true) (w_work w) ≠ ∅).

Definition jobTerminalTransitionStateTx (w : world) (jobID : UUID) : res (string * bool) :=
  match job_row w jobID with
  | Some j => Ok (job_status j, verification_pending w jobID)
  | None => Err errNotFound
  end.

Definition set_actual (v : Z) (jx : jobx) : jobx :=
  mkJobx (jx_task_count jx) (jx_tasks_done jx) (jx_max_micros jx) (jx_firm_micros jx) (jx_charge_status jx)
    (jx_strikes jx) (jx_tier jx) (jx_budget_state jx) (jx_placement jx) (Some v) (jx_plan jx) (jx_reserve jx).

Definition failJobAndSettleOnce (w : world) (jobID : UUID) : res (bool * world) :=
  match jobTerminalTransitionStateTx w jobID with
  | Err err => Err err
  | Ok (status, pending) =>
      if one_of status terminal_statuses then Ok (false, w)
      else
        refuse errJobVerificationPending if pending;
        '(flipped, w) ← update_job_status w jobID live_statuses "failed";
        if negb flipped then Ok (false, w)
        else Ok (true, update_jobx w jobID (set_actual (charged_micros w jobID)))
  end.

Section Operations.
Context (st : settlement) (supply : UUID → UUID → bool).

(** ** Claiming a task *)

(** The conditions of the claim query on the row [id] and its job, for the branch that
    serves tasks pinned to the worker and the one that serves unclaimed tasks. *)
Definition may_claim (now : Z) (workerID : UUID) (k : worker) (pinned : bool) (w : world) (id : UUID) (t : task) : bool :=
  let h := t_hold t in
  in_status [TQueued; TRetrying] t &&
  (default (b_created_at (t_birth t)) (h_visible_at h) <=? now) &&
  (if pinned then bool_decide (h_claimed_by h = Some workerID) && bool_decide (h_started_at h = None)
   else bool_decide (h_claimed_by h = None)) &&
  (negb (bool_decide (h_excluded h = Some workerID)) ||
   match h_excluded_until h with Some u => u <=? now | None => true end) &&
  (negb (t_redundancy t) ||
   (independent w (t_job t) (t_chunk t) (Some id) workerID (wk_supplier k) &&
    (bool_decide (t_hedged_from t = None) || class_matches (b_check_class (t_birth t)) (wk_machine k)))) &&
  job_is_live w (t_job t) &&
  match job_row w (t_job t), w_jobs w !! t_job t with
  | Some j, Some jx =>
      bool_decide (job_currency j = SettlementCurrencyCode st) && within_cap w (t_job t) 1 &&
      claim_placed jx (wk_machine k)
  | _, _ => false
  end &&
  supply (t_job t) workerID.

Definition scan_claim (now : Z) (workerID : UUID) (k : worker) (pinned : bool) (w : world) (pick : option UUID) :
    option (UUID * task) :=
  match pick with
  | Some id =>
      match w_tasks w !! id with
      | Some t => if may_claim now workerID k pinned w id t then Some (id, t) else None
      | None => None
      end
  | None => None
  end.

Definition with_key (o : outcome_cols) (key : string) : outcome_cols :=
  mkOutcome key (o_result_ref o) (o_result_sha o) (o_reported o) (o_outcome o) (o_completed_at o).

(** The update of the claim. *)
Definition claimed_row (now : Z) (workerID : UUID) (k : worker) (id : UUID) (t : task) : task :=
  let h := t_hold t in
  mkTask (t_birth t)
    (mkHold TRunning (Some workerID) (Some now) (Some now) (Some workerID) (h_retry h) (h_visible_at h)
       (h_excluded h) (h_excluded_until h))
    (Some (mkExecution workerID (wk_supplier k) (wk_machine k)))
    (with_key (t_out t) (attempt_key (t_job t) id (h_retry h))).

(** [INSERT INTO task_execution_history ... ON CONFLICT DO NOTHING]: was a row inserted? *)
Definition record_history (w : world) (id : UUID) (attempt : Z) (workerID supplierID : UUID) : bool * world :=
  match w_history w !! (id, attempt, workerID) with
  | Some _ => (false, w)
  | None => (true, with_history w (<[(id, attempt, workerID) := supplierID]> (w_history w)))
  end.

Definition third_opinion (t : task) : bool := t_redundancy t && bool_decide (t_hedged_from t ≠ None).

Definition streak_after (tier : string) (k : worker) : worker :=
  mkWorker (wk_supplier k) (wk_profile k) (wk_machine k) (wk_last_seen k) (wk_throttled k)
    (if bool_decide (tier = "priority") then Z.min (wk_streak k + 1) 3
     else if bool_decide (tier = "batch") then 0 else wk_streak k).

Record claimed := mkClaimed { cl_task : UUID; cl_attempt : Z; cl_job : UUID; cl_key : string }.

(** What follows the claim query once it returned a row: the checks under the job's
    lock, which roll the claim back, and the projections. *)
Definition claim_row (now : Z) (workerID : UUID) (k : worker) (pinned : bool) (placement : res unit) (w : world)
    (id : UUID) (t : task) : res (option claimed * world) :=
  let t' := claimed_row now workerID k id t in
  w1 ← store_row id t t' w;
  _ ← validateTaskAttemptResultKey (t_job t) id (t_retry t) (o_result_key (t_out t'));
  let w2 := if third_opinion t then (record_history w1 id (t_retry t) workerID (wk_supplier k)).2 else w1 in
  parent ← job_status_of w2 (t_job t);
  if negb (one_of parent live_statuses) || negb (within_cap w2 (t_job t) 0) then Ok (None, w)
  else
    '(_, w3) ← update_job_status w2 (t_job t) ["queued"] "running";
    let w4 := budgetWarnOnDispatch w3 (t_job t) in
    let tier := match w_jobs w4 !! t_job t with Some jx => jx_tier jx | None => "" end in
    let w5 := if pinned then w4 else with_workers w4 (alter (streak_after tier) workerID (w_workers w4)) in
    _ ← placement;
    Ok (Some (mkClaimed id (t_retry t) (t_job t) (o_result_key (t_out t'))), w5).

Definition ClaimTasksTx (now : Z) (workerID : UUID) (pick_pinned pick_free : option UUID) (placement : res unit)
    (w : world) : res (option claimed * world) :=
  match w_workers w !! workerID with
  | None => Err errNotFound
  | Some k =>
      refuse errNoRows if bool_decide (w_suppliers w !! wk_supplier k = None);
      refuse (Errorf "task claim requires a configured settlement currency")
        if bool_decide (SettlementCurrencyCode st = "");
      match scan_claim now workerID k true w pick_pinned with
      | Some (id, t) => claim_row now workerID k true placement w id t
      | None =>
          match scan_claim now workerID k false w pick_free with
          | Some (id, t) => claim_row now workerID k false placement w id t
          | None => Ok (None, w)
          end
      end
  end.

(** ** Starting, heartbeats *)

(** [tiebreakPeerClaimEligibleTx]: a worker may give the third opinion [id]. *)
Definition tiebreakPeerClaimEligibleTx (now : Z) (w : world) (id jobID peer : UUID) : bool :=
  match w_tasks w !! id, job_row w jobID, w_jobs w !! jobID, w_workers w !! peer with
  | Some t, Some j, Some jx, Some k =>
      bool_decide (t_job t = jobID) && in_status [TQueued; TRetrying] t &&
      bool_decide (h_started_at (t_hold t) = None) && third_opinion t &&
      one_of (job_status j) ["running"; "verifying"] &&
      class_matches (b_check_class (t_birth t)) (wk_machine k) &&
      ((placement_version jx <? 3) || placed_on jx k) &&
      match wk_last_seen k with Some seen => now - 60 * second <? seen | None => false end &&
      match w_suppliers w !! wk_supplier k with Some s => bool_decide (sp_status s = "active") | None => false end &&
      negb (wk_throttled k) && within_cap w jobID 1 &&
      independent w jobID (t_chunk t) (Some id) peer (wk_supplier k) && supply jobID peer
  | _, _, _, _ => false
  end.

Definition started_row (now : Z) (workerID : UUID) (k : worker) (t : task) : task :=
  let h := t_hold t in
  mkTask (t_birth t)
    (mkHold TRunning (h_claimed_by h) (h_claimed_at h) (Some now) (Some workerID) (h_retry h) (h_visible_at h)
       (h_excluded h) (h_excluded_until h))
    (Some (mkExecution workerID (wk_supplier k) (wk_machine k))) (t_out t).

(** The job must settle here, be live, and, where it was priced for one machine, the
    worker must be that machine and, once running, the one frozen on the task. *)
Definition may_start (w : world) (k : worker) (t : task) : res unit :=
  match job_row w (t_job t), w_jobs w !! t_job t with
  | Some j, Some jx =>
      _ ← (match RequireSettlementCurrency st (job_currency j) with
           | Err err => Err (Wrapf err "job %s cannot start under this deployment: %w")
           | Ok _ => Ok tt
           end);
      refuse errNotFound if negb (one_of (job_status j) live_statuses);
      refuse errNotFound if (placementRequirementVersion <=? placement_version jx) && negb (placed_on jx k);
      refuse errNotFound
        if (placementRequirementVersion <=? placement_version jx) &&
           (in_status [TRunning] t || negb (third_opinion t)) && negb (still_frozen (t_exec t) k);
      Ok tt
  | _, _ => Err errNotFound
  end.

Definition StartTask (now : Z) (taskID workerID : UUID) (claimAttempt : Z) (w : world) : res world :=
  refuse errNotFound if claimAttempt <? 0;
  match w_workers w !! workerID, w_tasks w !! taskID with
  | Some k, Some t =>
      refuse errNotFound if negb (not_blank (mc_hw_class (wk_machine k))) || negb (not_blank (mc_engine (wk_machine k)));
      refuse errNotFound if negb (t_retry t =? claimAttempt);
      refuse errNotFound
        if negb (bool_decide (t_claimed_by t = Some workerID)) || negb (in_status [TQueued; TRunning] t);
      _ ← may_start w k t;
      if in_status [TRunning] t then
        refuse errNotFound if negb (bool_decide (h_worker (t_hold t) = Some workerID));
        match t_exec t with
        | Some e =>
            refuse errNotFound if negb (bool_decide (ex_worker e = workerID));
            refuse errNotFound
              if third_opinion t && negb (bool_decide (w_history w !! (taskID, t_retry t, workerID) = Some (ex_supplier e)));
            '(_, w) ← update_job_status w (t_job t) ["queued"] "running";
            Ok w
        | None => Err errNotFound
        end
      else
        refuse errNotFound
          if match h_worker (t_hold t) with Some x => negb (bool_decide (x = workerID)) | None => false end;
        w1 ← (if third_opinion t then
                refuse errNotFound if bool_decide (h_started_at (t_hold t) ≠ None);
                refuse errNotFound if negb (tiebreakPeerClaimEligibleTx now w taskID (t_job t) workerID);
                let '(fresh, w1) := record_history w taskID (t_retry t) workerID (wk_supplier k) in
                refuse errNotFound if negb fresh;
                Ok w1
              else Ok w);
        w2 ← store_row taskID t (started_row now workerID k t) w1;
        '(_, w3) ← update_job_status w2 (t_job t) ["queued"] "running";
        Ok w3
  | _, _ => Err errNotFound
  end.

(** A heartbeat renews the claims of the sender's current attempts. *)
Definition renewed_row (now : Z) (t : task) : task :=
  let h := t_hold t in
  with_hold t (mkHold (h_status h) (h_claimed_by h) (Some now) (h_started_at h) (h_worker h) (h_retry h)
                 (h_visible_at h) (h_excluded h) (h_excluded_until h)).

Definition renew_lease (now : Z) (workerID : UUID) (w : world) (lease : UUID * Z) : res world :=
  '(_, w) ← update_task w lease.1
     (λ t, bool_decide (t_claimed_by t = Some workerID) && bool_decide (h_worker (t_hold t) = Some workerID) &&
           in_status [TRunning] t && (t_retry t =? lease.2)) (renewed_row now);
  Ok w.

Fixpoint renew_leases (now : Z) (workerID : UUID) (leases : list (UUID * Z)) (w : world) : res world :=
  match leases with
  | [] => Ok w
  | l :: rest => w ← renew_lease now workerID w l; renew_leases now workerID rest w
  end.

(** ** Committing a result *)

Record TaskCommit := mkCommit {
  c_attempt : Z;
  c_result_key : string;
  c_result_sha : string;
  c_duration_ms : Z;                  (* uint64 *)
  c_tokens_used : Z                   (* uint64 *)
}.

Definition errVerificationWorkConflict : error := Sentinel "ErrVerificationWorkConflict".

Definition normalizeVerificationSHA (raw : string) (optional : bool) : res string :=
  let raw := to_lower (trim_space raw) in
  if bool_decide (raw = "") && optional then Ok ""
  else
    refuse (Errorf "sha256 must be 64 lowercase hexadecimal characters") if negb (validSHA256 raw);
    Ok raw.

Definition prepareVerificationSnapshot (s : work_snapshot) : res work_snapshot :=
  refuse (Errorf "verification work requires task, job, worker, and supplier ids")
    if bool_decide (sn_task s = uuid_Nil) || bool_decide (sn_job s = uuid_Nil) ||
       bool_decide (sn_worker s = uuid_Nil) || bool_decide (sn_supplier s = uuid_Nil);
  refuse (Errorf "verification work attempt must be non-negative") if sn_attempt s <? 0;
  refuse (Errorf "verification staging result key is required") if bool_decide (sn_staged_key s = "");
  refuse (Errorf "verification work attempt exceeds task attempt range") if 32767 <? sn_attempt s;
  _ ← (match validateTaskAttemptResultKey (sn_job s) (sn_task s) (sn_attempt s) (sn_staged_key s) with
       | Err err => Err (Wrapf err "verification staging result key: %w")
       | Ok _ => Ok tt
       end);
  match normalizeVerificationSHA (sn_reported_sha s) true with
  | Err err => Err (Wrapf err "reported result %w")
  | Ok sha =>
      refuse (Errorf "verification reported duration and tokens must be non-negative")
        if (sn_duration s <? 0) || (sn_tokens s <? 0);
      Ok (mkSnapshot (sn_task s) (sn_attempt s) (sn_job s) (sn_worker s) (sn_supplier s) (sn_input s)
            (sn_staged_key s) sha (sn_duration s) (sn_tokens s))
  end.

(** [verification_work] has a unique key on task and attempt. *)
Definition work_for_attempt (w : world) (taskID : UUID) (attempt : Z) : option (UUID * vwork) :=
  find_row (λ v, bool_decide (sn_task (vw_snapshot v) = taskID) && (sn_attempt (vw_snapshot v) =? attempt)) (w_work w).

Definition createVerificationWorkTx (now : Z) (workID : UUID) (s : work_snapshot) (w : world) : res world :=
  s ← prepareVerificationSnapshot s;
  match work_for_attempt w (sn_task s) (sn_attempt s) with
  | None =>
      refuse errUniqueViolation if bool_decide (w_work w !! workID ≠ None);
      Ok (with_work w (<[workID := mkVwork s WPending None None None 0 now None now]> (w_work w)))
  | Some (_, v) =>
      refuse errVerificationWorkConflict if negb (bool_decide (vw_snapshot v = s));
      Ok w
  end.

(** [nullSHA256Hex], and [COALESCE(result_sha256, '')]. *)
Definition nullSHA256Hex (h : string) : string :=
  if (String.length h =? 64)%nat && forallb lower_hex (String.list_ascii_of_string h) then h else "".

Definition committed_row (workerID : UUID) (c : TaskCommit) (t : task) : task :=
  let h := t_hold t in
  if in_status [TVerifying] t then t
  else
    mkTask (t_birth t)
      (mkHold TVerifying (h_claimed_by h) (h_claimed_at h) (h_started_at h) (Some workerID) (h_retry h)
         (h_visible_at h) (h_excluded h) (h_excluded_until h))
      (t_exec t)
      (mkOutcome (o_result_key (t_out t)) (o_result_key (t_out t)) (nullSHA256Hex (c_result_sha c))
         (Some (c_duration_ms c, c_tokens_used c)) None None).

(** The locked read of the commit: the claim is the worker's, the attempt the current
    one, and a job priced for one machine is committed by that machine. *)
Definition may_commit (w : world) (workerID : UUID) (c : TaskCommit) (t : task) : option execution :=
  match w_workers w !! workerID, w_jobs w !! t_job t, t_exec t with
  | Some k, Some jx, Some e =>
      if bool_decide (t_claimed_by t = Some workerID) && bool_decide (ex_worker e = workerID) &&
         (t_retry t =? c_attempt c) && in_status [TRunning; TQueued; TVerifying] t &&
         ((placement_version jx <? 3) || (placed_on jx k && still_frozen (Some e) k))
      then Some e else None
  | _, _, _ => None
  end.

(** The task is verifying, the job verifies once nothing is left to execute, and one
    unit of verification work exists for the attempt.  [input] is the canonical JSON of
    the attempt's inputs and limits, or why it is refused. *)
Definition completeTaskTx (now : Z) (taskID workerID workID : UUID) (c : TaskCommit) (input : res string) (w : world) :
    res world :=
  refuse (Errorf "reported duration/tokens exceed durable range")
    if (c_attempt c <? 0) || (max_int64 <? c_duration_ms c) || (max_int64 <? c_tokens_used c);
  match w_tasks w !! taskID with
  | None => Err errNotFound
  | Some t =>
      match may_commit w workerID c t with
      | None => Err errNotFound
      | Some e =>
          let expected := taskAttemptResultKey (t_job t) taskID (c_attempt c) in
          refuse errNotFound
            if negb (is_ok (validateTaskAttemptResultKey (t_job t) taskID (c_attempt c) (o_result_key (t_out t)))) ||
               negb (bool_decide (c_result_key c = expected));
          refuse errNotFound
            if negb (in_status [TRunning; TQueued] t) && negb (bool_decide (h_worker (t_hold t) = Some workerID));
          w1 ← store_row taskID t (committed_row workerID c t) w;
          parent ← job_status_of w1 (t_job t);
          refuse errNotFound if negb (one_of parent live_statuses);
          '(_, w2) ← (if some_task w1 (t_job t) (in_status [TQueued; TRetrying; TRunning]) then Ok (false, w1)
                      else update_job_status w1 (t_job t) ["queued"; "running"] "verifying");
          input ← input;
          createVerificationWorkTx now workID
            (mkSnapshot taskID (t_retry t) (t_job t) (ex_worker e) (ex_supplier e) input
               (o_result_key (t_out t)) (c_result_sha c) (c_duration_ms c) (c_tokens_used c)) w2
      end
  end.

(** ** Failures *)

Definition failureClasses (class : string) : option (bool * bool) :=   (* retryable, buyer's fault *)
  if one_of class ["oom"; "model_load_failed"; "thermal_throttle"; "timeout"; "worker_shutdown"; "transient_io";
                   "object_store_error"; "internal_error"] then Some (true, false)
  else if one_of class ["unsupported_model"; "unsupported_job_type"; "bad_input"; "bad_jsonl"] then Some (false, true)
  else if one_of class ["cancelled"; "verification_failed"] then Some (false, false)
  else None.

(** An unknown class counts as an internal error. *)
Definition retryable (class : string) : bool :=
  match failureClasses class with Some (r, _) => r | None => true end.

Definition errNotOwner : error := Sentinel "errNotOwner".

Inductive FailOutcome := FailRequeued | FailTerminal | FailNoop.

(** [claimed_by = NULL, claimed_at = NULL, worker_id = NULL]. *)
Definition released (s : task_status) (t : task) : task :=
  let h := t_hold t in
  with_hold t (mkHold s None None (h_started_at h) None (h_retry h) (h_visible_at h) (h_excluded h) (h_excluded_until h)).

(** ... and [retry_count = retry_count + 1, visible_at = ...]. *)
Definition requeued (s : task_status) (visible : Z) (t : task) : task :=
  let h := t_hold t in
  with_hold t (mkHold s None None (h_started_at h) None (h_retry h + 1) (Some visible) (h_excluded h) (h_excluded_until h)).

(** ... and [started_at = NULL]. *)
Definition restarted (visible : Z) (t : task) : task :=
  let h := t_hold t in
  with_hold t (mkHold TQueued None None None None (h_retry h + 1) (Some visible) (h_excluded h) (h_excluded_until h)).

Definition FailTaskTx (now : Z) (taskID workerID : UUID) (attempt : Z) (class : string) (w : world) :
    res (FailOutcome * world) :=
  refuse errNotOwner if attempt <? 0;
  match w_tasks w !! taskID with
  | None => Err errNotFound
  | Some t =>
      refuse errNotOwner if negb (bool_decide (t_claimed_by t = Some workerID));
      refuse errNotOwner if negb (t_retry t =? attempt);
      if negb (in_status [TRunning; TQueued; TRetrying] t) then Ok (FailNoop, w)
      else if negb (retryable class) || (maxTaskRetries <=? t_retry t) then
        w1 ← store_row taskID t (released TFailed t) w;
        '(_, w2) ← failJobAndSettleOnce w1 (t_job t);
        Ok (FailTerminal, w2)
      else
        w1 ← store_row taskID t (requeued TRetrying (now + immediateFailBackoff) t) w;
        Ok (FailRequeued, w1)
  end.

(** ** Taking tasks back *)

(** The requeue of the verifier and of the no-peer watchdog.  It has no condition on the
    status or the attempt of the row. *)
Definition excluded_row (now : Z) (worker : option UUID) (backoff : Z) (t : task) : task :=
  let h := t_hold t in
  with_hold t (mkHold TRetrying None None (h_started_at h) None (h_retry h + 1) (Some (now + backoff)) worker
                 (Some (now + backoff + requeueExclusionGrace))).

Definition RequeueTask (now : Z) (taskID : UUID) (w : world) : res world :=
  match w_tasks w !! taskID with
  | None => Err errNotFound
  | Some t =>
      let failedWorker := match h_worker (t_hold t) with Some x => Some x | None => t_claimed_by t end in
      w1 ← store_row taskID t (excluded_row now failedWorker (requeueBackoff (t_retry t)) t) w;
      '(_, w2) ← update_job_status w1 (t_job t) ["verifying"] "running";
      Ok w2
  end.

(** The part of [AdminForceRequeueTask] behind its audit: by hand, within the retry limit. *)
Definition errNotRequeueable : error := Sentinel "errNotRequeueable".

Definition AdminForceRequeueTask (now : Z) (taskID : UUID) (retryLimit : Z) (w : world) : res world :=
  match w_tasks w !! taskID with
  | None => Err errNotFound
  | Some t =>
      refuse errNotRequeueable if negb (in_status [TRunning; TRetrying] t);
      refuse (Errorf "task retry limit %d reached") if retryLimit <=? t_retry t;
      store_row taskID t (requeued TQueued now t) w
  end.

Definition RequeueStaleTask (now : Z) (taskID : UUID) (backoff : Z) (w : world) : res world :=
  match w_tasks w !! taskID with
  | Some t =>
      if in_status [TRunning] t && job_is_live w (t_job t) then
        w1 ← store_row taskID t (requeued TQueued (now + backoff) t) w;
        '(_, w2) ← update_job_status w1 (t_job t) ["verifying"] "running";
        Ok w2
      else Ok w
  | None => Ok w
  end.

Definition FailTaskAndSettleJob (taskID jobID : UUID) (w : world) : res world :=
  '(hit, w1) ← update_task w taskID (λ t, bool_decide (t_job t = jobID) && in_status [TRunning] t) (released TFailed);
  if negb hit then Ok w
  else '(_, w2) ← failJobAndSettleOnce w1 jobID; Ok w2.

Definition RescueRunningTask (now : Z) (taskID : UUID) (backoff : Z) (w : world) : res (bool * world) :=
  update_task w taskID (in_status [TRunning]) (restarted (now + backoff)).

Definition set_strikes (v : Z) (jx : jobx) : jobx :=
  mkJobx (jx_task_count jx) (jx_tasks_done jx) (jx_max_micros jx) (jx_firm_micros jx) (jx_charge_status jx)
    v (jx_tier jx) (jx_budget_state jx) (jx_placement jx) (jx_actual_micros jx) (jx_plan jx) (jx_reserve jx).

Definition delayed_row (visible : Z) (t : task) : task :=
  let h := t_hold t in
  with_hold t (mkHold (h_status h) (h_claimed_by h) (h_claimed_at h) (h_started_at h) (h_worker h) (h_retry h)
                 (Some visible) (h_excluded h) (h_excluded_until h)).

Definition RescueStuckJob (now : Z) (jobID : UUID) (backoff : Z) (w : world) : res (bool * world) :=
  match job_row w jobID, w_jobs w !! jobID with
  | Some j, Some jx =>
      if bool_decide (job_status j = "running") && (jx_strikes jx =? 0) then
        let w1 := update_jobx w jobID (set_strikes 1) in
        w2 ← update_tasks w1 (λ _ t, bool_decide (t_job t = jobID) && in_status [TRunning; TRetrying] t)
               (restarted (now + backoff));
        w3 ← update_tasks w2 (λ _ t, bool_decide (t_job t = jobID) && in_status [TQueued] t &&
                                     match h_visible_at (t_hold t) with Some v => v <? now + backoff | None => false end)
               (delayed_row (now + backoff));
        Ok (true, w3)
      else Ok (false, w)
  | _, _ => Ok (false, w)
  end.

(** ** Ending a job *)

Definition cancelled_row (t : task) : task :=
  let h := t_hold t in
  with_hold t (mkHold TCancelled (h_claimed_by h) (h_claimed_at h) (h_started_at h) (h_worker h) (h_retry h)
                 (h_visible_at h) (h_excluded h) (h_excluded_until h)).

Definition failed_row (t : task) : task :=
  let h := t_hold t in
  with_hold t (mkHold TFailed (h_claimed_by h) (h_claimed_at h) (h_started_at h) (h_worker h) (h_retry h)
                 (h_visible_at h) (h_excluded h) (h_excluded_until h)).

Definition CancelStuckJob (jobID : UUID) (w : world) : res (bool * world) :=
  match jobTerminalTransitionStateTx w jobID with
  | Err err => Err err
  | Ok (status, pending) =>
      if negb (bool_decide (status = "running")) || pending then Ok (false, w)
      else
        '(_, w1) ← update_job_status w jobID ["running"] "cancelled";
        w2 ← update_tasks w1 (λ _ t, bool_decide (t_job t = jobID) &&
                                     negb (in_status [TComplete; TFailed; TCancelled] t)) cancelled_row;
        Ok (true, w2)
  end.

Definition errJobNotCancellable : error := Sentinel "errJobNotCancellable".

Definition CancelJob (jobID buyerID : UUID) (w : world) : res world :=
  match job_row w jobID with
  | Some j =>
      refuse errNotFound if negb (bool_decide (job_buyer j = buyerID));
      if bool_decide (job_status j = "cancelled") then Ok w
      else
        refuse errJobNotCancellable if negb (bool_decide (job_status j = "queued")) || verification_pending w jobID;
        '(_, w1) ← update_job_status w jobID ["queued"] "cancelled";
        update_tasks w1 (λ _ t, bool_decide (t_job t = jobID) && in_status [TQueued] t) failed_row
  | None => Err errNotFound
  end.

(** The janitor of terminal jobs. *)
Definition DetachUnfinishedTasksForTerminalJob (jobID : UUID) (w : world) : res world :=
  match job_row w jobID with
  | Some j =>
      let detach s := update_tasks w (λ _ t, bool_decide (t_job t = jobID) &&
                                             in_status [TQueued; TRetrying; TRunning] t) (released s) in
      if bool_decide (job_status j = "cancelled") then detach TCancelled
      else if one_of (job_status j) ["failed"; "complete"] then detach TFailed
      else Ok w
  | None => Ok w
  end.

Definition errJobNotFinalizable : error := Sentinel "ErrJobNotFinalizable".

Definition finalizable (w : world) (jobID : UUID) : bool :=
  match w_jobs w !! jobID with Some jx => 0 <? jx_task_count jx | None => false end &&
  negb (some_task w jobID (λ t, negb (in_status [TComplete; TFailed] t))) &&
  some_task w jobID (in_status [TComplete]).

(** [actual_usd] of a finished job: its tasks' charges and its SLA premium. *)
Definition settled_micros (w : world) (jobID : UUID) : Z :=
  - sum_micros (λ r, bool_decide (kind r = KindBuyerCharge) &&
                     (of_job (books w) jobID r || bool_decide (payout_ref r = Some (slaPremiumChargeRef jobID))))
      (ledger (books w)).

(** [reserve] is what accruing the modelled risk reserve answered. *)
Definition completeJobEconomics (jobID : UUID) (reserve : db → res db) (w : world) : res world :=
  match job_row w jobID with
  | None => Err errNotFound
  | Some j =>
      w1 ← (if bool_decide (job_status j = "complete") then Ok w
            else
              refuse (Wrapf errJobNotFinalizable "%w: job %s is %s")
                if negb (one_of (job_status j) ["running"; "verifying"]);
              refuse (Wrapf errJobNotFinalizable "%w: job %s changed after finalizable selection")
                if negb (finalizable w jobID);
              '(_, w1) ← update_job_status w jobID ["running"; "verifying"] "complete";
              Ok w1);
      '(n, d) ← insertJobSLAPremiumChargeTx st (books w1) jobID (slaPremiumChargeRef jobID);
      let w2 := with_books w1 d in
      p ← (if prepaid_required j && (n =? 1) then
             match plans d !! jobID with
             | Some pl => debitPrepaidForSLAPremiumTx st (w_purse w2) (job_buyer j) jobID (sla_premium_micros pl)
             | None => Err errNoRows
             end
           else Ok (w_purse w2));
      let w3 := with_purse w2 p in
      let w4 := update_jobx w3 jobID (set_actual (settled_micros w3 jobID)) in
      d ← reserve (books w4);
      Ok (with_books w4 d)
  end.

(** ** Hedges and third opinions *)

Definition errEconomicReserveExhausted : error := Sentinel "ErrEconomicReserveExhausted".
Definition errNoSupply : error := Sentinel "ErrNoSupply".

Definition set_reserve (r : Z * Z) (jx : jobx) : jobx :=
  mkJobx (jx_task_count jx) (jx_tasks_done jx) (jx_max_micros jx) (jx_firm_micros jx) (jx_charge_status jx)
    (jx_strikes jx) (jx_tier jx) (jx_budget_state jx) (jx_placement jx) (jx_actual_micros jx) (jx_plan jx) (Some r).

Definition set_task_count (n : Z) (jx : jobx) : jobx :=
  mkJobx n (jx_tasks_done jx) (jx_max_micros jx) (jx_firm_micros jx) (jx_charge_status jx)
    (jx_strikes jx) (jx_tier jx) (jx_budget_state jx) (jx_placement jx) (jx_actual_micros jx) (jx_plan jx) (jx_reserve jx).

Definition reserve_of (w : world) (jobID : UUID) : option (Z * Z) := w_jobs w !! jobID ≫= jx_reserve.

(** One unit of the reserve, while the job is live, not yet charged, and the whole
    exposure with one task more stays within the cap and the firm quote; it returns the
    price of that task. *)
Definition consumeEconomicReserveTx (w : world) (jobID : UUID) : res (frozenTaskEconomics * world) :=
  match w_jobs w !! jobID, job_row w jobID, plans (books w) !! jobID with
  | Some jx, Some j, Some pl =>
      match jx_reserve jx, jx_plan jx with
      | Some (reserved, consumed), Some ep =>
          let exposure := ep_charge_micros ep * (ep_initial ep + consumed + 1) + sla_premium_micros pl in
          let within cap := match cap with None => true | Some c => exposure <=? c end in
          refuse errEconomicReserveExhausted
            if negb ((consumed <? reserved) && one_of (job_status j) live_statuses &&
                     bool_decide (jx_charge_status jx = "not_attempted") &&
                     within (jx_max_micros jx) && within (jx_firm_micros jx));
          Ok (ep_price ep, update_jobx w jobID (set_reserve (reserved, consumed + 1)))
      | _, _ => Err errEconomicReserveExhausted
      end
  | _, _, _ => Err errEconomicReserveExhausted
  end.

Definition existingTiebreakTaskTx (w : world) (jobID : UUID) (chunk : Z) : option UUID :=
  head (select_due (λ t, of_chunk jobID chunk t && third_opinion t) (λ t, b_created_at (t_birth t)) 1 (w_tasks w)).

Definition existingHedgeTaskTx (w : world) (jobID primary : UUID) : option UUID :=
  head (select_due (λ t, bool_decide (t_job t = jobID) && bool_decide (t_hedged_from t = Some primary) &&
                         negb (t_redundancy t)) (λ t, b_created_at (t_birth t)) 1 (w_tasks w)).

(** [dynamicPeerClaimEligibleTx]: the last check before a task is born pinned to [peer]. *)
Definition dynamicPeerClaimEligibleTx (now : Z) (w : world) (jobID anchor peer : UUID) : bool :=
  match job_row w jobID, w_jobs w !! jobID, w_tasks w !! anchor, w_workers w !! peer with
  | Some j, Some jx, Some a, Some k =>
      bool_decide (t_job a = jobID) && one_of (job_status j) live_statuses &&
      match wk_last_seen k with Some seen => now - 60 * second <? seen | None => false end &&
      match w_suppliers w !! wk_supplier k with Some s => bool_decide (sp_status s = "active") | None => false end &&
      negb (wk_throttled k) && independent w jobID (t_chunk a) None peer (wk_supplier k) &&
      ((placement_version jx <? 3) ||
       ((placement_version jx =? 3) && placed_on jx k &&
        match t_exec a with Some e => bool_decide (ex_machine e = wk_machine k) | None => false end)) &&
      supply jobID peer
  | _, _, _, _ => false
  end.

Definition errHeterogeneousTaskEconomicsUnavailable : error := Sentinel "errHeterogeneousTaskEconomicsUnavailable".

(** Under the uniform policy a new task is an exact clone of its anchor, and takes the
    anchor's price. *)
Definition currentUniformCloneTaskEconomics (w : world) (jobID anchor : UUID) (inputRef : string) (chunk : Z) :
    res (option frozenTaskEconomics) :=
  match w_tasks w !! anchor, w_jobs w !! jobID with
  | Some a, Some jx =>
      refuse errNoRows if negb (bool_decide (t_job a = jobID));
      match jx_plan jx with
      | Some ep =>
          if negb (ep_uniform ep) then Ok None
          else
            let price := b_price (t_birth a) in
            let plan := ep_price ep in
            refuse (Wrapf errHeterogeneousTaskEconomicsUnavailable "%w: dynamic task input/chunk %q/%d does not match anchor")
              if negb (bool_decide (inputRef = b_input_ref (t_birth a))) || negb (chunk =? t_chunk a);
            refuse (Wrapf errHeterogeneousTaskEconomicsUnavailable "%w: dynamic task anchor lacks the frozen whole-input digest")
              if negb (b_whole_input (t_birth a));
            refuse (Errorf "anchor task %s float money does not match the uniform plan")
              if negb (fz_charge price =? fz_charge plan) || negb (fz_payout price =? fz_payout plan);
            _ ← assertTaskEconomicNanosMatchPlan (fz_charge_nanos price) (fz_payout_nanos price)
                  (mkEconomicPlan no_schedule (ep_initial ep) (default 0 (fz_charge_nanos plan)) (default 0 (fz_payout_nanos plan)));
            Ok (Some price)
      | None => Ok None
      end
  | _, _ => Err errNoRows
  end.

(** A task born for a chunk: never claimed and never executed, possibly pinned, with the
    given price and the anchor's input. *)
Definition born (now jobID_chunk : Z) (jobID id : UUID) (redundancy : bool) (from : UUID) (anchor : task) (inputRef : string)
    (price : frozenTaskEconomics) (class : option machine) (pin : option UUID) : task :=
  mkTask (mkBirth jobID jobID_chunk redundancy false (Some from) inputRef class now price (b_expected (t_birth anchor))
            (b_whole_input (t_birth anchor)))
    (mkHold TQueued pin (match pin with Some _ => Some now | None => None end) None None 0 (Some now) None None)
    None
    (mkOutcome (taskAttemptResultKey jobID id 0) "" "" None None None).

Definition InsertHedgeTask (now : Z) (id jobID primary peer : UUID) (inputRef : string) (chunk : Z) (w : world) :
    res (UUID * world) :=
  refuse errNoSupply if bool_decide (w_workers w !! peer = None);
  match reserve_of w jobID, existingHedgeTaskTx w jobID primary with
  | _, Some existing => Ok (existing, w)
  | None, None => Err errEconomicReserveExhausted
  | Some _, None =>
      match w_tasks w !! primary with
      | Some p =>
          refuse errEconomicReserveExhausted
            if negb (bool_decide (t_job p = jobID)) || t_redundancy p || negb (in_status [TRunning; TVerifying] p);
          refuse errEconomicReserveExhausted if negb (job_is_live w jobID);
          clone ← currentUniformCloneTaskEconomics w jobID primary inputRef chunk;
          refuse errNoSupply if negb (dynamicPeerClaimEligibleTx now w jobID primary peer);
          '(frozen, w1) ← consumeEconomicReserveTx w jobID;
          w2 ← insert_task w1 id (born now chunk jobID id false primary p inputRef (default frozen clone) None (Some peer));
          Ok (id, w2)
      | None => Err errEconomicReserveExhausted
      end
  end.

(** [task_count] grows and a verifying job runs again. *)
Definition count_new_task (w : world) (jobID : UUID) : res world :=
  refuse errEconomicReserveExhausted if negb (job_is_live w jobID);
  let w1 := update_jobx w jobID (λ jx, set_task_count (jx_task_count jx + 1) jx) in
  '(_, w2) ← update_job_status w1 jobID ["verifying"] "running";
  Ok w2.

Definition InsertTiebreakTask (now : Z) (id jobID primary peer : UUID) (inputRef : string) (chunk : Z)
    (class : res machine) (w : world) : res (UUID * world) :=
  refuse errNoSupply if bool_decide (w_workers w !! peer = None);
  match reserve_of w jobID, existingTiebreakTaskTx w jobID chunk with
  | _, Some existing => Ok (existing, w)
  | None, None => Err errEconomicReserveExhausted
  | Some _, None =>
      match w_tasks w !! primary with
      | Some p =>
          refuse errEconomicReserveExhausted if negb (bool_decide (t_job p = jobID));
          refuse errEconomicReserveExhausted if negb (job_is_live w jobID);
          clone ← currentUniformCloneTaskEconomics w jobID primary inputRef chunk;
          refuse errNoSupply if negb (dynamicPeerClaimEligibleTx now w jobID primary peer);
          '(frozen, w1) ← consumeEconomicReserveTx w jobID;
          class ← class;
          w2 ← insert_task w1 id (born now chunk jobID id true primary p inputRef (default frozen clone) (Some class) (Some peer));
          w3 ← count_new_task w2 jobID;
          Ok (id, w3)
      | None => Err errEconomicReserveExhausted
      end
  end.

(** A third opinion whose worker did not start goes to another one. *)
Definition repinned_row (now : Z) (peer : UUID) (t : task) : task :=
  let h := t_hold t in
  with_hold t (mkHold (h_status h) (Some peer) (Some now) (h_started_at h) None (h_retry h) (Some now)
                 (h_excluded h) (h_excluded_until h)).

Definition ReassignPinnedTiebreak (now : Z) (taskID jobID anchor pinned : UUID) (claimedAt : Z) (peer : UUID)
    (olderThan : Z) (w : world) : res (bool * world) :=
  refuse (Errorf "pinned tiebreak reassignment requires peer and positive age")
    if bool_decide (peer = uuid_Nil) || (olderThan <=? 0);
  refuse errNoSupply if bool_decide (w_workers w !! peer = None);
  match w_tasks w !! taskID with
  | Some t =>
      if bool_decide (t_job t = jobID) && in_status [TQueued; TRetrying] t && t_redundancy t &&
         bool_decide (t_hedged_from t = Some anchor) && bool_decide (t_claimed_by t = Some pinned) &&
         bool_decide (h_claimed_at (t_hold t) = Some claimedAt) && bool_decide (h_started_at (t_hold t) = None) &&
         (claimedAt <? now - olderThan)
      then
        parent ← job_status_of w jobID;
        if negb (one_of parent ["running"; "verifying"]) then Ok (false, w)
        else
          refuse errNoSupply if bool_decide (peer = pinned);
          refuse errNoSupply if negb (tiebreakPeerClaimEligibleTx now w taskID jobID peer);
          w1 ← store_row taskID t (repinned_row now peer t) w;
          '(_, w2) ← update_job_status w1 jobID ["verifying"] "running";
          Ok (true, w2)
      else Ok (false, w)
  | None => Ok (false, w)
  end.

(** ** Sweeps *)

(** Oldest claim first. *)
Definition claimed_key (t : task) : Z := default 0 (h_claimed_at (t_hold t)).

Definition StaleRunningTasks (now timeout limit : Z) (w : world) : list UUID :=
  select_due (λ t, in_status [TRunning] t &&
                   match h_claimed_at (t_hold t) with Some c => c <? now - timeout | None => false end &&
                   match job_row w (t_job t) with Some j => negb (one_of (job_status j) terminal_statuses) | None => false end)
    claimed_key limit (w_tasks w).

(** *** Which tasks are hedged *)

Definition started_key (t : task) : Z := default 0 (h_started_at (t_hold t)).

Definition is_hedge (t : task) : bool := bool_decide (t_hedged_from t ≠ None) && negb (t_redundancy t).

Definition chunk_hedged (w : world) (t : task) : bool :=
  some_task w (t_job t) (λ h, (t_chunk h =? t_chunk t) && is_hedge h && negb (in_status [TFailed; TCancelled] h)).

Definition hedges_in_flight (w : world) (jobID : UUID) : Z :=
  Z.of_nat (size (job_tasks w jobID (λ h, is_hedge h && in_status [TQueued; TRunning] h))).

(** What both queries ask of a task. *)
Definition hedgeable (maxInFlight : Z) (w : world) (t : task) : bool :=
  in_status [TRunning] t && negb (b_honeypot (t_birth t)) && negb (t_redundancy t) &&
  bool_decide (t_hedged_from t = None) &&
  match job_row w (t_job t) with Some j => bool_decide (job_status j = "running") | None => false end &&
  negb (chunk_hedged w t) && (hedges_in_flight w (t_job t) <? maxInFlight).

Definition throttled_worker (w : world) (t : task) : bool :=
  match h_worker (t_hold t) ≫= λ k, w_workers w !! k with Some k => wk_throttled k | None => false end.

Definition StragglerTasks (now after throttledAfter maxInFlight limit : Z) (w : world) : list UUID :=
  select_due (λ t, hedgeable maxInFlight w t &&
                   match h_started_at (t_hold t) with
                   | Some s => (s <? now - after) || (throttled_worker w t && (s <? now - throttledAfter))
                   | None => false
                   end) started_key limit (w_tasks w).

(** The tail of a job: nothing is left to hand out. *)
Definition EndgameTailTasks (now minRun maxInFlight limit : Z) (w : world) : list UUID :=
  select_due (λ t, hedgeable maxInFlight w t &&
                   match h_started_at (t_hold t) with Some s => s <? now - minRun | None => false end &&
                   negb (some_task w (t_job t) (λ q, in_status [TQueued; TRetrying] q && bool_decide (t_claimed_by q = None))))
    started_key limit (w_tasks w).

(** One stale task, as it was when the sweep selected it: out of retries its job fails,
    otherwise it goes back to the queue. *)
Definition reap_stale (now retryLimit : Z) (id jobID : UUID) (retryCount : Z) (w : world) : res world :=
  if retryLimit <=? retryCount then
    match FailTaskAndSettleJob id jobID w with
    | Ok w1 => match DetachUnfinishedTasksForTerminalJob jobID w1 with Ok w2 => Ok w2 | Err _ => Ok w1 end
    | Err err => if errors_Is err errJobVerificationPending then Ok w else Err err
    end
  else RequeueStaleTask now id (wrap64 (Z.shiftl staleBackoff (Z.min retryCount 4))) w.

Fixpoint reap_all (now retryLimit : Z) (stale : list (UUID * task)) (w : world) : res world :=
  match stale with
  | [] => Ok w
  | (id, t) :: rest => w ← reap_stale now retryLimit id (t_job t) (t_retry t) w; reap_all now retryLimit rest w
  end.

Definition rows_of (m : gmap UUID task) (ids : list UUID) : list (UUID * task) :=
  omap (λ id, (λ t, (id, t)) <$> m !! id) ids.

Definition requeueStaleTasks (now retryLimit : Z) (w : world) : res world :=
  reap_all now retryLimit (rows_of (w_tasks w) (StaleRunningTasks now staleTaskTimeout sweep_limit w)) w.

End Operations.
