(* ===== verification/Verification.v ===== *)
(** * Verification: leases on committed results, and applying a verdict

    A commit leaves one unit of verification work per task and attempt.  A processor
    leases it ([verification_work.go]), pins what it sampled and which bytes it read,
    records one plan — decision, effects, settlement rows — ([verification_work_plan.go]),
    and applies the plan in one transaction ([verification_apply.go]): verdict, task and
    job transitions, ledger rows, the prepaid debit, reputation, clawbacks, third
    opinions and the chunk's winning artifact.  This file models those operations on the
    tables of [TaskStore].

    JSON encodings are arguments: [marshal] of a decision with its settlement, and
    [effect_uuid], the identifier derived from an effect's content.  The frozen documents
    that price the observed output of a task are the argument [docs] (see
    [ObservedOutput]), whether a credit's payout has an unknown outcome the argument
    [unknown_outcome].
    [MarkVerificationWorkTerminal] (work the processor gives up) and the lifecycle guard
    on payout statuses are left out.  The rule that reads a disputed chunk and proposes
    the decision is not modelled: any plan the checks admit can be applied. *)
From stdpp Require Import base numbers list gmap strings pretty sorting.
From Stdlib Require Import SpecFloat.
From S2P Require Import Prelude.
From S2P Require Import Float64.
From S2P Require Import Sha256.
From S2P Require Import Currency.
From S2P Require Import LedgerWrite.
From S2P Require Import Purse.
From S2P Require Import ObservedOutput.
From S2P Require Import TaskStore.
Local Open Scope Z_scope.
Local Open Scope go_scope.

(** ** Outcomes and events *)

Definition OutcomePass : string := "pass".
Definition OutcomeFail : string := "fail".
Definition OutcomePassWithPenalty : string := "pass_with_penalty".
Definition OutcomeLossNoPayout : string := "loss_no_payout".

Definition payable (outcome : string) : bool := one_of outcome [OutcomePass; OutcomePassWithPenalty].
Definition supported_outcome (outcome : string) : bool :=
  one_of outcome [OutcomePass; OutcomePassWithPenalty; OutcomeLossNoPayout; OutcomeFail].

Definition verificationReputationEventAllowed (event : string) : bool :=
  one_of event ["task_success"; "honeypot_pass"; "redundancy_match"; "mismatch"; "honeypot_fail"; "timeout";
                "result_corrupt"; "artifact_oversize"].

Definition verificationEventKindAllowed (k : string) : bool :=
  one_of k ["honeypot_pass"; "honeypot_fail"; "redundancy_match"; "redundancy_mismatch"; "redundancy_cross_class";
            "redundancy_same_supplier"; "tiebreak_win"; "tiebreak_loss"; "tiebreak_cross_class"; "artifact_invalid";
            "artifact_oversize"; "artifact_unavailable"].

(** ** Reputation ([reputation.go]), in binary32 *)

Definition f32_of_Z (n : Z) : spec_float := binary_normalize 24 128 n 0 false.
Definition f32_lit (n d : Z) : spec_float := SFdiv 24 128 (f32_of_Z n) (f32_of_Z d).

Definition reputationDelta (event : string) : spec_float :=
  if bool_decide (event = "task_success") then f32_lit 1 1000
  else if bool_decide (event = "honeypot_pass") then f32_lit 2 1000
  else if bool_decide (event = "redundancy_match") then f32_lit 1 1000
  else if bool_decide (event = "mismatch") then f32_lit (-100) 1000
  else if bool_decide (event = "honeypot_fail") then f32_lit (-150) 1000
  else if bool_decide (event = "timeout") then f32_lit (-20) 1000
  else if bool_decide (event = "thermal_throttle") then f32_lit (-5) 1000
  else if one_of event ["result_corrupt"; "artifact_oversize"] then f32_lit (-200) 1000
  else if bool_decide (event = "spoofing_detected") then f32_of_Z (-1)
  else f32_of_Z 0.

Definition updateReputation (current : spec_float) (event : string) : spec_float :=
  let v := SFadd 24 128 current (reputationDelta event) in
  if SFltb v (f32_of_Z 0) then f32_of_Z 0
  else if SFltb (f32_of_Z 1) v then f32_of_Z 1
  else v.

Definition quarantineRepFloor : spec_float := f32_lit 2 10.

Definition dockReputationTx (now : Z) (w : world) (supplierID : UUID) (event : string) : res world :=
  match w_suppliers w !! supplierID with
  | None => Err errNotFound
  | Some s =>
      let next := updateReputation (sp_reputation s) event in
      let s' :=
        if SFleb next (f32_of_Z 0) then mkSupplier (f32_of_Z 0) "banned" (sp_completed s) (sp_quarantined_at s)
        else if SFltb next quarantineRepFloor then
          if bool_decide (sp_status s = "active") then mkSupplier next "suspended" (sp_completed s) (Some now)
          else mkSupplier next (sp_status s) (sp_completed s) (sp_quarantined_at s)
        else mkSupplier next (sp_status s) (sp_completed s) (sp_quarantined_at s) in
      Ok (with_suppliers w (<[supplierID := s']> (w_suppliers w)))
  end.

Definition quarantineTx (now : Z) (w : world) (supplierID : UUID) : world :=
  with_suppliers w (alter (λ s,
    if bool_decide (sp_status s = "banned") then s
    else mkSupplier (sp_reputation s) "suspended" (sp_completed s)
           (match sp_quarantined_at s with Some q => Some q | None => Some now end)) supplierID (w_suppliers w)).

(** ** Leases on verification work *)

Definition errVerificationLeaseLost : error := Sentinel "ErrVerificationLeaseLost".
Definition errVerificationWorkBusy : error := Sentinel "ErrVerificationWorkBusy".
Definition errVerificationWorkTerminal : error := Sentinel "ErrVerificationWorkTerminal".
Definition errVerificationArtifactMissing : error := Sentinel "ErrVerificationArtifactMissing".
Definition errVerificationReplayConflict : error := Sentinel "ErrVerificationReplayConflict".

Record VerificationLease := mkVLease { vl_work : UUID; vl_owner : string; vl_token : UUID }.

Definition normalizeVerificationLease (l : VerificationLease) : res unit :=
  refuse errVerificationLeaseLost
    if bool_decide (vl_work l = uuid_Nil) || bool_decide (vl_token l = uuid_Nil) ||
       bool_decide (trim_space (vl_owner l) = "");
  Ok tt.

(** [status='leased' AND lease_owner=$2 AND lease_token=$3 AND lease_expires_at>now()]. *)
Definition holds_lease (now : Z) (owner : string) (token : UUID) (v : vwork) : bool :=
  bool_decide (vw_status v = WLeased) &&
  match vw_lease v with
  | Some c => bool_decide (ls_owner c = owner) && bool_decide (ls_token c = token) && (now <? ls_expires c)
  | None => false
  end.

Definition set_work (w : world) (id : UUID) (v : vwork) : world := with_work w (<[id := v]> (w_work w)).

(** Pending, or leased to a processor that let its lease expire. *)
Definition due_work (now : Z) (v : vwork) : bool :=
  match vw_status v with
  | WPending => true
  | WLeased => match vw_lease v with Some c => ls_expires c <=? now | None => false end
  | WTerminal => false
  end.

Definition leased_row (now : Z) (owner : string) (token : UUID) (lease : Z) (v : vwork) : vwork :=
  mkVwork (vw_snapshot v) WLeased (vw_sampling v) (vw_artifact v) (Some (mkLeaseCols owner token (now + lease)))
    (vw_attempts v + 1) (vw_next_at v) (vw_terminal v) (vw_created_at v).

Definition ClaimVerificationWorkForAttempt (now : Z) (taskID : UUID) (attempt : Z) (owner : string) (lease : Z)
    (token : UUID) (w : world) : res (VerificationLease * world) :=
  let owner := trim_space owner in
  refuse (Errorf "verification attempt claim requires task, attempt, owner, and positive lease")
    if bool_decide (taskID = uuid_Nil) || (attempt <? 0) || bool_decide (owner = "") ||
       (200 <? Z.of_nat (String.length owner)) || (lease <=? 0);
  match work_for_attempt w taskID attempt with
  | None => Err errNoRows
  | Some (id, v) =>
      if due_work now v then Ok (mkVLease id owner token, set_work w id (leased_row now owner token lease v))
      else Err (if bool_decide (vw_status v = WTerminal) then errVerificationWorkTerminal else errVerificationWorkBusy)
  end.

(** The batch claim: the rows its query chose, with the tokens the database drew. *)
Fixpoint ClaimVerificationWork (now : Z) (owner : string) (lease : Z) (chosen : list (UUID * UUID)) (w : world) :
    list VerificationLease * world :=
  match chosen with
  | [] => ([], w)
  | (id, token) :: rest =>
      match w_work w !! id with
      | Some v =>
          if due_work now v && match vw_status v with WPending => vw_next_at v <=? now | _ => true end then
            let '(leases, w') := ClaimVerificationWork now owner lease rest
                                   (set_work w id (leased_row now (trim_space owner) token lease v)) in
            (mkVLease id (trim_space owner) token :: leases, w')
          else ClaimVerificationWork now owner lease rest w
      | None => ClaimVerificationWork now owner lease rest w
      end
  end.

Definition RenewVerificationLease (now : Z) (l : VerificationLease) (extension : Z) (w : world) : res world :=
  _ ← normalizeVerificationLease l;
  refuse (Errorf "verification lease renewal requires a positive extension") if extension <=? 0;
  match w_work w !! vl_work l with
  | Some v =>
      if holds_lease now (trim_space (vl_owner l)) (vl_token l) v then
        Ok (set_work w (vl_work l)
              (mkVwork (vw_snapshot v) WLeased (vw_sampling v) (vw_artifact v)
                 (Some (mkLeaseCols (trim_space (vl_owner l)) (vl_token l) (now + extension)))
                 (vw_attempts v) (vw_next_at v) (vw_terminal v) (vw_created_at v)))
      else Err errVerificationLeaseLost
  | None => Err errVerificationLeaseLost
  end.

Definition ReleaseVerificationWork (now : Z) (l : VerificationLease) (retryAt : Z) (w : world) : res world :=
  _ ← normalizeVerificationLease l;
  match w_work w !! vl_work l with
  | Some v =>
      if holds_lease now (trim_space (vl_owner l)) (vl_token l) v then
        Ok (set_work w (vl_work l)
              (mkVwork (vw_snapshot v) WPending (vw_sampling v) (vw_artifact v) None (vw_attempts v) retryAt
                 (vw_terminal v) (vw_created_at v)))
      else Err errVerificationLeaseLost
  | None => Err errVerificationLeaseLost
  end.

(** The sampling decision is pinned once. *)
Definition PinVerificationSampling (now : Z) (l : VerificationLease) (probability : string) (selected : bool) (w : world) :
    res (bool * world) :=
  _ ← normalizeVerificationLease l;
  match w_work w !! vl_work l with
  | Some v =>
      refuse errVerificationLeaseLost if negb (holds_lease now (trim_space (vl_owner l)) (vl_token l) v);
      match vw_sampling v with
      | None =>
          Ok (true, set_work w (vl_work l)
                (mkVwork (vw_snapshot v) (vw_status v) (Some (probability, selected)) (vw_artifact v) (vw_lease v)
                   (vw_attempts v) (vw_next_at v) (vw_terminal v) (vw_created_at v)))
      | Some s => refuse errVerificationWorkConflict if negb (bool_decide (s = (probability, selected))); Ok (false, w)
      end
  | None => Err errVerificationLeaseLost
  end.

(** The sealed bytes are pinned once, on the work and on the task in the same
    transaction. *)
Definition sealed_row (a : artifact) (t : task) : task :=
  mkTask (t_birth t) (t_hold t) (t_exec t)
    (mkOutcome (o_result_key (t_out t)) (af_key a) (af_sha a) (o_reported (t_out t)) (o_outcome (t_out t))
       (o_completed_at (t_out t))).

Definition PinVerificationArtifact (now : Z) (l : VerificationLease) (a : artifact) (w : world) : res (bool * world) :=
  _ ← normalizeVerificationLease l;
  let key := trim_space (af_key a) in
  refuse (Errorf "verification artifact requires key and non-negative byte count")
    if bool_decide (key = "") || (af_bytes a <? 0);
  sha ← (match normalizeVerificationSHA (af_sha a) false with
         | Err err => Err (Wrapf err "artifact %w")
         | Ok sha => Ok sha
         end);
  let a := mkArtifact key sha (af_bytes a) in
  match w_work w !! vl_work l with
  | Some v =>
      refuse errVerificationLeaseLost if negb (holds_lease now (trim_space (vl_owner l)) (vl_token l) v);
      match vw_artifact v with
      | None =>
          let w1 := set_work w (vl_work l)
                      (mkVwork (vw_snapshot v) (vw_status v) (vw_sampling v) (Some a) (vw_lease v) (vw_attempts v)
                         (vw_next_at v) (vw_terminal v) (vw_created_at v)) in
          '(hit, w2) ← update_task w1 (sn_task (vw_snapshot v))
             (λ t, in_status [TVerifying] t && (t_retry t =? sn_attempt (vw_snapshot v))) (sealed_row a);
          refuse errVerificationWorkConflict if negb hit;
          Ok (true, w2)
      | Some b =>
          refuse errVerificationWorkConflict if negb (bool_decide (a = b));
          match w_tasks w !! sn_task (vw_snapshot v) with
          | Some t =>
              refuse errVerificationWorkConflict
                if negb (bool_decide (o_result_ref (t_out t) = af_key a)) ||
                   negb (bool_decide (o_result_sha (t_out t) = af_sha a));
              Ok (false, w)
          | None => Err errNoRows
          end
      end
  | None => Err errVerificationLeaseLost
  end.

Definition terminal_row (outcome digest : string) (v : vwork) : vwork :=
  mkVwork (vw_snapshot v) WTerminal (vw_sampling v) (vw_artifact v) None (vw_attempts v) (vw_next_at v)
    (Some (outcome, digest)) (vw_created_at v).

(** The first plan of a chunk whose work is not terminal has the turn. *)
Definition OwnsVerificationChunkPlanTurn (w : world) (workID jobID : UUID) (chunk : Z) : bool :=
  let planned := omap (λ x : UUID * vplan,
                         v ← w_work w !! x.1;
                         if bool_decide (sn_job (vw_snapshot v) = jobID) && negb (bool_decide (vw_status v = WTerminal)) &&
                            match w_tasks w !! sn_task (vw_snapshot v) with Some t => t_chunk t =? chunk | None => false end
                         then Some (x.1, vp_created_at x.2) else None) (map_to_list (w_plans w)) in
  match head (merge_sort (due_before (λ z : Z, z)) planned) with
  | None => true
  | Some (owner, _) => bool_decide (owner = workID)
  end.

(** ** Settlement rows as a plan stores them *)

(** What [%.6f] prints: the sign and the exact value rounded to six places, halves to
    even; a value that is not finite is itself. *)
Inductive printed6 := P6 (neg : bool) (micros : Z) | PSpecial (x : f64).

#[export] Instance spec_float_eq_dec : EqDecision spec_float.
Proof. solve_decision. Defined.

#[export] Instance printed6_eq_dec : EqDecision printed6.
Proof. solve_decision. Defined.

Definition fixed6 (x : f64) : printed6 :=
  match x with
  | S754_zero s => P6 s 0
  | S754_finite s m e =>
      if 0 <=? e then P6 s (Z.pos m * 2 ^ e * microUSDPerUSD)
      else
        let v := Z.pos m * microUSDPerUSD in
        let q := v / 2 ^ (- e) in
        let r := v mod 2 ^ (- e) in
        let up := (2 ^ (- e) <? 2 * r) || ((2 ^ (- e) =? 2 * r) && Z.odd q) in
        P6 s (if up then q + 1 else q)
  | _ => PSpecial x
  end.

(** [strconv.ParseFloat] of it, for fewer than 2^53 micros. *)
Definition parse6 (p : printed6) : f64 :=
  match p with
  | P6 false n => f64_div (f64_of_Z n) (f64_of_Z microUSDPerUSD)
  | P6 true n => SFopp (f64_div (f64_of_Z n) (f64_of_Z microUSDPerUSD))
  | PSpecial x => x
  end.

Record canonicalVerificationSettlement := mkCanonical {
  cs_kind : string;
  cs_supplier : option UUID;
  cs_buyer : option UUID;
  cs_task : option UUID;
  cs_amount : printed6;
  cs_currency : string;
  cs_payout_status : string;
  cs_release_at : option Z
}.

Definition canonical_row (e : LedgerEntry) : canonicalVerificationSettlement :=
  mkCanonical (le_Kind e) (le_SupplierID e) (le_BuyerID e) (le_TaskID e) (fixed6 (AmountUSD e)) (le_Currency e)
    (le_PayoutStatus e) (le_ReleaseAt e).

Definition cs_task_text (c : canonicalVerificationSettlement) : string :=
  match cs_task c with Some t => uuid_String t | None => "" end.

Definition settlement_before (a b : canonicalVerificationSettlement) : Prop :=
  String.ltb (cs_kind b) (cs_kind a) = false ∧
  (cs_kind a = cs_kind b → String.ltb (cs_task_text b) (cs_task_text a) = false).

#[export] Instance settlement_before_dec : RelDecision settlement_before.
Proof. intros a b. unfold settlement_before. apply _. Defined.

Definition canonicalVerificationSettlements (entries : list LedgerEntry) : list canonicalVerificationSettlement :=
  merge_sort settlement_before (map canonical_row entries).

Definition ledgerEntriesFromCanonical (rows : list canonicalVerificationSettlement) : list LedgerEntry :=
  map (λ c, mkLedgerEntry (cs_kind c) (cs_supplier c) (cs_buyer c) (cs_task c) (parse6 (cs_amount c)) (cs_currency c)
              (cs_payout_status c) (cs_release_at c) "" "" "") rows.

(** ** The attempt a plan is about *)

(** [CommitTaskInfo], as far as applying a plan reads it. *)
Record CommitTaskInfo := mkInfo {
  in_task : UUID;
  in_job : UUID;
  in_worker : UUID;
  in_supplier : UUID;
  in_attempt : Z;
  in_duration : Z;
  in_tokens : Z;
  in_honeypot : bool;
  in_redundancy : bool;
  in_input_ref : string;
  in_chunk : Z;
  in_machine : machine;
  in_job_type : string;
  in_result_key : string;
  in_result_sha : string
}.

Definition effect_id (e : effect) : UUID :=
  match e with
  | DockReputation id _ _ | RecordEvent id _ _ _ _ | ClawbackCredit id _ _ | Quarantine id _ | Requeue id _
  | InsertTiebreak id _ _ _ _ _ _ => id
  end.

Definition tiebreak_peer (e : effect) : option UUID :=
  match e with InsertTiebreak _ _ _ peer _ _ _ => Some peer | _ => None end.

Definition first_peer (d : decision) : option UUID := head (omap tiebreak_peer (dc_effects d)).

Section Apply.
Context (st : settlement) (supply : UUID → UUID → bool).
Context (marshal : decision → list canonicalVerificationSettlement → res string).
Context (effect_uuid : UUID → Z → nat → effect → UUID).
Context (unknown_outcome : UUID → bool).

Definition verificationDecisionDigest (d : decision) (entries : list LedgerEntry) : res string :=
  match marshal d (canonicalVerificationSettlements entries) with
  | Ok text => Ok (sha256_hex text)
  | Err err => Err (Wrapf err "marshal verification decision: %w")
  end.

(** *** The shape of a decision *)

Definition valid_failure_note (info : CommitTaskInfo) (d : decision) : bool :=
  match dc_failure d with
  | Some f =>
      bool_decide (dc_outcome d = OutcomeFail) && negb (bool_decide (fn_code f = "")) &&
      bool_decide (fn_job_type f = in_job_type info) &&
      one_of (fn_kind f) ["artifact_invalid"; "artifact_oversize"; "artifact_unavailable"]
  | None => true
  end.

Definition valid_effect (info : CommitTaskInfo) (e : effect) : bool :=
  match e with
  | DockReputation _ s ev => negb (bool_decide (s = uuid_Nil)) && verificationReputationEventAllowed ev
  | RecordEvent _ j t s ev =>
      bool_decide (j = in_job info) && negb (bool_decide (t = uuid_Nil)) && negb (bool_decide (s = uuid_Nil)) &&
      verificationEventKindAllowed ev
  | ClawbackCredit _ s t => negb (bool_decide (t = uuid_Nil)) && negb (bool_decide (s = uuid_Nil))
  | Quarantine _ s => bool_decide (s = in_supplier info)
  | Requeue _ t => bool_decide (t = in_task info)
  | InsertTiebreak id j t peer primary input chunk =>
      bool_decide (t = id) && bool_decide (j = in_job info) && bool_decide (primary = in_task info) &&
      negb (bool_decide (peer = uuid_Nil)) && bool_decide (input = in_input_ref info) && (chunk =? in_chunk info)
  end.

Fixpoint check_effects (info : CommitTaskInfo) (i : nat) (seen : list UUID) (es : list effect) : res unit :=
  match es with
  | [] => Ok tt
  | e :: rest =>
      refuse (Errorf "verification effect %d has non-canonical id %s (want %s)")
        if bool_decide (effect_id e = uuid_Nil) ||
           negb (bool_decide (effect_id e = effect_uuid (in_task info) (in_attempt info) i e));
      refuse (Errorf "duplicate verification effect id %s") if bool_decide (effect_id e ∈ seen);
      refuse (Errorf "invalid verification effect %+v") if negb (valid_effect info e);
      check_effects info (S i) (effect_id e :: seen) rest
  end.

Definition failure_event_seen (d : decision) : bool :=
  match dc_failure d with
  | Some f => existsb (λ e, match e with RecordEvent _ _ _ _ ev => bool_decide (ev = fn_kind f) | _ => false end) (dc_effects d)
  | None => true
  end.

Definition canonical_currency (s : string) : bool :=
  match ParseCurrency s with Ok c => bool_decide (s = code c) | Err _ => false end.

(** The entries are of the task and in one currency, each kind once. *)
Fixpoint check_entries (info : CommitTaskInfo) (currency : string) (seen : list string) (entries : list LedgerEntry) :
    res unit :=
  match entries with
  | [] => Ok tt
  | e :: rest =>
      refuse (Errorf "settlement %q is not bound to task %s") if negb (bool_decide (le_TaskID e = Some (in_task info)));
      refuse (Errorf "settlement %q has invalid currency authority")
        if negb (bool_decide (le_Currency e = "")) &&
           negb (canonical_currency (le_Currency e));
      refuse (Errorf "verification settlement mixes %s and %s")
        if negb (bool_decide (le_Currency e = "")) && negb (bool_decide (currency = "")) &&
           negb (bool_decide (currency = le_Currency e));
      refuse (Errorf "duplicate settlement kind %q") if bool_decide (le_Kind e ∈ seen);
      check_entries info (if bool_decide (le_Currency e = "") then currency else le_Currency e) (le_Kind e :: seen) rest
  end.

Definition entry_of (k : string) (entries : list LedgerEntry) : option LedgerEntry :=
  snd <$> list_find (λ e, le_Kind e = k) entries.

(** Charge, credit and take, with the parties, signs and statuses each of them has. *)
Definition three_rows (entries : list LedgerEntry) : bool :=
  match entry_of KindBuyerCharge entries, entry_of KindSupplierCredit entries, entry_of KindPlatformTake entries with
  | Some b, Some s, Some p =>
      bool_decide (le_BuyerID b ≠ None) && bool_decide (le_SupplierID b = None) &&
      bool_decide (le_SupplierID s ≠ None) && bool_decide (le_BuyerID s = None) &&
      bool_decide (le_SupplierID p = None) && bool_decide (le_BuyerID p = None) &&
      negb (f64_leb (f64_of_Z 0) (AmountUSD b)) && negb (f64_ltb (AmountUSD s) (f64_of_Z 0)) &&
      negb (f64_ltb (AmountUSD p) (f64_of_Z 0)) &&
      bool_decide (le_PayoutStatus b = PayoutReleased) && bool_decide (le_PayoutStatus p = PayoutReleased) &&
      bool_decide (le_PayoutStatus s = "held") && bool_decide (le_ReleaseAt s ≠ None)
  | _, _, _ => false
  end.

Definition validateVerificationDecisionShape (info : CommitTaskInfo) (d : decision) (entries : list LedgerEntry) : res unit :=
  refuse (Errorf "invalid typed verification failure %+v for outcome %q") if negb (valid_failure_note info d);
  _ ← check_effects info 0 [] (dc_effects d);
  refuse (Errorf "typed verification failure %q has no matching durable event") if negb (failure_event_seen d);
  if one_of (dc_outcome d) [OutcomeFail; OutcomeLossNoPayout] then
    refuse (Errorf "non-payable outcome %q has %d settlement entries") if negb (bool_decide (length entries = 0%nat));
    Ok tt
  else
    refuse (Errorf "payable outcome %q requires exactly three settlement entries, got %d")
      if negb (length entries =? 3)%nat;
    _ ← check_entries info "" [] entries;
    refuse (Errorf "invalid three-row verification settlement shape") if negb (three_rows entries);
    Ok tt.

(** *** Recording a plan *)

(** One plan per unit of work; a second writer gets the first one's plan or a conflict. *)
Definition PersistVerificationWorkPlan (now : Z) (l : VerificationLease) (info : CommitTaskInfo) (sampling : string * bool)
    (snapshot_sha : string) (a : artifact) (d : decision) (entries : list LedgerEntry) (w : world) :
    res (vplan * bool * world) :=
  _ ← normalizeVerificationLease l;
  _ ← validateVerificationDecisionShape info d entries;
  digest ← verificationDecisionDigest d entries;
  match w_plans w !! vl_work l with
  | Some p =>
      refuse errVerificationWorkConflict
        if negb (bool_decide (vp_snapshot_sha p = snapshot_sha)) || negb (bool_decide (vp_artifact p = a)) ||
           negb (bool_decide (vp_sampling p = sampling)) || negb (bool_decide (vp_digest p = digest));
      Ok (p, false, w)
  | None =>
      match w_work w !! vl_work l with
      | Some v =>
          refuse errVerificationLeaseLost
            if negb (holds_lease now (trim_space (vl_owner l)) (vl_token l) v) ||
               negb (bool_decide (vw_artifact v = Some a)) ||
               negb (bool_decide (snapshot_sha = sha256_hex (sn_input (vw_snapshot v))));
          let p := mkVplan snapshot_sha a sampling d
                     (ledgerEntriesFromCanonical (canonicalVerificationSettlements entries)) digest now in
          Ok (p, true, with_plans w (<[vl_work l := p]> (w_plans w)))
      | None => Err errVerificationLeaseLost
      end
  end.

(** *** Fences *)

Definition lockVerificationWorkFenceTx (now : Z) (info : CommitTaskInfo) (l : VerificationLease) (p : vplan) (w : world) :
    res unit :=
  _ ← normalizeVerificationLease l;
  match w_work w !! vl_work l, w_plans w !! vl_work l with
  | Some v, Some stored =>
      let s := vw_snapshot v in
      refuse errVerificationWorkConflict
        if negb (holds_lease now (vl_owner l) (vl_token l) v &&
                 bool_decide (sn_task s = in_task info) && (sn_attempt s =? in_attempt info) &&
                 bool_decide (sn_job s = in_job info) && bool_decide (sn_worker s = in_worker info) &&
                 bool_decide (sn_supplier s = in_supplier info) &&
                 bool_decide (sha256_hex (sn_input s) = vp_snapshot_sha p) &&
                 bool_decide (vp_digest stored = vp_digest p) &&
                 bool_decide (vw_artifact v = Some (vp_artifact p)) &&
                 bool_decide (vw_sampling v = Some (vp_sampling p)) &&
                 bool_decide (in_result_key info = af_key (vp_artifact p)) &&
                 bool_decide (in_result_sha info = af_sha (vp_artifact p)));
      Ok tt
  | _, _ => Err errVerificationLeaseLost
  end.

Definition terminalizeVerificationWorkTx (now : Z) (l : VerificationLease) (p : vplan) (outcome digest : string) (w : world) :
    res world :=
  match w_work w !! vl_work l with
  | Some v =>
      refuse errVerificationLeaseLost
        if negb (holds_lease now (vl_owner l) (vl_token l) v) || negb (bool_decide (vw_artifact v = Some (vp_artifact p)));
      Ok (set_work w (vl_work l) (terminal_row outcome digest v))
  | None => Err errVerificationLeaseLost
  end.

(** *** Verdicts *)

Definition verdict_row (info : CommitTaskInfo) (l : VerificationLease) (p : vplan) (outcome digest : string) : verdict :=
  mkVerdict (in_job info) (in_supplier info) outcome (in_result_sha info) digest (vl_work l) (af_key (vp_artifact p))
    (af_sha (vp_artifact p)).

Definition assertExactTaskVerdictTx (info : CommitTaskInfo) (l : VerificationLease) (p : vplan) (outcome digest : string)
    (w : world) : res unit :=
  match w_verdicts w !! (in_task info, in_attempt info) with
  | None => Err errNoRows
  | Some v =>
      refuse (Wrapf errVerificationReplayConflict "%w: durable verdict mismatch")
        if negb (bool_decide (v = verdict_row info l p outcome digest));
      Ok tt
  end.

Definition insertExactTaskVerdictTx (info : CommitTaskInfo) (l : VerificationLease) (p : vplan) (outcome digest : string)
    (w : world) : res world :=
  match w_verdicts w !! (in_task info, in_attempt info) with
  | None => Ok (with_verdicts w (<[(in_task info, in_attempt info) := verdict_row info l p outcome digest]> (w_verdicts w)))
  | Some _ =>
      match assertExactTaskVerdictTx info l p outcome digest w with
      | Err err => Err (Wrapf err "conflicting task verdict for %s attempt %d: %w")
      | Ok _ => Err (Errorf "task verdict for %s attempt %d already existed before terminal transition")
      end
  end.

(** *** Effects *)

(** The supplier that ran a task: of its current attempt's work, else of its execution. *)
Definition executed_by (w : world) (id : UUID) (t : task) : option UUID :=
  match work_for_attempt w id (t_retry t) with
  | Some (_, v) => Some (sn_supplier (vw_snapshot v))
  | None => ex_supplier <$> t_exec t
  end.

Definition validateVerificationEffectTargetTx (info : CommitTaskInfo) (e : effect) (w : world) : res unit :=
  match e with
  | DockReputation _ s _ =>
      if bool_decide (s = in_supplier info) then Ok tt
      else
        refuse (Errorf "supplier %s did not execute this chunk")
          if negb (existsb (λ x : UUID * task, of_chunk (in_job info) (in_chunk info) x.2 &&
                                               bool_decide (executed_by w x.1 x.2 = Some s)) (map_to_list (w_tasks w)));
        Ok tt
  | RecordEvent _ _ t s _ | ClawbackCredit _ s t =>
      match w_tasks w !! t with
      | None => Err errNoRows
      | Some row =>
          refuse (Errorf "effect target task %s is outside committing chunk/supplier")
            if negb (of_chunk (in_job info) (in_chunk info) row) || negb (bool_decide (executed_by w t row = Some s));
          Ok tt
      end
  | _ => Ok tt
  end.

Definition with_outcome (outcome : string) (t : task) : task :=
  let o := t_out t in
  mkTask (t_birth t) (t_hold t) (t_exec t)
    (mkOutcome (o_result_key o) (o_result_ref o) (o_result_sha o) (o_reported o) (Some outcome) (o_completed_at o)).

Definition promoteProvisionalWinnerTx (taskID : UUID) (w : world) : res world :=
  match w_tasks w !! taskID with
  | Some t =>
      if in_status [TComplete] t && bool_decide (o_outcome (t_out t) = Some OutcomePassWithPenalty)
      then store_row taskID t (with_outcome OutcomePass t) w
      else
        refuse (Errorf "cannot promote task %s from outcome %q")
          if negb (bool_decide (o_outcome (t_out t) = Some OutcomePass));
        Ok w
  | None => Err errNoRows
  end.

Definition is_credit_of (supplierID taskID : UUID) (r : row) : bool :=
  bool_decide (kind r = KindSupplierCredit) && bool_decide (supplier_id r = Some supplierID) &&
  bool_decide (task_id r = Some taskID) && (0 <? amount_micros r).

Definition set_payout_status (s : string) (r : row) : row :=
  mkRow (kind r) (supplier_id r) (buyer_id r) (task_id r) (execution_contract_id r) (amount_micros r) (row_currency r)
    s (release_at r) (payout_ref r) (pricing_decision_sha256 r) (lifecycle_revision r) (lane_settlement_id r).

(** Money that may have left already is recovered, the rest is withdrawn. *)
Definition clawed_status (taskID : UUID) (r : row) : string :=
  if bool_decide (payout_ref r ≠ None) || unknown_outcome taskID ||
     one_of (payout_status r) ["sending"; "outcome_unknown"; "released"; "exported"; "reversal_required"]
  then "reversal_required" else "clawed_back".

Definition clawbackTaskCreditTx (supplierID taskID : UUID) (correctProjection : bool) (w : world) : res world :=
  w1 ← (match list_find (λ r, is_credit_of supplierID taskID r = true) (ledger (books w)) with
        | None => Ok w
        | Some (_, r) =>
            match w_tasks w !! taskID with
            | None => Err errNoRows
            | Some t =>
                pricingSHA ← loadJobPricingDecisionSHA (books w) (t_job t);
                d ← insertLedgerEntryIfAbsentExactTx st (books w)
                      (mkLedgerEntry KindClawback (Some supplierID) None (Some taskID) (SFopp (microsToUSD (amount_micros r)))
                         (row_currency r) "clawed_back" None pricingSHA liabilityLifecycleRevision "");
                Ok (with_books w
                      (with_ledger d (map (λ x, if is_credit_of supplierID taskID x
                                                then set_payout_status (clawed_status taskID r) x else x) (ledger d))))
            end
        end);
  if correctProjection then
    match w_tasks w1 !! taskID with
    | Some t => store_row taskID t (with_outcome "clawed_back" t) w1
    | None => Ok w1
    end
  else Ok w1.

(** A third opinion planned with the decision: at most one per chunk. *)
Definition insertPlannedTiebreakTx (now : Z) (info : CommitTaskInfo) (id jobID primary peer : UUID) (inputRef : string)
    (chunk : Z) (w : world) : res (bool * world) :=
  match reserve_of w jobID with
  | None => Err errEconomicReserveExhausted
  | Some (reserved, consumed) =>
      match existingTiebreakTaskTx w jobID chunk with
      | Some _ => Ok (false, w)
      | None =>
          refuse errEconomicReserveExhausted if reserved <=? consumed;
          clone ← currentUniformCloneTaskEconomics w jobID primary inputRef chunk;
          anchor ← match w_tasks w !! primary with Some a => Ok a | None => Err errNoRows end;
          '(frozen, w1) ← consumeEconomicReserveTx w jobID;
          refuse (Errorf "planned tiebreak requires frozen verification class")
            if bool_decide (mc_hw_class (in_machine info) = "");
          w2 ← insert_task w1 id (born now chunk jobID id true primary anchor inputRef (default frozen clone)
                                    (Some (in_machine info)) None);
          w3 ← (if tiebreakPeerClaimEligibleTx supply now w2 id jobID peer then
                  '(_, w3) ← update_task w2 id
                     (λ t, bool_decide (t_claimed_by t = None) && bool_decide (h_started_at (t_hold t) = None))
                     (λ t, let h := t_hold t in
                           with_hold t (mkHold (h_status h) (Some peer) (Some now) (h_started_at h) (h_worker h)
                                          (h_retry h) (h_visible_at h) (h_excluded h) (h_excluded_until h)));
                  Ok w3
                else Ok w2);
          w4 ← count_new_task w3 jobID;
          Ok (true, w4)
      end
  end.

(** [verification_events] has a unique effect identifier. *)
Definition recordVerificationEffectTx (id : UUID) (w : world) : res world :=
  refuse (Errorf "verification effect %s existed before terminal transition") if bool_decide (id ∈ w_effects w);
  Ok (with_effects w ({[ id ]} ∪ w_effects w)).

Definition apply_effect (now : Z) (info : CommitTaskInfo) (e : effect) (w : world) : res (Z * Z * world) :=
  match e with
  | DockReputation _ s ev => w ← dockReputationTx now w s ev; Ok (0, 0, w)
  | RecordEvent id _ t _ ev =>
      w ← recordVerificationEffectTx id w;
      w ← (if bool_decide (ev = "tiebreak_win") && negb (bool_decide (t = in_task info))
           then promoteProvisionalWinnerTx t w else Ok w);
      Ok (0, 0, w)
  | ClawbackCredit _ s t => w ← clawbackTaskCreditTx s t (negb (bool_decide (t = in_task info))) w; Ok (0, 0, w)
  | Quarantine _ s => Ok (0, 0, quarantineTx now w s)
  | Requeue _ t =>
      refuse (Errorf "apply %s: verifier may only requeue current task %s, got %s") if negb (bool_decide (t = in_task info));
      Ok (1, 0, w)
  | InsertTiebreak id j _ peer primary input chunk =>
      '(inserted, w) ← insertPlannedTiebreakTx now info id j primary peer input chunk w;
      Ok (0, (if inserted : bool then 1 else 0), w)
  end.

(** How many requeues the effects ask for, and how many third opinions they inserted. *)
Fixpoint apply_effects (now : Z) (info : CommitTaskInfo) (es : list effect) (w : world) : res (Z * Z * world) :=
  match es with
  | [] => Ok (0, 0, w)
  | e :: rest =>
      _ ← (match validateVerificationEffectTargetTx info e w with
           | Err err => Err (Wrapf err "validate effect %s: %w")
           | Ok _ => Ok tt
           end);
      '(r, i, w) ← apply_effect now info e w;
      '(r', i', w) ← apply_effects now info rest w;
      Ok (r + r', i + i', w)
  end.

(** *** Settlement *)

(** The price columns and the observation of a task, and what they settle to. *)
Definition loadObservedOutputSettlement (docs : frozen_documents) (w : world) (taskID : UUID) : res observedOutputSettlement :=
  match w_tasks w !! taskID with
  | None => Err errNoRows
  | Some t =>
      refuse errNoRows if bool_decide (w_jobs w !! t_job t = None);
      let price := b_price (t_birth t) in
      settleObservedOutputSettlementTaskFacts docs
        (mkFacts (microsToUSD (fz_charge price)) (microsToUSD (fz_payout price)) (fz_charge_nanos price)
           (fz_payout_nanos price) (b_expected (t_birth t)) (snd <$> o_reported (t_out t)))
  end.

(** The rows must be the split of what the observed output is worth. *)
Definition expected_entry (buyer supplierID : UUID) (charge payout : f64) (e : LedgerEntry) : bool :=
  let leg (amount : f64) (b s : option UUID) :=
    bool_decide (fixed6 (AmountUSD e) = fixed6 amount) && sameOptionalUUID (le_BuyerID e) b &&
    sameOptionalUUID (le_SupplierID e) s in
  if bool_decide (le_Kind e = KindBuyerCharge) then leg (SFopp charge) (Some buyer) None
  else if bool_decide (le_Kind e = KindSupplierCredit) then leg payout None (Some supplierID)
  else if bool_decide (le_Kind e = KindPlatformTake) then leg (f64_sub charge payout) None None
  else false.

Definition validateVerificationSettlementTx (info : CommitTaskInfo) (outcome : string) (docs : frozen_documents)
    (entries : list LedgerEntry) (w : world) : res unit :=
  if one_of outcome [OutcomeFail; OutcomeLossNoPayout] then Ok tt
  else
    match tasks (books w) !! in_task info ≫= λ j, jobs (books w) !! j with
    | None => Err errNoRows
    | Some j =>
        _ ← (match RequireSettlementCurrency st (job_currency j) with
             | Err err => Err (Wrapf err "job %s cannot settle under this deployment: %w")
             | Ok _ => Ok tt
             end);
        match loadObservedOutputSettlement docs w (in_task info) with
        | Err err => Err err
        | Ok settled =>
            let charge := os_BilledCharge settled in
            let payout := os_SupplierPayout settled in
            refuse (Errorf "settlement supplier payout out of range")
              if f64_ltb payout (f64_of_Z 0) || f64_ltb charge payout;
            refuse (Errorf "settlement has %d entries, want %d kinds") if negb (length entries =? 3)%nat;
            refuse (Errorf "settlement %q conflicts with observed-output task economics")
              if negb (forallb (λ e, expected_entry (job_buyer j) (in_supplier info) charge payout e &&
                                     (bool_decide (le_Currency e = "") || bool_decide (le_Currency e = job_currency j)))
                         entries);
            Ok tt
        end
    end.

(** A task and its hedges are one obligation: when another of them has been charged, this
    one settles nothing and does not count. *)
Definition is_charge_of (id : UUID) (r : row) : bool :=
  bool_decide (kind r = KindBuyerCharge) && bool_decide (task_id r = Some id).

Definition family (root : UUID) (id : UUID) (t : task) : bool :=
  negb (t_redundancy t) && (bool_decide (id = root) || bool_decide (t_hedged_from t = Some root)).

Definition siblingSettled (w : world) (root self : UUID) : bool :=
  existsb (λ x : UUID * task, family root x.1 x.2 && negb (bool_decide (x.1 = self)) &&
                              existsb (is_charge_of x.1) (ledger (books w))) (map_to_list (w_tasks w)).

Definition fenceHedgeSettlementTx (info : CommitTaskInfo) (entries : list LedgerEntry) (w : world) :
    res (list LedgerEntry * bool) :=
  match w_tasks w !! in_task info with
  | None => Err errNoRows
  | Some t =>
      if t_redundancy t then Ok (entries, true)
      else
        let root := default (in_task info) (t_hedged_from t) in
        refuse errNoRows if bool_decide (w_tasks w !! root = None);
        if siblingSettled w root (in_task info) then Ok ([], false) else Ok (entries, true)
  end.

Fixpoint insert_entries (d : db) (entries : list LedgerEntry) : res db :=
  match entries with
  | [] => Ok d
  | e :: rest => d ← insertNewLedgerEntryTx st d e; insert_entries d rest
  end.

(** The single buyer charge among the rows, as the prepaid debit takes it. *)
Fixpoint prepaid_charge (buyer : UUID) (entries : list LedgerEntry) (acc : Z) : res Z :=
  match entries with
  | [] => Ok acc
  | e :: rest =>
      if bool_decide (le_Kind e = KindBuyerCharge) then
        refuse (Errorf "prepaid settlement has invalid buyer charge for task %s")
          if negb (sameOptionalUUID (le_BuyerID e) (Some buyer)) || f64_leb (f64_of_Z 0) (AmountUSD e) || negb (acc =? 0);
        prepaid_charge buyer rest (usdToMicros (SFopp (AmountUSD e)))
      else prepaid_charge buyer rest acc
  end.

(** *** The chunk's winning artifact *)

Record chunkWinnerCandidate := mkCandidate {
  wc_task : UUID;
  wc_work : UUID;
  wc_artifact : artifact;
  wc_redundancy : bool;
  wc_completed : option Z              (* None: now being completed, after all others *)
}.

Definition completed_before (a b : option Z) : bool :=
  match a, b with
  | Some x, Some y => x <? y
  | Some _, None => true
  | None, _ => false
  end.

Definition candidate_before (a b : chunkWinnerCandidate) : bool :=
  if negb (bool_decide (wc_redundancy a = wc_redundancy b)) then negb (wc_redundancy a)
  else if negb (bool_decide (wc_completed a = wc_completed b)) then completed_before (wc_completed a) (wc_completed b)
  else String.ltb (uuid_String (wc_task a)) (uuid_String (wc_task b)).

Definition best_candidate (cs : list chunkWinnerCandidate) : option chunkWinnerCandidate :=
  foldr (λ c acc, match acc with Some b => if candidate_before b c then Some b else Some c | None => Some c end) None cs.

Definition tiebreak_winners (d : decision) : list UUID :=
  remove_dups (omap (λ e, match e with
                          | RecordEvent _ _ t _ ev => if bool_decide (ev = "tiebreak_win") then Some t else None
                          | _ => None
                          end) (dc_effects d)).

Definition winner_candidate (now : Z) (info : CommitTaskInfo) (l : VerificationLease) (p : vplan) (w : world) (id : UUID) :
    res chunkWinnerCandidate :=
  match w_tasks w !! id with
  | None => Err errNoRows
  | Some t =>
      if bool_decide (id = in_task info) then Ok (mkCandidate id (vl_work l) (vp_artifact p) (t_redundancy t) None)
      else
        match work_for_attempt w id (t_retry t) with
        | Some (workID, v) =>
            match vw_artifact v with
            | Some a =>
                refuse (Wrapf errNoRows "load majority winner %s: %w")
                  if negb (bool_decide (vw_status v = WTerminal)) || negb (of_chunk (in_job info) (in_chunk info) t) ||
                     negb (bool_decide (o_outcome (t_out t) ∈ [Some OutcomePass; Some OutcomePassWithPenalty]));
                Ok (mkCandidate id workID a (t_redundancy t) (Some (default now (o_completed_at (t_out t)))))
            | None => Err (Wrapf errNoRows "load majority winner %s: %w")
            end
        | None => Err (Wrapf errNoRows "load majority winner %s: %w")
        end
  end.

Fixpoint winner_candidates (now : Z) (info : CommitTaskInfo) (l : VerificationLease) (p : vplan) (w : world) (ids : list UUID) :
    res (list chunkWinnerCandidate) :=
  match ids with
  | [] => Ok []
  | id :: rest =>
      c ← winner_candidate now info l p w id;
      cs ← winner_candidates now info l p w rest;
      Ok (c :: cs)
  end.

Definition recordChunkArtifactResolutionTx (now : Z) (info : CommitTaskInfo) (l : VerificationLease) (p : vplan)
    (countsBuyerChunk : bool) (w : world) : res world :=
  let record basis ids :=
    cs ← winner_candidates now info l p w ids;
    match best_candidate cs with
    | None => Err (Errorf "verification decision had no deliverable winner")
    | Some c =>
        let row := mkResolution (wc_task c) (wc_work c) (wc_artifact c) in
        match w_resolved w !! (in_job info, in_chunk info, basis) with
        | None => Ok (with_resolved w (<[(in_job info, in_chunk info, basis) := row]> (w_resolved w)))
        | Some old =>
            if bool_decide (basis = "provisional") then Ok w
            else refuse errVerificationWorkConflict if negb (bool_decide (old = row)); Ok w
        end
    end in
  match tiebreak_winners (vp_decision p) with
  | [] =>
      if negb countsBuyerChunk then Ok w
      else
        match w_tasks w !! in_task info with
        | None => Err errNoRows
        | Some t => if t_redundancy t || b_honeypot (t_birth t) then Ok w else record "provisional" [in_task info]
        end
  | ids => record "majority" ids
  end.

(** *** Applying a plan *)

Definition accepted_row (now : Z) (outcome : string) (t : task) : task :=
  let h := t_hold t in
  let o := t_out t in
  mkTask (t_birth t)
    (mkHold TComplete (h_claimed_by h) (h_claimed_at h) (h_started_at h) (h_worker h) (h_retry h) (h_visible_at h)
       (h_excluded h) (h_excluded_until h))
    (t_exec t)
    (mkOutcome (o_result_key o) (o_result_ref o) (o_result_sha o) (o_reported o) (Some outcome) (Some now)).

(** The other tasks of the hedge family that are not yet committed. *)
Definition cancelled_sibling (w : world) (info : CommitTaskInfo) (id : UUID) (t : task) : bool :=
  of_chunk (in_job info) (in_chunk info) t && negb (bool_decide (id = in_task info)) &&
  in_status [TQueued; TRunning; TRetrying] t && negb (t_redundancy t) && negb (b_honeypot (t_birth t)) &&
  (bool_decide (t_hedged_from t ≠ None) ||
   match w_tasks w !! in_task info with
   | Some a => bool_decide (t_hedged_from a = Some id) && negb (t_redundancy a)
   | None => false
   end).

Definition sibling_row (t : task) : task :=
  let h := t_hold t in
  with_hold t (mkHold TFailed None (h_claimed_at h) (h_started_at h) (h_worker h) (h_retry h) (h_visible_at h)
                 (h_excluded h) (h_excluded_until h)).

Definition one_done (jx : jobx) : jobx :=
  mkJobx (jx_task_count jx) (jx_tasks_done jx + 1) (jx_max_micros jx) (jx_firm_micros jx) (jx_charge_status jx)
    (jx_strikes jx) (jx_tier jx) (jx_budget_state jx) (jx_placement jx) (jx_actual_micros jx) (jx_plan jx) (jx_reserve jx).

Definition one_completed (s : supplier) : supplier :=
  mkSupplier (sp_reputation s) (sp_status s) (sp_completed s + 1) (sp_quarantined_at s).

Record VerificationApplyResult := mkApplied { Applied : bool; Rejected : bool; TiebreaksInserted : Z }.

(** The row still is the attempt the plan was made for. *)
Definition row_is_planned (info : CommitTaskInfo) (p : vplan) (t : task) : bool :=
  bool_decide (t_claimed_by t = Some (in_worker info)) && bool_decide (o_result_ref (t_out t) = af_key (vp_artifact p)) &&
  bool_decide (o_result_sha (t_out t) = af_sha (vp_artifact p)) &&
  bool_decide (o_reported (t_out t) = Some (in_duration info, in_tokens info)) &&
  bool_decide (b_honeypot (t_birth t) = in_honeypot info) && bool_decide (t_redundancy t = in_redundancy info) &&
  bool_decide (b_input_ref (t_birth t) = in_input_ref info) && (t_chunk t =? in_chunk info).

Definition reject_attempt (now : Z) (info : CommitTaskInfo) (l : VerificationLease) (p : vplan) (digest : string) (w : world) :
    res world :=
  w1 ← insertExactTaskVerdictTx info l p OutcomeFail digest w;
  '(hit, w2) ← update_task w1 (in_task info)
     (λ t, in_status [TVerifying] t && bool_decide (h_worker (t_hold t) = Some (in_worker info)) && (t_retry t =? in_attempt info))
     (excluded_row now (Some (in_worker info)) (requeueBackoff (in_attempt info)));
  refuse (Errorf "apply verification rejection: task transition lost") if negb hit;
  '(_, w3) ← update_job_status w2 (in_job info) ["verifying"] "running";
  terminalizeVerificationWorkTx now l p OutcomeFail digest w3.

Definition accept_attempt (now : Z) (info : CommitTaskInfo) (l : VerificationLease) (p : vplan) (digest : string)
    (prepaid : bool) (buyer : UUID) (w : world) : res world :=
  let outcome := dc_outcome (vp_decision p) in
  match fenceHedgeSettlementTx info (vp_settlement p) w with
  | Err err => Err err
  | Ok (entries, counts) =>
      '(hit, w1) ← update_task w (in_task info)
         (λ t, bool_decide (h_worker (t_hold t) = Some (in_worker info)) && in_status [TVerifying] t &&
               (t_retry t =? in_attempt info))
         (accepted_row now outcome);
      refuse (Errorf "apply verification acceptance: task transition lost") if negb hit;
      w2 ← insertExactTaskVerdictTx info l p outcome digest w1;
      let w3 := if counts then update_jobx w2 (in_job info) one_done else w2 in
      let w4 := with_suppliers w3 (alter one_completed (in_supplier info) (w_suppliers w3)) in
      w5 ← terminalizeVerificationWorkTx now l p outcome digest w4;
      d ← insert_entries (books w5) entries;
      let w6 := with_books w5 d in
      w7 ← (if prepaid && negb (length entries =? 0)%nat then
              micros ← prepaid_charge buyer entries 0;
              refuse (Errorf "prepaid settlement has no buyer charge for task %s") if micros <=? 0;
              match debitPrepaidForTaskTx st (w_purse w6) buyer (in_task info) micros with
              | Err err => Err (Wrapf err "debit prepaid settlement for task %s: %w")
              | Ok purse => Ok (with_purse w6 purse)
              end
            else Ok w6);
      w8 ← recordChunkArtifactResolutionTx now info l p counts w7;
      update_tasks w8 (cancelled_sibling w8 info) sibling_row
  end.

Definition VerifyJobTx (now : Z) (l : VerificationLease) (p : vplan) (info : CommitTaskInfo) (docs : frozen_documents)
    (w : world) : res (VerificationApplyResult * world) :=
  let d := vp_decision p in
  refuse (Errorf "apply verification decision: unsupported outcome %q") if negb (supported_outcome (dc_outcome d));
  _ ← validateVerificationDecisionShape info d (vp_settlement p);
  digest ← verificationDecisionDigest d (vp_settlement p);
  refuse errVerificationWorkConflict if negb (bool_decide (digest = vp_digest p));
  refuse errNoSupply
    if match first_peer d with Some peer => bool_decide (w_workers w !! peer = None) | None => false end;
  _ ← lockVerificationWorkFenceTx now info l p w;
  refuse errEconomicReserveExhausted
    if bool_decide (first_peer d ≠ None) && bool_decide (reserve_of w (in_job info) = None);
  match w_tasks w !! in_task info with
  | None => Err errNotFound
  | Some t =>
      refuse (Errorf "apply verification decision: task %s job changed from %s to %s")
        if negb (bool_decide (t_job t = in_job info));
      refuse errVerificationWorkConflict if negb (row_is_planned info p t);
      _ ← validateVerificationSettlementTx info (dc_outcome d) docs (vp_settlement p) w;
      if negb (in_status [TVerifying] t) || negb (t_retry t =? in_attempt info) ||
         negb (bool_decide (h_worker (t_hold t) = Some (in_worker info)))
      then
        match assertExactTaskVerdictTx info l p (dc_outcome d) digest w with
        | Ok _ => Ok (mkApplied false (bool_decide (dc_outcome d = OutcomeFail)) 0, w)
        | Err err => Err (Wrapf errVerificationReplayConflict "%w: task %s is not verifying")
        end
      else
        match job_row w (in_job info) with
        | None => Err errNotFound
        | Some j =>
            refuse (Wrapf errVerificationReplayConflict "%w: parent job %s is %s")
              if negb (one_of (job_status j) live_statuses);
            match apply_effects now info (dc_effects d) w with
            | Err err => Err err
            | Ok (requeues, inserted, w1) =>
                if bool_decide (dc_outcome d = OutcomeFail) then
                  refuse (Errorf "apply verification rejection: expected one requeue effect, got %d") if negb (requeues =? 1);
                  w2 ← reject_attempt now info l p digest w1;
                  Ok (mkApplied true true inserted, w2)
                else
                  refuse (Errorf "apply verification acceptance: unexpected requeue effect") if negb (requeues =? 0);
                  w2 ← accept_attempt now info l p digest (prepaid_required j) (job_buyer j) w1;
                  Ok (mkApplied true false inserted, w2)
            end
        end
  end.

End Apply.
