(* ===== verification/PrintedMoney.v ===== *)
(** * PrintedMoney: amounts printed to six places and read back

    A verification plan stores the amounts of its settlement rows as text with six places;
    applying the plan compares the text of what the row says with the text of what the
    loader computed.  This file shows that an amount of the ledger keeps its micros on
    that way: a row whose text is that of a charge of [k] micros is a charge of [k]
    micros. *)
From Stdlib Require Import SpecFloat.
From stdpp Require Import base numbers list.
From S2P Require Import Prelude.
From S2P Require Import Float64.
From S2P Require Import FloatOrder.
From S2P Require Import LedgerWrite.
From S2P Require Import MicroMoney.
From S2P Require Import Verification.
Local Open Scope Z_scope.

(** ** Signs *)

Lemma binary_round_opp s m e : binary_round 53 1024 (negb s) m e = SFopp (binary_round 53 1024 s m e).
Proof. unfold binary_round. destruct (shl_align _ _ _). apply round_aux_opp. Qed.

Lemma f64_of_Z_opp n : n ≠ 0 → f64_of_Z (- n) = SFopp (f64_of_Z n).
Proof. intros N. destruct n as [|p|p]; [done|apply (binary_round_opp false)|apply (binary_round_opp true)]. Qed.

Lemma microsToUSD_opp n : n ≠ 0 → microsToUSD (- n) = SFopp (microsToUSD n).
Proof.
  intros N. unfold microsToUSD, f64_div. rewrite f64_of_Z_opp, million_f64 by done.
  destruct (f64_of_Z n) as [s|s| |s m e]; simpl; [by destruct s|by destruct s|done|].
  case_match. rewrite !xorb_false_r. case_match. apply round_aux_opp.
Qed.

(** ** Texts *)

(** The number a text shows is off by at most half a micro more than the amount is. *)
Lemma fixed6_near m e a d :
  - 72 ≤ e < 0 → Z.abs (Z.pos m * 1000000 * 2 ^ (e + 72) - a * 2 ^ 72) ≤ d →
  ∃ q, (∀ s, fixed6 (S754_finite s m e) = P6 s q) ∧ 2 * Z.abs (q - a) * 2 ^ 72 ≤ 2 ^ 72 + 2 * d.
Proof.
  intros E H. unfold fixed6, microUSDPerUSD. rewrite (proj2 (Z.leb_gt _ _)) by lia.
  set (h := 2 ^ (- e)). assert (0 < h) by (unfold h; lia). set (t := 2 ^ (e + 72)) in *. assert (0 < t) by (unfold t; lia).
  assert (2 ^ 72 = h * t) as Hh by (unfold h, t; rewrite <-Z.pow_add_r by lia; f_equal; lia). rewrite Hh in *.
  set (v := Z.pos m * 1000000) in *.
  pose proof (Z.div_mod v h ltac:(lia)) as Dv. pose proof (Z.mod_pos_bound v h ltac:(lia)) as R.
  eexists. split; [done|]. simpl.
  match goal with |- context [Z.abs (?q - a)] => assert (2 * Z.abs (q * h - v) ≤ h) as Q; [|revert Q; generalize q] end.
  { revert Dv R. generalize (v / h), (v mod h). intros q r Dv R.
    destruct (Z.ltb_spec h (2 * r)); simpl; [lia|]. destruct (Z.eqb_spec h (2 * r)); simpl; [destruct (Z.odd q)|]; lia. }
  intros q Q. assert (Z.abs ((q - a) * (h * t)) ≤ Z.abs ((q * h - v) * t) + d) as S by lia.
  rewrite !Z.abs_mul, !(Z.abs_eq t), (Z.abs_eq h) in S by lia. nia.
Qed.

Lemma micros_text a :
  0 < a < 2 ^ 53 → ∃ q, (∀ s, fixed6 (if s : bool then SFopp (microsToUSD a) else microsToUSD a) = P6 s q) ∧
    a - 3 ≤ q ∧ (a < 2 ^ 49 → q = a).
Proof.
  intros A. destruct (micros_value a A) as (m & e & -> & M & E & D & _). unfold million_mantissa in D.
  destruct (fixed6_near m e a (1000000 * a)) as (q & F & Q); [lia| |exists q; split_and!; [intros []; apply F|lia..]].
  assert (8589934592000000 = 2 ^ 33 * 1000000) as Mm by done. rewrite Mm in D. lia.
Qed.

(** The text of a larger one shows more than any amount of the ledger. *)
Lemma huge_text a : 2 ^ 53 ≤ a → ∀ n k, fixed6 (SFopp (microsToUSD a)) = P6 n k → 2 ^ 40 ≤ k.
Proof.
  intros A n k. unfold microsToUSD, f64_div. rewrite million_f64.
  assert (f64_of_Z a = S754_infinity false ∨ ∃ m e, f64_of_Z a = S754_finite false m e ∧ 2 ^ 52 ≤ Z.pos m < 2 ^ 53 ∧ 1 ≤ e ≤ 971)
    as [->|(m & e & -> & M & E)]; [|done|].
  { destruct a as [|p|]; [lia| |lia]. unfold f64_of_Z, binary_normalize.
    assert (53 ≤ Z.log2 (Z.pos p)) by (apply Z.log2_le_pow2; lia). pose proof (target_eq p 0) as T.
    destruct (binary_round_spec false p 0) as [[_ F]|[[-> _]|(m & e & -> & B & F)]]; [lia|by left|right].
    apply bounded_spec in B. exists m, e. split_and!; [done|lia..]. }
  replace e with (- (- e)) by lia. destruct (div_million false m (- e)) as (m' & u & -> & M' & U & _); [lia..|].
  simpl. set (x := u - 20 - - e). destruct (Z.leb_spec 0 x) as [X|X]; intros [= <- <-]; unfold microUSDPerUSD.
  - assert (1 ≤ 2 ^ x) by lia. nia.
  - match goal with |- 2 ^ 40 ≤ (if ?b then ?q + 1 else ?q) => assert (2 ^ 40 ≤ q); [|by destruct b; lia] end.
    apply Z.div_le_lower_bound; [lia|]. assert (2 ^ (- x) ≤ 2 ^ 19) by (apply Z.pow_le_mono_r; lia). nia.
Qed.

(** ** Rows *)

(** What is printed is not negative. *)
Lemma fixed6_shape x : (∃ s n, fixed6 x = P6 s n ∧ 0 ≤ n) ∨ fixed6 x = PSpecial x ∧ (is_nan x || is_inf x) = true.
Proof.
  destruct x as [s|s| |s m e]; simpl; [by left; exists s, 0|by right..|left].
  destruct (Z.leb_spec 0 e); eexists _, _; (split; [done|]); unfold microUSDPerUSD; [lia|].
  assert (0 ≤ Z.pos m * 1000000 / 2 ^ (- e)) by (apply Z.div_pos; lia). case_match; lia.
Qed.

(** A parsed amount whose text is that of a charge of [k] micros is one. *)
Lemma parsed_charge x k :
  1 ≤ k < 2 ^ 40 → fixed6 (parse6 (fixed6 x)) = fixed6 (SFopp (microsToUSD k)) → usdToMicros (parse6 (fixed6 x)) = - k.
Proof.
  intros K. destruct (micros_text k) as (q & F & _ & Q); [lia|]. rewrite (F true), Q by lia.
  destruct (fixed6_shape x) as [(s & n & -> & N)|[-> S]]; [|by destruct x].
  assert (parse6 (P6 s n) = if s then SFopp (microsToUSD n) else microsToUSD n) as -> by (by destruct s).
  destruct (decide (n = 0)) as [->|N0]; [destruct s; intros G; vm_compute in G; [injection G as <-; lia|done]|].
  destruct (Z.lt_ge_cases n (2 ^ 53)) as [B|B].
  - destruct (micros_text n) as (q' & F' & L & Q'); [lia|]. destruct s; [rewrite (F' true)|by rewrite (F' false)].
    intros [= ->]. rewrite Q' by lia. rewrite <-microsToUSD_opp by lia. apply usdToMicros_microsToUSD. lia.
  - destruct s; [intros G%huge_text; [lia|done]|]. intros G.
    assert (fixed6 (SFopp (microsToUSD n)) = P6 false k) as G'; [|apply huge_text in G'; [lia|done]].
    revert G. by destruct (microsToUSD n) as [[]|[]| |[] ? ?]; simpl; repeat case_match; intros; simplify_eq.
Qed.
