(* ===== verification/TaskGrowth.v ===== *)
(** * TaskGrowth: what the task operations never take back

    [grows P] relates the tables before and after: rows and what they were born as,
    attempt numbers, verdicts, plans, terminal work and finished jobs stay; the ledger
    only gained rows of [P], up to the payout status of a credit; a balance that the
    ledger explained is still explained.  It is a preorder, it holds of every statement
    ([grows_store], [grows_updates], [grows_books], ...) and so, by the tactic [grow], of
    every operation of [TaskStore] and [Verification].  [verify_Ok] and [grows_accept]
    say what applying a plan comes to. *)
From stdpp Require Import base numbers list gmap strings pretty.
From Stdlib Require Import SpecFloat.
From S2P Require Import Prelude.
From S2P Require Import Float64.
From S2P Require Import Sha256.
From S2P Require Import Currency.
From S2P Require Import LedgerWrite.
From S2P Require Import Purse.
From S2P Require Import TaskStore.
From S2P Require Import Verification.
Local Open Scope Z_scope.
Local Open Scope go_scope.

(** *** The ledger, up to payout statuses

    A clawback rewrites the payout status of a credit in place; everything else of a row
    is written once. *)
Definition money (r : row) : row := set_payout_status "" r.

Definition moneys (w : world) : list row := money <$> ledger (books w).

Lemma index_keys_money r : index_keys (money r) = index_keys r.
Proof. done. Qed.

Lemma keys_money l : (money <$> l) ≫= index_keys = l ≫= index_keys.
Proof. induction l as [|r l IH]; [done|]. csimpl. by rewrite IH. Qed.

Lemma sum_money p l : (∀ r, p (money r) = p r) → sum_micros p (money <$> l) = sum_micros p l.
Proof. intros E. induction l as [|r l IH]; [done|]. csimpl. unfold sum_micros in *. simpl. by rewrite IH, E. Qed.

(** Rows of [P] were added. *)
Definition adds (P : row → Prop) (l l' : list row) : Prop := ∃ rs, (money <$> l') = (money <$> l) ++ rs ∧ Forall P rs.

#[export] Instance adds_refl P : Reflexive (adds P).
Proof. intros l. exists []. by rewrite app_nil_r. Qed.

#[export] Instance adds_trans P : Transitive (adds P).
Proof.
  intros l1 l2 l3 (r1 & E1 & F1) (r2 & E2 & F2). exists (r1 ++ r2). rewrite E2, E1, <-app_assoc.
  split; [done|]. by apply Forall_app.
Qed.

Lemma adds_app (P : row → Prop) l rs : Forall (λ r, P (money r)) rs → adds P l (l ++ rs).
Proof. intros F. exists (money <$> rs). rewrite fmap_app. split; [done|]. by apply Forall_fmap. Qed.

Lemma adds_mono (P Q : row → Prop) l l' : (∀ r, P r → Q r) → adds P l l' → adds Q l l'.
Proof. intros I (rs & E & F). exists rs. split; [done|]. by eapply Forall_impl. Qed.

(** ** What never goes back *)

Definition terminal_job (j : job) : Prop := job_status j ∈ terminal_statuses.

(** [LedgerWrite]'s tables have the job of every task. *)
Definition mirror_ok (w : world) : Prop := ∀ id t, w_tasks w !! id = Some t → tasks (books w) !! id = Some (t_job t).

(** A task that appears is a third opinion, or a hedge of a task that was already there
    and is not itself a hedge. *)
Definition born_well (w : world) (t : task) : Prop :=
  t_redundancy t = true ∨
  ∃ root p, t_hedged_from t = Some root ∧ w_tasks w !! root = Some p ∧ t_redundancy p = false ∧ t_hedged_from p = None ∧
    t_job p = t_job t.

Lemma born_well_birth w t t' : t_birth t' = t_birth t → born_well w t → born_well w t'.
Proof. unfold born_well, t_redundancy, t_hedged_from, t_job. by intros ->. Qed.

(** From [w] to [w'] rows of [P] were added to the ledger, and nothing was taken back:
    rows and what they were born as, attempt numbers, verdicts, plans, terminal work,
    terminal jobs. *)
Record grows (P : row → Prop) (w w' : world) : Prop := {
  g_rows : ∀ id t, w_tasks w !! id = Some t →
    ∃ t', w_tasks w' !! id = Some t' ∧ t_birth t' = t_birth t ∧ t_retry t ≤ t_retry t';
  g_born : ∀ id t, w_tasks w' !! id = Some t → w_tasks w !! id = None → born_well w t;
  g_mirror : tasks (books w) ⊆ tasks (books w');
  g_mirrored : mirror_ok w → mirror_ok w';
  g_ledger : adds P (ledger (books w)) (ledger (books w'));
  g_econ : plans (books w') = plans (books w);
  g_purse : purse_ok (w_purse w) → purse_ok (w_purse w');
  g_verdicts : w_verdicts w ⊆ w_verdicts w';
  g_plans : w_plans w ⊆ w_plans w';
  g_work : ∀ id v, w_work w !! id = Some v →
    ∃ v', w_work w' !! id = Some v' ∧ vw_snapshot v' = vw_snapshot v ∧ (vw_status v = WTerminal → v' = v);
  g_jobs : ∀ id j, job_row w id = Some j →
    ∃ j', job_row w' id = Some j' ∧ job_buyer j' = job_buyer j ∧ job_currency j' = job_currency j ∧
          prepaid_required j' = prepaid_required j ∧ (terminal_job j → job_status j' = job_status j)
}.

#[export] Instance grows_refl P : Reflexive (grows P).
Proof.
  intros w. split; try done; try (intros; congruence); intros; eexists; split_and!; (done || reflexivity || lia).
Qed.

#[export] Instance task_grows_trans P : Transitive (grows P).
Proof.
  intros w1 w2 w3 [R1 N1 M1 X1 K1 E1 O1 V1 P1 W1 J1] [R2 N2 M2 X2 K2 E2 O2 V2 P2 W2 J2]. split.
  - intros id t H. destruct (R1 _ _ H) as (t2 & H2 & B2 & L2). destruct (R2 _ _ H2) as (t3 & H3 & B3 & L3).
    exists t3. split_and!; [done|congruence|lia].
  - intros id t H3 H1. destruct (w_tasks w2 !! id) as [t2|] eqn:H2.
    + destruct (R2 _ _ H2) as (t3 & H3' & B & _). simplify_eq. eapply born_well_birth; [done|]. by apply (N1 id).
    + destruct (N2 _ _ H3 H2) as [?|(root & q & Hf & Hr & Q & N & Jq)]; [by left|right]. exists root.
      destruct (w_tasks w1 !! root) as [q1|] eqn:Hr1.
      * destruct (R1 _ _ Hr1) as (q2 & Hq & B & _). simplify_eq. exists q1.
        unfold t_redundancy, t_hedged_from, t_job in *. rewrite <-B. done.
      * destruct (N1 _ _ Hr Hr1) as [?|(? & ? & ? & _)]; congruence.
  - by trans (tasks (books w2)).
  - auto.
  - by etrans.
  - congruence.
  - auto.
  - by trans (w_verdicts w2).
  - by trans (w_plans w2).
  - intros id v H. destruct (W1 _ _ H) as (v2 & H2 & S2 & T2). destruct (W2 _ _ H2) as (v3 & H3 & S3 & T3).
    exists v3. split_and!; [done|congruence|]. intros T. rewrite T2 in * by done. auto.
  - intros id j H. destruct (J1 _ _ H) as (j2 & H2 & B2 & C2 & D2 & T2).
    destruct (J2 _ _ H2) as (j3 & H3 & B3 & C3 & D3 & T3).
    exists j3. split_and!; [done|congruence..|]. intros T. rewrite T3; [by apply T2|].
    unfold terminal_job in *. by rewrite T2.
Qed.

Lemma grows_mono (P Q : row → Prop) w w' : (∀ r, P r → Q r) → grows P w w' → grows Q w w'.
Proof. intros I [? ? ? ? L ? ? ? ? ? ?]. split; try done. by eapply adds_mono. Qed.

Lemma purse_ok_books p d : ledger d = ledger (purse_books p) → purse_ok p → purse_ok (with_purse_books p d).
Proof. intros E [X S]. split; intros b c; rewrite balance_books; [by rewrite X, <-E|apply S]. Qed.

Ltac frame := simpl; try done; try (intros; congruence); try (intros; eexists; split_and!; (done || reflexivity)).

(** *** Statements *)

(** An update of rows that leaves what they were born as, and does not lower the attempt. *)
Definition keeps_birth (f : task → task) : Prop := ∀ t, t_birth (f t) = t_birth t ∧ t_retry t ≤ t_retry (f t).

Lemma grows_tasks P w m :
  (∀ id t, w_tasks w !! id = Some t → ∃ t', m !! id = Some t' ∧ t_birth t' = t_birth t ∧ t_retry t ≤ t_retry t') →
  (∀ id t, m !! id = Some t → w_tasks w !! id ≠ None) →
  grows P w (with_tasks w m).
Proof.
  intros R N. assert (mirror_ok w → mirror_ok (with_tasks w m)).
  { intros M id t' L. change (m !! id = Some t') in L. pose proof (N _ _ L) as X. destruct (w_tasks w !! id) as [t|] eqn:Lt; [|done].
    destruct (R _ _ Lt) as (t2 & L2 & B & _). simplify_eq. etrans; [exact (M _ _ Lt)|]. unfold t_job. by rewrite B. }
  split; try done; simpl; try (by intros id t ?%N ?); simpl; intros; eexists; split_and!; (done || reflexivity).
Qed.

Lemma store_row_Ok id t t' w w' :
  store_row id t t' w = Ok w' →
  w' = with_tasks w (<[id := t']> (w_tasks w)) ∧ task_edge (t_status t) (t_status t') = true ∧ row_fits t' = true.
Proof. unfold store_row. intros. inv_ok. done. Qed.

Lemma grows_store P id t t' w w' :
  w_tasks w !! id = Some t → t_birth t' = t_birth t → t_retry t ≤ t_retry t' → store_row id t t' w = Ok w' → grows P w w'.
Proof.
  intros L B R (-> & _ & _)%store_row_Ok. apply grows_tasks; intros i x H; (destruct (decide (i = id)) as [->|N]).
  - simplify_eq. exists t'. by rewrite lookup_insert_eq.
  - exists x. rewrite lookup_insert_ne by done. done.
  - congruence.
  - rewrite lookup_insert_ne in H by done. congruence.
Qed.

Lemma update_task_Ok w id sel f hit w' :
  update_task w id sel f = Ok (hit, w') →
  (hit = false ∧ w' = w ∧ ∀ t, w_tasks w !! id = Some t → sel t = false) ∨
  (hit = true ∧ ∃ t, w_tasks w !! id = Some t ∧ sel t = true ∧ store_row id t (f t) w = Ok w').
Proof.
  unfold update_task. intros H. destruct (w_tasks w !! id) as [t|]; [|left; simplify_eq; done].
  destruct (sel t) eqn:S; inv_ok; [|left; split_and!; [done..|]; by intros ? [= <-]].
  right. split; [done|]. by exists t.
Qed.

Lemma grows_update P w id sel f hit w' : keeps_birth f → update_task w id sel f = Ok (hit, w') → grows P w w'.
Proof.
  intros K [(_ & -> & _)|(_ & t & L & _ & S)]%update_task_Ok; [done|].
  destruct (K t). by eapply grows_store.
Qed.

(** The rows after an update of many: hit rows are mapped, the others stay. *)
Lemma update_tasks_lookup w sel f w' id :
  update_tasks w sel f = Ok w' →
  w' = with_tasks w (w_tasks w') ∧
  w_tasks w' !! id = (λ t, if sel id t then f t else t) <$> w_tasks w !! id ∧
  ∀ t, w_tasks w !! id = Some t → sel id t = true → task_edge (t_status t) (t_status (f t)) = true.
Proof.
  unfold update_tasks. intros H. apply refuse_Ok in H as [_ H]. apply refuse_Ok in H as [E H].
  apply negb_false_iff in E. simplify_eq. simpl. split; [done|]. split.
  - rewrite lookup_union, lookup_fmap, map_lookup_filter.
    destruct (w_tasks w !! id) as [t|] eqn:L; simpl; [|done].
    destruct (sel id t) eqn:S; [rewrite option_guard_True by done|rewrite option_guard_False by (simpl; congruence)]; by simpl.
  - intros t L S. rewrite forallb_forall in E. apply (E (id, t)). apply list_elem_of_In, elem_of_map_to_list.
    by apply map_lookup_filter_Some.
Qed.

Lemma grows_updates P w sel f w' : keeps_birth f → update_tasks w sel f = Ok w' → grows P w w'.
Proof.
  intros K H. destruct (update_tasks_lookup _ _ _ _ 0%N H) as (-> & _ & _). apply grows_tasks; intros id t L.
  - destruct (update_tasks_lookup _ _ _ _ id H) as (_ & -> & _). rewrite L. simpl. eexists. split; [done|].
    destruct (sel id t); [apply K|done].
  - destruct (update_tasks_lookup _ _ _ _ id H) as (_ & E & _). rewrite E in L. by destruct (w_tasks w !! id).
Qed.

Lemma insert_task_Ok w id t w' : insert_task w id t = Ok w' →
  w_tasks w !! id = None ∧ tasks (books w) !! id = None ∧
  w' = with_books (with_tasks w (<[id := t]> (w_tasks w)))
         (mkDb (ledger (books w)) (<[id := t_job t]> (tasks (books w))) (jobs (books w)) (plans (books w))).
Proof. unfold insert_task. intros. inv_ok. split_and!; [by apply dec_stable..|done]. Qed.

Lemma grows_insert P w id t w' : born_well w t → insert_task w id t = Ok w' → grows P w w'.
Proof.
  intros B (N & M & ->)%insert_task_Ok. split; simpl; try done.
  - intros i x L. exists x. rewrite lookup_insert_ne; [done|]. intros ->. congruence.
  - intros i x L Ni. destruct (decide (i = id)) as [->|D]; [rewrite lookup_insert_eq in L; by simplify_eq|].
    rewrite lookup_insert_ne in L by done. congruence.
  - by apply insert_subseteq.
  - intros X i x H. change (<[id := t]> (w_tasks w) !! i = Some x) in H. change (<[id := t_job t]> (tasks (books w)) !! i = Some (t_job x)).
    destruct (decide (i = id)) as [->|D].
    + rewrite lookup_insert_eq in H. rewrite lookup_insert_eq. by simplify_eq.
    + rewrite lookup_insert_ne in H by done. rewrite lookup_insert_ne by done. by apply X.
  - by apply purse_ok_books.
  - intros; eexists; split_and!; done.
  - intros; eexists; split_and!; done.
Qed.

Lemma update_job_status_Ok w jobID from s b w' :
  update_job_status w jobID from s = Ok (b, w') →
  (b = false ∧ w' = w ∧ ∀ j, job_row w jobID = Some j → job_status j ∉ from) ∨
  (b = true ∧ ∃ j, job_row w jobID = Some j ∧ job_status j ∈ from ∧ job_edge (job_status j) s = true ∧
   w' = with_books w (mkDb (ledger (books w)) (tasks (books w)) (<[jobID := set_status j s]> (jobs (books w))) (plans (books w)))).
Proof.
  unfold update_job_status. intros H. destruct (job_row w jobID) as [j|]; [|left; simplify_eq; done].
  destruct (one_of (job_status j) from) eqn:O.
  - apply one_of_spec in O. apply refuse_Ok in H as [E H]. apply negb_false_iff in E. simplify_eq.
    right. split; [done|]. by exists j.
  - left. simplify_eq. split_and!; [done..|]. intros ? [= <-] F. apply one_of_spec in F. congruence.
Qed.

Lemma terminal_edge j s : terminal_job j → job_edge (job_status j) s = true → s = job_status j.
Proof.
  unfold terminal_job, terminal_statuses, job_edge. intros T [E|E]%orb_true_iff; reflect_bools; [done|].
  unfold job_edges in E. rewrite !elem_of_cons, elem_of_nil in T; rewrite !elem_of_cons, elem_of_nil in E. destruct_or!; congruence.
Qed.

Lemma grows_job_status P w jobID from s b w' : update_job_status w jobID from s = Ok (b, w') → grows P w w'.
Proof.
  intros [(_ & -> & _)|(_ & j & L & _ & E & ->)]%update_job_status_Ok; [done|].
  split; frame.
  - by apply purse_ok_books.
  - intros id j' L'. unfold job_row in *. simpl. destruct (decide (id = jobID)) as [->|N].
    + simplify_eq. rewrite lookup_insert_eq. eexists. split_and!; [done..|]. intros T. simpl. by eapply terminal_edge.
    + rewrite lookup_insert_ne by done. exists j'. done.
Qed.

(** Setters of tables that [grows] does not speak about. *)
Definition same_core (w w' : world) : Prop :=
  w_tasks w' = w_tasks w ∧ w_purse w' = w_purse w ∧ w_verdicts w' = w_verdicts w ∧ w_plans w' = w_plans w ∧ w_work w' = w_work w.

Lemma grows_same P w w' : same_core w w' → grows P w w'.
Proof.
  intros (T & Pu & V & Pl & W). split; unfold mirror_ok, job_row, books; rewrite ?T, ?Pu, ?V, ?Pl, ?W; frame.
Qed.

Lemma grows_set_work P w id v v' :
  w_work w !! id = Some v → vw_snapshot v' = vw_snapshot v → vw_status v ≠ WTerminal → grows P w (set_work w id v').
Proof.
  intros L S N. split; frame. intros i x H. destruct (decide (i = id)) as [->|Ni].
  - simplify_eq. exists v'. by rewrite lookup_insert_eq.
  - exists x. by rewrite lookup_insert_ne.
Qed.

(** *** The ledger statements *)

(** Rows of [P] were added, the other tables are as they were. *)
Definition writes_rows (P : row → Prop) (d d' : db) : Prop := ∃ l, d' = with_ledger d l ∧ adds P (ledger d) l.

#[export] Instance writes_rows_refl P : Reflexive (writes_rows P).
Proof. intros d. exists (ledger d). by destruct d. Qed.

#[export] Instance writes_rows_trans P : Transitive (writes_rows P).
Proof. intros d1 d2 d3 (l1 & -> & A1) (l2 & -> & A2). exists l2. split; [done|]. by etrans. Qed.

Lemma writes_app (P : row → Prop) d rs : Forall (λ r, P (money r)) rs → writes_rows P d (with_ledger d (ledger d ++ rs)).
Proof. intros F. eexists. split; [done|]. by apply adds_app. Qed.

Lemma prepaid_sum_adds (P : row → Prop) b c l l' :
  (∀ r, P r → kind r ∉ prepaid_kinds) → adds P l l' → prepaid_sum b c l' = prepaid_sum b c l.
Proof.
  intros N (rs & E & F). unfold prepaid_sum. rewrite <-(sum_money _ l'), <-(sum_money _ l), E, sum_micros_app by done.
  assert (∀ p : row → bool, (∀ r, P r → p r = false) → sum_micros p rs = 0) as ->; [|lia|].
  - intros p Z. clear E. induction F as [|r rs Pr F IH]; [done|]. rewrite sum_micros_cons, IH, Z by done. lia.
  - intros r ?%N. unfold one_of. by rewrite bool_decide_false.
Qed.

Lemma grows_books (P Q : row → Prop) w d :
  (∀ r, Q r → P r) → (∀ r, Q r → kind r ∉ prepaid_kinds) → writes_rows Q (books w) d → grows P w (with_books w d).
Proof.
  intros I N (l & -> & A). split; frame.
  - by eapply adds_mono.
  - intros [X S]. split; intros b c; [|apply S].
    rewrite balance_books, X. symmetry. by eapply prepaid_sum_adds.
Qed.

Lemma grows_honest (P : row → Prop) w p :
  (∀ r, kind r ∈ prepaid_kinds → P r) → honest (w_purse w) p → grows P w (with_purse w p).
Proof.
  intros I [O (rs & E & F)]. unfold with_purse.
  split; unfold mirror_ok, job_row, books in *; simpl; rewrite ?E; frame.
  apply adds_app. eapply Forall_impl; [exact F|]. intros r [K _]. apply I. simpl.
  revert K. unfold prepaid_kinds. rewrite !elem_of_cons, !elem_of_nil. tauto.
Qed.

(** A row written for an entry. *)
Definition of_entry (e : LedgerEntry) (r : row) : Prop :=
  kind r = le_Kind e ∧ task_id r = le_TaskID e ∧ amount_micros r = usdToMicros (AmountUSD e).

Lemma of_entry_money st e r : wrote (ledgerInsertFromEntry st e) r → of_entry e (money r).
Proof. by intros [? ? _ ? _ _]. Qed.

Lemma writes_new st d e d' : insertNewLedgerEntryTx st d e = Ok d' →
  writes_rows (of_entry e) d d' ∧ ∃ r, d' = with_ledger d (ledger d ++ [r]) ∧ wrote (ledgerInsertFromEntry st e) r.
Proof.
  unfold insertNewLedgerEntryTx. intros H. apply bind_Ok in H as ([n d1] & W & H).
  apply refuse_Ok in H as [N H]. simplify_eq. apply negb_false_iff, Z.eqb_eq in N. subst.
  apply insert_on_task_Ok in W as [(? & _)|(_ & r & -> & W & _)]; [done|]. split; [|by exists r].
  apply writes_app, Forall_singleton. by eapply of_entry_money.
Qed.

Lemma writes_exact st d e d' : insertLedgerEntryIfAbsentExactTx st d e = Ok d' → writes_rows (of_entry e) d d'.
Proof.
  unfold insertLedgerEntryIfAbsentExactTx. intros H. apply bind_Ok in H as ([n d1] & W & H).
  assert (d' = d1) as -> by (repeat case_match; inv_ok; done).
  apply insert_on_task_Ok in W as [(_ & -> & _)|(_ & r & -> & W & _)]; [done|].
  apply writes_app, Forall_singleton. by eapply of_entry_money.
Qed.

Lemma writes_entries st es : ∀ d d', insert_entries st d es = Ok d' → writes_rows (λ r, ∃ e, e ∈ es ∧ of_entry e r) d d'.
Proof.
  induction es as [|e es IH]; simpl; intros d d' H; [by simplify_eq|].
  apply bind_Ok in H as (d1 & W & H). apply writes_new in W as [(l & -> & A) _]. apply IH in H as (l' & -> & A').
  eexists. split; [done|]. etrans; (eapply adds_mono; [|done]); [intros r O|intros r (e' & E & O)]; eexists; (split; [|exact O]); set_solver.
Qed.

(** A charge of a task; everything else is quiet. *)
Definition task_charge (r : row) : Prop := kind r = KindBuyerCharge ∧ task_id r ≠ None.
Definition quiet (r : row) : Prop := ¬ task_charge r.

(** Neither a charge nor a prepaid debit of a task. *)
Definition plain (r : row) : Prop := kind r ∈ [KindBuyerCharge; KindPrepaidDebit] → task_id r = None.

Lemma plain_quiet r : plain r → quiet r.
Proof. intros Pl [K T]. apply T, Pl. rewrite K. left. Qed.

Lemma plain_kind r : kind r ∉ [KindBuyerCharge; KindPrepaidDebit] → plain r.
Proof. by intros N K. Qed.

Lemma prepaid_quiet r : kind r ∈ prepaid_kinds → quiet r.
Proof. intros K [E _]. rewrite E in K. unfold prepaid_kinds in K. rewrite !elem_of_cons, elem_of_nil in K. naive_solver. Qed.

Lemma writes_premium st d j ref n d' :
  insertJobSLAPremiumChargeTx st d j ref = Ok (n, d') → writes_rows (λ r, kind r = KindBuyerCharge ∧ task_id r = None) d d'.
Proof.
  unfold insertJobSLAPremiumChargeTx. intros H. destruct (jobs d !! j); [|done]. destruct (plans d !! j); [|done].
  apply refuse_Ok in H as [_ H]. apply bind_Ok in H as (_ & _ & H). apply bind_Ok in H as (sha & _ & H).
  case_match; [|apply exec_insert_Ok in H as (l & H & ->); simpl in H; simplify_eq; by eexists].
  apply insert_one_row in H as [(_ & -> & _)|(_ & -> & _)]; [done|].
  by apply writes_app, Forall_singleton.
Qed.

(** *** Every operation *)

Ltac unpack H :=
  repeat match type of H with
  | (_ ≫= _) = Ok _ => let x := fresh "x" in let E := fresh "E" in apply bind_Ok in H as (x & E & H); try unpack E
  | (let '(_, _) := ?x in _) = Ok _ => destruct x
  | (if _ then Err _ else _) = Ok _ => let E := fresh "G" in apply refuse_Ok in H as [E H]
  end.

#[export] Hint Extern 4 (keeps_birth _) => (intros ?; simpl; split; [reflexivity|unfold t_retry; simpl; lia]) : go.

Lemma same_history w id a k s : same_core w (record_history w id a k s).2.
Proof. unfold record_history. by case_match. Qed.

Lemma same_warn w j : same_core w (budgetWarnOnDispatch w j).
Proof. unfold budgetWarnOnDispatch. by repeat case_match. Qed.

Ltac same_tables v := trans v; [|apply grows_same; first [done|apply same_history|apply same_warn]].

(** Go back from the last world, through the statement that made it. *)
Ltac grow_step :=
  match goal with
  | |- grows _ ?w ?w => reflexivity
  | H : update_job_status ?v _ _ _ = Ok (_, ?w) |- grows _ _ ?w => trans v; [|exact (grows_job_status _ _ _ _ _ _ _ H)]
  | H : store_row _ _ _ ?v = Ok ?w |- grows _ _ ?w =>
      trans v; [|eapply grows_store; [..|exact H]; [assumption|reflexivity|unfold t_retry; simpl; lia]]
  | H : update_task ?v _ _ _ = Ok (_, ?w) |- grows _ _ ?w => trans v; [|eapply grows_update; [|exact H]; auto with go]
  | H : update_tasks ?v _ _ = Ok ?w |- grows _ _ ?w => trans v; [|eapply grows_updates; [|exact H]; auto with go]
  | H : insert_task ?v _ _ = Ok ?w |- grows _ _ ?w => trans v; [|eapply grows_insert; [|exact H]]
  | |- grows _ _ (if ?b then _ else _) => destruct b
  | |- grows _ _ (update_jobx ?v _ _) => same_tables v
  | |- grows _ _ (with_jobs ?v _) => same_tables v
  | |- grows _ _ (with_workers ?v _) => same_tables v
  | |- grows _ _ (with_suppliers ?v _) => same_tables v
  | |- grows _ _ (with_history ?v _) => same_tables v
  | |- grows _ _ (with_effects ?v _) => same_tables v
  | |- grows _ _ (with_resolved ?v _) => same_tables v
  | |- grows _ _ (budgetWarnOnDispatch ?v _) => same_tables v
  | |- grows _ _ (record_history ?v _ _ _ _).2 => same_tables v
  end.
Ltac grow := repeat grow_step.

Section Ops.
Context (P : row → Prop) (st : settlement) (supply : UUID → UUID → bool).

Lemma grows_claim_row now k x pinned pl w id t c w' :
  w_tasks w !! id = Some t → claim_row now k x pinned pl w id t = Ok (c, w') → grows P w w'.
Proof using.
  unfold claim_row. intros L H. unpack H. case_match; [by simplify_eq|]. unpack H. simplify_eq. grow.
Qed.

Lemma scan_claim_Some now k x pinned w pick id t :
  scan_claim st supply now k x pinned w pick = Some (id, t) →
  w_tasks w !! id = Some t ∧ may_claim st supply now k x pinned w id t = true.
Proof using. unfold scan_claim. intros. repeat case_match; by simplify_eq. Qed.

Lemma grows_claim now k p1 p2 pl w c w' : ClaimTasksTx st supply now k p1 p2 pl w = Ok (c, w') → grows P w w'.
Proof using.
  unfold ClaimTasksTx. intros H. case_match; [|done]. unpack H.
  repeat case_match; simplify_eq; try done; eapply grows_claim_row; try done; by eapply scan_claim_Some.
Qed.

(** The start of a task that is still queued. *)
Lemma start_history (b : bool) now w id t k x w1 :
  (if b then
     refuse errNotFound if bool_decide (h_started_at (t_hold t) ≠ None);
     refuse errNotFound if negb (tiebreakPeerClaimEligibleTx supply now w id (t_job t) k);
     let '(fresh, w1) := record_history w id (t_retry t) k (wk_supplier x) in
     refuse errNotFound if negb fresh;
     Ok w1
   else Ok w) = Ok w1 → same_core w w1 ∧ w_workers w1 = w_workers w ∧ w_jobs w1 = w_jobs w ∧ w_suppliers w1 = w_suppliers w.
Proof using.
  destruct b; intros H; [|by simplify_eq]. unfold record_history in H.
  destruct (w_history w !! _); unpack H; by simplify_eq.
Qed.

Lemma grows_start now id k a w w' : StartTask st supply now id k a w = Ok w' → grows P w w'.
Proof using.
  unfold StartTask. intros H. unpack H. repeat (case_match; [|done]). unpack H. case_match.
  - unpack H. case_match; [|done]. unpack H. simplify_eq. grow.
  - unpack H. simplify_eq. apply start_history in E0 as (C & _). assert (w_tasks x0 !! id = Some t) by (by destruct C as [-> _]).
    grow. by apply grows_same.
Qed.

Lemma grows_renew now k leases : ∀ w w', renew_leases now k leases w = Ok w' → grows P w w'.
Proof using.
  induction leases as [|l leases IH]; simpl; intros w w' H; [by simplify_eq|].
  unpack H. trans x; [|by apply IH]. unfold renew_lease in E. unpack E. simplify_eq. grow.
Qed.

Lemma grows_create now id s w w' : createVerificationWorkTx now id s w = Ok w' → grows P w w'.
Proof using.
  unfold createVerificationWorkTx. intros H. unpack H. repeat case_match; unpack H; simplify_eq; [done|].
  split; frame.
  intros i v L. exists v. rewrite lookup_insert_ne; [done|]. intros ->. reflect_bools.
  match goal with N : ¬ (_ ≠ None) |- _ => apply dec_stable in N end. congruence.
Qed.

Lemma grows_complete now id k wid c input w w' : completeTaskTx now id k wid c input w = Ok w' → grows P w w'.
Proof using.
  unfold completeTaskTx. intros H. unpack H. repeat (case_match; [|done]). unpack H. etrans; [|by eapply grows_create].
  case_match; simplify_eq; [|trans x; [|by eapply grows_job_status]].
  all: eapply grows_store; [exact H0|..|exact E]; unfold committed_row; by case_match.
Qed.

Lemma grows_fail_job w j b w' : failJobAndSettleOnce w j = Ok (b, w') → grows P w w'.
Proof using.
  unfold failJobAndSettleOnce. intros H. destruct (jobTerminalTransitionStateTx w j) as [[s p]|]; [|done].
  case_match; [by simplify_eq|]. unpack H. case_match; simplify_eq; grow.
Qed.

Lemma grows_fail now id k a c w o w' : FailTaskTx now id k a c w = Ok (o, w') → grows P w w'.
Proof using.
  unfold FailTaskTx. intros H. unpack H. case_match; [|done]. unpack H. repeat case_match; unpack H; simplify_eq; [done| |grow].
  etrans; [|by eapply grows_fail_job]. grow.
Qed.

Lemma grows_requeue now id w w' : RequeueTask now id w = Ok w' → grows P w w'.
Proof using. unfold RequeueTask. intros H. case_match; [|done]. unpack H. simplify_eq. grow. Qed.

Lemma grows_force_requeue now id limit w w' : AdminForceRequeueTask now id limit w = Ok w' → grows P w w'.
Proof using. unfold AdminForceRequeueTask. intros H. case_match; [|done]. unpack H. grow. Qed.

Lemma grows_requeue_stale now id b w w' : RequeueStaleTask now id b w = Ok w' → grows P w w'.
Proof using. unfold RequeueStaleTask. intros H. repeat case_match; unpack H; simplify_eq; grow. Qed.

Lemma grows_fail_settle id j w w' : FailTaskAndSettleJob id j w = Ok w' → grows P w w'.
Proof using.
  unfold FailTaskAndSettleJob. intros H. unpack H. case_match; unpack H; simplify_eq; [done|].
  etrans; [|by eapply grows_fail_job]. grow.
Qed.

Lemma grows_rescue now id b w x w' : RescueRunningTask now id b w = Ok (x, w') → grows P w w'.
Proof using. unfold RescueRunningTask. intros H. grow. Qed.

Lemma grows_rescue_job now j b w x w' : RescueStuckJob now j b w = Ok (x, w') → grows P w w'.
Proof using. unfold RescueStuckJob. intros H. repeat case_match; unpack H; simplify_eq; grow. Qed.

Lemma grows_cancel_stuck j w x w' : CancelStuckJob j w = Ok (x, w') → grows P w w'.
Proof using. unfold CancelStuckJob. intros H. repeat case_match; unpack H; simplify_eq; grow. Qed.

Lemma grows_cancel j b w w' : CancelJob j b w = Ok w' → grows P w w'.
Proof using. unfold CancelJob. intros H. case_match; [|done]. unpack H. case_match; unpack H; simplify_eq; grow. Qed.

Lemma grows_detach j w w' : DetachUnfinishedTasksForTerminalJob j w = Ok w' → grows P w w'.
Proof using. unfold DetachUnfinishedTasksForTerminalJob. intros H. repeat case_match; simplify_eq; grow. Qed.

Lemma same_consume w j f w' : consumeEconomicReserveTx w j = Ok (f, w') → same_core w w'.
Proof using. unfold consumeEconomicReserveTx. intros H. repeat case_match; unpack H; by simplify_eq. Qed.

Lemma grows_consume w j f w' : consumeEconomicReserveTx w j = Ok (f, w') → grows P w w'.
Proof using. intros. by eapply grows_same, same_consume. Qed.

Lemma grows_count w j w' : count_new_task w j = Ok w' → grows P w w'.
Proof using. unfold count_new_task. intros H. unpack H. simplify_eq. grow. Qed.

(** A clone has the price of its anchor. *)
Definition clone_of (a : task) (c : option frozenTaskEconomics) : Prop := c = None ∨ c = Some (b_price (t_birth a)).

Lemma clone_Ok w j anchor i ch c :
  currentUniformCloneTaskEconomics w j anchor i ch = Ok c →
  ∃ a, w_tasks w !! anchor = Some a ∧ t_job a = j ∧ clone_of a c.
Proof using.
  unfold currentUniformCloneTaskEconomics, clone_of. intros H. case_match; [|done]. case_match; [|done]. unpack H. reflect_bools.
  eexists. split_and!; [done..|]. case_match; [|left; by simplify_eq]. case_match; [left; by simplify_eq|].
  unpack H. simplify_eq. by right.
Qed.

(** The sweeps hedge tasks that are not hedges. *)
Definition primary_task (w : world) (id : UUID) : Prop := ∀ t, w_tasks w !! id = Some t → t_hedged_from t = None.

Lemma hedge_Ok now id j pr peer i ch w x w' :
  InsertHedgeTask supply now id j pr peer i ch w = Ok (x, w') →
  w' = w ∨ ∃ p c f w1, w_tasks w !! pr = Some p ∧ t_job p = j ∧ t_redundancy p = false ∧ job_is_live w j = true ∧
    clone_of p c ∧ consumeEconomicReserveTx w j = Ok (f, w1) ∧
    insert_task w1 id (born now ch j id false pr p i (default f c) None (Some peer)) = Ok w'.
Proof using.
  unfold InsertHedgeTask. intros H. unpack H. case_match; (case_match; [left; by simplify_eq|]); [|done].
  case_match; [|done]. unpack H. simplify_eq. reflect_bools. right.
  match goal with C : currentUniformCloneTaskEconomics _ _ _ _ _ = _ |- _ => apply clone_Ok in C as (? & ? & _ & ?) end.
  simplify_eq. eauto 15.
Qed.

Lemma grows_hedge now id j pr peer i ch w x w' :
  primary_task w pr → InsertHedgeTask supply now id j pr peer i ch w = Ok (x, w') → grows P w w'.
Proof using.
  intros Pr [->|(p & c & f & w1 & L & J & R & _ & _ & C & I)]%hedge_Ok; [done|].
  trans w1; [by eapply grows_consume|]. eapply grows_insert; [|done]. right. exists pr, p.
  apply same_consume in C as [-> _]. split_and!; try done. by apply Pr.
Qed.

Lemma tiebreak_Ok now id j pr peer i ch cl w x w' :
  InsertTiebreakTask supply now id j pr peer i ch cl w = Ok (x, w') →
  w' = w ∨ ∃ p c f w1 w2 k, w_tasks w !! pr = Some p ∧ t_job p = j ∧ job_is_live w j = true ∧
    clone_of p c ∧ consumeEconomicReserveTx w j = Ok (f, w1) ∧
    insert_task w1 id (born now ch j id true pr p i (default f c) (Some k) (Some peer)) = Ok w2 ∧ count_new_task w2 j = Ok w'.
Proof using.
  unfold InsertTiebreakTask. intros H. unpack H. case_match; (case_match; [left; by simplify_eq|]); [|done].
  case_match; [|done]. unpack H. simplify_eq. reflect_bools. right.
  match goal with C : currentUniformCloneTaskEconomics _ _ _ _ _ = _ |- _ => apply clone_Ok in C as (? & ? & _ & ?) end.
  simplify_eq. eauto 20.
Qed.

Lemma grows_tiebreak now id j pr peer i ch cl w x w' :
  InsertTiebreakTask supply now id j pr peer i ch cl w = Ok (x, w') → grows P w w'.
Proof using.
  intros [->|(p & c & f & w1 & w2 & k & _ & _ & _ & _ & C & I & N)]%tiebreak_Ok; [done|].
  etrans; [|by eapply grows_count]. etrans; [by eapply grows_consume|]. eapply grows_insert; [|done]. by left.
Qed.

Lemma grows_reassign now id j an pin at_ peer age w x w' :
  ReassignPinnedTiebreak supply now id j an pin at_ peer age w = Ok (x, w') → grows P w w'.
Proof using.
  unfold ReassignPinnedTiebreak. intros H. unpack H. case_match; [|by simplify_eq]. case_match; [|by simplify_eq].
  unpack H. case_match; [by simplify_eq|]. unpack H. simplify_eq. grow.
Qed.

Lemma grows_reap now limit id j n w w' : reap_stale now limit id j n w = Ok w' → grows P w w'.
Proof using.
  unfold reap_stale. intros H. case_match; [|by eapply grows_requeue_stale].
  repeat case_match; simplify_eq; [|by eapply grows_fail_settle|done].
  etrans; [by eapply grows_fail_settle|by eapply grows_detach].
Qed.

Lemma grows_sweep now limit w w' : requeueStaleTasks now limit w = Ok w' → grows P w w'.
Proof using.
  unfold requeueStaleTasks. generalize (rows_of (w_tasks w) (StaleRunningTasks now staleTaskTimeout sweep_limit w)).
  intros l. revert w. induction l as [|[id t] l IH]; simpl; intros w H; [by simplify_eq|].
  unpack H. etrans; [by eapply grows_reap|by apply IH].
Qed.

End Ops.

(** A balance changes with its rows, none of them of a task. *)
Lemma grows_purse (P : row → Prop) w p :
  (∀ r, task_id r = None → P r) → (purse_ok (w_purse w) → purse_ok p) →
  writes_rows (λ r, kind r ∈ prepaid_kinds ∧ task_id r = None) (books w) (purse_books p) → grows P w (with_purse w p).
Proof.
  intros I O (l & E & A). split; unfold mirror_ok, job_row, books in *; simpl; rewrite ?E; frame.
  eapply adds_mono; [|exact A]. intros r [_ T]. by apply I.
Qed.

Lemma debit_sla_rows st p b j m p' :
  debitPrepaidForSLAPremiumTx st p b j m = Ok p' →
  writes_rows (λ r, kind r ∈ prepaid_kinds ∧ task_id r = None) (purse_books p) (purse_books p').
Proof.
  unfold debitPrepaidForSLAPremiumTx. intros H. unpack H. case_match; [|done]. unpack H.
  eapply debit_once_Ok in H as [_ [[-> _]|(r & [Wk _ _ Wt _ _] & ->)]]; [done| |eauto with go|apply writes_by_ref].
  apply writes_app, Forall_singleton. split; [|done]. simpl. rewrite Wk. set_solver.
Qed.

(** What accruing the risk reserve may do to the ledger: add rows of its own kinds. *)
Definition accrues (reserve : db → res db) : Prop :=
  ∀ d d', reserve d = Ok d' → writes_rows (λ r, kind r ∉ KindBuyerCharge :: prepaid_kinds) d d'.

Section LedgerOps.
Context (P : row → Prop) (plain_P : ∀ r, plain r → P r) (st : settlement).

Lemma grows_economics j reserve w w' :
  accrues reserve → completeJobEconomics st j reserve w = Ok w' → grows P w w'.
Proof using plain_P.
  intros A H. unfold completeJobEconomics in H. destruct (job_row w j) as [jr|]; [|done].
  apply bind_Ok in H as (w1 & E1 & H). apply bind_Ok in H as ([n d] & E2 & H). cbv zeta in H.
  apply bind_Ok in H as (p & E3 & H). apply bind_Ok in H as (d' & E4 & H). simplify_eq.
  trans w1; [clear E2 E3 E4; case_match; unpack E1; simplify_eq; grow|].
  trans (with_books w1 d).
  { eapply grows_books; [..|by eapply writes_premium]; [intros r [_ T]; apply plain_P; by intros _|].
    intros r [-> _]. unfold prepaid_kinds. rewrite !elem_of_cons, elem_of_nil. naive_solver. }
  trans (with_purse (with_books w1 d) p).
  { clear E1. case_match; [|simplify_eq; apply grows_same; done]. case_match; [|done].
    eapply grows_purse; [|eapply debit_sla_honest; exact E3|eapply debit_sla_rows; exact E3]. intros r T. apply plain_P. by intros _. }
  set (w4 := update_jobx _ _ _) in E4 |- *. trans w4; [unfold w4; grow|].
  eapply grows_books; [..|by eapply A]; intros r N.
  - apply plain_P, plain_kind. unfold prepaid_kinds in N. set_solver.
  - set_solver.
Qed.

End LedgerOps.

(** *** Verification *)

Section Verify.
Context (P : row → Prop).

Lemma holds_not_terminal now o t v : holds_lease now o t v = true → vw_status v ≠ WTerminal.
Proof using. unfold holds_lease. intros H. reflect_bools. congruence. Qed.

Lemma due_not_terminal now v : due_work now v = true → vw_status v ≠ WTerminal.
Proof using. unfold due_work. intros H E. by rewrite E in H. Qed.

Lemma work_for_attempt_Some w id a i v :
  work_for_attempt w id a = Some (i, v) → w_work w !! i = Some v ∧ sn_task (vw_snapshot v) = id ∧ sn_attempt (vw_snapshot v) = a.
Proof using. intros [L S]%find_row_Some. by reflect_bools. Qed.

Lemma grows_claim_attempt now id a o l tok w x w' :
  ClaimVerificationWorkForAttempt now id a o l tok w = Ok (x, w') → grows P w w'.
Proof using.
  unfold ClaimVerificationWorkForAttempt. intros H. unpack H. case_match eqn:E; [|done]. case_match. case_match eqn:D; [|done].
  simplify_eq. apply work_for_attempt_Some in E as [L _]. eapply grows_set_work; [done..|]. by eapply due_not_terminal.
Qed.

Lemma grows_claim_work now o l chosen : ∀ w x w', ClaimVerificationWork now o l chosen w = (x, w') → grows P w w'.
Proof using.
  induction chosen as [|[id tok] chosen IH]; simpl; intros w x w' H; [by simplify_eq|].
  case_match; [|by eapply IH]. case_match eqn:D; [|by eapply IH]. case_match eqn:R. simplify_eq. reflect_bools.
  etrans; [|by eapply IH]. eapply grows_set_work; [done..|]. by eapply due_not_terminal.
Qed.

Lemma grows_renew_work now l ext w w' : RenewVerificationLease now l ext w = Ok w' → grows P w w'.
Proof using.
  unfold RenewVerificationLease. intros H. unpack H. repeat case_match; simplify_eq.
  eapply grows_set_work; [done..|]. by eapply holds_not_terminal.
Qed.

Lemma grows_release_work now l at_ w w' : ReleaseVerificationWork now l at_ w = Ok w' → grows P w w'.
Proof using.
  unfold ReleaseVerificationWork. intros H. unpack H. repeat case_match; simplify_eq.
  eapply grows_set_work; [done..|]. by eapply holds_not_terminal.
Qed.

Lemma grows_sampling now l p s w b w' : PinVerificationSampling now l p s w = Ok (b, w') → grows P w w'.
Proof using.
  unfold PinVerificationSampling. intros H. unpack H. case_match; [|done]. unpack H. case_match; unpack H; simplify_eq; [done|].
  eapply grows_set_work; [done..|]. reflect_bools. by eapply holds_not_terminal.
Qed.

Lemma grows_artifact now l a w b w' : PinVerificationArtifact now l a w = Ok (b, w') → grows P w w'.
Proof using.
  unfold PinVerificationArtifact. intros H. unpack H. case_match eqn:L; [|done]. unpack H.
  case_match; [unpack H; case_match; [|done]; unpack H; by simplify_eq|]. unpack H. simplify_eq. grow.
  eapply grows_set_work; [done..|]. reflect_bools. by eapply holds_not_terminal.
Qed.

Context (marshal : decision → list canonicalVerificationSettlement → res string).
Context (effect_uuid : UUID → Z → nat → effect → UUID).

Lemma grows_persist now l info s sha a d es w p b w' :
  PersistVerificationWorkPlan marshal effect_uuid now l info s sha a d es w = Ok (p, b, w') → grows P w w'.
Proof using.
  unfold PersistVerificationWorkPlan. intros H. unpack H. case_match eqn:N; [unpack H; by simplify_eq|].
  case_match; [|done]. unpack H. simplify_eq. split; frame.
  by apply insert_subseteq.
Qed.

End Verify.

Section Applying.
Context (P : row → Prop) (plain_P : ∀ r, plain r → P r).
Context (st : settlement) (unknown_outcome : UUID → bool).

Lemma money_status f l : (∀ r, money (f r) = money r) → money <$> (map f l) = money <$> l.
Proof using. intros E. induction l as [|r l IH]; [done|]. csimpl. by rewrite IH, E. Qed.

Lemma with_books_id w : with_books w (books w) = w.
Proof using. by destruct w as [[]]. Qed.

(** A clawback: its row, once, the status of the credit, and the outcome column. *)
Lemma clawback_Ok s t c w w' : clawbackTaskCreditTx st unknown_outcome s t c w = Ok w' →
  ∃ d, writes_rows (λ r, kind r = KindClawback) (books w) d ∧
    (w' = with_books w d ∨
     ∃ row, w_tasks w !! t = Some row ∧ store_row t row (with_outcome "clawed_back" row) (with_books w d) = Ok w').
Proof using.
  unfold clawbackTaskCreditTx. intros H. apply bind_Ok in H as (w1 & E & H).
  assert (∃ d, writes_rows (λ r, kind r = KindClawback) (books w) d ∧ w1 = with_books w d) as (d & W & ->).
  { clear H. case_match; [|exists (books w); simplify_eq; by rewrite with_books_id]. case_match. case_match; [|done]. unpack E. simplify_eq.
    eexists. split; [|done]. apply writes_exact in E1 as (l & -> & A). eexists. split; [done|].
    etrans; [eapply adds_mono; [|exact A]; by intros r' [K _]|].
    exists []. rewrite app_nil_r. split; [|done]. apply money_status. intros x1. by case_match. }
  exists d. split; [done|]. clear E. destruct c; [|left; by simplify_eq]. destruct (w_tasks (with_books w d) !! t) as [row|] eqn:L; simplify_eq; [right; eauto|by left].
Qed.

Lemma clawback_plain r : kind r = KindClawback → plain r ∧ kind r ∉ prepaid_kinds.
Proof using.
  intros K. split; [apply plain_kind|]; rewrite K; unfold prepaid_kinds; rewrite !elem_of_cons, elem_of_nil; naive_solver.
Qed.

Lemma grows_clawback s t c w w' : clawbackTaskCreditTx st unknown_outcome s t c w = Ok w' → grows P w w'.
Proof using plain_P.
  intros (d & W & H)%clawback_Ok. trans (with_books w d).
  - eapply grows_books; [..|exact W]; intros r [Q N]%clawback_plain; auto.
  - destruct H as [->|(row & L & H)]; [done|]. grow.
Qed.

Context (supply : UUID → UUID → bool).

Lemma grows_planned now info id j pr peer i ch w b w' :
  insertPlannedTiebreakTx supply now info id j pr peer i ch w = Ok (b, w') → grows P w w'.
Proof using.
  unfold insertPlannedTiebreakTx. intros H. case_match; [|done]. case_match. case_match; [by simplify_eq|]. unpack H. simplify_eq.
  etrans; [|by eapply grows_count]. trans x1; [grow; [by eapply grows_consume|by left]|]. case_match; unpack E3; simplify_eq; grow.
Qed.

Lemma grows_effect now info e w a b w' : apply_effect st supply unknown_outcome now info e w = Ok (a, b, w') → grows P w w'.
Proof using plain_P.
  destruct e; simpl; intros H; unpack H; simplify_eq.
  - unfold dockReputationTx in E. case_match; simplify_eq. grow.
  - unfold recordVerificationEffectTx in E. unpack E. simplify_eq. trans (with_effects w ({[id]} ∪ w_effects w)); [grow|].
    case_match; [|by simplify_eq]. unfold promoteProvisionalWinnerTx in E0. case_match; [|done].
    case_match; unpack E0; simplify_eq; grow.
  - by eapply grows_clawback.
  - unfold quarantineTx. grow.
  - done.
  - by eapply grows_planned.
Qed.

Lemma grows_effects now info es : ∀ w a b w',
  apply_effects st supply unknown_outcome now info es w = Ok (a, b, w') → grows P w w'.
Proof using plain_P.
  induction es as [|e es IH]; simpl; intros w a b w' H; [by simplify_eq|].
  apply bind_Ok in H as (u & _ & H). apply bind_Ok in H as ([[r i] w1] & E & H). apply bind_Ok in H as ([[r' i'] w2] & E2 & H).
  simplify_eq. etrans; [by eapply grows_effect|by eapply IH].
Qed.

Lemma grows_verdict info l p o dg w w' : insertExactTaskVerdictTx info l p o dg w = Ok w' →
  grows P w w' ∧ w_verdicts w !! (in_task info, in_attempt info) = None ∧
  w' = with_verdicts w (<[(in_task info, in_attempt info) := verdict_row info l p o dg]> (w_verdicts w)).
Proof using.
  unfold insertExactTaskVerdictTx. intros H. case_match eqn:N; [by repeat case_match|]. simplify_eq. split; [|done].
  split; frame. by apply insert_subseteq.
Qed.

Lemma grows_terminalize now l p o dg w w' : terminalizeVerificationWorkTx now l p o dg w = Ok w' → grows P w w'.
Proof using.
  unfold terminalizeVerificationWorkTx. intros H. case_match; [|done]. unpack H. simplify_eq.
  eapply grows_set_work; [done..|]. reflect_bools. by eapply holds_not_terminal.
Qed.

Lemma reject_parts now info l p dg w w' :
  reject_attempt now info l p dg w = Ok w' →
  ∃ x y b z, insertExactTaskVerdictTx info l p OutcomeFail dg w = Ok x ∧
    update_task x (in_task info)
      (λ t, in_status [TVerifying] t && bool_decide (h_worker (t_hold t) = Some (in_worker info)) && (t_retry t =? in_attempt info))
      (excluded_row now (Some (in_worker info)) (requeueBackoff (in_attempt info))) = Ok (true, y) ∧
    update_job_status y (in_job info) ["verifying"] "running" = Ok (b, z) ∧
    terminalizeVerificationWorkTx now l p OutcomeFail dg z = Ok w' ∧ grows P x w'.
Proof using.
  unfold reject_attempt. intros H. unpack H. reflect_bools. subst. eexists _, _, _, _. split_and!; [done..|].
  etrans; [|by eapply grows_terminalize]. grow.
Qed.

Lemma grows_reject now info l p dg w w' : reject_attempt now info l p dg w = Ok w' → grows P w w'.
Proof using. intros (x & y & b & z & V & _ & _ & _ & G)%reject_parts. etrans; [|exact G]. by eapply grows_verdict. Qed.

Lemma grows_resolution now info l p c w w' : recordChunkArtifactResolutionTx now info l p c w = Ok w' → grows P w w'.
Proof using.
  unfold recordChunkArtifactResolutionTx. intros H. repeat case_match; unpack H; simplify_eq; try done.
  all: repeat case_match; unpack H; simplify_eq; try done; grow.
Qed.

End Applying.

(** *** Accepting an attempt *)

Definition settle_kinds : list string := [KindBuyerCharge; KindSupplierCredit; KindPlatformTake].

Lemma settle_not_prepaid k : k ∈ settle_kinds → k ∉ prepaid_kinds.
Proof. unfold settle_kinds, prepaid_kinds. rewrite !elem_of_cons, !elem_of_nil. naive_solver. Qed.

(** The rows of a plan that passed the check: of the task, and of the three kinds. *)
Definition settles (id : UUID) (e : LedgerEntry) : Prop := le_TaskID e = Some id ∧ le_Kind e ∈ settle_kinds.

Lemma check_entries_Ok info es : ∀ c seen u,
  check_entries info c seen es = Ok u →
  Forall (λ e, le_TaskID e = Some (in_task info)) es ∧ NoDup (le_Kind <$> es) ∧ ∀ k, k ∈ seen → k ∉ le_Kind <$> es.
Proof.
  induction es as [|e es IH]; intros c seen u H; [split_and!; [done|apply NoDup_nil_2|set_solver]|].
  simpl in H. unpack H. reflect_bools. apply IH in H as (F & N & S). csimpl. split_and!.
  - by constructor.
  - apply NoDup_cons. split; [|done]. apply S. set_solver.
  - intros k K [->|?]%elem_of_cons; [done|]. by apply (S k); [right|].
Qed.

Lemma entry_of_Some k es e : entry_of k es = Some e → e ∈ es ∧ le_Kind e = k.
Proof.
  unfold entry_of. intros ([i x] & F & ->)%fmap_Some.
  apply list_find_Some in F as (L & K & _). simpl. split; [by eapply list_elem_of_lookup_2|done].
Qed.

Lemma three_rows_kinds es :
  length es = 3%nat → NoDup (le_Kind <$> es) → three_rows es = true → (le_Kind <$> es) ≡ₚ settle_kinds.
Proof.
  intros L N T. unfold three_rows in T. repeat case_match; try done.
  symmetry. apply submseteq_length_Permutation; [|by rewrite length_fmap, L].
  apply NoDup_submseteq; [apply (bool_decide_unpack _); vm_compute; exact I|].
  intros k. unfold settle_kinds. rewrite !elem_of_cons, elem_of_nil, list_elem_of_fmap.
  repeat match goal with H : entry_of _ _ = Some _ |- _ => apply entry_of_Some in H as [? ?] end. naive_solver.
Qed.

Section Accepting.
Context (st : settlement) (supply : UUID → UUID → bool).
Context (marshal : decision → list canonicalVerificationSettlement → res string).
Context (effect_uuid : UUID → Z → nat → effect → UUID).
Context (unknown_outcome : UUID → bool).

Lemma check_effects_valid info es : ∀ i seen u,
  check_effects effect_uuid info i seen es = Ok u → Forall (λ e, valid_effect info e = true) es.
Proof using.
  induction es as [|e es IH]; simpl; intros i seen u H; [done|]. unpack H. reflect_bools. constructor; [done|by eapply IH].
Qed.

Lemma shape_effects info d es u :
  validateVerificationDecisionShape effect_uuid info d es = Ok u → Forall (λ e, valid_effect info e = true) (dc_effects d).
Proof using. unfold validateVerificationDecisionShape. intros H. unpack H. by eapply check_effects_valid. Qed.

Lemma shape_kinds info d es u :
  validateVerificationDecisionShape effect_uuid info d es = Ok u → Forall (settles (in_task info)) es ∧ NoDup (le_Kind <$> es).
Proof using.
  unfold validateVerificationDecisionShape. intros H. unpack H. case_match; unpack H; reflect_bools.
  - destruct es; [split; [done|apply NoDup_nil_2]|by simpl in *].
  - apply check_entries_Ok in E0 as (F & N & _). apply Nat.eqb_eq in G1. pose proof (three_rows_kinds _ G1 N G2) as K.
    split; [|done]. rewrite Forall_forall in F |- *. intros e E1. split; [by apply F|]. rewrite <-K. by apply list_elem_of_fmap_2.
Qed.

Lemma shape_settles info d es u :
  validateVerificationDecisionShape effect_uuid info d es = Ok u → Forall (settles (in_task info)) es.
Proof using. intros H. by apply shape_kinds in H as [? _]. Qed.

(** A payable plan has a charge of its task. *)
Lemma shape_charge info d es u :
  validateVerificationDecisionShape effect_uuid info d es = Ok u → payable (dc_outcome d) = true →
  ∃ e, e ∈ es ∧ le_Kind e = KindBuyerCharge ∧ le_TaskID e = Some (in_task info).
Proof using.
  intros H Pd. pose proof (shape_settles _ _ _ _ H) as S. unfold validateVerificationDecisionShape in H. unpack H. case_match eqn:N.
  - apply one_of_spec in N. unfold payable in Pd. apply one_of_spec in Pd. rewrite !elem_of_cons, elem_of_nil in N.
    rewrite !elem_of_cons, elem_of_nil in Pd.
    unfold OutcomePass, OutcomeFail, OutcomePassWithPenalty, OutcomeLossNoPayout in *. destruct_or!; congruence.
  - unpack H. reflect_bools. unfold three_rows in *. destruct (entry_of KindBuyerCharge es) as [e|] eqn:B; [|done].
    apply entry_of_Some in B as [I K]. exists e. split_and!; [done..|]. rewrite Forall_forall in S. by apply S.
Qed.

Lemma shape_some info d es u :
  validateVerificationDecisionShape effect_uuid info d es = Ok u → es = [] ∨ ∃ e, e ∈ es ∧ le_Kind e = KindBuyerCharge.
Proof using.
  unfold validateVerificationDecisionShape. intros H. unpack H. case_match; unpack H; reflect_bools.
  - left. by destruct es.
  - right. unfold three_rows in *. destruct (entry_of KindBuyerCharge es) as [e|] eqn:B; [|done]. apply entry_of_Some in B as [I K]. eauto.
Qed.

Lemma fence_entries info es w es' c :
  fenceHedgeSettlementTx info es w = Ok (es', c) →
  ∃ t, w_tasks w !! in_task info = Some t ∧
  (es' = es ∧ (t_redundancy t = true ∨ siblingSettled w (default (in_task info) (t_hedged_from t)) (in_task info) = false)
   ∨ es' = [] ∧ t_redundancy t = false ∧ siblingSettled w (default (in_task info) (t_hedged_from t)) (in_task info) = true).
Proof using.
  unfold fenceHedgeSettlementTx. intros H. case_match eqn:L; [|done]. exists t. split; [done|].
  case_match; [left; simplify_eq; tauto|]. unpack H. case_match; simplify_eq; [right|left]; tauto.
Qed.

(** Rows an accepted attempt may add: those of its entries, and quiet ones. *)
Definition settling (es : list LedgerEntry) (r : row) : Prop := quiet r ∨ ∃ e, e ∈ es ∧ of_entry e r.

(** The parts of an acceptance: the row, the verdict, the work, and then the money, the
    artifact and the siblings. *)
Record accepts (now : Z) (info : CommitTaskInfo) (l : VerificationLease) (p : vplan) (dg : string) (prepaid : bool)
    (buyer : UUID) (es : list LedgerEntry) (c : bool) (w x y z u v o w' : world) : Prop := {
  ac_fence : fenceHedgeSettlementTx info (vp_settlement p) w = Ok (es, c);
  ac_row : update_task w (in_task info)
      (λ t, bool_decide (h_worker (t_hold t) = Some (in_worker info)) && in_status [TVerifying] t &&
            (t_retry t =? in_attempt info)) (accepted_row now (dc_outcome (vp_decision p))) = Ok (true, x);
  ac_verdict : insertExactTaskVerdictTx info l p (dc_outcome (vp_decision p)) dg x = Ok y;
  ac_work : terminalizeVerificationWorkTx now l p (dc_outcome (vp_decision p)) dg
      (let y1 := if c then update_jobx y (in_job info) one_done else y in
       with_suppliers y1 (alter one_completed (in_supplier info) (w_suppliers y1))) = Ok z;
  ac_entries : ∃ d, insert_entries st (books z) es = Ok d ∧ u = with_books z d;
  ac_debit : prepaid && negb (length es =? 0)%nat = false ∧ v = u ∨
             prepaid && negb (length es =? 0)%nat = true ∧
             ∃ m q, prepaid_charge buyer es 0 = Ok m ∧ 0 < m ∧
               debitPrepaidForTaskTx st (w_purse u) buyer (in_task info) m = Ok q ∧ v = with_purse u q;
  ac_artifact : recordChunkArtifactResolutionTx now info l p c v = Ok o;
  ac_siblings : update_tasks o (cancelled_sibling o info) sibling_row = Ok w'
}.

Lemma accept_parts now info l p dg prepaid buyer w w' :
  accept_attempt st now info l p dg prepaid buyer w = Ok w' →
  ∃ es c x y z u v o, accepts now info l p dg prepaid buyer es c w x y z u v o w'.
Proof using.
  intros H. unfold accept_attempt in H. destruct (fenceHedgeSettlementTx _ _ _) as [[es c]|] eqn:Fe; [|done].
  unpack H. reflect_bools. subst. cbv zeta in H. unpack H.
  exists es, c. eexists _, _, _, (with_books _ _), _, _. split; [done..|by eauto| |done|done].
  case_match; [|left; by simplify_eq]. unpack E3. case_match; [|done]. simplify_eq. reflect_bools. right. split; [done|]. eauto 10.
Qed.

Lemma grows_accepts (P : row → Prop) now info l p dg prepaid buyer es c w x y z u v o w' :
  (∀ r, plain r → P r) → Forall (settles (in_task info)) (vp_settlement p) →
  accepts now info l p dg prepaid buyer es c w x y z u v o w' →
  grows P w x ∧ grows P x y ∧ grows P y z ∧ grows (settling es) z u ∧
  grows (λ r, kind r ∈ prepaid_kinds) u v ∧ grows P v w'.
Proof using.
  intros Q F [Fe R V W (d & En & ->) D A S].
  assert (Forall (settles (in_task info)) es) as F'.
  { apply fence_entries in Fe as (t & _ & [[-> _]|[-> _]]); [done|by constructor]. }
  split_and!.
  - grow.
  - by eapply grows_verdict.
  - etrans; [|by eapply grows_terminalize]. cbv zeta. grow.
  - eapply grows_books; [..|by eapply writes_entries]; intros r (e & I & O); [right; by exists e|].
    rewrite Forall_forall in F'. destruct O as [-> _]. by apply settle_not_prepaid, F'.
  - destruct D as [[_ ->]|(_ & m & q & _ & _ & D & ->)]; [done|].
    apply grows_honest; [done|]. by eapply debit_task_honest.
  - etrans; [by eapply grows_resolution|]. eapply grows_updates; [|exact S]. auto with go.
Qed.

Lemma grows_accept now info l p dg prepaid buyer w w' :
  Forall (settles (in_task info)) (vp_settlement p) →
  accept_attempt st now info l p dg prepaid buyer w = Ok w' →
  ∃ es c, fenceHedgeSettlementTx info (vp_settlement p) w = Ok (es, c) ∧ grows (settling es) w w'.
Proof using.
  intros F (es & c & x & y & z & u & v & o & A)%accept_parts. exists es, c. split; [apply A|].
  apply (grows_accepts (settling es)) in A as (G1 & G2 & G3 & G4 & G5 & G6); [|intros r Pl; left; by apply plain_quiet|done].
  apply (grows_mono _ (settling es)) in G5; [|intros r K; left; by apply prepaid_quiet].
  do 5 (etrans; [eassumption|]). done.
Qed.

(** What applying a plan does: a replay changes nothing; otherwise the effects are
    applied to the row the plan was made for, and the attempt is rejected or accepted. *)
Record applies (now : Z) (l : VerificationLease) (p : vplan) (info : CommitTaskInfo) (t : task) (j : job) (w w1 w' : world) : Prop := {
  ap_row : w_tasks w !! in_task info = Some t;
  ap_job : t_job t = in_job info;
  ap_status : t_status t = TVerifying;
  ap_retry : t_retry t = in_attempt info;
  ap_worker : h_worker (t_hold t) = Some (in_worker info);
  ap_parent : job_row w (in_job info) = Some j;
  ap_live : job_status j ∈ live_statuses;
  ap_shape : Forall (settles (in_task info)) (vp_settlement p);
  ap_kinds : NoDup (le_Kind <$> vp_settlement p);
  ap_some : vp_settlement p = [] ∨ ∃ e, e ∈ vp_settlement p ∧ le_Kind e = KindBuyerCharge;
  ap_charge : payable (dc_outcome (vp_decision p)) = true →
    ∃ e, e ∈ vp_settlement p ∧ le_Kind e = KindBuyerCharge ∧ le_TaskID e = Some (in_task info);
  ap_valid : Forall (λ e, valid_effect info e = true) (dc_effects (vp_decision p));
  ap_effects : ∃ r i, apply_effects st supply unknown_outcome now info (dc_effects (vp_decision p)) w = Ok (r, i, w1);
  ap_outcome : dc_outcome (vp_decision p) = OutcomeFail ∧ reject_attempt now info l p (vp_digest p) w1 = Ok w' ∨
               dc_outcome (vp_decision p) ≠ OutcomeFail ∧
               accept_attempt st now info l p (vp_digest p) (prepaid_required j) (job_buyer j) w1 = Ok w'
}.

Lemma verify_Ok now l p info docs w r w' :
  VerifyJobTx st supply marshal effect_uuid unknown_outcome now l p info docs w = Ok (r, w') →
  lockVerificationWorkFenceTx now info l p w = Ok tt ∧
  (Applied r = false ∧ w' = w ∧
   w_verdicts w !! (in_task info, in_attempt info) = Some (verdict_row info l p (dc_outcome (vp_decision p)) (vp_digest p)) ∨
   Applied r = true ∧ ∃ t j w1, applies now l p info t j w w1 w').
Proof using.
  unfold VerifyJobTx. intros H. unpack H. case_match eqn:L; [|done]. unpack H. reflect_bools. subst.
  destruct x1. split; [done|]. case_match eqn:V.
  - left. case_match eqn:A; [|done]. simplify_eq. split_and!; [done..|]. unfold assertExactTaskVerdictTx in A.
    case_match eqn:N; [|done]. unpack A. by reflect_bools; subst.
  - right. case_match eqn:J; [|done]. unpack H. case_match eqn:Ef; [|done]. do 2 case_match. reflect_bools.
    unfold in_status in *. reflect_bools.
    assert (t_status t = TVerifying) by set_solver.
    assert (job_status j ∈ live_statuses) by (by apply one_of_spec).
    case_match eqn:O; unpack H; simplify_eq; reflect_bools; (split; [done|]); exists t, j, w0;
      (split; [done..|by eapply shape_settles|by eapply shape_kinds|by eapply shape_some|by eapply shape_charge|by eapply shape_effects|by eauto|tauto]).
Qed.

Lemma grows_verify now l p info docs w r w' :
  VerifyJobTx st supply marshal effect_uuid unknown_outcome now l p info docs w = Ok (r, w') →
  grows (λ r, quiet r ∨ kind r = KindBuyerCharge ∧ task_id r = Some (in_task info)) w w'.
Proof using.
  intros [_ [(_ & -> & _)|(_ & t & j & w1 & [? ? ? ? ? ? ? Sh _ _ _ _ (re & i & E) O])]]%verify_Ok; [done|].
  trans w1; [eapply grows_effects; [|done]; intros x Pl; left; by apply plain_quiet|].
  destruct O as [[_ O]|[_ O]]; [by eapply grows_reject|].
  apply grows_accept in O as (es & c & Fe & G); [|done]. eapply grows_mono; [|exact G].
  intros x [Q|(e & I & K & T & _)]; [by left|]. destruct (decide (kind x = KindBuyerCharge)); [right|left; by intros []].
  split; [done|]. rewrite T. apply fence_entries in Fe as (t' & _ & [[-> _]|[-> _]]); [|by apply not_elem_of_nil in I].
  rewrite Forall_forall in Sh. by apply Sh.
Qed.

End Accepting.
