(* ===== verification/TaskLifecycle.v ===== *)
(** * TaskLifecycle: what holds through any history of the task store

    The operations of [TaskStore] and [Verification] as the steps of one system, in any
    order and interleaving.  A superseded attempt can do nothing any more; an attempt is
    decided once; a task and its hedges are charged once; and a task that was charged is
    never accepted again, which is what goes wrong when the no-peer watchdog puts a
    finished task back.  A task of a job priced for several families that the wrong one
    claimed cannot run. *)
From stdpp Require Import base numbers list gmap strings pretty.
From Stdlib Require Import SpecFloat.
From S2P Require Import Prelude.
From S2P Require Import Float64.
From S2P Require Import Sha256.
From S2P Require Import Currency.
From S2P Require Import LedgerWrite.
From S2P Require Import Purse.
From S2P Require Import ObservedOutput.
From S2P Require Import TaskStore.
From S2P Require Import Verification.
From S2P Require Import TaskGrowth.
Local Open Scope Z_scope.
Local Open Scope go_scope.

(** ** Charges of a task and its hedges *)

Section Charges.
Context (st : settlement).

Lemma filter_length_le {A} (P Q : A → Prop) `{∀ x, Decision (P x)} `{∀ x, Decision (Q x)} l :
  (∀ x, x ∈ l → P x → Q x) → (length (filter P l) ≤ length (filter Q l))%nat.
Proof using.
  induction l as [|x l IH]; intros I; [done|]. rewrite !filter_cons.
  assert (length (filter P l) ≤ length (filter Q l))%nat by (apply IH; intros; apply I; [by right|done]).
  case_decide as D1; case_decide as D2; simpl; try lia. destruct D2. apply I; [left|done].
Qed.

Definition charges (id : UUID) (l : list row) : list row := filter (λ r, is_charge_of id r = true) l.

Definition is_charged (w : world) (id : UUID) : Prop := charges id (moneys w) ≠ [].

Lemma charges_app id l l' : charges id (l ++ l') = charges id l ++ charges id l'.
Proof using. apply filter_app. Qed.

Lemma charges_quiet id rs : Forall quiet rs → charges id rs = [].
Proof using.
  induction 1 as [|r rs Q _ IH]; [done|]. unfold charges in *. rewrite filter_cons_False; [done|].
  unfold is_charge_of. intros E. reflect_bools. apply Q. split; congruence.
Qed.

Lemma charges_grows id w w' : grows quiet w w' → charges id (moneys w') = charges id (moneys w).
Proof using.
  intros G. destruct (g_ledger _ _ _ G) as (rs & E & Q). unfold moneys. rewrite E, charges_app, (charges_quiet _ rs), app_nil_r; done.
Qed.

(** Every charge is of a task that exists; hedges are hedges of primaries; a task has at
    most one charge, and of a family at most one task has. *)
Record hedges_ok (w : world) : Prop := {
  ho_known : ∀ id, is_charged w id → w_tasks w !! id ≠ None;
  ho_roots : ∀ id t root, w_tasks w !! id = Some t → t_redundancy t = false → t_hedged_from t = Some root →
    ∃ p, w_tasks w !! root = Some p ∧ t_redundancy p = false ∧ t_hedged_from p = None;
  ho_once : ∀ id, (length (charges id (moneys w)) ≤ 1)%nat;
  ho_family : ∀ root i1 t1 i2 t2, w_tasks w !! i1 = Some t1 → w_tasks w !! i2 = Some t2 →
    family root i1 t1 = true → family root i2 t2 = true → is_charged w i1 → is_charged w i2 → i1 = i2
}.

Lemma family_birth root id t t' : t_birth t' = t_birth t → family root id t' = family root id t.
Proof using. unfold family, t_redundancy, t_hedged_from. by intros ->. Qed.

Lemma charged_grows id w w' : grows quiet w w' → is_charged w' id ↔ is_charged w id.
Proof using. intros G. unfold is_charged. by rewrite (charges_grows id _ _ G). Qed.

(** A charged task of the later state, as it was in the earlier one. *)
Lemma charged_row w w' id t' :
  hedges_ok w → grows quiet w w' → w_tasks w' !! id = Some t' → is_charged w' id →
  ∃ t, w_tasks w !! id = Some t ∧ t_birth t' = t_birth t ∧ is_charged w id.
Proof using.
  intros O G L' C. rewrite charged_grows in C by done. destruct (w_tasks w !! id) as [t|] eqn:L; [|by apply (ho_known _ O) in C].
  destruct (g_rows _ _ _ G _ _ L) as (t2 & L2 & B & _). simplify_eq. eauto.
Qed.

Lemma roots_grows P w w' : grows P w w' → (∀ id t root, w_tasks w !! id = Some t → t_redundancy t = false → t_hedged_from t = Some root →
    ∃ p, w_tasks w !! root = Some p ∧ t_redundancy p = false ∧ t_hedged_from p = None) →
  ∀ id t root, w_tasks w' !! id = Some t → t_redundancy t = false → t_hedged_from t = Some root →
    ∃ p, w_tasks w' !! root = Some p ∧ t_redundancy p = false ∧ t_hedged_from p = None.
Proof using.
  intros G O id t root L' R Hf.
  assert (∃ p, w_tasks w !! root = Some p ∧ t_redundancy p = false ∧ t_hedged_from p = None) as (p & Lp & Rp & Hp).
  { destruct (w_tasks w !! id) as [t0|] eqn:L.
    - destruct (g_rows _ _ _ G _ _ L) as (t2 & L2 & B & _). simplify_eq. unfold t_redundancy, t_hedged_from in *.
      rewrite B in *. eauto.
    - destruct (g_born _ _ _ G _ _ L' L) as [?|(root' & p & ? & ? & ? & ? & _)]; [congruence|]. simplify_eq. eauto. }
  destruct (g_rows _ _ _ G _ _ Lp) as (p2 & Lp2 & B & _). exists p2. unfold t_redundancy, t_hedged_from in *. by rewrite B.
Qed.

Lemma hedges_grows w w' : grows quiet w w' → hedges_ok w → hedges_ok w'.
Proof using.
  intros G O. split.
  - intros id C. rewrite charged_grows in C by done. apply (ho_known _ O) in C. destruct (w_tasks w !! id) as [t|] eqn:L; [|done].
    by destruct (g_rows _ _ _ G _ _ L) as (t2 & -> & _).
  - eapply roots_grows; [done|]. apply O.
  - intros id. rewrite (charges_grows _ _ _ G). apply O.
  - intros root i1 t1 i2 t2 L1 L2 F1 F2 C1 C2.
    destruct (charged_row _ _ _ _ O G L1 C1) as (u1 & M1 & B1 & D1). destruct (charged_row _ _ _ _ O G L2 C2) as (u2 & M2 & B2 & D2).
    rewrite (family_birth _ _ _ _ B1) in F1. rewrite (family_birth _ _ _ _ B2) in F2. by eapply (ho_family _ O).
Qed.

(** *** Inserting the rows of a plan *)

Lemma new_fresh d e d' id :
  insertNewLedgerEntryTx st d e = Ok d' → le_TaskID e = Some id → ∀ r, r ∈ ledger d → task_id r = Some id → kind r ≠ le_Kind e.
Proof using.
  unfold insertNewLedgerEntryTx, insertLedgerEntryOnTaskConflictDoNothingTx. intros H T r Hr Tr Kr.
  apply bind_Ok in H as ([n d1] & W & H). apply refuse_Ok in H as [N _]. apply negb_false_iff, Z.eqb_eq in N. subst n.
  apply bind_Ok in W as (e' & R & W). apply (resolved_wrote _ _ _ None) in R as [Wk _ _ Wt _ _].
  pose proof W as C. apply insert_one_row in C as [(? & _)|(_ & _ & C)]; [done|].
  apply exec_insert_Ok in W as (l & W & _). rewrite insert_rows_skip in W; [by simplify_eq|].
  intros s ->%list_elem_of_singleton. split; [done|]. exists id. split; [by rewrite Wt|].
  apply collides_spec, list_elem_of_bind. exists r. split; [|done]. rewrite Wk. cbn [Kind ledgerInsertFromEntry]. rewrite <-Kr. by apply task_key.
Qed.

Lemma charges_money id l : charges id (money <$> l) = money <$> charges id l.
Proof using.
  induction l as [|r l IH]; [done|]. unfold charges in *. csimpl. rewrite !filter_cons, IH.
  change (is_charge_of id (money r)) with (is_charge_of id r). by case_decide.
Qed.

(** A row of a plan is either not a charge of [id], or the first one. *)
Lemma charges_new id d e d' :
  insertNewLedgerEntryTx st d e = Ok d' →
  (charges id (ledger d') = charges id (ledger d) ∨ charges id (ledger d) = []) ∧
  (le_TaskID e = Some id ∨ charges id (ledger d') = charges id (ledger d)) ∧
  ((length (charges id (ledger d)) ≤ 1)%nat → (length (charges id (ledger d')) ≤ 1)%nat).
Proof using.
  intros H. pose proof (new_fresh _ _ _ id H) as Fr. apply writes_new in H as [_ (r & -> & [Wk _ _ Wt _ _])]. simpl in Wk, Wt.
  cbn [ledger with_ledger]. rewrite charges_app. destruct (is_charge_of id r) eqn:C.
  - assert (charges id [r] = [r]) as -> by (unfold charges; by rewrite filter_cons_True).
    pose proof C as C'. unfold is_charge_of in C'. reflect_bools.
    assert (charges id (ledger d) = []) as ->; [|split_and!; [by right|left; congruence|simpl; lia]].
    apply elem_of_nil_inv. intros x [Cx Hx]%list_elem_of_filter. unfold is_charge_of in Cx. reflect_bools.
    assert (le_TaskID e = Some id) as Te by congruence. eapply (Fr Te x); [done..|congruence].
  - assert (charges id [r] = []) as -> by (unfold charges; by rewrite filter_cons_False by congruence).
    rewrite app_nil_r. tauto.
Qed.

Lemma charges_entries id es : ∀ d d',
  insert_entries st d es = Ok d' →
  (charges id (ledger d') = charges id (ledger d) ∨ charges id (ledger d) = []) ∧
  ((∃ e, e ∈ es ∧ le_TaskID e = Some id) ∨ charges id (ledger d') = charges id (ledger d)) ∧
  ((length (charges id (ledger d)) ≤ 1)%nat → (length (charges id (ledger d')) ≤ 1)%nat).
Proof using.
  induction es as [|e es IH]; simpl; intros d d' H; [simplify_eq; tauto|].
  apply bind_Ok in H as (d1 & W & H). apply (charges_new id) in W as (A1 & B1 & C1). apply IH in H as (A2 & B2 & C2).
  split_and!; [| |auto].
  - destruct A1 as [E1|N1]; [rewrite <-E1; done|by right].
  - destruct B1 as [T1|E1]; [left; exists e; split; [left|done]|].
    destruct B2 as [(e' & I & T)|E2]; [left; exists e'; split; [by right|done]|right; congruence].
Qed.

(** Nothing else of the family has been charged. *)
Definition unsettled (w : world) (root id : UUID) : Prop :=
  ∀ i t, w_tasks w !! i = Some t → family root i t = true → is_charged w i → i = id.

Lemma sibling_unsettled w root id : siblingSettled w root id = false → unsettled w root id.
Proof using.
  unfold siblingSettled. intros S i t L F C. destruct (decide (i = id)) as [|N]; [done|]. rewrite <-not_true_iff_false in S.
  destruct S. apply existsb_exists. exists (i, t). split; [by apply list_elem_of_In, elem_of_map_to_list|]. simpl.
  rewrite F, bool_decide_false by done. simpl. unfold is_charged, moneys in C. rewrite charges_money in C.
  destruct (charges i (ledger (books w))) as [|r rs] eqn:E; [done|]. apply existsb_exists. exists r. rewrite <-list_elem_of_In.
  assert (r ∈ charges i (ledger (books w))) as [R I]%list_elem_of_filter by (rewrite E; left). done.
Qed.

Lemma unsettled_grows w w' root id : hedges_ok w → grows quiet w w' → unsettled w root id → unsettled w' root id.
Proof using.
  intros O G U i t L F C. destruct (charged_row _ _ _ _ O G L C) as (t0 & L0 & B & C0).
  eapply U; [exact L0| |done]. by rewrite <-(family_birth _ _ _ _ B).
Qed.

Lemma hedges_entries w id t es d :
  hedges_ok w → w_tasks w !! id = Some t → Forall (settles id) es → insert_entries st (books w) es = Ok d →
  es = [] ∨ t_redundancy t = true ∨ unsettled w (default id (t_hedged_from t)) id →
  hedges_ok (with_books w d).
Proof using.
  intros O L F H Fe.
  assert (∀ i, i ≠ id ∨ es = [] → charges i (moneys (with_books w d)) = charges i (moneys w)) as Same.
  { intros i D. unfold moneys. rewrite !charges_money. f_equal. destruct (charges_entries i _ _ _ H) as (_ & [(e & I & T)|E] & _); [|done].
    rewrite Forall_forall in F. destruct (F _ I) as [T' _]. destruct D as [D| ->]; [congruence|by apply not_elem_of_nil in I]. }
  assert (∀ i, i ≠ id ∨ es = [] → is_charged (with_books w d) i ↔ is_charged w i) as SameC
    by (intros i D; unfold is_charged; by rewrite Same).
  assert (∀ root i t', w_tasks w !! i = Some t' → family root id t = true → family root i t' = true → is_charged w i →
            i = id ∨ es = []) as Key.
  { intros root i t' Li F1 F2 C. destruct Fe as [|[R|U]]; [by right| |].
    - unfold family in F1. by rewrite R in F1.
    - left. unfold family in F1. apply andb_true_iff in F1 as [R1 F1]. apply negb_true_iff in R1.
      apply orb_true_iff in F1 as [F1|F1]; reflect_bools.
      + subst root. destruct (t_hedged_from t) as [h|] eqn:Hf; [|by eapply U].
        destruct (ho_roots _ O _ _ _ L R1 Hf) as (q & Lq & Rq & Hq).
        unfold family in F2. apply andb_true_iff in F2 as [R2 F2]. apply negb_true_iff in R2.
        apply orb_true_iff in F2 as [F2|F2]; reflect_bools; [done|].
        destruct (ho_roots _ O _ _ _ Li R2 F2) as (q2 & Lq2 & _ & Hq2). congruence.
      + rewrite F1 in U. by eapply U. }
  split; cbn [w_tasks with_books with_purse].
  - intros i C. destruct (decide (i = id)) as [->|D]; [congruence|]. rewrite SameC in C by (by left). by apply O.
  - apply O.
  - intros i. unfold moneys. rewrite charges_money, length_fmap. apply (charges_entries i _ _ _ H).
    pose proof (ho_once _ O i) as B. unfold moneys in B. by rewrite charges_money, length_fmap in B.
  - intros root i1 t1 i2 t2 L1 L2 F1 F2 C1 C2.
    destruct (decide (i1 = id)) as [->|D1]; destruct (decide (i2 = id)) as [->|D2]; try done.
    + simplify_eq. rewrite SameC in C2 by (by left). destruct (Key _ _ _ L2 F1 F2 C2) as [->|E]; [done|].
      rewrite SameC in C1 by (by right). by eapply (ho_family _ O).
    + simplify_eq. rewrite SameC in C1 by (by left). destruct (Key _ _ _ L1 F2 F1 C1) as [->|E]; [done|].
      rewrite SameC in C2 by (by right). by eapply (ho_family _ O).
    + rewrite SameC in C1 by (by left). rewrite SameC in C2 by (by left). by eapply (ho_family _ O).
Qed.

End Charges.

Section History.
Context (st : settlement) (supply : UUID → UUID → bool).
Context (marshal : decision → list canonicalVerificationSettlement → res string).
Context (effect_uuid : UUID → Z → nat → effect → UUID).
Context (unknown_outcome : UUID → bool).

(** ** Histories *)

(** A plan as [VerificationWorkPlan] reads it from its table: the amounts of its rows are
    the parsed texts of the amounts it was recorded with. *)
Definition read_back (p : vplan) : Prop :=
  ∃ entries, vp_settlement p = ledgerEntriesFromCanonical (canonicalVerificationSettlements entries).

(** Every operation in any order, with any arguments.  With [stored], applied plans are
    the ones read from the table, as the processor reads them before it applies them, and
    the integers of the frozen documents have their width; without it any plan and any
    documents are admitted.  Hedges are taken of the tasks the sweeps select
    ([primary_task], see [straggler_primary]).  The last three steps stand for the rest of
    the system: workers and suppliers change at will, other components write rows that are
    neither charges nor prepaid, and move a balance together with its row. *)
Inductive step (stored : bool) (w : world) : world → Prop :=
  | step_claim now k p1 p2 pl c w' : ClaimTasksTx st supply now k p1 p2 pl w = Ok (c, w') → step stored w w'
  | step_start now id k a w' : StartTask st supply now id k a w = Ok w' → step stored w w'
  | step_heartbeat now k leases w' : renew_leases now k leases w = Ok w' → step stored w w'
  | step_commit now id k wid c input w' : completeTaskTx now id k wid c input w = Ok w' → step stored w w'
  | step_fail now id k a c o w' : FailTaskTx now id k a c w = Ok (o, w') → step stored w w'
  | step_requeue now id w' : RequeueTask now id w = Ok w' → step stored w w'
  | step_force now id limit w' : AdminForceRequeueTask now id limit w = Ok w' → step stored w w'
  | step_sweep now limit w' : requeueStaleTasks now limit w = Ok w' → step stored w w'
  | step_rescue now id b x w' : RescueRunningTask now id b w = Ok (x, w') → step stored w w'
  | step_rescue_job now j b x w' : RescueStuckJob now j b w = Ok (x, w') → step stored w w'
  | step_cancel_stuck j x w' : CancelStuckJob j w = Ok (x, w') → step stored w w'
  | step_cancel j b w' : CancelJob j b w = Ok w' → step stored w w'
  | step_detach j w' : DetachUnfinishedTasksForTerminalJob j w = Ok w' → step stored w w'
  | step_finish j reserve w' : accrues reserve → completeJobEconomics st j reserve w = Ok w' → step stored w w'
  | step_hedge now id j pr peer i ch x w' :
      primary_task w pr → InsertHedgeTask supply now id j pr peer i ch w = Ok (x, w') → step stored w w'
  | step_tiebreak now id j pr peer i ch cl x w' :
      InsertTiebreakTask supply now id j pr peer i ch cl w = Ok (x, w') → step stored w w'
  | step_reassign now id j an pin at_ peer age x w' :
      ReassignPinnedTiebreak supply now id j an pin at_ peer age w = Ok (x, w') → step stored w w'
  | step_lease now id a o l tok x w' : ClaimVerificationWorkForAttempt now id a o l tok w = Ok (x, w') → step stored w w'
  | step_leases now o l chosen x w' : ClaimVerificationWork now o l chosen w = (x, w') → step stored w w'
  | step_renew_lease now l ext w' : RenewVerificationLease now l ext w = Ok w' → step stored w w'
  | step_release now l at_ w' : ReleaseVerificationWork now l at_ w = Ok w' → step stored w w'
  | step_sampling now l pr s b w' : PinVerificationSampling now l pr s w = Ok (b, w') → step stored w w'
  | step_artifact now l a b w' : PinVerificationArtifact now l a w = Ok (b, w') → step stored w w'
  | step_plan now l info s sha a d es p b w' :
      PersistVerificationWorkPlan marshal effect_uuid now l info s sha a d es w = Ok (p, b, w') → step stored w w'
  | step_apply now l p info docs r w' :
      (stored = true → read_back p ∧ typed_documents docs) →
      VerifyJobTx st supply marshal effect_uuid unknown_outcome now l p info docs w = Ok (r, w') → step stored w w'
  | step_fleet ws ss : step stored w (with_suppliers (with_workers w ws) ss)
  | step_books d : writes_rows (λ r, kind r ∉ KindBuyerCharge :: prepaid_kinds) (books w) d → step stored w (with_books w d)
  | step_purse p :
      (purse_ok (w_purse w) → purse_ok p) → writes_rows (λ r, kind r ∈ prepaid_kinds ∧ task_id r = None) (books w) (purse_books p) →
      step stored w (with_purse w p).

Definition history (stored : bool) : world → world → Prop := rtc (step stored).

Lemma straggler_primary now a b m limit w id : id ∈ StragglerTasks now a b m limit w → primary_task w id.
Proof using.
  intros (t & L & S)%select_due_elem t' L'. simplify_eq. unfold hedgeable in S. by reflect_bools.
Qed.

Lemma tail_primary now a m limit w id : id ∈ EndgameTailTasks now a m limit w → primary_task w id.
Proof using.
  intros (t & L & S)%select_due_elem t' L'. simplify_eq. unfold hedgeable in S. by reflect_bools.
Qed.

(** *** Growth *)

(** What one step may charge: the task whose plan it applies. *)
Lemma step_grows stored w w' :
  step stored w w' → grows plain w w' ∨
  ∃ now l p info docs r, VerifyJobTx st supply marshal effect_uuid unknown_outcome now l p info docs w = Ok (r, w').
Proof using.
  intros [| | | | | | | | | | | | | | | | | | | | | | | |? ? ? ? ? ? ? _ H| | |];
    [left; eauto using grows_claim, grows_start, grows_renew, grows_complete, grows_fail, grows_requeue, grows_force_requeue,
       grows_sweep, grows_rescue, grows_rescue_job, grows_cancel_stuck, grows_cancel, grows_detach, grows_economics, grows_hedge,
       grows_tiebreak, grows_reassign, grows_claim_attempt, grows_claim_work, grows_renew_work, grows_release_work,
       grows_sampling, grows_artifact, grows_persist..| |left|left|left].
  - right. eauto 10.
  - by apply grows_same.
  - eapply grows_books; [..|done]; intros r K; [apply plain_kind; unfold prepaid_kinds in K|]; set_solver.
  - apply grows_purse; [|done..]. by intros r T _.
Qed.

Definition any (r : row) : Prop := True.

Lemma history_grows stored w w' : history stored w w' → grows any w w'.
Proof using.
  induction 1 as [|w1 w2 w3 S _ IH]; [done|]. etrans; [|exact IH].
  apply step_grows in S as [G|(? & ? & ? & ? & ? & ? & G)]; [|apply grows_verify in G]; by eapply grows_mono; [|exact G].
Qed.

(** ** Superseded attempts *)

Lemma start_superseded now id k a w t :
  w_tasks w !! id = Some t → t_retry t ≠ a → StartTask st supply now id k a w = Err errNotFound.
Proof using.
  intros L N. unfold StartTask. case_match; [done|]. rewrite L. case_match; [|done]. case_match; [done|].
  by rewrite (proj2 (Z.eqb_neq _ _) N).
Qed.

Lemma renew_superseded now k id a w t : w_tasks w !! id = Some t → t_retry t ≠ a → renew_lease now k w (id, a) = Ok w.
Proof using.
  intros L N. unfold renew_lease, update_task. simpl. rewrite L, (proj2 (Z.eqb_neq _ _) N), andb_false_r. done.
Qed.

Lemma commit_superseded now id k wid c input w w' t :
  w_tasks w !! id = Some t → t_retry t ≠ c_attempt c → completeTaskTx now id k wid c input w ≠ Ok w'.
Proof using.
  intros L N H. unfold completeTaskTx in H. unpack H. rewrite L in H. case_match eqn:M; [|done].
  unfold may_commit in M. repeat (case_match; try done). reflect_bools. done.
Qed.

Lemma fail_superseded now id k a c w t :
  w_tasks w !! id = Some t → t_retry t ≠ a → FailTaskTx now id k a c w = Err errNotOwner.
Proof using.
  intros L N. unfold FailTaskTx. case_match; [done|]. rewrite L. case_match; [done|].
  by rewrite (proj2 (Z.eqb_neq _ _) N).
Qed.

Lemma verify_superseded now l p info docs w t r w' :
  w_tasks w !! in_task info = Some t → t_retry t ≠ in_attempt info →
  VerifyJobTx st supply marshal effect_uuid unknown_outcome now l p info docs w = Ok (r, w') → Applied r = false ∧ w' = w.
Proof using.
  intros L N [_ [(A & E & _)|(_ & t' & j & w1 & [L' _ _ R _ _ _ _ _ _ _ _ _ _])]]%verify_Ok; [done|]. congruence.
Qed.

(** C13: Once a task has moved on to a later attempt, the earlier ones can do
    nothing in any later state, whoever calls: they are not started, committed or failed,
    their heartbeats renew nothing, and no verdict on them is applied. *)
Theorem superseded_attempt_inert stored w w' id t a :
  history stored w w' → w_tasks w !! id = Some t → a < t_retry t →
  (∀ now k, StartTask st supply now id k a w' = Err errNotFound) ∧
  (∀ now k, renew_lease now k w' (id, a) = Ok w') ∧
  (∀ now k wid c input w2, c_attempt c = a → completeTaskTx now id k wid c input w' ≠ Ok w2) ∧
  (∀ now k class, FailTaskTx now id k a class w' = Err errNotOwner) ∧
  (∀ now l p info docs r w2, in_task info = id → in_attempt info = a →
     VerifyJobTx st supply marshal effect_uuid unknown_outcome now l p info docs w' = Ok (r, w2) → Applied r = false ∧ w2 = w').
Proof using.
  intros H%history_grows L A. destruct (g_rows _ _ _ H _ _ L) as (t' & L' & _ & R).
  assert (t_retry t' ≠ a) as N by lia. split_and!; intros; subst.
  - by eapply start_superseded.
  - by eapply renew_superseded.
  - by eapply commit_superseded.
  - by eapply fail_superseded.
  - by eapply verify_superseded.
Qed.

(** ** An attempt is decided once *)

Lemma applied_verdict now l p info docs w r w' :
  VerifyJobTx st supply marshal effect_uuid unknown_outcome now l p info docs w = Ok (r, w') → Applied r = true →
  w_verdicts w !! (in_task info, in_attempt info) = None ∧
  w_verdicts w' !! (in_task info, in_attempt info) = Some (verdict_row info l p (dc_outcome (vp_decision p)) (vp_digest p)).
Proof using.
  intros [_ [(A & _)|(_ & t & j & w1 & [L _ _ _ _ _ _ Sh _ _ _ _ (re & i & E) O])]]%verify_Ok A'; [congruence|].
  apply (grows_effects any) in E; [|done].
  assert (∀ x y, insertExactTaskVerdictTx info l p (dc_outcome (vp_decision p)) (vp_digest p) x = Ok y →
            w_verdicts w ⊆ w_verdicts x → w_verdicts y ⊆ w_verdicts w' →
            w_verdicts w !! (in_task info, in_attempt info) = None ∧
            w_verdicts w' !! (in_task info, in_attempt info) =
              Some (verdict_row info l p (dc_outcome (vp_decision p)) (vp_digest p))) as K.
  { intros x y (_ & N & ->)%(grows_verdict any) S1 S2. split; [by eapply lookup_weaken_None|].
    eapply lookup_weaken; [|exact S2]. simpl. by rewrite lookup_insert_eq. }
  destruct O as [[O1 O]|[_ O]].
  - apply (reject_parts any) in O as (x & y & b & z & V & _ & _ & _ & G). rewrite O1 in K. rewrite O1.
    eapply K; [exact V|apply E|apply G].
  - apply accept_parts in O as (es & c & x & y & z & u & v & o & Ac). pose proof (ac_verdict _ _ _ _ _ _ _ _ _ _ _ _ _ _ _ _ _ _ Ac) as V.
    apply (grows_accepts st any) in Ac as (G1 & G2 & G3 & G4 & G5 & G6); [|done..].
    eapply K; [exact V| |].
    + trans (w_verdicts w1); [apply E|apply G1].
    + repeat (etrans; [match goal with G : grows _ ?a _ |- w_verdicts ?a ⊆ _ => apply (g_verdicts _ _ _ G) end|]). done.
Qed.

(** C18: A verdict is never changed or withdrawn, and the attempt it decided is not
    decided again: whatever plan is applied later, under whichever lease, either fails or
    is recognised as that same verdict and changes nothing. *)
Theorem attempt_decided_once stored now l p info docs w r w1 w2 :
  VerifyJobTx st supply marshal effect_uuid unknown_outcome now l p info docs w = Ok (r, w1) → Applied r = true →
  history stored w1 w2 →
  w_verdicts w2 !! (in_task info, in_attempt info) = Some (verdict_row info l p (dc_outcome (vp_decision p)) (vp_digest p)) ∧
  ∀ now' l' p' info' docs' r' w3, in_task info' = in_task info → in_attempt info' = in_attempt info →
    VerifyJobTx st supply marshal effect_uuid unknown_outcome now' l' p' info' docs' w2 = Ok (r', w3) →
    Applied r' = false ∧ w3 = w2 ∧
    verdict_row info' l' p' (dc_outcome (vp_decision p')) (vp_digest p') =
      verdict_row info l p (dc_outcome (vp_decision p)) (vp_digest p).
Proof using.
  intros V A G%history_grows. destruct (applied_verdict _ _ _ _ _ _ _ _ V A) as [_ D].
  assert (w_verdicts w2 !! (in_task info, in_attempt info) = Some (verdict_row info l p (dc_outcome (vp_decision p)) (vp_digest p))) as D2
    by (eapply lookup_weaken; [exact D|apply G]). split; [done|].
  intros now' l' p' info' docs' r' w3 ET EA V'. destruct (Applied r') eqn:A'.
  - destruct (applied_verdict _ _ _ _ _ _ _ _ V' A') as [N _]. rewrite ET, EA in N. congruence.
  - apply verify_Ok in V' as [_ [(_ & -> & D3)|(? & _)]]; [|congruence]. rewrite ET, EA in D3.
    split_and!; [done..|]. congruence.
Qed.

(** ** A task and its hedges are charged once *)

Lemma hedges_verify now l p info docs w r w' :
  VerifyJobTx st supply marshal effect_uuid unknown_outcome now l p info docs w = Ok (r, w') → hedges_ok w → hedges_ok w'.
Proof using.
  intros [_ [(_ & -> & _)|(_ & t & j & w1 & [L _ _ _ _ _ _ Sh _ _ _ _ (re & i & E) O])]]%verify_Ok Ok0; [done|].
  apply (grows_effects quiet) in E; [|apply plain_quiet]. pose proof (hedges_grows _ _ E Ok0) as Ok1.
  destruct O as [[_ O]|[_ O]]; [by eapply hedges_grows; [eapply grows_reject|]|].
  apply accept_parts in O as (es & c & x & y & z & u & v & o & Ac). pose proof Ac as [Fe _ _ _ (d & En & ->) _ _ _].
  apply (grows_accepts st quiet) in Ac as (G1 & G2 & G3 & _ & G5 & G6); [|apply plain_quiet|done].
  apply (grows_mono _ quiet) in G5; [|apply prepaid_quiet].
  assert (grows quiet w1 z) as Gz by (etrans; [|exact G3]; by etrans). pose proof (hedges_grows _ _ Gz Ok1) as Okz.
  eapply hedges_grows; [etrans; [exact G5|exact G6]|]. apply fence_entries in Fe as (t1 & L1 & Fe).
  destruct (g_rows _ _ _ Gz _ _ L1) as (tz & Lz & B & _). eapply hedges_entries; [exact Okz|exact Lz| |exact En|].
  - destruct Fe as [[-> _]|[-> _]]; [done|by constructor].
  - destruct Fe as [[_ [R|S]]|[-> _]]; [| |by left]; right; unfold t_redundancy, t_hedged_from in *; rewrite B; [by left|right].
    eapply unsettled_grows; [exact Ok1|exact Gz|]. by apply sibling_unsettled.
Qed.

Lemma hedges_step stored w w' : step stored w w' → hedges_ok w → hedges_ok w'.
Proof using.
  intros [G|(? & ? & ? & ? & ? & ? & G)]%step_grows; [|by eapply hedges_verify].
  apply hedges_grows. eapply grows_mono; [|exact G]. apply plain_quiet.
Qed.

Lemma hedges_history stored w w' : history stored w w' → hedges_ok w → hedges_ok w'.
Proof using. induction 1; eauto using hedges_step. Qed.

(** The charges on the books for a task and its hedges. *)
Definition family_charge (w : world) (root : UUID) (r : row) : bool :=
  bool_decide (kind r = KindBuyerCharge) &&
  match task_id r with
  | Some id => match w_tasks w !! id with Some t => family root id t | None => false end
  | None => false
  end.

(** C2: In any history, races included, the buyer is charged at most once for
    a task and all its hedges together. *)
Theorem family_charged_once stored w w' root :
  hedges_ok w → history stored w w' → (length (filter (λ r, family_charge w' root r = true) (ledger (books w'))) ≤ 1)%nat.
Proof using.
  intros O H. apply hedges_history in H; [|done]. clear O w. rename H into O, w' into w.
  destruct (filter _ _) as [|r rs] eqn:E; [simpl; lia|].
  assert (∀ x, x ∈ r :: rs → ∃ id t, w_tasks w !! id = Some t ∧ family root id t = true ∧ is_charge_of id x = true ∧ is_charged w id) as A.
  { intros x Hx. rewrite <-E in Hx. apply list_elem_of_filter in Hx as [Hx I]. unfold family_charge in Hx. reflect_bools.
    repeat case_match; try done. assert (is_charge_of u x = true) as C by (unfold is_charge_of; by rewrite !bool_decide_true).
    exists u, t. split_and!; try done. unfold is_charged, moneys. rewrite charges_money. intros N%fmap_nil_inv.
    by apply (filter_nil_not_elem_of _ _ x N C). }
  destruct (A r) as (id & t & L & F & C & Ch); [left|].
  pose proof (ho_once _ O id) as B. unfold moneys in B. rewrite charges_money, length_fmap in B.
  etrans; [|exact B]. rewrite <-E. apply filter_length_le. intros x Hx Px.
  destruct (A x) as (i & ti & Li & Fi & Ci & Chi); [rewrite <-E; by apply list_elem_of_filter|].
  by rewrite (ho_family _ O root id t i ti) by done.
Qed.

(** ** A charged task *)

Lemma charged_adds P w w' id : grows P w w' → is_charged w id → is_charged w' id.
Proof using.
  intros G C. destruct (g_ledger _ _ _ G) as (rs & E & _). unfold is_charged, moneys in *. rewrite E, charges_app.
  by destruct (charges id (money <$> ledger (books w))).
Qed.

Lemma entries_uncharged w id es d :
  insert_entries st (books w) es = Ok d → (∃ e, e ∈ es ∧ le_Kind e = KindBuyerCharge ∧ le_TaskID e = Some id) → ¬ is_charged w id.
Proof using.
  unfold is_charged, moneys. rewrite charges_money. intros H (e & I & K & T) C. apply C.
  assert (charges id (ledger (books w)) = []) as ->; [clear C|done]. revert H. generalize (books w). induction es as [|e' es IH]; intros b H; [by apply not_elem_of_nil in I|].
  simpl in H. apply bind_Ok in H as (b1 & W & H). apply elem_of_cons in I as [->|I].
  - apply elem_of_nil_inv. intros r [Cr Hr]%list_elem_of_filter. unfold is_charge_of in Cr. reflect_bools.
    eapply (new_fresh st _ _ _ id W T r); [done..|congruence].
  - apply IH in H; [|done]. destruct (charges_new st id _ _ _ W) as ([E|E] & _); congruence.
Qed.

(** C38: A task that has been charged is never accepted as payable
    again, whatever is executed and committed for it later: every such plan fails or is a
    replay.  The no-peer watchdog can put a finished, charged task back (its requeue has no
    condition on the status): the attempts after that can be committed but not accepted. *)
Theorem charged_never_accepted_again stored w w' id :
  hedges_ok w → history stored w w' → is_charged w id →
  ∀ now l p info docs r w2, in_task info = id → payable (dc_outcome (vp_decision p)) = true →
    VerifyJobTx st supply marshal effect_uuid unknown_outcome now l p info docs w' = Ok (r, w2) → Applied r = false ∧ w2 = w'.
Proof using.
  intros O H C now l p info docs r w2 <- Pd
    [_ [(A & -> & _)|(_ & t & j & w1 & [L _ _ _ _ _ _ Sh _ _ Ch _ (re & i & E) Out])]]%verify_Ok; [done|exfalso].
  pose proof (hedges_history _ _ _ H O) as O'. apply history_grows in H. eapply charged_adds in C; [|exact H].
  apply (grows_effects quiet) in E; [|apply plain_quiet]. pose proof (hedges_grows _ _ E O') as O1. eapply charged_adds in C; [|exact E].
  destruct Out as [[F _]|[_ Ac]]; [by rewrite F in Pd|].
  apply accept_parts in Ac as (es & c & x & y & z & u & v & o & Ac). pose proof Ac as [Fe _ _ _ (d & En & _) _ _ _].
  apply (grows_accepts st quiet) in Ac as (G1 & G2 & G3 & _); [|apply plain_quiet|done].
  apply fence_entries in Fe as (t1 & L1 & [[-> _]|(_ & R & S)]).
  - eapply entries_uncharged; [exact En|by apply Ch|]. by do 3 (eapply charged_adds; [eassumption|]).
  - unfold siblingSettled in S. apply existsb_exists in S as ([i2 t2] & I%list_elem_of_In%elem_of_map_to_list & S). simpl in S.
    apply andb_true_iff in S as [S S3]. apply andb_true_iff in S as [S1 S2].
    apply negb_true_iff, bool_decide_eq_false in S2. apply S2. symmetry.
    eapply (ho_family _ O1 (default (in_task info) (t_hedged_from t1))); [exact L1|exact I| |exact S1|exact C|].
    + unfold family. rewrite R. simpl. apply orb_true_iff. destruct (t_hedged_from t1); simpl; [right|left]; by rewrite bool_decide_true.
    + unfold is_charged, moneys. rewrite charges_money. intros N%fmap_nil_inv.
      apply existsb_exists in S3 as (x' & Hx & Cx). apply list_elem_of_In in Hx.
      by apply (filter_nil_not_elem_of _ _ x' N Cx).
Qed.

(** ** Placement *)

(** C39: A job priced for several device families (placement version 4) is
    offered to a worker of any of them, but only the preferred machine can start or commit
    its tasks: for a worker of another family that claimed one, both always fail. *)
Theorem other_family_never_runs w id t jx pl k x :
  w_tasks w !! id = Some t → w_jobs w !! t_job t = Some jx → jx_placement jx = Some pl → pl_version pl = 4 →
  w_workers w !! k = Some x → placed_on jx x = false →
  claim_placed jx (wk_machine x) = true ∧
  (∀ now a, is_ok (StartTask st supply now id k a w) = false) ∧
  (∀ now wid c input, is_ok (completeTaskTx now id k wid c input w) = false).
Proof using.
  intros L J P V W N. assert (placement_version jx = 4) as V' by (unfold placement_version; by rewrite P). split_and!.
  - unfold claim_placed. rewrite P, V. done.
  - intros now a. destruct (StartTask _ _ _ _ _ _ _) as [w'|] eqn:H; [exfalso|done]. unfold StartTask in H.
    rewrite W, L in H. do 4 (apply refuse_Ok in H as [_ H]). apply bind_Ok in H as ([] & M & _). unfold may_start in M.
    rewrite J, V', N in M. destruct (job_row _ _); [|done]. apply bind_Ok in M as (? & _ & M). by apply refuse_Ok in M as [_ M].
  - intros now wid c input. destruct (completeTaskTx _ _ _ _ _ _ _) as [w'|] eqn:H; [exfalso|done]. unfold completeTaskTx in H.
    apply refuse_Ok in H as [_ H]. rewrite L in H. unfold may_commit in H. rewrite W, J, V', N in H.
    destruct (t_exec t); [|done]. by rewrite !andb_false_r in H.
Qed.

End History.
