(* ===== verification/TaskIdle.v ===== *)
(** * TaskIdle: most operations leave a job alone, and a finished job is final

    Of one job [J], [idle F J] says what most operations have in common: none of its tasks
    begins to run, none is promised to a worker, none is added or charged, its limits
    stay, and, unless [F], no job becomes complete.  The operations that do more are claims,
    starts, new tasks, accepted attempts and settling a job; each of them is idle for
    every job that is not live.  Hence a complete job is final. *)
From stdpp Require Import base numbers list gmap strings pretty.
From Stdlib Require Import SpecFloat.
From S2P Require Import Prelude.
From S2P Require Import Float64.
From S2P Require Import Sha256.
From S2P Require Import Currency.
From S2P Require Import LedgerWrite.
From S2P Require Import Purse.
From S2P Require Import TaskStore.
From S2P Require Import Verification.
From S2P Require Import TaskGrowth.
From S2P Require Import TaskLifecycle.
Local Open Scope Z_scope.
Local Open Scope go_scope.

(** ** Idle operations *)

Definition is_busy (t : task) : bool := in_status [TRunning; TVerifying] t.
Definition is_over (t : task) : bool := in_status [TComplete; TFailed; TCancelled] t.

(** Promised to a worker before it was claimed: a hedge that waits for its peer. *)
Definition is_pinned (t : task) : bool :=
  in_status [TQueued; TRetrying] t && bool_decide (t_claimed_by t ≠ None) && negb (third_opinion t).

Record tame (t t' : task) : Prop := {
  tm_birth : t_birth t' = t_birth t;
  tm_busy : is_busy t' = true → is_busy t = true;
  tm_pinned : is_pinned t' = true → is_pinned t = true
}.

#[export] Instance tame_refl : Reflexive tame.
Proof. by intros t. Qed.

#[export] Instance tame_trans : Transitive tame.
Proof. intros t1 t2 t3 [B1 U1 P1] [B2 U2 P2]. split; [congruence|auto..]. Qed.

Definition limits (jx : jobx) : option Z * option econ_plan * option (Z * Z) := (jx_max_micros jx, jx_plan jx, jx_reserve jx).

Definition is_complete (w : world) (j : UUID) : Prop := ∃ r, job_row w j = Some r ∧ job_status r = "complete".

(** Not a charge of a task of [J]. *)
Definition foreign (J : UUID) (w : world) (r : row) : Prop :=
  ∀ id, is_charge_of id r = true → ∃ t, w_tasks w !! id = Some t ∧ t_job t ≠ J.

Lemma quiet_foreign J w r : quiet r → foreign J w r.
Proof. intros Q id C. unfold is_charge_of in C. reflect_bools. destruct Q. split; congruence. Qed.

Record idle (F : bool) (J : UUID) (w w' : world) : Prop := {
  i_rows : ∀ id t', w_tasks w' !! id = Some t' → t_job t' = J → ∃ t, w_tasks w !! id = Some t ∧ tame t t';
  i_kept : ∀ id t, w_tasks w !! id = Some t → ∃ t', w_tasks w' !! id = Some t' ∧ t_birth t' = t_birth t;
  i_ledger : adds (foreign J w') (ledger (books w)) (ledger (books w'));
  i_mirror : ∀ id t, w_tasks w !! id = Some t → tasks (books w') !! id = tasks (books w) !! id;
  i_mirrored : mirror_ok w → mirror_ok w';
  i_plans : plans (books w') = plans (books w);
  i_limits : limits <$> w_jobs w' !! J = limits <$> w_jobs w !! J;
  i_done : F = false → ∀ j, is_complete w' j → is_complete w j
}.

#[export] Instance idle_refl F J : Reflexive (idle F J).
Proof. intros w. split; try done; eauto. intros; eexists; split; [done|reflexivity]. Qed.

#[export] Instance idle_trans F J : Transitive (idle F J).
Proof.
  intros w1 w2 w3 [R1 K1 L1 M1 O1 P1 E1 D1] [R2 K2 L2 M2 O2 P2 E2 D2]. split.
  - intros id t3 H3 Hj. destruct (R2 _ _ H3 Hj) as (t2 & H2 & T2).
    destruct (R1 _ _ H2) as (t1 & H1 & T1); [unfold t_job in *; by rewrite <-(tm_birth _ _ T2)|]. exists t1. split; [done|by etrans].
  - intros id t1 H1. destruct (K1 _ _ H1) as (t2 & H2 & B2). destruct (K2 _ _ H2) as (t3 & H3 & B3). exists t3. split; [done|congruence].
  - etrans; [|exact L2]. eapply adds_mono; [|exact L1]. intros r Fr id C. destruct (Fr id C) as (t2 & H2 & N2).
    destruct (K2 _ _ H2) as (t3 & H3 & B3). exists t3. split; [done|]. unfold t_job in *. by rewrite B3.
  - intros id t1 H1. destruct (K1 _ _ H1) as (t2 & H2 & B2). rewrite (M2 _ _ H2). by eapply M1.
  - auto.
  - congruence.
  - congruence.
  - intros F0 j C3. by apply D1, D2.
Qed.

Ltac settle := simpl; try done; try (intros; congruence); try (intros; eexists; split; (done || reflexivity)); eauto.

Lemma idle_store F J id t t' w w' :
  w_tasks w !! id = Some t → t_birth t' = t_birth t → (t_job t = J → tame t t') → store_row id t t' w = Ok w' → idle F J w w'.
Proof.
  intros L B T (-> & _)%store_row_Ok. split; settle.
  - intros i x H Hj. destruct (decide (i = id)) as [->|N].
    + rewrite lookup_insert_eq in H. simplify_eq. exists t. split; [done|]. apply T. unfold t_job. by rewrite <-B.
    + rewrite lookup_insert_ne in H by done. by exists x.
  - intros i x H. destruct (decide (i = id)) as [->|N]; [rewrite lookup_insert_eq|rewrite lookup_insert_ne by done]; simplify_eq; eauto.
  - intros M i x H. simpl in H. destruct (decide (i = id)) as [->|N]; [rewrite lookup_insert_eq in H|rewrite lookup_insert_ne in H by done; by apply M].
    simplify_eq. etrans; [exact (M _ _ L)|]. unfold t_job. by rewrite B.
Qed.

Lemma idle_update F J w id sel f b w' :
  (∀ t, w_tasks w !! id = Some t → sel t = true → t_birth (f t) = t_birth t ∧ (t_job t = J → tame t (f t))) →
  update_task w id sel f = Ok (b, w') → idle F J w w'.
Proof.
  intros K [(_ & -> & _)|(_ & t & L & S & H)]%update_task_Ok; [done|]. destruct (K t L S). by eapply idle_store.
Qed.

Lemma idle_updates F J w sel f w' :
  (∀ id t, w_tasks w !! id = Some t → sel id t = true → tame t (f t)) → update_tasks w sel f = Ok w' → idle F J w w'.
Proof.
  intros K H. destruct (update_tasks_lookup _ _ _ _ 0%N H) as (E & _ & _).
  assert (∀ id, w_tasks w' !! id = (λ t, if sel id t then f t else t) <$> w_tasks w !! id) as Lk
    by (intros id; apply (update_tasks_lookup _ _ _ _ id H)).
  rewrite E. split; settle.
  - intros id t' L _. rewrite Lk in L. destruct (w_tasks w !! id) as [t|] eqn:Lw; [|done]. simplify_eq/=. exists t. split; [done|].
    destruct (sel id t) eqn:S; [by eapply K|done].
  - intros id t L. rewrite Lk, L. simpl. eexists. split; [done|]. destruct (sel id t) eqn:S; [by eapply tm_birth, K|done].
  - intros M id t' L. simpl in L. rewrite Lk in L. destruct (w_tasks w !! id) as [t|] eqn:Lw; [|done]. simplify_eq/=. etrans; [exact (M _ _ Lw)|]. f_equal.
    destruct (sel id t) eqn:S; [unfold t_job; by rewrite (tm_birth _ _ (K _ _ Lw S))|done].
Qed.

Lemma idle_job_status F J w j from s b w' :
  F = true ∨ s ≠ "complete" → update_job_status w j from s = Ok (b, w') → idle F J w w'.
Proof.
  intros N [(_ & -> & _)|(_ & r & L & _ & _ & ->)]%update_job_status_Ok; [done|]. split; settle.
  unfold is_complete, job_row. simpl. intros -> i (r' & H & C). destruct N as [|N]; [done|]. destruct (decide (i = j)) as [->|D].
  - rewrite lookup_insert_eq in H. by simplify_eq/=.
  - rewrite lookup_insert_ne in H by done. eauto.
Qed.

(** The other tables. *)
Lemma idle_same F J w w' :
  w_tasks w' = w_tasks w → w_purse w' = w_purse w → limits <$> w_jobs w' !! J = limits <$> w_jobs w !! J → idle F J w w'.
Proof. intros T P E. split; unfold is_complete, mirror_ok, job_row, books; rewrite ?T, ?P; settle. Qed.

Lemma limits_alter J j f m : (∀ jx, limits (f jx) = limits jx) → limits <$> alter f j m !! J = limits <$> (m : gmap UUID jobx) !! J.
Proof.
  intros E. destruct (decide (J = j)) as [->|N]; [|by rewrite lookup_alter_ne].
  rewrite lookup_alter_eq. destruct (m !! j); simpl; [by rewrite E|done].
Qed.

Lemma idle_jobx F J w j f : (∀ jx, limits (f jx) = limits jx) → idle F J w (update_jobx w j f).
Proof. intros E. apply idle_same; [done..|]. by apply limits_alter. Qed.

Lemma idle_books F J w d : writes_rows quiet (books w) d → idle F J w (with_books w d).
Proof. intros (l & -> & A). split; settle. eapply adds_mono; [|exact A]. intros. by apply quiet_foreign. Qed.

Lemma idle_purse F J w p : writes_rows quiet (books w) (purse_books p) → idle F J w (with_purse w p).
Proof.
  intros (l & E & A). split; unfold is_complete, mirror_ok, job_row, books in *; simpl; rewrite ?E; settle.
  eapply adds_mono; [|exact A]. intros. by apply quiet_foreign.
Qed.

(** *** Statuses *)

Lemma in_sub l m t : forallb (λ s, bool_decide (s ∈ m)) l = true → in_status l t = true → in_status m t = true.
Proof.
  unfold in_status. rewrite forallb_forall. intros S I. reflect_bools. apply list_elem_of_In in I. by apply S.
Qed.

Lemma in_not l m t : forallb (λ s, negb (bool_decide (s ∈ m))) l = true → in_status l t = true → in_status m t = false.
Proof.
  unfold in_status. rewrite forallb_forall. intros S I. reflect_bools. apply list_elem_of_In in I. by apply negb_true_iff, S.
Qed.

Lemma unpinned t : t_claimed_by t = None ∨ in_status [TQueued; TRetrying] t = false → is_pinned t = false.
Proof. unfold is_pinned. intros [->| ->]; [|done]. by rewrite (bool_decide_false (None ≠ None)), andb_false_r by auto. Qed.

Lemma tame_off t t' : t_birth t' = t_birth t → is_busy t' = false → is_pinned t' = false → tame t t'.
Proof. intros B U P. split; congruence. Qed.

Lemma tame_busy t t' : t_birth t' = t_birth t → is_busy t = true → is_pinned t' = false → tame t t'.
Proof. intros B U P. split; congruence. Qed.

Lemma tame_hold t t' : t_birth t' = t_birth t → t_hold t' = t_hold t → tame t t'.
Proof.
  intros B H. split; [done| |]; unfold is_busy, is_pinned, in_status, t_status, t_claimed_by, third_opinion, t_redundancy, t_hedged_from;
    by rewrite H, ?B.
Qed.

Lemma tame_still t t' :
  t_birth t' = t_birth t → t_status t' = t_status t → t_claimed_by t' = t_claimed_by t → tame t t'.
Proof.
  intros B S C. split; [done| |]; unfold is_busy, is_pinned, in_status, third_opinion, t_redundancy, t_hedged_from;
    by rewrite S, ?C, ?B.
Qed.

(** ** Every operation that only is idle *)

Ltac by_status :=
  unfold is_over, is_busy in *;
  first [reflexivity | assumption | (eapply in_sub; [|eassumption]; reflexivity) | (eapply in_not; [|eassumption]; reflexivity)].
Ltac no_pin := apply unpinned; first [left; reflexivity | right; by_status].
Ltac tamed :=
  intros; cbv beta in *; reflect_bools;
  first [by apply tame_hold
        | apply tame_off; [reflexivity|by_status|no_pin]
        | apply tame_still; [reflexivity|reflexivity|reflexivity]
        | apply tame_busy; [reflexivity|by_status|no_pin]].

Ltac idle_step :=
  match goal with
  | |- idle _ _ ?w ?w => reflexivity
  | H : update_job_status ?v _ _ _ = Ok (_, ?w) |- idle _ _ _ ?w => trans v; [|eapply idle_job_status; [|exact H]; by right]
  | H : store_row _ _ _ ?v = Ok ?w |- idle _ _ _ ?w => trans v; [|eapply idle_store; [..|exact H]; [eassumption|reflexivity|tamed]]
  | H : update_task ?v _ _ _ = Ok (_, ?w) |- idle _ _ _ ?w =>
      trans v; [|eapply idle_update; [|exact H]; intros; (split; [reflexivity|tamed])]
  | H : update_tasks ?v _ _ = Ok ?w |- idle _ _ _ ?w => trans v; [|eapply idle_updates; [|exact H]; tamed]
  | |- idle _ _ _ (if ?b then _ else _) => destruct b
  | |- idle _ _ _ (update_jobx ?v _ _) => trans v; [|apply idle_jobx; done]
  | |- idle _ _ _ (with_workers ?v _) => trans v; [|by apply idle_same]
  | |- idle _ _ _ (with_suppliers ?v _) => trans v; [|by apply idle_same]
  | |- idle _ _ _ (with_history ?v _) => trans v; [|by apply idle_same]
  | |- idle _ _ _ (with_effects ?v _) => trans v; [|by apply idle_same]
  | |- idle _ _ _ (with_resolved ?v _) => trans v; [|by apply idle_same]
  | |- idle _ _ _ (set_work ?v _ _) => trans v; [|by apply idle_same]
  end.
Ltac idly := repeat idle_step.

Section Idle.
Context (F : bool) (J : UUID) (st : settlement) (supply : UUID → UUID → bool).

Lemma idle_renew now k leases : ∀ w w', renew_leases now k leases w = Ok w' → idle F J w w'.
Proof using.
  induction leases as [|l leases IH]; simpl; intros w w' H; [by simplify_eq|].
  unpack H. trans x; [|by apply IH]. unfold renew_lease in E. unpack E. simplify_eq. idly.
Qed.

Lemma idle_create now id s w w' : createVerificationWorkTx now id s w = Ok w' → idle F J w w'.
Proof using.
  unfold createVerificationWorkTx. intros H. unpack H. repeat case_match; unpack H; simplify_eq; [done|by apply idle_same].
Qed.

Lemma tame_commit k c t :
  task_edge (t_status t) (t_status (committed_row k c t)) = true → is_over t = false → tame t (committed_row k c t).
Proof using.
  unfold committed_row. case_match eqn:V; [done|]. intros E O. apply tame_busy; [done| |no_pin].
  unfold is_busy, is_over, in_status in *. unfold t_status in *. simpl in E. by destruct (h_status (t_hold t)).
Qed.

Lemma idle_commit now id k wid c input w w' : completeTaskTx now id k wid c input w = Ok w' → idle F J w w'.
Proof using.
  unfold completeTaskTx. intros H. unpack H. case_match eqn:L; [|done]. case_match eqn:M; [|done]. unpack H.
  etrans; [|by eapply idle_create]. trans x.
  - destruct (store_row_Ok _ _ _ _ _ E) as (_ & Ed & _). eapply idle_store; [exact L| | |exact E].
    + unfold committed_row. by destruct (in_status [TVerifying] t).
    + intros _. apply tame_commit; [done|]. clear -M. unfold may_commit in M. repeat (case_match; try done). reflect_bools. by_status.
  - case_match; simplify_eq; idly.
Qed.

Lemma idle_fail_job w j b w' : failJobAndSettleOnce w j = Ok (b, w') → idle F J w w'.
Proof using.
  unfold failJobAndSettleOnce. intros H. destruct (jobTerminalTransitionStateTx w j) as [[s p]|]; [|done].
  case_match; [by simplify_eq|]. unpack H. case_match; simplify_eq; idly.
Qed.

Lemma idle_fail now id k a c w o w' : FailTaskTx now id k a c w = Ok (o, w') → idle F J w w'.
Proof using.
  unfold FailTaskTx. intros H. unpack H. case_match; [|done]. unpack H. case_match eqn:S; [by simplify_eq|]. reflect_bools.
  case_match; unpack H; simplify_eq; [|idly]. etrans; [|by eapply idle_fail_job]. idly.
Qed.

Lemma idle_requeue now id w w' :
  RequeueTask now id w = Ok w' → idle F J w w'.
Proof using. unfold RequeueTask. intros H. case_match; [|done]. unpack H. simplify_eq. idly. Qed.

Lemma idle_force now id limit w w' : AdminForceRequeueTask now id limit w = Ok w' → idle F J w w'.
Proof using. unfold AdminForceRequeueTask. intros H. case_match; [|done]. unpack H. reflect_bools. idly. Qed.

Lemma idle_requeue_stale now id b w w' : RequeueStaleTask now id b w = Ok w' → idle F J w w'.
Proof using.
  unfold RequeueStaleTask. intros H. case_match; [|by simplify_eq]. case_match; unpack H; simplify_eq; reflect_bools; idly.
Qed.

Lemma idle_fail_settle id j w w' : FailTaskAndSettleJob id j w = Ok w' → idle F J w w'.
Proof using.
  unfold FailTaskAndSettleJob. intros H. unpack H. case_match; unpack H; simplify_eq; [done|].
  etrans; [|by eapply idle_fail_job]. idly.
Qed.

Lemma idle_rescue now id b w x w' : RescueRunningTask now id b w = Ok (x, w') → idle F J w w'.
Proof using. unfold RescueRunningTask. intros H. idly. Qed.

Lemma idle_rescue_job now j b w x w' : RescueStuckJob now j b w = Ok (x, w') → idle F J w w'.
Proof using. unfold RescueStuckJob. intros H. repeat case_match; unpack H; simplify_eq; idly. Qed.

Lemma idle_cancel_stuck j w x w' : CancelStuckJob j w = Ok (x, w') → idle F J w w'.
Proof using. unfold CancelStuckJob. intros H. repeat case_match; unpack H; simplify_eq; idly. Qed.

Lemma idle_cancel j b w w' : CancelJob j b w = Ok w' → idle F J w w'.
Proof using. unfold CancelJob. intros H. case_match; [|done]. unpack H. case_match; unpack H; simplify_eq; idly. Qed.

Lemma idle_detach j w w' : DetachUnfinishedTasksForTerminalJob j w = Ok w' → idle F J w w'.
Proof using. unfold DetachUnfinishedTasksForTerminalJob. intros H. repeat case_match; simplify_eq; idly. Qed.

Lemma idle_reassign now id j an pin at_ peer age w x w' :
  ReassignPinnedTiebreak supply now id j an pin at_ peer age w = Ok (x, w') → idle F J w w'.
Proof using.
  unfold ReassignPinnedTiebreak. intros H. unpack H. case_match; [|by simplify_eq]. case_match eqn:S; [|by simplify_eq].
  unpack H. case_match; [by simplify_eq|]. unpack H. simplify_eq. reflect_bools.
  trans x1; [|idly]. eapply idle_store; [done|..|exact E0]; [done|]. intros _.
  apply tame_off; [done|by_status|]. unfold is_pinned, third_opinion.
  change (t_redundancy (repinned_row now peer t)) with (t_redundancy t). change (t_hedged_from (repinned_row now peer t)) with (t_hedged_from t).
  match goal with R : t_redundancy t = true, F : t_hedged_from t = Some an |- _ => rewrite R, F end.
  by rewrite (bool_decide_true (Some an ≠ None)), andb_false_r by done.
Qed.

Lemma idle_reap now limit id j n w w' : reap_stale now limit id j n w = Ok w' → idle F J w w'.
Proof using.
  unfold reap_stale. intros H. case_match; [|by eapply idle_requeue_stale].
  repeat case_match; simplify_eq; [|by eapply idle_fail_settle|done].
  etrans; [by eapply idle_fail_settle|by eapply idle_detach].
Qed.

Lemma idle_sweep now limit w w' : requeueStaleTasks now limit w = Ok w' → idle F J w w'.
Proof using.
  unfold requeueStaleTasks. generalize (rows_of (w_tasks w) (StaleRunningTasks now staleTaskTimeout sweep_limit w)).
  intros l. revert w. induction l as [|[id t] l IH]; simpl; intros w H; [by simplify_eq|].
  unpack H. etrans; [by eapply idle_reap|by apply IH].
Qed.

End Idle.

Section IdleVerify.
Context (F : bool) (J : UUID).

Lemma idle_claim_attempt now id a o l tok w x w' : ClaimVerificationWorkForAttempt now id a o l tok w = Ok (x, w') → idle F J w w'.
Proof using.
  unfold ClaimVerificationWorkForAttempt. intros H. unpack H. case_match; [|done]. case_match. case_match; [|done].
  simplify_eq. by apply idle_same.
Qed.

Lemma idle_claim_work now o l chosen : ∀ w x w', ClaimVerificationWork now o l chosen w = (x, w') → idle F J w w'.
Proof using.
  induction chosen as [|[id tok] chosen IH]; simpl; intros w x w' H; [by simplify_eq|].
  case_match; [|by eapply IH]. case_match; [|by eapply IH]. case_match eqn:R. simplify_eq.
  etrans; [|by eapply IH]. by apply idle_same.
Qed.

Lemma idle_renew_work now l ext w w' : RenewVerificationLease now l ext w = Ok w' → idle F J w w'.
Proof using. unfold RenewVerificationLease. intros H. unpack H. repeat case_match; simplify_eq. by apply idle_same. Qed.

Lemma idle_release_work now l at_ w w' : ReleaseVerificationWork now l at_ w = Ok w' → idle F J w w'.
Proof using. unfold ReleaseVerificationWork. intros H. unpack H. repeat case_match; simplify_eq. by apply idle_same. Qed.

Lemma idle_sampling now l p s w b w' : PinVerificationSampling now l p s w = Ok (b, w') → idle F J w w'.
Proof using.
  unfold PinVerificationSampling. intros H. unpack H. case_match; [|done]. unpack H. case_match; unpack H; simplify_eq; [done|].
  by apply idle_same.
Qed.

Lemma idle_artifact now l a w b w' : PinVerificationArtifact now l a w = Ok (b, w') → idle F J w w'.
Proof using.
  unfold PinVerificationArtifact. intros H. unpack H. case_match eqn:L; [|done]. unpack H.
  case_match; [unpack H; case_match; [|done]; unpack H; by simplify_eq|]. unpack H. simplify_eq. idly.
Qed.

Lemma idle_terminalize now l p o dg w w' : terminalizeVerificationWorkTx now l p o dg w = Ok w' → idle F J w w'.
Proof using.
  unfold terminalizeVerificationWorkTx. intros H. case_match; [|done]. unpack H. simplify_eq. by apply idle_same.
Qed.

Lemma idle_verdict info l p o dg w w' : insertExactTaskVerdictTx info l p o dg w = Ok w' → idle F J w w'.
Proof using. intros (_ & _ & ->)%(grows_verdict any). by apply idle_same. Qed.

Lemma idle_reject now info l p dg w w' : reject_attempt now info l p dg w = Ok w' → idle F J w w'.
Proof using.
  intros (x & y & b & z & V & U & S & T & _)%(reject_parts any). etrans; [by eapply idle_verdict|].
  etrans; [|by eapply idle_terminalize]. idly.
Qed.

Lemma idle_resolution now info l p c w w' : recordChunkArtifactResolutionTx now info l p c w = Ok w' → idle F J w w'.
Proof using.
  unfold recordChunkArtifactResolutionTx. intros H. repeat case_match; unpack H; simplify_eq; try done.
  all: repeat case_match; unpack H; simplify_eq; try done; idly.
Qed.

Context (marshal : decision → list canonicalVerificationSettlement → res string).
Context (effect_uuid : UUID → Z → nat → effect → UUID).

Lemma idle_persist now l info s sha a d es w p b w' :
  PersistVerificationWorkPlan marshal effect_uuid now l info s sha a d es w = Ok (p, b, w') → idle F J w w'.
Proof using.
  unfold PersistVerificationWorkPlan. intros H. unpack H. case_match eqn:N; [unpack H; by simplify_eq|].
  case_match; [|done]. unpack H. simplify_eq. by apply idle_same.
Qed.

End IdleVerify.

(** *** Operations that do more, on other jobs *)

Section Elsewhere.
Context (F : bool) (J : UUID) (st : settlement) (supply : UUID → UUID → bool).

Lemma idle_insert w id t w' : t_job t ≠ J → insert_task w id t = Ok w' → idle F J w w'.
Proof using.
  intros N (Lw & Lt & ->)%insert_task_Ok. split; settle.
  - intros i x H Hj. destruct (decide (i = id)) as [->|D]; [rewrite lookup_insert_eq in H; by simplify_eq|].
    rewrite lookup_insert_ne in H by done. by exists x.
  - intros i x H. exists x. rewrite lookup_insert_ne; [done|]. intros ->. congruence.
  - intros i x H. rewrite lookup_insert_ne; [done|]. intros ->. congruence.
  - intros M i x H. change (<[id := t]> (w_tasks w) !! i = Some x) in H. change (<[id := t_job t]> (tasks (books w)) !! i = Some (t_job x)).
    destruct (decide (i = id)) as [->|D].
    + rewrite lookup_insert_eq in H. rewrite lookup_insert_eq. by simplify_eq.
    + rewrite lookup_insert_ne in H by done. rewrite lookup_insert_ne by done. by apply M.
Qed.

Lemma idle_consume w j f w' : j ≠ J → consumeEconomicReserveTx w j = Ok (f, w') → idle F J w w'.
Proof using.
  unfold consumeEconomicReserveTx. intros N H. repeat case_match; unpack H; simplify_eq;
    (apply idle_same; [done..|]; simpl; by rewrite lookup_alter_ne).
Qed.

Lemma idle_count w j w' : count_new_task w j = Ok w' → idle F J w w'.
Proof using. unfold count_new_task. intros H. unpack H. simplify_eq. idly. Qed.

Lemma idle_warn w j : idle F J w (budgetWarnOnDispatch w j).
Proof using. unfold budgetWarnOnDispatch. repeat case_match; idly. Qed.

(** A claim: the row begins to run, the rest is idle. *)
Lemma claim_parts now k x pinned pl w id t c w' :
  w_tasks w !! id = Some t → claim_row now k x pinned pl w id t = Ok (c, w') →
  w' = w ∨ ∃ w1 w2, store_row id t (claimed_row now k x id t) w = Ok w1 ∧ idle F J w1 w2 ∧
    within_cap w2 (t_job t) 0 = true ∧ idle F J w2 w' ∧ w_tasks w2 = w_tasks w1 ∧ w_jobs w2 = w_jobs w1.
Proof using.
  unfold claim_row. intros L H. unpack H. case_match eqn:C; [left; by simplify_eq|]. right. reflect_bools.
  destruct (third_opinion t).
  - exists x0, (record_history x0 id (t_retry t) k (wk_supplier x)).2. unpack H. simplify_eq.
    assert (w_tasks (record_history x0 id (t_retry t) k (wk_supplier x)).2 = w_tasks x0 ∧
            w_jobs (record_history x0 id (t_retry t) k (wk_supplier x)).2 = w_jobs x0 ∧
            w_purse (record_history x0 id (t_retry t) k (wk_supplier x)).2 = w_purse x0) as (T & Jb & Pu)
      by (unfold record_history; by case_match).
    split_and!; [done|apply idle_same; by rewrite ?Jb|done| |done|done].
    destruct pinned; idly; (etrans; [|apply idle_warn]); idly.
  - exists x0, x0. unpack H. simplify_eq. split_and!; [done..| |done|done].
    destruct pinned; idly; (etrans; [|apply idle_warn]); idly.
Qed.

Lemma claimable_live now k x pinned w id t : may_claim st supply now k x pinned w id t = true → job_is_live w (t_job t) = true ∧ in_status [TQueued; TRetrying] t = true.
Proof using. unfold may_claim. intros. reflect_bools. done. Qed.

Lemma task_claim_cases now k p1 p2 pl w c w' :
  ClaimTasksTx st supply now k p1 p2 pl w = Ok (c, w') →
  w' = w ∨ ∃ x pinned id t, w_tasks w !! id = Some t ∧ may_claim st supply now k x pinned w id t = true ∧
    claim_row now k x pinned pl w id t = Ok (c, w').
Proof using.
  unfold ClaimTasksTx. intros H. case_match; [|done]. unpack H.
  destruct (scan_claim st supply now k w0 true w p1) as [[id t]|] eqn:S1; [apply scan_claim_Some in S1 as []; eauto 10|].
  destruct (scan_claim st supply now k w0 false w p2) as [[id t]|] eqn:S2; [apply scan_claim_Some in S2 as []; eauto 10|].
  left. by simplify_eq.
Qed.

Lemma idle_claim now k p1 p2 pl w c w' :
  ClaimTasksTx st supply now k p1 p2 pl w = Ok (c, w') → idle F J w w' ∨ job_is_live w J = true.
Proof using.
  intros [->|(x & pinned & id & t & L & C & H)]%task_claim_cases; [by left|]. apply claimable_live in C as [Lv _].
  destruct (decide (t_job t = J)) as [<-|N]; [by right|left].
  apply claim_parts in H as [->|(w1 & w2 & S & I1 & _ & I2 & _)]; [done| |done]. etrans; [|exact I2]. etrans; [|exact I1].
  eapply idle_store; [exact L| | |exact S]; [done|by intros ?].
Qed.

(** A start: nothing, or a row that was promised to the worker begins to run. *)
Lemma start_parts now id k a w w' :
  StartTask st supply now id k a w = Ok w' →
  ∃ t x, w_tasks w !! id = Some t ∧ job_is_live w (t_job t) = true ∧
  (idle F J w w' ∨
   in_status [TQueued] t = true ∧ t_claimed_by t = Some k ∧
   (third_opinion t = true → tiebreakPeerClaimEligibleTx supply now w id (t_job t) k = true) ∧
   ∃ w1 w2, idle F J w w1 ∧ w_tasks w1 = w_tasks w ∧ store_row id t (started_row now k x t) w1 = Ok w2 ∧ idle F J w2 w').
Proof using.
  unfold StartTask. intros H. unpack H. case_match; [|done]. case_match eqn:L; [|done]. unpack H. exists t, w0. split; [done|].
  reflect_bools.
  assert (job_is_live w (t_job t) = true) as Lv.
  { unfold may_start, job_is_live in *. destruct (job_row w (t_job t)); [|done]. destruct (w_jobs w !! t_job t); [|done].
    unpack E. by reflect_bools. }
  split; [done|]. case_match eqn:R; [left; unpack H; case_match; [|done]; unpack H; simplify_eq; idly|].
  right. split_and!.
  - unfold in_status in *. reflect_bools. apply bool_decide_eq_true. set_solver.
  - done.
  - intros T. rewrite T in H. unpack H. by reflect_bools.
  - unpack H. simplify_eq. apply start_history in E0 as ((T & Pu & _) & _ & Jb & _).
    exists x0, x1. split_and!; [apply idle_same; by rewrite ?Jb|done|done|idly].
Qed.

Lemma idle_start now id k a w w' : StartTask st supply now id k a w = Ok w' → idle F J w w' ∨ job_is_live w J = true.
Proof using.
  intros (t & x & L & Lv & [I|(_ & _ & _ & w1 & w2 & I1 & T & S & I2)])%start_parts; [by left|].
  destruct (decide (t_job t = J)) as [<-|N]; [by right|left].
  etrans; [exact I1|]. etrans; [|exact I2]. eapply idle_store; [..|exact S]; [by rewrite T|done|by intros ?].
Qed.

Lemma idle_hedge now id j pr peer i ch w x w' :
  InsertHedgeTask supply now id j pr peer i ch w = Ok (x, w') → idle F J w w' ∨ job_is_live w J = true.
Proof using.
  intros [->|(p & c & f & w1 & _ & _ & _ & Lv & _ & C & I)]%hedge_Ok; [by left|]. destruct (decide (j = J)) as [<-|N]; [by right|left].
  etrans; [by eapply idle_consume|]. by eapply idle_insert; [|exact I].
Qed.

Lemma idle_tiebreak now id j pr peer i ch cl w x w' :
  InsertTiebreakTask supply now id j pr peer i ch cl w = Ok (x, w') → idle F J w w' ∨ job_is_live w J = true.
Proof using.
  intros [->|(p & c & f & w1 & w2 & m & _ & _ & Lv & _ & C & I & Ct)]%tiebreak_Ok; [by left|]. destruct (decide (j = J)) as [<-|N]; [by right|left].
  etrans; [by eapply idle_consume|]. etrans; [by eapply idle_insert; [|exact I]|]. by eapply idle_count.
Qed.

End Elsewhere.

Section IdleApply.
Context (F : bool) (J : UUID) (st : settlement) (unknown_outcome : UUID → bool).

Lemma idle_clawback s t c w w' : clawbackTaskCreditTx st unknown_outcome s t c w = Ok w' → idle F J w w'.
Proof using.
  intros (d & (l & -> & A) & H)%clawback_Ok. etrans; [apply idle_books; exists l; split; [done|]|].
  - eapply adds_mono; [|exact A]. intros r [Q _]%clawback_plain. by apply plain_quiet.
  - destruct H as [->|(row & L & H)]; [done|]. idly.
Qed.

Context (supply : UUID → UUID → bool).

Lemma planned_Ok now info id j pr peer i ch w b w' :
  insertPlannedTiebreakTx supply now info id j pr peer i ch w = Ok (b, w') →
  w' = w ∨ ∃ p c f w1 w2, w_tasks w !! pr = Some p ∧ t_job p = j ∧ clone_of p c ∧ consumeEconomicReserveTx w j = Ok (f, w1) ∧
    insert_task w1 id (born now ch j id true pr p i (default f c) (Some (in_machine info)) None) = Ok w2 ∧ idle F J w2 w'.
Proof using.
  unfold insertPlannedTiebreakTx. intros H. case_match; [|done]. case_match. case_match; [left; by simplify_eq|]. unpack H. simplify_eq.
  right. apply clone_Ok in E as (p & L & Jp & Cl). rewrite L in E0. simplify_eq.
  eexists x0, x, f, w0, x1. split_and!; [done..|]. etrans; [|by eapply idle_count]. clear L.
  case_match; unpack E3; simplify_eq; [|done]. match goal with U : update_task _ _ _ _ = _ |- _ => eapply idle_update; [|exact U] end.
  intros t L _. split; [done|]. intros _.
  apply insert_task_Ok in E2 as (_ & _ & ->). simpl in L. rewrite lookup_insert_eq in L. simplify_eq.
  split; try done. 
Qed.

Lemma idle_effect now info e w a b w' :
  valid_effect info e = true → (in_job info ≠ J ∨ tiebreak_peer e = None) →
  apply_effect st supply unknown_outcome now info e w = Ok (a, b, w') → idle F J w w'.
Proof using.
  destruct e; simpl; intros V N H; unpack H; simplify_eq.
  - unfold dockReputationTx in E. case_match; simplify_eq. idly.
  - unfold recordVerificationEffectTx in E. unpack E. simplify_eq. trans (with_effects w ({[id]} ∪ w_effects w)); [idly|].
    case_match; [|by simplify_eq]. unfold promoteProvisionalWinnerTx in E0. case_match; [|done].
    case_match; unpack E0; simplify_eq; idly.
  - by eapply idle_clawback.
  - unfold quarantineTx. idly.
  - done.
  - destruct N as [N|?]; [|done]. reflect_bools. subst. apply planned_Ok in E as [->|(p & c & f & w1 & w2 & _ & _ & _ & C & I & D)]; [done|].
    etrans; [by eapply idle_consume|]. etrans; [by eapply idle_insert; [|exact I]|done].
Qed.

Lemma idle_effects now info es : Forall (λ e, valid_effect info e = true) es → in_job info ≠ J → ∀ w a b w',
  apply_effects st supply unknown_outcome now info es w = Ok (a, b, w') → idle F J w w'.
Proof using.
  intros V N. induction V as [|e es V _ IH]; simpl; intros w a b w' H; [by simplify_eq|].
  apply bind_Ok in H as (u & _ & H). apply bind_Ok in H as ([[r i] w1] & E & H). apply bind_Ok in H as ([[r' i'] w2] & E2 & H).
  simplify_eq. etrans; [eapply idle_effect; [done|by left|done]|by eapply IH].
Qed.

End IdleApply.

Lemma honest_quiet p p' : honest p p' → writes_rows quiet (purse_books p) (purse_books p').
Proof.
  intros [_ (rs & -> & A)]. eapply writes_app, Forall_impl; [exact A|]. intros r [K _]. apply prepaid_quiet. simpl.
  revert K. unfold prepaid_kinds. rewrite !elem_of_cons, !elem_of_nil. tauto.
Qed.

Section IdleSettle.
Context (F : bool) (J : UUID) (st : settlement).

(** After its row and its money, an acceptance is idle. *)
Lemma idle_sibling w info id t : cancelled_sibling w info id t = true → tame t (sibling_row t).
Proof using. unfold cancelled_sibling. intros H. reflect_bools. apply tame_off; [done|by_status|no_pin]. Qed.

Lemma idle_accepts now info l p dg prepaid buyer es c w x y z u v o w' :
  accepts st now info l p dg prepaid buyer es c w x y z u v o w' → idle F J x z ∧ idle F J u w'.
Proof using.
  intros [_ R V W _ D A S]. split.
  - etrans; [by eapply idle_verdict|]. etrans; [|by eapply idle_terminalize]. cbv zeta. idly.
  - trans v.
    + destruct D as [[_ ->]|(_ & m & q & _ & _ & D & ->)]; [done|]. apply idle_purse, honest_quiet. by eapply debit_task_honest.
    + etrans; [by eapply idle_resolution|]. eapply idle_updates; [|exact S]. intros i t _. apply idle_sibling.
Qed.

Lemma idle_entries w id t es d :
  w_tasks w !! id = Some t → t_job t ≠ J → Forall (settles id) es → insert_entries st (books w) es = Ok d → idle F J w (with_books w d).
Proof using.
  intros L N S (l & -> & A)%writes_entries. split; settle. eapply adds_mono; [|exact A].
  intros r (e & I & _ & T & _) id' C. unfold is_charge_of in C. reflect_bools. rewrite Forall_forall in S. destruct (S _ I) as [T' _].
  assert (id' = id) as -> by congruence. by exists t.
Qed.

Lemma idle_accept now info l p dg prepaid buyer w w' t :
  w_tasks w !! in_task info = Some t → t_job t ≠ J → Forall (settles (in_task info)) (vp_settlement p) →
  accept_attempt st now info l p dg prepaid buyer w = Ok w' → idle F J w w'.
Proof using.
  intros L N Sh (es & c & x & y & z & u & v & o & Ac)%accept_parts.
  pose proof (idle_accepts _ _ _ _ _ _ _ _ _ _ _ _ _ _ _ _ _ Ac) as [I1 I2].
  destruct Ac as [Fe R _ _ (d & En & ->) _ _ _]. etrans; [|exact I2]. trans x; [|etrans; [exact I1|]].
  - eapply idle_update; [|exact R]. intros t2 L2 _. assert (t2 = t) as -> by congruence. split; [done|by intros ?].
  - apply update_task_Ok in R as [(? & _)|(_ & t2 & L2 & _ & R)]; [done|]. assert (t2 = t) as -> by congruence.
    apply store_row_Ok in R as (-> & _).
    assert (w_tasks (with_tasks w (<[in_task info := accepted_row now (dc_outcome (vp_decision p)) t]> (w_tasks w))) !! in_task info =
              Some (accepted_row now (dc_outcome (vp_decision p)) t)) as Lx by (simpl; by rewrite lookup_insert_eq).
    destruct (i_kept _ _ _ _ I1 _ _ Lx) as (tz & Lz & Bz). eapply idle_entries; [exact Lz| | |exact En].
    + unfold t_job in *. rewrite Bz. done.
    + apply fence_entries in Fe as (? & _ & [[-> _]|[-> _]]); [done|by constructor].
Qed.

(** Settling a finished job: it is now complete, if it was not; the rest is idle. *)
Lemma economics_parts j reserve w w' :
  accrues reserve → completeJobEconomics st j reserve w = Ok w' →
  ∃ w1, (w1 = w ∨ finalizable w j = true ∧ ∃ b, update_job_status w j ["running"; "verifying"] "complete" = Ok (b, w1)) ∧
    idle F J w1 w' ∧ w_tasks w' = w_tasks w1.
Proof using.
  intros A H. unfold completeJobEconomics in H. destruct (job_row w j) as [jr|] eqn:Lj; [|done].
  apply bind_Ok in H as (w1 & E1 & H). apply bind_Ok in H as ([n d] & E2 & H). cbv zeta in H.
  apply bind_Ok in H as (p & E3 & H). apply bind_Ok in H as (d' & E4 & H). simplify_eq. exists w1. split.
  { clear E2 E3 E4. case_match eqn:C; [left; by simplify_eq|right]. unpack E1. simplify_eq. reflect_bools. eauto. }
  split; [|done]. trans (with_books w1 d).
  { apply idle_books. apply writes_premium in E2 as (l & -> & Ad). exists l. split; [done|]. eapply adds_mono; [|exact Ad].
    intros r [_ T] [_ T']. done. }
  trans (with_purse (with_books w1 d) p).
  { clear E1. case_match; [|simplify_eq; by apply idle_same]. case_match; [|done]. apply idle_purse, honest_quiet. by eapply debit_sla_honest. }
  set (w4 := update_jobx _ _ _) in E4 |- *. trans w4; [unfold w4; idly|]. apply idle_books.
  apply A in E4 as (l & -> & Ad). exists l. split; [done|]. eapply adds_mono; [|exact Ad]. intros r K [E _]. apply K. rewrite E. set_solver.
Qed.

(** The rest of the system. *)
Lemma idle_other_rows w d : writes_rows (λ r, kind r ∉ KindBuyerCharge :: prepaid_kinds) (books w) d → idle F J w (with_books w d).
Proof using.
  intros (l & -> & A). apply idle_books. exists l. split; [done|]. eapply adds_mono; [|exact A].
  intros r K [E _]. apply K. rewrite E. left.
Qed.

Lemma idle_other_purse w p :
  writes_rows (λ r, kind r ∈ prepaid_kinds ∧ task_id r = None) (books w) (purse_books p) → idle F J w (with_purse w p).
Proof using.
  intros (l & E & A). apply idle_purse. exists l. split; [done|]. eapply adds_mono; [|exact A]. intros r [K _]. by apply prepaid_quiet.
Qed.

Context (supply : UUID → UUID → bool).
Context (marshal : decision → list canonicalVerificationSettlement → res string).
Context (effect_uuid : UUID → Z → nat → effect → UUID).
Context (unknown_outcome : UUID → bool).

Lemma idle_verify now l p info docs w r w' :
  VerifyJobTx st supply marshal effect_uuid unknown_outcome now l p info docs w = Ok (r, w') →
  idle F J w w' ∨ job_is_live w J = true.
Proof using.
  intros [_ [(_ & -> & _)|(_ & t & j & w1 & [L Jb _ _ _ Pj Lv Sh _ _ _ Vd (re & i & E) O])]]%verify_Ok; [by left|].
  destruct (decide (in_job info = J)) as [<-|N]; [right; unfold job_is_live; rewrite Pj; by apply one_of_spec|left].
  pose proof E as Gr. apply (grows_effects any) in Gr; [|done]. eapply idle_effects in E; [|done..]. trans w1; [exact E|].
  destruct O as [[_ O]|[_ O]]; [by eapply idle_reject|]. destruct (g_rows _ _ _ Gr _ _ L) as (t1 & L1 & B1 & _).
  eapply idle_accept; [exact L1| |exact Sh|exact O]. unfold t_job in *. congruence.
Qed.

End IdleSettle.

(** ** A finished job *)

Lemma economics_idle J st j reserve w w' : accrues reserve → completeJobEconomics st j reserve w = Ok w' → idle true J w w'.
Proof.
  intros A H. destruct (economics_parts true J st _ _ _ _ A H) as (w1 & W1 & I & _). etrans; [|exact I].
  destruct W1 as [->|(_ & b & U)]; [done|]. eapply idle_job_status; [by left|exact U].
Qed.

Section Finished.
Context (st : settlement) (supply : UUID → UUID → bool).
Context (marshal : decision → list canonicalVerificationSettlement → res string).
Context (effect_uuid : UUID → Z → nat → effect → UUID).
Context (unknown_outcome : UUID → bool).

Notation step := (step st supply marshal effect_uuid unknown_outcome).
Notation history := (history st supply marshal effect_uuid unknown_outcome).

Lemma complete_not_live w J : is_complete w J → job_is_live w J = false.
Proof using. intros (r & L & C). unfold job_is_live. by rewrite L, C. Qed.

Lemma idle_step_cases stored J w w' :
  step stored w w' → idle false J w w' ∨ job_is_live w J = true ∨
  idle true J w w' ∧ ∀ j, is_complete w' j → is_complete w j ∨ finalizable w j = true ∧ w_tasks w' = w_tasks w.
Proof using.
  intros [| | | | | | | | | | | | |? ? ? A H| | | | | | | | | | |? ? ? ? ? ? ? _ H| | |].
  all: try (left; eauto using idle_renew, idle_commit, idle_fail, idle_requeue, idle_force, idle_sweep, idle_rescue,
       idle_rescue_job, idle_cancel_stuck, idle_cancel, idle_detach, idle_reassign, idle_claim_attempt, idle_claim_work,
       idle_renew_work, idle_release_work, idle_sampling, idle_artifact, idle_persist; fail).
  - edestruct idle_claim; [done|by left|tauto].
  - edestruct idle_start; [done|by left|tauto].
  - right. right. destruct (economics_parts false J _ _ _ _ _ A H) as (w2 & W2 & I2 & T2). split.
    + by eapply economics_idle.
    + intros i C. apply (i_done _ _ _ _ I2) in C; [|done]. destruct W2 as [->|(Fi & b & U)]; [by left|].
      apply update_job_status_Ok in U as [(_ & -> & _)|(_ & r & L & _ & _ & ->)]; [by left|].
      destruct (decide (i = j)) as [->|N]; [by right|left]. destruct C as (r' & Lr & Cr). unfold job_row in Lr. simpl in Lr.
      rewrite lookup_insert_ne in Lr by done. by exists r'.
  - edestruct idle_hedge; [done|by left|tauto].
  - edestruct idle_tiebreak; [done|by left|tauto].
  - edestruct idle_verify; [done|by left|tauto].
  - left. idly.
  - left. by apply idle_other_rows.
  - left. by apply idle_other_purse.
Qed.

Lemma idle_weaken F J w w' : idle F J w w' → idle true J w w'.
Proof using. by intros []. Qed.

(** Nothing is done for a complete job. *)
Lemma complete_idle stored J w w' : step stored w w' → is_complete w J → idle true J w w'.
Proof using.
  intros S C. destruct (idle_step_cases _ J _ _ S) as [I|[L|[I _]]]; [by eapply idle_weaken| |done].
  by rewrite (complete_not_live _ _ C) in L.
Qed.

Lemma complete_stays stored J w w' : history stored w w' → is_complete w J → is_complete w' J.
Proof using.
  intros G%history_grows (r & L & C). destruct (g_jobs _ _ _ G _ _ L) as (r' & L' & _ & _ & _ & T). exists r'. split; [done|].
  rewrite T; [done|]. unfold terminal_job. rewrite C. set_solver.
Qed.

(** The tasks of a complete job do not run. *)
Definition finished_ok (w : world) : Prop :=
  ∀ J id t, is_complete w J → w_tasks w !! id = Some t → t_job t = J → is_busy t = false.

Lemma idle_rests F J w w' : idle F J w w' →
  (∀ id t, w_tasks w !! id = Some t → t_job t = J → is_busy t = false) →
  ∀ id t, w_tasks w' !! id = Some t → t_job t = J → is_busy t = false.
Proof using.
  intros I O id t' L' E. destruct (i_rows _ _ _ _ I _ _ L' E) as (t & L & T). apply not_true_iff_false. intros B%(tm_busy _ _ T).
  rewrite (O _ _ L) in B; [done|]. unfold t_job in *. by rewrite <-(tm_birth _ _ T).
Qed.

Lemma finalizable_over w J id t : finalizable w J = true → w_tasks w !! id = Some t → t_job t = J → is_over t = true.
Proof using.
  unfold finalizable, some_task. intros H L E. reflect_bools. destruct (is_over t) eqn:O; [done|]. exfalso.
  match goal with N : ¬ (job_tasks w J _ ≠ ∅) |- _ => apply dec_stable in N; rename N into X end.
  assert (job_tasks w J (λ t, negb (in_status [TComplete; TFailed] t)) !! id = Some t) as Y; [|by rewrite X in Y].
  apply map_lookup_filter_Some. split; [done|]. simpl. rewrite bool_decide_true by done. simpl.
  destruct (in_status [TComplete; TFailed] t) eqn:I; [|done]. assert (is_over t = true) by by_status. congruence.
Qed.

(** A job that no operation speaks about. *)
Lemma quiet_job w : ∃ J, job_is_live w J = false.
Proof using.
  exists (fresh (dom (jobs (books w)))). unfold job_is_live, job_row.
  by rewrite (not_elem_of_dom_1 (jobs (books w)) (fresh _) (is_fresh _)).
Qed.

Lemma finished_step stored w w' : step stored w w' → finished_ok w → finished_ok w'.
Proof using.
  intros S O J id t C' L' E.
  assert (is_complete w J ∨ finalizable w J = true ∧ w_tasks w' = w_tasks w) as [C|[Fi T]].
  { destruct (quiet_job w) as [Q HQ]. destruct (idle_step_cases _ Q _ _ S) as [I|[L|[_ D]]]; [|congruence|by apply D].
    left. by eapply (i_done _ _ _ _ I). }
  - eapply idle_rests; [by eapply complete_idle| |exact L'|exact E]. intros i x Lx Ex. by eapply O.
  - rewrite T in L'. assert (is_over t = true) by (by eapply finalizable_over). by_status.
Qed.

Lemma finished_history stored w w' : history stored w w' → finished_ok w → finished_ok w'.
Proof using. induction 1; eauto using finished_step. Qed.

Lemma complete_idle_history stored J w w' : history stored w w' → is_complete w J → idle true J w w'.
Proof using.
  induction 1 as [|w1 w2 w3 S H IH]; intros C; [done|]. etrans; [by eapply complete_idle|]. apply IH.
  eapply (complete_stays stored); [|exact C]. by apply rtc_once.
Qed.

(** C10: A complete job is final, whatever is done afterwards, the watchdog's requeue of a
    task that has finished included.  The job stays complete; none of its tasks runs, then
    or in any later state, and none is added; their attempts do not go back; and none of
    them is charged any more.  (The requeue can put a finished task back into the queue,
    but no worker gets it there.) *)
Theorem complete_job_final stored w w1 w2 J :
  finished_ok w → history stored w w1 → is_complete w1 J → history stored w1 w2 →
  is_complete w2 J ∧
  (∀ id t, w_tasks w1 !! id = Some t → t_job t = J →
     is_busy t = false ∧ charges id (moneys w2) = charges id (moneys w1) ∧
     ∃ t2, w_tasks w2 !! id = Some t2 ∧ t_birth t2 = t_birth t ∧ t_retry t ≤ t_retry t2 ∧ is_busy t2 = false) ∧
  (∀ id t2, w_tasks w2 !! id = Some t2 → t_job t2 = J → w_tasks w1 !! id ≠ None).
Proof using.
  intros O H1 C H2. pose proof (finished_history _ _ _ H1 O) as O1. pose proof (finished_history _ _ _ H2 O1) as O2.
  assert (is_complete w2 J) as C2 by (by eapply complete_stays). split; [done|]. pose proof (history_grows _ _ _ _ _ _ _ _ H2) as G.
  apply (complete_idle_history _ J) in H2; [|done]. split.
  - intros id t L E. split; [by eapply O1|]. destruct (g_rows _ _ _ G _ _ L) as (t2 & L2 & B2 & R2).
    assert (t_job t2 = J) as E2 by (unfold t_job in *; by rewrite B2). split; [|exists t2; split_and!; [done..|by eapply O2]].
    destruct (i_ledger _ _ _ _ H2) as (rs & Er & Fr). unfold moneys. rewrite Er, charges_app.
    assert (charges id rs = []) as ->; [|by rewrite app_nil_r]. apply elem_of_nil_inv. intros r [Cr Hr]%list_elem_of_filter.
    rewrite Forall_forall in Fr. destruct (Fr _ Hr _ Cr) as (t3 & L3 & N3). congruence.
  - intros id t2 L2 E2. destruct (i_rows _ _ _ _ H2 _ _ L2 E2) as (t' & L' & _). congruence.
Qed.

End Finished.
