(* ===== verification/TaskBudget.v ===== *)
(** * TaskBudget: what is charged for a job stays within its cap

    The claim query checks the cap against what is charged and in flight; a start of a
    hedge does not look at it, but the hedge was paid from a reserve that was; and tasks
    end by being charged.  [capped] is the invariant these three add up to. *)
From stdpp Require Import base numbers list gmap strings pretty sorting.
From Stdlib Require Import SpecFloat.
From S2P Require Import Prelude.
From S2P Require Import Float64.
From S2P Require Import Sha256.
From S2P Require Import Currency.
From S2P Require Import LedgerWrite.
From S2P Require Import Purse.
From S2P Require Import MoneyNanos.
From S2P Require Import MicroMoney.
From S2P Require Import ObservedOutput.
From S2P Require Import TaskStore.
From S2P Require Import Verification.
From S2P Require Import PrintedMoney.
From S2P Require Import TaskGrowth.
From S2P Require Import TaskLifecycle.
From S2P Require Import TaskIdle.
Local Open Scope Z_scope.
Local Open Scope go_scope.

(** ** Counting tasks *)

Definition keys (p : UUID → task → bool) (w : world) : gset UUID := dom (filter (λ x, p x.1 x.2 = true) (w_tasks w)).

Lemma elem_of_keys p w id : id ∈ keys p w ↔ ∃ t, w_tasks w !! id = Some t ∧ p id t = true.
Proof.
  unfold keys. rewrite elem_of_dom. split.
  - intros [t [L P]%map_lookup_filter_Some]. eauto.
  - intros (t & L & P). exists t. by apply map_lookup_filter_Some.
Qed.

Definition count (p : UUID → task → bool) (w : world) : Z := Z.of_nat (size (keys p w)).

Lemma count_mono p q w w' : keys p w ⊆ keys q w' → count p w ≤ count q w'.
Proof. intros S. unfold count. apply inj_le. by apply subseteq_size. Qed.

Lemma count_snoc p q w w' id : keys p w' ⊆ {[id]} ∪ keys q w → count p w' ≤ count q w + 1.
Proof.
  intros S. unfold count. apply subseteq_size in S. pose proof (size_union_alt {[id]} (keys q w)) as U.
  assert (size (keys q w ∖ {[id]}) ≤ size (keys q w))%nat by (apply subseteq_size; set_solver).
  rewrite size_singleton in U. lia.
Qed.

Section Cap.
Context (J : UUID) (cap sla : Z) (ep : econ_plan).

Definition mine (id : UUID) (t : task) : bool := bool_decide (t_job t = J).
Definition busy (id : UUID) (t : task) : bool := bool_decide (t_job t = J) && is_busy t.
Definition settled (w : world) (id : UUID) (t : task) : bool :=
  bool_decide (t_job t = J) && negb (bool_decide (charges id (moneys w) = [])).

Lemma in_flight_count w : tasks_in_flight w J = count busy w.
Proof using. unfold tasks_in_flight, count, keys. by rewrite size_dom. Qed.

(** All the tasks the reserve has paid for so far. *)
Definition allowed (w : world) : Z := ep_initial ep + match reserve_of w J with Some (_, n) => n | None => 0 end.

Notation c := (ep_charge_micros ep).

(** [s] is set aside for a task that is over but not yet charged. *)
Definition within (s : Z) (w : world) : Prop :=
  charged_micros w J + count busy w * c + s + sla ≤ cap ∨ allowed w * c + sla ≤ cap ∨
  s = 0 ∧ charged_micros w J ≤ 0 ∧ count busy w = 0.

(** The plan's charge fits its column, and its nanos project to no more. *)
Definition exact_plan : Prop :=
  c ≤ maxMoneyAbsMicros ∧ ∀ n, fz_charge_nanos (ep_price ep) = Some n → int64 n ∧ ledger_micros n ≤ c.

Record sound (w : world) : Prop := {
  cp_price : 0 ≤ c;
  cp_limits : ∃ rs, limits <$> w_jobs w !! J = Some (Some cap, Some ep, rs);
  cp_plan : ∃ pl, plans (books w) !! J = Some pl ∧ sla_premium_micros pl = sla;
  cp_mirror : mirror_ok w;
  cp_known : ∀ id, is_charged w id → w_tasks w !! id ≠ None;
  cp_count : count mine w ≤ allowed w;
  cp_sum : charged_micros w J ≤ count (settled w) w * c;
  cp_pin : ∀ id t, w_tasks w !! id = Some t → t_job t = J → is_pinned t = true → allowed w * c + sla ≤ cap;
  cp_exact : exact_plan;
  cp_born : ∀ id t, w_tasks w !! id = Some t → t_job t = J → b_price (t_birth t) = ep_price ep
}.

Definition capped (s : Z) (w : world) : Prop := sound w ∧ within s w.

(** Charged tasks are tasks of the job. *)
Lemma sound_total w : sound w → charged_micros w J ≤ allowed w * c.
Proof using.
  intros [P _ _ _ _ N S _ _ _]. assert (count (settled w) w ≤ count mine w) as D; [|nia].
  apply count_mono. intros id (t & L & E)%elem_of_keys. apply elem_of_keys. exists t. split; [done|]. unfold settled, mine in *. reflect_bools. by apply bool_decide_eq_true.
Qed.

(** *** Idle operations *)

Lemma charge_charged w id r : r ∈ moneys w → is_charge_of id r = true → is_charged w id.
Proof using. intros I C N. by apply (filter_nil_not_elem_of _ _ r N C). Qed.

Definition job_charge (w : world) (r : row) : bool := bool_decide (kind r = KindBuyerCharge) && of_job (books w) J r.

Lemma charged_moneys w : charged_micros w J = - sum_micros (job_charge w) (moneys w).
Proof using. unfold charged_micros, moneys. by rewrite sum_money. Qed.

Lemma job_charge_id w r : job_charge w r = true → ∃ id, task_id r = Some id ∧ is_charge_of id r = true ∧ tasks (books w) !! id = Some J.
Proof using.
  unfold job_charge, of_job. intros H. reflect_bools. destruct (task_id r) as [id|] eqn:T; [|done]. reflect_bools. exists id.
  split_and!; [done| |done]. unfold is_charge_of. by rewrite !bool_decide_true.
Qed.

Lemma charged_idle F w w' :
  mirror_ok w → (∀ id, is_charged w id → w_tasks w !! id ≠ None) → idle F J w w' → charged_micros w' J = charged_micros w J.
Proof using.
  intros M K I. rewrite !charged_moneys. f_equal. destruct (i_ledger _ _ _ _ I) as (rs & E & Fr). unfold moneys at 1. rewrite E, sum_micros_app.
  rewrite (sum_micros_none _ rs), Z.add_0_r.
  - apply sum_micros_ext. intros r Hr. unfold job_charge, of_job. destruct (bool_decide (kind r = KindBuyerCharge)) eqn:Kr; [|done].
    destruct (task_id r) as [id|] eqn:T; [|done]. simpl. reflect_bools.
    assert (is_charged w id) as C by (eapply charge_charged; [exact Hr|]; unfold is_charge_of; by rewrite !bool_decide_true).
    apply K in C. destruct (w_tasks w !! id) as [t|] eqn:L; [|done]. by rewrite (i_mirror _ _ _ _ I _ _ L).
  - intros r Hr. destruct (job_charge w' r) eqn:C; [|done]. apply job_charge_id in C as (id & T & C & Mj).
    rewrite Forall_forall in Fr. destruct (Fr _ Hr _ C) as (t & L & N). apply (i_mirrored _ _ _ _ I M) in L. congruence.
Qed.

Lemma charges_idle F w w' id t' :
  idle F J w w' → w_tasks w' !! id = Some t' → t_job t' = J → charges id (moneys w') = charges id (moneys w).
Proof using.
  intros I L E. destruct (i_ledger _ _ _ _ I) as (rs & Er & Fr). unfold moneys. rewrite Er, charges_app.
  assert (charges id rs = []) as ->; [|by rewrite app_nil_r]. apply elem_of_nil_inv. intros r [Cr Hr]%list_elem_of_filter.
  rewrite Forall_forall in Fr. destruct (Fr _ Hr _ Cr) as (t3 & L3 & N3). congruence.
Qed.

Lemma known_idle F w w' :
  (∀ id, is_charged w id → w_tasks w !! id ≠ None) → idle F J w w' → ∀ id, is_charged w' id → w_tasks w' !! id ≠ None.
Proof using.
  intros K I id C. destruct (i_ledger _ _ _ _ I) as (rs & Er & Fr). unfold is_charged, moneys in C. rewrite Er, charges_app in C.
  destruct (charges id (money <$> ledger (books w))) eqn:D.
  - destruct (charges id rs) as [|r rs'] eqn:Dr; [done|].
    assert (r ∈ charges id rs) as [Cr Hr]%list_elem_of_filter by (rewrite Dr; left).
    rewrite Forall_forall in Fr. destruct (Fr _ Hr _ Cr) as (t3 & L3 & N3). congruence.
  - assert (is_charged w id) as Cw by (unfold is_charged, moneys; by rewrite D). apply K in Cw.
    destruct (w_tasks w !! id) as [t|] eqn:L; [|done]. destruct (i_kept _ _ _ _ I _ _ L) as (t' & -> & _). done.
Qed.

(** The keys of a condition that holds before when it holds after. *)
Lemma keys_idle F p q w w' :
  idle F J w w' → (∀ id t, p id t = true → t_job t = J) →
  (∀ id t t', w_tasks w' !! id = Some t' → t_job t' = J → tame t t' → p id t' = true → q id t = true) → keys p w' ⊆ keys q w.
Proof using.
  intros I Pj H id (t' & L' & P)%elem_of_keys. destruct (i_rows _ _ _ _ I _ _ L' (Pj _ _ P)) as (t & L & T).
  apply elem_of_keys. exists t. split; [done|]. eapply H; [exact L'|by eapply Pj|exact T|exact P].
Qed.

Lemma allowed_idle F w w' : idle F J w w' → allowed w' = allowed w.
Proof using.
  intros I. unfold allowed, reserve_of. pose proof (i_limits _ _ _ _ I) as E.
  destruct (w_jobs w' !! J) as [a|], (w_jobs w !! J) as [b|]; simpl in *; try done. unfold limits in E.
  by assert (jx_reserve a = jx_reserve b) as -> by congruence.
Qed.

Lemma busy_idle F w w' : idle F J w w' → count busy w' ≤ count busy w.
Proof using.
  intros I. apply count_mono. eapply keys_idle; [exact I| |]; unfold busy; intros; reflect_bools; [done|].
  rewrite (tm_busy t t') by done. unfold t_job in *. rewrite <-(tm_birth t t') by done. by rewrite bool_decide_true.
Qed.

Lemma sound_idle F w w' : sound w → idle F J w w' → sound w'.
Proof using.
  intros [P L Pl M K N S Pn Ex Bo] I. pose proof (allowed_idle _ _ _ I) as A. pose proof (charged_idle _ _ _ M K I) as C. split.
  - done.
  - destruct L as [rs L]. exists rs. by rewrite (i_limits _ _ _ _ I).
  - by rewrite (i_plans _ _ _ _ I).
  - by apply (i_mirrored _ _ _ _ I).
  - by eapply known_idle.
  - rewrite A. etrans; [|exact N]. apply count_mono. eapply keys_idle; [exact I| |]; unfold mine; intros; reflect_bools; [done|].
    unfold t_job in *. rewrite <-(tm_birth t t') by done. by rewrite bool_decide_true.
  - rewrite C. etrans; [exact S|]. apply Z.mul_le_mono_nonneg_r; [done|]. apply count_mono.
    intros id (t & Lt & Ct)%elem_of_keys. apply elem_of_keys. unfold settled in *. reflect_bools.
    destruct (i_kept _ _ _ _ I _ _ Lt) as (t' & L' & B'). exists t'. split; [done|].
    assert (t_job t' = J) as E by (unfold t_job in *; by rewrite B'). rewrite (charges_idle _ _ _ _ _ I L' E).
    by rewrite (bool_decide_true (t_job t' = J)), bool_decide_false.
  - rewrite A. intros id t' L' E Pt. destruct (i_rows _ _ _ _ I _ _ L' E) as (t & Lt & T).
    eapply Pn; [exact Lt| |by apply T]. unfold t_job in *. by rewrite <-(tm_birth _ _ T).
  - done.
  - intros id t' L' E. destruct (i_rows _ _ _ _ I _ _ L' E) as (t & Lt & T). rewrite (tm_birth _ _ T).
    eapply Bo; [exact Lt|]. unfold t_job in *. by rewrite <-(tm_birth _ _ T).
Qed.

Lemma within_idle F s w w' : sound w → within s w → idle F J w w' → within s w'.
Proof using.
  intros O W I. pose proof (busy_idle _ _ _ I) as B. pose proof (cp_price _ O) as P0.
  pose proof (charged_idle _ _ _ (cp_mirror _ O) (cp_known _ O) I) as C.
  assert (0 ≤ count busy w') as B0 by (unfold count; lia). unfold within in *. rewrite (allowed_idle _ _ _ I), C.
  destruct W as [W|[W|(-> & W1 & W2)]]; [left; nia|by right; left|right; right]. split_and!; [done..|lia].
Qed.

Lemma capped_idle F s w w' : capped s w → idle F J w w' → capped s w'.
Proof using. intros [O W] I. split; [by eapply sound_idle|by eapply within_idle]. Qed.

(** *** A task begins to run *)

Lemma within_cap_Z w more : sound w → within_cap w J more = true → charged_micros w J + (count busy w + more) * c + sla ≤ cap.
Proof using.
  intros [_ (rs & L) (pl & Pl & Sl) _ _ _ _ _ _ _] H. unfold within_cap, projected_micros in H.
  destruct (w_jobs w !! J) as [jx|] eqn:E; simpl in *; [|done]. unfold limits in L.
  assert (jx_max_micros jx = Some cap ∧ jx_plan jx = Some ep) as [Mx Px] by (split; congruence).
  rewrite Mx in H. rewrite Px, Pl, in_flight_count, Sl in H. by apply Z.leb_le in H.
Qed.

Lemma with_tasks_charged w m : charged_micros (with_tasks w m) J = charged_micros w J.
Proof using. done. Qed.

(** The row of a task of the job that is not charged changes its hold. *)
Lemma sound_store w id t t' w' :
  sound w → w_tasks w !! id = Some t → t_birth t' = t_birth t → (is_pinned t' = true → t_job t = J → is_pinned t = true) →
  store_row id t t' w = Ok w' → sound w' ∧ allowed w' = allowed w ∧ charged_micros w' J = charged_micros w J.
Proof using.
  intros [P L Pl M K N S Pn Ex Bo] Lt B Pt (-> & _)%store_row_Ok. split; [|done].
  assert (∀ i, w_tasks (with_tasks w (<[id:=t']> (w_tasks w))) !! i = <[id:=t']> (w_tasks w) !! i) as Lk by done.
  assert (∀ i x, <[id:=t']> (w_tasks w) !! i = Some x → ∃ y, w_tasks w !! i = Some y ∧ t_birth x = t_birth y ∧ (i ≠ id → x = y)) as Old.
  { intros i x H. destruct (decide (i = id)) as [->|D]; [rewrite lookup_insert_eq in H|rewrite lookup_insert_ne in H by done; eauto 10].
    exists t. injection H as <-. split_and!; [done..|by intros ?]. }
  split; try done.
  - intros i x H. rewrite Lk in H. destruct (Old _ _ H) as (y & Ly & By & _). etrans; [exact (M _ _ Ly)|]. unfold t_job. by rewrite By.
  - intros i C. rewrite Lk. apply K in C. destruct (w_tasks w !! i) as [y|] eqn:Ly; [|done].
    destruct (decide (i = id)) as [->|D]; [by rewrite lookup_insert_eq|]. by rewrite lookup_insert_ne, Ly.
  - etrans; [|exact N]. apply count_mono. intros i (x & H & E)%elem_of_keys. rewrite Lk in H. destruct (Old _ _ H) as (y & Ly & By & _).
    apply elem_of_keys. exists y. split; [done|]. unfold mine, t_job in *. by rewrite <-By.
  - etrans; [exact S|]. apply Z.mul_le_mono_nonneg_r; [done|]. apply count_mono.
    intros i (y & Ly & E)%elem_of_keys. apply elem_of_keys. rewrite Lk. destruct (decide (i = id)) as [->|D].
    + rewrite lookup_insert_eq. simplify_eq. exists t'. split; [done|]. unfold settled, t_job in *. by rewrite B.
    + rewrite lookup_insert_ne by done. eauto.
  - intros i x H E C. rewrite Lk in H. destruct (Old _ _ H) as (y & Ly & By & Ne). destruct (decide (i = id)) as [->|D].
    + rewrite lookup_insert_eq in H. simplify_eq. assert (t_job t = J) as Et by (unfold t_job in *; by rewrite <-B).
      by eapply Pn; [exact Lt|done|apply Pt].
    + rewrite Ne in * by done. by eapply Pn.
  - intros i x H E. rewrite Lk in H. destruct (Old _ _ H) as (y & Ly & By & _). rewrite By. eapply Bo; [exact Ly|].
    unfold t_job in *. by rewrite <-By.
Qed.

Lemma keys_store p w id t t' w' :
  store_row id t t' w = Ok w' → keys p w' ⊆ {[id]} ∪ keys p w ∧ (p id t' = false → keys p w' ⊆ keys p w ∖ {[id]}).
Proof using.
  intros (-> & _)%store_row_Ok.
  assert (∀ i, i ∈ keys p (with_tasks w (<[id:=t']> (w_tasks w))) → i = id ∧ p id t' = true ∨ i ≠ id ∧ i ∈ keys p w) as A.
  { intros i (x & L & Px)%elem_of_keys. change (<[id:=t']> (w_tasks w) !! i = Some x) in L. destruct (decide (i = id)) as [->|D].
    - rewrite lookup_insert_eq in L. left. split; congruence.
    - rewrite lookup_insert_ne in L by done. right. split; [done|]. apply elem_of_keys. eauto. }
  split; [intros i [[-> _]|[_ ?]]%A; set_solver|]. intros N i [[_ ?]|[D I]]%A; [congruence|set_solver].
Qed.

Lemma busy_run w id t t' w' : store_row id t t' w = Ok w' → count busy w' ≤ count busy w + 1.
Proof using. intros [S _]%(keys_store busy). by eapply count_snoc. Qed.

Lemma busy_end w id t t' w' :
  w_tasks w !! id = Some t → t_job t = J → is_busy t = true → is_busy t' = false → store_row id t t' w = Ok w' →
  count busy w' + 1 ≤ count busy w.
Proof using.
  intros L E B N [_ S]%(keys_store busy). specialize (S ltac:(unfold busy; by rewrite N, andb_false_r)).
  assert (id ∈ keys busy w) as I by (apply elem_of_keys; exists t; split; [done|]; unfold busy; by rewrite bool_decide_true, B).
  apply subseteq_size in S. rewrite size_difference in S by set_solver. rewrite size_singleton in S. unfold count.
  assert (0 < size (keys busy w))%nat; [|lia]. destruct (size (keys busy w)) eqn:Z; [|lia]. apply size_empty_inv in Z. set_solver.
Qed.

(** *** A task is added *)

Lemma consume_Ok w j f w' :
  consumeEconomicReserveTx w j = Ok (f, w') →
  ∃ jx ep0 pl reserved consumed, w_jobs w !! j = Some jx ∧ jx_plan jx = Some ep0 ∧ jx_reserve jx = Some (reserved, consumed) ∧
    plans (books w) !! j = Some pl ∧
    (∀ m, jx_max_micros jx = Some m → ep_charge_micros ep0 * (ep_initial ep0 + consumed + 1) + sla_premium_micros pl ≤ m) ∧
    f = ep_price ep0 ∧ w' = update_jobx w j (set_reserve (reserved, consumed + 1)).
Proof using.
  unfold consumeEconomicReserveTx. intros H. destruct (w_jobs w !! j) as [jx|] eqn:?; [|done]. destruct (job_row w j); [|done].
  destruct (plans (books w) !! j) as [pl|] eqn:?; [|done]. destruct (jx_reserve jx) as [[reserved consumed]|] eqn:?; [|done].
  destruct (jx_plan jx) as [ep0|] eqn:?; [|done]. unpack H. simplify_eq. reflect_bools. eexists _, _, _, _, _. split_and!; [done..| |done|done].
  intros m Hm. match goal with X : match jx_max_micros jx with _ => _ end = true |- _ => rewrite Hm in X; by apply Z.leb_le in X end.
Qed.

Lemma capped_join w pr p j cl f w1 id t w2 :
  w_tasks w !! pr = Some p → t_job p = j → clone_of p cl → consumeEconomicReserveTx w j = Ok (f, w1) →
  insert_task w1 id t = Ok w2 → t_job t = j → b_price (t_birth t) = default f cl → is_busy t = false → capped 0 w → capped 0 w2.
Proof using.
  intros Lpr Jp Clp C I Ej Bp Bt [O W]. destruct (decide (j = J)) as [->|N].
  2:{ eapply (capped_idle true); [split; [exact O|exact W]|]. etrans; [by eapply idle_consume|]. by eapply idle_insert; [|exact I]; rewrite Ej. }
  apply consume_Ok in C as (jx & ep0 & pl & reserved & consumed & Lj & Px & Rx & Lp & Ex & -> & ->).
  apply insert_task_Ok in I as (Ln & Lm & ->). change (w_tasks w !! id = None) in Ln. destruct O as [P0 (rs & Lim) (pl' & Lp' & Sl) M K N S Pn Exa Bo].
  rewrite Lj in Lim. simpl in Lim. unfold limits in Lim. assert (jx_max_micros jx = Some cap ∧ ep0 = ep) as [Mx ->] by (split; congruence).
  specialize (Ex _ Mx). assert (pl' = pl) as -> by congruence. set (w2 := with_books _ _).
  assert (allowed w2 = allowed w + 1) as A.
  { unfold allowed, reserve_of. change (w_jobs w2) with (alter (set_reserve (reserved, consumed + 1)) J (w_jobs w)).
    rewrite lookup_alter_eq, Lj. simpl. rewrite Rx. lia. }
  assert (allowed w = ep_initial ep + consumed) as A0 by (unfold allowed, reserve_of; rewrite Lj; simpl; by rewrite Rx).
  assert (allowed w2 * c + sla ≤ cap) as Cap2 by (rewrite A, A0; nia).
  assert (∀ i, w_tasks w2 !! i = <[id := t]> (w_tasks w) !! i) as Lk by done.
  assert (∀ i, tasks (books w2) !! i = <[id := t_job t]> (tasks (books w)) !! i) as Mk by done.
  assert (∀ i, is_charged w2 i ↔ is_charged w i) as Ck by done.
  assert (¬ is_charged w id) as Nc by (intros D%K; done).
  assert (charged_micros w2 J = charged_micros w J) as Cm.
  { rewrite !charged_moneys. f_equal. apply sum_micros_ext. intros r Hr. unfold job_charge, of_job.
    destruct (bool_decide (kind r = KindBuyerCharge)) eqn:Kr; [|done]. destruct (task_id r) as [i|] eqn:T; [|done]. simpl.
    rewrite Mk, lookup_insert_ne; [done|]. intros <-. apply Nc. eapply charge_charged; [exact Hr|]. reflect_bools.
    unfold is_charge_of. by rewrite !bool_decide_true. }
  split; [|by right; left]. split.
  - done.
  - exists (Some (reserved, consumed + 1)). change (w_jobs w2) with (alter (set_reserve (reserved, consumed + 1)) J (w_jobs w)).
    rewrite lookup_alter_eq, Lj. simpl. unfold limits. simpl. by rewrite Mx, Px.
  - by exists pl.
  - intros i x H. rewrite Lk in H. rewrite Mk. destruct (decide (i = id)) as [->|D].
    + rewrite lookup_insert_eq in H. rewrite lookup_insert_eq. by simplify_eq.
    + rewrite lookup_insert_ne in H by done. rewrite lookup_insert_ne by done. by apply M.
  - intros i D%Ck%K. rewrite Lk. destruct (decide (i = id)) as [->|Di]; [by rewrite lookup_insert_eq|by rewrite lookup_insert_ne].
  - rewrite A. etrans; [apply (count_snoc _ mine w _ id)|lia]. intros i (x & H & E)%elem_of_keys. rewrite Lk in H.
    destruct (decide (i = id)) as [->|Di]; [set_solver|]. rewrite lookup_insert_ne in H by done. apply elem_of_union_r, elem_of_keys. eauto.
  - rewrite Cm. etrans; [exact S|]. apply Z.mul_le_mono_nonneg_r; [done|]. apply count_mono. intros i (x & H & E)%elem_of_keys.
    apply elem_of_keys. rewrite Lk. exists x. destruct (decide (i = id)) as [->|Di]; [congruence|]. by rewrite lookup_insert_ne.
  - done.
  - done.
  - intros i x H E. rewrite Lk in H. destruct (decide (i = id)) as [->|Di]; [|rewrite lookup_insert_ne in H by done; by eapply Bo].
    rewrite lookup_insert_eq in H. simplify_eq. rewrite Bp. destruct Clp as [->| ->]; [done|]. by eapply Bo.
Qed.

(** *** A task is settled *)

Lemma entries_sum st id es : ∀ d d',
  0 ≤ c → insert_entries st d es = Ok d' → Forall (settles id) es →
  (∀ e, e ∈ es → le_Kind e = KindBuyerCharge → - usdToMicros (AmountUSD e) ≤ c) →
  sum_micros (is_charge_of id) (ledger d) - c ≤ sum_micros (is_charge_of id) (ledger d') ∧
  (charges id (ledger d) ≠ [] → sum_micros (is_charge_of id) (ledger d') = sum_micros (is_charge_of id) (ledger d)).
Proof using.
  induction es as [|e es IH]; simpl; intros d d' P0 H F Bl; [simplify_eq; split; [lia|done]|].
  apply bind_Ok in H as (d1 & W & H). apply Forall_cons in F as [[Te Ke] F].
  apply IH in H as [H1 H2]; [|done..|intros; apply Bl; [by right|done]]. clear IH.
  pose proof (new_fresh st _ _ _ id W Te) as Fr. apply writes_new in W as [_ (r & -> & [Wk Wa _ Wt _ _])].
  cbn [ledger with_ledger] in *. rewrite sum_micros_app, sum_micros_cons in *. change (sum_micros _ []) with 0 in *.
  destruct (is_charge_of id r) eqn:C; [|rewrite charges_app in H2; split; [lia|]; intros N; rewrite H2; [lia|]].
  - assert (charges id (ledger d) = []) as D.
    { apply elem_of_nil_inv. intros x [Cx Hx]%list_elem_of_filter. unfold is_charge_of in Cx, C. reflect_bools.
      eapply (Fr x); [done..|]. simpl in *. congruence. }
    split; [|done]. rewrite H2; [|rewrite charges_app, D; unfold charges; by rewrite filter_cons_True].
    rewrite Wa. simpl. unfold is_charge_of in C. reflect_bools. simpl in Wk.
    assert (- usdToMicros (AmountUSD e) ≤ c) by (apply Bl; [left|congruence]). lia.
  - by destruct (charges id (ledger d)).
Qed.

Lemma count_grow p q w w' id : keys p w ⊆ keys q w' → id ∉ keys p w → id ∈ keys q w' → count p w + 1 ≤ count q w'.
Proof using.
  intros S N I. unfold count. assert ({[id]} ∪ keys p w ⊆ keys q w') as S' by set_solver. apply subseteq_size in S'.
  rewrite size_union, size_singleton in S' by set_solver. lia.
Qed.

Lemma within_weaken w : 0 ≤ c → within c w → within 0 w.
Proof using. unfold within. intros P0 [W|[W|(E & W1 & W2)]]; [left; lia|by right; left|by right; right]. Qed.

Lemma capped_entries st w id t es d :
  capped c w → w_tasks w !! id = Some t → t_job t = J → Forall (settles id) es →
  (∀ e, e ∈ es → le_Kind e = KindBuyerCharge → - usdToMicros (AmountUSD e) ≤ c) →
  insert_entries st (books w) es = Ok d → capped 0 (with_books w d).
Proof using.
  intros [O W] L E F Bl H. pose proof O as [P0 Lim Pl M K N S Pn Ex Bo].
  destruct (decide (Exists (λ e, le_Kind e = KindBuyerCharge) es)) as [X|X].
  2:{ eapply (capped_idle true); [split; [exact O|by apply within_weaken]|]. apply idle_books.
      apply writes_entries in H as (l & -> & A). exists l. split; [done|]. eapply adds_mono; [|exact A].
      intros r (e & I & Ke & _) [Kr _]. apply X, Exists_exists. exists e. split; [done|congruence]. }
  assert (¬ is_charged w id) as Nc.
  { apply Exists_exists in X as (e & I & Ke). eapply entries_uncharged; [exact H|]. exists e. split_and!; [done..|].
    rewrite Forall_forall in F. by apply F. }
  pose proof (entries_sum _ _ _ _ _ P0 H F Bl) as [Sm _].
  pose proof (λ i, charges_entries st i _ _ _ H) as Ce. apply writes_entries in H as (l & -> & rs & El & Fr).
  set (u := with_books w (with_ledger (books w) l)).
  assert (moneys u = moneys w ++ rs) as Mu by exact El.
  assert (∀ r, r ∈ rs → task_id r = Some id) as Trs.
  { intros r Hr. rewrite Forall_forall in Fr. destruct (Fr _ Hr) as (e & I & _ & T & _). rewrite Forall_forall in F. destruct (F _ I). congruence. }
  assert (charged_micros u J ≤ charged_micros w J + c) as Cu.
  { rewrite !charged_moneys, Mu, sum_micros_app. change (job_charge u) with (job_charge w).
    assert (sum_micros (job_charge w) rs = sum_micros (is_charge_of id) rs) as ->.
    { apply sum_micros_ext. intros r Hr. unfold job_charge, of_job, is_charge_of. rewrite (Trs _ Hr), (M _ _ L), E. f_equal. by rewrite !bool_decide_true. }
    cbn [ledger with_ledger] in Sm. rewrite <-(sum_money (is_charge_of id) l), <-(sum_money (is_charge_of id) (ledger (books w))) in Sm by done.
    rewrite El, sum_micros_app in Sm. lia. }
  assert (∀ i, i ≠ id → charges i (moneys u) = charges i (moneys w)) as Other.
  { intros i Ni. rewrite Mu, charges_app. assert (charges i rs = []) as ->; [|by rewrite app_nil_r].
    apply elem_of_nil_inv. intros r [Cr Hr]%list_elem_of_filter. unfold is_charge_of in Cr. reflect_bools. apply Trs in Hr. congruence. }
  assert (is_charged u id ∨ charged_micros u J ≤ charged_micros w J) as Gain.
  { rewrite !charged_moneys, Mu, sum_micros_app. change (job_charge u) with (job_charge w).
    destruct (charges id (moneys u)) as [|x xs] eqn:D; [right|left; unfold is_charged; by rewrite D].
    rewrite (sum_micros_none _ rs); [lia|]. intros r Hr. destruct (job_charge w r) eqn:Cr; [|done].
    apply job_charge_id in Cr as (i & Ti & Ci & _). assert (i = id) as -> by (pose proof (Trs _ Hr); congruence).
    exfalso. apply (filter_nil_not_elem_of _ _ r D Ci). rewrite Mu. apply elem_of_app. by right. }
  assert (sound u) as Ou.
  { split; try done.
    - intros i Ci. change (w_tasks w !! i ≠ None). destruct (decide (i = id)) as [->|Ni]; [by rewrite L|]. apply K. unfold is_charged in *. by rewrite <-Other.
    - assert (keys (settled w) w ⊆ keys (settled u) u) as Sub.
      { intros i (x & Lx & Sx)%elem_of_keys. apply elem_of_keys. exists x. split; [done|]. unfold settled in *. reflect_bools.
        assert (i ≠ id) as Ni by (intros ->; done). rewrite Other, bool_decide_true, bool_decide_false by done. done. }
      destruct Gain as [G|G]; [|etrans; [exact G|]; etrans; [exact S|]; apply Z.mul_le_mono_nonneg_r; [done|by apply count_mono]].
      assert (count (settled w) w + 1 ≤ count (settled u) u); [|nia]. apply (count_grow _ _ _ _ id Sub).
      + intros (x & Lx & Sx)%elem_of_keys. unfold settled in Sx. reflect_bools. done.
      + apply elem_of_keys. exists t. split; [done|]. unfold settled. rewrite bool_decide_true by done. by rewrite bool_decide_false. }
  split; [done|]. unfold within in *. change (count busy u) with (count busy w). change (allowed u) with (allowed w).
  destruct W as [W|[W|(Ec & W1 & W2)]]; [left; lia|by right; left|right; right]. split_and!; [done|lia|done].
Qed.

(** *** Claims, starts and new tasks *)

Section Running.
Context (st : settlement) (supply : UUID → UUID → bool).

Lemma eligible_cap now w id j peer : tiebreakPeerClaimEligibleTx supply now w id j peer = true → within_cap w j 1 = true.
Proof using.
  unfold tiebreakPeerClaimEligibleTx. intros H. destruct (w_tasks w !! id); [|done]. destruct (job_row w j); [|done].
  destruct (w_jobs w !! j); [|done]. destruct (w_workers w !! peer); [|done]. by reflect_bools.
Qed.

Lemma capped_claim now k p1 p2 pl w cl w' :
  ClaimTasksTx st supply now k p1 p2 pl w = Ok (cl, w') → capped 0 w → capped 0 w'.
Proof using.
  intros H [O W]. pose proof (idle_claim true J st supply _ _ _ _ _ _ _ _ H) as Id.
  apply task_claim_cases in H as [->|(x & pinned & id & t & L & C & H)]; [done|]. apply claimable_live in C as [Lv Wt].
  apply (claim_parts true J) in H as [->|(w1 & w2 & S & I1 & Cap & I2 & _)]; [done| |done].
  assert (sound w1 ∧ allowed w1 = allowed w ∧ charged_micros w1 J = charged_micros w J) as (O1 & A1 & C1).
  { eapply sound_store; [exact O|exact L| | |exact S]; [done|]. by intros Pt. }
  pose proof (sound_idle _ _ _ O1 I1) as O2. eapply capped_idle; [split; [exact O2|]|exact I2].
  destruct (decide (t_job t = J)) as [E|N].
  - rewrite E in Cap. apply within_cap_Z in Cap; [|done]. left. rewrite Z.add_0_r in Cap. lia.
  - eapply within_idle; [exact O| exact W|]. etrans; [|exact I1]. eapply idle_store; [exact L| | |exact S]; [done|by intros ?].
Qed.

Lemma capped_start now id k a w w' : StartTask st supply now id k a w = Ok w' → capped 0 w → capped 0 w'.
Proof using.
  intros (t & x & L & Lv & [I|(Q & Cb & Tp & w1 & w2 & I1 & T & S & I2)])%(start_parts true J) Cw; [by eapply capped_idle|].
  pose proof Cw as [O W]. destruct (capped_idle _ _ _ _ Cw I1) as [O1 W1]. assert (w_tasks w1 !! id = Some t) as L1 by (by rewrite T).
  assert (sound w2 ∧ allowed w2 = allowed w1 ∧ charged_micros w2 J = charged_micros w1 J) as (O2 & A2 & C2).
  { eapply sound_store; [exact O1|exact L1| | |exact S]; [done|]. by intros Pt. }
  eapply capped_idle; [split; [exact O2|]|exact I2]. destruct (decide (t_job t = J)) as [E|N].
  - pose proof (busy_run _ _ _ _ _ S) as B. pose proof (busy_idle _ _ _ I1) as B1. pose proof (cp_price _ O) as P0.
    pose proof (charged_idle _ _ _ (cp_mirror _ O) (cp_known _ O) I1) as C1. destruct (third_opinion t) eqn:Th.
    + specialize (Tp eq_refl). apply eligible_cap in Tp. rewrite E in Tp. apply within_cap_Z in Tp; [|done]. left. nia.
    + right. left. rewrite A2, (allowed_idle _ _ _ I1). eapply (cp_pin _ O); [exact L|exact E|]. unfold is_pinned.
      rewrite Cb, Th, bool_decide_true by done. simpl. rewrite !andb_true_r. by_status.
  - eapply (within_idle true); [exact O1|exact W1|]. eapply idle_store; [exact L1| | |exact S]; [done|by intros ?].
Qed.

Lemma capped_hedge now id j pr peer i ch w x w' : InsertHedgeTask supply now id j pr peer i ch w = Ok (x, w') → capped 0 w → capped 0 w'.
Proof using. intros [->|(p & c' & f & w1 & L & E & _ & _ & Cl & C & I)]%hedge_Ok; [done|]. by eapply capped_join. Qed.

Lemma capped_tiebreak now id j pr peer i ch cl w x w' :
  InsertTiebreakTask supply now id j pr peer i ch cl w = Ok (x, w') → capped 0 w → capped 0 w'.
Proof using.
  intros [->|(p & c' & f & w1 & w2 & m & L & E & _ & Cl & C & I & Ct)]%tiebreak_Ok Cw; [done|].
  eapply (capped_idle true); [by eapply capped_join|by eapply idle_count].
Qed.

(** *** A verdict *)

Context (marshal : decision → list canonicalVerificationSettlement → res string).
Context (effect_uuid : UUID → Z → nat → effect → UUID).
Context (unknown_outcome : UUID → bool).

Lemma capped_effects now info es : Forall (λ e, valid_effect info e = true) es → ∀ w a b w',
  apply_effects st supply unknown_outcome now info es w = Ok (a, b, w') → capped 0 w → capped 0 w'.
Proof using.
  induction 1 as [|e es V _ IH]; simpl; intros w a b w' H Cw; [by simplify_eq|].
  apply bind_Ok in H as (u & _ & H). apply bind_Ok in H as ([[r i] w1] & E & H). apply bind_Ok in H as ([[r' i'] w2] & E2 & H).
  simplify_eq. eapply IH; [exact E2|]. destruct (tiebreak_peer e) as [peer|] eqn:Tp.
  - destruct e; simpl in Tp; simplify_eq. simpl in E. apply bind_Ok in E as ([ins w3] & E & H). simplify_eq.
    apply (planned_Ok true J) in E as [->|(pt & c' & f & w4 & w5 & L & Ep & Cl & C & I & D)]; [done|]. eapply capped_idle; [|exact D]. by eapply capped_join.
  - eapply (capped_idle true); [exact Cw|]. eapply idle_effect; [exact V|by right|exact E].
Qed.

Lemma capped_accept now info l p dg prepaid buyer w w' t :
  w_tasks w !! in_task info = Some t → t_job t = J → Forall (settles (in_task info)) (vp_settlement p) →
  (∀ e, e ∈ vp_settlement p → le_Kind e = KindBuyerCharge → - usdToMicros (AmountUSD e) ≤ c) →
  accept_attempt st now info l p dg prepaid buyer w = Ok w' → capped 0 w → capped 0 w'.
Proof using.
  intros L E Sh Bl (es & cn & x & y & z & u & v & o & Ac)%accept_parts [O W].
  pose proof Ac as Id. apply (idle_accepts true J) in Id as [I1 I2].
  destruct Ac as [Fe R _ _ (d & En & ->) _ _ _]. eapply capped_idle; [|exact I2].
  apply update_task_Ok in R as [(? & _)|(_ & t2 & L2 & Sel & R)]; [done|]. assert (t2 = t) as -> by congruence. reflect_bools.
  assert (is_busy t = true) as Bt by by_status.
  assert (sound x ∧ allowed x = allowed w ∧ charged_micros x J = charged_micros w J) as (Ox & Ax & Cx).
  { eapply sound_store; [exact O|exact L| | |exact R]; [done|]. by intros Pt. }
  assert (count busy x + 1 ≤ count busy w) as Bx by (by eapply busy_end; [exact L|exact E|exact Bt| |exact R]).
  pose proof (cp_price _ O) as P0. assert (0 ≤ count busy x) as Bx0 by (unfold count; lia).
  assert (capped c z) as Cz.
  { eapply capped_idle; [|exact I1]. split; [exact Ox|]. unfold within in *. rewrite Ax, Cx.
    destruct W as [W|[W|(_ & _ & W2)]]; [left; nia|by right; left|lia]. }
  apply store_row_Ok in R as (-> & _).
  assert (w_tasks (with_tasks w (<[in_task info := accepted_row now (dc_outcome (vp_decision p)) t]> (w_tasks w))) !! in_task info =
            Some (accepted_row now (dc_outcome (vp_decision p)) t)) as Lx by (simpl; by rewrite lookup_insert_eq).
  destruct (i_kept _ _ _ _ I1 _ _ Lx) as (tz & Lz & Bz). assert (t_job tz = J) as Ez by (unfold t_job in *; by rewrite Bz).
  eapply capped_entries; [exact Cz|exact Lz|exact Ez| | |exact En].
  - apply fence_entries in Fe as (? & _ & [[-> _]|[-> _]]); [done|by constructor].
  - intros e I. apply fence_entries in Fe as (? & _ & [[-> _]|[-> _]]); [by apply Bl|by apply not_elem_of_nil in I].
Qed.

(** A charge that is applied has the text of what the loader computed. *)
Lemma verify_bill now l p info docs w r w' e :
  VerifyJobTx st supply marshal effect_uuid unknown_outcome now l p info docs w = Ok (r, w') →
  e ∈ vp_settlement p → le_Kind e = KindBuyerCharge →
  ∃ out, loadObservedOutputSettlement docs w (in_task info) = Ok out ∧
    fixed6 (AmountUSD e) = fixed6 (SFopp (os_BilledCharge out)).
Proof using.
  unfold VerifyJobTx. intros H I K. unpack H. case_match; [|done]. unpack H.
  match goal with V : validateVerificationSettlementTx _ _ _ _ _ _ = _, D : validateVerificationDecisionShape _ _ _ _ = _ |- _ =>
    rename V into Va; rename D into Sh end. clear H.
  unfold validateVerificationSettlementTx in Va. destruct (one_of _ _) eqn:O.
  - unfold validateVerificationDecisionShape in Sh. rewrite O in Sh. unpack Sh. reflect_bools.
    by destruct (vp_settlement p); [apply not_elem_of_nil in I|].
  - case_match; [|done]. unpack Va. destruct (loadObservedOutputSettlement docs w (in_task info)) as [out|]; [|done].
    exists out. split; [done|]. unpack Va. reflect_bools.
    match goal with A : forallb _ _ = true |- _ => rewrite forallb_forall in A; specialize (A e (proj1 (list_elem_of_In _ _) I)) end.
    reflect_bools. unfold expected_entry in *. rewrite bool_decide_true in * by done. by reflect_bools.
Qed.

(** The loader bills a task of the job at most its price. *)
Lemma loaded_bill docs w id t out :
  capped 0 w → w_tasks w !! id = Some t → t_job t = J → typed_documents docs → loadObservedOutputSettlement docs w id = Ok out →
  ∃ k, 1 ≤ k ≤ c ∧ os_BilledCharge out = microsToUSD k.
Proof using.
  intros [O _] L E T H. unfold loadObservedOutputSettlement in H. rewrite L in H. unpack H.
  pose proof (cp_price _ O) as P0. destruct (cp_exact _ O) as [P1 Ex]. rewrite (cp_born _ O _ _ L E) in H.
  eapply settled_bill in H; [|by split_and!|done]. repeat case_match; by destruct H.
Qed.

Lemma capped_verify now l p info docs w r w' :
  read_back p → typed_documents docs →
  VerifyJobTx st supply marshal effect_uuid unknown_outcome now l p info docs w = Ok (r, w') → capped 0 w → capped 0 w'.
Proof using.
  intros [entries Rb] T H Cw. pose proof (λ e, verify_bill _ _ _ _ _ _ _ _ e H) as Bl.
  apply verify_Ok in H as [_ [(_ & -> & _)|(_ & t & j & w1 & [L Jb _ _ _ Pj Lv Sh _ _ _ Vd (re & i & E) O])]]; [done|].
  pose proof E as Gr. apply (grows_effects any) in Gr; [|done]. eapply capped_effects in E; [|exact Vd|exact Cw].
  destruct O as [[_ O]|[_ O]]; [eapply (capped_idle true); [exact E|by eapply idle_reject]|].
  destruct (g_rows _ _ _ Gr _ _ L) as (t1 & L1 & B1 & _). destruct (decide (t_job t = J)) as [Ej|N].
  - eapply capped_accept; [exact L1| |exact Sh| |exact O|exact E]; [unfold t_job in *; by rewrite B1|].
    intros e I K. destruct (Bl e I K) as (out & Lo & F). destruct (loaded_bill _ _ _ _ _ Cw L Ej T Lo) as (k & Kc & Ko).
    destruct Cw as [Ow _]. destruct (cp_exact _ Ow) as [P1 _]. unfold maxMoneyAbsMicros in P1.
    rewrite Rb in I. apply list_elem_of_fmap in I as (row & -> & I). unfold canonicalVerificationSettlements in I.
    rewrite merge_sort_Permutation in I. apply list_elem_of_fmap in I as (e0 & -> & _). simpl in *. rewrite Ko in F.
    rewrite (parsed_charge _ k); [lia|lia|done].
  - eapply (capped_idle true); [exact E|]. eapply idle_accept; [exact L1| |exact Sh|exact O]. unfold t_job in *. by rewrite B1.
Qed.

Lemma capped_step w w' : step st supply marshal effect_uuid unknown_outcome true w w' → capped 0 w → capped 0 w'.
Proof using.
  intros [| | | | | | | | | | | | |? ? ? A H| | | | | | | | | | |? ? ? ? ? ? ? Bl H| | |] Cw;
    try (eapply (capped_idle true); [exact Cw|];
         eauto using idle_renew, idle_commit, idle_fail, idle_requeue, idle_force, idle_sweep, idle_rescue,
         idle_rescue_job, idle_cancel_stuck, idle_cancel, idle_detach, idle_reassign, idle_claim_attempt, idle_claim_work,
         idle_renew_work, idle_release_work, idle_sampling, idle_artifact, idle_persist, economics_idle, idle_other_rows,
         idle_other_purse; fail).
  - by eapply capped_claim.
  - by eapply capped_start.
  - by eapply capped_hedge.
  - by eapply capped_tiebreak.
  - destruct (Bl eq_refl). by eapply capped_verify.
  - eapply (capped_idle true); [exact Cw|]. idly.
Qed.

(** C3: whatever the interleaving of claims, starts, hedges, third opinions, verdicts,
    retries and sweeps, once anything is charged for the tasks of a job, what is charged
    together with its SLA premium is within the cap its buyer set.  It starts from any
    state that satisfies the invariant [capped], as a job does that was just submitted
    with its tasks priced by its plan; the verdicts apply plans read from their table, and
    the amount of each bill is computed by the modelled loader. *)
Theorem charges_within_cap w w' :
  capped 0 w → history st supply marshal effect_uuid unknown_outcome true w w' →
  0 < charged_micros w' J → charged_micros w' J + sla ≤ cap.
Proof using.
  intros Cw H Pos. assert (capped 0 w') as [O W] by (induction H; eauto using capped_step).
  pose proof (sound_total _ O) as T. pose proof (cp_price _ O) as P0. assert (0 ≤ count busy w') by (unfold count; lia).
  destruct W as [W|[W|(_ & W & _)]]; [nia|lia|lia].
Qed.

End Running.

End Cap.
