(* ===== verification/TaskPrepaid.v ===== *)
(** * TaskPrepaid: what a prepaid job is charged has been taken from the balance

    Accepting an attempt writes the charge and, for a prepaid job, takes the same amount
    from the buyer's balance, in one transaction.  [backed] says that the two rows are
    always there together, through every history; [Purse]'s invariant then says that the
    balance is what the rows leave of it. *)
From stdpp Require Import base numbers list gmap strings pretty.
From Stdlib Require Import SpecFloat.
From S2P Require Import Prelude.
From S2P Require Import Float64.
From S2P Require Import FloatOrder.
From S2P Require Import Sha256.
From S2P Require Import Currency.
From S2P Require Import LedgerWrite.
From S2P Require Import Purse.
From S2P Require Import TaskStore.
From S2P Require Import Verification.
From S2P Require Import TaskGrowth.
From S2P Require Import TaskLifecycle.
Local Open Scope Z_scope.
Local Open Scope go_scope.

(** ** Dollars to micros, with the sign changed *)

Lemma mul_opp x y : f64_mul (SFopp x) y = SFopp (f64_mul x y).
Proof.
  unfold f64_mul. destruct x as [sx|sx| |sx mx ex], y as [sy|sy| |sy my ey]; simpl; rewrite <-?negb_xorb_l; try done.
  apply round_aux_opp.
Qed.

Lemma normalize_opp z s : binary_normalize 53 1024 (- z) 0 (negb s) = SFopp (binary_normalize 53 1024 z 0 s).
Proof. destruct z; simpl; [done|..]; unfold binary_round; repeat case_match; apply (round_aux_opp false) || apply (round_aux_opp true). Qed.

Lemma round_opp x : f64_round (SFopp x) = SFopp (f64_round x).
Proof.
  destruct x as [s|s| |s m e]; simpl; try done. case_match; [done|].
  rewrite <-normalize_opp. f_equal. by destruct s; simpl; lia.
Qed.

Lemma trunc_opp x : f64_trunc (SFopp x) = Z.opp <$> f64_trunc x.
Proof. destruct x as [s|s| |s m e]; simpl; try done. f_equal. destruct s; simpl; lia. Qed.

(** Exact, unless the conversion was out of range. *)
Lemma usdToMicros_opp x : min_int64 < usdToMicros x → usdToMicros (SFopp x) = - usdToMicros x.
Proof.
  unfold usdToMicros. rewrite mul_opp, round_opp. unfold f64_to_int64. rewrite trunc_opp.
  destruct (f64_trunc _) as [z|]; simpl; [|lia]. destruct (is_int64 z) eqn:I; [|lia]. intros L.
  assert (is_int64 (- z) = true) as ->; [|done]. apply is_int64_spec in I. apply is_int64_spec. go_lia.
Qed.

(** ** Charges and debits *)

(** A prepaid debit of the task. *)
Definition is_debit_of (id : UUID) (r : row) : Prop := kind r = KindPrepaidDebit ∧ task_id r = Some id.

(** The debit that goes with a charge. *)
Definition paid_by (w : world) (b : UUID) (id : UUID) (r : row) : Prop :=
  ∃ r', r' ∈ moneys w ∧ is_debit_of id r' ∧ amount_micros r' = amount_micros r ∧ buyer_id r' = Some b.

Record backed (w : world) : Prop := {
  bk_mirror : mirror_ok w;
  bk_known : ∀ id, is_charged w id → ∃ J j, tasks (books w) !! id = Some J ∧ job_row w J = Some j;
  bk_charged : ∀ id r, r ∈ moneys w → is_debit_of id r → is_charged w id;
  bk_paid : ∀ id J j r, tasks (books w) !! id = Some J → job_row w J = Some j → prepaid_required j = true →
    r ∈ moneys w → is_charge_of id r = true → paid_by w (job_buyer j) id r
}.

Lemma elem_charged w id r : r ∈ moneys w → is_charge_of id r = true → is_charged w id.
Proof. intros I C N. by apply (filter_nil_not_elem_of _ _ r N C). Qed.

(** The earlier job and task of something charged. *)
Lemma earlier_job P w w' id J' j' :
  backed w → grows P w w' → is_charged w id → tasks (books w') !! id = Some J' → job_row w' J' = Some j' →
  ∃ j, tasks (books w) !! id = Some J' ∧ job_row w J' = Some j ∧ job_buyer j' = job_buyer j ∧ prepaid_required j' = prepaid_required j.
Proof.
  intros B G C T Lj. destruct (bk_known _ B _ C) as (J & j & T0 & L0).
  pose proof (lookup_weaken _ _ _ _ T0 (g_mirror _ _ _ G)) as T1. assert (J' = J) as -> by congruence.
  destruct (g_jobs _ _ _ G _ _ L0) as (j2 & L2 & Bu & _ & Pr & _). assert (j' = j2) as -> by congruence. eauto.
Qed.

Lemma known_grows P w w' id : backed w → grows P w w' → is_charged w id → ∃ J j, tasks (books w') !! id = Some J ∧ job_row w' J = Some j.
Proof.
  intros B G C. destruct (bk_known _ B _ C) as (J & j & T0 & L0). destruct (g_jobs _ _ _ G _ _ L0) as (j2 & L2 & _).
  exists J, j2. split; [|done]. eapply lookup_weaken; [exact T0|apply G].
Qed.

Lemma paid_grows P w w' b id r : grows P w w' → paid_by w b id r → paid_by w' b id r.
Proof.
  intros G (r' & I & D). exists r'. split; [|done]. destruct (g_ledger _ _ _ G) as (rs & E & _). unfold moneys. rewrite E. apply elem_of_app. by left.
Qed.

Lemma backed_grows w w' : grows plain w w' → backed w → backed w'.
Proof.
  intros G B. pose proof (g_ledger _ _ _ G) as (rs & E & F). rewrite Forall_forall in F.
  assert (∀ r, r ∈ moneys w' → r ∈ moneys w ∨ r ∈ rs) as In by (intros r; unfold moneys; rewrite E; apply elem_of_app).
  assert (∀ id, is_charged w' id → is_charged w id) as Ch.
  { intros id. rewrite charged_grows; [done|]. eapply grows_mono; [|exact G]. apply plain_quiet. }
  split.
  - apply G, B.
  - intros id C%Ch. by eapply known_grows.
  - intros id r [I|I]%In [K T]; [|by rewrite (F _ I) in T; [|rewrite K; set_solver]].
    eapply charged_adds; [exact G|]. by apply (bk_charged _ B id r).
  - intros id J j r T Lj Pr [I|I]%In C.
    + assert (is_charged w id) as Cw by (by eapply elem_charged).
      destruct (earlier_job _ _ _ _ _ _ B G Cw T Lj) as (j0 & T0 & L0 & Bu & P0). rewrite Bu. eapply paid_grows; [exact G|].
      eapply (bk_paid _ B); [exact T0|exact L0|congruence|done..].
    + unfold is_charge_of in C. reflect_bools. rewrite (F _ I) in *; [done|]. match goal with K : kind r = _ |- _ => rewrite K end. left.
Qed.

(** *** Writing charge and debit *)

Section Paying.
Context (st : settlement).

Lemma new_checked d e d' : insertNewLedgerEntryTx st d e = Ok d' → min_int64 < usdToMicros (AmountUSD e).
Proof using.
  unfold insertNewLedgerEntryTx. intros H. apply bind_Ok in H as ([n d1] & W & H). apply refuse_Ok in H as [N _].
  apply negb_false_iff, Z.eqb_eq in N. subst. apply insert_on_task_Ok in W as [(? & _)|(_ & r & _ & [_ A _ _ _ _] & C)]; [done|].
  apply row_checks_amount in C. simpl in A. rewrite A in C. unfold maxMoneyAbsMicros in C. width. lia.
Qed.

Lemma entries_checked es : ∀ d d' e, insert_entries st d es = Ok d' → e ∈ es → min_int64 < usdToMicros (AmountUSD e).
Proof using.
  induction es as [|e' es IH]; simpl; intros d d' e H I; [by apply not_elem_of_nil in I|].
  apply bind_Ok in H as (d1 & W & H). apply elem_of_cons in I as [->|I]; [by eapply new_checked|by eapply IH].
Qed.

Lemma prepaid_charge_acc b es : ∀ acc m, prepaid_charge b es acc = Ok m → acc ≠ 0 → m = acc.
Proof using.
  induction es as [|e es IH]; simpl; intros acc m H N; [by simplify_eq|].
  case_match; [|by apply IH]. unpack H. reflect_bools. done.
Qed.

Lemma prepaid_charge_Ok b es : ∀ m e,
  prepaid_charge b es 0 = Ok m → NoDup (le_Kind <$> es) → e ∈ es → le_Kind e = KindBuyerCharge →
  m = usdToMicros (SFopp (AmountUSD e)).
Proof using.
  induction es as [|e' es IH]; simpl; intros m e H N I K; [by apply not_elem_of_nil in I|].
  apply NoDup_cons in N as [N1 N2]. apply elem_of_cons in I as [->|I].
  - rewrite bool_decide_true in H by done. unpack H. clear G. rewrite K in N1. clear -H N1. revert H N1.
    generalize (usdToMicros (SFopp (AmountUSD e'))). intros acc. induction es as [|e es IH]; simpl; intros H N1; [by simplify_eq|].
    rewrite bool_decide_false in H; [apply IH; [done|]|]; set_solver.
  - rewrite bool_decide_false in H; [by eapply IH|]. intros E. apply N1. rewrite E, <-K. by apply list_elem_of_fmap_2.
Qed.

Lemma debit_task_Ok p b t m p' :
  debitPrepaidForTaskTx st p b t m = Ok p' →
  (∃ r, r ∈ ledger (purse_books p) ∧ is_debit_of t r) ∨
  ∃ r, purse_books p' = with_ledger (purse_books p) (ledger (purse_books p) ++ [r]) ∧ is_debit_of t r ∧
    amount_micros r = - m ∧ buyer_id r = Some b.
Proof using.
  unfold debitPrepaidForTaskTx. intros H. unpack H. case_match; [|done]. unpack H. unfold debit_once in H.
  apply bind_Ok in H as (p1 & T & H). unfold take_balance in T. unpack T. simplify_eq. apply bind_Ok in H as ([n d] & W & H).
  apply insert_on_task_Ok in W as [(-> & -> & r & I & K & Tr)|(-> & r & -> & [Wk Wa Wb Wt _ _] & _)].
  - left. exists r. done.
  - right. exists r. simpl in H. simplify_eq. done.
Qed.

Lemma entries_rows es : ∀ d d' e, insert_entries st d es = Ok d' → e ∈ es → ∃ r, r ∈ money <$> ledger d' ∧ of_entry e r.
Proof using.
  induction es as [|e' es IH]; simpl; intros d d' e H I; [by apply not_elem_of_nil in I|].
  apply bind_Ok in H as (d1 & W & H). apply elem_of_cons in I as [->|I]; [|by eapply IH].
  apply writes_new in W as [_ (r & -> & W)]. apply writes_entries in H as (l & -> & rs & E & _).
  exists (money r). split; [|by eapply of_entry_money]. simpl. rewrite E. simpl. rewrite fmap_app, !elem_of_app. left. right. left.
Qed.

Lemma debit_not_settle k : k ∈ settle_kinds → k ≠ KindPrepaidDebit.
Proof using. unfold settle_kinds. rewrite !elem_of_cons, elem_of_nil. intros H E. subst. naive_solver. Qed.

(** The charge and, for a prepaid job, its debit. *)
Lemma backed_settle id J j z es d v :
  backed z → tasks (books z) !! id = Some J → job_row z J = Some j → Forall (settles id) es → NoDup (le_Kind <$> es) →
  (∃ e, e ∈ es ∧ le_Kind e = KindBuyerCharge) → insert_entries st (books z) es = Ok d →
  prepaid_required j = false ∧ v = with_books z d ∨
  (∃ m q, prepaid_charge (job_buyer j) es 0 = Ok m ∧ debitPrepaidForTaskTx st (w_purse (with_books z d)) (job_buyer j) id m = Ok q ∧
     v = with_purse (with_books z d) q) →
  backed v.
Proof using.
  intros B T Lj F Nd (e0 & I0 & K0) H D. rewrite Forall_forall in F.
  assert (¬ is_charged z id) as Nc by (eapply entries_uncharged; [exact H|]; exists e0; split_and!; [done..|]; by apply F).
  destruct (entries_rows _ _ _ _ H I0) as (r0 & R0 & O0). pose proof (λ e, entries_checked _ _ _ e H) as Ck.
  apply writes_entries in H as (l & -> & rs & E & Fr). simpl in R0. rewrite Forall_forall in Fr.
  assert (∃ xs, moneys v = moneys z ++ rs ++ xs ∧ tasks (books v) = tasks (books z) ∧ jobs (books v) = jobs (books z) ∧
            w_tasks v = w_tasks z ∧
            ((prepaid_required j = false ∧ xs = []) ∨
             ∃ x m, xs = [x] ∧ prepaid_charge (job_buyer j) es 0 = Ok m ∧ is_debit_of id x ∧ amount_micros x = - m ∧ buyer_id x = Some (job_buyer j)))
    as (xs & Mv & Tv & Jv & Wv & X).
  { destruct D as [[P ->]|(m & q & C & D & ->)]; [exists []; rewrite app_nil_r; split_and!; [exact E|done..|by left]|].
    apply debit_task_Ok in D as [(r & I & De)|(r & Eq & De & A & Bu)].
    - exfalso. apply (list_elem_of_fmap_2 money) in I. change (money r ∈ money <$> l) in I. rewrite E in I.
      apply elem_of_app in I as [I|I]; [apply Nc; eapply (bk_charged _ B); [exact I|exact De]|].
      destruct (Fr _ I) as (e & Ie & Ke & _). destruct (F _ Ie) as [_ Se]. apply (debit_not_settle _ Se). rewrite <-Ke. apply De.
    - exists [money r]. unfold moneys, books. simpl. rewrite Eq. simpl. rewrite fmap_app, E, <-app_assoc. split_and!; [done..|].
      right. exists (money r), m. done. }
  assert (is_charged v id) as Cv.
  { eapply (elem_charged _ _ r0); [rewrite Mv, app_assoc, elem_of_app; left; unfold moneys; by rewrite <-E|]. destruct O0 as (K & Tk & _).
    unfold is_charge_of. rewrite K, Tk, K0. destruct (F _ I0) as [-> _]. by rewrite !bool_decide_true. }
  assert (∀ r i, r ∈ moneys v → is_charge_of i r = true → r ∈ moneys z ∨ i = id ∧ ∃ e, e ∈ es ∧ of_entry e r) as Cases.
  { intros r i I C. rewrite Mv, !elem_of_app in I. unfold is_charge_of in C. reflect_bools. destruct I as [I|[I|I]]; [by left| |].
    - right. destruct (Fr _ I) as (e & Ie & O). split; [|by exists e]. destruct O as (_ & Te & _). destruct (F _ Ie) as [Te' _]. congruence.
    - exfalso. destruct X as [[_ ->]|(x & m & -> & _ & [Kx _] & _)]; [by apply not_elem_of_nil in I|].
      apply list_elem_of_singleton in I as ->. unfold KindPrepaidDebit, KindBuyerCharge in *. congruence. }
  split.
  - intros i t L. rewrite Wv in L. rewrite Tv. by apply B.
  - intros i C. unfold job_row. rewrite Tv, Jv. destruct (decide (i = id)) as [->|N]; [eauto|]. apply (bk_known _ B).
    destruct (charges i (moneys v)) as [|r cs] eqn:Ec; [done|].
    assert (r ∈ charges i (moneys v)) as [Cr Ir]%list_elem_of_filter by (rewrite Ec; left).
    destruct (Cases _ _ Ir Cr) as [Iz|[? _]]; [by eapply elem_charged|done].
  - intros i r I De. destruct (decide (i = id)) as [->|N]; [done|]. rewrite Mv, !elem_of_app in I. destruct I as [I|[I|I]].
    + assert (is_charged z i) as Cz by (by eapply (bk_charged _ B)). unfold is_charged in *. rewrite Mv, charges_app.
      by destruct (charges i (moneys z)).
    + destruct (Fr _ I) as (e & Ie & _ & Te & _). destruct (F _ Ie) as [Te' _]. destruct De as [_ Td]. congruence.
    + destruct X as [[_ ->]|(x & m & -> & _ & [_ Tx] & _)]; [by apply not_elem_of_nil in I|].
      apply list_elem_of_singleton in I as ->. destruct De as [_ Td]. congruence.
  - intros i J' j' r Ti Lj' Pr I C. rewrite Tv in Ti. unfold job_row in Lj'. rewrite Jv in Lj'.
    destruct (Cases _ _ I C) as [Iz|[-> (e & Ie & Ke & Te & Ae)]].
    + destruct (bk_paid _ B _ _ _ _ Ti Lj' Pr Iz C) as (r' & I' & Dr). exists r'. split; [|done]. rewrite Mv, elem_of_app. by left.
    + assert (J' = J) as -> by congruence. unfold job_row in Lj. assert (j' = j) as -> by congruence.
      destruct X as [[? _]|(x & m & -> & Pm & Dx & Ax & Bx)]; [congruence|]. exists x. split_and!; [|done| |done].
      * rewrite Mv, !elem_of_app. right. right. left.
      * unfold is_charge_of in C. reflect_bools. rewrite Ax, Ae. erewrite (prepaid_charge_Ok _ _ m e); [|done..|congruence].
        rewrite usdToMicros_opp; [lia|]. by apply Ck.
Qed.

End Paying.

(** ** Every history *)

Section PaidHistory.
Context (st : settlement) (supply : UUID → UUID → bool).
Context (marshal : decision → list canonicalVerificationSettlement → res string).
Context (effect_uuid : UUID → Z → nat → effect → UUID).
Context (unknown_outcome : UUID → bool).

Lemma backed_verify now l p info docs w r w' :
  VerifyJobTx st supply marshal effect_uuid unknown_outcome now l p info docs w = Ok (r, w') → backed w → backed w'.
Proof using.
  intros [_ [(_ & -> & _)|(_ & t & j & w1 & [L Jb _ _ _ Pj _ Sh Nd So _ _ (re & i & E) O])]]%verify_Ok B; [done|].
  apply (grows_effects plain) in E; [|done]. pose proof (backed_grows _ _ E B) as B1.
  destruct O as [[_ O]|[_ O]]; [eapply backed_grows; [by eapply grows_reject|done]|].
  apply accept_parts in O as (es & c & x & y & z & u & v & o & Ac). pose proof Ac as [Fe _ _ _ (d & En & ->) D _ _].
  apply (grows_accepts st plain) in Ac as (G1 & G2 & G3 & _ & _ & G6); [|done..].
  assert (grows plain w z) as Gz by (etrans; [exact E|]; etrans; [exact G1|]; by etrans).
  pose proof (backed_grows _ _ Gz B) as Bz. eapply backed_grows; [exact G6|].
  destruct (g_rows _ _ _ Gz _ _ L) as (tz & Lz & Bth & _). apply (bk_mirror _ Bz) in Lz.
  destruct (g_jobs _ _ _ Gz _ _ Pj) as (jz & Ljz & Bu & _ & Pr & _).
  assert (t_job tz = in_job info) as Ez by (unfold t_job in *; congruence). rewrite Ez in Lz.
  apply fence_entries in Fe as (t1 & _ & [[-> _]|[-> _]]).
  2:{ simpl in En. simplify_eq. destruct D as [[_ ->]|(? & _)]; [by rewrite with_books_id|by rewrite andb_false_r in *]. }
  destruct So as [N|So].
  { rewrite N in *. simpl in En. simplify_eq. destruct D as [[_ ->]|(? & _)]; [by rewrite with_books_id|by rewrite andb_false_r in *]. }
  eapply backed_settle; [exact Bz|exact Lz|exact Ljz|exact Sh|exact Nd|exact So|exact En|].
  assert (negb (length (vp_settlement p) =? 0)%nat = true) as Ne.
  { destruct So as (e & I & _). destruct (vp_settlement p); [by apply not_elem_of_nil in I|done]. }
  rewrite Ne, andb_true_r in D. rewrite Bu, Pr. destruct D as [[Dp ->]|(_ & m & q & Pc & _ & Db & ->)]; [by left|right; eauto 10].
Qed.

Lemma backed_step stored w w' : step st supply marshal effect_uuid unknown_outcome stored w w' → backed w → backed w'.
Proof using. intros [G|(? & ? & ? & ? & ? & ? & G)]%step_grows; [by apply backed_grows|by eapply backed_verify]. Qed.

(** C5: Through any history of a start that is in order, every charge for a task of
    a prepaid job has its debit of the same amount against the same buyer, every debit of
    a task belongs to a task that was charged, and the buyers' balances are what the
    ledger says is left, and not negative. *)
Theorem prepaid_charges_debited stored w w' id J j r :
  backed w → purse_ok (w_purse w) → history st supply marshal effect_uuid unknown_outcome stored w w' →
  (tasks (books w') !! id = Some J → job_row w' J = Some j → prepaid_required j = true →
   r ∈ moneys w' → is_charge_of id r = true → paid_by w' (job_buyer j) id r) ∧
  (r ∈ moneys w' → is_debit_of id r → is_charged w' id) ∧
  purse_ok (w_purse w').
Proof using.
  intros B O H. assert (backed w') as B' by (clear O; induction H; eauto using backed_step). split_and!.
  - intros. by eapply (bk_paid _ B').
  - intros. by eapply (bk_charged _ B').
  - apply history_grows in H. by apply (g_purse _ _ _ H).
Qed.

End PaidHistory.
