(* ===== verification/Disputes.v ===== *)
(** * Disputes: filing, and the sweep that should settle them

    A buyer disputes a terminal job ([store_disputes.go]); filing freezes the job's
    supplier credits.  A sweep ([resolveDisputes] of [workers.go]) takes the active
    disputes in order of age: it asks for a third opinion on a finished task, and once
    nothing of the job is pending decides for the buyer if the task was clawed back.
    The third opinion is inserted by [InsertTiebreakTask], which wants a live job, while a
    dispute is only ever about a terminal one: the last theorem is what follows.

    Ledger rows are named by their position (the table only grows).  Which peer the
    selection found is an argument, and so is what resolving a dispute answered: the
    refund it makes is [LedgerWrite]'s.  The payout operations a filing interrupts are
    [Payouts]'s. *)
From stdpp Require Import base numbers list gmap strings pretty.
From S2P Require Import Prelude.
From S2P Require Import Currency.
From S2P Require Import LedgerWrite.
From S2P Require Import Purse.
From S2P Require Import TaskStore.
From S2P Require Import Verification.
From S2P Require Import TaskGrowth.
From S2P Require Import TaskLifecycle.
Local Open Scope Z_scope.
Local Open Scope go_scope.

Record dispute_row := mkDispute {
  dp_job : UUID;
  dp_buyer : UUID;
  dp_reason : string;
  dp_status : string;
  dp_created : Z;
  dp_deadline : Z;
  dp_attempts : Z;                    (* no_peer_attempts *)
  dp_first_no_peer : option Z;
  dp_reverify : option UUID
}.

Record docket := mkDocket {
  dk_world : world;
  dk_disputes : gmap UUID dispute_row;
  dk_holds : list (UUID * nat * string);   (* dispute, ledger row, status at filing *)
  dk_terminal_at : gmap UUID Z             (* jobs.terminal_at *)
}.

Definition with_disputes (s : docket) (m : gmap UUID dispute_row) : docket := mkDocket (dk_world s) m (dk_holds s) (dk_terminal_at s).
Definition with_world (s : docket) (w : world) : docket := mkDocket w (dk_disputes s) (dk_holds s) (dk_terminal_at s).

Definition errDisputeReasonRequired : error := Sentinel "errDisputeReasonRequired".
Definition errDisputeReasonTooLong : error := Sentinel "errDisputeReasonTooLong".
Definition errDisputeJobNotTerminal : error := Sentinel "errDisputeJobNotTerminal".
Definition errDisputeWindowClosed : error := Sentinel "errDisputeWindowClosed".
Definition errDisputeAlreadyActive : error := Sentinel "errDisputeAlreadyActive".

Definition disputeFilingWindow : Z := 7 * 24 * 3600 * second.
Definition maxDisputeReasonRunes : Z := 1000.
Definition noPeerDisputeMaxAttempts : Z := 30.
Definition noPeerDisputeMaxAge : Z := 30 * minute.

(** [len([]rune(s))] of valid UTF-8: the bytes that do not continue a rune. *)
Definition rune_count (s : string) : Z :=
  Z.of_nat (length (List.filter (λ c, let n := Ascii.N_of_ascii c in negb ((128 <=? n)%N && (n <? 192)%N)) (String.list_ascii_of_string s))).

(** ** Filing *)

(** The index [disputes_one_active_job_uniq]. *)
Definition undecided : list string := ["open"; "no_peer"; "reverifying"; "unresolvable"].
Definition active : list string := ["open"; "no_peer"; "reverifying"].

Definition has_undecided (s : docket) (jobID : UUID) : bool :=
  bool_decide (filter (λ x, bool_decide (dp_job x.2 = jobID) && one_of (dp_status x.2) undecided = true) (dk_disputes s) ≠ ∅).

(** A supplier credit of the job that is not final. *)
Definition freezable (w : world) (jobID : UUID) (r : row) : bool :=
  of_job (books w) jobID r && bool_decide (kind r = KindSupplierCredit) &&
  negb (one_of (payout_status r) ["released"; "exported"; "clawed_back"; "reversal_required"]).

Definition holds_of (w : world) (id jobID : UUID) : list (UUID * nat * string) :=
  omap (λ x : nat * row, if freezable w jobID x.2 then Some (id, x.1, payout_status x.2) else None) (imap pair (ledger (books w))).

(** Money in flight goes to recovery. *)
Definition frozen_row (w : world) (jobID : UUID) (r : row) : row :=
  if freezable w jobID r && one_of (payout_status r) ["sending"; "outcome_unknown"] then set_payout_status "reversal_required" r else r.

Definition RecordDispute (now : Z) (id jobID buyerID : UUID) (reason : string) (s : docket) : res docket :=
  let reason := trim_space reason in
  let w := dk_world s in
  refuse errDisputeReasonRequired if bool_decide (reason = "");
  refuse errDisputeReasonTooLong if maxDisputeReasonRunes <? rune_count reason;
  match job_row w jobID with
  | None => Err errNotFound
  | Some j =>
      refuse errNotFound if negb (bool_decide (job_buyer j = buyerID));
      refuse errDisputeJobNotTerminal if negb (one_of (job_status j) ["complete"; "failed"; "cancelled"]);
      match dk_terminal_at s !! jobID with
      | None => Err (Errorf "terminal job %s has no terminal timestamp")
      | Some at_ =>
          let deadline := at_ + disputeFilingWindow in
          refuse errDisputeWindowClosed if deadline <? now;
          refuse errUniqueViolation if bool_decide (dk_disputes s !! id ≠ None);
          refuse errDisputeAlreadyActive if has_undecided s jobID;
          Ok (mkDocket (with_books w (with_ledger (books w) (map (frozen_row w jobID) (ledger (books w)))))
                (<[id := mkDispute jobID buyerID reason "open" now deadline 0 None None]> (dk_disputes s))
                (dk_holds s ++ holds_of w id jobID) (dk_terminal_at s))
      end
  end.

(** ** Transitions *)

Definition set_dispute_status (st : string) (task : option UUID) (d : dispute_row) : dispute_row :=
  mkDispute (dp_job d) (dp_buyer d) (dp_reason d) st (dp_created d) (dp_deadline d) (dp_attempts d) (dp_first_no_peer d)
    (match task with Some t => Some t | None => dp_reverify d end).

Definition setActiveDisputeStatus (id : UUID) (status : string) (task : option UUID) (s : docket) : res docket :=
  match dk_disputes s !! id with
  | None => Err errNotFound
  | Some d =>
      refuse errNoRows if bool_decide (job_row (dk_world s) (dp_job d) = None);
      if bool_decide (dp_status d = status) then Ok s
      else
        refuse (Errorf "dispute %s cannot transition from %s to %s") if negb (one_of (dp_status d) active);
        refuse (Errorf "reverifying dispute requires a task id")
          if bool_decide (status = "reverifying") && bool_decide (task = None);
        Ok (with_disputes s (<[id := set_dispute_status status task d]> (dk_disputes s)))
  end.

(** One failed search for a peer; bounded in number and in time. *)
Definition NoteDisputeNoPeer (now : Z) (id : UUID) (s : docket) : res (string * docket) :=
  match dk_disputes s !! id with
  | None => Err errNotFound
  | Some d =>
      refuse errNoRows if bool_decide (job_row (dk_world s) (dp_job d) = None);
      if one_of (dp_status d) ["upheld"; "rejected"; "unresolvable"] then Ok (dp_status d, s)
      else
        refuse (Errorf "dispute %s cannot record no_peer from %s") if negb (one_of (dp_status d) active);
        let attempts := dp_attempts d + 1 in
        let first := default now (dp_first_no_peer d) in
        let to := if (noPeerDisputeMaxAttempts <=? attempts) || (noPeerDisputeMaxAge <=? now - first)
                  then "unresolvable" else "no_peer" in
        Ok (to, with_disputes s (<[id := mkDispute (dp_job d) (dp_buyer d) (dp_reason d) to (dp_created d) (dp_deadline d)
                                            attempts (Some first) (dp_reverify d)]> (dk_disputes s)))
  end.

(** ** The sweep *)

Definition ActiveDisputes (limit : Z) (s : docket) : list UUID :=
  select_due (λ d, one_of (dp_status d) active) dp_created limit (dk_disputes s).

(** The first finished chunk. *)
Definition ReverifyTarget (w : world) (jobID : UUID) : option (UUID * task) :=
  id ← head (select_due (λ t, bool_decide (t_job t = jobID) && in_status [TComplete] t && negb (t_redundancy t) &&
                              negb (b_honeypot (t_birth t)) && bool_decide (h_worker (t_hold t) ≠ None))
               t_chunk 1 (w_tasks w));
  (λ t, (id, t)) <$> w_tasks w !! id.

Definition JobHasPendingTasks (w : world) (jobID : UUID) : bool := some_task w jobID (in_status [TQueued; TRetrying; TRunning]).

Definition TaskHasClawback (w : world) (taskID : UUID) : bool :=
  existsb (λ r, bool_decide (kind r = KindClawback) && bool_decide (task_id r = Some taskID)) (ledger (books w)).

Section Sweep.
Context (supply : UUID → UUID → bool).
(* what the selection found for a task of a job, the identifier and class of a new task, and resolving a dispute *)
Context (peer : UUID → UUID → option UUID) (new_id : UUID → UUID) (class : UUID → res machine).
Context (resolve : UUID → string → docket → res docket).

Definition resolve_one (now : Z) (id : UUID) (d : dispute_row) (s : docket) : res docket :=
  let w := dk_world s in
  if one_of (dp_status d) ["open"; "no_peer"] then
    match ReverifyTarget w (dp_job d) with
    | None => setActiveDisputeStatus id "unresolvable" None s
    | Some (target, t) =>
        match peer (dp_job d) target with
        | None => '(_, s) ← NoteDisputeNoPeer now id s; Ok s
        | Some p =>
            '(reverify, w) ← InsertTiebreakTask supply now (new_id id) (dp_job d) target p (b_input_ref (t_birth t)) (t_chunk t)
                               (class target) w;
            setActiveDisputeStatus id "reverifying" (Some reverify) (with_world s w)
        end
    end
  else if bool_decide (dp_status d = "reverifying") then
    if JobHasPendingTasks w (dp_job d) then Ok s
    else
      let verdict := match ReverifyTarget w (dp_job d) with
                     | Some (target, _) => if TaskHasClawback w target then "upheld" else "rejected"
                     | None => "rejected"
                     end in
      resolve id verdict s
  else Ok s.

(** The rows as the sweep selected them; each is its own transaction, and the first
    error ends the sweep. *)
Fixpoint resolve_all (now : Z) (rows : list (UUID * dispute_row)) (s : docket) : docket * option error :=
  match rows with
  | [] => (s, None)
  | (id, d) :: rest =>
      match resolve_one now id d s with
      | Ok s => resolve_all now rest s
      | Err err => (s, Some err)
      end
  end.

Definition resolveDisputes (now : Z) (s : docket) : docket * option error :=
  resolve_all now (omap (λ id, (λ d, (id, d)) <$> dk_disputes s !! id) (ActiveDisputes sweep_limit s)) s.
End Sweep.

(** ** What filing does *)

Lemma file_parts now id jobID buyerID reason s s' :
  RecordDispute now id jobID buyerID reason s = Ok s' →
  (∃ j, job_row (dk_world s) jobID = Some j ∧ terminal_job j ∧ job_buyer j = buyerID) ∧
  has_undecided s jobID = false ∧ dk_disputes s !! id = None ∧
  ledger (books (dk_world s')) = map (frozen_row (dk_world s) jobID) (ledger (books (dk_world s))) ∧
  (∀ i, job_row (dk_world s') i = job_row (dk_world s) i) ∧ w_tasks (dk_world s') = w_tasks (dk_world s) ∧
  dk_holds s' = dk_holds s ++ holds_of (dk_world s) id jobID ∧
  ∃ at_ reason', dk_terminal_at s !! jobID = Some at_ ∧ now ≤ at_ + disputeFilingWindow ∧
    dk_disputes s' = <[id := mkDispute jobID buyerID reason' "open" now (at_ + disputeFilingWindow) 0 None None]> (dk_disputes s).
Proof.
  unfold RecordDispute. intros H. do 2 (case_match; [done|]). destruct (job_row _ jobID) as [j|] eqn:J; [|done].
  do 2 (case_match; [done|]). destruct (dk_terminal_at s !! jobID) as [a|] eqn:A; [|done].
  do 3 (case_match; [done|]). injection H as <-. reflect_bools. split_and!; try done.
  - exists j. split_and!; [done| |by reflect_bools]. unfold terminal_job, terminal_statuses.
    match goal with T : one_of (job_status j) _ = true |- _ => apply one_of_spec in T; set_solver end.
  - by apply dec_stable.
  - exists a, (trim_space reason). split_and!; [done|lia|done].
Qed.

Lemma holds_of_elem w id jobID i r :
  ledger (books w) !! i = Some r → freezable w jobID r = true → (id, i, payout_status r) ∈ holds_of w id jobID.
Proof.
  intros L F. unfold holds_of. apply list_elem_of_omap. exists (i, r). simpl. rewrite F. split; [|done].
  apply list_elem_of_lookup. exists i. by rewrite list_lookup_imap, L.
Qed.

Lemma frozen_row_money w jobID r : money (frozen_row w jobID r) = money r.
Proof. unfold frozen_row. by case_match. Qed.

Lemma frozen_row_calm w jobID r :
  of_job (books w) jobID (frozen_row w jobID r) = true → kind (frozen_row w jobID r) = KindSupplierCredit →
  payout_status (frozen_row w jobID r) ∉ ["sending"; "outcome_unknown"].
Proof.
  unfold frozen_row. destruct (freezable w jobID r && _) eqn:F; [simpl; set_solver|]. intros O K.
  apply andb_false_iff in F as [F|F].
  - unfold freezable in F. rewrite O, K in F. simpl in F. apply negb_false_iff, one_of_spec in F. intros S. set_unfold. destruct_or!; congruence.
  - intros S%one_of_spec. congruence.
Qed.


(** ** What the sweep can do *)

Lemma dead_job_no_tiebreak supply now id J pr p i ch cl w :
  job_is_live w J = false → existingTiebreakTaskTx w J ch = None → is_ok (InsertTiebreakTask supply now id J pr p i ch cl w) = false.
Proof. unfold InsertTiebreakTask. intros L E. rewrite E, L. by repeat case_match. Qed.

Lemma terminal_not_live w J j : job_row w J = Some j → terminal_job j → job_is_live w J = false.
Proof.
  unfold terminal_job, terminal_statuses, job_is_live. intros -> T. set_unfold. by destruct T as [->|[->|[->|[]]]].
Qed.

Section Late.
Context (st : settlement) (supply : UUID → UUID → bool) (marshal : decision → list canonicalVerificationSettlement → res string).
Context (effect_uuid : UUID → Z → nat → effect → UUID) (unknown_outcome : UUID → bool).
Context (peer : UUID → UUID → option UUID) (new_id : UUID → UUID) (class : UUID → res machine).
Context (resolve : UUID → string → docket → res docket).

(** C37: What a disputed job's re-verification comes to: however the world moved
    on since the filing, when the sweep reaches the dispute with a finished task to check
    and a peer to check it, and the chunk had no third opinion while the job ran, the
    sweep stops there with an error and nothing is changed: the dispute stays as it was,
    and the younger ones are not looked at. *)
Theorem reverification_never_starts stored now now' id jobID buyerID reason s s1 s2 d target t p :
  RecordDispute now id jobID buyerID reason s = Ok s1 →
  history st supply marshal effect_uuid unknown_outcome stored (dk_world s1) (dk_world s2) →
  head (ActiveDisputes sweep_limit s2) = Some id → dk_disputes s2 !! id = Some d →
  dp_job d = jobID → dp_status d ≠ "reverifying" →
  ReverifyTarget (dk_world s2) jobID = Some (target, t) → peer jobID target = Some p →
  existingTiebreakTaskTx (dk_world s2) jobID (t_chunk t) = None →
  ∃ err, resolveDisputes supply peer new_id class resolve now' s2 = (s2, Some err).
Proof.
  intros R Hs A D J S T P E. apply file_parts in R as ((j & Jr & Tj & _) & _ & _ & _ & Js & _).
  rewrite <- Js in Jr. apply history_grows in Hs. destruct (g_jobs _ _ _ Hs _ _ Jr) as (j' & Jr' & _ & _ & _ & Tj').
  assert (job_is_live (dk_world s2) jobID = false) as Dead.
  { eapply terminal_not_live; [done|]. unfold terminal_job. by rewrite Tj'. }
  unfold resolveDisputes. destruct (ActiveDisputes _ s2) as [|i rest] eqn:X; [done|]. injection A as ->.
  assert (id ∈ ActiveDisputes sweep_limit s2) as (d' & D' & Ac)%select_due_elem by (rewrite X; set_solver).
  assert (d' = d) as -> by congruence. simpl. rewrite D. simpl. unfold resolve_one.
  assert (one_of (dp_status d) ["open"; "no_peer"] = true) as ->.
  { apply one_of_spec in Ac. apply one_of_spec. unfold active in Ac. set_solver. }
  rewrite J, T, P.
  match goal with |- context [InsertTiebreakTask _ ?n ?i _ ?g ?q ?f _ ?c _] =>
    pose proof (dead_job_no_tiebreak supply n i jobID g q f _ c _ Dead E) as N end.
  destruct (InsertTiebreakTask _ _ _ _ _ _ _ _ _ _); [done|]. simpl. eauto.
Qed.
End Late.
