(* ===== verification/TaskExamples.v ===== *)
(** * TaskExamples: one prepaid job, run

    A job of one task, claimed, committed, verified, charged and settled, and the same
    job when the no-peer watchdog puts its task back after it was charged: the histories
    at which the theorems of [TaskLifecycle], [TaskIdle], [TaskBudget], [TaskPrepaid] and
    [Disputes] are applied. *)
From stdpp Require Import base numbers list gmap strings pretty.
From Stdlib Require Import SpecFloat.
From S2P Require Import Prelude.
From S2P Require Import Float64.
From S2P Require Import Sha256.
From S2P Require Import Currency.
From S2P Require Import LedgerWrite.
From S2P Require Import Purse.
From S2P Require Import ObservedOutput.
From S2P Require Import TaskStore.
From S2P Require Import Verification.
From S2P Require Import TaskGrowth.
From S2P Require Import TaskLifecycle.
From S2P Require Import TaskIdle.
From S2P Require Import TaskBudget.
From S2P Require Import TaskPrepaid.
From S2P Require Import Disputes.
Local Open Scope Z_scope.
Local Open Scope go_scope.

(** Job 1 of buyer 7 with task 21; worker 5 of supplier 6. *)
Definition demo_machine : machine := mkMachine "metal" "m3" "vllm" "b1" "p1".
Definition demo_worker : worker := mkWorker 6%N "rt" demo_machine (Some 0) false 0.
Definition demo_supplier : supplier := mkSupplier (f32_of_Z 1) "active" 0 None.
Definition demo_price : frozenTaskEconomics := mkFrozen 3000000 2000000 (Some 3000000000) (Some 2000000000).
Definition demo_terms : econ_plan := mkEconPlan demo_price 1 true.
Definition demo_task : task :=
  mkTask (mkBirth 1%N 0 false false None "in" None 0 demo_price 1 true) (mkHold TQueued None None None None 0 (Some 0) None None) None
    (mkOutcome "" "" "" None None None).
Definition demo_jobx : jobx :=
  mkJobx 1 0 (Some 10000000) None "not_attempted" 0 "batch" "tracking" None None (Some demo_terms) (Some (2, 0)).

(** Its documents: a quarter of the price is for output the worker did not produce. *)
Definition demo_docs : frozen_documents :=
  mkDocuments (Some (Ok (mkEconomicPlan no_schedule 1 3000000000 2000000000)))
    (Some (Ok (mkWorkload "batch_infer" 400, mkComputePlan 4 "distributed" 1 1600 (f64_of_Z 400) 400))) (Ok tt).
Definition demo_topup : row :=
  mkRow KindPrepaidTopup None (Some 7%N) None None 20000000 "cad" "released" None (Some "pi_1") None None None.
Definition run_books : db :=
  mkDb [demo_topup] {[ 21%N := 1%N ]} {[ 1%N := mkJob "cad" None 7%N "queued" true 0 ]} {[ 1%N := mkPlan "cad" 500000 0 ]}.

Definition run0 : world :=
  mkWorld (mkPurse run_books {[ (7%N, "cad") := 20000000 ]}) {[ 21%N := demo_task ]} {[ 1%N := demo_jobx ]} {[ 5%N := demo_worker ]}
    {[ 6%N := demo_supplier ]} ∅ ∅ ∅ ∅ ∅ ∅.

Definition all_supply (_ _ : UUID) : bool := true.
Definition one_text (_ : decision) (_ : list canonicalVerificationSettlement) : res string := Ok "plan".
Definition no_effect (_ : UUID) (_ : Z) (_ : nat) (_ : effect) : UUID := 0%N.
Definition all_known (_ : UUID) : bool := false.

Local Abbreviation demo_history := (history cad_st all_supply one_text no_effect all_known).
Local Abbreviation demo_step := (step cad_st all_supply one_text no_effect all_known).

Definition snd_or {A} (w : world) (m : res (A * world)) : world := match m with Ok (_, w') => w' | Err _ => w end.

Definition do_claim := ClaimTasksTx cad_st all_supply 10 5%N None (Some 21%N) (Ok tt) run0.
Definition run1 : world := Eval vm_compute in snd_or run0 do_claim.
Definition demo_commit : TaskCommit := mkCommit 0 (attempt_key 1%N 21%N 0) "" 100 200.
Definition do_commit := completeTaskTx 20 21%N 5%N 31%N demo_commit (Ok "{}") run1.
Definition run2 : world := Eval vm_compute in ok_or run1 do_commit.
Definition do_leasing := ClaimVerificationWorkForAttempt 30 21%N 0 "verifier" 1000 41%N run2.
Definition run3 : world := Eval vm_compute in snd_or run2 do_leasing.
Definition demo_lease : VerificationLease := mkVLease 31%N "verifier" 41%N.
Definition do_sampling := PinVerificationSampling 40 demo_lease "0.1" false run3.
Definition run4 : world := Eval vm_compute in snd_or run3 do_sampling.
Definition demo_sha : string := sha256_hex "output".
Definition demo_artifact : artifact := mkArtifact "sealed/1" demo_sha 6.
Definition do_sealing := PinVerificationArtifact 50 demo_lease demo_artifact run4.
Definition run5 : world := Eval vm_compute in snd_or run4 do_sealing.

Definition demo_info : CommitTaskInfo :=
  mkInfo 21%N 1%N 5%N 6%N 0 100 200 false false "in" 0 demo_machine "embed" "sealed/1" demo_sha.
Definition demo_entry (k : string) (s b : option UUID) (amount : Z) (status : string) (release : option Z) : LedgerEntry :=
  mkLedgerEntry k s b (Some 21%N) (microsToUSD amount) "cad" status release "" "" "".
Definition demo_entries : list LedgerEntry :=
  [demo_entry KindBuyerCharge None (Some 7%N) (-2250000) PayoutReleased None;
   demo_entry KindSupplierCredit (Some 6%N) None 1500000 "held" (Some 500);
   demo_entry KindPlatformTake None None 750000 PayoutReleased None].
Definition demo_decision : decision := mkDecision OutcomePass [] None.

Definition planned : res (vplan * bool * world) :=
  PersistVerificationWorkPlan one_text no_effect 60 demo_lease demo_info ("0.1", false) (sha256_hex "{}") demo_artifact demo_decision demo_entries run5.
Definition run6 : world := Eval vm_compute in snd_or run5 planned.
Definition demo_plan : vplan := Eval vm_compute in
  match planned with Ok (p, _, _) => p | Err _ => mkVplan "" demo_artifact ("", false) demo_decision [] "" 0 end.

Definition applied (now : Z) (w : world) : res (VerificationApplyResult * world) :=
  VerifyJobTx cad_st all_supply one_text no_effect all_known now demo_lease demo_plan demo_info demo_docs w.
Definition run7 : world := Eval vm_compute in snd_or run6 (applied 70 run6).
Definition do_finishing := completeJobEconomics cad_st 1%N (λ d, Ok d) run7.
Definition run8 : world := Eval vm_compute in ok_or run7 do_finishing.

Lemma answered_Ok {A} (m : res (A * world)) w : snd <$> m = Ok w → ∃ a, m = Ok (a, w).
Proof. destruct m as [[a w']|]; [|done]. intros [= <-]. by exists a. Qed.

(** One step of a run: an operation and the state it leaves. *)
Ltac ran c m :=
  match goal with |- step _ _ _ _ _ _ _ ?w =>
    let R := fresh in assert (m = Ok w) as R by (by vm_compute); unfold m in R; eapply c, R end.
Ltac answered c m :=
  match goal with |- step _ _ _ _ _ _ _ ?w =>
    let R := fresh in assert (snd <$> m = Ok w) as (? & R)%answered_Ok by (by vm_compute); unfold m in R; eapply c, R end.

Lemma demo_read : read_back demo_plan ∧ typed_documents demo_docs.
Proof. split; [exists demo_entries; by vm_compute|]. intros w p [= <- <-]. by vm_compute. Qed.

Lemma demo_applied : ∃ r, applied 70 run6 = Ok (r, run7) ∧ Applied r = true.
Proof.
  assert ((λ x, (Applied x.1, x.2)) <$> applied 70 run6 = Ok (true, run7)) as E by (by vm_compute). revert E.
  generalize (applied 70 run6). intros [[r w]|] [= E <-]. eauto.
Qed.

Lemma demo_verified stored : demo_history stored run0 run7.
Proof.
  apply rtc_l with run1; [answered step_claim do_claim|]. apply rtc_l with run2; [ran step_commit do_commit|].
  apply rtc_l with run3; [answered step_lease do_leasing|].
  apply rtc_l with run4; [answered step_sampling do_sampling|]. apply rtc_l with run5; [answered step_artifact do_sealing|]. apply rtc_l with run6.
  - assert (snd <$> planned = Ok run6) as (p & R)%answered_Ok by (by vm_compute). unfold planned in R. destruct p as [p b]. exact (step_plan _ _ _ _ _ _ _ _ _ _ _ _ _ _ _ _ _ _ R).
  - apply rtc_once. destruct demo_applied as (r & R & _). unfold applied in R. exact (step_apply _ _ _ _ _ _ _ _ _ _ _ _ _ _ (λ _, demo_read) R).
Qed.

Lemma demo_completed stored : demo_history stored run7 run8.
Proof. apply rtc_once. assert (do_finishing = Ok run8) as R by (by vm_compute). eapply step_finish, R. intros d d' [= <-]. done. Qed.

Lemma demo_run stored : demo_history stored run0 run8.
Proof. etrans; [apply demo_verified|apply demo_completed]. Qed.

(** The start is in order. *)
Lemma start_uncharged id : charges id (moneys run0) = [].
Proof. reflexivity. Qed.

Lemma start_task id t : w_tasks run0 !! id = Some t → id = 21%N ∧ t = demo_task.
Proof. intros L. unfold run0 in L. simpl in L. by apply lookup_singleton_Some in L as [<- <-]. Qed.

Lemma start_hedges : hedges_ok run0.
Proof.
  split.
  - intros id C. by destruct C.
  - by intros id t root [_ ->]%start_task.
  - intros id. rewrite start_uncharged. simpl. lia.
  - intros root i1 t1 i2 t2 [-> _]%start_task [-> _]%start_task. done.
Qed.

Lemma start_mirror : mirror_ok run0.
Proof. intros id t [-> ->]%start_task. by vm_compute. Qed.

Lemma start_finished : finished_ok run0.
Proof.
  intros J id t (r & L & C) [-> ->]%start_task <-. exfalso. vm_compute in L. injection L as <-. done.
Qed.

Lemma start_capped : capped 1%N 10000000 500000 demo_terms 0 run0.
Proof.
  split; [split|].
  - by vm_compute.
  - by eexists.
  - by eexists.
  - apply start_mirror.
  - intros id C. by destruct C.
  - by vm_compute.
  - by vm_compute.
  - by intros id t [_ ->]%start_task.
  - split; [by vm_compute|]. intros n [= <-]. split; [split|]; by vm_compute.
  - by intros id t [_ ->]%start_task.
  - left. by vm_compute.
Qed.

Lemma start_backed : backed run0.
Proof.
  split.
  - apply start_mirror.
  - intros id C. by destruct C.
  - intros id r I [K _]. assert (r = money demo_topup) as -> by (by apply list_elem_of_singleton in I). done.
  - intros id J j r _ _ _ I C. assert (r = money demo_topup) as -> by (by apply list_elem_of_singleton in I). done.
Qed.

Lemma start_purse : purse_ok (w_purse run0).
Proof.
  assert (∀ b c, balance_of (w_purse run0) b c = if decide ((7%N, "cad") = (b, c)) then 20000000 else 0) as B.
  { intros b c. unfold balance_of, run0. cbn [w_purse purse_balances]. case_decide as D; [rewrite <-D; by rewrite lookup_singleton_eq|].
    by rewrite lookup_singleton_ne. }
  split; intros b c; rewrite B; [|by case_decide].
  unfold prepaid_sum, run0, run_books. cbn [w_purse purse_books ledger]. rewrite sum_micros_cons. simpl.
  case_decide as D; [by injection D as <- <-|]. case_match eqn:E; [|done]. reflect_bools. simplify_eq.
Qed.

(** ** At the theorems *)

(** The first attempt fails for lack of memory; the second is claimed. *)
Definition do_failing := FailTaskTx 15 21%N 5%N 0 "oom" run1.
Definition retried0 : world := Eval vm_compute in snd_or run1 do_failing.
Definition do_reclaim := ClaimTasksTx cad_st all_supply (10 * minute) 5%N None (Some 21%N) (Ok tt) retried0.
Definition retried1 : world := Eval vm_compute in snd_or retried0 do_reclaim.

Lemma superseded_attempt_inert_witness :
  ∃ t, w_tasks retried0 !! 21%N = Some t ∧ t_retry t = 1 ∧
  t_claimed_by <$> (w_tasks retried1 !! 21%N) = Some (Some 5%N) ∧ StartTask cad_st all_supply 20 21%N 5%N 0 retried1 = Err errNotFound.
Proof.
  destruct (w_tasks retried0 !! 21%N) as [t|] eqn:L; [|by vm_compute in L]. exists t. split; [done|].
  assert (t_retry t = 1) as R by (vm_compute in L; by injection L as <-). split_and!; [done|by vm_compute|].
  refine (proj1 (superseded_attempt_inert cad_st all_supply one_text no_effect all_known true retried0 retried1 21%N t 0 _ L _) _ _); [|lia].
  apply rtc_once. answered step_claim do_reclaim.
Defined.

Lemma attempt_decided_once_witness :
  w_verdicts run8 !! (21%N, 0) =
    Some (verdict_row demo_info demo_lease demo_plan (dc_outcome (vp_decision demo_plan)) (vp_digest demo_plan)).
Proof.
  destruct demo_applied as (r & R & A).
  exact (proj1 (attempt_decided_once cad_st all_supply one_text no_effect all_known true 70 demo_lease demo_plan demo_info
                  demo_docs run6 r run7 run8 R A (demo_completed true))).
Defined.

Lemma family_charged_once_witness :
  is_charged run8 21%N ∧ (length (filter (λ r, family_charge run8 21%N r = true) (ledger (books run8))) ≤ 1)%nat.
Proof.
  split; [by vm_compute|].
  exact (family_charged_once cad_st all_supply one_text no_effect all_known true run0 run8 21%N start_hedges (demo_run true)).
Defined.

(** The watchdog puts the charged task back; it is executed and committed again. *)
Definition do_requeue := RequeueTask 80 21%N run7.
Definition wedged0 : world := Eval vm_compute in ok_or run7 do_requeue.
Definition do_second_claim := ClaimTasksTx cad_st all_supply (10 * minute) 5%N None (Some 21%N) (Ok tt) wedged0.
Definition wedged1 : world := Eval vm_compute in snd_or wedged0 do_second_claim.
Definition do_second_commit := completeTaskTx (11 * minute) 21%N 5%N 32%N (mkCommit 1 (attempt_key 1%N 21%N 1) "" 100 200) (Ok "{}") wedged1.
Definition wedged2 : world := Eval vm_compute in ok_or wedged1 do_second_commit.

Lemma demo_charged : is_charged run7 21%N.
Proof. by vm_compute. Qed.

Lemma demo_wedged stored : demo_history stored run7 wedged2.
Proof.
  apply rtc_l with wedged0; [ran step_requeue do_requeue|].
  apply rtc_l with wedged1; [answered step_claim do_second_claim|]. apply rtc_once. ran step_commit do_second_commit.
Qed.

Lemma charged_never_accepted_again_witness :
  (t_status <$> w_tasks wedged2 !! 21%N) = Some TVerifying ∧
  ∀ now l p info docs r w2, in_task info = 21%N → payable (dc_outcome (vp_decision p)) = true →
    VerifyJobTx cad_st all_supply one_text no_effect all_known now l p info docs wedged2 = Ok (r, w2) → Applied r = false ∧ w2 = wedged2.
Proof.
  split; [by vm_compute|]. apply (charged_never_accepted_again cad_st all_supply one_text no_effect all_known true run7).
  - eapply hedges_history; [apply (demo_verified true)|]. apply start_hedges.
  - apply demo_wedged.
  - apply demo_charged.
Defined.

Lemma demo_complete : is_complete run8 1%N.
Proof.
  assert (job_status <$> job_row run8 1%N = Some "complete") as E by (by vm_compute). unfold is_complete.
  destruct (job_row run8 1%N) as [j|]; [|done]. injection E as E. eauto.
Qed.

(** The watchdog puts the finished task of the complete job back. *)
Definition do_late_requeue := RequeueTask 90 21%N run8.
Definition run9 : world := Eval vm_compute in ok_or run8 do_late_requeue.

Lemma complete_job_final_witness :
  (t_status <$> w_tasks run9 !! 21%N) = Some TRetrying ∧ is_complete run9 1%N ∧ ∀ id t2, w_tasks run9 !! id = Some t2 → t_job t2 = 1%N → w_tasks run8 !! id ≠ None.
Proof.
  destruct (complete_job_final cad_st all_supply one_text no_effect all_known false run0 run8 run9 1%N) as (A & _ & B).
  - apply start_finished.
  - apply demo_run.
  - apply demo_complete.
  - apply rtc_once. ran step_requeue do_late_requeue.
  - split; [by vm_compute|by split].
Defined.

(** The task is charged, put back by the watchdog and executed again. *)
Lemma charges_within_cap_witness : charged_micros wedged2 1%N = 2250000 ∧ charged_micros wedged2 1%N + 500000 ≤ 10000000.
Proof.
  assert (charged_micros wedged2 1%N = 2250000) as C by (by vm_compute). split; [done|].
  apply (charges_within_cap 1%N 10000000 500000 demo_terms cad_st all_supply one_text no_effect all_known run0 wedged2).
  - apply start_capped.
  - etrans; [apply demo_verified|apply demo_wedged].
  - rewrite C. lia.
Defined.

Lemma demo_charge : ∃ r, r ∈ moneys run8 ∧ is_charge_of 21%N r = true.
Proof.
  assert (charges 21%N (moneys run8) ≠ []) as N by (by vm_compute). revert N. unfold charges. generalize (moneys run8). intros l N.
  destruct (filter _ l) as [|r rs] eqn:E; [done|]. exists r.
  assert (r ∈ filter (λ r, is_charge_of 21%N r = true) l) as [C I]%list_elem_of_filter by (rewrite E; left). done.
Qed.

Lemma demo_job : ∃ j, job_row run8 1%N = Some j ∧ prepaid_required j = true.
Proof.
  assert (prepaid_required <$> job_row run8 1%N = Some true) as E by (by vm_compute). revert E. generalize (job_row run8 1%N).
  intros [j|] [=]. eauto.
Qed.

Lemma demo_mirrored : tasks (books run8) !! 21%N = Some 1%N.
Proof. by vm_compute. Qed.

Lemma prepaid_charges_debited_witness :
  ∃ r j, r ∈ moneys run8 ∧ is_charge_of 21%N r = true ∧ job_row run8 1%N = Some j ∧ paid_by run8 (job_buyer j) 21%N r.
Proof.
  destruct demo_charge as (r & I & C). destruct demo_job as (j & J & P). exists r, j.
  pose proof (proj1 (prepaid_charges_debited cad_st all_supply one_text no_effect all_known true run0 run8 21%N 1%N j r
                       start_backed start_purse (demo_run true)) demo_mirrored J P I C) as B.
  exact (conj I (conj C (conj J B))).
Defined.

(** The same job priced for two families, preferring another machine than worker 5. *)
Definition demo_multi : jobx :=
  mkJobx 1 0 (Some 10000000) None "not_attempted" 0 "batch" "tracking"
    (Some (mkPlacement 4 "rt" (mkMachine "cuda" "a100" "vllm" "b2" "p1"))) None (Some demo_terms) (Some (2, 0)).
Definition multi0 : world := with_jobs run0 {[ 1%N := demo_multi ]}.
Definition do_other_claim := ClaimTasksTx cad_st all_supply 10 5%N None (Some 21%N) (Ok tt) multi0.
Definition multi1 : world := Eval vm_compute in snd_or multi0 do_other_claim.

Lemma other_family_never_runs_witness :
  (t_claimed_by <$> w_tasks multi1 !! 21%N) = Some (Some 5%N) ∧ is_ok (StartTask cad_st all_supply 20 21%N 5%N 0 multi1) = false.
Proof.
  assert (∃ t, w_tasks multi1 !! 21%N = Some t ∧ t_claimed_by t = Some 5%N ∧ w_jobs multi1 !! t_job t = Some demo_multi) as (t & L & C & J).
  { eexists. split; [by vm_compute|]. split; by vm_compute. }
  split; [by rewrite L, <-C|].
  refine (proj1 (proj2 (other_family_never_runs cad_st all_supply multi1 21%N t demo_multi
    (mkPlacement 4 "rt" (mkMachine "cuda" "a100" "vllm" "b2" "p1")) 5%N demo_worker L J _ _ _ _)) _ _); by vm_compute.
Defined.

(** The settled job is disputed; another worker could check it. *)
Definition docket0 : docket :=
  mkDocket (with_workers run8 (<[8%N := mkWorker 9%N "rt" demo_machine (Some 0) false 0]> (w_workers run8))) ∅ [] {[ 1%N := 200 ]}.
Definition docket1 : docket := Eval vm_compute in ok_or docket0 (RecordDispute 300 51%N 1%N 7%N " wrong vectors " docket0).

Lemma docket_filed : RecordDispute 300 51%N 1%N 7%N " wrong vectors " docket0 = Ok docket1.
Proof. by vm_compute. Qed.


Lemma reverification_never_starts_witness :
  ∃ err, resolveDisputes all_supply (λ _ _, Some 8%N) (λ _, 61%N) (λ _, Ok demo_machine) (λ _ _ s, Ok s) 400 docket1 = (docket1, Some err).
Proof.
  assert (∃ d, dk_disputes docket1 !! 51%N = Some d ∧ dp_job d = 1%N ∧ dp_status d ≠ "reverifying") as (d & D & J & S)
    by (eexists; split; [by vm_compute|split; by vm_compute]).
  assert (∃ t, ReverifyTarget (dk_world docket1) 1%N = Some (21%N, t) ∧ t_chunk t = 0) as (t & T & C)
    by (eexists; split; by vm_compute).
  refine (reverification_never_starts cad_st all_supply one_text no_effect all_known (λ _ _, Some 8%N) (λ _, 61%N) (λ _, Ok demo_machine)
    (λ _ _ s, Ok s) false 300 400 51%N 1%N 7%N " wrong vectors " docket0 docket1 docket1 d 21%N t 8%N docket_filed (rtc_refl _ _) _ D J S T eq_refl _).
  - by vm_compute.
  - rewrite C. by vm_compute.
Defined.
